(* ===== verification/_CoqProject ===== *)
-Q . S2P
Prelude.v
Coordinates.v
CoordinateLayout.v
CartesianLayout.v
HexagonalLayout.v
ShiftedCartesianLayout.v
ClockingScheme.v
ClockedLayout.v
SynchronizationElementLayout.v
GateLevelLayout.v
GateLevelInvariant.v
GateLevelDataFlow.v
MockturtleModel.v
GateLevelProperties.v
CountGateTypes.v
CriticalPath.v
CellTechnology.v
CellLevelLayout.v
BoundingBox.v
AspectRatioIterator.v
CellPorts.v
FcnGateLibrary.v
GatePaths.v
QcaOneLibrary.v
QcaOneProperties.v
ApplyGateLibrary.v
SidbBestagonLibrary.v
SidbBestagonProperties.v
ApplyBestagon.v
InmlTopolinanoLibrary.v
InmlTopolinanoProperties.v
Networks.v
PlacementUtils.v
NetworkModel.v
EdgeColoring.v
EdgeColoringProperties.v
Orthogonal.v
LayoutBuilding.v
OrthogonalProperties.v
OrthogonalPlacement.v
TechnologyNetwork.v
TechnologyInvariant.v
NetworkCopy.v
KlutModel.v
FanoutSubstitution.v
FanoutTrees.v
FanoutProperties.v
NetworkBalancing.v
BalancingProperties.v
TransformationExamples.v
DesignRuleViolations.v
DesignRuleProperties.v
DesignRuleVerdict.v
EquivalenceChecking.v
FqcaFormat.v
FqcaRoundtrip.v
GateCreation.v
NetworkConversion.v
XagModel.v
InverterBalancing.v
InverterPairs.v
InverterRun.v
InverterProperties.v
InverterTermination.v
InverterExamples.v
TopoViewInputSort.v
TopoViewProperties.v
TopoViewModel.v
InputSortView.v
NewColoring.v
NewColoringProperties.v
NewColoringPhases.v
NewColoringExamples.v
OrderingNetwork.v
OrderingProperties.v
OrderingExamples.v
NewRouting.v
NewRoutingProperties.v
NewRoutingExamples.v
