(* ===== verification/Prelude.v ===== *)
(** * Verification of the layout and technology core of fiction

    fiction designs circuits for field-coupled nanotechnologies (FCN). Its C++ headers, under
    [src/include/fiction/], provide layouts on several levels of abstraction, algorithms that fill
    them, and technologies that realize them. This development models the layouts, the QCA, iNML
    and SiDB technologies, the transformations of logic networks, their scalable physical design and
    its verification: their data, every operation that changes state, and most queries, as executable
    definitions, and proves what makes them correct.

    ** The parts and their files

    The layouts are class templates stacked on each other; each layer calls the one below.

    - [layouts/coordinates.hpp]: [Coordinates.v]. Module [Offset] has the 64-bit coordinate
      [ucoord_t] with its bit fields (1 + 1 + 31 + 31), the conversions to and from [uint64_t], the
      comparisons and [coord_iterator]; module [Cube] has [cube::coord_t]; then [area], [volume].
    - The interface between the layers: [CoordinateLayout.v]. Class [CoordinateLayout] is what
      clocked and gate-level layouts call of the layout they extend, class [CoordinateLayoutLaws]
      what their correctness relies on, for the layouts that are [representable]: those on which the
      arithmetic of the operations does not overflow.
    - [layouts/cartesian_layout.hpp]: [CartesianLayout.v], an instance of both classes.
    - [layouts/hexagonal_layout.hpp]: [HexagonalLayout.v], an instance of both classes for each of the
      four arrangements of hexagons.
    - [layouts/shifted_cartesian_layout.hpp]: [ShiftedCartesianLayout.v], which inherits the operations
      of the hexagonal layouts. ([layouts/tile_based_layout.hpp] only renames operations.)
    - [layouts/clocking_scheme.hpp]: [ClockingScheme.v], the class with its overrides, all
      predefined schemes with their cutouts, and [get_clocking_scheme].
    - [layouts/clocked_layout.hpp]: [ClockedLayout.v], over any [CoordinateLayout].
    - [layouts/synchronization_element_layout.hpp]: [SynchronizationElementLayout.v], over clocked
      layouts.
    - [layouts/gate_level_layout.hpp]: [GateLevelLayout.v] has all operations, with the storage
      passed explicitly. [GateLevelInvariant.v] has the abstract specification, the invariant and the
      refinement. [GateLevelDataFlow.v] characterizes the data flow. [MockturtleModel.v] is a
      concrete instance of what the layout uses of mockturtle and kitty. [GateLevelProperties.v] has
      the theorems.
    - [algorithms/properties/count_gate_types.hpp]: [CountGateTypes.v].
    - [algorithms/properties/critical_path_length_and_throughput.hpp]: [CriticalPath.v], the
      recursion with its cache and a reference without one.
    - [technology/cell_technologies.hpp]: [CellTechnology.v]; classes [Technology] and
      [TechnologyLaws] are what cell-level layouts use of their technology.
    - [layouts/cell_level_layout.hpp]: [CellLevelLayout.v], over any technology.
    - [layouts/bounding_box.hpp]: [BoundingBox.v], over class [BoundedLayout] with instances for
      gate-level and cell-level layouts.
    - [algorithms/iter/aspect_ratio_iterator.hpp]: [AspectRatioIterator.v].
    - [technology/cell_ports.hpp]: [CellPorts.v].
    - [technology/fcn_gate_library.hpp] and [utils/array_utils.hpp]: [FcnGateLibrary.v].
    - [technology/qca_one_library.hpp]: [QcaOneLibrary.v] with the gates, the lookup tables,
      [set_up_gate] and [post_layout_optimization]; [QcaOneProperties.v] with their theorems.
    - [algorithms/physical_design/apply_gate_library.hpp]: [ApplyGateLibrary.v], the pass over the
      classes [GateLibrary] and [TileGrid], with its theorem for QCA ONE on Cartesian layouts.
    - [technology/sidb_bestagon_library.hpp]: [SidbBestagonLibrary.v] with the gates, the lookup tables
      and [set_up_gate]; [SidbBestagonProperties.v] with their theorems; [ApplyBestagon.v], the pass
      with this library on layouts of pointy-top hexagons.
    - [technology/inml_topolinano_library.hpp]: [InmlTopolinanoLibrary.v] with the gates, the tables,
      [set_up_gate] and the state machine of [post_layout_optimization];
      [InmlTopolinanoProperties.v] with their theorems and the library's instance of the pass.
    - [GatePaths.v] has paths of adjacent cells in gates, in which the theorems on libraries speak.
    - [utils/network_utils.hpp]: [Networks.v], over the classes [Network] and [NetworkLaws], which are
      what the algorithms use of a logic network.
    - [utils/placement_utils.hpp] and [utils/name_utils.hpp]: [PlacementUtils.v], over class
      [GateNetwork], a network with the functions of its gates.
    - [networks/views/edge_color_view.hpp] and the coloring of [orthogonal.hpp]: [EdgeColoring.v], over
      the classes [ColorView] and [ColorViewLaws] of edges with colors, with an instance on maps;
      [EdgeColoringProperties.v] has the theorems.
    - [algorithms/physical_design/orthogonal.hpp]: [Orthogonal.v], the whole run from the network to the
      layout. [LayoutBuilding.v] has what its placing and routing does to a layout, in terms of the
      tiles it changes; [OrthogonalProperties.v] has the theorems and examples, and
      [OrthogonalPlacement.v] where each node is placed.
      [NetworkModel.v] is a concrete instance of networks, a list of gates.
    - The coloring and the delays of [algorithms/physical_design/ortho_new.hpp]: [NewColoring.v], with the
      states it goes through and the delays in [NewColoringProperties.v], what its two phases paint in
      [NewColoringPhases.v] and the witnesses in [NewColoringExamples.v]. Its wires, and
      the buffers that delay a signal: [NewRouting.v], with the theorems in [NewRoutingProperties.v] and
      the witness and a crossing in [NewRoutingExamples.v].
    - [algorithms/physical_design/ortho_ordering_network.hpp]: [OrderingNetwork.v], the run on a network
      with sorted inputs, with the theorems in [OrderingProperties.v] and the witness and networks on
      which the result is wrong in [OrderingExamples.v].
    - [networks/technology_network.hpp] and [networks/sequential_technology_network.hpp]:
      [TechnologyNetwork.v], over class [Klut] of what the classes inherit from mockturtle.
      [TechnologyInvariant.v] has the invariant [network_wf], the Boolean functions of a network
      ([simulate]) and the creation of gates; [NetworkCopy.v] has what copying a network gate by gate
      preserves. [KlutModel.v] is a concrete instance of [Klut] and its laws.
    - [algorithms/network_transformation/fanout_substitution.hpp]: [FanoutSubstitution.v], with the
      theorems in [FanoutTrees.v] and [FanoutProperties.v].
    - [algorithms/network_transformation/network_balancing.hpp]: [NetworkBalancing.v], with the theorems
      in [BalancingProperties.v]; [TransformationExamples.v] has examples of both transformations.
    - [algorithms/network_transformation/network_conversion.hpp]: [NetworkConversion.v], over class
      [Source] of the networks that are converted; [GateCreation.v] has what the creations of gates
      compute, [XagModel.v] an instance of [Source] and the witness.
    - [algorithms/network_transformation/fanout_inverter_balancing.hpp]: [InverterBalancing.v]. The proofs
      are in [InverterPairs.v] (the nodes that a run balances), [InverterRun.v] (what a run builds),
      [InverterProperties.v] (the functions and uses of the result) and [InverterTermination.v] (the loop);
      [InverterExamples.v] has the witness and networks on which the algorithm fails.
    - [networks/views/topo_view_input_sort.hpp] and [networks/views/reverse_view.hpp]:
      [TopoViewInputSort.v], over class [SequentialNetwork], with the theorems in
      [TopoViewProperties.v]; [TopoViewModel.v] has the instance on netlists, the witness and networks on
      which the ranking of the inputs fails. [networks/views/input_sort_view.hpp]: [InputSortView.v].
    - [algorithms/verification/design_rule_violations.hpp]: [DesignRuleViolations.v] has the checks, over
      class [CheckedLayout]; [DesignRuleProperties.v] has what they count and
      [DesignRuleVerdict.v] for which layouts they count nothing.
    - [algorithms/verification/equivalence_checking.hpp]: [EquivalenceChecking.v], over class [Design] of
      networks and layouts and class [Verifier] of the miter and the SAT check of mockturtle.
    - [io/write_fqca_layout.hpp] and [io/read_fqca_layout.hpp]: [FqcaFormat.v] has the writer and the
      reader, [FqcaRoundtrip.v] what they do to each other's files.

    ** How state and effects are modelled

    Integers are [Z]; [wrap w] truncates to [w] bits wherever the code assigns to an unsigned type
    or a bit field. An access behind the end of a vector, a division by zero and the overflow of a
    signed type are [None]. Exceptions of the gate libraries are values of [gate_result].
    Objects are records that the operations take and return; [std::vector] is [list],
    [std::unordered_map] and [std::unordered_set] are [gmap] and [gset], and [std::set] is the sorted
    list of its elements ([set_insert]). A [foreach_] function is the collection of elements its
    functor is applied to. The storage a layout shares with its copies is a component of the layout
    record; the counts of inputs, outputs and registers, which the code keeps outside of the shared
    storage, are a separate component, so that a layout made from shared storage is modelled too
    ([GateLevel.make_from_storage]).

    mockturtle and kitty are submodules without code in the repository: node storage, the cache of
    truth tables and truth tables are the parameters of class [GateLevel.Mockturtle], and
    [GateLevel.MockturtleLaws] states the documented behaviour the theorems rely on (new nodes are
    zeroed; the cache returns what was inserted). [MockturtleModel.v] shows that the laws can hold
    and lets the examples evaluate. The networks that are placed are mockturtle's as well: the classes
    [Network], [GateNetwork] and [ColorView] hold the members that the code calls, and
    [NetworkLaws] that a network is an acyclic graph whose nodes are enumerated in topological order,
    which is what [topo_view] documents; [NetworkModel.netlist_laws] shows that they can hold. Technology
    networks extend mockturtle's k-LUT networks: class [Klut] holds the inherited members, [KlutLaws]
    their documented behaviour (reference counts, orders, copies of inputs, levels, and that the cache
    of truth tables finds what it holds), and [KlutModel.list_klut_laws] shows that it can hold.

    ** What the theorems show

    - Gate-level layouts. A placement is specified as a list of gates and a partial map from nodes to
      tiles, with lists of inputs and outputs. Every creating or moving operation keeps the
      invariant [layout_wf], stays within its vectors, and acts as specified
      ([operations_refine]); so does every sequence of them ([reachable_layouts_wf]). After any such
      sequence, nodes and tiles are where the specification of the sequence places them
      ([get_node_get_tile_inverse]) and the counters of wires and gates count what it places
      ([counters_correct]). From the invariant: overwritten nodes die, incoming and outgoing data flow are converse, and [foreach_fanin]
      visits exactly the children on preceding zones. Further theorems say exactly what happens in
      the cases the invariant excludes or the documentation does not expect: outputs moved off the
      layout, outputs without tiles, inputs created after registers, and reference counts that wrap
      around.
    - Hexagons. Adjacency is distance 1 in cube coordinates, opposite neighbors are point-symmetric,
      and the conversion to cube coordinates and back is exact on layouts of up to 2^29 - 2 columns and
      rows. Through the laws, the data-flow theorems of the upper layers hold on hexagonal layouts too.
      On shifted Cartesian layouts adjacency is what the documentation draws: squares that share a part
      of a side.
    - Properties of layouts. The gate counts are exact. The critical path is that of a longest chain
      along the data flow, and its computation terminates, on Cartesian layouts with a linear clocking
      scheme; the cache does not change the throughput; where a loop of the data flow feeds an output, on
      any layout, the computation diverges.
    - Clocking. Clock numbers of all registered schemes are below the number of clocks, also after
      overrides; the linear schemes admit no cycle on a layout of any size; the degrees the schemes
      declare bound the degrees of every zone; incoming and outgoing zones are dual;
      synchronization elements extend both relations as documented, and the degrees with them.
    - Coordinates. The conversions to [uint64_t] are bijective, the order is a strict weak order, areas
      do not overflow, a loop over all coordinates terminates and visits the documented loop nest; and
      the layouts for which it does not terminate are characterized.
    - Cells. After any history of assignments, types, modes, names, inputs and outputs are as the
      history says; clock numbers of cells are those of their tiles; bounding boxes are minimal.
    - QCA ONE. Each gate that [set_up_gate] selects for a tile connects all ports of the tile, in the
      sense of paths of adjacent cells, inverters invert, the sides without port of AND and OR gates
      are the right constants; the lookup tables cover exactly the fitting routings; vias are set up
      at the ends of crossing wires and nowhere else; rotations move cells as named.
    - Bestagon. The gate of a tile has an arm of dots for each of its ports and no other, up to a loose
      end on the tiles of inputs and outputs; mirrored gates are mirror images, with the one exception
      found, whose arms are a row too low; the wires of tiles below each other continue each other;
      the pass places exactly the cells of the gates, but not all of them fit the cell-level layout, and
      no inputs and outputs are marked.
    - ToPoliNano. The gates of wires and inverters connect all ports of their tiles, the ports of wires
      in adjacent shifted tiles meet, and the straightening of wires terminates in a layout without
      humps to merge; an example shows what it does at the border of a layout.
    - Gate libraries applied. On a well-formed layout for whose tiles QCA ONE has gates, the pass
      terminates without an exception, and every tile of the resulting cell-level layout is the
      block of its gate, up to vias, with the right inputs, outputs, names and clock numbers
      ([apply_gate_library_realizes]). This composes the theorems on all layers.
    - Orthogonal placement. The coloring of edges terminates, colors every edge, and is proper whenever
      the relation graph has a proper coloring; the collected fanin edges and paths of a node are
      complete. On every network within the assumptions of the algorithm the run ends in a
      well-formed layout that has the placed nodes, inputs and outputs; each node is on the tile that
      its color and the nodes before it determine, and the layout has the announced size
      ([placement_fills_layout]). A routed connection is a chain of wires from its source to its
      target. Two closed examples show results that are not as documented: outputs that are permuted,
      and a row of outputs that overwrites a gate.
    - Conditional coloring. It ends on networks with ready inputs ([inputs_ready]): fanout nodes behind
      inputs have two outputs, and with an inverter the second one does not meet another input directly.
      The first phase colors the outputs of a fork that meets another input oppositely; the second one
      colors, gate by gate, what is connected to the first uncolored fanin edge, and completes the coloring
      ([new_coloring_complete]). An example shows that the first phase can leave its vector on other
      networks. The delays of majority gates balance the fanins of a node. The buffers that
      realize them are chains of wires whose clock numbers follow each other, where their tiles are free
      ([buffers_delay]); an example shows that a buffer that crosses a wire loses its delay.
    - Orthogonal placement with ordered inputs. On the same networks, recoloring stays within the
      vectors of fanouts, and the run ends in a well-formed layout with all inputs and outputs, the
      outputs at its eastern border ([ordering_well_formed]); each node takes at most four more columns
      and rows. The crossings are counted only if the layout got a row for gates. Examples show a layout of
      2^31 rows, whose tiles are iterated forever ([inverter_diverges]), a gate that overwrites its fanin,
      and an output outside of the layout.
    - Network transformations. Fanout substitution and network balancing succeed on every well-formed
      network, return a well-formed network that computes the same functions, and pass their own
      checks; the first under the condition that no gate repeats a fanin, and an example shows that it
      is needed. The proofs follow the loops with an invariant that maps each new node to the node
      whose function it computes; for fanout substitution it counts the outputs that the fanout
      nodes have left, for balancing it has the levels of the nodes. Conversion keeps the functions of
      networks of any type. The balancing of inverters is correct, and its loop ends, on
      fanout-substituted networks without inverters at outputs: every round that finds a node to
      balance removes an inverter ([inverter_balancing_correct]). Examples show that outside of these
      it changes functions or does not end.
    - Views. Where the ranking of the inputs succeeds, the depth-first search of [topo_view_input_sort]
      ends and lists the constants, all inputs and the cone of the outputs, each node once and behind its
      fanins ([topo_view_correct]); the ranking succeeds where no input meets two others behind a fanout
      node ([few_partners_sorted]). Examples show where it loses an input or leaves its vector, and that
      [input_sort_view] loses and repeats inputs.
    - Verification. The design rule checks end on every well-formed Cartesian layout whose loop over all
      tiles ends, and find no violation, and give no warning, exactly where the positions, clock numbers
      and data flow are in order ([violations_detected]); a layout without violations has lost no
      connection ([clean_layouts_connected]), by the theorems on data flow. The equivalence check ends
      and its answer is the described one, with one exception: designs that agree in a throughput below
      1/1 are called strongly equivalent ([agreeing_throughputs_are_strong]).
    - Files. A QCA layout written as a QCA-STACK file is read back with the same cells
      ([fqca_round_trip]); the proof goes through the lines of the file. Examples show what is lost: modes,
      clock numbers of constants, spaces in names, and layers that the coordinates cannot hold.
    - Aspect ratios. The factorization is exact and the iteration reaches every ratio.

    ** Fuel

    The loops whose termination depends on the data take fuel and return [None] when it runs out:
    [Offset.iter_range], the loop over a coordinate range, for which [volume + 1] steps are enough
    on every layout that terminates at all ([coordinates_enumerate_layout]); [BoundingBox.scan_down],
    for which the dimension plus 1 is enough when the ground layer is occupied ([bounding_box_minimal])
    and nothing otherwise ([bounding_box_diverges]); [CriticalPath.signal_delay], whose fuel bounds
    the nesting of its calls, for which the sum of the dimensions plus 1 is enough under linear
    clocking and nothing is on a loop ([critical_path_diverges]); [AspectRatioIterator.next], for which one step is
    always enough below 2^52 faces; [Topolinano.straighten], for which the number of cells plus 1 is
    enough, since every pass but the last removes a cell; [EdgeColoring.recursively_paint_edges], for which the number of
    edges plus 1 is enough, since every call paints an edge that had no color; and
    [Networks.all_incoming_edge_paths] with [Networks.inverse_levels], for which the number of nodes
    bounds the depth of the recursion (also for [NewColoring.majority_buffer]);
    [NewColoring.paint_outputs], whose index is set back at most once, so that two more steps than
    outputs are enough; and [InverterBalancing.rerun], for which more rounds than the
    network has inverters are enough, and no number is on the network of [unsubstituted_diverges]; and
    [TopoView.create_topo_rec], for which more than the depth of the outputs is enough.
    [post_layout_optimization], [apply_gate_library], [OrderingNetwork.crossing_count] and
    [DesignRules.placed_dead_nodes_check] loop over all cells or tiles and pass their fuel on. All theorems of success are stated with that fuel, none only for
    runs that return.

    ** What is not modelled

    Of [ortho_new.hpp] and the other variants of the orthogonal algorithm with majority gates and
    registers, the loop that places the gates is not modelled. Network
    transformations are modelled between technology networks without names and registers (conversion
    from any type to these). The exact physical design and one-pass synthesis are programs over Z3 and
    other external solvers; other file formats, printing and the command line are input and output. In
    the modelled headers, network events, the formatting of coordinates and ports for fmt, the hashes
    of ports, and the [compute] functions of gate-level layouts are left out. *)

From stdpp Require Export base gmap strings list fin_maps numbers option pretty relations.
From Stdlib Require Import Sorting.Sorted.
From Stdlib Require Export ZArith Lia.

Declare Scope fiction_scope.
Delimit Scope fiction_scope with fiction.
#[global] Open Scope Z_scope.

(** ** Machine-width integers *)

(** Truncation of an integer to [w] bits: assignment to an unsigned bit field or unsigned variable. *)
Definition wrap (w n : Z) : Z := n mod 2 ^ w.

(** Left shift of a 64-bit unsigned integer: bits shifted past the top are lost. *)
Definition shl64 (a n : Z) : Z := wrap 64 (Z.shiftl a n).

(** [in_width w n]: [n] is representable in [w] unsigned bits. *)
Definition in_width (w n : Z) : Prop := 0 <= n < 2 ^ w.

#[global] Instance in_width_dec w n : Decision (in_width w n).
Proof. unfold in_width. apply _. Defined.

(** ** Containers of the C++ standard library *)

(** [std::set<T, Compare>] as the sorted list of its elements. [insert] keeps the first of two
    elements that the comparator does not separate, as [std::set::insert] does. *)
Section StdSet.
Context {A : Type} (lt : A → A → bool).

Fixpoint set_insert (a : A) (s : list A) : list A :=
  match s with
  | [] => [a]
  | b :: s' => if lt a b then a :: s else if lt b a then b :: set_insert a s' else s
  end.

Definition set_of_list (l : list A) : list A := foldl (λ s a, set_insert a s) [] l.
End StdSet.

(** [v[i]] with a checked index: [None] stands for the undefined out-of-range access. *)
Definition vec_at {A} (v : list A) (i : Z) : option A :=
  if decide (0 <= i) then v !! Z.to_nat i else None.

(** The iterator range [[v.begin() + first, v.begin() + last)]; [None] when an end of the range
    lies outside of the vector, which is undefined behaviour. *)
Definition vec_range {A} (v : list A) (first last : Z) : option (list A) :=
  if decide (0 <= first ∧ first <= last ∧ last <= Z.of_nat (length v))
  then Some (take (Z.to_nat (last - first)) (drop (Z.to_nat first) v))
  else None.

(** [v.insert(v.begin() + i, a)]. *)
Definition vec_insert {A} (v : list A) (i : Z) (a : A) : option (list A) :=
  if decide (0 <= i ∧ i <= Z.of_nat (length v))
  then Some (take (Z.to_nat i) v ++ a :: drop (Z.to_nat i) v)
  else None.

(** [f(v[i])]: an update of the element at an index in range. *)
Definition vec_update {A} (v : list A) (i : Z) (f : A → A) : option (list A) :=
  a ← vec_at v i; Some (<[Z.to_nat i := f a]> v).

(** A C++ loop [while (cond(s)) s = body(s);] run for at most [fuel] iterations. *)
Fixpoint while_loop {S} (fuel : nat) (cond : S → bool) (body : S → S) (s : S) : option S :=
  match fuel with
  | O => None
  | S fuel' => if cond s then while_loop fuel' cond body (body s) else Some s
  end.

(** ** Tactics *)

(** Turns boolean comparisons on [Z] in the context and the goal into propositions. *)
Ltac zbool :=
  repeat match goal with
  | H : andb _ _ = true |- _ => apply andb_true_iff in H as [? ?]
  | H : orb _ _ = false |- _ => apply orb_false_iff in H as [? ?]
  | H : negb _ = true |- _ => apply negb_true_iff in H
  | H : negb _ = false |- _ => apply negb_false_iff in H
  end.

(** Case analysis on every [if] over a comparison of integers. *)
Ltac split_if :=
  repeat (case_match; zbool; simplify_eq/=).

(** ** Lemmas on machine integers *)

Lemma wrap_small w n : in_width w n → wrap w n = n.
Proof. intros H. apply Z.mod_small, H. Qed.

Lemma wrap_width w n : 0 <= w → in_width w (wrap w n).
Proof. intros Hw. apply Z.mod_pos_bound, Z.pow_pos_nonneg; lia. Qed.

Lemma wrap_wrap w n : wrap w (wrap w n) = wrap w n.
Proof. unfold wrap. by rewrite Zmod_mod. Qed.

Lemma wrap_0 w : wrap w 0 = 0.
Proof. apply Zmod_0_l. Qed.

(** Disjoint bits: or-ing a value of [n] bits below a shifted value is an addition. *)
Lemma lor_shiftl_add a b n :
  0 <= n → in_width n b → Z.lor (Z.shiftl a n) b = a * 2 ^ n + b.
Proof.
  intros Hn Hb.
  rewrite <-Z.add_nocarry_lor, Z.shiftl_mul_pow2; [done..|].
  apply Z.bits_inj'. intros i Hi.
  rewrite Z.land_spec, Z.bits_0, Z.shiftl_spec by done.
  destruct (decide (i < n)).
  - by rewrite Z.testbit_neg_r by lia.
  - rewrite <-(Z.mod_small b (2 ^ n)) by done.
    by rewrite Z.mod_pow2_bits_high, andb_false_r by lia.
Qed.

(** The field of [w] bits at position [k] of an integer, as a double shift extracts it. *)
Lemma field_extract t k w s e :
  s = 64 - w → e = s - k → 0 <= k → 0 <= w → 0 <= e → in_width 64 t →
  shl64 t k ≫ s = (t / 2 ^ e) mod 2 ^ w.
Proof.
  intros -> -> Hk Hw He Ht. unfold shl64, wrap.
  rewrite Z.shiftl_mul_pow2, Z.shiftr_div_pow2 by lia.
  replace 64 with ((64 - k) + k) at 1 by lia.
  rewrite Z.pow_add_r, Zmult_mod_distr_r by lia.
  replace (64 - w) with ((64 - w - k) + k) at 1 by lia.
  rewrite (Z.pow_add_r 2 (64 - w - k)), Z.div_mul_cancel_r by lia.
  replace (64 - k) with ((64 - w - k) + w) at 1 by lia.
  rewrite Z.pow_add_r by lia.
  pose proof (Z.pow_pos_nonneg 2 (64 - w - k)). pose proof (Z.pow_pos_nonneg 2 w).
  rewrite Z.rem_mul_r, Z.add_comm, Z.mul_comm by lia.
  rewrite Z.div_add_l by lia.
  rewrite (Z.div_small (_ mod _)) by (apply Z.mod_pos_bound; lia). lia.
Qed.

(** Taking a packed pair apart. *)
Lemma pack_div a b m : 0 <= b < m → (a * m + b) / m = a.
Proof. intros H. rewrite Z.div_add_l, Z.div_small; lia. Qed.

Lemma pack_mod a b m : 0 <= b < m → (a * m + b) mod m = b.
Proof. intros H. rewrite Z.add_comm, Z.mod_add, Z.mod_small; lia. Qed.

Lemma pack_inj a b a' b' m :
  0 <= b < m → 0 <= b' < m → a * m + b = a' * m + b' → a = a' ∧ b = b'.
Proof.
  intros Hb Hb' E. split.
  - rewrite <-(pack_div a b m), <-(pack_div a' b' m) by done. by rewrite E.
  - rewrite <-(pack_mod a b m), <-(pack_mod a' b' m) by done. by rewrite E.
Qed.

(** ** Loop nests over integer ranges *)

(** The elements a loop [for (i = 0; i < n; ++i)] produces when each iteration produces [m]. *)
Lemma length_bind_seqZ {A} (f : Z → list A) n m :
  0 <= n → 0 <= m → (∀ k, 0 <= k < n → length (f k) = Z.to_nat m) →
  length (seqZ 0 n ≫= f) = Z.to_nat (n * m).
Proof.
  intros Hn Hm. revert n Hn. apply (natlike_ind (λ n, (∀ k, 0 <= k < n → _) → _)).
  - done.
  - intros n Hn IH Hf. rewrite <-Z.add_1_r, seqZ_app, bind_app, length_app, IH by (auto with lia).
    simpl. rewrite length_app, Hf by lia. simpl. lia.
Qed.

Lemma lookup_bind_seqZ {A} (f : Z → list A) n m i j a :
  0 <= m → (∀ k, 0 <= k < n → length (f k) = Z.to_nat m) →
  0 <= i < n → 0 <= j < m → f i !! Z.to_nat j = Some a →
  (seqZ 0 n ≫= f) !! Z.to_nat (i * m + j) = Some a.
Proof.
  intros Hm Hf Hi Hj Ha.
  replace n with (i + (1 + (n - i - 1))) by lia.
  rewrite seqZ_app, bind_app, lookup_app_r; rewrite ?(length_bind_seqZ _ _ m); try (auto with lia).
  replace (Z.to_nat (i * m + j) - Z.to_nat (i * m))%nat with (Z.to_nat j) by nia.
  rewrite seqZ_app, bind_app by lia. simpl. rewrite app_nil_r.
  by apply lookup_app_l_Some.
Qed.

(** ** Lemmas on [std::set] *)

Section StdSetLemmas.
Context {A : Type} (lt : A → A → bool).

Lemma elem_of_set_insert_1 a b s : a ∈ set_insert lt b s → a = b ∨ a ∈ s.
Proof.
  induction s as [|c s IH]; simpl; [set_solver|]. repeat case_match; set_solver.
Qed.

Lemma set_insert_mono a b s : a ∈ s → a ∈ set_insert lt b s.
Proof.
  induction s as [|c s IH]; simpl; [set_solver|]. repeat case_match; set_solver.
Qed.

(** Where the comparator separates different elements, insertion adds the element. *)
Lemma elem_of_set_insert (P : A → Prop) a b s :
  (∀ c d, P c → P d → lt c d = false → lt d c = false → c = d) →
  P b → Forall P s → a ∈ set_insert lt b s ↔ a = b ∨ a ∈ s.
Proof.
  intros Htot Hb Hs. split; [apply elem_of_set_insert_1|].
  intros [->|Ha]; [|by apply set_insert_mono].
  induction Hs as [|c s Hc Hs IH]; simpl; [set_solver|].
  repeat case_match; [set_solver..|]. rewrite (Htot b c) by done. set_solver.
Qed.

Lemma set_of_list_snoc l a : set_of_list lt (l ++ [a]) = set_insert lt a (set_of_list lt l).
Proof. unfold set_of_list. by rewrite foldl_snoc. Qed.

Lemma elem_of_set_of_list_1 a l : a ∈ set_of_list lt l → a ∈ l.
Proof.
  induction l as [|b l IH] using rev_ind; [done|]. rewrite set_of_list_snoc.
  intros [->|Ha]%elem_of_set_insert_1; set_solver.
Qed.

Lemma elem_of_set_of_list (P : A → Prop) a l :
  (∀ c d, P c → P d → lt c d = false → lt d c = false → c = d) →
  Forall P l → a ∈ set_of_list lt l ↔ a ∈ l.
Proof.
  intros Htot. induction l as [|b l IH] using rev_ind; [done|].
  rewrite Forall_app, Forall_singleton. intros [Hl Hb].
  rewrite set_of_list_snoc, (elem_of_set_insert P), IH, elem_of_app, list_elem_of_singleton; try done.
  - naive_solver.
  - rewrite Forall_forall in *. intros c Hc%elem_of_set_of_list_1. auto.
Qed.

(** A set is sorted and repeats no element. *)
Lemma set_insert_sorted b s :
  (∀ c d e, lt c d = true → lt d e = true → lt c e = true) →
  StronglySorted (λ c d, lt c d = true) s → StronglySorted (λ c d, lt c d = true) (set_insert lt b s).
Proof.
  intros Htr. induction 1 as [|c s Hs IH Hc]; [by repeat constructor|]. simpl.
  destruct (lt b c) eqn:Ebc; [|destruct (lt c b) eqn:Ecb].
  - constructor; [by constructor|]. constructor; [done|]. eapply Forall_impl; [exact Hc|].
    intros d Hd. by apply (Htr b c d).
  - constructor; [done|]. apply Forall_forall. intros d [->|Hd]%elem_of_set_insert_1; [done|].
    by apply (proj1 (Forall_forall _ _) Hc).
  - by constructor.
Qed.

Lemma set_of_list_NoDup l :
  (∀ c, lt c c = false) → (∀ c d e, lt c d = true → lt d e = true → lt c e = true) →
  NoDup (set_of_list lt l).
Proof.
  intros Hirr Htr. assert (StronglySorted (λ c d, lt c d = true) (set_of_list lt l)) as Hs.
  { induction l as [|b l IH] using rev_ind; [constructor|]. rewrite set_of_list_snoc. by apply set_insert_sorted. }
  induction Hs as [|c s Hs IH Hc]; constructor; [|done].
  intros Hin. apply (proj1 (Forall_forall _ _) Hc) in Hin. by rewrite Hirr in Hin.
Qed.

Lemma set_insert_submseteq b s : set_insert lt b s ⊆+ b :: s.
Proof.
  induction s as [|c s IH]; simpl; [done|]. repeat case_match; [done| |by apply submseteq_cons].
  etrans; [by apply submseteq_skip, IH|]. apply Permutation_submseteq, Permutation_swap.
Qed.

Lemma set_of_list_submseteq l : set_of_list lt l ⊆+ l.
Proof.
  induction l as [|b l IH] using rev_ind; [done|].
  rewrite set_of_list_snoc, <-Permutation_cons_append.
  etrans; [apply set_insert_submseteq|by apply submseteq_skip].
Qed.
End StdSetLemmas.

(** ** Lemmas on lists *)

Lemma length_filter_image {A B} (P : A → Prop) (Q : B → Prop)
    `{∀ a, Decision (P a), ∀ b, Decision (Q b)} (f : A → B) (l : list A) :
  (∀ a, P a → Q (f a)) → (length (filter P l) <= length (filter Q (f <$> l)))%nat.
Proof.
  intros HPQ. induction l as [|a l IH]; [done|]. rewrite fmap_cons, !filter_cons.
  repeat case_decide; simpl; [lia|naive_solver|lia|lia].
Qed.

Lemma submseteq_filter {A} (P : A → Prop) `{∀ a, Decision (P a)} (l k : list A) :
  l ⊆+ k → filter P l ⊆+ filter P k.
Proof.
  induction 1 as [|a l k _ IH|a b l|a l k _ IH|l k m _ IH1 _ IH2]; rewrite ?filter_cons.
  - done.
  - case_decide; [by apply submseteq_skip|done].
  - repeat case_decide; try done. apply submseteq_swap.
  - case_decide; [by apply submseteq_cons|done].
  - by etrans.
Qed.

(** A relation that strictly increases a measure has no cycle. *)
Lemma tc_increasing {A} (R : relation A) (f : A → Z) a b :
  (∀ c d, R c d → f c < f d) → tc R a b → f a < f b.
Proof. intros HR. induction 1 as [a b Hab|a b c Hab _ IH]; [auto|]. pose proof (HR _ _ Hab). lia. Qed.

(** Two integers at distance at most 1 whose residues modulo [n >= 3] are successive are
    successive. *)
Lemma mod_succ_step n a b :
  3 <= n → - 1 <= b - a <= 1 → (a mod n + 1) mod n = b mod n → b = a + 1.
Proof.
  intros Hn Hab E. rewrite Zplus_mod_idemp_l in E.
  apply Z.cong_iff_0 in E.
  destruct (decide (b = a + 1)) as [|Hne]; [done|exfalso].
  assert (a + 1 - b = 1 ∨ a + 1 - b = 2) as [E'|E'] by lia; rewrite E', Z.mod_small in E; lia.
Qed.

Lemma list_filter_ext_in {A} (P Q : A → Prop) `{∀ a, Decision (P a), ∀ a, Decision (Q a)} (l : list A) :
  (∀ a, a ∈ l → P a ↔ Q a) → filter P l = filter Q l.
Proof.
  induction l as [|a l IH]; [done|]. intros HPQ. rewrite !filter_cons.
  rewrite IH by (intros b Hb; apply HPQ; by right).
  destruct (HPQ a) as [H1 H2]; [left|]. repeat case_decide; tauto.
Qed.

Lemma length_filter_split {A} (P : A → Prop) `{∀ a, Decision (P a)} (l : list A) :
  (length (filter P l) + length (filter (λ a, ¬ P a) l) = length l)%nat.
Proof.
  induction l as [|a l IH]; [done|]. rewrite !filter_cons. destruct (decide (P a)).
  - rewrite decide_False by tauto. simpl. lia.
  - rewrite decide_True by done. simpl. lia.
Qed.

(** ** Loops that change one place per step *)

Lemma foldl_bind {A B S} (f : S → B → S) (h : A → list B) (l : list A) (s : S) :
  foldl f s (l ≫= h) = foldl (λ s a, foldl f s (h a)) s l.
Proof. revert s. induction l as [|a l IH]; intros s; [done|]. simpl. by rewrite foldl_app, IH. Qed.

(** When step [i] changes what is seen at the place [pos i], by [new i], and nothing else, and no two
    steps share a place, the loop changes exactly these places, each once. *)
Lemma foldl_view {S I P V} `{EqDecision P} (view : S → P → V) (step : S → I → S) (pos : I → P)
    (new : I → V → V) (idx : list I) (s : S) :
  (∀ s i p, view (step s i) p = if decide (p = pos i) then new i (view s p) else view s p) →
  NoDup (pos <$> idx) →
  (∀ i, i ∈ idx → view (foldl step s idx) (pos i) = new i (view s (pos i))) ∧
  (∀ p, p ∉ pos <$> idx → view (foldl step s idx) p = view s p).
Proof.
  intros Hstep. revert s. induction idx as [|i idx IH]; intros s Hnd; simpl.
  { split; [by intros i ?%elem_of_nil|done]. }
  apply NoDup_cons in Hnd as [Hi Hnd]. destruct (IH (step s i) Hnd) as [Hin Hout]. split.
  - intros j [->|Hj]%elem_of_cons.
    + rewrite Hout by done. by rewrite Hstep, decide_True.
    + rewrite Hin by done. rewrite Hstep, decide_False; [done|].
      intros E. apply Hi. rewrite <-E. by apply list_elem_of_fmap_2.
  - intros p [Hp Hps]%not_elem_of_cons. rewrite Hout by done. by rewrite Hstep, decide_False.
Qed.

Lemma foldl_preserves {S I} (P : S → Prop) (step : S → I → S) (idx : list I) (s : S) :
  (∀ s i, P s → P (step s i)) → P s → P (foldl step s idx).
Proof. intros Hstep. revert s. induction idx as [|i idx IH]; intros s Hs; simpl; auto. Qed.
