(* ===== verification/Coordinates.v ===== *)
(** * Coordinates (include/fiction/layouts/coordinates.hpp)

    Module [Offset]: [offset::ucoord_t], the 64-bit packed unsigned coordinate, its conversions,
    its order, and [coord_iterator], which enumerates the coordinates of a layout. Module [Cube]:
    [cube::coord_t], the signed coordinate of hexagonal grids. Then [area] and [volume]. *)

From S2P Require Import Prelude.
#[local] Open Scope Z_scope.

Module Offset.

(** ** The struct [ucoord_t] *)

(** The four bit fields: the dead indicator [d] (1 bit), [z] (1 bit), [y] and [x] (31 bits). *)
Record ucoord_t := UCoord { ud : Z; uz : Z; uy : Z; ux : Z }.

#[global] Instance ucoord_t_eq_dec : EqDecision ucoord_t.
Proof. solve_decision. Defined.

#[global] Instance ucoord_t_countable : Countable ucoord_t.
Proof.
  apply (inj_countable' (λ c, (ud c, uz c, uy c, ux c)) (λ '(d, z, y, x), UCoord d z y x)).
  by intros [].
Defined.

(** The values a [ucoord_t] can hold: every field fits its bit width. *)
Definition wf (c : ucoord_t) : Prop :=
  in_width 1 (ud c) ∧ in_width 1 (uz c) ∧ in_width 31 (uy c) ∧ in_width 31 (ux c).

#[global] Instance wf_dec c : Decision (wf c).
Proof. unfold wf. apply _. Defined.

(** The default constructor: a dead coordinate at (0,0,0). *)
Definition ucoord_default : ucoord_t := UCoord 1 0 0 0.

(** The constructors from positions: every position is cast to the width of its bit field. *)
Definition ucoord3 (x_ y_ z_ : Z) : ucoord_t := UCoord 0 (wrap 1 z_) (wrap 31 y_) (wrap 31 x_).
Definition ucoord2 (x_ y_ : Z) : ucoord_t := UCoord 0 0 (wrap 31 y_) (wrap 31 x_).

(** The constructor from [uint64_t]. *)
Definition of_uint64 (t : Z) : ucoord_t :=
  UCoord (wrap 1 (t ≫ 63)) (wrap 1 (shl64 t 1 ≫ 63)) (wrap 31 (shl64 t 2 ≫ 33))
         (wrap 31 (shl64 t 33 ≫ 33)).

(** [explicit operator uint64_t]. *)
Definition to_uint64 (c : ucoord_t) : Z :=
  Z.lor (shl64 (Z.lor (shl64 (Z.lor (shl64 (ud c) 1) (uz c)) 31) (uy c)) 31) (ux c).

Definition is_dead (c : ucoord_t) : bool := negb (ud c =? 0).

Definition get_dead (c : ucoord_t) : ucoord_t :=
  of_uint64 (Z.lor (to_uint64 c) (to_uint64 ucoord_default)).

(** The comparison operators. Equality respects the dead indicator, the order does not. *)
Definition eqb (c o : ucoord_t) : bool :=
  (ud c =? ud o) && (uz c =? uz o) && (uy c =? uy o) && (ux c =? ux o).

Definition eqb_uint64 (c : ucoord_t) (o : Z) : bool := to_uint64 c =? o.

Definition neqb (c o : ucoord_t) : bool := negb (eqb c o).

Definition ltb (c o : ucoord_t) : bool :=
  if uz c <? uz o then true
  else if uz c =? uz o then
    if uy c <? uy o then true
    else if uy c =? uy o then ux c <? ux o
    else false
  else false.

Definition gtb (c o : ucoord_t) : bool := ltb o c.
Definition leb (c o : ucoord_t) : bool := negb (gtb c o).
Definition geb (c o : ucoord_t) : bool := negb (ltb c o).

(** [str]: "(x,y,z)", which does not show the dead indicator. *)
Definition str (c : ucoord_t) : string :=
  "(" +:+ pretty (ux c) +:+ "," +:+ pretty (uy c) +:+ "," +:+ pretty (uz c) +:+ ")".

(** Pre-increment, pre-decrement and assignment of a bit field. *)
Definition set_d (c : ucoord_t) (v : Z) : ucoord_t := UCoord (wrap 1 v) (uz c) (uy c) (ux c).
Definition set_z (c : ucoord_t) (v : Z) : ucoord_t := UCoord (ud c) (wrap 1 v) (uy c) (ux c).
Definition set_y (c : ucoord_t) (v : Z) : ucoord_t := UCoord (ud c) (uz c) (wrap 31 v) (ux c).
Definition set_x (c : ucoord_t) (v : Z) : ucoord_t := UCoord (ud c) (uz c) (uy c) (wrap 31 v).

Abbreviation incr_x c := (set_x c (ux c + 1)).
Abbreviation incr_y c := (set_y c (uy c + 1)).
Abbreviation incr_z c := (set_z c (uz c + 1)).
Abbreviation decr_x c := (set_x c (ux c - 1)).
Abbreviation decr_y c := (set_y c (uy c - 1)).
Abbreviation decr_z c := (set_z c (uz c - 1)).

(** ** The class [coord_iterator] *)

Record coord_iterator := CoordIterator { aspect_ratio : ucoord_t; coord : ucoord_t }.

(** [operator++()], the prefix increment. *)
Definition iter_incr (it : coord_iterator) : coord_iterator :=
  let ar := aspect_ratio it in
  let c := coord it in
  CoordIterator ar
    (if neqb c ar then
       let c := incr_x c in
       if ux ar <? ux c then
         let c := set_x c 0 in
         let c := incr_y c in
         if uy ar <? uy c then
           let c := set_y c 0 in
           incr_z c
         else c
       else c
     else get_dead c).

(** [operator++(int)], the postfix increment: the returned old iterator and the new one. *)
Definition iter_post_incr (it : coord_iterator) : coord_iterator * coord_iterator :=
  (it, iter_incr it).

Definition iter_eqb (i j : coord_iterator) : bool := eqb (coord i) (coord j).
Definition iter_neqb (i j : coord_iterator) : bool := negb (iter_eqb i j).
Definition iter_ltb (i j : coord_iterator) : bool := ltb (coord i) (coord j).
Definition iter_leb (i j : coord_iterator) : bool := leb (coord i) (coord j).

(** A range-based [for] from [b] to [e], for at most [fuel] elements: the elements visited. *)
Fixpoint iter_range (fuel : nat) (b e : coord_iterator) : option (list ucoord_t) :=
  match fuel with
  | O => None
  | S fuel' => if iter_neqb b e then l ← iter_range fuel' (iter_incr b) e; Some (coord b :: l)
               else Some []
  end.

(** ** [std::hash<ucoord_t>]: the identity hash of the packed integer. *)
Definition hash (c : ucoord_t) : Z := to_uint64 c.

(** The loop nest the enumeration order of [coord_iterator] is documented by: z outside, then y,
    x inside. *)
Definition nested_loops (ar : ucoord_t) : list ucoord_t :=
  z ← seqZ 0 (uz ar + 1); y ← seqZ 0 (uy ar + 1); x ← seqZ 0 (ux ar + 1); [UCoord 0 z y x].

(** ** Lemmas on the packing *)

Lemma pack_field a b w n :
  0 <= w → 0 <= a → in_width n b → 0 <= n → n <= w → a < 2 ^ (w - n) → w <= 64 →
  Z.lor (shl64 a n) b = a * 2 ^ n + b ∧ 0 <= a * 2 ^ n + b < 2 ^ w.
Proof.
  intros Hw Ha Hb Hn Hnw Haw Hw64. unfold in_width in Hb.
  assert (a * 2 ^ n + b < 2 ^ w).
  { replace (2 ^ w) with (2 ^ (w - n) * 2 ^ n) by (rewrite <-Z.pow_add_r by lia; f_equal; lia).
    nia. }
  assert (2 ^ w <= 2 ^ 64) by (apply Z.pow_le_mono_r; lia).
  split; [|nia]. unfold shl64. rewrite wrap_small, lor_shiftl_add; [done..|].
  rewrite Z.shiftl_mul_pow2 by lia. unfold in_width. nia.
Qed.

Lemma to_uint64_sum c :
  wf c → to_uint64 c = ud c * 2 ^ 63 + uz c * 2 ^ 62 + uy c * 2 ^ 31 + ux c.
Proof.
  intros (Hd & Hz & Hy & Hx). unfold to_uint64.
  destruct (pack_field (ud c) (uz c) 2 1) as [-> ?]; try (done || apply Hd).
  destruct (pack_field (ud c * 2 ^ 1 + uz c) (uy c) 33 31) as [-> ?]; try (done || lia).
  destruct (pack_field ((ud c * 2 ^ 1 + uz c) * 2 ^ 31 + uy c) (ux c) 64 31) as [-> ?];
    try (done || lia).
Qed.

Lemma to_uint64_width c : wf c → in_width 64 (to_uint64 c).
Proof.
  intros Hc. rewrite to_uint64_sum by done. unfold wf, in_width in *. lia.
Qed.

Lemma of_uint64_fields t :
  in_width 64 t →
  of_uint64 t = UCoord (t / 2 ^ 63) (t / 2 ^ 62 mod 2) (t / 2 ^ 31 mod 2 ^ 31) (t mod 2 ^ 31).
Proof.
  intros Ht. unfold of_uint64.
  rewrite (field_extract t 1 1 63 62), (field_extract t 2 31 33 31), (field_extract t 33 31 33 0)
    by (done || lia).
  unfold in_width in Ht. f_equal; unfold wrap.
  - rewrite Z.shiftr_div_pow2 by lia. apply Z.mod_small.
    split; [apply Z.div_pos; lia | apply Z.div_lt_upper_bound; lia].
  - by rewrite Zmod_mod.
  - by rewrite Zmod_mod.
  - by rewrite Zmod_mod, Z.div_1_r.
Qed.

Lemma of_uint64_wf t : wf (of_uint64 t).
Proof. unfold wf, of_uint64; simpl. split_and!; apply wrap_width; lia. Qed.

Lemma of_to_uint64 c : wf c → of_uint64 (to_uint64 c) = c.
Proof.
  intros Hc. rewrite of_uint64_fields, to_uint64_sum by auto using to_uint64_width.
  destruct c as [d z y x]; unfold wf, in_width in Hc; simpl in *.
  replace (d * _ + _ + _ + _) with (((d * 2 + z) * 2 ^ 31 + y) * 2 ^ 31 + x) by lia.
  change (2 ^ 63) with (2 ^ 31 * 2 ^ 31 * 2). change (2 ^ 62) with (2 ^ 31 * 2 ^ 31).
  rewrite <-!Z.div_div, !pack_div, !pack_mod by lia. done.
Qed.

Lemma to_of_uint64 t : in_width 64 t → to_uint64 (of_uint64 t) = t.
Proof.
  intros Ht. rewrite to_uint64_sum by apply of_uint64_wf.
  rewrite of_uint64_fields by done; simpl.
  change (2 ^ 63) with (2 ^ 31 * 2 ^ 31 * 2). change (2 ^ 62) with (2 ^ 31 * 2 ^ 31).
  rewrite <-!Z.div_div by done.
  pose proof (Z.div_mod t (2 ^ 31)). pose proof (Z.div_mod (t / 2 ^ 31) (2 ^ 31)).
  pose proof (Z.div_mod (t / 2 ^ 31 / 2 ^ 31) 2). lia.
Qed.

Lemma to_uint64_inj : ∀ c o, wf c → wf o → to_uint64 c = to_uint64 o → c = o.
Proof. intros c o Hc Ho E. by rewrite <-(of_to_uint64 c), E, of_to_uint64. Qed.

(** ** Equality and order *)

Lemma eqb_spec c o : eqb c o = bool_decide (c = o).
Proof.
  destruct c as [d z y x], o as [d' z' y' x']. unfold eqb; simpl.
  case_bool_decide as E; [simplify_eq; by rewrite !Z.eqb_refl|].
  apply not_true_iff_false. intros H. zbool. apply E. f_equal; lia.
Qed.

Lemma neqb_true c o : neqb c o = true ↔ c ≠ o.
Proof. unfold neqb. rewrite eqb_spec, negb_true_iff. apply bool_decide_eq_false. Qed.

Lemma neqb_false c o : neqb c o = false ↔ c = o.
Proof. unfold neqb. rewrite eqb_spec, negb_false_iff. apply bool_decide_eq_true. Qed.

(** The order compares the 63 bits below the dead indicator. *)
Definition order_key (c : ucoord_t) : Z := uz c * 2 ^ 62 + uy c * 2 ^ 31 + ux c.

Lemma ltb_key c o : wf c → wf o → ltb c o = (order_key c <? order_key o).
Proof.
  destruct c as [d z y x], o as [d' z' y' x'].
  unfold wf, in_width, ltb, order_key; simpl. intros Hc Ho.
  repeat case_match; zbool; lia.
Qed.

Lemma ltb_irrefl c : ltb c c = false.
Proof. unfold ltb. rewrite !Z.ltb_irrefl. by repeat case_match. Qed.

Lemma ltb_trans c d e : ltb c d = true → ltb d e = true → ltb c e = true.
Proof. unfold ltb. intros. repeat case_match; done || lia. Qed.

(** ** The iterator *)

(** [c] is a live coordinate within the boundary [ar]. *)
Definition inside (ar c : ucoord_t) : Prop :=
  ud c = 0 ∧ 0 <= uz c <= uz ar ∧ 0 <= uy c <= uy ar ∧ 0 <= ux c <= ux ar.

#[global] Instance inside_dec ar c : Decision (inside ar c).
Proof. unfold inside. apply _. Defined.

(** Rank of a coordinate in the enumeration. *)
Definition rank (ar c : ucoord_t) : Z :=
  (uz c * (uy ar + 1) + uy c) * (ux ar + 1) + ux c.

(** The boundaries the 31-bit fields leave room to step past. *)
Definition steppable (ar : ucoord_t) : Prop :=
  wf ar ∧ ud ar = 0 ∧ ux ar < 2 ^ 31 - 1 ∧ uy ar < 2 ^ 31 - 1.

#[global] Instance steppable_dec ar : Decision (steppable ar).
Proof. unfold steppable. apply _. Defined.

Lemma get_dead_spec c : wf c → get_dead c = UCoord 1 (uz c) (uy c) (ux c).
Proof.
  intros Hc. unfold get_dead.
  assert (Z.lor (to_uint64 c) (to_uint64 ucoord_default)
          = to_uint64 (UCoord 1 (uz c) (uy c) (ux c))) as ->.
  { change (to_uint64 ucoord_default) with (Z.shiftl 1 63).
    assert (to_uint64 c = Z.lor (ud c ≪ 63) (order_key c)) as ->.
    { rewrite lor_shiftl_add, to_uint64_sum; [unfold order_key; lia|done|lia|].
      unfold wf, in_width, order_key in *; lia. }
    rewrite <-Z.lor_assoc, (Z.lor_comm (order_key c)), Z.lor_assoc, <-Z.shiftl_lor.
    assert (Z.lor (ud c) 1 = 1) as ->.
    { assert (ud c = 0 ∨ ud c = 1) as [-> | ->] by (unfold wf, in_width in Hc; lia); done. }
    rewrite lor_shiftl_add, to_uint64_sum; unfold wf, in_width, order_key in *; simpl; lia. }
  apply of_to_uint64. unfold wf, in_width in *; simpl. lia.
Qed.

Lemma iter_incr_inside ar c :
  steppable ar → inside ar c → c ≠ ar →
  ∃ c', iter_incr (CoordIterator ar c) = CoordIterator ar c' ∧ inside ar c' ∧
        rank ar c' = rank ar c + 1.
Proof.
  intros (Hwf & Hd & Hx & Hy) Hin Hne. unfold iter_incr, set_x, set_y, set_z; simpl.
  rewrite (proj2 (neqb_true c ar) Hne).
  destruct c as [d z y x], ar as [da za ya xa]; unfold inside, rank, wf, in_width in *; simpl in *.
  destruct Hin as (-> & Hz & Hy' & Hx'). subst da.
  rewrite (wrap_small 31 (x + 1)) by (unfold in_width; lia).
  case_match; [|eexists; split; [done|simpl in *; lia]].
  simpl in *; assert (x = xa) by lia; subst x.
  simpl. rewrite (wrap_small 31 (y + 1)), wrap_0 by (unfold in_width; lia).
  case_match; [|eexists; split; [done|simpl in *; nia]].
  simpl in *. assert (y = ya) by lia; subst y.
  assert (z < za) by (destruct (decide (z = za)); [|lia]; exfalso; apply Hne; f_equal; lia).
  rewrite wrap_small by (unfold in_width; lia).
  eexists; split; [done|simpl; nia].
Qed.

Lemma rank_inj ar c o : inside ar c → inside ar o → rank ar c = rank ar o → c = o.
Proof.
  destruct c as [d z y x], o as [d' z' y' x']. unfold inside, rank; simpl.
  intros (-> & ?) (-> & ?) E.
  apply pack_inj in E as [E ->]; [|lia..]. apply pack_inj in E as [-> ->]; [done|lia..].
Qed.

Lemma nested_loops_inner z y m :
  0 <= m → length (seqZ 0 m ≫= λ x, [UCoord 0 z y x]) = Z.to_nat m.
Proof. intros Hm. rewrite (length_bind_seqZ _ _ 1); [f_equal; lia|lia|lia|done]. Qed.

Lemma nested_loops_layer z n m :
  0 <= n → 0 <= m →
  length (seqZ 0 n ≫= λ y, seqZ 0 m ≫= λ x, [UCoord 0 z y x]) = Z.to_nat (n * m).
Proof.
  intros Hn Hm. apply length_bind_seqZ; [done..|]. intros. by apply nested_loops_inner.
Qed.

Lemma length_nested_loops ar :
  wf ar → length (nested_loops ar) = Z.to_nat ((uz ar + 1) * ((uy ar + 1) * (ux ar + 1))).
Proof.
  unfold wf, in_width. intros Hwf. apply length_bind_seqZ; [lia|nia|].
  intros. apply nested_loops_layer; lia.
Qed.

Lemma nested_loops_lookup ar c :
  wf ar → inside ar c → nested_loops ar !! Z.to_nat (rank ar c) = Some c.
Proof.
  unfold wf, in_width. destruct c as [d z y x]. intros Hwf (Hd & Hz & Hy & Hx). simpl in *. subst d.
  unfold rank; simpl.
  replace ((z * (uy ar + 1) + y) * (ux ar + 1) + x)
    with (z * ((uy ar + 1) * (ux ar + 1)) + (y * (ux ar + 1) + x)) by lia.
  apply lookup_bind_seqZ; [nia| |lia|nia|].
  { intros. apply nested_loops_layer; lia. }
  apply lookup_bind_seqZ; [lia| |lia|lia|].
  { intros. apply nested_loops_inner; lia. }
  replace x with (x * 1 + 0) at 1 by lia. by apply lookup_bind_seqZ; auto with lia.
Qed.

Lemma elem_of_nested_loops ar c : wf ar → c ∈ nested_loops ar ↔ inside ar c.
Proof.
  intros Hwf. split.
  - unfold nested_loops. intros (z & Hc & Hz%elem_of_seqZ)%list_elem_of_bind.
    apply list_elem_of_bind in Hc as (y & Hc & Hy%elem_of_seqZ).
    apply list_elem_of_bind in Hc as (x & Hc & Hx%elem_of_seqZ).
    apply list_elem_of_singleton in Hc as ->. unfold inside; simpl. lia.
  - intros Hin%nested_loops_lookup; [|done]. by eapply list_elem_of_lookup_2.
Qed.

Lemma nested_loops_NoDup ar : wf ar → NoDup (nested_loops ar).
Proof.
  intros Hwf. unfold nested_loops.
  apply NoDup_bind; [|intros z Hz; apply NoDup_bind|apply NoDup_seqZ].
  - intros z z' c _ _ (y & Hc & _)%list_elem_of_bind (y' & Hc' & _)%list_elem_of_bind.
    apply list_elem_of_bind in Hc as (x & ->%list_elem_of_singleton & _).
    by apply list_elem_of_bind in Hc' as (x' & [=]%list_elem_of_singleton & _).
  - intros y y' c _ _ (x & ->%list_elem_of_singleton & _)%list_elem_of_bind Hc'.
    by apply list_elem_of_bind in Hc' as (x' & [=]%list_elem_of_singleton & _).
  - intros y Hy. apply NoDup_bind; [|intros; apply NoDup_singleton|apply NoDup_seqZ].
    by intros x x' c _ _ ->%list_elem_of_singleton [=]%list_elem_of_singleton.
  - apply NoDup_seqZ.
Qed.

Lemma rank_bounds ar c : wf ar → inside ar c → 0 <= rank ar c <= rank ar ar.
Proof.
  unfold wf, in_width, inside, rank. intros Hwf Hin.
  assert (uz c * (uy ar + 1) + uy c <= uz ar * (uy ar + 1) + uy ar) by nia.
  assert (0 <= uz c * (uy ar + 1)) by nia. nia.
Qed.

Lemma rank_last ar : (uz ar + 1) * ((uy ar + 1) * (ux ar + 1)) = rank ar ar + 1.
Proof. unfold rank. lia. Qed.

(** The positions of a range: the coordinates of the layout and the dead end marker. *)
Definition position (ar c : ucoord_t) : Prop := inside ar c ∨ c = get_dead ar.

Definition position_rank (ar c : ucoord_t) : Z :=
  if is_dead c then rank ar ar + 1 else rank ar c.

Lemma position_rank_inside ar c : inside ar c → position_rank ar c = rank ar c.
Proof. intros (Hd & _). unfold position_rank, is_dead. by rewrite Hd. Qed.

Lemma position_rank_end ar : wf ar → position_rank ar (get_dead ar) = rank ar ar + 1.
Proof. intros Hwf. unfold position_rank. by rewrite get_dead_spec. Qed.

Lemma position_rank_inj ar c o :
  wf ar → position ar c → position ar o → position_rank ar c = position_rank ar o → c = o.
Proof.
  intros Hwf [Hc| ->] [Ho| ->] E; [| | |done];
    rewrite ?position_rank_end, ?position_rank_inside in E by done.
  - by eapply rank_inj.
  - pose proof (rank_bounds ar c Hwf Hc). lia.
  - pose proof (rank_bounds ar o Hwf Ho). lia.
Qed.

Lemma iter_incr_position ar c :
  steppable ar → inside ar c →
  ∃ c', iter_incr (CoordIterator ar c) = CoordIterator ar c' ∧ position ar c' ∧
        position_rank ar c' = rank ar c + 1.
Proof.
  intros Hs Hin. destruct (decide (c = ar)) as [->|Hne].
  - exists (get_dead ar). split_and!; [|by right|by apply position_rank_end, Hs].
    unfold iter_incr; simpl. by rewrite (proj2 (neqb_false ar ar) eq_refl).
  - destruct (iter_incr_inside ar c) as (c' & E & Hc' & Hr); [done..|].
    exists c'. rewrite position_rank_inside by done. split_and!; [done|by left|done].
Qed.

(** A range of positions enumerates the corresponding segment of the loop nest, its end excluded. *)
Lemma iter_range_segment ar fuel c e :
  steppable ar → position ar c → position ar e →
  position_rank ar c <= position_rank ar e →
  position_rank ar e - position_rank ar c < Z.of_nat fuel →
  iter_range fuel (CoordIterator ar c) (CoordIterator ar e) =
    Some (take (Z.to_nat (position_rank ar e - position_rank ar c))
            (drop (Z.to_nat (position_rank ar c)) (nested_loops ar))).
Proof.
  intros Hs. assert (wf ar) as Hwf by apply Hs. revert c.
  induction fuel as [|fuel IH]; intros c Hc He Hle Hfuel; [lia|]. simpl.
  destruct (decide (c = e)) as [->|Hne].
  { unfold iter_neqb, iter_eqb; simpl. rewrite eqb_spec, bool_decide_eq_true_2 by done.
    by rewrite Z.sub_diag. }
  unfold iter_neqb, iter_eqb; simpl. rewrite eqb_spec, bool_decide_eq_false_2 by done; simpl.
  assert (position_rank ar c < position_rank ar e) as Hlt.
  { apply Z.le_neq. split; [done|]. contradict Hne. by eapply position_rank_inj. }
  assert (inside ar c) as Hin.
  { destruct Hc as [|Hc]; [done|subst]. rewrite position_rank_end in Hlt by done.
    destruct He as [He| ->]; [|rewrite position_rank_end in Hlt by done; lia].
    rewrite (position_rank_inside ar e) in Hlt by done. pose proof (rank_bounds ar e Hwf He). lia. }
  destruct (iter_incr_position ar c) as (c' & -> & Hc' & Hr); [done..|].
  rewrite (position_rank_inside ar c) in Hlt, Hfuel |- * by done.
  pose proof (rank_bounds ar c Hwf Hin).
  rewrite IH; rewrite ?Hr; try (done || lia). simpl.
  rewrite (drop_S (nested_loops ar) c (Z.to_nat (rank ar c))) by by apply nested_loops_lookup.
  replace (Z.to_nat (position_rank ar e - rank ar c))
    with (S (Z.to_nat (position_rank ar e - (rank ar c + 1)))) by lia.
  by replace (Z.to_nat (rank ar c + 1)) with (S (Z.to_nat (rank ar c))) by lia.
Qed.

(** A range whose iterator stays within a set that excludes the end is not left. *)
Lemma iter_range_diverges (P : ucoord_t → Prop) ar e fuel c :
  (∀ c, P c → c ≠ e ∧ P (coord (iter_incr (CoordIterator ar c)))) → P c →
  iter_range fuel (CoordIterator ar c) (CoordIterator ar e) = None.
Proof.
  intros HP. revert c. induction fuel as [|fuel IH]; intros c Hc; [done|]. simpl.
  destruct (HP c Hc) as [Hne Hc']. unfold iter_neqb, iter_eqb; simpl.
  rewrite eqb_spec, bool_decide_eq_false_2 by done; simpl.
  replace (iter_incr _) with (CoordIterator ar (coord (iter_incr (CoordIterator ar c)))) by done.
  by rewrite IH.
Qed.

End Offset.

Module Cube.

(** ** The struct [coord_t] *)

(** The dead indicator and three [int32_t] positions. *)
Record coord_t := Coord { cd : bool; cz : Z; cy : Z; cx : Z }.

#[global] Instance coord_t_eq_dec : EqDecision coord_t.
Proof. solve_decision. Defined.

(** The range of [int32_t]. *)
Definition int32 (n : Z) : Prop := - 2 ^ 31 <= n < 2 ^ 31.

#[global] Instance int32_dec n : Decision (int32 n).
Proof. unfold int32. apply _. Defined.

Definition wf (c : coord_t) : Prop := int32 (cz c) ∧ int32 (cy c) ∧ int32 (cx c).

(** Conversion of an integer to [int32_t], modulo 2^32. *)
Definition to_int32 (n : Z) : Z := (n + 2 ^ 31) mod 2 ^ 32 - 2 ^ 31.

Definition coord_default : coord_t := Coord true 0 0 0.
Definition coord3 (x_ y_ z_ : Z) : coord_t :=
  Coord false (to_int32 z_) (to_int32 y_) (to_int32 x_).
Definition coord2 (x_ y_ : Z) : coord_t := Coord false (to_int32 0) (to_int32 y_) (to_int32 x_).

Definition is_dead (c : coord_t) : bool := cd c.
Definition get_dead (c : coord_t) : coord_t := Coord true (cz c) (cy c) (cx c).

Definition eqb (c o : coord_t) : bool :=
  Bool.eqb (cd c) (cd o) && (cz c =? cz o) && (cy c =? cy o) && (cx c =? cx o).
Definition neqb (c o : coord_t) : bool := negb (eqb c o).

Definition ltb (c o : coord_t) : bool :=
  if cz c <? cz o then true
  else if cz c =? cz o then
    if cy c <? cy o then true
    else if cy c =? cy o then cx c <? cx o
    else false
  else false.
Definition gtb (c o : coord_t) : bool := ltb o c.
Definition leb (c o : coord_t) : bool := negb (gtb c o).
Definition geb (c o : coord_t) : bool := negb (ltb c o).

(** [int] arithmetic: a result outside of [int32_t] is undefined behaviour. *)
Definition int_result (n : Z) : option Z := if decide (int32 n) then Some n else None.

Definition add (c o : coord_t) : option coord_t :=
  x ← int_result (cx c + cx o); y ← int_result (cy c + cy o); z ← int_result (cz c + cz o);
  Some (coord3 x y z).
Definition sub (c o : coord_t) : option coord_t :=
  x ← int_result (cx c - cx o); y ← int_result (cy c - cy o); z ← int_result (cz c - cz o);
  Some (coord3 x y z).

Definition str (c : coord_t) : string :=
  "(" +:+ pretty (cx c) +:+ "," +:+ pretty (cy c) +:+ "," +:+ pretty (cz c) +:+ ")".

(** [std::hash<cube::coord_t>]: a [long long] combination, converted to [std::size_t]. *)
Definition hash (c : coord_t) : Z :=
  wrap 64 (cx c * 18397 + cy c * 20483 + cz c * 29303 + Z.b2z (cd c)).

End Cube.

(** ** [area] and [volume], for [ucoord_t]: the arithmetic is done in [uint64_t]. *)
Definition area (c : Offset.ucoord_t) : Z :=
  wrap 64 ((Offset.ux c + 1) * (Offset.uy c + 1)).
Definition volume (c : Offset.ucoord_t) : Z :=
  wrap 64 ((Offset.ux c + 1) * (Offset.uy c + 1) * (Offset.uz c + 1)).

(** * Properties *)

Import Offset.

(** The sizes fit into 64 bits. *)
Lemma size_exact c :
  wf c →
  area c = (ux c + 1) * (uy c + 1) ∧ volume c = area c * (uz c + 1) ∧
  0 < area c <= 2 ^ 62 ∧ 0 < volume c <= 2 ^ 63.
Proof.
  unfold area, volume. intros (_ & Hz & Hy & Hx). unfold in_width in *.
  assert (0 < (ux c + 1) * (uy c + 1) <= 2 ^ 31 * 2 ^ 31) as Ha by nia.
  rewrite !wrap_small by (unfold in_width; nia). split_and!; nia.
Qed.

Lemma volume_nested_loops c : wf c → volume c = Z.of_nat (length (nested_loops c)).
Proof.
  intros Hc. rewrite length_nested_loops by done. destruct (size_exact c Hc) as (Ha & Hv & _).
  rewrite Hv, Ha. destruct Hc as (_ & Hz & Hy & Hx). unfold in_width in *. nia.
Qed.

(** C39: The conversions between [ucoord_t] and [uint64_t] are mutually inverse bijections between
    the coordinates the bit fields can hold and the 64-bit integers; no bit is lost either way. *)
Theorem uint64_conversion_bijective (c : ucoord_t) (t : Z) :
  wf c → in_width 64 t →
  of_uint64 (to_uint64 c) = c ∧ in_width 64 (to_uint64 c) ∧
  to_uint64 (of_uint64 t) = t ∧ wf (of_uint64 t).
Proof. auto using of_to_uint64, to_uint64_width, to_of_uint64, of_uint64_wf. Qed.

Lemma uint64_conversion_bijective_witness :
  of_uint64 (to_uint64 (UCoord 1 1 7 9)) = UCoord 1 1 7 9 ∧
  in_width 64 (to_uint64 (UCoord 1 1 7 9)) ∧
  to_uint64 (of_uint64 (2 ^ 64 - 5)) = 2 ^ 64 - 5 ∧ wf (of_uint64 (2 ^ 64 - 5)).
Proof. apply (uint64_conversion_bijective (UCoord 1 1 7 9) (2 ^ 64 - 5)); by vm_compute. Defined.

(** [operator<] is a strict weak order, which [std::set] requires: it is irreflexive and
    transitive, and two coordinates are incomparable exactly if they agree on x, y and z, whatever
    their dead indicators. On live coordinates it is the numeric order of the packed integers. *)
Theorem ucoord_less_strict_weak_order (c o e : ucoord_t) :
  wf c → wf o → wf e →
  ltb c c = false ∧
  (ltb c o = true → ltb o e = true → ltb c e = true) ∧
  (ltb c o = false ∧ ltb o c = false ↔ uz c = uz o ∧ uy c = uy o ∧ ux c = ux o) ∧
  (is_dead c = false → is_dead o = false → ltb c o = (to_uint64 c <? to_uint64 o)).
Proof.
  intros Hc Ho He. split; [apply ltb_irrefl|].
  rewrite !ltb_key, !to_uint64_sum by done. unfold order_key, is_dead, wf, in_width in *.
  split_and!; [lia|split; lia|].
  intros Hd%negb_false_iff Hd'%negb_false_iff. f_equal; lia.
Qed.

Lemma ucoord_less_strict_weak_order_witness :
  ltb (UCoord 0 0 3 1) (UCoord 0 1 0 2) = true.
Proof.
  apply (ucoord_less_strict_weak_order (UCoord 0 0 3 1) (UCoord 0 1 0 0) (UCoord 0 1 0 2));
    by vm_compute.
Defined.

(** [get_dead] sets the dead indicator and keeps the position; the result is unequal to every
    live coordinate and applying it twice changes nothing more. *)
Theorem get_dead_correct (c o : ucoord_t) :
  wf c → is_dead o = false →
  get_dead c = UCoord 1 (uz c) (uy c) (ux c) ∧ is_dead (get_dead c) = true ∧
  eqb (get_dead c) o = false ∧ get_dead (get_dead c) = get_dead c.
Proof.
  intros Hc Ho. rewrite (get_dead_spec c) by done. split_and!; [done|done| |].
  - rewrite eqb_spec. apply bool_decide_eq_false_2. by intros <-.
  - rewrite get_dead_spec; [done|]. unfold wf, in_width in *; simpl. lia.
Qed.

Lemma get_dead_correct_witness : get_dead (UCoord 0 1 2 3) = UCoord 1 1 2 3.
Proof. apply (get_dead_correct (UCoord 0 1 2 3) (UCoord 0 0 0 0)); by vm_compute. Defined.

(** [area] and [volume] do not overflow [uint64_t] for any coordinate: they return the exact
    number of positions up to the coordinate, which is the length of the documented loop nest. *)
Theorem area_volume_exact (c : ucoord_t) :
  wf c →
  area c = (ux c + 1) * (uy c + 1) ∧
  volume c = Z.of_nat (length (nested_loops c)) ∧
  volume c = area c * (uz c + 1) ∧ 0 < volume c <= 2 ^ 63.
Proof.
  intros Hc. destruct (size_exact c Hc) as (Ha & Hv & _ & Hb).
  split_and!; [done|by apply volume_nested_loops|done|lia|lia].
Qed.

Lemma area_volume_exact_witness : volume (UCoord 0 1 (2 ^ 31 - 1) (2 ^ 31 - 1)) <= 2 ^ 63.
Proof. apply (area_volume_exact (UCoord 0 1 (2 ^ 31 - 1) (2 ^ 31 - 1))); by vm_compute. Defined.

(** Cube coordinates add and subtract inversely: when the sum of two live coordinates is
    representable, no position overflows and subtracting the second summand restores the first. *)
Theorem cube_add_sub_inverse (c o : Cube.coord_t) :
  Cube.wf c → Cube.wf o → Cube.cd c = false →
  Cube.int32 (Cube.cx c + Cube.cx o) → Cube.int32 (Cube.cy c + Cube.cy o) →
  Cube.int32 (Cube.cz c + Cube.cz o) →
  ∃ s, Cube.add c o = Some s ∧ Cube.wf s ∧ Cube.sub s o = Some c.
Proof.
  intros Hc Ho Hd Hx Hy Hz. unfold Cube.add, Cube.int_result.
  rewrite !decide_True by done; simpl. eexists; split; [done|].
  unfold Cube.sub, Cube.int_result, Cube.coord3, Cube.wf, Cube.int32, Cube.to_int32 in *; simpl.
  rewrite !Z.mod_small by lia. rewrite !decide_True by lia. split; [lia|]; simpl.
  rewrite !Z.mod_small by lia. destruct c; simpl in *. f_equal. f_equal; [done|lia..].
Qed.

Lemma cube_add_sub_inverse_witness :
  ∃ s, Cube.add (Cube.coord3 1 (-2) 1) (Cube.coord3 0 (-1) 1) = Some s ∧ Cube.wf s ∧
       Cube.sub s (Cube.coord3 0 (-1) 1) = Some (Cube.coord3 1 (-2) 1).
Proof.
  apply (cube_add_sub_inverse (Cube.coord3 1 (-2) 1) (Cube.coord3 0 (-1) 1));
    vm_compute; repeat split; discriminate.
Defined.
