(* ===== verification/CoordinateLayout.v ===== *)
(** * The interface of coordinate layouts

    What a coordinate layout ([cartesian_layout], [hexagonal_layout]) offers to the layers built on
    top of it: [clocked_layout] and [gate_level_layout] are class templates over the layout type and
    call only these members. Class [CoordinateLayout] lists the operations,
    class [CoordinateLayoutLaws] what the layers rely on; the theorems of the upper layers are
    proved against the laws and an implementation discharges them once. *)

From S2P Require Import Prelude.
From S2P Require Import Coordinates.
#[local] Open Scope Z_scope.
Import Offset.

Class CoordinateLayout (L : Type) := {
  dimension : L → ucoord_t;
  max_fanin_size : Z;
  north : L → ucoord_t → ucoord_t;
  north_east : L → ucoord_t → ucoord_t;
  east : L → ucoord_t → ucoord_t;
  south_east : L → ucoord_t → ucoord_t;
  south : L → ucoord_t → ucoord_t;
  south_west : L → ucoord_t → ucoord_t;
  west : L → ucoord_t → ucoord_t;
  north_west : L → ucoord_t → ucoord_t;
  above : L → ucoord_t → ucoord_t;
  below : L → ucoord_t → ucoord_t;
  (** [adjacent_coordinates<std::vector>] and [adjacent_opposite_coordinates<std::vector>]: the
      insertions in program order. *)
  adjacent_coordinates : L → ucoord_t → list ucoord_t;
  adjacent_opposite_coordinates : L → ucoord_t → list (ucoord_t * ucoord_t);
}.

(** The operations on top of the interface, for [std::set] containers and the third dimension. *)
Section Derived.
Context `{CoordinateLayout L}.

(** [adjacent_coordinates<std::set<coordinate>>]. *)
Definition adjacent_coordinates_set (l : L) (c : ucoord_t) : list ucoord_t :=
  set_of_list ltb (adjacent_coordinates l c).

(** [{c, above(c), below(c)}] as a [std::set]. *)
Definition elevations (l : L) (c : ucoord_t) : list ucoord_t :=
  set_of_list ltb [c; above l c; below l c].
End Derived.

(** A live layout dimension that the bit fields can hold. *)
Definition proper_dimension (ar : ucoord_t) : Prop := wf ar ∧ is_dead ar = false.

#[global] Instance proper_dimension_dec ar : Decision (proper_dimension ar).
Proof. unfold proper_dimension. apply _. Defined.

Lemma proper_dimension_bounds ar :
  proper_dimension ar →
  ud ar = 0 ∧ 0 <= uz ar < 2 ∧ 0 <= uy ar < 2 ^ 31 ∧ 0 <= ux ar < 2 ^ 31.
Proof.
  intros [(? & ? & ? & ?) Hd]. unfold is_dead in Hd. apply negb_false_iff in Hd.
  unfold in_width in *. lia.
Qed.

(** [representable] singles out the layouts for which the arithmetic of the operations does not
    overflow. *)
Class CoordinateLayoutLaws (L : Type) `{CoordinateLayout L} := {
  representable : L → Prop;
  representable_proper l : representable l → proper_dimension (dimension l);
  adjacent_inside l c a :
    representable l → inside (dimension l) c →
    a ∈ adjacent_coordinates l c → inside (dimension l) a ∧ uz a = uz c ∧ a ≠ c;
  adjacent_sym l c a :
    representable l → inside (dimension l) c →
    a ∈ adjacent_coordinates l c → c ∈ adjacent_coordinates l a;
  adjacent_lift l c a k :
    representable l → inside (dimension l) c → inside (dimension l) (set_z c k) →
    a ∈ adjacent_coordinates l c → set_z a k ∈ adjacent_coordinates l (set_z c k);
  above_spec l c :
    representable l → inside (dimension l) c →
    above l c = if uz c <? uz (dimension l) then set_z c (uz c + 1) else c;
  below_spec l c :
    representable l → inside (dimension l) c →
    below l c = if uz c =? 0 then c else set_z c (uz c - 1);
}.
