(* ===== verification/CartesianLayout.v ===== *)
(** * Cartesian layouts (include/fiction/layouts/cartesian_layout.hpp)

    Module [Cartesian]: the class template [cartesian_layout] over [offset::ucoord_t]: its cardinal
    operations, border predicates, coordinate ranges and adjacency, the instance of the layout
    interface, and their properties. The storage, a shared pointer to the dimension, is the
    record [cartesian_layout]. *)

From S2P Require Import Prelude.
From S2P Require Import Coordinates.
From S2P Require Import CoordinateLayout.
#[local] Open Scope Z_scope.
Import Offset.

Module Cartesian.

Record cartesian_layout := CartesianLayout { dimension : ucoord_t }.

(** The constructor; its argument defaults to the dead default coordinate. *)
Definition make (ar : ucoord_t) : cartesian_layout := CartesianLayout ar.
Definition make_default : cartesian_layout := make ucoord_default.

Definition min_fanin_size : Z := 0.
Definition max_fanin_size : Z := 3.

(** ** Structural properties *)

Definition x (l : cartesian_layout) : Z := ux (dimension l).
Definition y (l : cartesian_layout) : Z := uy (dimension l).
Definition z (l : cartesian_layout) : Z := uz (dimension l).

(** The area, in [uint64_t] arithmetic. *)
Definition area (l : cartesian_layout) : Z := wrap 64 ((x l + 1) * (y l + 1)).

Definition resize (l : cartesian_layout) (ar : ucoord_t) : cartesian_layout := CartesianLayout ar.

(** ** Cardinal operations *)

Definition north (l : cartesian_layout) (c : ucoord_t) : ucoord_t :=
  if uy c =? 0 then c else decr_y c.

Definition north_east (l : cartesian_layout) (c : ucoord_t) : ucoord_t :=
  if (ux c =? x l) || (uy c =? 0) then c
  else let nec := incr_x c in decr_y nec.

Definition east (l : cartesian_layout) (c : ucoord_t) : ucoord_t :=
  if x l <? ux c then set_d c 1
  else if ux c <? x l then incr_x c
  else c.

Definition south_east (l : cartesian_layout) (c : ucoord_t) : ucoord_t :=
  if (x l <? ux c) || (y l <? uy c) then set_d c 1
  else if (ux c <? x l) && (uy c <? y l) then let sec := incr_x c in incr_y sec
  else c.

Definition south (l : cartesian_layout) (c : ucoord_t) : ucoord_t :=
  if y l <? uy c then set_d c 1
  else if uy c <? y l then incr_y c
  else c.

Definition south_west (l : cartesian_layout) (c : ucoord_t) : ucoord_t :=
  if y l <? uy c then set_d c 1
  else if (0 <? ux c) && (uy c <? y l) then let swc := decr_x c in incr_y swc
  else c.

Definition west (l : cartesian_layout) (c : ucoord_t) : ucoord_t :=
  if ux c =? 0 then c else decr_x c.

Definition north_west (l : cartesian_layout) (c : ucoord_t) : ucoord_t :=
  if (ux c =? 0) || (uy c =? 0) then c
  else let nwc := decr_x c in decr_y nwc.

Definition above (l : cartesian_layout) (c : ucoord_t) : ucoord_t :=
  if z l <? uz c then set_d c 1
  else if uz c <? z l then incr_z c
  else c.

Definition below (l : cartesian_layout) (c : ucoord_t) : ucoord_t :=
  if uz c =? 0 then c else decr_z c.

Definition is_north_of (l : cartesian_layout) (c1 c2 : ucoord_t) : bool :=
  neqb c1 c2 && eqb (north l c1) c2.
Definition is_east_of (l : cartesian_layout) (c1 c2 : ucoord_t) : bool :=
  neqb c1 c2 && eqb (east l c1) c2.
Definition is_south_of (l : cartesian_layout) (c1 c2 : ucoord_t) : bool :=
  neqb c1 c2 && eqb (south l c1) c2.
Definition is_west_of (l : cartesian_layout) (c1 c2 : ucoord_t) : bool :=
  neqb c1 c2 && eqb (west l c1) c2.

Definition is_adjacent_of (l : cartesian_layout) (c1 c2 : ucoord_t) : bool :=
  is_north_of l c1 c2 || is_east_of l c1 c2 || is_south_of l c1 c2 || is_west_of l c1 c2.

Definition is_adjacent_elevation_of (l : cartesian_layout) (c1 c2 : ucoord_t) : bool :=
  is_adjacent_of l c1 c2 || is_adjacent_of l (above l c1) c2 || is_adjacent_of l (below l c1) c2.

Definition is_above (l : cartesian_layout) (c1 c2 : ucoord_t) : bool :=
  neqb c1 c2 && eqb (above l c1) c2.
Definition is_below (l : cartesian_layout) (c1 c2 : ucoord_t) : bool :=
  neqb c1 c2 && eqb (below l c1) c2.

Definition is_northwards_of (l : cartesian_layout) (c1 c2 : ucoord_t) : bool :=
  (uz c1 =? uz c2) && (uy c2 <? uy c1) && (ux c1 =? ux c2).
Definition is_eastwards_of (l : cartesian_layout) (c1 c2 : ucoord_t) : bool :=
  (uz c1 =? uz c2) && (uy c1 =? uy c2) && (ux c1 <? ux c2).
Definition is_southwards_of (l : cartesian_layout) (c1 c2 : ucoord_t) : bool :=
  (uz c1 =? uz c2) && (uy c1 <? uy c2) && (ux c1 =? ux c2).
Definition is_westwards_of (l : cartesian_layout) (c1 c2 : ucoord_t) : bool :=
  (uz c1 =? uz c2) && (uy c1 =? uy c2) && (ux c2 <? ux c1).

Definition is_at_northern_border (l : cartesian_layout) (c : ucoord_t) : bool := uy c =? 0.
Definition is_at_eastern_border (l : cartesian_layout) (c : ucoord_t) : bool := ux c =? x l.
Definition is_at_southern_border (l : cartesian_layout) (c : ucoord_t) : bool := uy c =? y l.
Definition is_at_western_border (l : cartesian_layout) (c : ucoord_t) : bool := ux c =? 0.

Definition is_at_any_border (l : cartesian_layout) (c : ucoord_t) : bool :=
  is_at_northern_border l c || is_at_eastern_border l c || is_at_southern_border l c ||
  is_at_western_border l c.

Definition northern_border_of (l : cartesian_layout) (c : ucoord_t) : ucoord_t :=
  ucoord3 (ux c) 0 (uz c).
Definition eastern_border_of (l : cartesian_layout) (c : ucoord_t) : ucoord_t :=
  ucoord3 (x l) (uy c) (uz c).
Definition southern_border_of (l : cartesian_layout) (c : ucoord_t) : ucoord_t :=
  ucoord3 (ux c) (y l) (uz c).
Definition western_border_of (l : cartesian_layout) (c : ucoord_t) : ucoord_t :=
  ucoord3 0 (uy c) (uz c).

Definition is_ground_layer (l : cartesian_layout) (c : ucoord_t) : bool := uz c =? 0.
Definition is_crossing_layer (l : cartesian_layout) (c : ucoord_t) : bool := 0 <? uz c.

Definition is_within_bounds (l : cartesian_layout) (c : ucoord_t) : bool :=
  (ux c <=? x l) && (uy c <=? y l) && (uz c <=? z l).

(** ** Iteration *)

(** [coordinates(start, stop)]: the begin and end iterators of the range; a dead argument, which is
    the default, selects the first coordinate and the end of the layout. *)
Definition coordinates (l : cartesian_layout) (start stop : ucoord_t) :
    coord_iterator * coord_iterator :=
  (CoordIterator (dimension l) (if is_dead start then ucoord2 0 0 else start),
   CoordIterator (dimension l) (if is_dead stop then get_dead (dimension l) else stop)).

(** [ground_coordinates(start, stop)]; [None] when the assertion fails. *)
Definition ground_coordinates (l : cartesian_layout) (start stop : ucoord_t) :
    option (coord_iterator * coord_iterator) :=
  if (uz start =? 0) && (uz stop =? 0) then
    let ground_layer := ucoord3 (x l) (y l) 0 in
    Some (CoordIterator ground_layer (if is_dead start then ucoord2 0 0 else start),
          CoordIterator ground_layer (if is_dead stop then get_dead ground_layer else stop))
  else None.

(** The elements a loop over such a range visits within [fuel] steps. *)
Definition visited (fuel : nat) (r : coord_iterator * coord_iterator) : option (list ucoord_t) :=
  iter_range fuel r.1 r.2.

(** The lambda [add_if_not_c] of [adjacent_coordinates]. *)
Definition add_if_not_c (c : ucoord_t) (cnt : list ucoord_t) (cardinal : ucoord_t) :
    list ucoord_t :=
  if neqb cardinal c then cnt ++ [cardinal] else cnt.

(** [adjacent_coordinates<std::vector>]. *)
Definition adjacent_coordinates (l : cartesian_layout) (c : ucoord_t) : list ucoord_t :=
  let cnt := add_if_not_c c [] (north l c) in
  let cnt := add_if_not_c c cnt (east l c) in
  let cnt := add_if_not_c c cnt (south l c) in
  add_if_not_c c cnt (west l c).

(** The lambda [add_if_not_c] of [adjacent_opposite_coordinates]. *)
Definition add_pair_if_not_c (c : ucoord_t) (cnt : list (ucoord_t * ucoord_t))
    (cardinal1 cardinal2 : ucoord_t) : list (ucoord_t * ucoord_t) :=
  if neqb cardinal1 c && neqb cardinal2 c then cnt ++ [(cardinal1, cardinal2)] else cnt.

(** [adjacent_opposite_coordinates<std::vector>]. *)
Definition adjacent_opposite_coordinates (l : cartesian_layout) (c : ucoord_t) :
    list (ucoord_t * ucoord_t) :=
  let cnt := add_pair_if_not_c c [] (north l c) (south l c) in
  add_pair_if_not_c c cnt (east l c) (west l c).

#[global] Instance cartesian_coordinate_layout : CoordinateLayout cartesian_layout := {
  CoordinateLayout.dimension := dimension;
  CoordinateLayout.max_fanin_size := max_fanin_size;
  CoordinateLayout.north := north;
  CoordinateLayout.north_east := north_east;
  CoordinateLayout.east := east;
  CoordinateLayout.south_east := south_east;
  CoordinateLayout.south := south;
  CoordinateLayout.south_west := south_west;
  CoordinateLayout.west := west;
  CoordinateLayout.north_west := north_west;
  CoordinateLayout.above := above;
  CoordinateLayout.below := below;
  CoordinateLayout.adjacent_coordinates := adjacent_coordinates;
  CoordinateLayout.adjacent_opposite_coordinates := adjacent_opposite_coordinates;
}.

(** ** Lemmas on the cardinal operations within the bounds *)

Section Inside.
Context (l : cartesian_layout) (Hl : proper_dimension (dimension l)).

(** Opens the coordinates and the bounds and removes the bit-field truncations of in-range values. *)
Ltac open_coords :=
  pose proof (proper_dimension_bounds _ Hl);
  unfold inside, x, y, z, set_x, set_y, set_z, set_d in *;
  repeat match goal with c : ucoord_t |- _ => destruct c end; simpl in *;
  repeat match goal with H : _ ∧ _ |- _ => destruct H end;
  subst.

Ltac unwrap := repeat (rewrite wrap_small by (unfold in_width; lia)).

Lemma north_eq c :
  inside (dimension l) c →
  north l c = if uy c =? 0 then c else UCoord 0 (uz c) (uy c - 1) (ux c).
Proof. intros Hc. unfold north. case_match; [done|]. open_coords. by unwrap. Qed.

Lemma east_eq c :
  inside (dimension l) c →
  east l c = if ux c <? x l then UCoord 0 (uz c) (uy c) (ux c + 1) else c.
Proof.
  intros Hc. unfold east. case_match; [open_coords; lia|]. case_match; [|done].
  open_coords. by unwrap.
Qed.

Lemma south_eq c :
  inside (dimension l) c →
  south l c = if uy c <? y l then UCoord 0 (uz c) (uy c + 1) (ux c) else c.
Proof.
  intros Hc. unfold south. case_match; [open_coords; lia|]. case_match; [|done].
  open_coords. by unwrap.
Qed.

Lemma west_eq c :
  inside (dimension l) c →
  west l c = if ux c =? 0 then c else UCoord 0 (uz c) (uy c) (ux c - 1).
Proof. intros Hc. unfold west. case_match; [done|]. open_coords. by unwrap. Qed.

Lemma above_eq c :
  inside (dimension l) c →
  above l c = if uz c <? uz (dimension l) then set_z c (uz c + 1) else c.
Proof. intros Hc. unfold above, z. case_match; [open_coords; lia|done]. Qed.

Lemma elem_of_add_if_not_c c cnt d a :
  a ∈ add_if_not_c c cnt d ↔ a ∈ cnt ∨ a = d ∧ d ≠ c.
Proof.
  unfold add_if_not_c.
  case_match; rewrite ?neqb_true, ?neqb_false in *; [set_solver|naive_solver].
Qed.

Lemma elem_of_adjacent c a :
  a ∈ adjacent_coordinates l c ↔
  (a = north l c ∨ a = east l c ∨ a = south l c ∨ a = west l c) ∧ a ≠ c.
Proof.
  unfold adjacent_coordinates. rewrite !elem_of_add_if_not_c, elem_of_nil. naive_solver.
Qed.

(** Adjacency is Manhattan distance 1 within the layer. *)
Lemma elem_of_adjacent_inside c a :
  inside (dimension l) c →
  a ∈ adjacent_coordinates l c ↔
  inside (dimension l) a ∧ uz a = uz c ∧ Z.abs (ux a - ux c) + Z.abs (uy a - uy c) = 1.
Proof.
  intros Hc. rewrite elem_of_adjacent, north_eq, east_eq, south_eq, west_eq by done.
  split.
  - intros [Ha Hne]. destruct Ha as [-> | [-> | [-> | ->]]]; case_match; try done;
      open_coords; lia.
  - intros (Ha & Hz & Hd). split; [|intros ->; lia].
    destruct a as [da za ya xa], c as [dc zc yc xc]. open_coords.
    assert (ya = yc - 1 ∧ xa = xc ∨ xa = xc + 1 ∧ ya = yc ∨ ya = yc + 1 ∧ xa = xc
            ∨ xa = xc - 1 ∧ ya = yc) as [[-> ->]|[[-> ->]|[[-> ->]|[-> ->]]]] by lia.
    + left. by case_match; [lia|].
    + right; left. by case_match; [|lia].
    + right; right; left. by case_match; [|lia].
    + right; right; right. by case_match; [lia|].
Qed.

Lemma add_if_not_c_NoDup c cnt d :
  NoDup cnt → (d ≠ c → d ∉ cnt) → NoDup (add_if_not_c c cnt d).
Proof.
  intros Hcnt Hd. unfold add_if_not_c. case_match eqn:E; [|done].
  apply neqb_true in E. apply NoDup_app. split_and!; [done| |apply NoDup_singleton].
  intros a Ha ->%list_elem_of_singleton. by apply Hd.
Qed.

Lemma adjacent_NoDup c : inside (dimension l) c → NoDup (adjacent_coordinates l c).
Proof.
  intros Hc. unfold adjacent_coordinates.
  repeat apply add_if_not_c_NoDup; [constructor|..]; rewrite ?elem_of_add_if_not_c, elem_of_nil;
    rewrite ?north_eq, ?east_eq, ?south_eq, ?west_eq by done; intros Hne H;
    destruct c; repeat case_match; simpl in *; naive_solver lia.
Qed.

Lemma inside_set_z c k :
  inside (dimension l) c → 0 <= k <= z l → inside (dimension l) (set_z c k).
Proof. intros Hc Hk. open_coords. unwrap. lia. Qed.
End Inside.

#[global] Instance cartesian_coordinate_layout_laws : CoordinateLayoutLaws cartesian_layout.
Proof.
  refine {| representable l := proper_dimension (dimension l) |}; simpl; [done|..].
  - intros l c a Hl Hc Ha%elem_of_adjacent_inside; try done.
    destruct Ha as (Ha & Hz & Hd). split_and!; [done..|]. intros ->. lia.
  - intros l c a Hl Hc Ha%elem_of_adjacent_inside; try done.
    apply elem_of_adjacent_inside; try done; [apply Ha|]. split_and!; [done|lia..].
  - intros l c a k Hl Hc Hk Ha%elem_of_adjacent_inside; try done.
    apply elem_of_adjacent_inside; try done. unfold set_z, inside in *; simpl in *. lia.
  - intros l c Hl Hc. by apply above_eq.
  - intros l c Hl Hc. done.
Defined.

End Cartesian.

(** * Properties *)

Import Cartesian.

Lemma inside_within_bounds l c :
  proper_dimension (dimension l) → wf c →
  inside (dimension l) c ↔ is_within_bounds l c = true ∧ is_dead c = false.
Proof.
  intros Hl Hc. pose proof (proper_dimension_bounds _ Hl).
  unfold is_within_bounds, is_dead, inside, wf, in_width, x, y, z in *.
  rewrite !andb_true_iff, negb_false_iff. lia.
Qed.

(** Sub-ranges of the loop nest by the ranks of their ends. *)
Definition loop_segment (ar start stop : ucoord_t) : list ucoord_t :=
  take (Z.to_nat (rank ar stop - rank ar start))
    (drop (Z.to_nat (rank ar start)) (nested_loops ar)).

(** A loop over all coordinates visits the loop nest. *)
Lemma visited_all l fuel :
  steppable (dimension l) → Coordinates.volume (dimension l) < Z.of_nat fuel →
  visited fuel (coordinates l ucoord_default ucoord_default) = Some (nested_loops (dimension l)).
Proof.
  intros Hs Hfuel. assert (wf (dimension l)) as Hwf by apply Hs.
  unfold visited, coordinates; simpl.
  assert (inside (dimension l) (UCoord 0 0 0 0)) as H0.
  { unfold wf, in_width in Hwf. unfold inside; simpl. lia. }
  change (ucoord2 0 0) with (UCoord 0 0 0 0).
  assert (position_rank (dimension l) (UCoord 0 0 0 0) = 0) as Hr0 by done.
  rewrite volume_nested_loops, length_nested_loops, rank_last in Hfuel by done.
  pose proof (rank_bounds _ _ Hwf H0).
  pose proof (position_rank_end _ Hwf) as Hre.
  rewrite iter_range_segment, Hr0, Hre; [|done|by left|by right|lia|lia].
  rewrite drop_0, take_ge; [done|]. rewrite length_nested_loops, rank_last by done. lia.
Qed.

(** C38: For every layout whose x- and y-dimension stay below the field maximum, a loop over
    [coordinates()] terminates and visits exactly what the documented nest of loops over z, y, x
    visits, in that order: [volume] many coordinates, namely the live ones within the bounds. *)
Theorem coordinates_enumerate_layout (l : cartesian_layout) (fuel : nat) :
  steppable (dimension l) → Coordinates.volume (dimension l) < Z.of_nat fuel →
  ∃ cs, visited fuel (coordinates l ucoord_default ucoord_default) = Some cs ∧
        cs = nested_loops (dimension l) ∧
        Z.of_nat (length cs) = Coordinates.volume (dimension l) ∧
        (∀ c, wf c → c ∈ cs ↔ is_within_bounds l c = true ∧ is_dead c = false).
Proof.
  intros Hs Hfuel. assert (wf (dimension l)) as Hwf by apply Hs.
  exists (nested_loops (dimension l)). split_and!; [by apply visited_all|done| |].
  - symmetry. by apply volume_nested_loops.
  - intros c Hc. rewrite elem_of_nested_loops by done. apply inside_within_bounds; [|done].
    split; [done|]. unfold is_dead. destruct Hs as (_ & -> & _). done.
Qed.

Lemma coordinates_enumerate_layout_witness :
  ∃ cs, visited 13 (coordinates (make (UCoord 0 1 2 1)) ucoord_default ucoord_default) = Some cs ∧
        cs = nested_loops (UCoord 0 1 2 1) ∧
        Z.of_nat (length cs) = Coordinates.volume (UCoord 0 1 2 1) ∧
        (∀ c, wf c → c ∈ cs ↔ is_within_bounds (make (UCoord 0 1 2 1)) c = true ∧ is_dead c = false).
Proof. apply (coordinates_enumerate_layout (make (UCoord 0 1 2 1)) 13); by vm_compute. Defined.

(** A loop over [coordinates(start, stop)] with both ends within the bounds visits the loop
    nest from [start] up to but excluding [stop], although [stop] is documented as the last
    coordinate to include. *)
Theorem coordinates_segment_excludes_stop (l : cartesian_layout) (start stop : ucoord_t) (fuel : nat) :
  steppable (dimension l) → inside (dimension l) start → inside (dimension l) stop →
  rank (dimension l) start <= rank (dimension l) stop →
  Coordinates.volume (dimension l) < Z.of_nat fuel →
  visited fuel (coordinates l start stop) = Some (loop_segment (dimension l) start stop) ∧
  stop ∉ loop_segment (dimension l) start stop ∧
  Z.of_nat (length (loop_segment (dimension l) start stop)) =
    rank (dimension l) stop - rank (dimension l) start.
Proof.
  intros Hs Ha Ho Hle Hfuel. assert (wf (dimension l)) as Hwf by apply Hs.
  pose proof (volume_nested_loops (dimension l) Hwf) as Hv.
  pose proof (rank_bounds _ _ Hwf Ha) as Hra. pose proof (rank_bounds _ _ Hwf Ho) as Hro.
  rewrite Hv, length_nested_loops, rank_last in Hfuel by done.
  assert (is_dead start = false ∧ is_dead stop = false) as [Hda Hdo].
  { unfold is_dead. destruct Ha as [-> _], Ho as [-> _]. done. }
  split_and!.
  - unfold visited, coordinates; simpl. rewrite Hda, Hdo.
    pose proof (position_rank_inside _ _ Ha) as Hpa. pose proof (position_rank_inside _ _ Ho) as Hpo.
    rewrite iter_range_segment, Hpa, Hpo; [done|done|by left|by left|lia|lia].
  - intros (i & Hi)%list_elem_of_lookup. apply lookup_take_Some in Hi as [Hi Hlt].
    rewrite lookup_drop in Hi.
    assert (nested_loops (dimension l) !! Z.to_nat (rank (dimension l) stop) = Some stop) as Hstop
      by by apply nested_loops_lookup.
    pose proof (nested_loops_NoDup (dimension l) Hwf) as Hnd.
    pose proof (NoDup_lookup _ _ _ _ Hnd Hi Hstop). lia.
  - unfold loop_segment. rewrite length_take, length_drop, length_nested_loops, rank_last by done. lia.
Qed.

Lemma coordinates_segment_excludes_stop_witness :
  visited 13 (coordinates (make (UCoord 0 1 2 1)) (UCoord 0 0 1 0) (UCoord 0 1 0 1)) =
    Some (loop_segment (UCoord 0 1 2 1) (UCoord 0 0 1 0) (UCoord 0 1 0 1)).
Proof.
  apply (coordinates_segment_excludes_stop (make (UCoord 0 1 2 1)) (UCoord 0 0 1 0)
           (UCoord 0 1 0 1) 13); try (by vm_compute); vm_compute; repeat split; discriminate.
Defined.

(** The loop does not terminate for a default-constructed layout, whose dimension is the dead
    default coordinate, nor for a layout with several rows and the largest x-dimension the
    coordinate type allows: in both cases no amount of steps reaches the end of the range. *)
Theorem coordinates_diverge (fuel : nat) (ar : ucoord_t) :
  wf ar → ud ar = 0 → ux ar = 2 ^ 31 - 1 → 0 < uy ar →
  visited fuel (coordinates make_default ucoord_default ucoord_default) = None ∧
  visited fuel (coordinates (make ar) ucoord_default ucoord_default) = None.
Proof.
  intros Hwf Hd Hx Hy. unfold visited, coordinates; simpl. split.
  - apply (iter_range_diverges (λ c, c = UCoord 0 0 0 0 ∨ c = UCoord 0 1 0 0)); [|by left].
    intros c [-> | ->]; (split; [done|]); [by right|by left].
  - apply (iter_range_diverges (λ c, ud c = 0 ∧ uz c = 0 ∧ uy c = 0)); [|done].
    rewrite get_dead_spec by done. intros [d z y x]; simpl. intros (-> & -> & ->).
    split; [done|]. unfold iter_incr, set_x; simpl.
    rewrite (proj2 (neqb_true _ _)) by (intros <-; simpl in *; lia).
    pose proof (wrap_width 31 (x + 1)) as Hw. unfold in_width in Hw.
    case_match; [lia|done].
Qed.

Lemma coordinates_diverge_witness :
  visited 100 (coordinates make_default ucoord_default ucoord_default) = None ∧
  visited 100 (coordinates (make (UCoord 0 0 1 (2 ^ 31 - 1))) ucoord_default ucoord_default) = None.
Proof.
  apply (coordinates_diverge 100 (UCoord 0 0 1 (2 ^ 31 - 1))); try done.
Defined.

(** Within the bounds of a layout, [adjacent_coordinates] returns without repetition exactly
    the coordinates within the bounds at Manhattan distance 1 in the same layer, at most four, and
    [is_adjacent_of] decides membership. *)
Theorem adjacent_coordinates_manhattan (l : cartesian_layout) (c a : ucoord_t) :
  proper_dimension (dimension l) → inside (dimension l) c →
  (a ∈ adjacent_coordinates l c ↔
     inside (dimension l) a ∧ uz a = uz c ∧ Z.abs (ux a - ux c) + Z.abs (uy a - uy c) = 1) ∧
  (is_adjacent_of l c a = true ↔ a ∈ adjacent_coordinates l c) ∧
  NoDup (adjacent_coordinates l c) ∧ (length (adjacent_coordinates l c) <= 4)%nat.
Proof.
  intros Hl Hc. split_and!.
  - by apply elem_of_adjacent_inside.
  - rewrite elem_of_adjacent by done. unfold is_adjacent_of, is_north_of, is_east_of, is_south_of, is_west_of.
    rewrite !orb_true_iff, !andb_true_iff, !neqb_true, !eqb_spec, !bool_decide_eq_true. naive_solver.
  - by apply adjacent_NoDup.
  - unfold adjacent_coordinates, add_if_not_c. repeat case_match; simpl; lia.
Qed.

Lemma adjacent_coordinates_manhattan_witness :
  UCoord 0 0 0 1 ∈ adjacent_coordinates (make (UCoord 0 0 3 3)) (UCoord 0 0 0 0).
Proof.
  apply (adjacent_coordinates_manhattan (make (UCoord 0 0 3 3)) (UCoord 0 0 0 0) (UCoord 0 0 0 1));
    vm_compute; repeat split; discriminate.
Defined.
