(* ===== verification/HexagonalLayout.v ===== *)
(** * Hexagonal layouts (include/fiction/layouts/hexagonal_layout.hpp)

    The class template [hexagonal_layout]: offset coordinates on a grid of hexagons in one of four
    arrangements, with its cardinal operations, which go through cube coordinates. Positions of cube
    coordinates have type [int32_t] and the 31-bit fields of offset coordinates are promoted to [int]:
    an operation whose arithmetic leaves [int] is [None]. The instance of [CoordinateLayout] has some
    value in that case; its laws hold for the layouts where it does not occur. *)

From S2P Require Import Prelude.
From S2P Require Import Coordinates.
From S2P Require Import CoordinateLayout.
#[local] Open Scope Z_scope.
Import Offset.

Module Hexagonal.

(** The tag types. *)
Inductive orientation := pointy_top_hex | flat_top_hex.
Inductive hex_arrangement := odd_row_hex | even_row_hex | odd_column_hex | even_column_hex.

Definition orientation_of (h : hex_arrangement) : orientation :=
  match h with
  | odd_row_hex | even_row_hex => pointy_top_hex
  | odd_column_hex | even_column_hex => flat_top_hex
  end.

(** The layout type, indexed by the arrangement. *)
Record hexagonal_layout (h : hex_arrangement) := HexagonalLayout { dimension : ucoord_t }.
Arguments HexagonalLayout {h} _.
Arguments dimension {h} _.

Definition make {h} (ar : ucoord_t) : hexagonal_layout h := HexagonalLayout ar.

Definition min_fanin_size : Z := 0.
Definition max_fanin_size : Z := 5.

Section Layout.
Context {h : hex_arrangement}.
Implicit Types (l : hexagonal_layout h) (c : ucoord_t).

(** ** Structural properties *)

Definition x l : Z := ux (dimension l).
Definition y l : Z := uy (dimension l).
Definition z l : Z := uz (dimension l).

Definition area l : Z := wrap 64 ((x l + 1) * (y l + 1)).

Definition resize l (ar : ucoord_t) : hexagonal_layout h := HexagonalLayout ar.

Definition is_in_odd_row l c : bool := uy c mod 2 =? 1.
Definition is_in_even_row l c : bool := uy c mod 2 =? 0.
Definition is_in_odd_column l c : bool := ux c mod 2 =? 1.
Definition is_in_even_column l c : bool := ux c mod 2 =? 0.

Definition is_within_bounds l c : bool := (ux c <=? x l) && (uy c <=? y l) && (uz c <=? z l).

(** ** Cube coordinates *)

Definition offset : Z :=
  match h with odd_row_hex | odd_column_hex => -1 | even_row_hex | even_column_hex => 1 end.

Definition to_cube_coordinate (offset_coord : ucoord_t) : option Cube.coord_t :=
  match orientation_of h with
  | pointy_top_hex =>
      n ← Cube.int_result (uy offset_coord + offset * Z.land (uy offset_coord) 1);
      x ← Cube.int_result (ux offset_coord - Z.quot n 2);
      let z := uy offset_coord in
      m ← Cube.int_result (- x);
      y ← Cube.int_result (m - z);
      Some (Cube.Coord false z y x)
  | flat_top_hex =>
      let x := ux offset_coord in
      n ← Cube.int_result (ux offset_coord + offset * Z.land (ux offset_coord) 1);
      z ← Cube.int_result (uy offset_coord - Z.quot n 2);
      m ← Cube.int_result (- x);
      y ← Cube.int_result (m - z);
      Some (Cube.Coord false z y x)
  end.

(** The sums are of type [int64_t], the results are assigned to 31-bit fields. *)
Definition to_offset_coordinate (cube_coord : Cube.coord_t) : option ucoord_t :=
  match orientation_of h with
  | pointy_top_hex =>
      n ← Cube.int_result (Cube.cz cube_coord + offset * Z.land (Cube.cz cube_coord) 1);
      Some (UCoord 0 0 (wrap 31 (Cube.cz cube_coord)) (wrap 31 (Cube.cx cube_coord + Z.quot n 2)))
  | flat_top_hex =>
      n ← Cube.int_result (Cube.cx cube_coord + offset * Z.land (Cube.cx cube_coord) 1);
      Some (UCoord 0 0 (wrap 31 (Cube.cz cube_coord + Z.quot n 2)) (wrap 31 (Cube.cx cube_coord)))
  end.

(** [to_offset_coordinate(to_cube_coordinate(c) + dir)] in the layer of [c]. *)
Definition neighbor c (dir : Cube.coord_t) : option ucoord_t :=
  cube ← to_cube_coordinate c;
  sum ← Cube.add cube dir;
  n ← to_offset_coordinate sum;
  Some (set_z n (uz c)).

(** The neighbor, or [c] when it lies out of bounds. *)
Definition neighbor_or_c l c (dir : Cube.coord_t) : option ucoord_t :=
  n ← neighbor c dir; Some (if is_within_bounds l n then n else c).

(** ** Cardinal operations *)

Definition north l c : ucoord_t := if uy c =? 0 then c else set_y c (uy c - 1).

Definition north_east l c : option ucoord_t := neighbor_or_c l c (Cube.coord3 1 0 (-1)).

Definition east l c : ucoord_t :=
  if x l <? ux c then set_d c 1 else if ux c <? x l then set_x c (ux c + 1) else c.

Definition south_east l c : option ucoord_t :=
  match orientation_of h with
  | pointy_top_hex => neighbor_or_c l c (Cube.coord3 0 (-1) 1)
  | flat_top_hex => neighbor_or_c l c (Cube.coord3 1 (-1) 0)
  end.

Definition south l c : ucoord_t :=
  if y l <? uy c then set_d c 1 else if uy c <? y l then set_y c (uy c + 1) else c.

Definition south_west l c : option ucoord_t := neighbor_or_c l c (Cube.coord3 (-1) 0 1).

Definition west l c : ucoord_t := if ux c =? 0 then c else set_x c (ux c - 1).

Definition north_west l c : option ucoord_t :=
  match orientation_of h with
  | pointy_top_hex => neighbor_or_c l c (Cube.coord3 0 1 (-1))
  | flat_top_hex => neighbor_or_c l c (Cube.coord3 (-1) 1 0)
  end.

Definition above l c : ucoord_t :=
  if z l <? uz c then set_d c 1 else if uz c <? z l then set_z c (uz c + 1) else c.

Definition below l c : ucoord_t := if uz c =? 0 then c else set_z c (uz c - 1).

Definition is_north_of l c1 c2 : bool := neqb c1 c2 && eqb (north l c1) c2.
Definition is_east_of l c1 c2 : bool := neqb c1 c2 && eqb (east l c1) c2.
Definition is_south_of l c1 c2 : bool := neqb c1 c2 && eqb (south l c1) c2.
Definition is_west_of l c1 c2 : bool := neqb c1 c2 && eqb (west l c1) c2.
Definition is_above l c1 c2 : bool := neqb c1 c2 && eqb (above l c1) c2.
Definition is_below l c1 c2 : bool := neqb c1 c2 && eqb (below l c1) c2.

Definition is_northwards_of l c1 c2 : bool :=
  (uz c1 =? uz c2) && (uy c2 <? uy c1) && (ux c1 =? ux c2).
Definition is_eastwards_of l c1 c2 : bool :=
  (uz c1 =? uz c2) && (uy c1 =? uy c2) && (ux c1 <? ux c2).
Definition is_southwards_of l c1 c2 : bool :=
  (uz c1 =? uz c2) && (uy c1 <? uy c2) && (ux c1 =? ux c2).
Definition is_westwards_of l c1 c2 : bool :=
  (uz c1 =? uz c2) && (uy c1 =? uy c2) && (ux c2 <? ux c1).

Definition is_at_northern_border l c : bool := uy c =? 0.
Definition is_at_eastern_border l c : bool := ux c =? x l.
Definition is_at_southern_border l c : bool := uy c =? y l.
Definition is_at_western_border l c : bool := ux c =? 0.

Definition is_at_any_border l c : bool :=
  is_at_northern_border l c || is_at_eastern_border l c || is_at_southern_border l c ||
  is_at_western_border l c.

Definition northern_border_of l c : ucoord_t := ucoord3 (ux c) 0 (uz c).
Definition eastern_border_of l c : ucoord_t := ucoord3 (x l) (uy c) (uz c).
Definition southern_border_of l c : ucoord_t := ucoord3 (ux c) (y l) (uz c).
Definition western_border_of l c : ucoord_t := ucoord3 0 (uy c) (uz c).

Definition is_ground_layer l c : bool := uz c =? 0.
Definition is_crossing_layer l c : bool := 0 <? uz c.

(** ** Iteration *)

Definition coordinates l (start stop : ucoord_t) : coord_iterator * coord_iterator :=
  (CoordIterator (dimension l) (if is_dead start then ucoord2 0 0 else start),
   CoordIterator (dimension l) (if is_dead stop then get_dead (dimension l) else stop)).

(** [None] when the assertion fails. *)
Definition ground_coordinates l (start stop : ucoord_t) :
    option (coord_iterator * coord_iterator) :=
  if (uz start =? 0) && (uz stop =? 0) then
    let ground_layer := ucoord3 (x l) (y l) 0 in
    Some (CoordIterator ground_layer (if is_dead start then ucoord2 0 0 else start),
          CoordIterator ground_layer (if is_dead stop then get_dead ground_layer else stop))
  else None.

Definition cube_directions : list Cube.coord_t :=
  [Cube.coord3 1 (-1) 0; Cube.coord3 1 0 (-1); Cube.coord3 0 1 (-1);
   Cube.coord3 (-1) 1 0; Cube.coord3 (-1) 0 1; Cube.coord3 0 (-1) 1].

(** The loop over the directions. *)
Fixpoint add_neighbors l c (dirs : list Cube.coord_t) (cnt : list ucoord_t) :
    option (list ucoord_t) :=
  match dirs with
  | [] => Some cnt
  | dir :: dirs' =>
      n ← neighbor c dir;
      add_neighbors l c dirs' (if is_within_bounds l n then cnt ++ [n] else cnt)
  end.

(** [adjacent_coordinates<std::vector>]. *)
Definition adjacent_coordinates l c : option (list ucoord_t) := add_neighbors l c cube_directions [].

(** [adjacent_coordinates<std::set>(c1).count(c2) != 0]. *)
Definition is_adjacent_of l c1 c2 : option bool :=
  v ← adjacent_coordinates l c1;
  Some (existsb (λ a, negb (ltb a c2) && negb (ltb c2 a)) (set_of_list ltb v)).

(** The operands of [||] are evaluated from left to right until one holds. *)
Definition is_adjacent_elevation_of l c1 c2 : option bool :=
  b ← is_adjacent_of l c1 c2;
  if (b : bool) then Some true
  else
    b ← is_adjacent_of l (above l c1) c2;
    if (b : bool) then Some true else is_adjacent_of l (below l c1) c2.

(** The lambda [add_if_not_c] of [adjacent_opposite_coordinates]. *)
Definition add_pair_if_not_c c (cnt : list (ucoord_t * ucoord_t)) (cardinal1 cardinal2 : ucoord_t) :
    list (ucoord_t * ucoord_t) :=
  if neqb cardinal1 c && neqb cardinal2 c then cnt ++ [(cardinal1, cardinal2)] else cnt.

(** [adjacent_opposite_coordinates<std::vector>]. *)
Definition adjacent_opposite_coordinates l c : option (list (ucoord_t * ucoord_t)) :=
  let cnt :=
    match orientation_of h with
    | pointy_top_hex => add_pair_if_not_c c [] (east l c) (west l c)
    | flat_top_hex => add_pair_if_not_c c [] (north l c) (south l c)
    end in
  ne ← north_east l c; sw ← south_west l c;
  let cnt := add_pair_if_not_c c cnt ne sw in
  nw ← north_west l c; se ← south_east l c;
  Some (add_pair_if_not_c c cnt nw se).
End Layout.
Arguments offset : clear implicits.
Arguments to_cube_coordinate : clear implicits.
Arguments to_offset_coordinate : clear implicits.
Arguments neighbor : clear implicits.

#[global] Instance hexagonal_coordinate_layout h : CoordinateLayout (hexagonal_layout h) := {
  CoordinateLayout.dimension := dimension;
  CoordinateLayout.max_fanin_size := max_fanin_size;
  CoordinateLayout.north := north;
  CoordinateLayout.north_east l c := default c (north_east l c);
  CoordinateLayout.east := east;
  CoordinateLayout.south_east l c := default c (south_east l c);
  CoordinateLayout.south := south;
  CoordinateLayout.south_west l c := default c (south_west l c);
  CoordinateLayout.west := west;
  CoordinateLayout.north_west l c := default c (north_west l c);
  CoordinateLayout.above := above;
  CoordinateLayout.below := below;
  CoordinateLayout.adjacent_coordinates l c := default [] (adjacent_coordinates l c);
  CoordinateLayout.adjacent_opposite_coordinates l c :=
    default [] (adjacent_opposite_coordinates l c);
}.

(** ** The conversions over the integers *)

Section Conversions.
Context (h : hex_arrangement).

(** The column shift of row [v], or the row shift of column [v]. *)
Definition half (v : Z) : Z := Z.quot (v + offset h * Z.land v 1) 2.

Lemma half_exact v : v + offset h * Z.land v 1 = half v * 2 ∧ half v * 2 = v + offset h * (v mod 2).
Proof.
  unfold half. assert (Z.land v 1 = v mod 2) as -> by (change 1 with (Z.ones 1); by apply Z.land_ones).
  pose proof (Z.div_mod v 2 ltac:(lia)) as Hv. pose proof (Z.mod_pos_bound v 2 ltac:(lia)).
  assert (∃ k, v + offset h * (v mod 2) = k * 2) as [k ->]; [|rewrite Z.quot_mul; lia].
  destruct h; simpl; [exists (v / 2)|exists (v / 2 + v mod 2)|exists (v / 2)|exists (v / 2 + v mod 2)];
    lia.
Qed.

Lemma offset_unit : offset h = -1 ∨ offset h = 1.
Proof. destruct h; auto. Qed.

Lemma half_bounds v : v - 1 <= 2 * half v <= v + 1.
Proof.
  pose proof (half_exact v) as [_ E]. pose proof (Z.mod_pos_bound v 2 ltac:(lia)).
  destruct offset_unit as [Ho|Ho]; rewrite Ho in E; lia.
Qed.

Lemma to_int32_in n : Cube.int32 n → Cube.to_int32 n = n.
Proof. intros H. unfold Cube.int32, Cube.to_int32 in *. rewrite Z.mod_small; lia. Qed.

(** The axial coordinates (x, z) of a position, and back. *)
Definition axial (p : Z * Z) : Z * Z :=
  match orientation_of h with
  | pointy_top_hex => (p.1 - half p.2, p.2)
  | flat_top_hex => (p.1, p.2 - half p.1)
  end.
Definition position (q : Z * Z) : Z * Z :=
  match orientation_of h with
  | pointy_top_hex => (q.1 + half q.2, q.2)
  | flat_top_hex => (q.1, q.2 + half q.1)
  end.

Lemma axial_position q : axial (position q) = q.
Proof. unfold axial, position. destruct (orientation_of h), q; simpl; f_equal; lia. Qed.
Lemma position_axial p : position (axial p) = p.
Proof. unfold axial, position. destruct (orientation_of h), p; simpl; f_equal; lia. Qed.

Definition xy (c : ucoord_t) : Z * Z := (ux c, uy c).

(** The range in which no sum overflows. *)
Definition small (p : Z * Z) : Prop := - 2 ^ 29 <= p.1 <= 2 ^ 29 ∧ - 2 ^ 29 <= p.2 <= 2 ^ 29.

Lemma small_axial p :
  small p → - 2 ^ 30 + 2 <= (axial p).1 <= 2 ^ 30 - 2 ∧ - 2 ^ 30 + 2 <= (axial p).2 <= 2 ^ 30 - 2.
Proof.
  intros [H1 H2]. pose proof (half_bounds p.1). pose proof (half_bounds p.2).
  unfold axial. destruct (orientation_of h); simpl; lia.
Qed.

Lemma int_result_in n : Cube.int32 n → Cube.int_result n = Some n.
Proof. intros H. unfold Cube.int_result. by rewrite decide_True. Qed.

Lemma to_cube_exact c :
  small (xy c) →
  to_cube_coordinate h c =
    Some (Cube.Coord false (axial (xy c)).2 (- (axial (xy c)).1 - (axial (xy c)).2) (axial (xy c)).1).
Proof.
  intros Hc. pose proof (small_axial _ Hc) as Ha. destruct Hc as [Hx Hy]. simpl in *.
  pose proof (half_bounds (ux c)). pose proof (half_bounds (uy c)).
  unfold to_cube_coordinate, axial in *. destruct (orientation_of h); simpl in *;
    rewrite (proj1 (half_exact _)), (int_result_in (_ * 2)) by (unfold Cube.int32; lia); simpl;
    rewrite Z.quot_mul by lia; repeat (rewrite int_result_in by (unfold Cube.int32; lia); simpl); done.
Qed.

(** A sum with a direction, back as an offset coordinate. *)
Lemma to_offset_exact q :
  small (position q) → - 2 ^ 30 <= q.1 <= 2 ^ 30 → - 2 ^ 30 <= q.2 <= 2 ^ 30 →
  ∀ d y, to_offset_coordinate h (Cube.Coord d q.2 y q.1) =
         Some (UCoord 0 0 (wrap 31 (position q).2) (wrap 31 (position q).1)).
Proof.
  intros Hp Hx Hz d y. pose proof (half_bounds q.1). pose proof (half_bounds q.2).
  unfold to_offset_coordinate, position. destruct (orientation_of h); simpl in *;
    rewrite (proj1 (half_exact _)), (int_result_in (_ * 2)) by (unfold Cube.int32; lia); simpl;
    by rewrite Z.quot_mul by lia.
Qed.


(** *** Neighbors *)

(** The directions as steps of axial coordinates. *)
Definition step (dir : Cube.coord_t) : Z * Z := (Cube.cx dir, Cube.cz dir).
Definition steps : list (Z * Z) := step <$> cube_directions.

Definition unit_direction (dir : Cube.coord_t) : Prop :=
  - 1 <= Cube.cx dir <= 1 ∧ - 1 <= Cube.cy dir <= 1 ∧ - 1 <= Cube.cz dir <= 1.

Lemma directions_unit dir : dir ∈ cube_directions → unit_direction dir.
Proof.
  unfold cube_directions. rewrite !elem_of_cons, elem_of_nil.
  intros Hd. repeat destruct Hd as [->|Hd]; [..|done]; vm_compute; repeat split; discriminate.
Qed.

(** The position of the neighbor in a direction, without regard to the bounds. *)
Definition target (p : Z * Z) (s : Z * Z) : Z * Z :=
  position ((axial p).1 + s.1, (axial p).2 + s.2).

Lemma target_near p s :
  - 1 <= s.1 <= 1 → - 1 <= s.2 <= 1 → p.1 - 2 <= (target p s).1 <= p.1 + 2 ∧
  p.2 - 2 <= (target p s).2 <= p.2 + 2.
Proof.
  intros H1 H2. unfold target, position, axial. destruct (orientation_of h); simpl.
  - pose proof (half_bounds p.2). pose proof (half_bounds (p.2 + s.2)). lia.
  - pose proof (half_bounds p.1). pose proof (half_bounds (p.1 + s.1)). lia.
Qed.

(** Coordinates whose neighbors do not overflow. *)
Definition inner (p : Z * Z) : Prop := 0 <= p.1 < 2 ^ 29 - 2 ∧ 0 <= p.2 < 2 ^ 29 - 2.

Lemma neighbor_exact c dir :
  inner (xy c) → unit_direction dir →
  neighbor h c dir =
    Some (UCoord 0 (wrap 1 (uz c)) (wrap 31 (target (xy c) (step dir)).2)
                                   (wrap 31 (target (xy c) (step dir)).1)).
Proof.
  intros Hc (Hx & Hy & Hz). unfold neighbor.
  assert (small (xy c)) as Hs by (unfold small, inner in *; lia).
  pose proof (target_near (xy c) (step dir) Hx Hz) as Ht.
  pose proof (small_axial _ Hs). rewrite to_cube_exact by done. simpl.
  unfold Cube.add. simpl. do 3 (rewrite int_result_in by (unfold Cube.int32; lia); simpl).
  unfold Cube.coord3. rewrite !to_int32_in by (unfold Cube.int32; lia).
  set (q := ((axial (xy c)).1 + Cube.cx dir, (axial (xy c)).2 + Cube.cz dir)).
  change (target (xy c) (step dir)) with (position q) in *.
  pose proof (to_offset_exact q) as E. simpl in E. rewrite E; [done| |lia|lia].
  unfold small, inner in *. lia.
Qed.

Lemma wrap_outside v bound :
  - 2 <= v < 2 ^ 29 → bound < 2 ^ 29 → (wrap 31 v <=? bound) = bool_decide (0 <= v <= bound).
Proof.
  intros Hv Hb. destruct (decide (0 <= v)).
  - rewrite wrap_small by (unfold in_width; lia). case_bool_decide; lia.
  - rewrite bool_decide_eq_false_2 by lia. unfold wrap. rewrite <-(Z.mod_add _ 1) by lia.
    rewrite Z.mod_small by lia. lia.
Qed.
End Conversions.

(** ** Lemmas on the layout *)

Section Inside.
Context {h : hex_arrangement} (l : hexagonal_layout h).

(** The layouts whose coordinates are far enough from the limits of [int]. *)
Definition hex_representable : Prop :=
  proper_dimension (dimension l) ∧ x l < 2 ^ 29 - 2 ∧ y l < 2 ^ 29 - 2.

Context (Hl : hex_representable).

Definition in_box (p : Z * Z) : Prop := 0 <= p.1 <= x l ∧ 0 <= p.2 <= y l.

#[global] Instance in_box_dec p : Decision (in_box p).
Proof. unfold in_box. apply _. Defined.

(** The neighbor in a direction, if it is within the bounds. *)
Definition place (c : ucoord_t) (s : Z * Z) : list ucoord_t :=
  let t := target h (xy c) s in
  if decide (in_box t) then [UCoord 0 (uz c) t.2 t.1] else [].

Lemma inside_inner c : inside (dimension l) c → inner (xy c).
Proof. destruct Hl as (_ & Hx & Hy). unfold inside, inner, x, y in *; simpl. lia. Qed.

Lemma neighbor_place c dir :
  inside (dimension l) c → unit_direction dir →
  ∃ n, neighbor h c dir = Some n ∧
       (if is_within_bounds l n then [n] else []) = place c (step dir).
Proof.
  intros Hc Hd. eexists. split; [apply neighbor_exact; [by apply inside_inner|done]|].
  destruct Hl as (Hp & Hx & Hy). pose proof (proper_dimension_bounds _ Hp).
  pose proof (target_near h (xy c) (step dir)) as Ht. destruct Hd as (Hdx & _ & Hdz).
  specialize (Ht Hdx Hdz). unfold place. set (t := target h (xy c) (step dir)) in *.
  unfold inside in Hc. simpl in Ht. unfold x, y in *.
  assert (wrap 1 (uz c) = uz c) as -> by (apply wrap_small; unfold in_width; lia).
  unfold is_within_bounds. simpl. rewrite !wrap_outside by (unfold x, y; lia).
  assert (uz c <=? z l = true) as -> by (unfold z; lia). rewrite andb_true_r.
  unfold in_box. repeat case_bool_decide; simpl; case_decide; try done; try lia.
  by rewrite !wrap_small by (unfold in_width, x, y in *; lia).
Qed.

Lemma add_neighbors_place c dirs cnt :
  inside (dimension l) c → Forall unit_direction dirs →
  add_neighbors l c dirs cnt = Some (cnt ++ ((step <$> dirs) ≫= place c)).
Proof.
  intros Hc Hd. revert cnt. induction Hd as [|dir dirs Hd _ IH]; intros cnt.
  { simpl. by rewrite app_nil_r. }
  destruct (neighbor_place c dir Hc Hd) as (n & En & E). cbn [add_neighbors].
  rewrite En. cbn [mbind option_bind]. rewrite IH. f_equal.
  rewrite fmap_cons, bind_cons, <-E, app_assoc. f_equal. destruct (is_within_bounds l n); [done|].
  by rewrite app_nil_r.
Qed.

Lemma adjacent_eq c :
  inside (dimension l) c → adjacent_coordinates l c = Some (steps ≫= place c).
Proof.
  intros Hc. unfold adjacent_coordinates. rewrite add_neighbors_place; [done|done|].
  apply Forall_forall. apply directions_unit.
Qed.

(** *** Distance *)

(** The distance of hexagons, on axial coordinates: the largest difference of cube coordinates. *)
Definition axial_distance (p q : Z * Z) : Z :=
  Z.max (Z.max (Z.abs (p.1 - q.1)) (Z.abs (p.2 - q.2))) (Z.abs (p.1 + p.2 - (q.1 + q.2))).

Lemma axial_distance_sym p q : axial_distance p q = axial_distance q p.
Proof. unfold axial_distance. lia. Qed.

Lemma steps_eq : steps = [(1, 0); (1, -1); (0, -1); (-1, 0); (-1, 1); (0, 1)].
Proof. done. Qed.

Lemma steps_distance p q : axial_distance p q = 1 ↔ (q.1 - p.1, q.2 - p.2) ∈ steps.
Proof.
  rewrite steps_eq, !elem_of_cons, elem_of_nil. unfold axial_distance.
  split; [|intros H; repeat destruct H as [[= ? ?]|H]; try done; lia].
  intros H. assert (q.1 - p.1 = 1 ∧ q.2 - p.2 = 0 ∨ q.1 - p.1 = 1 ∧ q.2 - p.2 = -1 ∨
    q.1 - p.1 = 0 ∧ q.2 - p.2 = -1 ∨ q.1 - p.1 = -1 ∧ q.2 - p.2 = 0 ∨
    q.1 - p.1 = -1 ∧ q.2 - p.2 = 1 ∨ q.1 - p.1 = 0 ∧ q.2 - p.2 = 1) as Hc by lia.
  intuition (repeat match goal with E : _ - _ = _ |- _ => rewrite E; clear E end; auto 10).
Qed.

Lemma target_eq c s a : xy a = target h (xy c) s ↔
  s = ((axial h (xy a)).1 - (axial h (xy c)).1, (axial h (xy a)).2 - (axial h (xy c)).2).
Proof.
  unfold target. split.
  - intros ->. rewrite axial_position. destruct s; simpl. f_equal; lia.
  - intros ->. simpl. rewrite <-(position_axial h (xy a)) at 1. f_equal.
    destruct (axial h (xy a)); simpl. f_equal; lia.
Qed.

Lemma elem_of_place c s a :
  inside (dimension l) c →
  a ∈ place c s ↔ inside (dimension l) a ∧ uz a = uz c ∧ xy a = target h (xy c) s.
Proof.
  intros Hc. unfold place. set (t := target h (xy c) s). clearbody t. unfold inside in *.
  unfold xy, in_box, x, y. split.
  - case_decide as Ht; [|by intros ?%elem_of_nil]. intros ->%list_elem_of_singleton. simpl.
    destruct t; simpl in *. split_and!; done || lia.
  - intros (Ha & Hz & <-). simpl. rewrite decide_True by lia. apply list_elem_of_singleton.
    destruct a; simpl in *. f_equal; lia.
Qed.

Lemma elem_of_places c a :
  inside (dimension l) c →
  a ∈ (steps ≫= place c) ↔
  inside (dimension l) a ∧ uz a = uz c ∧ axial_distance (axial h (xy c)) (axial h (xy a)) = 1.
Proof.
  intros Hc. rewrite list_elem_of_bind, steps_distance. split.
  - intros (s & Hp & Hs). apply elem_of_place in Hp as (Ha & Hz & E); [|done].
    apply target_eq in E. by subst s.
  - intros (Ha & Hz & Hs). eexists. split; [|exact Hs]. apply elem_of_place; [done|].
    split_and!; [done..|]. by apply target_eq.
Qed.

Lemma places_NoDup c : inside (dimension l) c → NoDup (steps ≫= place c).
Proof.
  intros Hc. apply NoDup_bind.
  - intros s s' a _ _ Ha Ha'. apply elem_of_place in Ha as (_ & _ & E), Ha' as (_ & _ & E'); [|done..].
    apply target_eq in E, E'. by subst.
  - intros s _. unfold place. case_decide; [apply NoDup_singleton|constructor].
  - rewrite steps_eq. apply (bool_decide_unpack _). by vm_compute.
Qed.

Lemma places_length c : (length (steps ≫= place c) <= 6)%nat.
Proof.
  rewrite steps_eq. simpl. rewrite !length_app.
  assert (∀ s, (length (place c s) <= 1)%nat) as Hs by (intros s; unfold place; case_decide; simpl; lia).
  pose proof (Hs (1, 0)). pose proof (Hs (1, -1)). pose proof (Hs (0, -1)). pose proof (Hs (-1, 0)).
  pose proof (Hs (-1, 1)). pose proof (Hs (0, 1)). simpl. lia.
Qed.

(** *** Named directions *)

(** The neighbor in a direction, or [c] itself at the border. *)
Definition toward (c : ucoord_t) (s : Z * Z) : ucoord_t :=
  match place c s with a :: _ => a | [] => c end.

Lemma neighbor_or_c_toward c dir :
  inside (dimension l) c → unit_direction dir →
  neighbor_or_c l c dir = Some (toward c (step dir)).
Proof.
  intros Hc Hd. destruct (neighbor_place c dir Hc Hd) as (n & En & E).
  unfold neighbor_or_c, toward. rewrite En, <-E. simpl. by destruct (is_within_bounds l n).
Qed.

Lemma toward_pointy c k :
  orientation_of h = pointy_top_hex →
  target h (xy c) (k, 0) = (ux c + k, uy c).
Proof. intros Hh. unfold target, position, axial. rewrite Hh. simpl. f_equal; rewrite Z.add_0_r; lia. Qed.

Lemma toward_flat c k :
  orientation_of h = flat_top_hex →
  target h (xy c) (0, k) = (ux c, uy c + k).
Proof. intros Hh. unfold target, position, axial. rewrite Hh. simpl. f_equal; rewrite Z.add_0_r; lia. Qed.

(** Opens [toward] with a known target inside of the bounds or not. *)
Ltac open_toward Hc :=
  destruct Hl as (Hp & Hx & Hy); pose proof (proper_dimension_bounds _ Hp);
  unfold inside in Hc; unfold toward, place, in_box, set_x, set_y, set_d, xy, x, y in *;
  match goal with |- _ = match (if decide ?P then _ else _) with _ => _ end => destruct (decide P) end;
  simpl in *; repeat case_match; try lia; try done;
  try (rewrite wrap_small by (unfold in_width; lia)); try (f_equal; lia).

Lemma east_toward c :
  orientation_of h = pointy_top_hex → inside (dimension l) c → east l c = toward c (1, 0).
Proof. intros Hh Hc. unfold east, toward, place. rewrite toward_pointy by done. open_toward Hc. Qed.
Lemma west_toward c :
  orientation_of h = pointy_top_hex → inside (dimension l) c → west l c = toward c (-1, 0).
Proof. intros Hh Hc. unfold west, toward, place. rewrite toward_pointy by done. open_toward Hc. Qed.
Lemma north_toward c :
  orientation_of h = flat_top_hex → inside (dimension l) c → north l c = toward c (0, -1).
Proof. intros Hh Hc. unfold north, toward, place. rewrite toward_flat by done. open_toward Hc. Qed.
Lemma south_toward c :
  orientation_of h = flat_top_hex → inside (dimension l) c → south l c = toward c (0, 1).
Proof. intros Hh Hc. unfold south, toward, place. rewrite toward_flat by done. open_toward Hc. Qed.

Lemma toward_adjacent c s a :
  inside (dimension l) c → s ∈ steps → toward c s = a ∧ a ≠ c ↔ a ∈ place c s.
Proof.
  intros Hc Hs. unfold toward. assert (c ∉ place c s) as Hn.
  { intros Hin. assert (c ∈ (steps ≫= place c)) as H by (apply list_elem_of_bind; by exists s).
    apply elem_of_places in H as (_ & _ & Hd); [|done]. unfold axial_distance in Hd. lia. }
  revert Hn. unfold place. case_decide; [|intros _; rewrite elem_of_nil; naive_solver].
  rewrite !list_elem_of_singleton. naive_solver.
Qed.

(** All six directions of the orientation, in opposite pairs. *)
Definition axes : list (Z * Z) :=
  match orientation_of h with
  | pointy_top_hex => [(1, 0); (1, -1); (0, -1)]
  | flat_top_hex => [(0, -1); (1, -1); (-1, 0)]
  end.
Definition opposite (s : Z * Z) : Z * Z := (- s.1, - s.2).

Lemma steps_axes s : s ∈ steps ↔ s ∈ axes ∨ opposite s ∈ axes.
Proof.
  rewrite steps_eq. unfold axes, opposite. destruct s as [a b].
  destruct (orientation_of h); rewrite !elem_of_cons, !elem_of_nil, !pair_equal_spec; simpl; lia.
Qed.

(** The named operations are the neighbors along the axes. *)
Lemma named_directions c :
  inside (dimension l) c →
  ∃ ne se sw nw,
    north_east l c = Some ne ∧ south_east l c = Some se ∧
    south_west l c = Some sw ∧ north_west l c = Some nw ∧
    (match orientation_of h with
     | pointy_top_hex => [(east l c, west l c); (ne, sw); (nw, se)]
     | flat_top_hex => [(north l c, south l c); (ne, sw); (nw, se)]
     end) = (λ s, (toward c s, toward c (opposite s))) <$> axes.
Proof.
  intros Hc. unfold north_east, south_east, south_west, north_west, axes.
  assert (∀ dir, dir ∈ cube_directions → neighbor_or_c l c dir = Some (toward c (step dir))) as Hn.
  { intros dir Hd. apply neighbor_or_c_toward; [done|by apply directions_unit]. }
  destruct (orientation_of h) eqn:Hh; do 4 eexists;
    (rewrite !Hn by (unfold cube_directions; set_solver)); split_and!; try done.
  - by rewrite east_toward, west_toward.
  - by rewrite north_toward, south_toward.
Qed.

(** The adjacent coordinates are those of the six directions that are not [c]. *)
Lemma adjacent_toward c a :
  inside (dimension l) c → a ∈ (steps ≫= place c) ↔ a ≠ c ∧ a ∈ (toward c <$> steps).
Proof.
  intros Hc. rewrite list_elem_of_bind, list_elem_of_fmap. split.
  - intros (s & Ha & Hs). apply toward_adjacent in Ha as [<- Ha]; [|done..]. split; [done|by exists s].
  - intros (Ha & s & -> & Hs). exists s. split; [by apply toward_adjacent|done].
Qed.

(** The pairs of opposite neighbors. *)
Lemma opposite_pairs c :
  inside (dimension l) c →
  ∃ ps, adjacent_opposite_coordinates l c = Some ps ∧
    ∀ a b, (a, b) ∈ ps ↔ ∃ s, s ∈ axes ∧ a ∈ place c s ∧ b ∈ place c (opposite s).
Proof.
  intros Hc. destruct (named_directions c Hc) as (ne & se & sw & nw & Ene & Ese & Esw & Enw & E).
  exists (foldl (λ cnt p, add_pair_if_not_c c cnt p.1 p.2) []
            ((λ s, (toward c s, toward c (opposite s))) <$> axes)). split.
  { unfold adjacent_opposite_coordinates. rewrite Ene, Esw, Enw, Ese. simpl. f_equal.
    rewrite <-E. by destruct (orientation_of h). }
  intros a b. assert (∀ ps cnt, (a, b) ∈ foldl (λ cnt p, add_pair_if_not_c c cnt p.1 p.2) cnt ps ↔
    (a, b) ∈ cnt ∨ (a, b) ∈ ps ∧ a ≠ c ∧ b ≠ c) as ->.
  { induction ps as [|[p q] ps IH]; intros cnt; simpl; [rewrite elem_of_nil; tauto|].
    rewrite IH, elem_of_cons. unfold add_pair_if_not_c. destruct (neqb p c && neqb q c) eqn:Hn.
    - rewrite andb_true_iff, !neqb_true in Hn. rewrite elem_of_app, list_elem_of_singleton. naive_solver.
    - rewrite andb_false_iff, !neqb_false in Hn. naive_solver. }
  rewrite elem_of_nil, list_elem_of_fmap. split.
  - intros [[]|((s & [= -> ->] & Hs) & Ha & Hb)]. exists s. split; [done|].
    split; apply toward_adjacent; try done; apply steps_axes; [by left|right].
    unfold opposite; simpl. by rewrite !Z.opp_involutive, <-surjective_pairing.
  - intros (s & Hs & Ha & Hb). right.
    apply toward_adjacent in Ha as [<- Ha]; [|done|apply steps_axes; by left].
    apply toward_adjacent in Hb as [<- Hb]; [|done|apply steps_axes; right].
    2:{ unfold opposite; simpl. by rewrite !Z.opp_involutive, <-surjective_pairing. }
    split; [by exists s|done].
Qed.

(** Two adjacent positions lie in opposite directions if [c] is their midpoint. *)
Lemma opposite_places c a b :
  inside (dimension l) c →
  (∃ s, s ∈ axes ∧ a ∈ place c s ∧ b ∈ place c (opposite s)) ∨
  (∃ s, s ∈ axes ∧ b ∈ place c s ∧ a ∈ place c (opposite s)) ↔
  a ∈ (steps ≫= place c) ∧ b ∈ (steps ≫= place c) ∧
  (axial h (xy a)).1 + (axial h (xy b)).1 = 2 * (axial h (xy c)).1 ∧
  (axial h (xy a)).2 + (axial h (xy b)).2 = 2 * (axial h (xy c)).2.
Proof.
  intros Hc. assert (∀ s, opposite (opposite s) = s) as Hoo.
  { intros [u v]. unfold opposite; simpl. by rewrite !Z.opp_involutive. }
  transitivity (∃ s, s ∈ steps ∧ a ∈ place c s ∧ b ∈ place c (opposite s)).
  - setoid_rewrite steps_axes. split.
    + intros [(s & Hs & Ha & Hb)|(s & Hs & Hb & Ha)]; [exists s; auto|].
      exists (opposite s). rewrite Hoo. auto.
    + intros (s & [Hs|Hs] & Ha & Hb); [left; by exists s|right; exists (opposite s)]. by rewrite Hoo.
  - rewrite !list_elem_of_bind. setoid_rewrite elem_of_place; [|done..]. setoid_rewrite target_eq. split.
    + intros (s & Hs & (Ha & Hza & ->) & (Hb & Hzb & Eb)). unfold opposite in Eb; simpl in Eb.
      injection Eb as E1 E2. split; [by eexists|]. split; [|lia].
      eexists. split; [done|]. rewrite <-E1, <-E2. apply steps_axes.
      apply steps_axes in Hs as [Hs|Hs]; [right|left]; [|exact Hs].
      unfold opposite; simpl. by rewrite !Z.opp_involutive.
    + intros ((s & (Ha & Hza & ->) & Hs) & (s' & (Hb & Hzb & ->) & Hs') & E1 & E2).
      eexists. split_and!; [exact Hs|done..|]. unfold opposite; simpl. f_equal; lia.
Qed.
End Inside.

#[global] Instance hexagonal_coordinate_layout_laws h : CoordinateLayoutLaws (hexagonal_layout h).
Proof.
  refine {| representable l := hex_representable l |}; simpl.
  - by intros l [].
  - intros l c a Hl Hc. rewrite adjacent_eq by done. simpl.
    intros (Ha & Hz & Hd)%elem_of_places; [|done..]. split_and!; [done..|]. intros ->.
    unfold axial_distance in Hd. lia.
  - intros l c a Hl Hc. rewrite adjacent_eq by done. simpl.
    intros (Ha & Hz & Hd)%elem_of_places; [|done..]. rewrite adjacent_eq by done. simpl.
    apply elem_of_places; [done..|]. by rewrite axial_distance_sym.
  - intros l c a k Hl Hc Hk. rewrite !adjacent_eq by done. simpl.
    intros (Ha & Hz & Hd)%elem_of_places; [|done..].
    apply elem_of_places; [done..|]. split_and!; [|done|exact Hd].
    unfold set_z, inside in *; simpl in *. lia.
  - intros l c Hl Hc. unfold above, z. unfold inside in Hc. case_match; [lia|done].
  - intros l c Hl Hc. done.
Defined.

End Hexagonal.
Import Hexagonal.

(** * Properties *)

(** The distance of hexagons: the largest difference of the cube coordinates. *)
Definition cube_distance (q r : Cube.coord_t) : Z :=
  Z.max (Z.max (Z.abs (Cube.cx q - Cube.cx r)) (Z.abs (Cube.cy q - Cube.cy r)))
    (Z.abs (Cube.cz q - Cube.cz r)).

Lemma inside_small {h} (l : hexagonal_layout h) c :
  hex_representable l → inside (dimension l) c → small (xy c).
Proof. intros (_ & Hx & Hy) Hc. unfold inside, small, x, y in *; simpl. lia. Qed.

(** In all four arrangements the conversion to cube coordinates yields coordinates with sum 0 and
    converting back restores the position (in the ground layer): no arithmetic overflows on layouts of
    up to 2^29 - 2 columns and rows. *)
Theorem cube_conversion_roundtrip {h} (l : hexagonal_layout h) (c : ucoord_t) :
  hex_representable l → inside (dimension l) c →
  ∃ q, to_cube_coordinate h c = Some q ∧ Cube.cx q + Cube.cy q + Cube.cz q = 0 ∧
       to_offset_coordinate h q = Some (set_z c 0).
Proof.
  intros Hl Hc. pose proof (inside_small l c Hl Hc) as Hs. pose proof (small_axial h _ Hs) as Ha.
  eexists. split; [by apply to_cube_exact|]. split; [simpl; lia|].
  pose proof (to_offset_exact h (axial h (xy c))) as T. rewrite position_axial in T.
  rewrite T by (done || lia).
  destruct Hl as (Hp & Hx & Hy). pose proof (proper_dimension_bounds _ Hp).
  unfold inside, x, y in *. unfold set_z, xy; simpl.
  rewrite !wrap_small by (unfold in_width; lia).
  destruct c; simpl in *. f_equal. f_equal; lia.
Qed.

Lemma cube_conversion_roundtrip_witness :
  ∃ q, to_cube_coordinate even_row_hex (UCoord 0 1 3 2) = Some q ∧
       Cube.cx q + Cube.cy q + Cube.cz q = 0 ∧
       to_offset_coordinate even_row_hex q = Some (set_z (UCoord 0 1 3 2) 0).
Proof.
  apply (cube_conversion_roundtrip (h := even_row_hex) (make (UCoord 0 1 5 5))).
  - split_and!; by vm_compute.
  - vm_compute. repeat split; discriminate.
Defined.

(** C40: Adjacency on hexagonal layouts is distance 1 in cube coordinates: for every position within the
    bounds, [adjacent_coordinates] returns without repetition, and without leaving [int], exactly
    the positions within the bounds in the same layer at distance 1; there are at most six. They are
    the positions other than [c] that the cardinal operations of the orientation return. *)
Theorem hexagonal_adjacency {h} (l : hexagonal_layout h) (c : ucoord_t) :
  hex_representable l → inside (dimension l) c →
  ∃ v q ne se sw nw,
    adjacent_coordinates l c = Some v ∧ to_cube_coordinate h c = Some q ∧
    north_east l c = Some ne ∧ south_east l c = Some se ∧
    south_west l c = Some sw ∧ north_west l c = Some nw ∧
    NoDup v ∧ (length v <= 6)%nat ∧
    (∀ a, a ∈ v ↔ inside (dimension l) a ∧ uz a = uz c ∧
                  ∃ r, to_cube_coordinate h a = Some r ∧ cube_distance q r = 1) ∧
    (∀ a, a ∈ v ↔ a ≠ c ∧
       a ∈ match orientation_of h with
           | pointy_top_hex => [ne; east l c; se; sw; west l c; nw]
           | flat_top_hex => [north l c; ne; se; south l c; sw; nw]
           end).
Proof.
  intros Hl Hc. pose proof (inside_small l c Hl Hc) as Hs.
  destruct (named_directions l Hl c Hc) as (ne & se & sw & nw & Ene & Ese & Esw & Enw & E).
  exists (steps ≫= place l c). eexists. exists ne, se, sw, nw.
  split_and!; [by apply adjacent_eq|by apply to_cube_exact|done..|by apply places_NoDup
    |apply places_length| |].
  - intros a. rewrite elem_of_places by done. split; intros (Ha & Hz & Hd); (split_and!; [done..|]).
    + eexists. split; [apply to_cube_exact; by eapply inside_small|].
      unfold cube_distance; simpl. unfold axial_distance in Hd. lia.
    + destruct Hd as (r & Er & Hd). rewrite to_cube_exact in Er by by eapply inside_small.
      injection Er as <-. unfold cube_distance in Hd; simpl in Hd. unfold axial_distance. lia.
  - intros a. rewrite adjacent_toward, steps_eq by done. revert E. unfold axes, opposite.
    destruct (orientation_of h); simpl; intros [= -> -> -> -> -> ->];
      rewrite !elem_of_cons, !elem_of_nil; tauto.
Qed.

Lemma hexagonal_adjacency_witness :
  ∃ v q ne se sw nw, let l := make (h := odd_column_hex) (UCoord 0 1 5 5) in
    let c := UCoord 0 0 1 2 in
    adjacent_coordinates l c = Some v ∧ to_cube_coordinate odd_column_hex c = Some q ∧
    north_east l c = Some ne ∧ south_east l c = Some se ∧
    south_west l c = Some sw ∧ north_west l c = Some nw ∧
    NoDup v ∧ (length v <= 6)%nat ∧
    (∀ a, a ∈ v ↔ inside (dimension l) a ∧ uz a = uz c ∧
                  ∃ r, to_cube_coordinate odd_column_hex a = Some r ∧ cube_distance q r = 1) ∧
    (∀ a, a ∈ v ↔ a ≠ c ∧ a ∈ [north l c; ne; se; south l c; sw; nw]).
Proof.
  apply (hexagonal_adjacency (h := odd_column_hex) (make (UCoord 0 1 5 5))).
  - split_and!; by vm_compute.
  - vm_compute. repeat split; discriminate.
Defined.

(** [adjacent_opposite_coordinates] returns the straight lines through a position: a pair is
    listed, in one of its two orders, exactly when both are adjacent to [c] and their cube coordinates
    are point-symmetric about those of [c]. *)
Theorem hexagonal_straight_lines {h} (l : hexagonal_layout h) (c : ucoord_t) :
  hex_representable l → inside (dimension l) c →
  ∃ ps v q, adjacent_opposite_coordinates l c = Some ps ∧ adjacent_coordinates l c = Some v ∧
    to_cube_coordinate h c = Some q ∧
    ∀ a b, (a, b) ∈ ps ∨ (b, a) ∈ ps ↔
      a ∈ v ∧ b ∈ v ∧ ∃ qa qb, to_cube_coordinate h a = Some qa ∧ to_cube_coordinate h b = Some qb ∧
        Cube.cx qa + Cube.cx qb = 2 * Cube.cx q ∧ Cube.cy qa + Cube.cy qb = 2 * Cube.cy q ∧
        Cube.cz qa + Cube.cz qb = 2 * Cube.cz q.
Proof.
  intros Hl Hc. destruct (opposite_pairs l Hl c Hc) as (ps & Eps & Hps).
  exists ps, (steps ≫= place l c). eexists.
  split_and!; [done|by apply adjacent_eq|apply to_cube_exact; by eapply inside_small|].
  intros a b. rewrite !Hps, opposite_places by done. split; intros (Ha & Hb & H); (split; [exact Ha|split; [exact Hb|]]).
  - apply elem_of_places in Ha as (Ha & _), Hb as (Hb & _); [|done..].
    do 2 eexists. split_and!; [apply to_cube_exact; by eapply inside_small..| | |]; simpl; lia.
  - destruct H as (qa & qb & Ea & Eb & H).
    apply elem_of_places in Ha as (Ha & _), Hb as (Hb & _); [|done..].
    rewrite to_cube_exact in Ea, Eb by by eapply inside_small.
    injection Ea as <-. injection Eb as <-. simpl in H. lia.
Qed.

Lemma hexagonal_straight_lines_witness :
  let l := make (h := odd_row_hex) (UCoord 0 1 5 5) in let c := UCoord 0 0 1 2 in
  ∃ ps v q, adjacent_opposite_coordinates l c = Some ps ∧ adjacent_coordinates l c = Some v ∧
    to_cube_coordinate odd_row_hex c = Some q ∧
    ∀ a b, (a, b) ∈ ps ∨ (b, a) ∈ ps ↔
      a ∈ v ∧ b ∈ v ∧ ∃ qa qb, to_cube_coordinate odd_row_hex a = Some qa ∧
        to_cube_coordinate odd_row_hex b = Some qb ∧
        Cube.cx qa + Cube.cx qb = 2 * Cube.cx q ∧ Cube.cy qa + Cube.cy qb = 2 * Cube.cy q ∧
        Cube.cz qa + Cube.cz qb = 2 * Cube.cz q.
Proof.
  apply (hexagonal_straight_lines (h := odd_row_hex) (make (UCoord 0 1 5 5))).
  - split_and!; by vm_compute.
  - vm_compute. repeat split; discriminate.
Defined.
