(* ===== verification/ShiftedCartesianLayout.v ===== *)
(** * Shifted Cartesian layouts (include/fiction/layouts/shifted_cartesian_layout.hpp)

    The class template [shifted_cartesian_layout]: squares whose rows or columns are shifted against
    each other by half a square. It inherits all operations from the hexagonal layout of the
    corresponding arrangement. The theorem relates the inherited adjacency to the geometry of the
    squares. *)

From S2P Require Import Prelude.
From S2P Require Import Coordinates.
From S2P Require Import CoordinateLayout.
From S2P Require Import HexagonalLayout.
#[local] Open Scope Z_scope.
Import Offset Hexagonal.

Module ShiftedCartesian.

(** The tag types. *)
Inductive orientation := horizontal_shift_cartesian | vertical_shift_cartesian.
Inductive cartesian_arrangement :=
  odd_row_cartesian | even_row_cartesian | odd_column_cartesian | even_column_cartesian.

Definition orientation_of (a : cartesian_arrangement) : orientation :=
  match a with
  | odd_row_cartesian | even_row_cartesian => horizontal_shift_cartesian
  | odd_column_cartesian | even_column_cartesian => vertical_shift_cartesian
  end.

(** The arrangement of the base class. *)
Definition hex_arrangement_of (a : cartesian_arrangement) : hex_arrangement :=
  match a with
  | odd_row_cartesian => odd_row_hex
  | even_row_cartesian => even_row_hex
  | odd_column_cartesian => odd_column_hex
  | even_column_cartesian => even_column_hex
  end.

Definition shifted_cartesian_layout (a : cartesian_arrangement) : Type :=
  hexagonal_layout (hex_arrangement_of a).

Definition make {a} (ar : ucoord_t) : shifted_cartesian_layout a := Hexagonal.make ar.

End ShiftedCartesian.
Import ShiftedCartesian.

(** The instances of the base class do not stand for those of this class. *)
#[export] Typeclasses Opaque shifted_cartesian_layout.

#[export] Instance shifted_coordinate_layout a : CoordinateLayout (shifted_cartesian_layout a) :=
  hexagonal_coordinate_layout (hex_arrangement_of a).

#[export] Instance shifted_coordinate_layout_laws a :
  CoordinateLayoutLaws (shifted_cartesian_layout a) :=
  hexagonal_coordinate_layout_laws (hex_arrangement_of a).

(** ** Geometry *)

(** Whether a row or column of this index is shifted. *)
Definition is_shifted (a : cartesian_arrangement) (v : Z) : bool :=
  match a with
  | odd_row_cartesian | odd_column_cartesian => v mod 2 =? 1
  | even_row_cartesian | even_column_cartesian => v mod 2 =? 0
  end.

(** The upper left corner of the square at a position, in halves of the length of a side. *)
Definition corner (a : cartesian_arrangement) (c : ucoord_t) : Z * Z :=
  match ShiftedCartesian.orientation_of a with
  | horizontal_shift_cartesian => (2 * ux c + Z.b2z (is_shifted a (uy c)), 2 * uy c)
  | vertical_shift_cartesian => (2 * ux c, 2 * uy c + Z.b2z (is_shifted a (ux c)))
  end.

(** Two squares share a part of a side: they touch in one dimension and overlap in the other. *)
Definition share_side (p q : Z * Z) : Prop :=
  Z.abs (p.1 - q.1) = 2 ∧ Z.abs (p.2 - q.2) < 2 ∨ Z.abs (p.2 - q.2) = 2 ∧ Z.abs (p.1 - q.1) < 2.

(** The corners as a function of the axial coordinates, up to a constant. *)
Lemma corner_axial a c :
  ∃ k, match ShiftedCartesian.orientation_of a with
       | horizontal_shift_cartesian =>
           (corner a c).1 = 2 * (axial (hex_arrangement_of a) (xy c)).1 + uy c + k ∧
           (corner a c).2 = 2 * uy c ∧ (axial (hex_arrangement_of a) (xy c)).2 = uy c
       | vertical_shift_cartesian =>
           (corner a c).2 = 2 * (axial (hex_arrangement_of a) (xy c)).2 + ux c + k ∧
           (corner a c).1 = 2 * ux c ∧ (axial (hex_arrangement_of a) (xy c)).1 = ux c
       end ∧
    k = match a with odd_row_cartesian | odd_column_cartesian => 0 | _ => 1 end.
Proof.
  assert (∀ v, Z.b2z (v mod 2 =? 1) = v mod 2 ∧ Z.b2z (v mod 2 =? 0) = 1 - v mod 2) as Hb.
  { intros v. pose proof (Z.mod_pos_bound v 2 ltac:(lia)).
    destruct (Z.eqb_spec (v mod 2) 1), (Z.eqb_spec (v mod 2) 0); simpl; lia. }
  pose proof (Hb (ux c)) as Hx. pose proof (Hb (uy c)) as Hy.
  unfold corner, axial.
  destruct a; eexists; simpl;
    pose proof (half_exact odd_row_hex (uy c)) as H1; pose proof (half_exact even_row_hex (uy c)) as H2;
    pose proof (half_exact odd_column_hex (ux c)) as H3;
    pose proof (half_exact even_column_hex (ux c)) as H4; simpl in *;
    (split_and!; [..|reflexivity]); lia.
Qed.

Lemma share_side_axial a c d :
  share_side (corner a c) (corner a d) ↔
  axial_distance (axial (hex_arrangement_of a) (xy c)) (axial (hex_arrangement_of a) (xy d)) = 1.
Proof.
  destruct (corner_axial a c) as (k & Hc & ->), (corner_axial a d) as (k' & Hd & ->).
  unfold share_side, axial_distance. destruct (ShiftedCartesian.orientation_of a); lia.
Qed.

(** * Properties *)

(** On a shifted Cartesian layout of any of the four arrangements, drawn as documented with every
    odd (or even) row or column shifted by half a square, the adjacent coordinates of a position are
    exactly the positions of the same layer whose squares share a part of a side with it. *)
Theorem shifted_adjacency {a} (l : shifted_cartesian_layout a) (c d : ucoord_t) :
  hex_representable l → inside (Hexagonal.dimension l) c →
  ∃ v, Hexagonal.adjacent_coordinates l c = Some v ∧ NoDup v ∧
    (d ∈ v ↔ inside (Hexagonal.dimension l) d ∧ uz d = uz c ∧ share_side (corner a c) (corner a d)).
Proof.
  intros Hl Hc. exists (steps ≫= place l c).
  split_and!; [by apply adjacent_eq|by apply places_NoDup|].
  by rewrite elem_of_places, share_side_axial by done.
Qed.

Lemma shifted_adjacency_witness :
  let l := make (a := odd_row_cartesian) (UCoord 0 1 5 5) in
  ∃ v, Hexagonal.adjacent_coordinates l (UCoord 0 0 1 2) = Some v ∧ NoDup v ∧
    (UCoord 0 0 2 3 ∈ v ↔ inside (Hexagonal.dimension l) (UCoord 0 0 2 3) ∧ 0 = 0 ∧
       share_side (corner odd_row_cartesian (UCoord 0 0 1 2)) (corner odd_row_cartesian (UCoord 0 0 2 3))).
Proof.
  apply (shifted_adjacency (a := odd_row_cartesian) (make (UCoord 0 1 5 5)) (UCoord 0 0 1 2)
           (UCoord 0 0 2 3)).
  - split_and!; by vm_compute.
  - vm_compute. repeat split; discriminate.
Defined.
