(* ===== verification/ClockingScheme.v ===== *)
(** * Clocking schemes (include/fiction/layouts/clocking_scheme.hpp)

    The class template [clocking_scheme] over the clock zones of a coordinate layout, the predefined
    schemes with their cutouts, and the lookup by name. A layout type enters through its
    [max_fanin_size] and, for the hexagonal 2DDWave scheme, through its hexagonal arrangement. *)

From S2P Require Import Prelude.
From S2P Require Import Coordinates.
#[local] Open Scope Z_scope.
Import Offset.

(** ** The class [clocking_scheme] *)

(** The data members; [override] is the hash map of manually assigned clock numbers. *)
Record clocking_scheme := ClockingScheme {
  name : string;
  max_in_degree : Z;
  max_out_degree : Z;
  num_clocks : Z;
  regular : bool;
  fn : ucoord_t → Z;
  override : gmap ucoord_t Z;
}.

(** The constructor. *)
Definition make_scheme (n : string) (f : ucoord_t → Z) (in_deg out_deg cn : Z) (r : bool) :
    clocking_scheme :=
  ClockingScheme n in_deg out_deg cn r f ∅.

(** [operator()]: the clock number of a zone. *)
Definition clock_number_at (s : clocking_scheme) (cz : ucoord_t) : Z :=
  if regular s then fn s cz
  else match override s !! cz with
       | Some cn => cn
       | None => fn s cz
       end.

(** [operator==(const std::string&)]. *)
Definition has_scheme_name (s : clocking_scheme) (n : string) : bool := bool_decide (name s = n).

Definition is_regular (s : clocking_scheme) : bool := regular s.

Definition override_clock_number (s : clocking_scheme) (cz : ucoord_t) (cn : Z) :
    clocking_scheme :=
  ClockingScheme (name s) (max_in_degree s) (max_out_degree s) (num_clocks s) false (fn s)
    (<[cz := cn mod num_clocks s]> (override s)).

(** ** The predefined schemes *)

Module ClockName.
Definition OPEN : string := "OPEN".
Definition COLUMNAR : string := "COLUMNAR".
Definition ROW : string := "ROW".
Definition TWODDWAVE : string := "2DDWAVE".
Definition TWODDWAVE_HEX : string := "2DDWAVEHEX".
Definition USE : string := "USE".
Definition RES : string := "RES".
Definition ESR : string := "ESR".
Definition CFE : string := "CFE".
Definition BANCS : string := "BANCS".
End ClockName.

Inductive num_clks := THREE | FOUR.

(** The hexagonal coordinate systems of [hexagonal_layout]. *)
Inductive hex_arrangement := odd_row_hex | even_row_hex | odd_column_hex | even_column_hex.

(** [cutout[i][j]] of a [std::array] of arrays. *)
Definition cutout_at (cutout : list (list Z)) (i j : Z) : Z :=
  nth (Z.to_nat j) (nth (Z.to_nat i) cutout []) 0.

(** [[](cz) { return cutout[cz.y % q][cz.x % p]; }] *)
Definition cutout_fn (cutout : list (list Z)) (q p : Z) (cz : ucoord_t) : Z :=
  cutout_at cutout (uy cz mod q) (ux cz mod p).

(** [[](cz) { return cutout[cz.x % q][cz.y % p]; }] *)
Definition cutout_fn_column (cutout : list (list Z)) (q p : Z) (cz : ucoord_t) : Z :=
  cutout_at cutout (ux cz mod q) (uy cz mod p).

Definition open_clocking (max_fanin_size : Z) (n : num_clks) : clocking_scheme :=
  let open_clock_function := λ _, 0 in
  match n with
  | THREE => make_scheme ClockName.OPEN open_clock_function max_fanin_size max_fanin_size 3 false
  | FOUR => make_scheme ClockName.OPEN open_clock_function max_fanin_size max_fanin_size 4 false
  end.

Definition columnar_3_cutout : list (list Z) := [[0; 1; 2]; [0; 1; 2]; [0; 1; 2]].
Definition columnar_4_cutout : list (list Z) :=
  [[0; 1; 2; 3]; [0; 1; 2; 3]; [0; 1; 2; 3]; [0; 1; 2; 3]].

Definition columnar_clocking (max_fanin_size : Z) (n : num_clks) : clocking_scheme :=
  let columnar_3_clock_function := cutout_fn columnar_3_cutout 3 3 in
  let columnar_4_clock_function := cutout_fn columnar_4_cutout 4 4 in
  match n with
  | THREE =>
      make_scheme ClockName.COLUMNAR columnar_3_clock_function (Z.min max_fanin_size 3) 2 3 true
  | FOUR =>
      make_scheme ClockName.COLUMNAR columnar_4_clock_function (Z.min max_fanin_size 3) 2 4 true
  end.

Definition row_3_cutout : list (list Z) := [[0; 0; 0]; [1; 1; 1]; [2; 2; 2]].
Definition row_4_cutout : list (list Z) :=
  [[0; 0; 0; 0]; [1; 1; 1; 1]; [2; 2; 2; 2]; [3; 3; 3; 3]].

Definition row_clocking (max_fanin_size : Z) (n : num_clks) : clocking_scheme :=
  let row_3_clock_function := cutout_fn row_3_cutout 3 3 in
  let row_4_clock_function := cutout_fn row_4_cutout 4 4 in
  match n with
  | THREE => make_scheme ClockName.ROW row_3_clock_function (Z.min max_fanin_size 3) 2 3 true
  | FOUR => make_scheme ClockName.ROW row_4_clock_function (Z.min max_fanin_size 3) 2 4 true
  end.

Definition twoddwave_3_cutout : list (list Z) := [[0; 1; 2]; [1; 2; 0]; [2; 0; 1]].
Definition twoddwave_4_cutout : list (list Z) :=
  [[0; 1; 2; 3]; [1; 2; 3; 0]; [2; 3; 0; 1]; [3; 0; 1; 2]].

Definition twoddwave_clocking (max_fanin_size : Z) (n : num_clks) : clocking_scheme :=
  let twoddwave_3_clock_function := cutout_fn twoddwave_3_cutout 3 3 in
  let twoddwave_4_clock_function := cutout_fn twoddwave_4_cutout 4 4 in
  match n with
  | THREE =>
      make_scheme ClockName.TWODDWAVE twoddwave_3_clock_function (Z.min max_fanin_size 2) 2 3 true
  | FOUR =>
      make_scheme ClockName.TWODDWAVE twoddwave_4_clock_function (Z.min max_fanin_size 2) 2 4 true
  end.

Definition odd_3_cutout : list (list Z) :=
  [[0; 1; 2]; [1; 2; 0]; [1; 2; 0]; [2; 0; 1]; [2; 0; 1]; [0; 1; 2]].
Definition even_3_cutout : list (list Z) :=
  [[0; 1; 2]; [0; 1; 2]; [1; 2; 0]; [1; 2; 0]; [2; 0; 1]; [2; 0; 1]].
Definition odd_4_cutout : list (list Z) :=
  [[0; 1; 2; 3]; [1; 2; 3; 0]; [1; 2; 3; 0]; [2; 3; 0; 1];
   [2; 3; 0; 1]; [3; 0; 1; 2]; [3; 0; 1; 2]; [0; 1; 2; 3]].
Definition even_4_cutout : list (list Z) :=
  [[0; 1; 2; 3]; [0; 1; 2; 3]; [1; 2; 3; 0]; [1; 2; 3; 0];
   [2; 3; 0; 1]; [2; 3; 0; 1]; [3; 0; 1; 2]; [3; 0; 1; 2]].

(** The clock function [twoddwave_hex_clocking] selects for a hexagonal arrangement. *)
Definition twoddwave_hex_clock_function (a : hex_arrangement) (n : num_clks) : ucoord_t → Z :=
  match a, n with
  | odd_row_hex, THREE => cutout_fn odd_3_cutout 6 3
  | odd_row_hex, FOUR => cutout_fn odd_4_cutout 8 4
  | even_row_hex, THREE => cutout_fn even_3_cutout 6 3
  | even_row_hex, FOUR => cutout_fn even_4_cutout 8 4
  | odd_column_hex, THREE => cutout_fn_column odd_3_cutout 6 3
  | odd_column_hex, FOUR => cutout_fn_column odd_4_cutout 8 4
  | even_column_hex, THREE => cutout_fn_column even_3_cutout 6 3
  | even_column_hex, FOUR => cutout_fn_column even_4_cutout 8 4
  end.

(** A layout that is not hexagonal falls back to the four-phase 2DDWave scheme, whatever [n]. *)
Definition twoddwave_hex_clocking (max_fanin_size : Z) (arr : option hex_arrangement)
    (n : num_clks) : clocking_scheme :=
  match arr with
  | Some a =>
      make_scheme ClockName.TWODDWAVE_HEX (twoddwave_hex_clock_function a n)
        (Z.min max_fanin_size 2) 2 (match n with THREE => 3 | FOUR => 4 end) true
  | None => twoddwave_clocking max_fanin_size FOUR
  end.

Definition use_cutout : list (list Z) :=
  [[0; 1; 2; 3]; [3; 2; 1; 0]; [2; 3; 0; 1]; [1; 0; 3; 2]].
Definition use_clocking (max_fanin_size : Z) : clocking_scheme :=
  make_scheme ClockName.USE (cutout_fn use_cutout 4 4) (Z.min max_fanin_size 2) 2 4 true.

Definition res_cutout : list (list Z) :=
  [[3; 0; 1; 2]; [0; 1; 0; 3]; [1; 2; 3; 0]; [0; 3; 2; 1]].
Definition res_clocking (max_fanin_size : Z) : clocking_scheme :=
  make_scheme ClockName.RES (cutout_fn res_cutout 4 4) (Z.min max_fanin_size 3) 3 4 true.

Definition esr_cutout : list (list Z) :=
  [[3; 0; 1; 2]; [0; 1; 2; 3]; [1; 2; 3; 0]; [0; 3; 2; 1]].
Definition esr_clocking (max_fanin_size : Z) : clocking_scheme :=
  make_scheme ClockName.ESR (cutout_fn esr_cutout 4 4) (Z.min max_fanin_size 3) 3 4 true.

Definition cfe_cutout : list (list Z) :=
  [[0; 1; 0; 1]; [3; 2; 3; 2]; [0; 1; 0; 1]; [3; 2; 3; 2]].
Definition cfe_clocking (max_fanin_size : Z) : clocking_scheme :=
  make_scheme ClockName.CFE (cutout_fn cfe_cutout 4 4) (Z.min max_fanin_size 3) 3 4 true.

Definition bancs_cutout : list (list Z) :=
  [[0; 1; 2]; [2; 1; 0]; [2; 0; 1]; [1; 0; 2]; [1; 2; 0]; [0; 2; 1]].
Definition bancs_clocking (max_fanin_size : Z) : clocking_scheme :=
  make_scheme ClockName.BANCS (cutout_fn bancs_cutout 6 3) (Z.min max_fanin_size 2) 2 3 true.

(** ** Classification and lookup *)

Definition linear_schemes : list string :=
  [ClockName.COLUMNAR; ClockName.ROW; ClockName.TWODDWAVE; ClockName.TWODDWAVE_HEX].

Definition is_linear_scheme (s : clocking_scheme) : bool :=
  existsb (λ n, has_scheme_name s n) linear_schemes.

(** [::toupper] of the "C" locale, on a character and on every character of a string. *)
Definition toupper (c : Ascii.ascii) : Ascii.ascii :=
  let n := Ascii.nat_of_ascii c in
  if (97 <=? n)%nat && (n <=? 122)%nat then Ascii.ascii_of_nat (n - 32) else c.

Fixpoint string_toupper (s : string) : string :=
  match s with
  | EmptyString => EmptyString
  | String c s' => String (toupper c) (string_toupper s')
  end.

(** The static map [scheme_lookup]. *)
Definition scheme_lookup (max_fanin_size : Z) (arr : option hex_arrangement) :
    list (string * clocking_scheme) :=
  [(ClockName.OPEN, open_clocking max_fanin_size FOUR);
   ("OPEN3", open_clocking max_fanin_size THREE);
   ("OPEN4", open_clocking max_fanin_size FOUR);
   (ClockName.COLUMNAR, columnar_clocking max_fanin_size FOUR);
   ("COLUMNAR3", columnar_clocking max_fanin_size THREE);
   ("COLUMNAR4", columnar_clocking max_fanin_size FOUR);
   (ClockName.ROW, row_clocking max_fanin_size FOUR);
   ("ROW3", row_clocking max_fanin_size THREE);
   ("ROW4", row_clocking max_fanin_size FOUR);
   (ClockName.TWODDWAVE, twoddwave_clocking max_fanin_size FOUR);
   ("2DDWAVE3", twoddwave_clocking max_fanin_size THREE);
   ("2DDWAVE4", twoddwave_clocking max_fanin_size FOUR);
   (ClockName.TWODDWAVE_HEX, twoddwave_hex_clocking max_fanin_size arr FOUR);
   ("2DDWAVEHEX3", twoddwave_hex_clocking max_fanin_size arr THREE);
   ("2DDWAVEHEX4", twoddwave_hex_clocking max_fanin_size arr FOUR);
   (ClockName.USE, use_clocking max_fanin_size);
   (ClockName.RES, res_clocking max_fanin_size);
   (ClockName.ESR, esr_clocking max_fanin_size);
   (ClockName.CFE, cfe_clocking max_fanin_size);
   (ClockName.BANCS, bancs_clocking max_fanin_size)]%string.

Definition get_clocking_scheme (max_fanin_size : Z) (arr : option hex_arrangement) (n : string) :
    option clocking_scheme :=
  let upper_name := string_toupper n in
  (list_to_map (scheme_lookup max_fanin_size arr) : gmap string clocking_scheme) !! upper_name.

(** ** The invariant of clocking schemes *)

(** Every clock number is below the number of clocks, and a regular scheme has no overrides. *)
Record scheme_wf (s : clocking_scheme) : Prop := {
  scheme_num_clocks : 0 < num_clocks s < 2 ^ 8;
  scheme_fn_bound : ∀ cz, 0 <= fn s cz < num_clocks s;
  scheme_override_bound : map_Forall (λ _ cn, 0 <= cn < num_clocks s) (override s);
  scheme_regular_override : regular s = true → override s = ∅;
}.

(** Overriding a sequence of zones. *)
Definition override_all (s : clocking_scheme) (l : list (ucoord_t * Z)) : clocking_scheme :=
  foldl (λ s '(cz, cn), override_clock_number s cz cn) s l.

(** A cutout has [q] rows of [p] clock numbers below [n]. *)
Definition cutout_ok (cutout : list (list Z)) (q p n : Z) : bool :=
  (Z.of_nat (length cutout) =? q) &&
  forallb (λ row, (Z.of_nat (length row) =? p) && forallb (λ c, (0 <=? c) && (c <? n)) row) cutout.

Lemma cutout_at_bound cutout q p n i j :
  cutout_ok cutout q p n = true → 0 <= i < q → 0 <= j < p → 0 <= cutout_at cutout i j < n.
Proof.
  unfold cutout_ok, cutout_at. rewrite andb_true_iff, forallb_forall. intros [Hq Hrows] Hi Hj.
  assert (In (nth (Z.to_nat i) cutout []) cutout) as Hrow by (apply nth_In; lia).
  apply Hrows in Hrow. rewrite andb_true_iff, forallb_forall in Hrow. destruct Hrow as [Hp Hcs].
  assert (In (nth (Z.to_nat j) (nth (Z.to_nat i) cutout []) 0) (nth (Z.to_nat i) cutout [])) as Hc
    by (apply nth_In; lia).
  apply Hcs in Hc. lia.
Qed.

Lemma cutout_fn_bound cutout q p n cz :
  0 < q → 0 < p → cutout_ok cutout q p n = true → 0 <= cutout_fn cutout q p cz < n.
Proof. intros. apply (cutout_at_bound _ q p); auto using Z.mod_pos_bound. Qed.

Lemma cutout_fn_column_bound cutout q p n cz :
  0 < q → 0 < p → cutout_ok cutout q p n = true → 0 <= cutout_fn_column cutout q p cz < n.
Proof. intros. apply (cutout_at_bound _ q p); auto using Z.mod_pos_bound. Qed.

Create HintDb clocking.
#[export] Hint Resolve cutout_fn_bound cutout_fn_column_bound : clocking.

Lemma make_scheme_wf n f ind outd cn r :
  0 < cn < 2 ^ 8 → (∀ cz, 0 <= f cz < cn) → scheme_wf (make_scheme n f ind outd cn r).
Proof. intros Hcn Hf. split; simpl; [done..|apply map_Forall_empty|done]. Qed.

Lemma override_clock_number_wf s cz cn :
  scheme_wf s → scheme_wf (override_clock_number s cz cn).
Proof.
  intros [Hn Hf Ho Hr]. split; simpl; [done..| |done].
  apply map_Forall_insert_2; [apply Z.mod_pos_bound; lia|done].
Qed.

Lemma override_all_wf s l : scheme_wf s → scheme_wf (override_all s l).
Proof.
  revert s. induction l as [|[cz cn] l IH]; intros s Hs; [done|].
  apply IH. by apply override_clock_number_wf.
Qed.

Lemma override_all_num_clocks s l : num_clocks (override_all s l) = num_clocks s.
Proof. revert s. induction l as [|[cz cn] l IH]; intros s; [done|]. simpl. by rewrite IH. Qed.

Lemma clock_number_bound s cz : scheme_wf s → 0 <= clock_number_at s cz < num_clocks s.
Proof.
  intros [Hn Hf Ho Hr]. unfold clock_number_at. case_match; [done|].
  case_match; [by eapply Ho|done].
Qed.

Ltac solve_scheme_wf :=
  apply make_scheme_wf; simpl; [lia|intros];
  first [lia | apply cutout_fn_bound; [lia|lia|reflexivity]
        | apply cutout_fn_column_bound; [lia|lia|reflexivity]].

Lemma registered_wf mf arr n s :
  (n, s) ∈ scheme_lookup mf arr → scheme_wf s.
Proof.
  unfold scheme_lookup. rewrite !elem_of_cons, elem_of_nil.
  intros H. repeat destruct H as [[=-> ->]|H]; [..|done]; try solve_scheme_wf;
    destruct arr as [[]|]; solve_scheme_wf.
Qed.

Lemma get_clocking_scheme_registered mf arr n s :
  get_clocking_scheme mf arr n = Some s → (string_toupper n, s) ∈ scheme_lookup mf arr.
Proof. apply elem_of_list_to_map_2. Qed.

Lemma scheme_names mf arr :
  (scheme_lookup mf arr).*1 =
    ["OPEN"; "OPEN3"; "OPEN4"; "COLUMNAR"; "COLUMNAR3"; "COLUMNAR4"; "ROW"; "ROW3"; "ROW4";
     "2DDWAVE"; "2DDWAVE3"; "2DDWAVE4"; "2DDWAVEHEX"; "2DDWAVEHEX3"; "2DDWAVEHEX4";
     "USE"; "RES"; "ESR"; "CFE"; "BANCS"]%string.
Proof. done. Qed.

Lemma scheme_names_NoDup mf arr : NoDup (scheme_lookup mf arr).*1.
Proof. rewrite scheme_names. apply (bool_decide_unpack _). by vm_compute. Qed.

Lemma toupper_idemp c : toupper (toupper c) = toupper c.
Proof. by destruct c as [[] [] [] [] [] [] [] []]. Qed.

Lemma string_toupper_idemp s : string_toupper (string_toupper s) = string_toupper s.
Proof. induction s as [|c s IH]; simpl; [done|]. by rewrite toupper_idemp, IH. Qed.

(** * Properties *)

(** Every scheme that [get_clocking_scheme] can return assigns, after any sequence of
    overrides, each zone a clock number below its number of clocks, which fits [uint8_t]. *)
Theorem registered_clock_numbers_bounded (mf : Z) (arr : option hex_arrangement) (n : string)
    (s : clocking_scheme) (l : list (ucoord_t * Z)) (cz : ucoord_t) :
  get_clocking_scheme mf arr n = Some s →
  0 <= clock_number_at (override_all s l) cz < num_clocks s ∧
  num_clocks (override_all s l) = num_clocks s ∧ (num_clocks s = 3 ∨ num_clocks s = 4).
Proof.
  intros Hs%get_clocking_scheme_registered.
  pose proof (registered_wf _ _ _ _ Hs) as Hwf.
  rewrite override_all_num_clocks. split; [|split; [done|]].
  - rewrite <-(override_all_num_clocks s l). by apply clock_number_bound, override_all_wf.
  - revert Hs. unfold scheme_lookup. rewrite !elem_of_cons, elem_of_nil.
    intros H. repeat destruct H as [[=_ ->]|H]; [..|done]; simpl; auto;
      destruct arr; simpl; auto.
Qed.

Lemma registered_clock_numbers_bounded_witness :
  0 <= clock_number_at (override_all (bancs_clocking 3) [(UCoord 0 0 1 1, 7)]) (UCoord 0 0 1 1) < 3.
Proof.
  apply (registered_clock_numbers_bounded 3 None "bancs" (bancs_clocking 3)
           [(UCoord 0 0 1 1, 7)] (UCoord 0 0 1 1)).
  reflexivity.
Defined.

(** Overriding a zone of a scheme makes the scheme irregular, gives the zone the new clock
    number modulo the number of clocks, and leaves the clock number of every other zone and the
    scheme's name and degrees unchanged; a second override of the zone replaces the first. *)
Theorem override_clock_number_correct (s : clocking_scheme) (cz cz' : ucoord_t) (cn cn' : Z) :
  scheme_wf s → cz' ≠ cz →
  let s' := override_clock_number s cz cn in
  is_regular s' = false ∧ clock_number_at s' cz = cn mod num_clocks s ∧
  clock_number_at s' cz' = clock_number_at s cz' ∧
  name s' = name s ∧ max_in_degree s' = max_in_degree s ∧ max_out_degree s' = max_out_degree s ∧
  override_clock_number s' cz cn' = override_clock_number s cz cn'.
Proof.
  intros [Hn Hf Ho Hr] Hne. simpl. split_and!; [done| | |done|done|done|].
  - unfold clock_number_at; simpl. by rewrite lookup_insert_eq.
  - unfold clock_number_at; simpl. rewrite lookup_insert_ne by done.
    destruct (regular s) eqn:E; [|done]. by rewrite Hr, lookup_empty.
  - unfold override_clock_number; simpl. by rewrite insert_insert_eq.
Qed.

Lemma override_clock_number_correct_witness :
  clock_number_at (override_clock_number (use_clocking 3) (UCoord 0 0 0 0) 6) (UCoord 0 0 0 0) = 2 ∧
  clock_number_at (override_clock_number (use_clocking 3) (UCoord 0 0 0 0) 6) (UCoord 0 0 1 0) =
    clock_number_at (use_clocking 3) (UCoord 0 0 1 0).
Proof.
  split; apply (override_clock_number_correct (use_clocking 3) (UCoord 0 0 0 0) (UCoord 0 0 1 0) 6 0);
    try discriminate; apply (registered_wf 3 None "USE"); repeat constructor.
Defined.

(** [get_clocking_scheme] is case-insensitive and total on the registered names: it finds a
    scheme exactly for the names whose upper-case form is registered, and the scheme found is the
    one registered under that form. *)
Theorem get_clocking_scheme_correct (mf : Z) (arr : option hex_arrangement) (n : string) :
  get_clocking_scheme mf arr (string_toupper n) = get_clocking_scheme mf arr n ∧
  (is_Some (get_clocking_scheme mf arr n) ↔ string_toupper n ∈ (scheme_lookup mf arr).*1) ∧
  (∀ s, get_clocking_scheme mf arr n = Some s ↔ (string_toupper n, s) ∈ scheme_lookup mf arr).
Proof.
  assert (∀ s, get_clocking_scheme mf arr n = Some s ↔
               (string_toupper n, s) ∈ scheme_lookup mf arr) as Hiff.
  { intros s. symmetry. apply elem_of_list_to_map, scheme_names_NoDup. }
  split_and!; [|split|done].
  - unfold get_clocking_scheme. by rewrite string_toupper_idemp.
  - intros [s Hs%Hiff]. apply list_elem_of_fmap. by exists (string_toupper n, s).
  - intros ([m s] & E & Hs)%list_elem_of_fmap. simpl in E. subst m. exists s. by apply Hiff.
Qed.
