(* ===== verification/ClockedLayout.v ===== *)
(** * Clocked layouts (include/fiction/layouts/clocked_layout.hpp)

    The class template [clocked_layout]: a coordinate layout extended by a clocking scheme. The
    definitions are generic over the coordinate layout interface, like the template. The properties
    relate the incoming and outgoing zones, bound the degrees of the predefined schemes on Cartesian
    layouts, and show that the schemes listed as linear are free of cycles there. *)

From S2P Require Import Prelude.
From S2P Require Import Coordinates.
From S2P Require Import CoordinateLayout.
From S2P Require Import CartesianLayout.
From S2P Require Import ClockingScheme.
#[local] Open Scope Z_scope.
Import Offset.

Module Clocked.
Section Clocked.
Context {L : Type} `{HL : CoordinateLayout L}.

(** The coordinate layout it extends and the stored clocking scheme. *)
Record clocked_layout := ClockedLayout { coordinate_layout : L; clocking : clocking_scheme }.

(** The constructors: with the irregular open scheme, and with a given scheme. *)
Definition make_open (mk : ucoord_t → L) (ar : ucoord_t) : clocked_layout :=
  ClockedLayout (mk ar) (open_clocking max_fanin_size FOUR).
Definition make (mk : ucoord_t → L) (ar : ucoord_t) (scheme : clocking_scheme) : clocked_layout :=
  ClockedLayout (mk ar) scheme.

(** ** Clocking *)

Definition replace_clocking_scheme (l : clocked_layout) (scheme : clocking_scheme) :
    clocked_layout :=
  ClockedLayout (coordinate_layout l) scheme.

Definition assign_clock_number (l : clocked_layout) (cz : ucoord_t) (cn : Z) : clocked_layout :=
  ClockedLayout (coordinate_layout l) (override_clock_number (clocking l) cz cn).

Definition get_clock_number (l : clocked_layout) (cz : ucoord_t) : Z :=
  clock_number_at (clocking l) cz.

Definition num_clocks (l : clocked_layout) : Z := ClockingScheme.num_clocks (clocking l).

Definition is_regularly_clocked (l : clocked_layout) : bool := is_regular (clocking l).

Definition is_clocking_scheme (l : clocked_layout) (n : string) : bool :=
  has_scheme_name (clocking l) n.

Definition get_clocking_scheme (l : clocked_layout) : clocking_scheme := clocking l.

Definition is_incoming_clocked (l : clocked_layout) (cz1 cz2 : ucoord_t) : bool :=
  if eqb cz1 cz2 then false
  else wrap 8 ((get_clock_number l cz2 + 1) mod num_clocks l) =? get_clock_number l cz1.

Definition is_outgoing_clocked (l : clocked_layout) (cz1 cz2 : ucoord_t) : bool :=
  if eqb cz1 cz2 then false
  else wrap 8 ((get_clock_number l cz1 + 1) mod num_clocks l) =? get_clock_number l cz2.

(** ** Iteration *)

(** [incoming_clocked_zones] and [outgoing_clocked_zones] for [std::vector]. *)
Definition incoming_clocked_zones (l : clocked_layout) (cz : ucoord_t) : list ucoord_t :=
  filter (λ ct, is_incoming_clocked l cz ct = true) (adjacent_coordinates (coordinate_layout l) cz).
Definition outgoing_clocked_zones (l : clocked_layout) (cz : ucoord_t) : list ucoord_t :=
  filter (λ ct, is_outgoing_clocked l cz ct = true) (adjacent_coordinates (coordinate_layout l) cz).

(** The same for [std::set]. *)
Definition incoming_clocked_zones_set (l : clocked_layout) (cz : ucoord_t) : list ucoord_t :=
  set_of_list ltb (filter (λ ct, is_incoming_clocked l cz ct = true)
    (adjacent_coordinates_set (coordinate_layout l) cz)).
Definition outgoing_clocked_zones_set (l : clocked_layout) (cz : ucoord_t) : list ucoord_t :=
  set_of_list ltb (filter (λ ct, is_outgoing_clocked l cz ct = true)
    (adjacent_coordinates_set (coordinate_layout l) cz)).

(** ** Structural properties: the degrees, of type [uint8_t]. *)

Definition in_degree (l : clocked_layout) (cz : ucoord_t) : Z :=
  wrap 8 (Z.of_nat (length (incoming_clocked_zones_set l cz))).
Definition out_degree (l : clocked_layout) (cz : ucoord_t) : Z :=
  wrap 8 (Z.of_nat (length (outgoing_clocked_zones_set l cz))).
Definition degree (l : clocked_layout) (cz : ucoord_t) : Z :=
  wrap 8 (in_degree l cz + out_degree l cz).

(** A zone feeds an outgoing clocked one. *)
Definition feeds (l : clocked_layout) (a b : ucoord_t) : Prop :=
  inside (dimension (coordinate_layout l)) a ∧ b ∈ outgoing_clocked_zones l a.

(** ** Lemmas *)

Lemma incoming_outgoing_dual l a b : is_incoming_clocked l a b = is_outgoing_clocked l b a.
Proof.
  unfold is_incoming_clocked, is_outgoing_clocked. rewrite !eqb_spec.
  by repeat case_bool_decide; simplify_eq.
Qed.

Lemma is_outgoing_clocked_spec l a b :
  scheme_wf (clocking l) →
  is_outgoing_clocked l a b = true ↔
  a ≠ b ∧ (get_clock_number l a + 1) mod num_clocks l = get_clock_number l b.
Proof.
  intros Hs. pose proof (scheme_num_clocks _ Hs) as Hn. unfold is_outgoing_clocked, num_clocks.
  rewrite wrap_small by (pose proof (Z.mod_pos_bound (get_clock_number l a + 1)
    (ClockingScheme.num_clocks (clocking l))); unfold in_width; lia).
  rewrite eqb_spec. case_bool_decide; [naive_solver|]. rewrite Z.eqb_eq. naive_solver.
Qed.

(** Inside of the bounds all coordinates are live, and the order separates them. *)
Lemma ltb_total_inside ar c d :
  proper_dimension ar → inside ar c → inside ar d → ltb c d = false → ltb d c = false → c = d.
Proof.
  intros Har Hc Hd. pose proof (proper_dimension_bounds _ Har).
  destruct c, d. unfold inside, ltb in *; simpl in *.
  repeat case_match; intros; try done; f_equal; lia.
Qed.

Context {Laws : CoordinateLayoutLaws L}.

Lemma elem_of_outgoing l a b :
  b ∈ outgoing_clocked_zones l a ↔
  is_outgoing_clocked l a b = true ∧ b ∈ adjacent_coordinates (coordinate_layout l) a.
Proof. unfold outgoing_clocked_zones, incoming_clocked_zones. by rewrite list_elem_of_filter. Qed.

Lemma elem_of_incoming l a b :
  b ∈ incoming_clocked_zones l a ↔
  is_incoming_clocked l a b = true ∧ b ∈ adjacent_coordinates (coordinate_layout l) a.
Proof. unfold outgoing_clocked_zones, incoming_clocked_zones. by rewrite list_elem_of_filter. Qed.

Lemma adjacent_all_inside (l : L) c :
  representable l → inside (dimension l) c →
  Forall (inside (dimension l)) (adjacent_coordinates l c).
Proof. intros Hl Hc. apply Forall_forall. intros a Ha. by eapply adjacent_inside. Qed.

Lemma elem_of_adjacent_set (l : L) c a :
  representable l → inside (dimension l) c →
  a ∈ adjacent_coordinates_set l c ↔ a ∈ adjacent_coordinates l c.
Proof.
  intros Hl Hc. apply (elem_of_set_of_list _ (inside (dimension l))).
  - intros ??. apply ltb_total_inside. by apply representable_proper.
  - by apply adjacent_all_inside.
Qed.

Lemma elem_of_zones_set (P : ucoord_t → Prop) `{∀ a, Decision (P a)} (l : L) c a :
  representable l → inside (dimension l) c →
  a ∈ set_of_list ltb (filter P (adjacent_coordinates_set l c)) ↔
  P a ∧ a ∈ adjacent_coordinates l c.
Proof.
  intros Hl Hc. rewrite (elem_of_set_of_list _ (inside (dimension l))).
  - rewrite list_elem_of_filter. by rewrite elem_of_adjacent_set.
  - intros ??. apply ltb_total_inside. by apply representable_proper.
  - apply Forall_forall. intros b [_ Hb]%list_elem_of_filter.
    rewrite elem_of_adjacent_set in Hb by done. by eapply adjacent_inside.
Qed.

Lemma elem_of_outgoing_set l a b :
  representable (coordinate_layout l) → inside (dimension (coordinate_layout l)) a →
  b ∈ outgoing_clocked_zones_set l a ↔ b ∈ outgoing_clocked_zones l a.
Proof. intros Hl Ha. unfold outgoing_clocked_zones_set. rewrite elem_of_zones_set, elem_of_outgoing; done. Qed.

Lemma elem_of_incoming_set l a b :
  representable (coordinate_layout l) → inside (dimension (coordinate_layout l)) a →
  b ∈ incoming_clocked_zones_set l a ↔ b ∈ incoming_clocked_zones l a.
Proof. intros Hl Ha. unfold incoming_clocked_zones_set. rewrite elem_of_zones_set, elem_of_incoming; done. Qed.

Lemma incoming_iff_outgoing l a b :
  representable (coordinate_layout l) →
  inside (dimension (coordinate_layout l)) a → inside (dimension (coordinate_layout l)) b →
  b ∈ incoming_clocked_zones l a ↔ a ∈ outgoing_clocked_zones l b.
Proof.
  intros Hl Ha Hb. rewrite elem_of_incoming, elem_of_outgoing, incoming_outgoing_dual.
  split; intros [? ?]; (split; [done|by apply adjacent_sym]).
Qed.

Lemma feeds_inside l a b :
  representable (coordinate_layout l) → feeds l a b →
  inside (dimension (coordinate_layout l)) b.
Proof. intros Hl [Ha [_ Hb]%elem_of_outgoing]. by eapply adjacent_inside. Qed.

(** The cardinality of a container of zones is at most the number of candidates it selects. *)
Lemma zones_set_length (P : ucoord_t → Prop) `{∀ a, Decision (P a)} (l : L) c cand :
  NoDup (adjacent_coordinates l c) → (∀ a, a ∈ adjacent_coordinates l c → a ∈ cand) →
  (length (set_of_list ltb (filter P (adjacent_coordinates_set l c))) <= length (filter P cand))%nat.
Proof.
  intros Hnd Hcand. apply submseteq_length.
  etrans; [apply set_of_list_submseteq|]. apply submseteq_filter.
  etrans; [apply set_of_list_submseteq|]. by apply NoDup_submseteq.
Qed.
End Clocked.
Arguments clocked_layout : clear implicits.
Arguments ClockedLayout {L} _ _.
End Clocked.

Import Clocked.

(** ** The predefined schemes on Cartesian layouts *)

(** The clock numbers of the four neighbours of residue position (x, y) of a [q] by [p] cutout. *)
Definition neighbour_clocks (t : list (list Z)) (q p x y : Z) : list Z :=
  [cutout_at t ((y - 1) mod q) x; cutout_at t y ((x + 1) mod p);
   cutout_at t ((y + 1) mod q) x; cutout_at t y ((x - 1) mod p)].

(** No position of the cutout has more than [din] preceding and [dout] succeeding neighbours. *)
Definition degrees_ok (t : list (list Z)) (q p n din dout : Z) : bool :=
  forallb (λ y, forallb (λ x,
    let c := cutout_at t y x in
    let ns := neighbour_clocks t q p x y in
    (Z.of_nat (length (filter (λ a, (a + 1) mod n = c) ns)) <=? din) &&
    (Z.of_nat (length (filter (λ a, (c + 1) mod n = a) ns)) <=? dout)) (seqZ 0 p)) (seqZ 0 q).

(** The cutout is the linear form [a * x + b * y] modulo [n]. *)
Definition linear_ok (t : list (list Z)) (n a b : Z) : bool :=
  forallb (λ y, forallb (λ x, cutout_at t y x =? (a * x + b * y) mod n) (seqZ 0 n)) (seqZ 0 n).

Lemma forallb_seqZ (f : Z → bool) n i : forallb f (seqZ 0 n) = true → 0 <= i < n → f i = true.
Proof.
  rewrite forallb_forall. intros Hf Hi. apply Hf, list_elem_of_In, elem_of_seqZ. lia.
Qed.

Lemma linear_cutout t n a b cz :
  0 < n → linear_ok t n a b = true → cutout_fn t n n cz = (a * ux cz + b * uy cz) mod n.
Proof.
  intros Hn Hok. unfold cutout_fn.
  pose proof (Z.mod_pos_bound (ux cz) n Hn) as Hx. pose proof (Z.mod_pos_bound (uy cz) n Hn) as Hy.
  unfold linear_ok in Hok. apply (forallb_seqZ _ _ _ Hok), (forallb_seqZ _ _ (ux cz mod n)) in Hy; [|done].
  apply Z.eqb_eq in Hy as ->.
  by rewrite Zplus_mod, !Zmult_mod_idemp_r, <-Zplus_mod.
Qed.

Section CartesianClocking.
Context (l : clocked_layout Cartesian.cartesian_layout).
Context (Hl : proper_dimension (dimension (coordinate_layout l))).

(** The positions of the four neighbours, without regard to the bounds. *)
Definition neighbours (c : ucoord_t) : list ucoord_t :=
  [UCoord 0 (uz c) (uy c - 1) (ux c); UCoord 0 (uz c) (uy c) (ux c + 1);
   UCoord 0 (uz c) (uy c + 1) (ux c); UCoord 0 (uz c) (uy c) (ux c - 1)].

Lemma adjacent_neighbours c a :
  inside (dimension (coordinate_layout l)) c →
  a ∈ adjacent_coordinates (coordinate_layout l) c → a ∈ neighbours c.
Proof using Hl.
  intros Hc (Ha & Hz & Hd)%Cartesian.elem_of_adjacent_inside; [|done..].
  destruct a as [da za ya xa], Ha as [Hda _]. simpl in *. subst.
  unfold neighbours. rewrite !elem_of_cons.
  assert (xa = ux c ∧ ya = uy c - 1 ∨ xa = ux c + 1 ∧ ya = uy c ∨ xa = ux c ∧ ya = uy c + 1
          ∨ xa = ux c - 1 ∧ ya = uy c) as [[-> ->]|[[-> ->]|[[-> ->]|[-> ->]]]] by lia; auto.
Qed.

(** The degrees of a zone are bounded by the periodic check of the cutout. *)
Lemma cutout_degrees t q p n din dout c :
  inside (dimension (coordinate_layout l)) c →
  0 < q → 0 < p → 0 <= din < 2 ^ 8 → 0 <= dout < 2 ^ 8 →
  (∀ cz, get_clock_number l cz = cutout_fn t q p cz) → num_clocks l = n →
  scheme_wf (clocking l) → degrees_ok t q p n din dout = true →
  in_degree l c <= din ∧ out_degree l c <= dout.
Proof using Hl.
  intros Hc Hq Hp Hdin Hdout Hf Hn Hwf Hok.
  unfold degrees_ok in Hok.
  apply (forallb_seqZ _ _ (uy c mod q)) in Hok; [|by apply Z.mod_pos_bound].
  apply (forallb_seqZ _ _ (ux c mod p)) in Hok; [|by apply Z.mod_pos_bound].
  apply andb_true_iff in Hok as [Hin%Z.leb_le Hout%Z.leb_le].
  assert (cutout_fn t q p <$> neighbours c = neighbour_clocks t q p (ux c mod p) (uy c mod q)) as Hnb.
  { unfold neighbours, neighbour_clocks, cutout_fn; simpl.
    by rewrite !Zplus_mod_idemp_l, !Zminus_mod_idemp_l. }
  assert (∀ P : ucoord_t → Prop, ∀ HP : (∀ a, Decision (P a)),
    (length (set_of_list ltb (filter P (adjacent_coordinates_set (coordinate_layout l) c)))
      <= length (filter P (neighbours c)))%nat) as Hlen.
  { intros P HP. apply zones_set_length; [by apply Cartesian.adjacent_NoDup|].
    intros a. by apply adjacent_neighbours. }
  rewrite <-Hnb in Hin, Hout. fold (cutout_fn t q p c) in Hin, Hout.
  unfold in_degree, out_degree, incoming_clocked_zones_set, outgoing_clocked_zones_set. split.
  - pose proof (Hlen (λ ct, is_incoming_clocked l c ct = true) _) as H1.
    assert (∀ a, is_incoming_clocked l c a = true →
                 (cutout_fn t q p a + 1) mod n = cutout_fn t q p c) as HP.
    { intros a. rewrite incoming_outgoing_dual, is_outgoing_clocked_spec, !Hf, Hn by done. tauto. }
    apply (length_filter_image _ (λ a, (a + 1) mod n = cutout_fn t q p c) _ (neighbours c)) in HP.
    rewrite wrap_small; unfold in_width; lia.
  - pose proof (Hlen (λ ct, is_outgoing_clocked l c ct = true) _) as H1.
    assert (∀ a, is_outgoing_clocked l c a = true →
                 (cutout_fn t q p c + 1) mod n = cutout_fn t q p a) as HP.
    { intros a. rewrite is_outgoing_clocked_spec, !Hf, Hn by done. tauto. }
    apply (length_filter_image _ (λ a, (cutout_fn t q p c + 1) mod n = a) _ (neighbours c)) in HP.
    rewrite wrap_small; unfold in_width; lia.
Qed.

(** A scheme whose clock numbers are the residues of a position [f] that changes by at most 1
    between adjacent zones feeds only upwards in [f]. *)
Lemma feeds_increasing (f : ucoord_t → Z) a b :
  scheme_wf (clocking l) → 3 <= num_clocks l →
  (∀ cz, get_clock_number l cz = f cz mod num_clocks l) →
  (∀ c d, Z.abs (ux d - ux c) + Z.abs (uy d - uy c) = 1 → - 1 <= f d - f c <= 1) →
  feeds l a b → f a < f b.
Proof using Hl.
  intros Hwf Hn Hf Hstep [Ha [Hout Hadj]%elem_of_outgoing].
  apply Cartesian.elem_of_adjacent_inside in Hadj as (_ & _ & Hd); [|done..].
  apply is_outgoing_clocked_spec in Hout as [_ Hclk]; [|done]. rewrite !Hf in Hclk.
  apply mod_succ_step in Hclk; [lia|done|by apply Hstep].
Qed.
End CartesianClocking.

(** * Properties *)

(** Feeding information is a duality on every coordinate layout: [cz2] is an incoming clocked
    zone of [cz1] exactly if [cz1] is an outgoing clocked zone of [cz2], for the [std::vector] and
    the [std::set] containers alike; with at least three clocks no zone is both. *)
Theorem incoming_outgoing_duality {L} `{CoordinateLayoutLaws L} (l : clocked_layout L)
    (a b : ucoord_t) :
  representable (coordinate_layout l) → scheme_wf (clocking l) →
  inside (dimension (coordinate_layout l)) a → inside (dimension (coordinate_layout l)) b →
  (b ∈ incoming_clocked_zones l a ↔ a ∈ outgoing_clocked_zones l b) ∧
  (b ∈ incoming_clocked_zones_set l a ↔ a ∈ outgoing_clocked_zones_set l b) ∧
  (3 <= num_clocks l → b ∈ incoming_clocked_zones l a → b ∉ outgoing_clocked_zones l a).
Proof.
  intros Hl Hwf Ha Hb. split_and!.
  - by apply incoming_iff_outgoing.
  - rewrite elem_of_incoming_set, elem_of_outgoing_set by done. by apply incoming_iff_outgoing.
  - intros Hn [Hin _]%elem_of_incoming [Hout _]%elem_of_outgoing.
    rewrite incoming_outgoing_dual in Hin.
    apply is_outgoing_clocked_spec in Hin as [_ Hin]; [|done].
    apply is_outgoing_clocked_spec in Hout as [_ Hout]; [|done].
    pose proof (clock_number_bound (clocking l) a Hwf) as Hbound.
    fold (get_clock_number l a) in Hbound. fold (num_clocks l) in Hbound.
    rewrite <-Hout, Zplus_mod_idemp_l in Hin.
    replace (get_clock_number l a + 1 + 1) with (get_clock_number l a + 2) in Hin by lia.
    destruct (decide (get_clock_number l a + 2 < num_clocks l)).
    + rewrite Z.mod_small in Hin; lia.
    + rewrite <-(Z.mod_add _ (-1)), Z.mod_small in Hin; lia.
Qed.

Lemma incoming_outgoing_duality_witness :
  UCoord 0 0 0 0 ∈ incoming_clocked_zones
    (ClockedLayout (Cartesian.make (UCoord 0 0 3 3)) (twoddwave_clocking 3 FOUR)) (UCoord 0 0 0 1).
Proof.
  apply (incoming_outgoing_duality
    (ClockedLayout (Cartesian.make (UCoord 0 0 3 3)) (twoddwave_clocking 3 FOUR))
    (UCoord 0 0 0 1) (UCoord 0 0 0 0)).
  - by vm_compute.
  - apply (registered_wf 3 None "2DDWAVE"). repeat constructor.
  - vm_compute; repeat split; discriminate.
  - vm_compute; repeat split; discriminate.
  - vm_compute. left.
Defined.

(** No zone of a Cartesian layout clocked by a predefined scheme has more incoming or outgoing
    clocked zones than the scheme declares as its maximum degrees, for layouts of every size. *)
Theorem registered_degrees_bounded (n : string) (s : clocking_scheme) (ar c : ucoord_t) :
  ClockingScheme.get_clocking_scheme Cartesian.max_fanin_size None n = Some s →
  proper_dimension ar → inside ar c →
  let l := ClockedLayout (Cartesian.make ar) s in
  0 <= in_degree l c <= max_in_degree s ∧ 0 <= out_degree l c <= max_out_degree s.
Proof.
  intros Hs%get_clocking_scheme_registered Har Hc l.
  pose proof (registered_wf _ _ _ _ Hs) as Hwf.
  assert (∀ t q p cn, (∀ cz, get_clock_number l cz = cutout_fn t q p cz) → num_clocks l = cn →
    0 < q → 0 < p → 0 <= max_in_degree s < 2 ^ 8 → 0 <= max_out_degree s < 2 ^ 8 →
    degrees_ok t q p cn (max_in_degree s) (max_out_degree s) = true →
    0 <= in_degree l c <= max_in_degree s ∧ 0 <= out_degree l c <= max_out_degree s) as Hgo.
  { intros t q p cn Hf Hn Hq Hp Hi Ho Hok.
    destruct (cutout_degrees l Har t q p cn _ _ c Hc Hq Hp Hi Ho Hf Hn Hwf Hok) as [H1 H2].
    pose proof (wrap_width 8 (Z.of_nat (length (incoming_clocked_zones_set l c)))) as W1.
    pose proof (wrap_width 8 (Z.of_nat (length (outgoing_clocked_zones_set l c)))) as W2.
    unfold in_width in W1, W2. unfold in_degree, out_degree in *. lia. }
  clear Hwf. revert Hs. unfold scheme_lookup. rewrite !elem_of_cons, elem_of_nil.
  intros H. repeat destruct H as [[=_ ->]|H]; [..|done];
    try (eapply Hgo; [done|done|done|done|done|done|by vm_compute]);
    (eapply (Hgo [[0]] 1 1); [|done|done|done|done|done|by vm_compute]); intros cz;
    unfold cutout_fn; rewrite !Z.mod_1_r; done.
Qed.

Lemma registered_degrees_bounded_witness :
  0 <= in_degree (ClockedLayout (Cartesian.make (UCoord 0 1 9 9)) (res_clocking 3)) (UCoord 0 0 5 4)
    <= 3.
Proof.
  apply (registered_degrees_bounded "RES" (res_clocking 3) (UCoord 0 1 9 9) (UCoord 0 0 5 4));
    [reflexivity|by vm_compute|vm_compute; repeat split; discriminate].
Defined.

(** The clock numbers of a predefined linear scheme are a linear form of the position. *)
Lemma linear_scheme_form (n : string) (s : clocking_scheme) :
  ClockingScheme.get_clocking_scheme Cartesian.max_fanin_size None n = Some s →
  is_linear_scheme s = true →
  scheme_wf s ∧ 3 <= ClockingScheme.num_clocks s ∧ ∃ a b, 0 <= a <= 1 ∧ 0 <= b <= 1 ∧
    ∀ cz, clock_number_at s cz = (a * ux cz + b * uy cz) mod ClockingScheme.num_clocks s.
Proof.
  intros Hs%get_clocking_scheme_registered Hlin. pose proof (registered_wf _ _ _ _ Hs) as Hwf.
  split; [done|].
  assert (∀ t cn a b, (∀ cz, clock_number_at s cz = cutout_fn t cn cn cz) →
    ClockingScheme.num_clocks s = cn → 3 <= cn → 0 <= a <= 1 → 0 <= b <= 1 → linear_ok t cn a b = true →
    3 <= ClockingScheme.num_clocks s ∧ ∃ a b, 0 <= a <= 1 ∧ 0 <= b <= 1 ∧
      ∀ cz, clock_number_at s cz = (a * ux cz + b * uy cz) mod ClockingScheme.num_clocks s) as Hgo.
  { intros t cn a b Hf -> Hcn Ha Hb Hok. split; [done|]. exists a, b. split_and!; [lia..|].
    intros cz. rewrite Hf. apply linear_cutout; [lia|done]. }
  clear Hwf. revert Hs Hlin. unfold scheme_lookup. rewrite !elem_of_cons, elem_of_nil.
  intros H. repeat destruct H as [[=_ ->]|H]; [..|done];
    intros Hlin; try discriminate Hlin;
    first [ eapply (Hgo _ _ 1 0); [done|done|done|done|done|by vm_compute]
          | eapply (Hgo _ _ 0 1); [done|done|done|done|done|by vm_compute]
          | eapply (Hgo _ _ 1 1); [done|done|done|done|done|by vm_compute] ].
Qed.

(** C36: The predefined schemes that [is_linear_scheme] lists are free of cycles, as its
    documentation claims: on a Cartesian layout of any size, no sequence of steps from a zone to
    one of its outgoing clocked zones leads back to the start. *)
Theorem linear_schemes_acyclic (n : string) (s : clocking_scheme) (ar c : ucoord_t) :
  ClockingScheme.get_clocking_scheme Cartesian.max_fanin_size None n = Some s →
  is_linear_scheme s = true → proper_dimension ar →
  ¬ tc (feeds (ClockedLayout (Cartesian.make ar) s)) c c.
Proof.
  intros Hs Hlin Har Hcyc. destruct (linear_scheme_form n s Hs Hlin) as (Hwf & Hn & a & b & Ha & Hb & Hf).
  apply (tc_increasing _ (λ cz, a * ux cz + b * uy cz)) in Hcyc; [lia|]. intros p q.
  apply (feeds_increasing (ClockedLayout (Cartesian.make ar) s) Har
           (λ cz, a * ux cz + b * uy cz)); [done|done|exact Hf|].
  intros p' q' Hd. assert (a = 0 ∨ a = 1) as [-> | ->] by lia;
    assert (b = 0 ∨ b = 1) as [-> | ->] by lia; lia.
Qed.

Lemma linear_schemes_acyclic_witness :
  ¬ tc (feeds (ClockedLayout (Cartesian.make (UCoord 0 0 9 9)) (twoddwave_clocking 3 THREE)))
      (UCoord 0 0 0 0) (UCoord 0 0 0 0).
Proof.
  apply (linear_schemes_acyclic "2ddwave3" (twoddwave_clocking 3 THREE)); [reflexivity|reflexivity|].
  by vm_compute.
Defined.
