(* ===== verification/SynchronizationElementLayout.v ===== *)
(** * Synchronization elements (include/fiction/layouts/synchronization_element_layout.hpp)

    The class template [synchronization_element_layout]: a clocked layout some of whose zones hold
    their data for additional clock cycles and therefore exchange data with all adjacent zones. The
    theorems describe the storage by the history of assignments and the data flow by that of the
    clocked layout below. *)

From stdpp Require Import sorting.
From S2P Require Import Prelude.
From S2P Require Import Coordinates.
From S2P Require Import CoordinateLayout.
From S2P Require Import CartesianLayout.
From S2P Require Import ClockingScheme.
From S2P Require Import ClockedLayout.
#[local] Open Scope Z_scope.
Import Offset.

Module SyncElement.

(** The order in which [std::merge] takes the elements of its ranges. *)
Definition not_after (a b : ucoord_t) : Prop := ltb b a = false.
#[global] Instance not_after_dec a b : Decision (not_after a b).
Proof. unfold not_after. apply _. Defined.

Section SyncElement.
Context {L : Type} `{HL : CoordinateLayout L}.

(** The base class and the storage. Elements have type [uint8_t]. *)
Record synchronization_element_layout := SyncLayout {
  base : Clocked.clocked_layout L;
  se_map : gmap Z Z;
}.

(** The constructors: after the construction [cl] of the base class, and from the storage of another
    layout, where [cl] is a default-constructed base class. *)
Definition make (cl : Clocked.clocked_layout L) : synchronization_element_layout := SyncLayout cl ∅.
Definition make_from_storage (cl : Clocked.clocked_layout L) (s : gmap Z Z) :
    synchronization_element_layout :=
  SyncLayout cl s.

(** ** Clocking *)

Definition assign_synchronization_element (l : synchronization_element_layout) (cz : ucoord_t)
    (se : Z) : synchronization_element_layout :=
  SyncLayout (base l)
    (if se =? 0 then delete (to_uint64 cz) (se_map l) else <[to_uint64 cz := se]> (se_map l)).

Definition is_synchronization_element (l : synchronization_element_layout) (cz : ucoord_t) : bool :=
  match se_map l !! to_uint64 cz with Some se => negb (se =? 0) | None => false end.

Definition get_synchronization_element (l : synchronization_element_layout) (cz : ucoord_t) : Z :=
  match se_map l !! to_uint64 cz with Some se => se | None => 0 end.

Definition is_incoming_clocked (l : synchronization_element_layout) (cz1 cz2 : ucoord_t) : bool :=
  if eqb cz1 cz2 then false
  else Clocked.is_incoming_clocked (base l) cz1 cz2 || is_synchronization_element l cz1 ||
       is_synchronization_element l cz2.

Definition is_outgoing_clocked (l : synchronization_element_layout) (cz1 cz2 : ucoord_t) : bool :=
  if eqb cz1 cz2 then false
  else Clocked.is_outgoing_clocked (base l) cz1 cz2 || is_synchronization_element l cz1 ||
       is_synchronization_element l cz2.

(** ** Iteration *)

(** [incoming_clocked_zones] and [outgoing_clocked_zones] for [std::vector]. *)
Definition incoming_clocked_zones (l : synchronization_element_layout) (cz : ucoord_t) :
    list ucoord_t :=
  filter (λ ct, is_incoming_clocked l cz ct = true)
    (adjacent_coordinates (Clocked.coordinate_layout (base l)) cz).
Definition outgoing_clocked_zones (l : synchronization_element_layout) (cz : ucoord_t) :
    list ucoord_t :=
  filter (λ ct, is_outgoing_clocked l cz ct = true)
    (adjacent_coordinates (Clocked.coordinate_layout (base l)) cz).

(** The same for [std::set]; the functions [foreach_incoming_clocked_zone] and
    [foreach_outgoing_clocked_zone] visit these. *)
Definition incoming_clocked_zones_set (l : synchronization_element_layout) (cz : ucoord_t) :
    list ucoord_t :=
  set_of_list ltb (filter (λ ct, is_incoming_clocked l cz ct = true)
    (adjacent_coordinates_set (Clocked.coordinate_layout (base l)) cz)).
Definition outgoing_clocked_zones_set (l : synchronization_element_layout) (cz : ucoord_t) :
    list ucoord_t :=
  set_of_list ltb (filter (λ ct, is_outgoing_clocked l cz ct = true)
    (adjacent_coordinates_set (Clocked.coordinate_layout (base l)) cz)).

(** ** Structural properties *)

Definition num_se (l : synchronization_element_layout) : Z := wrap 32 (Z.of_nat (size (se_map l))).

(** The degrees have type [uint8_t]. *)
Definition in_degree (l : synchronization_element_layout) (cz : ucoord_t) : Z :=
  wrap 8 (Z.of_nat (length (incoming_clocked_zones_set l cz))).
Definition out_degree (l : synchronization_element_layout) (cz : ucoord_t) : Z :=
  wrap 8 (Z.of_nat (length (outgoing_clocked_zones_set l cz))).

(** The incoming and the outgoing zones, merged by [std::merge] into a [std::set]. *)
Definition merged_clock_zones (l : synchronization_element_layout) (cz : ucoord_t) : list ucoord_t :=
  set_of_list ltb
    (list_merge not_after (incoming_clocked_zones_set l cz)
       (outgoing_clocked_zones_set l cz)).
Definition degree (l : synchronization_element_layout) (cz : ucoord_t) : Z :=
  wrap 8 (Z.of_nat (length (merged_clock_zones l cz))).
End SyncElement.
Arguments synchronization_element_layout : clear implicits.
Arguments SyncLayout {L} _ _.
End SyncElement.
Import SyncElement.

(** ** Lemmas *)

Section Zones.
Context {L : Type} `{Laws : CoordinateLayoutLaws L}.
Implicit Types (l : synchronization_element_layout L) (a b : ucoord_t).

#[local] Abbreviation lyt l := (Clocked.coordinate_layout (base l)).

Lemma se_dual l a b : is_incoming_clocked l a b = is_outgoing_clocked l b a.
Proof.
  unfold is_incoming_clocked, is_outgoing_clocked.
  rewrite Clocked.incoming_outgoing_dual, !eqb_spec.
  repeat case_bool_decide; simplify_eq; try done. rewrite <-!orb_assoc. f_equal. apply orb_comm.
Qed.

Lemma elem_of_se_outgoing l a b :
  b ∈ outgoing_clocked_zones l a ↔
  b ∈ adjacent_coordinates (lyt l) a ∧ is_outgoing_clocked l a b = true.
Proof. unfold outgoing_clocked_zones. rewrite list_elem_of_filter. tauto. Qed.

Lemma elem_of_se_incoming l a b :
  b ∈ incoming_clocked_zones l a ↔
  b ∈ adjacent_coordinates (lyt l) a ∧ is_incoming_clocked l a b = true.
Proof. unfold incoming_clocked_zones. rewrite list_elem_of_filter. tauto. Qed.

Lemma elem_of_se_outgoing_set l a b :
  representable (lyt l) → inside (dimension (lyt l)) a →
  b ∈ outgoing_clocked_zones_set l a ↔ b ∈ outgoing_clocked_zones l a.
Proof.
  intros Hl Ha. unfold outgoing_clocked_zones_set.
  rewrite Clocked.elem_of_zones_set, elem_of_se_outgoing by done. tauto.
Qed.

Lemma elem_of_se_incoming_set l a b :
  representable (lyt l) → inside (dimension (lyt l)) a →
  b ∈ incoming_clocked_zones_set l a ↔ b ∈ incoming_clocked_zones l a.
Proof.
  intros Hl Ha. unfold incoming_clocked_zones_set.
  rewrite Clocked.elem_of_zones_set, elem_of_se_incoming by done. tauto.
Qed.

Lemma se_incoming_inside l a b :
  representable (lyt l) → inside (dimension (lyt l)) a →
  b ∈ incoming_clocked_zones l a ∨ b ∈ outgoing_clocked_zones l a → inside (dimension (lyt l)) b.
Proof.
  intros Hl Ha [[Hb _]%elem_of_se_incoming|[Hb _]%elem_of_se_outgoing]; by eapply adjacent_inside.
Qed.

Lemma elem_of_merged l a b :
  representable (lyt l) → inside (dimension (lyt l)) a →
  b ∈ merged_clock_zones l a ↔ b ∈ incoming_clocked_zones l a ∨ b ∈ outgoing_clocked_zones l a.
Proof.
  intros Hl Ha. unfold merged_clock_zones.
  assert (∀ c, c ∈ list_merge not_after (incoming_clocked_zones_set l a)
                     (outgoing_clocked_zones_set l a) ↔
               c ∈ incoming_clocked_zones l a ∨ c ∈ outgoing_clocked_zones l a) as Hm.
  { intros c. rewrite merge_Permutation, elem_of_app.
    by rewrite elem_of_se_incoming_set, elem_of_se_outgoing_set by done. }
  rewrite (elem_of_set_of_list _ (inside (dimension (lyt l)))), Hm; [done| |].
  - intros ??. apply Clocked.ltb_total_inside. by apply representable_proper.
  - apply Forall_forall. intros c Hc%Hm. by eapply se_incoming_inside.
Qed.

(** The number of distinct elements of a [std::set] with given elements. *)
Lemma set_size (P : ucoord_t → Prop) (cs zones : list ucoord_t) :
  (∀ c, c ∈ set_of_list ltb cs ↔ P c) → NoDup zones → (∀ c, c ∈ zones ↔ P c) →
  length (set_of_list ltb cs) = length zones.
Proof.
  intros Hcs Hnd Hz. apply Permutation_length, NoDup_Permutation; [|done|].
  - apply set_of_list_NoDup; [apply ltb_irrefl|apply ltb_trans].
  - intros c. by rewrite Hcs, Hz.
Qed.

(** The degrees count the zones of the relations, once each. *)
Lemma degrees_count l a incoming outgoing union :
  representable (lyt l) → inside (dimension (lyt l)) a →
  NoDup incoming → (∀ b, b ∈ incoming ↔ b ∈ incoming_clocked_zones_set l a) →
  NoDup outgoing → (∀ b, b ∈ outgoing ↔ b ∈ outgoing_clocked_zones_set l a) →
  NoDup union → (∀ b, b ∈ union ↔ b ∈ incoming ∨ b ∈ outgoing) →
  in_degree l a = wrap 8 (Z.of_nat (length incoming)) ∧
  out_degree l a = wrap 8 (Z.of_nat (length outgoing)) ∧
  degree l a = wrap 8 (Z.of_nat (length union)).
Proof.
  intros Hl Ha Hni Hi Hno Ho Hnu Hu. unfold in_degree, out_degree, degree. split_and!; do 2 f_equal.
  - by apply (set_size (λ b, b ∈ incoming_clocked_zones_set l a)).
  - by apply (set_size (λ b, b ∈ outgoing_clocked_zones_set l a)).
  - apply (set_size (λ b, b ∈ merged_clock_zones l a)); [done|done|]. intros b.
    by rewrite Hu, Hi, Ho, elem_of_merged, elem_of_se_incoming_set, elem_of_se_outgoing_set.
Qed.
End Zones.

(** The element a history of assignments, the latest first, gives to a zone. *)
Fixpoint last_element (cz : ucoord_t) (h : list (ucoord_t * Z)) : Z :=
  match h with
  | [] => 0
  | (c, se) :: h' => if decide (c = cz) then se else last_element cz h'
  end.

Definition assign_all {L} (l : synchronization_element_layout L) (h : list (ucoord_t * Z)) :
    synchronization_element_layout L :=
  foldr (λ '(c, se) l, assign_synchronization_element l c se) l h.

Lemma assign_all_lookup {L} (cl : Clocked.clocked_layout L) h cz :
  wf cz → Forall (λ p, wf p.1) h →
  se_map (assign_all (make cl) h) !! to_uint64 cz =
    if last_element cz h =? 0 then None else Some (last_element cz h).
Proof.
  intros Hcz. induction 1 as [|[c se] h Hc _ IH]; [done|]. simpl in *.
  destruct (decide (c = cz)) as [->|Hne]; destruct (se =? 0); simpl;
    rewrite ?lookup_delete_eq, ?lookup_insert_eq; try done;
    rewrite ?lookup_delete_ne, ?lookup_insert_ne; try done;
    intros ?%to_uint64_inj; done.
Qed.

Lemma assign_all_keys {L} (cl : Clocked.clocked_layout L) h k :
  Forall (λ p, wf p.1) h →
  k ∈ dom (se_map (assign_all (make cl) h)) → ∃ cz, wf cz ∧ to_uint64 cz = k.
Proof.
  induction 1 as [|[c se] h Hc _ IH]; simpl; [set_solver|].
  destruct (se =? 0); [rewrite dom_delete|rewrite dom_insert]; [set_solver|].
  rewrite elem_of_union, elem_of_singleton. intros [->|]; [by exists c|by apply IH].
Qed.

(** * Properties *)

(** Synchronization elements after any history of assignments: every zone has the element assigned
    last, 0 and no entry otherwise, and [num_se] is the number of zones with an element. *)
Theorem synchronization_element_history {L} (cl : Clocked.clocked_layout L)
    (h : list (ucoord_t * Z)) :
  Forall (λ p, wf p.1) h → Z.of_nat (length h) < 2 ^ 32 →
  let l := assign_all (make cl) h in
  (∀ cz, wf cz → get_synchronization_element l cz = last_element cz h ∧
                 (is_synchronization_element l cz = true ↔ last_element cz h ≠ 0)) ∧
  ∃ zones, NoDup zones ∧ num_se l = Z.of_nat (length zones) ∧
           ∀ cz, cz ∈ zones ↔ wf cz ∧ last_element cz h ≠ 0.
Proof.
  intros Hh Hlen l. pose proof (λ cz Hcz, assign_all_lookup cl h cz Hcz Hh) as Hlook.
  fold l in Hlook. split.
  - intros cz Hcz. unfold get_synchronization_element, is_synchronization_element.
    rewrite (Hlook cz Hcz). destruct (last_element cz h =? 0) eqn:E; [lia|]. rewrite E. lia.
  - assert (∀ cz, cz ∈ of_uint64 <$> elements (dom (se_map l)) ↔ wf cz ∧ last_element cz h ≠ 0) as Hz.
    { intros cz. rewrite list_elem_of_fmap. setoid_rewrite elem_of_elements. split.
      - intros (k & -> & Hk). destruct (assign_all_keys cl h k Hh Hk) as (c & Hc & <-).
        rewrite of_to_uint64 by done. split; [done|]. intros E. apply elem_of_dom in Hk as [v Hv].
        rewrite (Hlook c Hc), E in Hv. done.
      - intros [Hcz Hne]. exists (to_uint64 cz). rewrite of_to_uint64 by done. split; [done|].
        apply elem_of_dom. rewrite (Hlook cz Hcz). by rewrite (proj2 (Z.eqb_neq _ _) Hne). }
    exists (of_uint64 <$> elements (dom (se_map l))). split_and!; [| |done].
    + apply NoDup_fmap_2_strong; [|apply NoDup_elements]. intros k1 k2.
      rewrite !elem_of_elements. intros (c1 & Hc1 & <-)%assign_all_keys (c2 & Hc2 & <-)%assign_all_keys; [|done..].
      rewrite !of_to_uint64 by done. by intros ->.
    + rewrite length_fmap.
      assert (length (elements (dom (se_map l))) = size (se_map l)) as -> by apply (size_dom (D := gset Z)).
      unfold num_se.
      apply wrap_small. split; [lia|].
      assert (size (se_map l) <= length h)%nat; [|lia]. clear. subst l.
      induction h as [|[c se] h IH]; simpl; [by rewrite map_size_empty|].
      destruct (se =? 0); simpl; [rewrite map_size_delete|rewrite map_size_insert]; case_match; simpl; lia.
Qed.

Lemma synchronization_element_history_witness :
  let l := assign_all (make (Clocked.ClockedLayout (Cartesian.make (UCoord 0 1 3 3))
             (twoddwave_clocking 3 FOUR))) [(UCoord 0 0 1 1, 0); (UCoord 0 0 2 1, 3); (UCoord 0 0 1 1, 2)] in
  get_synchronization_element l (UCoord 0 0 2 1) = 3.
Proof.
  apply (synchronization_element_history (Clocked.ClockedLayout (Cartesian.make (UCoord 0 1 3 3))
             (twoddwave_clocking 3 FOUR)) [(UCoord 0 0 1 1, 0); (UCoord 0 0 2 1, 3); (UCoord 0 0 1 1, 2)]).
  - repeat constructor; unfold wf, in_width; simpl; lia.
  - by vm_compute.
  - unfold wf, in_width; simpl; lia.
Defined.

(** C37: Data flow with synchronization elements, for every coordinate layout: a zone is incoming to
    [a] exactly if it is in the clocked layout below, or is next to [a] and one of the two zones is a
    synchronization element, and likewise outgoing; the two relations are converse; and [in_degree],
    [out_degree] and [degree] are the numbers of zones that are incoming, that are outgoing, and that
    are one of the two, each zone counted once, as 8-bit integers. *)
Theorem synchronization_data_flow {L} `{CoordinateLayoutLaws L}
    (l : synchronization_element_layout L) (a : ucoord_t) :
  let lyt := Clocked.coordinate_layout (base l) in
  representable lyt → inside (dimension lyt) a →
  let element b := is_synchronization_element l a = true ∨ is_synchronization_element l b = true in
  (∀ b, inside (dimension lyt) b →
    (b ∈ incoming_clocked_zones_set l a ↔
       b ∈ Clocked.incoming_clocked_zones (base l) a ∨ b ∈ adjacent_coordinates lyt a ∧ element b) ∧
    (b ∈ outgoing_clocked_zones_set l a ↔
       b ∈ Clocked.outgoing_clocked_zones (base l) a ∨ b ∈ adjacent_coordinates lyt a ∧ element b) ∧
    (b ∈ incoming_clocked_zones_set l a ↔ a ∈ outgoing_clocked_zones_set l b)) ∧
  (∀ incoming outgoing union,
    NoDup incoming → (∀ b, b ∈ incoming ↔ b ∈ incoming_clocked_zones_set l a) →
    NoDup outgoing → (∀ b, b ∈ outgoing ↔ b ∈ outgoing_clocked_zones_set l a) →
    NoDup union → (∀ b, b ∈ union ↔ b ∈ incoming ∨ b ∈ outgoing) →
    in_degree l a = wrap 8 (Z.of_nat (length incoming)) ∧
    out_degree l a = wrap 8 (Z.of_nat (length outgoing)) ∧
    degree l a = wrap 8 (Z.of_nat (length union))).
Proof.
  intros lyt Hl Ha element. split; [|by intros; apply degrees_count]. intros b Hb.
  rewrite !elem_of_se_incoming_set, !elem_of_se_outgoing_set by done.
  assert (b ∈ adjacent_coordinates lyt a → eqb a b = false) as Hne.
  { intros (_ & _ & Hne)%adjacent_inside; [|done..]. rewrite eqb_spec. by apply bool_decide_eq_false_2. }
  split_and!.
  - rewrite elem_of_se_incoming, Clocked.elem_of_incoming. unfold is_incoming_clocked, element.
    split; intros Hx; [|split; [tauto|]]; rewrite Hne in * by tauto;
      rewrite !orb_true_iff in *; tauto.
  - rewrite elem_of_se_outgoing, Clocked.elem_of_outgoing. unfold is_outgoing_clocked, element.
    split; intros Hx; [|split; [tauto|]]; rewrite Hne in * by tauto;
      rewrite !orb_true_iff in *; tauto.
  - rewrite elem_of_se_incoming, elem_of_se_outgoing, se_dual.
    split; intros [? ?]; (split; [by apply adjacent_sym|done]).
Qed.

(** A synchronization element on a tile of the 2DDWave scheme: all its four neighbors are incoming and
    outgoing, and its degree is 4. *)
Definition synchronized : synchronization_element_layout Cartesian.cartesian_layout :=
  assign_synchronization_element (make (Clocked.ClockedLayout
    (Cartesian.make (UCoord 0 1 3 3)) (twoddwave_clocking 3 FOUR))) (UCoord 0 0 1 1) 2.

Lemma synchronization_data_flow_witness :
  (UCoord 0 0 1 2 ∈ incoming_clocked_zones_set synchronized (UCoord 0 0 1 1) ↔
   UCoord 0 0 1 1 ∈ outgoing_clocked_zones_set synchronized (UCoord 0 0 1 2)) ∧
  degree synchronized (UCoord 0 0 1 1) = 4.
Proof.
  destruct (synchronization_data_flow synchronized (UCoord 0 0 1 1)) as [Hzones Hdegree].
  - by vm_compute.
  - vm_compute; repeat split; discriminate.
  - split.
    + apply (Hzones (UCoord 0 0 1 2)). vm_compute; repeat split; discriminate.
    + set (zones := [UCoord 0 0 0 1; UCoord 0 0 1 0; UCoord 0 0 1 2; UCoord 0 0 2 1]).
      apply (Hdegree zones zones zones).
      all: first [by apply (bool_decide_eq_true_1 (NoDup zones)); vm_compute
                 |by intros b; tauto
                 |by intros b; assert (incoming_clocked_zones_set synchronized (UCoord 0 0 1 1) = zones)
                    as -> by by vm_compute
                 |by intros b; assert (outgoing_clocked_zones_set synchronized (UCoord 0 0 1 1) = zones)
                    as -> by by vm_compute].
Defined.
