(* ===== verification/GateLevelLayout.v ===== *)
(** * Gate-level layouts (include/fiction/layouts/gate_level_layout.hpp)

    The class template [gate_level_layout]: gates, wires and I/O pins as nodes placed on the tiles
    of a clocked layout. This file holds the data, every operation, and the data-flow queries.
    [GateLevelInvariant.v] relates them to an abstract specification.

    Operations that can run into undefined behaviour (an index beyond the end of a vector) return
    [option], with [None] for the undefined case. mockturtle's storage, its truth-table cache and
    kitty's truth tables are not part of the repository: they are the fields of class
    [Mockturtle]. *)

From S2P Require Import Prelude.
From S2P Require Import Coordinates.
From S2P Require Import CoordinateLayout.
From S2P Require Import CartesianLayout.
From S2P Require Import ClockingScheme.
From S2P Require Import ClockedLayout.
#[local] Open Scope Z_scope.
Import Offset.
Import Clocked.

Module GateLevel.

(** ** Data *)

(** The members of [gate_level_layout_storage_node]: the children are signals; [fanout_word] is
    [data[0].h1], [node_value] is [data[0].h2], [literal] is [data[1].h1] and [visited_flag] is
    [data[1].h2]. *)
Record node_data := NodeData {
  children : list Z;
  fanout_word : Z;
  node_value : Z;
  literal : Z;
  visited_flag : Z;
}.

#[global] Instance node_data_eq_dec : EqDecision node_data.
Proof. solve_decision. Defined.

Definition set_children (f : list Z → list Z) (d : node_data) : node_data :=
  NodeData (f (children d)) (fanout_word d) (node_value d) (literal d) (visited_flag d).
Definition set_fanout_word (f : Z → Z) (d : node_data) : node_data :=
  NodeData (children d) (f (fanout_word d)) (node_value d) (literal d) (visited_flag d).
Definition set_node_value (f : Z → Z) (d : node_data) : node_data :=
  NodeData (children d) (fanout_word d) (f (node_value d)) (literal d) (visited_flag d).
Definition set_literal (v : Z) (d : node_data) : node_data :=
  NodeData (children d) (fanout_word d) (node_value d) v (visited_flag d).
Definition set_visited_flag (v : Z) (d : node_data) : node_data :=
  NodeData (children d) (fanout_word d) (node_value d) (literal d) v.

(** What the layout uses of mockturtle and kitty: a value-initialized node, the nodes of a new
    [mockturtle::storage], a new [register_t], the truth-table cache with its [insert] and
    [operator[]], and the constructors, the zero test and the bit access of truth tables. *)
Class Mockturtle := {
  empty_node : node_data;
  initial_nodes : list node_data;
  register_t : Type;
  new_register : register_t;
  truth_table : Type;
  truth_table_cache : Type;
  empty_cache : truth_table_cache;
  cache_insert : truth_table_cache → truth_table → Z * truth_table_cache;
  cache_at : truth_table_cache → Z → truth_table;
  zero_truth_table : Z → truth_table;
  truth_table_of_word : Z → Z → truth_table;
  is_const0 : truth_table → bool;
}.

(** The documented behaviour the theorems rely on: new nodes are zeroed without children, a new
    storage holds the node of constant 0, and the cache returns what was inserted. *)
Class MockturtleLaws `{Mockturtle} := {
  empty_node_zero : empty_node = NodeData [] 0 0 0 0;
  initial_nodes_one : initial_nodes = [empty_node];
  cache_at_insert c f : cache_at (cache_insert c f).2 (cache_insert c f).1 = f;
}.

Section GateLevelLayout.
Context {L : Type} `{HL : CoordinateLayout L} `{MT : Mockturtle}.

(** The tiles reserved for constants. *)
Definition const0 : Z := 0x8000000000000000.
Definition const1 : Z := 0xc000000000000000.

(** [gate_level_layout_storage]: mockturtle's node, input and output vectors together with the
    members of [gate_level_layout_storage_data]. *)
Record storage := Storage {
  nodes : list node_data;
  inputs : list Z;
  outputs : list Z;
  fn_cache : truth_table_cache;
  tile_node_map : gmap Z Z;
  node_tile_map : gmap Z Z;
  data_num_gates : Z;
  data_num_wires : Z;
  trav_id : Z;
  layout_name : string;
  node_names : gmap Z string;
}.

(** [sequential_information], a member of the layout object and not of its shared storage. *)
Record sequential_information := SequentialInformation {
  inf_num_pis : Z;
  inf_num_pos : Z;
  registers : list register_t;
}.

Record gate_level_layout := GateLevelLayout {
  clocked : clocked_layout L;
  strg : storage;
  sequential_inf : sequential_information;
}.

(** Assignments to the members of the storage. *)
Definition set_nodes (v : list node_data) (s : storage) : storage :=
  Storage v (inputs s) (outputs s) (fn_cache s) (tile_node_map s) (node_tile_map s)
    (data_num_gates s) (data_num_wires s) (trav_id s) (layout_name s) (node_names s).
Definition set_inputs (v : list Z) (s : storage) : storage :=
  Storage (nodes s) v (outputs s) (fn_cache s) (tile_node_map s) (node_tile_map s)
    (data_num_gates s) (data_num_wires s) (trav_id s) (layout_name s) (node_names s).
Definition set_outputs (v : list Z) (s : storage) : storage :=
  Storage (nodes s) (inputs s) v (fn_cache s) (tile_node_map s) (node_tile_map s)
    (data_num_gates s) (data_num_wires s) (trav_id s) (layout_name s) (node_names s).
Definition set_fn_cache (v : truth_table_cache) (s : storage) : storage :=
  Storage (nodes s) (inputs s) (outputs s) v (tile_node_map s) (node_tile_map s)
    (data_num_gates s) (data_num_wires s) (trav_id s) (layout_name s) (node_names s).
Definition set_maps (tn nt : gmap Z Z) (s : storage) : storage :=
  Storage (nodes s) (inputs s) (outputs s) (fn_cache s) tn nt
    (data_num_gates s) (data_num_wires s) (trav_id s) (layout_name s) (node_names s).
Definition set_counters (g w : Z) (s : storage) : storage :=
  Storage (nodes s) (inputs s) (outputs s) (fn_cache s) (tile_node_map s) (node_tile_map s)
    g w (trav_id s) (layout_name s) (node_names s).
Definition set_trav_id (v : Z) (s : storage) : storage :=
  Storage (nodes s) (inputs s) (outputs s) (fn_cache s) (tile_node_map s) (node_tile_map s)
    (data_num_gates s) (data_num_wires s) v (layout_name s) (node_names s).
Definition set_layout_name_of (v : string) (s : storage) : storage :=
  Storage (nodes s) (inputs s) (outputs s) (fn_cache s) (tile_node_map s) (node_tile_map s)
    (data_num_gates s) (data_num_wires s) (trav_id s) v (node_names s).
Definition set_node_names (v : gmap Z string) (s : storage) : storage :=
  Storage (nodes s) (inputs s) (outputs s) (fn_cache s) (tile_node_map s) (node_tile_map s)
    (data_num_gates s) (data_num_wires s) (trav_id s) (layout_name s) v.

Definition set_strg (s : storage) (l : gate_level_layout) : gate_level_layout :=
  GateLevelLayout (clocked l) s (sequential_inf l).

(** [strg->nodes[n] = f(strg->nodes[n])]. *)
Definition update_node (s : storage) (n : Z) (f : node_data → node_data) : option storage :=
  v ← vec_update (nodes s) n f; Some (set_nodes v s).

(** ** Construction *)

(** [initialize_truth_table_cache]: the node of constant 1, and the truth tables of the constants,
    NOT, AND, OR, XOR and MAJ. *)
Definition initialize_truth_table_cache (s : storage) : option storage :=
  let s := set_nodes (nodes s ++ [empty_node]) s in
  let s := set_fn_cache (cache_insert (fn_cache s) (zero_truth_table 0)).2 s in
  s ← update_node s 0 (set_literal 0);
  s ← update_node s 1 (set_literal 1);
  let create_and_cache := λ (s : storage) '(literal, n),
    set_fn_cache (cache_insert (fn_cache s) (truth_table_of_word literal n)).2 s in
  Some (foldl create_and_cache s [(0x1, 1); (0x8, 2); (0xe, 2); (0x6, 2); (0xe8, 3)]).

(** A default-initialized storage. *)
Definition new_storage : storage :=
  Storage initial_nodes [] [] empty_cache
    (<[const0 := 0]> (<[const1 := 1]> ∅)) (<[0 := const0]> (<[1 := const1]> ∅))
    0 0 0 "" ∅.

Definition new_sequential_information : sequential_information := SequentialInformation 0 0 [].

(** The constructors from an aspect ratio, without and with a clocking scheme, after the
    construction [cl] of the base class. *)
Definition make (cl : clocked_layout L) (name : string) : option gate_level_layout :=
  s ← initialize_truth_table_cache new_storage;
  Some (GateLevelLayout cl (set_layout_name_of name s) new_sequential_information).

(** The constructor from the storage of another layout: it shares the storage, but neither the
    base class nor the sequential information. [cl] is a default-constructed base class. *)
Definition make_from_storage (cl : clocked_layout L) (s : storage) : gate_level_layout :=
  GateLevelLayout cl s new_sequential_information.

(** ** Nodes, tiles and signals *)

(** A signal is the packed representation of a tile. *)
Definition get_node (s : storage) (sig : Z) : Z := default 0 (tile_node_map s !! sig).

Definition get_node_at (s : storage) (t : ucoord_t) : Z := get_node s (to_uint64 t).

Definition get_tile (s : storage) (n : Z) : ucoord_t :=
  match node_tile_map s !! n with
  | Some t => of_uint64 t
  | None => ucoord_default
  end.

Definition make_signal (s : storage) (n : Z) : Z := to_uint64 (get_tile s n).

Definition get_constant (value : bool) : Z := if value then const1 else const0.

Definition is_constant (n : Z) : bool := n <=? 1.

Definition constant_value (n : Z) : bool := n =? 1.

Definition is_complemented (sig : Z) : bool := false.

Definition node_to_index (n : Z) : Z := n.

Definition index_to_node (index : Z) : Z := index.

Definition size (s : storage) : Z := wrap 32 (Z.of_nat (length (nodes s))).

(** The most significant bit of the fanout word. *)
Definition is_dead_node (s : storage) (n : Z) : option bool :=
  d ← vec_at (nodes s) n; Some (Z.testbit (fanout_word d) 31).

Definition has_literal (s : storage) (n k : Z) : option bool :=
  d ← vec_at (nodes s) n; Some (literal d =? k).

Definition is_buf (s : storage) (n : Z) : option bool := has_literal s n 2.
Definition is_wire (s : storage) (n : Z) : option bool := is_buf s n.
Definition is_inv (s : storage) (n : Z) : option bool := has_literal s n 3.
Definition is_and (s : storage) (n : Z) : option bool := has_literal s n 4.
Definition is_nand (s : storage) (n : Z) : option bool := has_literal s n 5.
Definition is_or (s : storage) (n : Z) : option bool := has_literal s n 6.
Definition is_nor (s : storage) (n : Z) : option bool := has_literal s n 7.
Definition is_xor (s : storage) (n : Z) : option bool := has_literal s n 8.
Definition is_xnor (s : storage) (n : Z) : option bool := has_literal s n 9.
Definition is_maj (s : storage) (n : Z) : option bool := has_literal s n 10.

Definition is_function (n : Z) : bool := 1 <? n.

Definition is_empty (s : storage) : bool := wrap 32 (data_num_gates s + data_num_wires s) =? 0.

Definition is_empty_tile (s : storage) (t : ucoord_t) : bool := get_node_at s t =? 0.

Definition node_function (s : storage) (n : Z) : option truth_table :=
  d ← vec_at (nodes s) n; Some (cache_at (fn_cache s) (literal d)).

(** ** Placement *)

Definition kill_node (s : storage) (n : Z) : option storage :=
  if is_constant n then Some s
  else update_node s n (set_fanout_word (λ w, Z.lor w 0x80000000)).

(** [&= ~0x80000000] on 32 bits. *)
Definition revive_node (s : storage) (n : Z) : option storage :=
  if is_constant n then Some s
  else update_node s n (set_fanout_word (λ w, Z.land w 0x7fffffff)).

Definition clear_tile (s : storage) (t : ucoord_t) : option storage :=
  match tile_node_map s !! to_uint64 t with
  | None => Some s
  | Some n =>
      s ← (if is_dead t then Some s
           else w ← is_wire s n;
                Some (if (w : bool)
                      then set_counters (data_num_gates s) (wrap 32 (data_num_wires s - 1)) s
                      else set_counters (wrap 32 (data_num_gates s - 1)) (data_num_wires s) s));
      s ← kill_node s n;
      Some (set_maps (delete (to_uint64 t) (tile_node_map s)) (delete n (node_tile_map s)) s)
  end.

Definition assign_node (s : storage) (t : ucoord_t) (n : Z) : option storage :=
  if is_dead t then Some s
  else
    s ← clear_tile s t;
    let s := set_maps (<[to_uint64 t := n]> (tile_node_map s))
                      (<[n := to_uint64 t]> (node_tile_map s)) s in
    w ← is_wire s n;
    Some (if (w : bool) then set_counters (data_num_gates s) (wrap 32 (data_num_wires s + 1)) s
          else set_counters (wrap 32 (data_num_gates s + 1)) (data_num_wires s) s).

(** [strg->nodes[get_node(c)].data[0].h1++] and [--] for every signal of a list. *)
Definition incr_ref (s : storage) (c : Z) : option storage :=
  update_node s (get_node s c) (set_fanout_word (λ w, wrap 32 (w + 1))).
Definition decr_ref (s : storage) (c : Z) : option storage :=
  update_node s (get_node s c) (set_fanout_word (λ w, wrap 32 (w - 1))).

Fixpoint for_each (f : storage → Z → option storage) (s : storage) (cs : list Z) :
    option storage :=
  match cs with
  | [] => Some s
  | c :: cs' => s ← f s c; for_each f s cs'
  end.

Definition set_value (s : storage) (n v : Z) : option storage :=
  update_node s n (set_node_value (λ _, wrap 32 v)).

(** ** Creation of nodes *)

Definition incr_num_pis (q : sequential_information) : sequential_information :=
  SequentialInformation (wrap 32 (inf_num_pis q + 1)) (inf_num_pos q) (registers q).
Definition incr_num_pos (q : sequential_information) : sequential_information :=
  SequentialInformation (inf_num_pis q) (wrap 32 (inf_num_pos q + 1)) (registers q).
Definition add_register (q : sequential_information) : sequential_information :=
  SequentialInformation (inf_num_pis q) (inf_num_pos q) (registers q ++ [new_register]).

(** [name.empty() ? fmt::format("<prefix>{}", k) : name]. *)
Definition default_name (name prefix : string) (k : Z) : string :=
  if decide (name = "") then prefix +:+ pretty k else name.

(** The start of the I/O constructors: a new node that computes the identity, and its index. *)
Definition emplace_identity (s : storage) : option (storage * Z) :=
  let n := size s in
  let s := set_nodes (nodes s ++ [empty_node]) s in
  s ← update_node s n (set_literal 2);
  Some (s, n).

Definition name_node (s : storage) (n : Z) (name : string) : storage :=
  set_node_names (<[n := name]> (node_names s)) s.

(** The end of [create_po] and [create_ri]. *)
Definition connect_child (s : storage) (n sig : Z) : option storage :=
  s ← incr_ref s sig;
  update_node s n (set_children (λ cs, cs ++ [sig])).

Definition create_pi (l : gate_level_layout) (name : string) (t : ucoord_t) :
    option (gate_level_layout * Z) :=
  '(s, n) ← emplace_identity (strg l);
  let s := set_inputs (inputs s ++ [n]) s in
  let s := name_node s n (default_name name "pi" (inf_num_pis (sequential_inf l))) in
  s ← assign_node s t n;
  Some (GateLevelLayout (clocked l) s (incr_num_pis (sequential_inf l)), to_uint64 t).

Definition create_ro (l : gate_level_layout) (name : string) (t : ucoord_t) :
    option (gate_level_layout * Z) :=
  '(s, n) ← emplace_identity (strg l);
  let s := set_inputs (inputs s ++ [n]) s in
  let q := add_register (sequential_inf l) in
  let s := name_node s n (default_name name "ro" (inf_num_pis q)) in
  s ← assign_node s t n;
  Some (GateLevelLayout (clocked l) s q, to_uint64 t).

Definition create_po (l : gate_level_layout) (sig : Z) (name : string) (t : ucoord_t) :
    option (gate_level_layout * Z) :=
  let q := sequential_inf l in
  '(s, n) ← emplace_identity (strg l);
  outs ← vec_insert (outputs s) (inf_num_pos q) (to_uint64 t);
  let s := set_outputs outs s in
  let s := name_node s n (default_name name "po" (inf_num_pos q)) in
  s ← assign_node s t n;
  s ← connect_child s n sig;
  Some (GateLevelLayout (clocked l) s (incr_num_pos q), to_uint64 t).

Definition create_ri (l : gate_level_layout) (sig : Z) (name : string) (t : ucoord_t) :
    option (gate_level_layout * Z) :=
  let q := sequential_inf l in
  '(s, n) ← emplace_identity (strg l);
  let s := set_outputs (outputs s ++ [to_uint64 t]) s in
  let s := name_node s n (default_name name "ri" (inf_num_pos q)) in
  s ← assign_node s t n;
  s ← connect_child s n sig;
  Some (set_strg s l, to_uint64 t).

(** [create_node_from_literal]; the callbacks of [evnts->on_add] are left out. *)
Definition create_node_from_literal (l : gate_level_layout) (cs : list Z) (lit : Z)
    (t : ucoord_t) : option (gate_level_layout * Z) :=
  let s := strg l in
  let data := set_literal lit (set_children (λ v, v ++ cs) empty_node) in
  let n := size s in
  let s := set_nodes (nodes s ++ [data]) s in
  s ← for_each incr_ref s cs;
  s ← set_value s n 0;
  s ← assign_node s t n;
  Some (set_strg s l, to_uint64 t).

Definition create_buf (l : gate_level_layout) (a : Z) (t : ucoord_t) :=
  create_node_from_literal l [a] 2 t.
Definition create_not (l : gate_level_layout) (a : Z) (t : ucoord_t) :=
  create_node_from_literal l [a] 3 t.
Definition create_and (l : gate_level_layout) (a b : Z) (t : ucoord_t) :=
  create_node_from_literal l [a; b] 4 t.
Definition create_nand (l : gate_level_layout) (a b : Z) (t : ucoord_t) :=
  create_node_from_literal l [a; b] 5 t.
Definition create_or (l : gate_level_layout) (a b : Z) (t : ucoord_t) :=
  create_node_from_literal l [a; b] 6 t.
Definition create_nor (l : gate_level_layout) (a b : Z) (t : ucoord_t) :=
  create_node_from_literal l [a; b] 7 t.
Definition create_xor (l : gate_level_layout) (a b : Z) (t : ucoord_t) :=
  create_node_from_literal l [a; b] 8 t.
Definition create_xnor (l : gate_level_layout) (a b : Z) (t : ucoord_t) :=
  create_node_from_literal l [a; b] 9 t.
Definition create_maj (l : gate_level_layout) (a b c : Z) (t : ucoord_t) :=
  create_node_from_literal l [a; b; c] 10 t.

Definition create_node (l : gate_level_layout) (cs : list Z) (function : truth_table)
    (t : ucoord_t) : option (gate_level_layout * Z) :=
  match cs with
  | [] => Some (l, get_constant (negb (is_const0 function)))
  | _ =>
      let r := cache_insert (fn_cache (strg l)) function in
      create_node_from_literal (set_strg (set_fn_cache r.2 (strg l)) l) cs r.1 t
  end.

(** ** Moving nodes *)

Definition move_node (l : gate_level_layout) (n : Z) (t : ucoord_t) (new_children : list Z) :
    option (gate_level_layout * Z) :=
  let s := strg l in
  let old_t := get_tile s n in
  d ← vec_at (nodes s) n;
  s ← for_each decr_ref s (children d);
  s ← update_node s n (set_children (λ _, []));
  s ← (if neqb t old_t
       then s ← clear_tile s old_t; s ← assign_node s t n; revive_node s n
       else Some s);
  s ← update_node s n (set_children (λ cs, cs ++ new_children));
  s ← for_each incr_ref s new_children;
  let s :=
    if is_dead t then set_outputs (filter (λ o, o ≠ to_uint64 old_t) (outputs s)) s
    else if neqb t old_t
    then set_outputs ((λ o, if o =? to_uint64 old_t then to_uint64 t else o) <$> outputs s) s
    else s in
  Some (set_strg s l, to_uint64 t).

(** ** Inputs and outputs *)

Definition num_cis (l : gate_level_layout) : Z := Z.of_nat (length (inputs (strg l))).
Definition num_cos (l : gate_level_layout) : Z := Z.of_nat (length (outputs (strg l))).
Definition num_ros (l : gate_level_layout) : Z := Z.of_nat (length (registers (sequential_inf l))).
Definition num_ris (l : gate_level_layout) : Z := Z.of_nat (length (registers (sequential_inf l))).
Definition num_registers (l : gate_level_layout) : Z :=
  wrap 32 (Z.of_nat (length (registers (sequential_inf l)))).
Definition num_latches (l : gate_level_layout) : Z := 0.
Definition is_combinational (l : gate_level_layout) : bool := true.

Definition num_pis (l : gate_level_layout) : Z := inf_num_pis (sequential_inf l).
Definition num_pos (l : gate_level_layout) : Z := inf_num_pos (sequential_inf l).
Definition num_gates (l : gate_level_layout) : Z := data_num_gates (strg l).
Definition num_wires (l : gate_level_layout) : Z := data_num_wires (strg l).

(** The counts inside of the other members. *)
Abbreviation layout_pis l := (inf_num_pis (sequential_inf l)).
Abbreviation layout_pos l := (inf_num_pos (sequential_inf l)).

(** [std::find(first, last, a) != last]. *)
Definition found (a : Z) (v : list Z) : bool := existsb (Z.eqb a) v.

Definition is_pi (l : gate_level_layout) (n : Z) : option bool :=
  found n <$> vec_range (inputs (strg l)) 0 (layout_pis l).

Definition is_ro (l : gate_level_layout) (n : Z) : option bool :=
  found n <$> vec_range (inputs (strg l)) (layout_pis l) (layout_pis l + num_ros l).

Definition is_ci (l : gate_level_layout) (n : Z) : bool := found n (inputs (strg l)).

(** The nodes that a range of output signals points to. *)
Definition nodes_of (s : storage) (v : list Z) : list Z := get_node s <$> v.

Definition is_po (l : gate_level_layout) (n : Z) : option bool :=
  (λ v, found n (nodes_of (strg l) v)) <$> vec_range (outputs (strg l)) 0 (layout_pos l).

Definition is_ri (l : gate_level_layout) (n : Z) : option bool :=
  (λ v, found n (nodes_of (strg l) v)) <$>
    vec_range (outputs (strg l)) (layout_pos l) (layout_pos l + num_ris l).

Definition is_co (l : gate_level_layout) (n : Z) : bool :=
  found n (nodes_of (strg l) (outputs (strg l))).

Definition is_pi_tile (l : gate_level_layout) (t : ucoord_t) : option bool :=
  is_pi l (get_node_at (strg l) t).
Definition is_ro_tile (l : gate_level_layout) (t : ucoord_t) : option bool :=
  is_ro l (get_node_at (strg l) t).
Definition is_po_tile (l : gate_level_layout) (t : ucoord_t) : option bool :=
  is_po l (get_node_at (strg l) t).
Definition is_ri_tile (l : gate_level_layout) (t : ucoord_t) : option bool :=
  is_ri l (get_node_at (strg l) t).

(** [pi_at] and [po_at]; a failed assertion is [None]. *)
Definition pi_at (l : gate_level_layout) (index : Z) : option Z :=
  if index <? layout_pis l then wrap 32 <$> vec_at (inputs (strg l)) index else None.
Definition po_at (l : gate_level_layout) (index : Z) : option Z :=
  if index <? layout_pos l then vec_at (outputs (strg l)) index else None.

(** [strg->nodes[n].data[1].h1 >= 2 && !is_pi(n)]. *)
Definition is_gate (l : gate_level_layout) (n : Z) : option bool :=
  d ← vec_at (nodes (strg l)) n;
  if 2 <=? literal d then negb <$> is_pi l n else Some false.

Definition is_gate_tile (l : gate_level_layout) (t : ucoord_t) : option bool :=
  is_gate l (get_node_at (strg l) t).
Definition is_wire_tile (l : gate_level_layout) (t : ucoord_t) : option bool :=
  is_wire (strg l) (get_node_at (strg l) t).

(** ** Names *)

Definition set_layout_name (s : storage) (name : string) : storage := set_layout_name_of name s.
Definition get_layout_name (s : storage) : string := layout_name s.

Definition set_name (s : storage) (n : Z) (name : string) : storage := name_node s n name.
Definition set_name_signal (s : storage) (sig : Z) (name : string) : storage :=
  set_name s (get_node s sig) name.

Definition get_name (s : storage) (n : Z) : string := default "" (node_names s !! n).
Definition get_name_signal (s : storage) (sig : Z) : string := get_name s (get_node s sig).

Definition has_name (s : storage) (n : Z) : bool := negb (bool_decide (get_name s n = "")).
Definition has_name_signal (s : storage) (sig : Z) : bool :=
  negb (bool_decide (get_name_signal s sig = "")).

Definition set_input_name (l : gate_level_layout) (index : Z) (name : string) :
    option gate_level_layout :=
  if index <? layout_pis l
  then n ← vec_at (inputs (strg l)) index; Some (set_strg (name_node (strg l) n name) l)
  else Some l.

Definition get_input_name (l : gate_level_layout) (index : Z) : option string :=
  if index <? layout_pis l
  then n ← vec_at (inputs (strg l)) index; Some (get_name (strg l) (wrap 32 n))
  else Some "".

Definition has_input_name (l : gate_level_layout) (index : Z) : option bool :=
  (λ n, negb (bool_decide (n = ""))) <$> get_input_name l index.

Definition set_output_name (l : gate_level_layout) (index : Z) (name : string) :
    option gate_level_layout :=
  if index <? layout_pos l
  then o ← vec_at (outputs (strg l)) index;
       Some (set_strg (name_node (strg l) (get_node (strg l) o) name) l)
  else Some l.

Definition get_output_name (l : gate_level_layout) (index : Z) : option string :=
  if index <? layout_pos l
  then o ← vec_at (outputs (strg l)) index; Some (get_name (strg l) (get_node (strg l) o))
  else Some "".

Definition has_output_name (l : gate_level_layout) (index : Z) : option bool :=
  (λ n, negb (bool_decide (n = ""))) <$> get_output_name l index.

(** ** Data flow *)

(** [is_child(n, s)]. *)
Definition is_child (s : storage) (n sig : Z) : option bool :=
  d ← vec_at (nodes s) n; Some (found sig (children d)).

(** [std::copy_if(first, last, std::inserter(data_flow, end), pred)] into a [std::set]. *)
Fixpoint copy_if_set (pred : ucoord_t → option bool) (v data_flow : list ucoord_t) :
    option (list ucoord_t) :=
  match v with
  | [] => Some data_flow
  | a :: v' =>
      b ← pred a;
      copy_if_set pred v' (if (b : bool) then set_insert ltb a data_flow else data_flow)
  end.

(** The loop over the clocked zones, with their elevations. *)
Fixpoint collect_data_flow (cl : clocked_layout L) (pred : ucoord_t → option bool)
    (zones data_flow : list ucoord_t) : option (list ucoord_t) :=
  match zones with
  | [] => Some data_flow
  | zone :: zones' =>
      data_flow ← copy_if_set pred (elevations (coordinate_layout cl) zone) data_flow;
      collect_data_flow cl pred zones' data_flow
  end.

(** [incoming_data_flow] and [outgoing_data_flow] for [std::set<tile>]. *)
Definition incoming_data_flow (l : gate_level_layout) (t : ucoord_t) : option (list ucoord_t) :=
  collect_data_flow (clocked l)
    (λ dt, is_child (strg l) (get_node_at (strg l) t) (to_uint64 dt))
    (incoming_clocked_zones_set (clocked l) t) [].

Definition outgoing_data_flow (l : gate_level_layout) (t : ucoord_t) : option (list ucoord_t) :=
  collect_data_flow (clocked l)
    (λ dt, is_child (strg l) (get_node_at (strg l) dt) (to_uint64 t))
    (outgoing_clocked_zones_set (clocked l) t) [].

(** The sizes have type [uint32_t]. *)
Definition fanin_size (l : gate_level_layout) (n : Z) : option Z :=
  (λ v, wrap 32 (Z.of_nat (length v))) <$> incoming_data_flow l (get_tile (strg l) n).
Definition fanout_size (l : gate_level_layout) (n : Z) : option Z :=
  (λ v, wrap 32 (Z.of_nat (length v))) <$> outgoing_data_flow l (get_tile (strg l) n).

Definition is_fanout (l : gate_level_layout) (n : Z) : option bool :=
  w ← is_wire (strg l) n;
  if (w : bool) then (λ k, 1 <? k) <$> fanout_size l n else Some false.

(** ** Iteration: the elements that the functors are applied to, in order *)

Definition foreach_pi (l : gate_level_layout) : option (list Z) :=
  (λ v : list Z, wrap 32 <$> v) <$> vec_range (inputs (strg l)) 0 (layout_pis l).
Definition foreach_ro (l : gate_level_layout) : option (list Z) :=
  (λ v : list Z, wrap 32 <$> v) <$> vec_range (inputs (strg l)) (layout_pis l) (num_cis l).
Definition foreach_po (l : gate_level_layout) : option (list Z) :=
  vec_range (outputs (strg l)) 0 (layout_pos l).
Definition foreach_ri (l : gate_level_layout) : option (list Z) :=
  vec_range (outputs (strg l)) (layout_pos l) (num_cos l).
Definition foreach_ci (l : gate_level_layout) : option (list Z) := foreach_pi l.
Definition foreach_co (l : gate_level_layout) : option (list Z) := foreach_po l.

(** [foreach_element_if] over a range of nodes. *)
Fixpoint select_nodes (pred : Z → option bool) (v : list Z) : option (list Z) :=
  match v with
  | [] => Some []
  | n :: v' =>
      b ← pred n;
      r ← select_nodes pred v';
      Some (if (b : bool) then n :: r else r)
  end.

Definition foreach_node (l : gate_level_layout) : option (list Z) :=
  select_nodes (λ n, negb <$> is_dead_node (strg l) n) (seqZ 0 (size (strg l))).

(** [p && !is_dead(n)], with the evaluation order of the conjunction. *)
Definition and_alive (s : storage) (p : option bool) (n : Z) : option bool :=
  b ← p; if (b : bool) then negb <$> is_dead_node s n else Some false.

Definition foreach_gate (l : gate_level_layout) : option (list Z) :=
  select_nodes (λ n, and_alive (strg l) (is_gate l n) n) (seqZ 2 (size (strg l) - 2)).
Definition foreach_wire (l : gate_level_layout) : option (list Z) :=
  select_nodes (λ n, and_alive (strg l) (is_wire (strg l) n) n) (seqZ 2 (size (strg l) - 2)).

Definition foreach_fanin (l : gate_level_layout) (n : Z) : option (list Z) :=
  if n <=? 1 then Some []
  else (λ v : list ucoord_t, to_uint64 <$> v) <$> incoming_data_flow l (get_tile (strg l) n).
Definition foreach_fanout (l : gate_level_layout) (n : Z) : option (list Z) :=
  if n <=? 1 then Some []
  else (λ v : list ucoord_t, get_node_at (strg l) <$> v) <$> outgoing_data_flow l (get_tile (strg l) n).

(** ** Cardinal operations *)

(** [std::any_of] over the data flow, at the three elevations. *)
Definition any_elevation (l : gate_level_layout) (sig : Z) (v : list ucoord_t) : bool :=
  existsb (λ i, eqb_uint64 i sig || eqb_uint64 (above (coordinate_layout (clocked l)) i) sig
                || eqb_uint64 (below (coordinate_layout (clocked l)) i) sig) v.

Definition is_incoming_signal (l : gate_level_layout) (t : ucoord_t) (sig : Z) : option bool :=
  any_elevation l sig <$> incoming_data_flow l t.
Definition is_outgoing_signal (l : gate_level_layout) (t : ucoord_t) (sig : Z) : option bool :=
  any_elevation l sig <$> outgoing_data_flow l t.

Definition has_northern_incoming_signal (l : gate_level_layout) (t : ucoord_t) :=
  is_incoming_signal l t (to_uint64 (north (coordinate_layout (clocked l)) t)).
Definition has_north_eastern_incoming_signal (l : gate_level_layout) (t : ucoord_t) :=
  is_incoming_signal l t (to_uint64 (north_east (coordinate_layout (clocked l)) t)).
Definition has_eastern_incoming_signal (l : gate_level_layout) (t : ucoord_t) :=
  is_incoming_signal l t (to_uint64 (east (coordinate_layout (clocked l)) t)).
Definition has_south_eastern_incoming_signal (l : gate_level_layout) (t : ucoord_t) :=
  is_incoming_signal l t (to_uint64 (south_east (coordinate_layout (clocked l)) t)).
Definition has_southern_incoming_signal (l : gate_level_layout) (t : ucoord_t) :=
  is_incoming_signal l t (to_uint64 (south (coordinate_layout (clocked l)) t)).
Definition has_south_western_incoming_signal (l : gate_level_layout) (t : ucoord_t) :=
  is_incoming_signal l t (to_uint64 (south_west (coordinate_layout (clocked l)) t)).
Definition has_western_incoming_signal (l : gate_level_layout) (t : ucoord_t) :=
  is_incoming_signal l t (to_uint64 (west (coordinate_layout (clocked l)) t)).
Definition has_north_western_incoming_signal (l : gate_level_layout) (t : ucoord_t) :=
  is_incoming_signal l t (to_uint64 (north_west (coordinate_layout (clocked l)) t)).

Definition has_northern_outgoing_signal (l : gate_level_layout) (t : ucoord_t) :=
  is_outgoing_signal l t (to_uint64 (north (coordinate_layout (clocked l)) t)).
Definition has_north_eastern_outgoing_signal (l : gate_level_layout) (t : ucoord_t) :=
  is_outgoing_signal l t (to_uint64 (north_east (coordinate_layout (clocked l)) t)).
Definition has_eastern_outgoing_signal (l : gate_level_layout) (t : ucoord_t) :=
  is_outgoing_signal l t (to_uint64 (east (coordinate_layout (clocked l)) t)).
Definition has_south_eastern_outgoing_signal (l : gate_level_layout) (t : ucoord_t) :=
  is_outgoing_signal l t (to_uint64 (south_east (coordinate_layout (clocked l)) t)).
Definition has_southern_outgoing_signal (l : gate_level_layout) (t : ucoord_t) :=
  is_outgoing_signal l t (to_uint64 (south (coordinate_layout (clocked l)) t)).
Definition has_south_western_outgoing_signal (l : gate_level_layout) (t : ucoord_t) :=
  is_outgoing_signal l t (to_uint64 (south_west (coordinate_layout (clocked l)) t)).
Definition has_western_outgoing_signal (l : gate_level_layout) (t : ucoord_t) :=
  is_outgoing_signal l t (to_uint64 (west (coordinate_layout (clocked l)) t)).
Definition has_north_western_outgoing_signal (l : gate_level_layout) (t : ucoord_t) :=
  is_outgoing_signal l t (to_uint64 (north_west (coordinate_layout (clocked l)) t)).

Definition is_nil {A} (v : list A) : bool := match v with [] => true | _ => false end.

Definition has_no_incoming_signal (l : gate_level_layout) (t : ucoord_t) : option bool :=
  is_nil <$> incoming_data_flow l t.
Definition has_no_outgoing_signal (l : gate_level_layout) (t : ucoord_t) : option bool :=
  is_nil <$> outgoing_data_flow l t.

(** [a && b] and [a || b], short-circuited. *)
Definition opt_and (a b : option bool) : option bool := x ← a; if (x : bool) then b else Some false.
Definition opt_or (a b : option bool) : option bool := x ← a; if (x : bool) then Some true else b.

(** The loop of [has_opposite_incoming_and_outgoing_signals], with its early exit. *)
Fixpoint any_opposite (l : gate_level_layout) (t : ucoord_t) (ps : list (ucoord_t * ucoord_t)) :
    option bool :=
  match ps with
  | [] => Some false
  | (a, b) :: ps' =>
      let s1 := to_uint64 a in
      let s2 := to_uint64 b in
      opt_or (opt_or (opt_and (is_incoming_signal l t s1) (is_outgoing_signal l t s2))
                     (opt_and (is_incoming_signal l t s2) (is_outgoing_signal l t s1)))
             (any_opposite l t ps')
  end.

(** [operator<] of [std::pair]. *)
Definition pair_ltb (p q : ucoord_t * ucoord_t) : bool :=
  ltb p.1 q.1 || (negb (ltb q.1 p.1) && ltb p.2 q.2).

(** [foreach_adjacent_opposite_coordinates] iterates over a [std::set] of the pairs. *)
Definition has_opposite_incoming_and_outgoing_signals (l : gate_level_layout) (t : ucoord_t) :
    option bool :=
  any_opposite l t
    (set_of_list pair_ltb (adjacent_opposite_coordinates (coordinate_layout (clocked l)) t)).

(** ** Node values, visited flags, traversal id *)

Definition clear_values (s : storage) : storage :=
  set_nodes (set_node_value (λ _, 0) <$> nodes s) s.
Definition value (s : storage) (n : Z) : option Z :=
  d ← vec_at (nodes s) n; Some (node_value d).
(** [value++] returns the old value, [--value] the new one. *)
Definition incr_value (s : storage) (n : Z) : option (storage * Z) :=
  v ← value s n; s ← update_node s n (set_node_value (λ v, wrap 32 (v + 1))); Some (s, v).
Definition decr_value (s : storage) (n : Z) : option (storage * Z) :=
  s ← update_node s n (set_node_value (λ v, wrap 32 (v - 1))); v ← value s n; Some (s, v).

Definition clear_visited (s : storage) : storage :=
  set_nodes (set_visited_flag 0 <$> nodes s) s.
Definition visited (s : storage) (n : Z) : option Z :=
  d ← vec_at (nodes s) n; Some (visited_flag d).
Definition set_visited (s : storage) (n v : Z) : option storage :=
  update_node s n (set_visited_flag (wrap 32 v)).

Definition get_trav_id (s : storage) : Z := trav_id s.
Definition incr_trav_id (s : storage) : storage := set_trav_id (wrap 32 (trav_id s + 1)) s.

End GateLevelLayout.
Arguments gate_level_layout L {MT}.
Arguments storage {MT}.
Arguments sequential_information {MT}.
End GateLevel.
