(* ===== verification/GateLevelInvariant.v ===== *)
(** * Correctness of gate-level layouts

    An abstract specification of placement (the list of gates and the partial map from nodes to
    tiles), the invariant [storage_wf] of the storage of [GateLevelLayout.v], and the refinement:
    every operation that changes the placement keeps the invariant, never runs into an access out
    of range, and acts on the abstraction as the specification says. *)

From S2P Require Import Prelude.
From S2P Require Import Coordinates.
From S2P Require Import CoordinateLayout.
From S2P Require Import CartesianLayout.
From S2P Require Import ClockingScheme.
From S2P Require Import ClockedLayout.
From S2P Require Import GateLevelLayout.
#[local] Open Scope Z_scope.
Import Offset.
Import Clocked.
Import GateLevel.

(** ** Counting the entries of a map *)

Definition count (P : Z → bool) (m : gmap Z Z) : Z :=
  Z.of_nat (base.size (filter (λ p : Z * Z, P p.1 = true) m)).

Lemma count_empty P : count P ∅ = 0.
Proof. unfold count. by rewrite map_filter_empty, map_size_empty. Qed.

Lemma count_ext P Q m :
  (∀ n t, m !! n = Some t → P n = Q n) → count P m = count Q m.
Proof.
  intros H. unfold count. f_equal. f_equal. apply map_filter_ext.
  intros n t Hn. simpl. by rewrite (H n t).
Qed.

Lemma count_insert P m n t :
  m !! n = None → count P (<[n := t]> m) = count P m + (if P n then 1 else 0).
Proof.
  intros Hn. unfold count. destruct (P n) eqn:HP.
  - rewrite map_filter_insert_True, map_size_insert_None; [lia| |done].
    apply map_lookup_filter_None. by left.
  - rewrite map_filter_insert_False by (simpl; congruence). rewrite delete_id by done. lia.
Qed.

Lemma count_delete P m n t :
  m !! n = Some t → count P (delete n m) = count P m - (if P n then 1 else 0).
Proof.
  intros Hn. rewrite <-(insert_delete_id m n t) at 2 by done.
  rewrite count_insert by apply lookup_delete_eq. lia.
Qed.

(** The keys of an interval are at most as many as its elements. *)
Lemma count_bound P m k :
  0 <= k → (∀ n t, m !! n = Some t → P n = true → 2 <= n < 2 + k) → 0 <= count P m <= k.
Proof.
  intros Hk H. unfold count. split; [lia|].
  rewrite <-size_dom.
  assert (dom (filter (λ p : Z * Z, P p.1 = true) m) ⊆ (list_to_set (seqZ 2 k) : gset Z)) as Hs.
  { intros n [t [Hn HP]%map_lookup_filter_Some]%elem_of_dom.
    rewrite elem_of_list_to_set, elem_of_seqZ. eauto. }
  apply subseteq_size in Hs. etrans; [apply Nat2Z.inj_le, Hs|].
  rewrite size_list_to_set by apply NoDup_seqZ. rewrite length_seqZ. lia.
Qed.

(** ** The specification of placement *)

(** The literal and the children of every node, and the tile of every placed node that is not a
    constant. *)
Record placement := Placement { gates : list (Z * list Z); tiles : gmap Z Z }.

(** A tile is cleared: whatever node it holds is not placed anymore. *)
Definition remove_tile (sig : Z) (p : placement) : placement :=
  Placement (gates p) (filter (λ e : Z * Z, e.2 ≠ sig) (tiles p)).

(** A node that is not placed is put on a tile, which loses its old node. A dead tile is no place. *)
Definition occupy (t : ucoord_t) (n : Z) (m : gmap Z Z) : gmap Z Z :=
  if is_dead t then m else <[n := to_uint64 t]> (filter (λ e : Z * Z, e.2 ≠ to_uint64 t) m).

Definition place (t : ucoord_t) (n : Z) (p : placement) : placement :=
  Placement (gates p) (occupy t n (tiles p)).

(** A new gate, which is the next node, on a tile. *)
Definition place_new (lit : Z) (cs : list Z) (t : ucoord_t) (p : placement) : placement :=
  place t (Z.of_nat (length (gates p))) (Placement (gates p ++ [(lit, cs)]) (tiles p)).

Definition node_position (n : Z) (p : placement) : ucoord_t :=
  match tiles p !! n with Some sig => of_uint64 sig | None => ucoord_default end.

(** A node gets new children and another position. *)
Definition relocate (n : Z) (t : ucoord_t) (cs : list Z) (p : placement) : placement :=
  let p' := Placement (alter (λ g, (g.1, cs)) (Z.to_nat n) (gates p)) (tiles p) in
  if decide (t = node_position n p) then p'
  else place t n (Placement (gates p') (delete n (tiles p'))).

Section Invariant.
Context `{MT : Mockturtle}.

Definition literal_in (v : list node_data) (n : Z) : Z :=
  match v !! Z.to_nat n with Some d => literal d | None => 0 end.

(** The nodes that [num_wires] and [num_gates] count. *)
Definition counts_as_wire (v : list node_data) (n : Z) : bool :=
  (2 <=? n) && (literal_in v n =? 2).
Definition counts_as_gate (v : list node_data) (n : Z) : bool :=
  (2 <=? n) && negb (literal_in v n =? 2).

Record storage_wf (s : storage) : Prop := {
  wf_size : 2 <= Z.of_nat (length (nodes s)) <= 2 ^ 32;
  wf_inverse t n : tile_node_map s !! t = Some n ↔ node_tile_map s !! n = Some t;
  wf_node n t : node_tile_map s !! n = Some t → 0 <= n < Z.of_nat (length (nodes s));
  wf_tile n t : node_tile_map s !! n = Some t → in_width 64 t;
  wf_dead n t : node_tile_map s !! n = Some t → is_dead (of_uint64 t) = (n <=? 1);
  wf_wires : data_num_wires s = count (counts_as_wire (nodes s)) (node_tile_map s);
  wf_gates : data_num_gates s = count (counts_as_gate (nodes s)) (node_tile_map s);
}.

(** The abstraction function. *)
Definition node_gate (d : node_data) : Z * list Z := (literal d, children d).
Definition abstract (s : storage) : placement :=
  Placement (node_gate <$> nodes s) (filter (λ e : Z * Z, 2 <= e.1) (node_tile_map s)).

(** What operations on the placement leave alone. *)
Record frame (s s' : storage) : Prop := {
  frame_length : length (nodes s') = length (nodes s);
  frame_inputs : inputs s' = inputs s;
  frame_outputs : outputs s' = outputs s;
  frame_cache : fn_cache s' = fn_cache s;
  frame_names : node_names s' = node_names s;
}.

#[export] Instance frame_preorder : PreOrder frame.
Proof. split; [by split|]. intros a b c [] []. split; congruence. Qed.

(** ** Lemmas on nodes *)

Lemma fmap_alter_comm {A B} (h : A → B) f g (v : list A) (i : nat) :
  (∀ a, h (f a) = g (h a)) → h <$> alter f i v = alter g i (h <$> v).
Proof.
  intros Hh. apply list_eq. intros j. rewrite list_lookup_fmap.
  destruct (decide (i = j)) as [->|].
  - rewrite !list_lookup_alter_eq, list_lookup_fmap. by destruct (v !! j); simpl; rewrite ?Hh.
  - by rewrite !list_lookup_alter_ne, list_lookup_fmap.
Qed.

Lemma vec_at_lookup {A} (v : list A) i :
  0 <= i < Z.of_nat (length v) → ∃ a, vec_at v i = Some a ∧ v !! Z.to_nat i = Some a.
Proof.
  intros Hi. destruct (lookup_lt_is_Some_2 v (Z.to_nat i)) as [a Ha]; [lia|].
  exists a. unfold vec_at. by rewrite decide_True by lia.
Qed.

Lemma update_node_Some s n f :
  0 <= n < Z.of_nat (length (nodes s)) →
  update_node s n f = Some (set_nodes (alter f (Z.to_nat n) (nodes s)) s).
Proof.
  intros Hn. destruct (vec_at_lookup (nodes s) n Hn) as (d & H1 & H2).
  unfold update_node, vec_update. rewrite H1. simpl. do 2 f_equal.
  apply list_eq. intros i. destruct (decide (i = Z.to_nat n)) as [->|].
  - rewrite list_lookup_insert_eq by (by eapply lookup_lt_Some).
    by rewrite list_lookup_alter_eq, H2.
  - by rewrite list_lookup_insert_ne, list_lookup_alter_ne.
Qed.

Lemma is_wire_literal s n :
  0 <= n < Z.of_nat (length (nodes s)) → is_wire s n = Some (literal_in (nodes s) n =? 2).
Proof.
  intros Hn. destruct (vec_at_lookup (nodes s) n Hn) as (d & H1 & H2).
  unfold is_wire, is_buf, has_literal, literal_in. by rewrite H1, H2.
Qed.

Lemma set_nodes_frame s v : length v = length (nodes s) → frame s (set_nodes v s).
Proof. intros H. by split. Qed.

(** Changing node data keeps the invariant as long as placed nodes keep their literal. *)
Lemma set_nodes_wf s v :
  storage_wf s → Z.of_nat (length (nodes s)) <= Z.of_nat (length v) <= 2 ^ 32 →
  (∀ n t, node_tile_map s !! n = Some t → literal_in v n = literal_in (nodes s) n) →
  storage_wf (set_nodes v s).
Proof.
  intros [Hs Hi Hn Ht Hd Hw Hg] Hlen Hlit. split; simpl; try done.
  - lia.
  - intros n t H. specialize (Hn n t H). lia.
  - rewrite Hw. apply count_ext. intros n t H. unfold counts_as_wire. by erewrite Hlit.
  - rewrite Hg. apply count_ext. intros n t H. unfold counts_as_gate. by erewrite Hlit.
Qed.

Lemma literal_in_alter f v i n :
  (∀ d, literal (f d) = literal d) → literal_in (alter f i v) n = literal_in v n.
Proof.
  intros Hf. unfold literal_in. destruct (decide (Z.to_nat n = i)) as [<-|].
  - rewrite list_lookup_alter_eq. by destruct (v !! Z.to_nat n); simpl.
  - by rewrite list_lookup_alter_ne.
Qed.

(** An update of node data that keeps the literals. *)
Lemma update_node_wf s n f :
  storage_wf s → 0 <= n < Z.of_nat (length (nodes s)) → (∀ d, literal (f d) = literal d) →
  ∃ s', update_node s n f = Some s' ∧ storage_wf s' ∧ frame s s' ∧
        nodes s' = alter f (Z.to_nat n) (nodes s) ∧
        tile_node_map s' = tile_node_map s ∧ node_tile_map s' = node_tile_map s.
Proof.
  intros Hs Hn Hf. eexists. split; [by apply update_node_Some|].
  split_and!; [|apply set_nodes_frame|done..]; [|by rewrite length_alter].
  apply set_nodes_wf; [done| |].
  - rewrite length_alter. pose proof (wf_size _ Hs). lia.
  - intros. by apply literal_in_alter.
Qed.

Lemma node_gate_alter f (v : list node_data) (i : nat) :
  (∀ d, node_gate (f d) = node_gate d) → node_gate <$> alter f i v = node_gate <$> v.
Proof.
  intros Hf. apply list_eq. intros j. rewrite !list_lookup_fmap.
  destruct (decide (i = j)) as [->|]; [|by rewrite list_lookup_alter_ne].
  rewrite list_lookup_alter_eq. by destruct (v !! j); simpl; rewrite ?Hf.
Qed.

(** Updates of the bookkeeping of a node: reference counts, values, visited flags. *)
Record keeps (s s' : storage) : Prop := {
  keeps_wf : storage_wf s';
  keeps_frame : frame s s';
  keeps_abstract : abstract s' = abstract s;
  keeps_tile_node : tile_node_map s' = tile_node_map s;
  keeps_node_tile : node_tile_map s' = node_tile_map s;
}.

Lemma keeps_refl s : storage_wf s → keeps s s.
Proof. by split. Qed.

Lemma keeps_trans a b c : keeps a b → keeps b c → keeps a c.
Proof. intros [] []. split; try congruence. by etrans. Qed.

Lemma update_node_keeps s n f :
  storage_wf s → 0 <= n < Z.of_nat (length (nodes s)) → (∀ d, node_gate (f d) = node_gate d) →
  ∃ s', update_node s n f = Some s' ∧ keeps s s' ∧ nodes s' = alter f (Z.to_nat n) (nodes s).
Proof.
  intros Hs Hn Hf.
  destruct (update_node_wf s n f Hs Hn) as (s' & E & Hwf & Hfr & Hv & Htn & Hnt).
  { intros d. specialize (Hf d). unfold node_gate in Hf. congruence. }
  exists s'. split_and!; [done| |done]. split; [done|done| |done|done].
  unfold abstract. by rewrite Hv, Hnt, node_gate_alter.
Qed.

Lemma get_node_range s sig : storage_wf s → 0 <= get_node s sig < Z.of_nat (length (nodes s)).
Proof.
  intros Hs. unfold get_node. pose proof (wf_size _ Hs).
  destruct (tile_node_map s !! sig) as [n|] eqn:E; simpl; [|lia].
  apply wf_inverse in E; [|done]. by eapply wf_node.
Qed.

(** Reference counting over a list of signals. *)
Lemma for_each_keeps g s cs :
  storage_wf s →
  (∀ s c, ∃ f, (∀ d, node_gate (f d) = node_gate d) ∧ g s c = update_node s (get_node s c) f) →
  ∃ s', for_each g s cs = Some s' ∧ keeps s s'.
Proof.
  intros Hs Hg. revert s Hs. induction cs as [|c cs IH]; intros s Hs.
  { exists s. by split; [|apply keeps_refl]. }
  destruct (Hg s c) as (f & Hf & E).
  destruct (update_node_keeps s (get_node s c) f) as (s1 & E1 & Hk & _); [done| |done|].
  { by apply get_node_range. }
  destruct (IH s1) as (s2 & E2 & Hk2); [apply Hk|]. exists s2. simpl. rewrite E, E1. simpl.
  split; [done|by eapply keeps_trans].
Qed.

Lemma incr_refs_keeps s cs :
  storage_wf s → ∃ s', for_each incr_ref s cs = Some s' ∧ keeps s s'.
Proof. intros Hs. apply for_each_keeps; [done|]. intros s' c. eexists. by split; [|reflexivity]. Qed.

Lemma decr_refs_keeps s cs :
  storage_wf s → ∃ s', for_each decr_ref s cs = Some s' ∧ keeps s s'.
Proof. intros Hs. apply for_each_keeps; [done|]. intros s' c. eexists. by split; [|reflexivity]. Qed.

Lemma kill_node_Some s n :
  0 <= n < Z.of_nat (length (nodes s)) →
  ∃ v, kill_node s n = Some (set_nodes v s) ∧ node_gate <$> v = node_gate <$> nodes s.
Proof.
  intros Hn. unfold kill_node. destruct (is_constant n).
  { exists (nodes s). by destruct s. }
  rewrite update_node_Some by done. eexists. split; [done|]. by apply node_gate_alter.
Qed.

Lemma node_gates_length (v w : list node_data) :
  node_gate <$> v = node_gate <$> w → length v = length w.
Proof. intros H. apply (f_equal length) in H. by rewrite !length_fmap in H. Qed.

Lemma node_gates_literal (v w : list node_data) n :
  node_gate <$> v = node_gate <$> w → literal_in v n = literal_in w n.
Proof.
  intros H. apply (f_equal (lookup (Z.to_nat n))) in H. rewrite !list_lookup_fmap in H.
  unfold literal_in. destruct (v !! _), (w !! _); simpl in *; try done.
  injection H. congruence.
Qed.

Lemma revive_node_keeps s n :
  storage_wf s → 0 <= n < Z.of_nat (length (nodes s)) →
  ∃ s', revive_node s n = Some s' ∧ keeps s s'.
Proof.
  intros Hs Hn. unfold revive_node. destruct (is_constant n).
  { exists s. by split; [|apply keeps_refl]. }
  destruct (update_node_keeps s n (set_fanout_word (λ w, Z.land w 0x7fffffff)))
    as (s' & E & Hk & _); [done..|]. by exists s'.
Qed.

(** ** Clearing and assigning tiles *)

Lemma counts_total v m k :
  (∀ n t, m !! n = Some t → 0 <= n < k) → 2 <= k →
  0 <= count (counts_as_wire v) m <= k - 2 ∧ 0 <= count (counts_as_gate v) m <= k - 2.
Proof.
  intros H Hk. split; apply count_bound; try lia;
    intros n t Hn [Hl%Z.leb_le _]%andb_true_iff; specialize (H n t Hn); lia.
Qed.

Lemma live_node s n t :
  storage_wf s → wf t → node_tile_map s !! n = Some (to_uint64 t) →
  (n <=? 1) = is_dead t.
Proof. intros Hs Ht Hn. erewrite <-wf_dead, of_to_uint64 by done. done. Qed.

(** Removing the entries of a node from both maps. *)
Lemma delete_maps_wf s n t :
  storage_wf s → node_tile_map s !! n = Some t →
  storage_wf (set_counters (count (counts_as_gate (nodes s)) (delete n (node_tile_map s)))
                           (count (counts_as_wire (nodes s)) (delete n (node_tile_map s)))
    (set_maps (delete t (tile_node_map s)) (delete n (node_tile_map s)) s)).
Proof.
  intros Hs Hn. destruct Hs as [Hsz Hi Hr Ht Hd _ _]. split; simpl; try done.
  - intros t' n'. rewrite !lookup_delete_Some, Hi.
    split; intros [Hne H]; (split; [|done]); intros ->; [congruence|].
    apply Hi in H, Hn. congruence.
  - intros n' t' [_ H]%lookup_delete_Some. eauto.
  - intros n' t' [_ H]%lookup_delete_Some. eauto.
  - intros n' t' [_ H]%lookup_delete_Some. eauto.
Qed.

(** Adding the entries of an unplaced node on a free tile. *)
Lemma insert_maps_wf s n t :
  storage_wf s → wf t → is_dead t = false → 2 <= n < Z.of_nat (length (nodes s)) →
  node_tile_map s !! n = None → tile_node_map s !! to_uint64 t = None →
  storage_wf (set_counters
      (count (counts_as_gate (nodes s)) (<[n := to_uint64 t]> (node_tile_map s)))
      (count (counts_as_wire (nodes s)) (<[n := to_uint64 t]> (node_tile_map s)))
    (set_maps (<[to_uint64 t := n]> (tile_node_map s)) (<[n := to_uint64 t]> (node_tile_map s)) s)).
Proof.
  intros Hs Ht Hlive Hn Hfree Hempty. destruct Hs as [Hsz Hi Hr Hw Hd _ _]. split; simpl; try done.
  - intros t' n'. rewrite !lookup_insert_Some.
    split; (intros [[<- <-]|[Hne H]]; [by left|right]).
    + apply Hi in H. split; [congruence|done].
    + split; [|by apply Hi]. intros <-. apply Hi in H. congruence.
  - intros n' t' [[<- _]|[_ H]]%lookup_insert_Some; [lia|eauto].
  - intros n' t' [[_ <-]|[_ H]]%lookup_insert_Some; [by apply to_uint64_width|eauto].
  - intros n' t' [[<- <-]|[_ H]]%lookup_insert_Some; [|eauto].
    rewrite of_to_uint64 by done. rewrite Hlive. symmetry. apply Z.leb_gt. lia.
Qed.

Lemma remove_tile_free s sig :
  storage_wf s → tile_node_map s !! sig = None → remove_tile sig (abstract s) = abstract s.
Proof.
  intros Hs Hfree. unfold remove_tile, abstract; simpl. f_equal. apply map_filter_id.
  intros n t [H _]%map_lookup_filter_Some; simpl. intros ->.
  apply wf_inverse in H; [|done]. congruence.
Qed.

Lemma remove_tile_delete s n sig :
  storage_wf s → node_tile_map s !! n = Some sig →
  filter (λ e : Z * Z, 2 <= e.1) (delete n (node_tile_map s))
    = filter (λ e : Z * Z, e.2 ≠ sig) (filter (λ e : Z * Z, 2 <= e.1) (node_tile_map s)).
Proof.
  intros Hs Hn. apply map_eq. intros m. apply option_eq. intros t.
  rewrite !map_lookup_filter_Some, lookup_delete_Some; simpl.
  split; [intros [[Hne H] Hm]|intros [[H Hm] Ht]]; split_and!; try done.
  - intros ->. apply Hne. apply wf_inverse in H, Hn; [|done..]. congruence.
  - intros ->. congruence.
Qed.

Lemma clear_tile_spec s t :
  storage_wf s → wf t →
  ∃ s', clear_tile s t = Some s' ∧ storage_wf s' ∧ frame s s' ∧
        abstract s' = remove_tile (to_uint64 t) (abstract s) ∧
        tile_node_map s' = delete (to_uint64 t) (tile_node_map s) ∧
        (∀ n, node_tile_map s !! n = None → node_tile_map s' !! n = None) ∧
        (∀ n, node_tile_map s !! n = Some (to_uint64 t) → node_tile_map s' !! n = None).
Proof.
  intros Hs Ht. unfold clear_tile. destruct (tile_node_map s !! to_uint64 t) as [n|] eqn:E.
  2:{ exists s. split_and!; try done.
      - by rewrite remove_tile_free.
      - by rewrite delete_id.
      - intros n Hn%wf_inverse; [congruence|done]. }
  assert (node_tile_map s !! n = Some (to_uint64 t)) as Hn by by apply wf_inverse.
  pose proof (wf_node _ Hs _ _ Hn) as Hr. pose proof (live_node _ _ _ Hs Ht Hn) as Hlive.
  pose proof (counts_total (nodes s) (node_tile_map s) _ (wf_node _ Hs)
                ltac:(apply wf_size; done)) as [Bw Bg].
  pose proof (delete_maps_wf _ _ _ Hs Hn) as Hwf. pose proof (wf_size _ Hs) as Hsz.
  rewrite !(count_delete _ _ _ _ Hn), <-wf_wires, <-wf_gates in Hwf by done.
  destruct (counts_total (nodes s) (delete n (node_tile_map s)) (Z.of_nat (length (nodes s))))
    as [Dw Dg]; [by intros m u [_ Hm]%lookup_delete_Some; eapply wf_node|lia|].
  rewrite !(count_delete _ _ _ _ Hn), <-?wf_wires, <-?wf_gates in * by done.
  assert (∃ g w, (if is_dead t then Some s
      else w ← is_wire s n;
           Some (if (w : bool)
                 then set_counters (data_num_gates s) (wrap 32 (data_num_wires s - 1)) s
                 else set_counters (wrap 32 (data_num_gates s - 1)) (data_num_wires s) s))
      = Some (set_counters g w s) ∧
    g = data_num_gates s - (if counts_as_gate (nodes s) n then 1 else 0) ∧
    w = data_num_wires s - (if counts_as_wire (nodes s) n then 1 else 0)) as (g & w & E1 & -> & ->).
  { unfold counts_as_wire, counts_as_gate in *. destruct (is_dead t).
    - exists (data_num_gates s), (data_num_wires s). assert (2 <=? n = false) as -> by lia. simpl.
      split_and!; [by destruct s|lia..].
    - rewrite is_wire_literal by done. assert (2 <=? n = true) as H2 by lia.
      rewrite H2 in *. simpl in *. destruct (literal_in (nodes s) n =? 2); simpl in *.
      + do 2 eexists. split_and!; [done|lia|]. apply wrap_small. unfold in_width. lia.
      + do 2 eexists. split_and!; [done| |lia]. apply wrap_small. unfold in_width. lia. }
  rewrite E1. simpl.
  destruct (kill_node_Some (set_counters (data_num_gates s - (if counts_as_gate (nodes s) n then 1 else 0))
    (data_num_wires s - (if counts_as_wire (nodes s) n then 1 else 0)) s) n Hr) as (v & E2 & Hv).
  rewrite E2. simpl. simpl in Hv. pose proof (node_gates_length _ _ Hv) as Hlen.
  eexists. split; [done|]. split_and!; simpl.
  - refine (set_nodes_wf _ v Hwf _ _); simpl; [lia|]. intros m u _. by apply node_gates_literal.
  - by split.
  - unfold abstract, remove_tile; simpl. by rewrite Hv, (remove_tile_delete s n (to_uint64 t)).
  - done.
  - intros m Hm. by rewrite lookup_delete_None; right.
  - intros m Hm. apply lookup_delete_None. left.
    apply wf_inverse in Hm; [|done]. congruence.
Qed.

Lemma assign_node_spec s t n :
  storage_wf s → wf t → 2 <= n < Z.of_nat (length (nodes s)) → node_tile_map s !! n = None →
  ∃ s', assign_node s t n = Some s' ∧ storage_wf s' ∧ frame s s' ∧
        abstract s' = place t n (abstract s).
Proof.
  intros Hs Ht Hn Hfree. unfold assign_node, place, occupy. destruct (is_dead t) eqn:Hd.
  { by exists s. }
  destruct (clear_tile_spec s t Hs Ht) as (s1 & E1 & Hs1 & Hf1 & Ha1 & Htn1 & Hun & _).
  rewrite E1. simpl. apply Hun in Hfree. clear Hun.
  pose proof (frame_length _ _ Hf1) as Hl.
  rewrite is_wire_literal by (simpl; lia). simpl.
  assert (2 <= n < Z.of_nat (length (nodes s1))) as Hn1 by lia.
  assert (tile_node_map s1 !! to_uint64 t = None) as Hempty by by rewrite Htn1, lookup_delete_eq.
  pose proof (insert_maps_wf s1 n t Hs1 Ht Hd Hn1 Hfree Hempty) as Hwf.
  destruct (counts_total (nodes s1) (<[n := to_uint64 t]> (node_tile_map s1))
    (Z.of_nat (length (nodes s1)))) as [Dw Dg].
  { intros m u [[<- _]|[_ Hm]]%lookup_insert_Some; [lia|]. by eapply wf_node. }
  { pose proof (wf_size _ Hs1). lia. }
  rewrite !count_insert, <-?wf_wires, <-?wf_gates in * by done.
  pose proof (wf_size _ Hs1) as Hsz.
  eexists. split; [done|].
  assert (abstract (set_maps (<[to_uint64 t := n]> (tile_node_map s1))
    (<[n := to_uint64 t]> (node_tile_map s1)) s1)
    = Placement (gates (abstract s))
        (<[n := to_uint64 t]> (tiles (remove_tile (to_uint64 t) (abstract s))))) as Ha.
  { rewrite <-Ha1. unfold abstract; simpl. apply (f_equal gates) in Ha1. simpl in Ha1.
    rewrite Ha1. f_equal. rewrite map_filter_insert_True by (simpl; lia). done. }
  unfold counts_as_wire, counts_as_gate in *.
  assert (2 <=? n = true) as H2 by lia. rewrite H2 in *. simpl in *.
  destruct (literal_in (nodes s1) n =? 2); simpl in *; (split_and!; [|etrans; [apply Hf1|by split]|done]);
    rewrite wrap_small by (unfold in_width; lia); by rewrite !Z.add_0_r in Hwf.
Qed.

(** ** New nodes *)

Lemma fresh_unplaced s n :
  storage_wf s → Z.of_nat (length (nodes s)) <= n → node_tile_map s !! n = None.
Proof.
  intros Hs Hn. destruct (node_tile_map s !! n) as [t|] eqn:E; [|done].
  apply wf_node in E; [lia|done].
Qed.

Lemma append_node_wf s d :
  storage_wf s → Z.of_nat (length (nodes s)) < 2 ^ 32 →
  storage_wf (set_nodes (nodes s ++ [d]) s).
Proof.
  intros Hs Hlen. apply set_nodes_wf; [done| |].
  - rewrite length_app. simpl. lia.
  - intros n t Hn. apply wf_node in Hn; [|done].
    unfold literal_in. by rewrite lookup_app_l by lia.
Qed.

Lemma size_length s :
  storage_wf s → Z.of_nat (length (nodes s)) < 2 ^ 32 → size s = Z.of_nat (length (nodes s)).
Proof. intros Hs H. apply wrap_small. unfold in_width. lia. Qed.

Lemma alter_alter {A} (f g h : A → A) (v : list A) i :
  (∀ a, f (g a) = h a) → alter f i (alter g i v) = alter h i v.
Proof.
  intros Hh. apply list_eq. intros j. destruct (decide (i = j)) as [->|].
  - rewrite !list_lookup_alter_eq. by destruct (v !! j); simpl; rewrite ?Hh.
  - by rewrite !list_lookup_alter_ne.
Qed.

Lemma alter_last {A} (f : A → A) (v : list A) a :
  alter f (length v) (v ++ [a]) = v ++ [f a].
Proof.
  apply list_eq. intros i. destruct (decide (i = length v)) as [->|Hi].
  - by rewrite list_lookup_alter_eq, !list_lookup_middle.
  - rewrite list_lookup_alter_ne by done. destruct (decide (i < length v)%nat).
    + by rewrite !lookup_app_l.
    + by rewrite !lookup_ge_None_2 by (rewrite length_app; simpl; lia).
Qed.

(** Giving a child to the node that was created last. *)
Lemma connect_child_spec s n sig :
  storage_wf s → 0 <= n < Z.of_nat (length (nodes s)) →
  ∃ s', connect_child s n sig = Some s' ∧ storage_wf s' ∧ frame s s' ∧
        abstract s' = Placement (alter (λ g, (g.1, g.2 ++ [sig])) (Z.to_nat n) (gates (abstract s)))
                                (tiles (abstract s)).
Proof.
  intros Hs Hn. unfold connect_child, incr_ref.
  destruct (update_node_keeps s (get_node s sig) (set_fanout_word (λ w, wrap 32 (w + 1))))
    as (s1 & E1 & [Hs1 Hf1 Ha1 _ _] & _); [done|by apply get_node_range|done|].
  rewrite E1. simpl.
  destruct (update_node_wf s1 n (set_children (λ cs, cs ++ [sig]))) as
    (s2 & E2 & Hs2 & Hf2 & Hv & _ & Hnt); [done| |done|].
  { rewrite (frame_length _ _ Hf1). done. }
  exists s2. split_and!; [done..|by etrans|]. injection Ha1 as <- <-. unfold abstract; simpl.
  rewrite Hv, Hnt. f_equal. by apply fmap_alter_comm.
Qed.

Context {ML : MockturtleLaws}.

(** A node without children that computes the identity, appended and placed. *)
Lemma emplace_identity_spec s :
  storage_wf s → Z.of_nat (length (nodes s)) < 2 ^ 32 →
  emplace_identity s
    = Some (set_nodes (nodes s ++ [NodeData [] 0 0 2 0]) s, Z.of_nat (length (nodes s))).
Proof.
  intros Hs Hlen. unfold emplace_identity. rewrite size_length by done.
  rewrite update_node_Some by (simpl; rewrite length_app; simpl; lia). simpl.
  by rewrite Nat2Z.id, alter_last, empty_node_zero.
Qed.

(** Placing the node that was appended last. *)
Lemma assign_new_spec s s0 d t :
  storage_wf s0 → Z.of_nat (length (nodes s0)) < 2 ^ 32 → wf t →
  storage_wf s → nodes s = nodes s0 ++ [d] → node_tile_map s = node_tile_map s0 →
  ∃ s', assign_node s t (Z.of_nat (length (nodes s0))) = Some s' ∧ storage_wf s' ∧ frame s s' ∧
        abstract s' = place_new (literal d) (children d) t (abstract s0).
Proof.
  intros Hs0 Hlen Ht Hs Hv Hnt. pose proof (wf_size _ Hs0).
  destruct (assign_node_spec s t (Z.of_nat (length (nodes s0)))) as (s' & E & Hs' & Hf & Ha);
    [done|done| | |].
  - rewrite Hv, length_app. simpl. lia.
  - rewrite Hnt. by apply fresh_unplaced.
  - exists s'. split_and!; [done..|]. rewrite Ha. unfold place_new, abstract; simpl.
    by rewrite Hv, Hnt, fmap_app, length_fmap.
Qed.

(** ** Layouts: operations, their specification, and the invariant *)

Context {L : Type} `{HL : CoordinateLayout L}.

(** The operations that create and move nodes. *)
Inductive operation :=
  | CreatePi (name : string) (t : ucoord_t)
  | CreateRo (name : string) (t : ucoord_t)
  | CreatePo (sig : Z) (name : string) (t : ucoord_t)
  | CreateRi (sig : Z) (name : string) (t : ucoord_t)
  | CreateBuf (a : Z) (t : ucoord_t)
  | CreateNot (a : Z) (t : ucoord_t)
  | CreateAnd (a b : Z) (t : ucoord_t)
  | CreateNand (a b : Z) (t : ucoord_t)
  | CreateOr (a b : Z) (t : ucoord_t)
  | CreateNor (a b : Z) (t : ucoord_t)
  | CreateXor (a b : Z) (t : ucoord_t)
  | CreateXnor (a b : Z) (t : ucoord_t)
  | CreateMaj (a b c : Z) (t : ucoord_t)
  | CreateNode (cs : list Z) (function : truth_table) (t : ucoord_t)
  | MoveNode (n : Z) (t : ucoord_t) (new_children : list Z).

Definition exec (op : operation) (l : gate_level_layout L) : option (gate_level_layout L * Z) :=
  match op with
  | CreatePi name t => create_pi l name t
  | CreateRo name t => create_ro l name t
  | CreatePo sig name t => create_po l sig name t
  | CreateRi sig name t => create_ri l sig name t
  | CreateBuf a t => create_buf l a t
  | CreateNot a t => create_not l a t
  | CreateAnd a b t => create_and l a b t
  | CreateNand a b t => create_nand l a b t
  | CreateOr a b t => create_or l a b t
  | CreateNor a b t => create_nor l a b t
  | CreateXor a b t => create_xor l a b t
  | CreateXnor a b t => create_xnor l a b t
  | CreateMaj a b c t => create_maj l a b c t
  | CreateNode cs f t => create_node l cs f t
  | MoveNode n t cs => move_node l n t cs
  end.

Fixpoint run (ops : list operation) (l : gate_level_layout L) : option (gate_level_layout L) :=
  match ops with
  | [] => Some l
  | op :: ops' => '(l, _) ← exec op l; run ops' l
  end.

(** The abstract state: the placement, the cached functions, and the inputs and outputs. *)
Record layout_spec := LayoutSpec {
  sp_placement : placement;
  sp_cache : truth_table_cache;
  sp_inputs : list Z;
  sp_outputs : list Z;
  sp_pis : Z;
  sp_pos : Z;
  sp_registers : Z;
}.

Definition abstract_layout (l : gate_level_layout L) : layout_spec :=
  LayoutSpec (abstract (strg l)) (fn_cache (strg l)) (inputs (strg l)) (outputs (strg l))
    (inf_num_pis (sequential_inf l)) (inf_num_pos (sequential_inf l)) (num_ros l).

Definition sp_size (a : layout_spec) : Z := Z.of_nat (length (gates (sp_placement a))).

Definition with_placement (p : placement) (a : layout_spec) : layout_spec :=
  LayoutSpec p (sp_cache a) (sp_inputs a) (sp_outputs a) (sp_pis a) (sp_pos a) (sp_registers a).

(** A gate without I/O role. *)
Definition spec_gate (lit : Z) (cs : list Z) (t : ucoord_t) (a : layout_spec) : layout_spec :=
  with_placement (place_new lit cs t (sp_placement a)) a.

Definition spec_exec (op : operation) (a : layout_spec) : layout_spec :=
  let p := sp_placement a in
  match op with
  | CreatePi _ t =>
      LayoutSpec (place_new 2 [] t p) (sp_cache a) (sp_inputs a ++ [sp_size a]) (sp_outputs a)
        (sp_pis a + 1) (sp_pos a) (sp_registers a)
  | CreateRo _ t =>
      LayoutSpec (place_new 2 [] t p) (sp_cache a) (sp_inputs a ++ [sp_size a]) (sp_outputs a)
        (sp_pis a) (sp_pos a) (sp_registers a + 1)
  | CreatePo sig _ t =>
      LayoutSpec (place_new 2 [sig] t p) (sp_cache a) (sp_inputs a)
        (take (Z.to_nat (sp_pos a)) (sp_outputs a) ++
         to_uint64 t :: drop (Z.to_nat (sp_pos a)) (sp_outputs a))
        (sp_pis a) (sp_pos a + 1) (sp_registers a)
  | CreateRi sig _ t =>
      LayoutSpec (place_new 2 [sig] t p) (sp_cache a) (sp_inputs a)
        (sp_outputs a ++ [to_uint64 t]) (sp_pis a) (sp_pos a) (sp_registers a)
  | CreateBuf x t => spec_gate 2 [x] t a
  | CreateNot x t => spec_gate 3 [x] t a
  | CreateAnd x y t => spec_gate 4 [x; y] t a
  | CreateNand x y t => spec_gate 5 [x; y] t a
  | CreateOr x y t => spec_gate 6 [x; y] t a
  | CreateNor x y t => spec_gate 7 [x; y] t a
  | CreateXor x y t => spec_gate 8 [x; y] t a
  | CreateXnor x y t => spec_gate 9 [x; y] t a
  | CreateMaj x y z t => spec_gate 10 [x; y; z] t a
  | CreateNode [] _ _ => a
  | CreateNode cs f t =>
      LayoutSpec (place_new (cache_insert (sp_cache a) f).1 cs t p) (cache_insert (sp_cache a) f).2
        (sp_inputs a) (sp_outputs a) (sp_pis a) (sp_pos a) (sp_registers a)
  | MoveNode n t cs =>
      let old := node_position n p in
      LayoutSpec (relocate n t cs p) (sp_cache a) (sp_inputs a)
        (if is_dead t then filter (λ o, o ≠ to_uint64 old) (sp_outputs a)
         else (λ o, if o =? to_uint64 old then to_uint64 t else o) <$> sp_outputs a)
        (sp_pis a) (sp_pos a) (sp_registers a)
  end.

(** Where the operations are defined: there is a node index left for a new node, a moved node
    exists and is not a constant, and no output is moved off the layout. *)
Definition creatable (t : ucoord_t) (a : layout_spec) : Prop := wf t ∧ sp_size a < 2 ^ 32.

Definition allowed (op : operation) (a : layout_spec) : Prop :=
  match op with
  | CreatePi _ t | CreateRo _ t | CreatePo _ _ t | CreateRi _ _ t | CreateBuf _ t | CreateNot _ t
  | CreateAnd _ _ t | CreateNand _ _ t | CreateOr _ _ t | CreateNor _ _ t | CreateXor _ _ t
  | CreateXnor _ _ t | CreateMaj _ _ _ t | CreateNode _ _ t => creatable t a
  | MoveNode n t _ =>
      wf t ∧ 2 <= n < sp_size a ∧
      (is_dead t = true → to_uint64 (node_position n (sp_placement a)) ∉ sp_outputs a)
  end.

Fixpoint allowed_all (ops : list operation) (a : layout_spec) : Prop :=
  match ops with
  | [] => True
  | op :: ops' => allowed op a ∧ allowed_all ops' (spec_exec op a)
  end.

Record layout_wf (l : gate_level_layout L) : Prop := {
  lw_storage : storage_wf (strg l);
  lw_inputs : Forall (λ n, 2 <= n < Z.of_nat (length (nodes (strg l)))) (inputs (strg l));
  lw_pis : 0 <= inf_num_pis (sequential_inf l) ∧ inf_num_pis (sequential_inf l) + num_ros l = num_cis l;
  lw_pos : 0 <= inf_num_pos (sequential_inf l) <= num_cos l;
  lw_io : num_cis l + num_cos l + 2 <= Z.of_nat (length (nodes (strg l)));
}.

(** ** Refinement of the single operations *)

(** The outcome of an operation that an abstract step describes. *)
Definition implements (l : gate_level_layout L) (r : option (gate_level_layout L * Z))
    (a : layout_spec) : Prop :=
  ∃ l' sig, r = Some (l', sig) ∧ layout_wf l' ∧ abstract_layout l' = a ∧ clocked l' = clocked l.

Lemma sp_size_length l : sp_size (abstract_layout l) = Z.of_nat (length (nodes (strg l))).
Proof. unfold sp_size; simpl. by rewrite length_fmap. Qed.

(** The shape all creations share: the storage is extended by one placed node. *)
Lemma creation_implements l s s' lit cs t q ins outs :
  layout_wf l → creatable t (abstract_layout l) →
  storage_wf s' → frame s s' → length (nodes s) = S (length (nodes (strg l))) →
  inputs s = ins → outputs s = outs →
  abstract s' = place_new lit cs t (abstract (strg l)) →
  (∀ n, n ∈ ins → n ∈ inputs (strg l) ∨ n = Z.of_nat (length (nodes (strg l)))) →
  0 <= inf_num_pis q ∧ inf_num_pis q + Z.of_nat (length (registers q)) = Z.of_nat (length ins) →
  0 <= inf_num_pos q <= Z.of_nat (length outs) →
  Z.of_nat (length ins) + Z.of_nat (length outs) <= num_cis l + num_cos l + 1 →
  implements l (Some (GateLevelLayout (clocked l) s' q, to_uint64 t))
    (LayoutSpec (place_new lit cs t (abstract (strg l))) (fn_cache s) ins outs
       (inf_num_pis q) (inf_num_pos q) (Z.of_nat (length (registers q)))).
Proof.
  intros Hl [Ht Hsz] Hs' Hf Hv <- <- Ha Hins Hp Ho Hio. destruct Hf as [F1 F2 F3 F4 _].
  eexists _, _. split; [done|]. split_and!; [|unfold abstract_layout, num_ros; simpl; by rewrite Ha, F2, F3, F4|done].
  rewrite Hv in F1.
  split; simpl; unfold num_ros, num_cis, num_cos; simpl; rewrite ?F1, ?F2, ?F3; try done.
  - apply Forall_forall. intros n Hn. pose proof (wf_size _ (lw_storage _ Hl)).
    apply Hins in Hn as [Hn| ->]; [|lia].
    pose proof (lw_inputs _ Hl) as HI. rewrite Forall_forall in HI. apply HI in Hn. lia.
  - pose proof (lw_io _ Hl). unfold num_cis, num_cos in *. lia.
Qed.

Lemma storage_wf_ext s s' :
  nodes s' = nodes s → tile_node_map s' = tile_node_map s → node_tile_map s' = node_tile_map s →
  data_num_wires s' = data_num_wires s → data_num_gates s' = data_num_gates s → storage_wf s → storage_wf s'.
Proof. intros E1 E2 E3 E4 E5 []. split; rewrite ?E1, ?E2, ?E3, ?E4, ?E5; done. Qed.

Lemma wf_creatable l t :
  layout_wf l → creatable t (abstract_layout l) →
  wf t ∧ storage_wf (strg l) ∧ Z.of_nat (length (nodes (strg l))) < 2 ^ 32.
Proof. intros Hl [Ht Hsz]. rewrite sp_size_length in Hsz. split_and!; [done|apply Hl|done]. Qed.

(** An appended node with other inputs, outputs, names or cached functions. *)
Lemma appended_wf l s d :
  layout_wf l → Z.of_nat (length (nodes (strg l))) < 2 ^ 32 →
  nodes s = nodes (strg l) ++ [d] → tile_node_map s = tile_node_map (strg l) →
  node_tile_map s = node_tile_map (strg l) →
  data_num_wires s = data_num_wires (strg l) → data_num_gates s = data_num_gates (strg l) → storage_wf s.
Proof.
  intros Hl Hsz E1 E2 E3 E4 E5.
  by apply (storage_wf_ext (set_nodes (nodes (strg l) ++ [d]) (strg l)));
    [..|apply append_node_wf; [apply Hl|]].
Qed.

Lemma create_pi_implements l name t :
  layout_wf l → creatable t (abstract_layout l) →
  implements l (create_pi l name t) (spec_exec (CreatePi name t) (abstract_layout l)).
Proof.
  intros Hl Hc. destruct (wf_creatable _ _ Hl Hc) as (Ht & Hs & Hsz).
  unfold create_pi. rewrite emplace_identity_spec by done. cbn.
  match goal with |- context [assign_node ?s _ _] => set (s1 := s) end.
  destruct (assign_new_spec s1 (strg l) (NodeData [] 0 0 2 0) t) as (s2 & -> & Hs2 & Hf & Ha);
    try done; [by eapply appended_wf|]. cbn.
  pose proof (lw_pis _ Hl) as Hp. pose proof (lw_pos _ Hl) as Hpo. pose proof (lw_io _ Hl) as Hio.
  pose proof (wf_size _ Hs). unfold num_cis, num_cos, num_ros in *.
  assert (wrap 32 (inf_num_pis (sequential_inf l) + 1) = inf_num_pis (sequential_inf l) + 1) as Hw
    by (apply wrap_small; unfold in_width; lia).
  rewrite sp_size_length. unfold num_ros. rewrite <-Hw.
  eapply (creation_implements l s1 s2 2 [] t (incr_num_pis (sequential_inf l)));
    try done; simpl; unfold num_cis, num_cos; rewrite ?length_app; simpl; try lia.
  intros n [?| ->%list_elem_of_singleton]%elem_of_app; auto.
Qed.

Lemma create_ro_implements l name t :
  layout_wf l → creatable t (abstract_layout l) →
  implements l (create_ro l name t) (spec_exec (CreateRo name t) (abstract_layout l)).
Proof.
  intros Hl Hc. destruct (wf_creatable _ _ Hl Hc) as (Ht & Hs & Hsz).
  unfold create_ro. rewrite emplace_identity_spec by done. cbn.
  match goal with |- context [assign_node ?s _ _] => set (s1 := s) end.
  destruct (assign_new_spec s1 (strg l) (NodeData [] 0 0 2 0) t) as (s2 & -> & Hs2 & Hf & Ha);
    try done; [by eapply appended_wf|]. cbn.
  pose proof (lw_pis _ Hl) as Hp. pose proof (lw_pos _ Hl) as Hpo. pose proof (lw_io _ Hl) as Hio.
  unfold num_cis, num_cos, num_ros in *. rewrite sp_size_length. unfold num_ros.
  replace (Z.of_nat (length (registers (sequential_inf l))) + 1)
    with (Z.of_nat (length (registers (add_register (sequential_inf l)))))
    by (simpl; rewrite length_app; simpl; lia).
  eapply (creation_implements l s1 s2 2 [] t (add_register (sequential_inf l)));
    try done; simpl; unfold num_cis, num_cos; rewrite ?length_app; simpl; try lia.
  intros n [?| ->%list_elem_of_singleton]%elem_of_app; auto.
Qed.

(** Placing a new node and then giving it a child. *)
Lemma assign_connect_spec l s t sig :
  layout_wf l → Z.of_nat (length (nodes (strg l))) < 2 ^ 32 → wf t →
  storage_wf s → nodes s = nodes (strg l) ++ [NodeData [] 0 0 2 0] →
  node_tile_map s = node_tile_map (strg l) →
  ∃ s', (s1 ← assign_node s t (Z.of_nat (length (nodes (strg l))));
         connect_child s1 (Z.of_nat (length (nodes (strg l)))) sig) = Some s' ∧
        storage_wf s' ∧ frame s s' ∧ abstract s' = place_new 2 [sig] t (abstract (strg l)).
Proof.
  intros Hl Hsz Ht Hs Hv Hnt.
  destruct (assign_new_spec s (strg l) (NodeData [] 0 0 2 0) t) as (s1 & -> & Hs1 & Hf & Ha);
    try done; [apply Hl|].
  destruct (connect_child_spec s1 (Z.of_nat (length (nodes (strg l)))) sig)
    as (s2 & E & Hs2 & Hf2 & Ha2); [done| |].
  { rewrite (frame_length _ _ Hf), Hv, length_app. simpl. lia. }
  exists s2. split_and!; [done..|by etrans|]. rewrite Ha2, Ha. unfold place_new, place; simpl.
  by rewrite Nat2Z.id, length_fmap, <-(length_fmap node_gate (nodes (strg l))), alter_last.
Qed.

Lemma create_po_implements l sig name t :
  layout_wf l → creatable t (abstract_layout l) →
  implements l (create_po l sig name t) (spec_exec (CreatePo sig name t) (abstract_layout l)).
Proof.
  intros Hl Hc. destruct (wf_creatable _ _ Hl Hc) as (Ht & Hs & Hsz).
  pose proof (lw_pis _ Hl) as Hp. pose proof (lw_pos _ Hl) as Hpo. pose proof (lw_io _ Hl) as Hio.
  unfold num_cis, num_cos, num_ros in *.
  unfold create_po. rewrite emplace_identity_spec by done. cbn.
  unfold vec_insert. rewrite decide_True by lia. cbn.
  match goal with |- context [assign_node ?s _ _] => set (s1 := s) end.
  destruct (assign_connect_spec l s1 t sig) as (s2 & E & Hs2 & Hf & Ha);
    try done; [by eapply appended_wf|].
  destruct (assign_node _ _ _) as [s1'|]; [|done]. cbn in E |- *. rewrite E. cbn.
  assert (wrap 32 (inf_num_pos (sequential_inf l) + 1) = inf_num_pos (sequential_inf l) + 1) as Hw
    by (apply wrap_small; unfold in_width; lia).
  unfold num_ros. rewrite <-Hw.
  match goal with |- context [take ?k ?v ++ ?o :: ?d] =>
    assert (length (take k v ++ o :: d) = S (length v)) as Hlen
      by (rewrite length_app; simpl; rewrite length_take, length_drop; lia) end.
  eapply (creation_implements l s1 s2 2 [sig] t (incr_num_pos (sequential_inf l)));
    try done; simpl; unfold num_cis, num_cos; rewrite ?Hlen, ?length_app; simpl; auto; lia.
Qed.

Lemma create_ri_implements l sig name t :
  layout_wf l → creatable t (abstract_layout l) →
  implements l (create_ri l sig name t) (spec_exec (CreateRi sig name t) (abstract_layout l)).
Proof.
  intros Hl Hc. destruct (wf_creatable _ _ Hl Hc) as (Ht & Hs & Hsz).
  pose proof (lw_pis _ Hl) as Hp. pose proof (lw_pos _ Hl) as Hpo. pose proof (lw_io _ Hl) as Hio.
  unfold num_cis, num_cos, num_ros in *.
  unfold create_ri. rewrite emplace_identity_spec by done. cbn.
  match goal with |- context [assign_node ?s _ _] => set (s1 := s) end.
  destruct (assign_connect_spec l s1 t sig) as (s2 & E & Hs2 & Hf & Ha);
    try done; [by eapply appended_wf|].
  destruct (assign_node _ _ _) as [s1'|]; [|done]. cbn in E |- *. rewrite E. cbn.
  unfold num_ros.
  eapply (creation_implements l s1 s2 2 [sig] t (sequential_inf l));
    try done; simpl; unfold num_cis, num_cos; rewrite ?length_app; simpl; auto; lia.
Qed.

(** All gates are created by [create_node_from_literal]. *)
Lemma create_from_literal_implements l c cs lit t :
  layout_wf l → creatable t (abstract_layout l) →
  implements l (create_node_from_literal (set_strg (set_fn_cache c (strg l)) l) cs lit t)
    (LayoutSpec (place_new lit cs t (abstract (strg l))) c (inputs (strg l)) (outputs (strg l))
      (inf_num_pis (sequential_inf l)) (inf_num_pos (sequential_inf l)) (num_ros l)).
Proof.
  intros Hl Hc. destruct (wf_creatable _ _ Hl Hc) as (Ht & Hs & Hsz).
  pose proof (lw_pis _ Hl) as Hp. pose proof (lw_pos _ Hl) as Hpo. pose proof (lw_io _ Hl) as Hio.
  unfold create_node_from_literal. rewrite empty_node_zero. cbn.
  replace (size (set_fn_cache c (strg l))) with (Z.of_nat (length (nodes (strg l))))
    by by rewrite <-size_length.
  match goal with |- context [for_each _ ?s _] => set (s1 := s) end.
  assert (storage_wf s1) as Hs1 by by eapply appended_wf.
  destruct (incr_refs_keeps s1 cs Hs1) as (s2 & -> & [Hs2 Hf2 Ha2 _ Hnt2]). cbn.
  unfold set_value.
  destruct (update_node_keeps s2 (Z.of_nat (length (nodes (strg l))))
    (set_node_value (λ _, wrap 32 0))) as (s3 & -> & [Hs3 Hf3 Ha3 _ Hnt3] & _); [done| |done|].
  { rewrite (frame_length _ _ Hf2). simpl. rewrite length_app. simpl. lia. }
  cbn. destruct (assign_node_spec s3 t (Z.of_nat (length (nodes (strg l)))))
    as (s4 & -> & Hs4 & Hf4 & Ha4); [done..| | |].
  { rewrite (frame_length _ _ Hf3), (frame_length _ _ Hf2). simpl. rewrite length_app.
    simpl. pose proof (wf_size _ Hs). lia. }
  { rewrite Hnt3, Hnt2. by apply (fresh_unplaced (strg l)). }
  cbn. eapply (creation_implements l s1 s4 lit cs t (sequential_inf l)); try done;
    simpl; unfold num_cis, num_cos, num_ros in *; rewrite ?length_app; simpl; auto; try lia.
  - etrans; [done|]. by etrans.
  - rewrite Ha4, Ha3, Ha2. unfold place_new, place, abstract, s1; simpl.
    by rewrite fmap_app, length_fmap.
Qed.

Lemma create_gate_implements l cs lit t :
  layout_wf l → creatable t (abstract_layout l) →
  implements l (create_node_from_literal l cs lit t) (spec_gate lit cs t (abstract_layout l)).
Proof.
  intros Hl Hc. pose proof (create_from_literal_implements l (fn_cache (strg l)) cs lit t Hl Hc) as H.
  replace (set_strg (set_fn_cache (fn_cache (strg l)) (strg l)) l) with l in H
    by by destruct l as [? [] ?].
  exact H.
Qed.

Lemma create_node_implements l cs f t :
  layout_wf l → creatable t (abstract_layout l) →
  implements l (create_node l cs f t) (spec_exec (CreateNode cs f t) (abstract_layout l)).
Proof.
  intros Hl Hc. destruct cs as [|c cs].
  - exists l, (get_constant (negb (is_const0 f))). by split_and!.
  - by apply create_from_literal_implements.
Qed.

(** ** Moving nodes *)

Lemma tiles_lookup s n :
  2 <= n → tiles (abstract s) !! n = node_tile_map s !! n.
Proof.
  intros Hn. simpl. apply option_eq. intros t. rewrite map_lookup_filter_Some; simpl. naive_solver.
Qed.

(** Nodes and tiles are inverse. *)
Lemma get_node_tiles s o n :
  storage_wf s → 2 <= n → get_node s o = n ↔ tiles (abstract s) !! n = Some o.
Proof.
  intros Hs Hn. rewrite tiles_lookup by done. rewrite <-wf_inverse by done. unfold get_node.
  destruct (tile_node_map s !! o); simpl; split; intros E; simplify_eq; done || lia.
Qed.

Lemma get_tile_position s n : 2 <= n → get_tile s n = node_position n (abstract s).
Proof. intros Hn. unfold get_tile, node_position. by rewrite tiles_lookup. Qed.

Lemma get_tile_wf s n : wf (get_tile s n).
Proof. unfold get_tile. case_match; [apply of_uint64_wf|by vm_compute]. Qed.

Lemma get_tile_signal s n t :
  storage_wf s → node_tile_map s !! n = Some t → t = to_uint64 (get_tile s n).
Proof. intros Hs Hn. unfold get_tile. rewrite Hn, to_of_uint64; [done|by eapply wf_tile]. Qed.

(** Clearing the tile of a node removes exactly that node. *)
Lemma remove_position s n :
  storage_wf s → 2 <= n →
  tiles (remove_tile (to_uint64 (get_tile s n)) (abstract s)) = delete n (tiles (abstract s)).
Proof.
  intros Hs Hn. apply map_eq. intros m. apply option_eq. intros t. simpl.
  rewrite lookup_delete_Some, !map_lookup_filter_Some; simpl.
  destruct (node_tile_map s !! n) as [u|] eqn:E.
  - pose proof (get_tile_signal _ _ _ Hs E) as <-. split.
    + intros [[H Hm] Hne]. split_and!; try done. intros ->. congruence.
    + intros [Hne [H Hm]]. split_and!; try done. intros ->.
      apply wf_inverse in H, E; [|done..]. congruence.
  - split.
    + intros [[H Hm] Hne]. split_and!; try done. intros ->. congruence.
    + intros [Hne [H Hm]]. split_and!; try done. intros ->.
      unfold get_tile in H. rewrite E in H. pose proof (wf_dead _ Hs _ _ H) as Hd.
      rewrite of_to_uint64 in Hd by by vm_compute.
      change (is_dead ucoord_default) with true in Hd. symmetry in Hd. apply Z.leb_le in Hd. lia.
Qed.

(** The placement part of a move to another tile. *)
Lemma replace_tile_spec s n t :
  storage_wf s → wf t → 2 <= n < Z.of_nat (length (nodes s)) →
  ∃ s', (s1 ← clear_tile s (get_tile s n); s2 ← assign_node s1 t n; revive_node s2 n) = Some s' ∧
        storage_wf s' ∧ frame s s' ∧
        abstract s' = place t n (Placement (gates (abstract s)) (delete n (tiles (abstract s)))).
Proof.
  intros Hs Ht Hn.
  destruct (clear_tile_spec s (get_tile s n) Hs (get_tile_wf s n))
    as (s1 & -> & Hs1 & Hf1 & Ha1 & _ & Hnone & Hsome). simpl mbind.
  destruct (assign_node_spec s1 t n Hs1 Ht) as (s2 & E2 & Hs2 & Hf2 & Ha2).
  { by rewrite (frame_length _ _ Hf1). }
  { destruct (node_tile_map s !! n) as [u|] eqn:E; [|by apply Hnone].
    apply Hsome. rewrite E. f_equal. by apply get_tile_signal. }
  rewrite E2. simpl mbind.
  destruct (revive_node_keeps s2 n Hs2) as (s3 & E3 & [Hs3 Hf3 Ha3 _ _]).
  { rewrite (frame_length _ _ Hf2), (frame_length _ _ Hf1). lia. }
  exists s3. split_and!; [done..| |].
  - etrans; [done|]. by etrans.
  - rewrite Ha3, Ha2, Ha1. unfold place. f_equal.
    change (gates (Placement ?g ?m)) with g. change (tiles (Placement ?g ?m)) with m.
    by rewrite remove_position by first [done|lia].
Qed.

(** Changing the children of a node. *)
Lemma update_children_spec s n f :
  storage_wf s → 0 <= n < Z.of_nat (length (nodes s)) →
  ∃ s', update_node s n (set_children f) = Some s' ∧ storage_wf s' ∧ frame s s' ∧
        abstract s' = Placement (alter (λ g, (g.1, f g.2)) (Z.to_nat n) (gates (abstract s)))
                                (tiles (abstract s)) ∧
        node_tile_map s' = node_tile_map s.
Proof.
  intros Hs Hn. destruct (update_node_wf s n (set_children f)) as (s' & E & Hs' & Hf & Hv & _ & Hnt);
    [done..|]. exists s'. split_and!; [done..| |done]. unfold abstract; simpl.
  rewrite Hv, Hnt. f_equal. by apply fmap_alter_comm.
Qed.

Lemma get_tile_ext s s' n : node_tile_map s' = node_tile_map s → get_tile s' n = get_tile s n.
Proof. intros E. unfold get_tile. by rewrite E. Qed.

(** The storage part of [move_node], up to the update of the outputs. *)
Lemma relocate_spec s n t cs :
  storage_wf s → wf t → 2 <= n < Z.of_nat (length (nodes s)) →
  ∃ s', (d ← vec_at (nodes s) n; s1 ← for_each decr_ref s (children d);
         s2 ← update_node s1 n (set_children (λ _, []));
         s3 ← (if neqb t (get_tile s n)
               then s3 ← clear_tile s2 (get_tile s n); s3 ← assign_node s3 t n; revive_node s3 n
               else Some s2);
         s4 ← update_node s3 n (set_children (λ v, v ++ cs)); for_each incr_ref s4 cs) = Some s' ∧
        storage_wf s' ∧ frame s s' ∧ abstract s' = relocate n t cs (abstract s).
Proof.
  intros Hs Ht Hn. destruct (vec_at_lookup (nodes s) n) as (d & -> & _); [lia|]. simpl mbind.
  destruct (decr_refs_keeps s (children d) Hs) as (s1 & -> & [Hs1 Hf1 Ha1 _ Hnt1]). simpl mbind.
  destruct (update_children_spec s1 n (λ _, []) Hs1) as (s2 & -> & Hs2 & Hf2 & Ha2 & Hnt2).
  { rewrite (frame_length _ _ Hf1). lia. }
  simpl mbind. rewrite Ha1 in Ha2. rewrite Hnt1 in Hnt2.
  pose proof (transitivity Hf1 Hf2) as Hf12. clear Hf1 Hf2 Hs1 Ha1 Hnt1 s1.
  assert (∃ s3, (if neqb t (get_tile s n)
      then s3 ← clear_tile s2 (get_tile s n); s3 ← assign_node s3 t n; revive_node s3 n
      else Some s2) = Some s3 ∧ storage_wf s3 ∧ frame s2 s3 ∧
      abstract s3 = if decide (t = node_position n (abstract s)) then abstract s2
        else place t n (Placement (gates (abstract s2)) (delete n (tiles (abstract s2)))))
    as (s3 & -> & Hs3 & Hf3 & Ha3).
  { unfold neqb. rewrite eqb_spec, get_tile_position by lia.
    destruct (decide _) as [He|Hne]; [rewrite bool_decide_true by done|rewrite bool_decide_false by done];
      simpl negb; cbv iota; [by exists s2|].
    rewrite <-get_tile_position, <-(get_tile_ext s s2) by first [done|lia].
    apply replace_tile_spec; [done..|]. by rewrite (frame_length _ _ Hf12). }
  simpl mbind. pose proof (transitivity Hf12 Hf3) as Hf13. clear Hf12 Hf3.
  destruct (update_children_spec s3 n (λ v, v ++ cs) Hs3) as (s4 & -> & Hs4 & Hf4 & Ha4 & _).
  { rewrite (frame_length _ _ Hf13). lia. }
  simpl mbind. destruct (incr_refs_keeps s4 cs Hs4) as (s5 & -> & [Hs5 Hf5 Ha5 _ _]).
  exists s5. split_and!; [done..| |].
  - etrans; [done|]. by etrans.
  - rewrite Ha5, Ha4, Ha3, Ha2. unfold relocate.
    destruct (decide _); unfold place; cbn [gates tiles]; f_equal;
      by apply alter_alter.
Qed.

(** [move_node] is the relocation followed by the update of the outputs. *)
Lemma move_node_split (l : gate_level_layout L) n t cs s' :
  (d ← vec_at (nodes (strg l)) n; s1 ← for_each decr_ref (strg l) (children d);
   s2 ← update_node s1 n (set_children (λ _, []));
   s3 ← (if neqb t (get_tile (strg l) n)
         then s3 ← clear_tile s2 (get_tile (strg l) n); s3 ← assign_node s3 t n; revive_node s3 n
         else Some s2);
   s4 ← update_node s3 n (set_children (λ v, v ++ cs)); for_each incr_ref s4 cs) = Some s' →
  let old := to_uint64 (get_tile (strg l) n) in
  move_node l n t cs =
    Some (set_strg (if is_dead t then set_outputs (filter (λ o, o ≠ old) (outputs s')) s'
                    else if neqb t (get_tile (strg l) n)
                    then set_outputs ((λ o, if o =? old then to_uint64 t else o) <$> outputs s') s'
                    else s') l, to_uint64 t).
Proof.
  intros E old. unfold move_node. fold old. simpl in *.
  repeat match type of E with
  | mbind _ ?x = Some _ =>
      let H := fresh in destruct x eqn:H; [simpl in E |- *|discriminate E]
  end. rewrite E. done.
Qed.

Lemma filter_absent (o : Z) (v : list Z) : o ∉ v → filter (λ x, x ≠ o) v = v.
Proof.
  induction v as [|a v IH]; [done|]. rewrite not_elem_of_cons, filter_cons. intros [Ha Hv].
  rewrite decide_True by done. by rewrite IH.
Qed.

Lemma replace_same (o : Z) (v : list Z) : (λ x, if x =? o then o else x) <$> v = v.
Proof.
  apply list_eq. intros i. rewrite list_lookup_fmap. destruct (v !! i) as [x|]; [|done]. simpl.
  destruct (Z.eqb_spec x o); by simplify_eq.
Qed.

Lemma move_node_implements l n t cs :
  layout_wf l → allowed (MoveNode n t cs) (abstract_layout l) →
  implements l (move_node l n t cs) (spec_exec (MoveNode n t cs) (abstract_layout l)).
Proof.
  intros Hl (Ht & Hn & Hout). rewrite sp_size_length in Hn.
  pose proof (lw_storage _ Hl) as Hs.
  destruct (relocate_spec (strg l) n t cs Hs Ht Hn) as (s' & E & Hs' & Hf & Ha).
  rewrite (move_node_split l n t cs s' E). clear E.
  rewrite get_tile_position in * by lia. simpl in Hout |- *.
  set (old := to_uint64 (node_position n (abstract (strg l)))) in *.
  destruct Hf as [F1 F2 F3 F4 _].
  assert (∃ outs, (if is_dead t then set_outputs (filter (λ o, o ≠ old) (outputs s')) s'
      else if neqb t (node_position n (abstract (strg l)))
      then set_outputs ((λ o, if o =? old then to_uint64 t else o) <$> outputs s') s'
      else s') = set_outputs outs s' ∧ length outs = length (outputs (strg l)) ∧
      outs = if is_dead t then filter (λ o, o ≠ old) (outputs (strg l))
        else (λ o, if o =? old then to_uint64 t else o) <$> outputs (strg l))
    as (outs & -> & Hlen & <-).
  { rewrite F3. destruct (is_dead t).
    - eexists. split_and!; [done| |done]. by rewrite filter_absent by auto.
    - destruct (neqb t (node_position n (abstract (strg l)))) eqn:Hne.
      + eexists. split_and!; [done| |done]. by rewrite length_fmap.
      + apply neqb_false in Hne. unfold old. rewrite <-Hne, replace_same, <-F3.
        eexists. split_and!; [|done|done]. by destruct s'. }
  eexists _, _. split; [done|]. split_and!; [|unfold abstract_layout; simpl|done].
  - destruct Hl as [_ HI Hp Ho Hio]. split; simpl; unfold num_cis, num_cos, num_ros in *; simpl;
      rewrite ?F1, ?F2, ?Hlen; try done.
    by apply (storage_wf_ext s').
  - change (abstract (set_outputs outs s')) with (abstract s'). by rewrite Ha, F2, F4.
Qed.

(** Every operation. *)
Lemma exec_implements l op :
  layout_wf l → allowed op (abstract_layout l) →
  implements l (exec op l) (spec_exec op (abstract_layout l)).
Proof.
  intros Hl Hop. destruct op; simpl exec;
    first [ by apply create_pi_implements | by apply create_ro_implements
          | by apply create_po_implements | by apply create_ri_implements
          | by apply create_node_implements | by apply move_node_implements
          | by apply create_gate_implements ].
Qed.

Lemma run_implements l ops :
  layout_wf l → allowed_all ops (abstract_layout l) →
  ∃ l', run ops l = Some l' ∧ layout_wf l' ∧ clocked l' = clocked l ∧
        abstract_layout l' = foldl (λ a op, spec_exec op a) (abstract_layout l) ops.
Proof.
  revert l. induction ops as [|op ops IH]; intros l Hl Hops; [by exists l|].
  destruct Hops as [Hop Hops].
  destruct (exec_implements l op Hl Hop) as (l1 & sig & E & Hl1 & Ha & Hc).
  rewrite <-Ha in Hops. destruct (IH l1 Hl1 Hops) as (l2 & E2 & Hl2 & Hc2 & Ha2).
  exists l2. simpl. rewrite E. simpl. split_and!; [done..|congruence|]. by rewrite Ha2, Ha.
Qed.

(** ** The initial layout *)

Definition empty_spec (c : truth_table_cache) : layout_spec :=
  LayoutSpec (Placement [(0, []); (1, [])] ∅) c [] [] 0 0 0.

Lemma make_spec (cl : clocked_layout L) name :
  ∃ l, make cl name = Some l ∧ layout_wf l ∧ clocked l = cl ∧
       abstract_layout l = empty_spec (fn_cache (strg l)).
Proof.
  unfold make, initialize_truth_table_cache, new_storage.
  rewrite initial_nodes_one, empty_node_zero. cbn.
  eexists. split; [done|]. split_and!; [|done|].
  - split; simpl; unfold num_cis, num_cos; simpl; try done.
    split; simpl; try done.
    + intros t n. rewrite !lookup_insert_Some, !lookup_empty. naive_solver.
    + intros n t. rewrite !lookup_insert_Some, lookup_empty. naive_solver lia.
    + intros n t. rewrite !lookup_insert_Some, lookup_empty.
      intros [[<- <-]|[_ [[<- <-]|[_ ?]]]]; [by vm_compute|by vm_compute|done].
    + intros n t. rewrite !lookup_insert_Some, lookup_empty.
      intros [[<- <-]|[_ [[<- <-]|[_ ?]]]]; [done|done|done].
  - unfold abstract_layout, empty_spec; simpl. f_equal.
Qed.
End Invariant.
