(* ===== verification/GateLevelDataFlow.v ===== *)
(** * Data flow of gate-level layouts

    What [incoming_data_flow] and [outgoing_data_flow] of [GateLevelLayout.v] compute, and that
    they are converse to each other when the clocking does not depend on the layer. *)

From S2P Require Import Prelude.
From S2P Require Import Coordinates.
From S2P Require Import CoordinateLayout.
From S2P Require Import CartesianLayout.
From S2P Require Import ClockingScheme.
From S2P Require Import ClockedLayout.
From S2P Require Import GateLevelLayout.
From S2P Require Import GateLevelInvariant.
#[local] Open Scope Z_scope.
Import Offset.
Import Clocked.
Import GateLevel.

(** ** Layers *)

Lemma set_z_id c : in_width 1 (uz c) → set_z c (uz c) = c.
Proof. intros H. destruct c. unfold set_z; simpl in *. by rewrite wrap_small. Qed.

Lemma set_z_set_z c i j : set_z (set_z c i) j = set_z c j.
Proof. done. Qed.

Lemma inside_layer ar c : proper_dimension ar → inside ar c → in_width 1 (uz c).
Proof.
  intros Har Hc. pose proof (proper_dimension_bounds _ Har). unfold inside in Hc.
  unfold in_width. lia.
Qed.

Lemma inside_coordinate_wf ar c : proper_dimension ar → inside ar c → wf c.
Proof.
  intros Har Hc. pose proof (proper_dimension_bounds _ Har). unfold inside in Hc.
  unfold wf, in_width. lia.
Qed.

Lemma layer_inside ar c k : inside ar c → 0 <= k <= uz ar → k < 2 → inside ar (set_z c k).
Proof.
  intros Hc Hk H2. unfold inside, set_z in *; simpl. rewrite wrap_small by (unfold in_width; lia). lia.
Qed.

Lemma layer_inside_of ar c d :
  proper_dimension ar → inside ar c → inside ar d → inside ar (set_z c (uz d)).
Proof.
  intros Har Hc Hd. pose proof (proper_dimension_bounds _ Har).
  apply layer_inside; [done|..]; unfold inside in Hd; lia.
Qed.

Section Layers.
Context `{Laws : CoordinateLayoutLaws L}.
Variable l : L.
Hypothesis Hl : representable l.

(** On at most two layers, a position and its elevations are all coordinates above or below it. *)
Lemma elem_of_elevations c a :
  inside (dimension l) c → inside (dimension l) a → a ∈ elevations l c ↔ set_z a (uz c) = c.
Proof using Hl Laws.
  intros Hc Ha. pose proof (proper_dimension_bounds _ (representable_proper _ Hl)).
  assert (∀ k, 0 <= k <= uz (dimension l) → inside (dimension l) (set_z c k)) as Hk
    by (intros; apply layer_inside; [done|lia|lia]).
  assert (inside (dimension l) (above l c) ∧ inside (dimension l) (below l c)) as [Hab Hbe].
  { rewrite above_spec, below_spec by done. unfold inside in Hc.
    split; case_match; try done; apply Hk; lia. }
  unfold elevations. rewrite (elem_of_set_of_list _ (inside (dimension l))).
  2:{ intros ??. by apply ltb_total_inside, representable_proper. }
  2:{ rewrite !Forall_cons; done. }
  rewrite !elem_of_cons, elem_of_nil, above_spec, below_spec by done.
  pose proof (inside_layer _ _ (representable_proper _ Hl) Hc) as Wc.
  pose proof (inside_layer _ _ (representable_proper _ Hl) Ha) as Wa.
  split.
  - intros [-> |[-> |[-> |[]]]]; [by apply set_z_id|..]; case_match; try by apply set_z_id.
    all: rewrite set_z_set_z; by apply set_z_id.
  - intros E. clear Hab Hbe Hk. destruct a as [da za ya xa], c as [dc zc yc xc].
    unfold set_z, inside, in_width in *; simpl in *. injection E as <- _ <- <-.
    destruct (decide (za = zc)) as [->|]; [by left|right].
    destruct (decide (za < zc)).
    + right. left. assert (zc =? 0 = false) as -> by lia. f_equal.
      rewrite wrap_small by (unfold in_width; lia). lia.
    + left. assert (zc <? uz (dimension l) = true) as -> by lia. f_equal.
      rewrite wrap_small by (unfold in_width; lia). lia.
Qed.
End Layers.

(** ** The containers *)

Section Containers.
Context `{Laws : CoordinateLayoutLaws L}.
Variable cl : clocked_layout L.
Abbreviation ar := (dimension (coordinate_layout cl)).
Hypothesis Hcl : representable (coordinate_layout cl).
Variables (pred : ucoord_t → option bool) (p : ucoord_t → bool).
Hypothesis Hpred : ∀ a, pred a = Some (p a).

Lemma copy_if_set_spec v df :
  Forall (inside ar) v → Forall (inside ar) df →
  ∃ r, copy_if_set pred v df = Some r ∧ Forall (inside ar) r ∧
       ∀ b, b ∈ r ↔ b ∈ df ∨ b ∈ v ∧ p b = true.
Proof using Hcl Hpred.
  intros Hv. revert df. induction Hv as [|a v Ha Hv IH]; intros df Hdf; simpl.
  { exists df. split_and!; [done..|]. intros b. rewrite elem_of_nil. tauto. }
  rewrite Hpred. simpl.
  assert (∀ b, b ∈ set_insert ltb a df ↔ b = a ∨ b ∈ df) as Hins.
  { intros b. apply (elem_of_set_insert _ (inside ar)); [|done..].
    intros ??. by apply ltb_total_inside, representable_proper. }
  destruct (IH (if p a then set_insert ltb a df else df)) as (r & -> & Hr & Hb).
  { destruct (p a); [|done]. rewrite Forall_forall in *. intros b [->|Hb]%Hins; auto. }
  exists r. split_and!; [done..|]. intros b. rewrite Hb, elem_of_cons.
  destruct (p a) eqn:Hpa; [rewrite Hins|];
    split; [intros [[->|?]|[? ?]]|intros [?|[[->|?] ?]]|intros [?|[? ?]]|intros [?|[[->|?] ?]]];
    auto; congruence.
Qed.

Lemma collect_data_flow_spec zones df :
  Forall (inside ar) zones → Forall (inside ar) df →
  ∃ r, collect_data_flow cl pred zones df = Some r ∧ Forall (inside ar) r ∧
       ∀ b, inside ar b → b ∈ r ↔
         b ∈ df ∨ p b = true ∧ ∃ zone, zone ∈ zones ∧ set_z b (uz zone) = zone.
Proof using Hcl Hpred Laws.
  intros Hz. revert df. induction Hz as [|a zones Ha Hz IH]; intros df Hdf; simpl.
  { exists df. split_and!; [done..|]. intros b _. set_solver. }
  destruct (copy_if_set_spec (elevations (coordinate_layout cl) a) df) as (r & -> & Hr & Hb);
    [|done|].
  { apply Forall_forall. intros b Hb%elem_of_set_of_list_1.
    rewrite !elem_of_cons, elem_of_nil, above_spec, below_spec in Hb by done.
    pose proof (proper_dimension_bounds _ (representable_proper _ Hcl)). unfold inside in Ha.
    destruct Hb as [->|[->|[->|[]]]]; [done|..]; case_match; try done; apply layer_inside; try done; lia. }
  simpl. destruct (IH r Hr) as (r' & -> & Hr' & Hb'). exists r'. split_and!; [done..|].
  intros b Hin. rewrite Hb', Hb, elem_of_elevations by done. set_solver.
Qed.
End Containers.

(** ** The data flow of a layout *)

Section DataFlow.
Context `{MT : Mockturtle} `{Laws : CoordinateLayoutLaws L}.
Variable l : gate_level_layout L.
Abbreviation cl := (clocked l).
Abbreviation ar := (dimension (coordinate_layout (clocked l))).
Hypothesis Hs : storage_wf (strg l).
Hypothesis Hcl : representable (coordinate_layout cl).
Hypothesis Hscheme : scheme_wf (clocking (clocked l)).

(** The node on tile [b] has the signal of tile [a] among its children. *)
Definition has_child (s : storage) (b a : ucoord_t) : Prop :=
  ∃ d, nodes s !! Z.to_nat (get_node_at s b) = Some d ∧ to_uint64 a ∈ children d.

Lemma found_spec a v : found a v = true ↔ a ∈ v.
Proof.
  unfold found. rewrite existsb_exists. split.
  - intros (b & Hb & ->%Z.eqb_eq). by apply list_elem_of_In.
  - intros Ha%list_elem_of_In. exists a. split; [done|apply Z.eqb_refl].
Qed.

Definition child_test (s : storage) (b a : ucoord_t) : bool :=
  match nodes s !! Z.to_nat (get_node_at s b) with
  | Some d => found (to_uint64 a) (children d)
  | None => false
  end.

Lemma child_test_spec s b a : child_test s b a = true ↔ has_child s b a.
Proof.
  unfold child_test, has_child. split.
  - case_match; [|done]. intros ?%found_spec. eauto.
  - intros (d & -> & Hd). by apply found_spec.
Qed.

Lemma is_child_total b a :
  is_child (strg l) (get_node_at (strg l) b) (to_uint64 a) = Some (child_test (strg l) b a).
Proof using Hs.
  destruct (vec_at_lookup (nodes (strg l)) (get_node_at (strg l) b)) as (d & H1 & H2).
  { by apply get_node_range. }
  unfold is_child, child_test. by rewrite H1, H2.
Qed.

Lemma zones_inside (v : list ucoord_t) b :
  inside ar b → (∀ a, a ∈ v → a ∈ adjacent_coordinates (coordinate_layout cl) b) →
  Forall (inside ar) v ∧ ∀ a, a ∈ v → uz a = uz b.
Proof using Hcl Laws.
  intros Hb Hv. rewrite Forall_forall.
  split; intros a Ha%Hv; by eapply (adjacent_inside _ b) in Ha as (? & ? & _).
Qed.

(** The tiles that feed [b]: those of its children that lie above, below or on a zone next to [b]
    whose clock number precedes that of [b]. *)
Lemma incoming_data_flow_spec b :
  inside ar b →
  ∃ v, incoming_data_flow l b = Some v ∧ Forall (inside ar) v ∧
    ∀ a, inside ar a → a ∈ v ↔
      has_child (strg l) b a ∧ set_z a (uz b) ∈ adjacent_coordinates (coordinate_layout cl) b ∧
      (get_clock_number cl (set_z a (uz b)) + 1) mod num_clocks cl = get_clock_number cl b.
Proof using All.
  intros Hb. unfold incoming_data_flow.
  assert (∀ a, a ∈ incoming_clocked_zones_set cl b ↔
    a ∈ adjacent_coordinates (coordinate_layout cl) b ∧
    (get_clock_number cl a + 1) mod num_clocks cl = get_clock_number cl b) as Hz.
  { intros a. rewrite elem_of_incoming_set, elem_of_incoming, incoming_outgoing_dual by done.
    rewrite is_outgoing_clocked_spec by done. split; [tauto|]. intros [Ha Hc].
    split_and!; [|done|done]. by eapply (adjacent_inside _ b) in Ha as (_ & _ & ?). }
  destruct (zones_inside (incoming_clocked_zones_set cl b) b Hb) as [Hi Huz].
  { intros a [Ha _]%Hz. done. }
  destruct (collect_data_flow_spec cl Hcl _ _ (is_child_total b) _ [] Hi) as (v & E & Hv & Helem);
    [done|]. exists v. split_and!; [done..|]. intros a Ha. rewrite Helem, elem_of_nil by done.
  rewrite child_test_spec. split.
  - intros [[]|(Hch & zone & Hzone & Ez)]. rewrite (Huz _ Hzone) in Ez. subst zone.
    apply Hz in Hzone. tauto.
  - intros (Hch & Hadj & Hclk). right. split; [done|].
    assert (set_z a (uz b) ∈ incoming_clocked_zones_set cl b) as Hin by by apply Hz.
    exists (set_z a (uz b)). split; [done|]. by rewrite (Huz _ Hin).
Qed.

(** The tiles that accept information from [a]. *)
Lemma outgoing_data_flow_spec a :
  inside ar a →
  ∃ v, outgoing_data_flow l a = Some v ∧ Forall (inside ar) v ∧
    ∀ b, inside ar b → b ∈ v ↔
      has_child (strg l) b a ∧ set_z b (uz a) ∈ adjacent_coordinates (coordinate_layout cl) a ∧
      (get_clock_number cl a + 1) mod num_clocks cl = get_clock_number cl (set_z b (uz a)).
Proof using All.
  intros Hb. unfold outgoing_data_flow.
  assert (∀ b, b ∈ outgoing_clocked_zones_set cl a ↔
    b ∈ adjacent_coordinates (coordinate_layout cl) a ∧
    (get_clock_number cl a + 1) mod num_clocks cl = get_clock_number cl b) as Hz.
  { intros b. rewrite elem_of_outgoing_set, elem_of_outgoing by done.
    rewrite is_outgoing_clocked_spec by done. split; [tauto|]. intros [Ha Hc].
    split_and!; [|done|done]. eapply (adjacent_inside _ a) in Ha as (_ & _ & ?); [congruence|done..]. }
  destruct (zones_inside (outgoing_clocked_zones_set cl a) a Hb) as [Hi Huz].
  { intros b [Ha _]%Hz. done. }
  destruct (collect_data_flow_spec cl Hcl _ (λ b, child_test (strg l) b a)
    (λ b, is_child_total b a) _ [] Hi) as (v & E & Hv & Helem);
    [done|]. exists v. split_and!; [done..|]. intros b Ha. rewrite Helem, elem_of_nil by done.
  rewrite child_test_spec. split.
  - intros [[]|(Hch & zone & Hzone & Ez)]. rewrite (Huz _ Hzone) in Ez. subst zone.
    apply Hz in Hzone. tauto.
  - intros (Hch & Hadj & Hclk). right. split; [done|].
    assert (set_z b (uz a) ∈ outgoing_clocked_zones_set cl a) as Hin by by apply Hz.
    exists (set_z b (uz a)). split; [done|]. by rewrite (Huz _ Hin).
Qed.

(** On any tile, inside of the layout or not, the data flow is defined. *)
Lemma copy_if_set_total (pred : ucoord_t → option bool) v df :
  (∀ a, is_Some (pred a)) → is_Some (copy_if_set pred v df).
Proof using.
  intros Hp. revert df. induction v as [|a v IH]; intros df; simpl; [done|].
  destruct (Hp a) as [b ->]. simpl. apply IH.
Qed.

Lemma collect_data_flow_total (pred : ucoord_t → option bool) zones df :
  (∀ a, is_Some (pred a)) → is_Some (collect_data_flow (clocked l) pred zones df).
Proof using.
  intros Hp. revert df. induction zones as [|a v IH]; intros df; simpl; [done|].
  destruct (copy_if_set_total pred (elevations (coordinate_layout (clocked l)) a) df Hp) as [r ->].
  simpl. apply IH.
Qed.

Lemma data_flow_total t : is_Some (incoming_data_flow l t) ∧ is_Some (outgoing_data_flow l t).
Proof using Hs.
  split; apply collect_data_flow_total; intros a; by rewrite is_child_total.
Qed.

(** Adjacency across layers is symmetric. *)
Lemma adjacent_layers a b :
  inside ar a → inside ar b →
  set_z a (uz b) ∈ adjacent_coordinates (coordinate_layout cl) b →
  set_z b (uz a) ∈ adjacent_coordinates (coordinate_layout cl) a.
Proof using Hcl Laws.
  intros Ha Hb Hadj. pose proof (layer_inside_of _ _ _ (representable_proper _ Hcl) Hb Ha) as Hlift.
  apply adjacent_sym; [done|done|]. pose proof (inside_layer _ _ (representable_proper _ Hcl) Ha).
  eapply adjacent_lift in Hadj; [|done..]. rewrite set_z_set_z, set_z_id in Hadj; done.
Qed.
End DataFlow.

(** ** The loops over the nodes *)

Lemma select_nodes_spec (pred : Z → option bool) v :
  NoDup v → (∀ n, n ∈ v → is_Some (pred n)) →
  ∃ r, select_nodes pred v = Some r ∧ NoDup r ∧ ∀ n, n ∈ r ↔ n ∈ v ∧ pred n = Some true.
Proof.
  induction 1 as [|n v Hn Hnd IH]; intros Hp; simpl.
  { exists []. split_and!; [done|constructor|]. intros n. by rewrite elem_of_nil; naive_solver. }
  destruct (Hp n) as [b Hb]; [by left|]. destruct IH as (r & -> & Hr & Hin).
  { intros m Hm. apply Hp. by right. }
  rewrite Hb. simpl. eexists. split; [done|]. destruct b.
  - split; [constructor; [rewrite Hin; tauto|done]|]. intros m. rewrite !elem_of_cons, Hin. naive_solver.
  - split; [done|]. intros m. rewrite elem_of_cons, Hin. naive_solver.
Qed.

Lemma foreach_node_spec `{Mockturtle} {L} (l : gate_level_layout L) :
  storage_wf (strg l) → Z.of_nat (length (nodes (strg l))) < 2 ^ 32 →
  ∃ ns, foreach_node l = Some ns ∧ NoDup ns ∧
        ∀ n, n ∈ ns ↔ 0 <= n < Z.of_nat (length (nodes (strg l))) ∧ is_dead_node (strg l) n = Some false.
Proof.
  intros Hs Hlen. unfold foreach_node. rewrite size_length by done.
  destruct (select_nodes_spec (λ n, negb <$> is_dead_node (strg l) n) (seqZ 0 (Z.of_nat (length (nodes (strg l))))))
    as (ns & -> & Hnd & Hin); [apply NoDup_seqZ| |].
  - intros n Hn%elem_of_seqZ. unfold is_dead_node.
    destruct (vec_at_lookup (nodes (strg l)) n) as (d & -> & _); [lia|by eexists].
  - exists ns. split_and!; [done|done|]. intros n. rewrite Hin, elem_of_seqZ, Z.add_0_l.
    destruct (is_dead_node (strg l) n) as [[]|]; naive_solver.
Qed.

(** The clock numbers of a layout do not depend on the layer. *)
Definition layer_invariant {L} (cl : clocked_layout L) : Prop :=
  ∀ c k, get_clock_number cl (set_z c k) = get_clock_number cl c.
