(* ===== verification/MockturtleModel.v ===== *)
(** * A model of the class Mockturtle

    An instance of the parameters of [GateLevelLayout.v] that satisfies their laws, with which the
    witnesses of the gate-level theorems evaluate. A truth table is the list of its output bits; the
    cache is the list of the normalized tables (those with output 0 for input 0), and a literal is
    twice the index in the cache plus 1 for a complemented table. *)

From S2P Require Import Prelude.
From S2P Require Import GateLevelLayout.
#[local] Open Scope Z_scope.
Import GateLevel.

Definition complement (f : list bool) : list bool := negb <$> f.

(** The normalized table, and whether it is complemented. *)
Definition normalize (f : list bool) : list bool * bool :=
  match f with
  | true :: _ => (complement f, true)
  | _ => (f, false)
  end.

(** The index of a table in the cache, at the end when it is new. *)
Fixpoint cache_index (c : list (list bool)) (f : list bool) : nat * list (list bool) :=
  match c with
  | [] => (O, [f])
  | g :: c' =>
      if decide (g = f) then (O, c)
      else let r := cache_index c' f in (S r.1, g :: r.2)
  end.

Definition table_insert (c : list (list bool)) (f : list bool) : Z * list (list bool) :=
  let '(g, inverted) := normalize f in
  let r := cache_index c g in
  (2 * Z.of_nat r.1 + (if inverted then 1 else 0), r.2).

Definition table_at (c : list (list bool)) (lit : Z) : list bool :=
  let g := nth (Z.to_nat (lit / 2)) c [] in
  if Z.odd lit then complement g else g.

(** The outputs of a word for [n] variables, the output for input 0 first. *)
Definition table_of_word (w n : Z) : list bool := (λ i, Z.testbit w i) <$> seqZ 0 (2 ^ n).

#[export] Instance table_mockturtle : Mockturtle := {
  empty_node := NodeData [] 0 0 0 0;
  initial_nodes := [NodeData [] 0 0 0 0];
  register_t := unit;
  new_register := tt;
  truth_table := list bool;
  truth_table_cache := list (list bool);
  empty_cache := [];
  cache_insert := table_insert;
  cache_at := table_at;
  zero_truth_table n := table_of_word 0 n;
  truth_table_of_word := table_of_word;
  is_const0 f := forallb negb f;
}.

Lemma complement_involutive f : complement (complement f) = f.
Proof. induction f as [|b f IH]; [done|]. simpl. f_equal; [apply negb_involutive|apply IH]. Qed.

Lemma cache_index_nth c f : nth (cache_index c f).1 (cache_index c f).2 [] = f.
Proof. induction c as [|g c IH]; [done|]. simpl. by case_decide. Qed.

#[export] Instance table_mockturtle_laws : MockturtleLaws.
Proof.
  split; [done|done|]. intros c f. cbn. unfold table_insert, table_at.
  destruct (normalize f) as [g inverted] eqn:E. simpl.
  pose proof (cache_index_nth c g) as Hnth. destruct (cache_index c g) as [k c']. simpl in *.
  assert (g = if inverted then complement f else f) as ->
    by (unfold normalize in E; repeat case_match; by simplify_eq).
  destruct inverted.
  - rewrite Z.odd_add, Z.odd_mul. simpl.
    replace ((2 * Z.of_nat k + 1) / 2) with (Z.of_nat k) by (apply (Z.div_unique _ _ _ 1); lia).
    by rewrite Nat2Z.id, Hnth, complement_involutive.
  - rewrite Z.add_0_r, Z.odd_mul. simpl.
    replace (2 * Z.of_nat k / 2) with (Z.of_nat k) by (apply (Z.div_unique _ _ _ 0); lia).
    by rewrite Nat2Z.id, Hnth.
Qed.
