(* ===== verification/GateLevelProperties.v ===== *)
(** * Properties of gate-level layouts

    The theorems on [GateLevelLayout.v], with the witnesses that apply them to a small layout: a
    primary input, a wire and a primary output in a row. *)

From S2P Require Import Prelude.
From S2P Require Import Coordinates.
From S2P Require Import CoordinateLayout.
From S2P Require Import CartesianLayout.
From S2P Require Import ClockingScheme.
From S2P Require Import ClockedLayout.
From S2P Require Import GateLevelLayout.
From S2P Require Import GateLevelInvariant.
From S2P Require Import GateLevelDataFlow.
From S2P Require Import MockturtleModel.
#[local] Open Scope Z_scope.
Import Offset.
Import Clocked.
Import GateLevel.

Abbreviation cartesian := Cartesian.cartesian_layout.

(** ** Example layouts *)

(** An empty layout of 4 x 4 tiles on two layers, clocked by the four-phase 2DDWave scheme. *)
Definition example_clocked : clocked_layout cartesian :=
  ClockedLayout (Cartesian.make (UCoord 0 1 3 3)) (twoddwave_clocking 3 FOUR).

Definition no_layout : gate_level_layout cartesian :=
  make_from_storage example_clocked new_storage.

Definition example_empty : gate_level_layout cartesian :=
  default no_layout (make example_clocked "example").

Definition tile (x y : Z) : ucoord_t := UCoord 0 0 y x.
Definition sig (x y : Z) : Z := to_uint64 (tile x y).

(** Input, wire and output in the first row. *)
Definition example_ops : list operation :=
  [CreatePi "a" (tile 0 0); CreateBuf (sig 0 0) (tile 1 0); CreatePo (sig 1 0) "f" (tile 2 0)].

Definition example : gate_level_layout cartesian :=
  default no_layout (run example_ops example_empty).

Lemma run_defined ops (l0 : gate_level_layout cartesian) :
  (match run ops l0 with Some _ => true | None => false end) = true →
  run ops l0 = Some (default no_layout (run ops l0)).
Proof. by destruct (run ops l0). Qed.

(** Proves what an execution of operations on [example_empty] computes. *)
Ltac by_running :=
  match goal with
  | |- ∃ l, run ?ops ?l0 = Some l ∧ _ =>
      exists (default no_layout (run ops l0));
      split; [apply run_defined; vm_compute; reflexivity|repeat split; vm_compute; reflexivity]
  end.

(** The layout that operations build on an empty one. *)
Definition built {L} (cl : clocked_layout L) (name : string) (ops : list operation) :
    gate_level_layout L :=
  default (make_from_storage cl new_storage) (l ← make cl name; run ops l).

Definition blank_spec {L} (cl : clocked_layout L) (name : string) : layout_spec :=
  empty_spec (fn_cache (strg (default (make_from_storage cl new_storage) (make cl name)))).

Lemma built_spec {L} `{CoordinateLayout L} (cl : clocked_layout L) name ops :
  allowed_all ops (blank_spec cl name) →
  layout_wf (built cl name ops) ∧ clocked (built cl name ops) = cl.
Proof.
  destruct (make_spec cl name) as (l0 & E0 & Hl & Hc & Ha). unfold blank_spec, built. rewrite E0. simpl.
  intros Hops. destruct (run_implements l0 ops Hl) as (l & E & Hl' & Hc' & _); [by rewrite Ha|].
  rewrite E. simpl. split; [done|congruence].
Qed.

(** Proves, by evaluation, that operations are defined where they are executed. *)
Ltac allowed_by_evaluation :=
  vm_compute; repeat first [exact I|reflexivity|discriminate|apply conj].

Lemma example_spec : layout_wf example ∧ clocked example = example_clocked.
Proof.
  destruct (make_spec example_clocked "example") as (l0 & E0 & Hl & Hc & Ha).
  assert (example_empty = l0) as <- by (unfold example_empty; by rewrite E0).
  destruct (run_implements example_empty example_ops Hl) as (l & E & Hl' & Hc' & _).
  - rewrite Ha. vm_compute. repeat split; discriminate.
  - unfold example. rewrite E. simpl. split; [done|congruence].
Qed.

Lemma example_wf : layout_wf example.
Proof. apply example_spec. Qed.

Lemma example_layer_invariant : layer_invariant example_clocked.
Proof. by intros [] k. Qed.

Lemma example_proper : proper_dimension (UCoord 0 1 3 3).
Proof. by vm_compute. Qed.

Lemma example_scheme_wf : scheme_wf (clocking example_clocked).
Proof. apply (registered_wf 3 None "2DDWAVE"). repeat constructor. Qed.

(** ** Refinement *)

(** C1: Every operation that creates or moves a node, applied to a well-formed layout where it is
    defined, succeeds without an access out of range, keeps the layout well-formed and its clocking
    as it was, and changes the placement, the cached functions, the inputs, the outputs and their
    counts exactly as the specification says. *)
Theorem operations_refine `{MockturtleLaws} {L} `{CoordinateLayout L} (l : gate_level_layout L)
    (op : operation) :
  layout_wf l → allowed op (abstract_layout l) →
  ∃ l' s, exec op l = Some (l', s) ∧ layout_wf l' ∧
          abstract_layout l' = spec_exec op (abstract_layout l) ∧ clocked l' = clocked l.
Proof. intros Hl Hop. exact (exec_implements l op Hl Hop). Qed.

Lemma operations_refine_witness :
  ∃ l' s, exec (MoveNode 3 (tile 1 1) [sig 0 1]) example = Some (l', s) ∧ layout_wf l' ∧
          abstract_layout l' = spec_exec (MoveNode 3 (tile 1 1) [sig 0 1]) (abstract_layout example)
          ∧ clocked l' = clocked example.
Proof.
  apply (operations_refine example (MoveNode 3 (tile 1 1) [sig 0 1])); [apply example_wf|].
  vm_compute. repeat split; discriminate.
Defined.

(** C2: A new layout is well-formed and empty, and every sequence of operations that are defined
    where they are executed runs to the end and yields a well-formed layout whose abstraction the
    specification predicts. *)
Theorem reachable_layouts_wf `{MockturtleLaws} {L} `{CoordinateLayout L} (cl : clocked_layout L)
    (name : string) (ops : list operation) :
  ∃ l, make cl name = Some l ∧ layout_wf l ∧
       abstract_layout l = empty_spec (fn_cache (strg l)) ∧
       (allowed_all ops (abstract_layout l) →
        ∃ l', run ops l = Some l' ∧ layout_wf l' ∧ clocked l' = cl ∧
              abstract_layout l' = foldl (λ a op, spec_exec op a) (abstract_layout l) ops).
Proof.
  destruct (make_spec cl name) as (l & E & Hl & Hc & Ha). exists l. split_and!; [done..|].
  intros Hops. rewrite <-Hc. by apply run_implements.
Qed.

Lemma reachable_layouts_wf_witness :
  ∃ l, make example_clocked "example" = Some l ∧ layout_wf l ∧
       abstract_layout l = empty_spec (fn_cache (strg l)) ∧
       (allowed_all example_ops (abstract_layout l) →
        ∃ l', run example_ops l = Some l' ∧ layout_wf l' ∧ clocked l' = example_clocked ∧
              abstract_layout l' = foldl (λ a op, spec_exec op a) (abstract_layout l) example_ops).
Proof. exact (reachable_layouts_wf example_clocked "example" example_ops). Defined.

(** ** Lemmas on the queries *)

Section Queries.
Context `{MLaws : MockturtleLaws} {L : Type} `{HL : CoordinateLayout L}.

Lemma get_node_at_place t n p :
  is_dead t = false → tiles (place t n p) !! n = Some (to_uint64 t).
Proof. intros Ht. unfold place, occupy. rewrite Ht. simpl. apply lookup_insert_eq. Qed.

Lemma vec_range_prefix {A} (v : list A) k :
  0 <= k <= Z.of_nat (length v) → vec_range v 0 k = Some (take (Z.to_nat k) v).
Proof.
  intros Hk. unfold vec_range. rewrite decide_True by lia. by rewrite Z.sub_0_r.
Qed.

Lemma vec_range_suffix {A} (v : list A) k e :
  0 <= k <= e → e = Z.of_nat (length v) → vec_range v k e = Some (drop (Z.to_nat k) v).
Proof.
  intros Hk ->. unfold vec_range. rewrite decide_True by lia.
  by rewrite take_ge by (rewrite length_drop; lia).
Qed.

Lemma found_nodes s n v :
  storage_wf s → 2 <= n →
  found n (nodes_of s v) = true ↔ ∃ o, o ∈ v ∧ tiles (abstract s) !! n = Some o.
Proof.
  intros Hs Hn. rewrite found_spec. unfold nodes_of. rewrite list_elem_of_fmap.
  setoid_rewrite <-get_node_tiles; [|done..]. naive_solver.
Qed.

Lemma is_po_spec (l : gate_level_layout L) n :
  layout_wf l → 2 <= n →
  is_po l n = Some true ↔
  ∃ o, o ∈ take (Z.to_nat (inf_num_pos (sequential_inf l))) (outputs (strg l)) ∧
       tiles (abstract (strg l)) !! n = Some o.
Proof.
  intros Hl Hn. pose proof (lw_pos _ Hl) as Hp. unfold is_po.
  rewrite vec_range_prefix by done. simpl.
  etrans; [|apply found_nodes; [apply Hl|done]]. split; [by intros [=]|by intros ->].
Qed.

Lemma update_node_inv s n f s' :
  update_node s n f = Some s' →
  ∃ d, vec_at (nodes s) n = Some d ∧ vec_at (nodes s') n = Some (f d).
Proof.
  unfold update_node, vec_update. destruct (vec_at (nodes s) n) as [d|] eqn:E; [|done].
  simpl. intros [= <-]. exists d. split; [done|]. simpl. revert E. unfold vec_at.
  case_decide; [|done]. intros E. apply list_lookup_insert_eq. by eapply lookup_lt_Some.
Qed.

(** The node of a cleared tile is marked dead. *)
Lemma clear_tile_kills s t m s' :
  clear_tile s t = Some s' → tile_node_map s !! to_uint64 t = Some m → 2 <= m →
  is_dead_node s' m = Some true.
Proof.
  unfold clear_tile. intros E Hm Hge. rewrite Hm in E.
  match type of E with mbind _ ?x = _ => destruct x as [s1|]; [simpl in E|done] end.
  unfold kill_node, is_constant in E. assert (m <=? 1 = false) as Hc by lia. rewrite Hc in E.
  destruct (update_node s1 m _) as [s2|] eqn:E2; [|done]. simpl in E. injection E as <-.
  apply update_node_inv in E2 as (d & _ & Hd). unfold is_dead_node.
  change (nodes (set_maps _ _ s2)) with (nodes s2). rewrite Hd.
  cbn [mbind option_bind fanout_word set_fanout_word]. f_equal. rewrite Z.lor_spec.
  change (Z.testbit 0x80000000 31) with true. apply orb_true_r.
Qed.

Lemma assign_node_kills s t n m s' :
  assign_node s t n = Some s' → is_dead t = false → tile_node_map s !! to_uint64 t = Some m →
  2 <= m → is_dead_node s' m = Some true.
Proof.
  unfold assign_node. intros E Hlive Hm Hge. rewrite Hlive in E.
  destruct (clear_tile s t) as [s1|] eqn:E1; [simpl in E|done].
  match type of E with mbind _ ?x = _ => destruct x as [w|]; [simpl in E|done] end.
  pose proof (clear_tile_kills _ _ _ _ E1 Hm Hge) as Hd. injection E as <-. by destruct w.
Qed.

(** [create_node_from_literal] assigns the tile last, with the map of tiles as it was. *)
Lemma create_node_assigns (l l' : gate_level_layout L) cs lit t o :
  layout_wf l → creatable t (abstract_layout l) →
  create_node_from_literal l cs lit t = Some (l', o) →
  ∃ s1, assign_node s1 t (size (strg l)) = Some (strg l') ∧
        tile_node_map s1 = tile_node_map (strg l).
Proof.
  intros Hl Hc. destruct (wf_creatable _ _ Hl Hc) as (_ & Hs & Hsz).
  unfold create_node_from_literal.
  match goal with |- context [for_each _ ?s _] => set (s1 := s) end.
  assert (storage_wf s1) as Hs1 by by eapply appended_wf.
  destruct (incr_refs_keeps s1 cs Hs1) as (s2 & -> & [Hs2 Hf2 _ Ht2 _]). cbn. unfold set_value.
  destruct (update_node_keeps s2 (size (strg l)) (set_node_value (λ _, wrap 32 0)))
    as (s3 & -> & [_ _ _ Ht3 _] & _); [done| |done|].
  { rewrite size_length, (frame_length _ _ Hf2) by done. simpl. rewrite length_app. simpl. lia. }
  cbn. destruct (assign_node s3 t _) as [s4|] eqn:E; [|done]. simpl. intros [= <- _].
  exists s3. split; [done|]. by rewrite Ht3, Ht2.
Qed.

Lemma not_found_fresh n v : Forall (λ m, 2 <= m < n) v → found n v = false.
Proof.
  intros Hv. destruct (found n v) eqn:E; [|done]. apply found_spec in E.
  rewrite Forall_forall in Hv. apply Hv in E. lia.
Qed.
End Queries.

(** ** Placement queries *)

(** The placement that the specification gives a sequence of operations on the new layout [l]. *)
Definition specified `{Mockturtle} {L} (l : gate_level_layout L) (ops : list operation) : placement :=
  sp_placement (foldl (λ a op, spec_exec op a) (empty_spec (fn_cache (strg l))) ops).

Lemma history_spec `{MockturtleLaws} {L} `{CoordinateLayout L} (cl : clocked_layout L) name ops :
  ∃ l0, make cl name = Some l0 ∧
    (allowed_all ops (empty_spec (fn_cache (strg l0))) →
     ∃ l, run ops l0 = Some l ∧ storage_wf (strg l) ∧ abstract (strg l) = specified l0 ops).
Proof.
  destruct (make_spec cl name) as (l0 & E0 & Hl & Hc & Ha). exists l0. split; [done|].
  unfold specified. rewrite <-Ha. intros Hops.
  destruct (run_implements l0 ops Hl Hops) as (l & E & [Hs _ _ _ _] & _ & Hal).
  exists l. split_and!; [done|done|]. by rewrite <-Hal.
Qed.

(** C25: After any sequence of operations that are defined where they are executed, [get_node] and
    [get_tile] are the two directions of the placement that the specification of the operations gives:
    a node that is not a constant is on a live tile exactly if [get_node] finds it there, exactly if
    [get_tile] finds the tile. *)
Theorem get_node_get_tile_inverse `{MockturtleLaws} {L} `{CoordinateLayout L} (cl : clocked_layout L)
    (name : string) (ops : list operation) :
  ∃ l0, make cl name = Some l0 ∧
    (allowed_all ops (empty_spec (fn_cache (strg l0))) →
     ∃ l, run ops l0 = Some l ∧
       ∀ t n, wf t → is_dead t = false → 2 <= n →
         (get_node_at (strg l) t = n ↔ tiles (specified l0 ops) !! n = Some (to_uint64 t)) ∧
         (get_tile (strg l) n = t ↔ tiles (specified l0 ops) !! n = Some (to_uint64 t))).
Proof.
  destruct (history_spec cl name ops) as (l0 & E0 & Hops). exists l0. split; [done|].
  intros (l & E & Hs & <-)%Hops. exists l. split; [done|]. intros t n Ht Hlive Hn.
  split; [by apply get_node_tiles|]. rewrite tiles_lookup by done. unfold get_tile.
  destruct (node_tile_map (strg l) !! n) as [o|] eqn:En; [|split; [by intros <-|done]].
  split; [|intros [= ->]; by apply of_to_uint64].
  intros <-. f_equal. symmetry. apply to_of_uint64. by eapply wf_tile.
Qed.

(** A wire that is moved. *)
Lemma get_node_get_tile_inverse_witness :
  let ops := example_ops ++ [MoveNode 3 (tile 1 1) [sig 0 0]] in
  ∃ l, run ops example_empty = Some l ∧
    ∀ t n, wf t → is_dead t = false → 2 <= n →
      (get_node_at (strg l) t = n ↔ tiles (specified example_empty ops) !! n = Some (to_uint64 t)) ∧
      (get_tile (strg l) n = t ↔ tiles (specified example_empty ops) !! n = Some (to_uint64 t)).
Proof.
  set (ops := example_ops ++ _).
  assert (allowed_all ops (empty_spec (fn_cache (strg example_empty)))) as Hops by allowed_by_evaluation.
  destruct (get_node_get_tile_inverse example_clocked "example" ops) as (l0 & E & Hl).
  assert (example_empty = l0) as <- by (unfold example_empty; by rewrite E). exact (Hl Hops).
Defined.

(** Creating a gate on a tile that already hosts a node replaces that node: the tile then hosts
    the new gate, and the old node is dead and not placed anymore. *)
Theorem overwritten_node_dies `{MockturtleLaws} {L} `{CoordinateLayout L} (l : gate_level_layout L)
    (cs : list Z) (lit : Z) (t : ucoord_t) (m : Z) :
  layout_wf l → creatable t (abstract_layout l) → is_dead t = false →
  2 <= m → get_node_at (strg l) t = m →
  ∃ l' s, create_node_from_literal l cs lit t = Some (l', s) ∧
          get_node_at (strg l') t = Z.of_nat (length (nodes (strg l))) ∧
          get_tile (strg l') m = ucoord_default ∧ is_dead_node (strg l') m = Some true.
Proof.
  intros Hl Hc Hlive Hm Hnode. pose proof (lw_storage _ Hl) as Hs. pose proof (wf_size _ Hs) as Hsz.
  destruct (create_gate_implements l cs lit t Hl Hc) as (l' & o & E & Hl' & Ha & _).
  exists l', o. split; [done|]. apply (f_equal sp_placement) in Ha.
  change (abstract (strg l') = place_new lit cs t (abstract (strg l))) in Ha.
  assert (tile_node_map (strg l) !! to_uint64 t = Some m) as Htn.
  { apply wf_inverse; [done|]. rewrite <-tiles_lookup by done. by apply get_node_tiles. }
  pose proof (get_node_tiles _ (to_uint64 t) m Hs Hm) as Hold. apply Hold in Hnode as Hpl.
  split_and!.
  - apply get_node_tiles; [apply Hl'|lia|]. rewrite Ha. unfold place_new; simpl gates.
    rewrite length_fmap. by apply get_node_at_place.
  - rewrite get_tile_position by done. unfold node_position. rewrite Ha.
    unfold place_new, place, occupy. rewrite Hlive. cbn [tiles gates].
    rewrite lookup_insert_ne.
    + destruct (filter _ _ !! m) as [u|] eqn:F; [|done].
      apply map_lookup_filter_Some in F as [F Hne]. simpl in Hne. congruence.
    + simpl gates. rewrite length_fmap. rewrite tiles_lookup in Hpl by done. apply wf_node in Hpl; [lia|done].
  - destruct (create_node_assigns l l' cs lit t o Hl Hc E) as (s1 & Es & Ht).
    eapply assign_node_kills; [done|done| |done]. by rewrite Ht.
Qed.

Lemma overwritten_node_dies_witness :
  ∃ l' s, create_node_from_literal example [sig 0 0] 3 (tile 1 0) = Some (l', s) ∧
          get_node_at (strg l') (tile 1 0) = Z.of_nat (length (nodes (strg example))) ∧
          get_tile (strg l') 3 = ucoord_default ∧ is_dead_node (strg l') 3 = Some true.
Proof.
  apply (overwritten_node_dies example [sig 0 0] 3 (tile 1 0) 3);
    [apply example_wf|by vm_compute|reflexivity|lia|reflexivity].
Defined.

(** A node created with [create_node] computes the function it was created with, has the given
    children, and is hosted by its tile when that tile is live. *)
Theorem create_node_function `{MockturtleLaws} {L} `{CoordinateLayout L} (l : gate_level_layout L)
    (cs : list Z) (f : truth_table) (t : ucoord_t) :
  layout_wf l → creatable t (abstract_layout l) → cs ≠ [] →
  let n := Z.of_nat (length (nodes (strg l))) in
  ∃ l' s d, create_node l cs f t = Some (l', s) ∧ node_function (strg l') n = Some f ∧
            vec_at (nodes (strg l')) n = Some d ∧ children d = cs ∧
            (is_dead t = false → get_node_at (strg l') t = n).
Proof.
  intros Hl Hc Hcs n. pose proof (wf_size _ (lw_storage _ Hl)) as Hsz.
  destruct (create_node_implements l cs f t Hl Hc) as (l' & s & E & Hl' & Ha & _).
  destruct cs as [|c cs]; [done|].
  set (r := cache_insert (fn_cache (strg l)) f) in *.
  assert (abstract (strg l') = place_new r.1 (c :: cs) t (abstract (strg l))) as Hpl
    by exact (f_equal sp_placement Ha).
  assert (fn_cache (strg l') = r.2) as Hcache by exact (f_equal sp_cache Ha).
  assert (node_gate <$> nodes (strg l') = (node_gate <$> nodes (strg l)) ++ [(r.1, c :: cs)]) as Hg
    by exact (f_equal gates Hpl).
  apply (f_equal (lookup (length (nodes (strg l))))) in Hg as Hd.
  rewrite <-(length_fmap node_gate (nodes (strg l))) in Hd at 2.
  rewrite list_lookup_middle, list_lookup_fmap in Hd by done.
  destruct (nodes (strg l') !! length (nodes (strg l))) as [d|] eqn:Ed; [|done].
  injection Hd as Hlit Hch.
  assert (vec_at (nodes (strg l')) n = Some d) as Hat
    by (unfold vec_at, n; rewrite decide_True by lia; by rewrite Nat2Z.id).
  exists l', s, d. split_and!; [done| |done|done|].
  - unfold node_function. rewrite Hat. simpl. rewrite Hcache, Hlit. f_equal. apply cache_at_insert.
  - intros Hlive. apply get_node_tiles; [apply Hl'|unfold n; lia|].
    rewrite Hpl. unfold place_new, n; simpl gates. rewrite length_fmap. by apply get_node_at_place.
Qed.

Lemma create_node_function_witness :
  let n := Z.of_nat (length (nodes (strg example))) in
  ∃ l' s d, create_node example [sig 0 0; sig 1 0] [true; true; false; true] (tile 1 1) = Some (l', s) ∧
            node_function (strg l') n = Some [true; true; false; true] ∧
            vec_at (nodes (strg l')) n = Some d ∧ children d = [sig 0 0; sig 1 0] ∧
            (is_dead (tile 1 1) = false → get_node_at (strg l') (tile 1 1) = n).
Proof.
  apply (create_node_function example [sig 0 0; sig 1 0] [true; true; false; true] (tile 1 1));
    [apply example_wf|by vm_compute|discriminate].
Defined.

(** ** Counters *)

(** A node that is not a constant is placed when its tile is live. *)
Lemma placed_live `{Mockturtle} s n :
  storage_wf s → 2 <= n → is_Some (node_tile_map s !! n) ↔ is_dead (get_tile s n) = false.
Proof.
  intros Hs Hn. unfold get_tile. destruct (node_tile_map s !! n) as [t|] eqn:E.
  - apply wf_dead in E; [|done]. rewrite E. split; [intros _|by eauto]. apply Z.leb_gt. lia.
  - split; [by intros []|done].
Qed.

(** The placed nodes whose gate has a literal with [P]. *)
Definition placed_gates (P : Z → bool) (p : placement) : Z :=
  Z.of_nat (base.size (filter (λ e : Z * Z, (P ∘ fst <$> gates p !! Z.to_nat e.1) = Some true) (tiles p))).

Lemma placed_gates_count `{Mockturtle} s (P : Z → bool) :
  storage_wf s →
  placed_gates P (abstract s) = count (λ n, (2 <=? n) && P (literal_in (nodes s) n)) (node_tile_map s).
Proof.
  intros Hs. unfold placed_gates, count, abstract. cbn [tiles gates]. rewrite map_filter_filter. do 2 f_equal.
  apply map_filter_ext. intros n t Hn. cbn [fst]. apply wf_node in Hn; [|done].
  rewrite list_lookup_fmap. unfold literal_in.
  destruct (nodes s !! Z.to_nat n) as [d|] eqn:E; [|apply lookup_ge_None in E; lia].
  cbn [fmap option_fmap option_map compose fst node_gate]. rewrite andb_true_iff, Z.leb_le.
  split; [intros [[= ->] ?]|intros [? ->]]; done.
Qed.

Lemma is_empty_tile_spec `{Mockturtle} s t :
  storage_wf s → wf t → is_dead t = false →
  is_empty_tile s t = true ↔ ∀ n, tiles (abstract s) !! n ≠ Some (to_uint64 t).
Proof.
  intros Hs Ht Hlive. unfold is_empty_tile. rewrite Z.eqb_eq. split.
  - intros E n Hn. assert (2 <= n) as Hge by (by apply map_lookup_filter_Some in Hn as [_ ?]).
    apply (get_node_tiles s (to_uint64 t) n Hs Hge) in Hn. unfold get_node_at in E. lia.
  - intros Hall. unfold get_node_at, get_node.
    destruct (tile_node_map s !! to_uint64 t) as [n|] eqn:En; [exfalso|done].
    apply wf_inverse in En; [|done]. pose proof (wf_dead _ Hs _ _ En) as Hd.
    rewrite of_to_uint64, Hlive in Hd by done. symmetry in Hd. apply Z.leb_gt in Hd.
    apply (Hall n). by rewrite tiles_lookup by lia.
Qed.

Lemma is_empty_spec `{Mockturtle} s : storage_wf s → is_empty s = true ↔ tiles (abstract s) = ∅.
Proof.
  intros Hs. pose proof (wf_size _ Hs) as Hsz.
  assert (data_num_gates s + data_num_wires s = count (λ n, 2 <=? n) (node_tile_map s)) as Hsum.
  { rewrite (wf_wires _ Hs), (wf_gates _ Hs). unfold count. rewrite <-Nat2Z.inj_add. f_equal.
    rewrite <-map_size_disj_union.
    - f_equal. apply map_eq. intros n. apply option_eq. intros t.
      rewrite lookup_union_Some_raw, map_lookup_filter_None, !map_lookup_filter_Some.
      unfold counts_as_wire, counts_as_gate. cbn [fst].
      destruct (2 <=? n), (literal_in (nodes s) n =? 2); naive_solver.
    - apply map_disjoint_spec. intros n t u [_ E]%map_lookup_filter_Some [_ F]%map_lookup_filter_Some.
      unfold counts_as_wire, counts_as_gate in *. cbn [fst] in *.
      destruct (2 <=? n), (literal_in (nodes s) n =? 2); done. }
  assert (0 <= count (λ n, 2 <=? n) (node_tile_map s) <= Z.of_nat (length (nodes s)) - 2) as Hb.
  { apply count_bound; [lia|]. intros n t Hn Hge%Z.leb_le. apply wf_node in Hn; [lia|done]. }
  assert (tiles (abstract s) = filter (λ p : Z * Z, (2 <=? p.1) = true) (node_tile_map s)) as ->
    by (apply map_filter_ext; intros; by rewrite Z.leb_le).
  unfold is_empty. rewrite wrap_small, Hsum, Z.eqb_eq by (unfold in_width; lia).
  unfold count. rewrite <-map_size_empty_iff. lia.
Qed.

(** C24: After any sequence of operations that are defined where they are executed, the counters agree
    with the placement that the specification of the operations gives: [num_wires] is the number of
    placed nodes with the literal of the identity, [num_gates] that of the other placed nodes,
    [is_empty] holds exactly when nothing is placed, and [is_empty_tile] exactly on the live tiles that
    no node is placed on. *)
Theorem counters_correct `{MockturtleLaws} {L} `{CoordinateLayout L} (cl : clocked_layout L)
    (name : string) (ops : list operation) :
  ∃ l0, make cl name = Some l0 ∧
    (allowed_all ops (empty_spec (fn_cache (strg l0))) →
     let p := specified l0 ops in
     ∃ l, run ops l0 = Some l ∧
       num_wires l = placed_gates (λ lit, lit =? 2) p ∧
       num_gates l = placed_gates (λ lit, negb (lit =? 2)) p ∧
       (is_empty (strg l) = true ↔ tiles p = ∅) ∧
       (∀ t, wf t → is_dead t = false →
          is_empty_tile (strg l) t = true ↔ ∀ n, tiles p !! n ≠ Some (to_uint64 t))).
Proof.
  destruct (history_spec cl name ops) as (l0 & E0 & Hops). exists l0. split; [done|].
  intros (l & E & Hs & Ha)%Hops p. fold p in Ha. exists l.
  rewrite <-Ha, !placed_gates_count by done. split_and!.
  - done.
  - exact (wf_wires _ Hs).
  - exact (wf_gates _ Hs).
  - by apply is_empty_spec.
  - intros t Ht Hlive. by apply is_empty_tile_spec.
Qed.

(** A gate is created on the tile of a wire, which loses its node. *)
Lemma counters_correct_witness :
  let ops := example_ops ++ [CreateNot (sig 0 0) (tile 1 0)] in
  let p := specified example_empty ops in
  (placed_gates (λ lit, lit =? 2) p = 2 ∧ placed_gates (λ lit, negb (lit =? 2)) p = 1) ∧
  ∃ l, run ops example_empty = Some l ∧
    num_wires l = placed_gates (λ lit, lit =? 2) p ∧
    num_gates l = placed_gates (λ lit, negb (lit =? 2)) p ∧
    (is_empty (strg l) = true ↔ tiles p = ∅) ∧
    (∀ t, wf t → is_dead t = false →
       is_empty_tile (strg l) t = true ↔ ∀ n, tiles p !! n ≠ Some (to_uint64 t)).
Proof.
  set (ops := example_ops ++ _). split; [vm_compute; split; reflexivity|].
  assert (allowed_all ops (empty_spec (fn_cache (strg example_empty)))) as Hops by allowed_by_evaluation.
  destruct (counters_correct example_clocked "example" ops) as (l0 & E & Hl).
  assert (example_empty = l0) as <- by (unfold example_empty; by rewrite E). exact (Hl Hops).
Defined.

(** ** Inputs and outputs *)

Section InputsOutputs.
Context `{MLaws : MockturtleLaws} {L : Type} `{HL : CoordinateLayout L}.

Lemma is_po_total (l : gate_level_layout L) n : layout_wf l → ∃ b, is_po l n = Some b.
Proof.
  intros Hl. pose proof (lw_pos _ Hl) as Hp. unfold is_po. rewrite vec_range_prefix by done. eauto.
Qed.

Lemma is_po_ext (l l' : gate_level_layout L) n :
  layout_wf l → layout_wf l' → (is_po l' n = Some true ↔ is_po l n = Some true) →
  is_po l' n = is_po l n.
Proof.
  intros Hl Hl' E. destruct (is_po_total l n Hl) as [b Eb], (is_po_total l' n Hl') as [b' Eb'].
  rewrite Eb, Eb' in *. destruct b, b'; naive_solver.
Qed.

(** The tiles of older nodes after a new node was placed. *)
Lemma place_new_lookup lit cs t p m :
  is_dead t = false → m ≠ Z.of_nat (length (gates p)) → tiles p !! m ≠ Some (to_uint64 t) →
  tiles (place_new lit cs t p) !! m = tiles p !! m.
Proof.
  intros Hlive Hm Ht. unfold place_new, place, occupy. rewrite Hlive. cbn [tiles gates].
  rewrite lookup_insert_ne by done. apply option_eq. intros o.
  rewrite map_lookup_filter_Some; simpl. naive_solver.
Qed.

Lemma found_app n v w : found n (v ++ w) = found n v || found n w.
Proof. apply existsb_app. Qed.

Lemma fresh_not_input (l : gate_level_layout L) k :
  layout_wf l → found (Z.of_nat (length (nodes (strg l)))) (take k (inputs (strg l))) = false ∧
                found (Z.of_nat (length (nodes (strg l)))) (drop k (inputs (strg l))) = false.
Proof.
  intros Hl. pose proof (lw_inputs _ Hl) as HI.
  split; apply not_found_fresh; [by apply Forall_take|by apply Forall_drop].
Qed.
End InputsOutputs.

(** [create_pi] makes the new node a primary input exactly when the layout has no registers yet.
    When register outputs exist, the new node lands behind them and is classified as a register
    output instead, while an older register output takes its place among the primary inputs. *)
Theorem create_pi_classification `{MockturtleLaws} {L} `{CoordinateLayout L}
    (l : gate_level_layout L) (name : string) (t : ucoord_t) :
  layout_wf l → creatable t (abstract_layout l) →
  let n := Z.of_nat (length (nodes (strg l))) in
  ∃ l' s, create_pi l name t = Some (l', s) ∧
          is_pi l' n = Some (num_ros l =? 0) ∧ is_ro l' n = Some (negb (num_ros l =? 0)).
Proof.
  intros Hl Hc n. destruct (create_pi_implements l name t Hl Hc) as (l' & s & E & Hl' & Ha & _).
  exists l', s. split; [done|].
  assert (inputs (strg l') = inputs (strg l) ++ [n]) as Hin.
  { apply (f_equal sp_inputs) in Ha. simpl in Ha. by rewrite Ha, sp_size_length. }
  assert (inf_num_pis (sequential_inf l') = inf_num_pis (sequential_inf l) + 1) as Hp
    by exact (f_equal sp_pis Ha).
  assert (num_ros l' = num_ros l) as Hr by exact (f_equal sp_registers Ha).
  pose proof (lw_pis _ Hl) as HP. unfold is_pi, is_ro, num_cis in *. rewrite Hin, Hp, Hr.
  assert (0 <= num_ros l) as Hros by (unfold num_ros; lia).
  rewrite vec_range_prefix, vec_range_suffix by (rewrite ?length_app; simpl; lia).
  cbn [fmap option_fmap option_map]. rewrite take_app, drop_app, !found_app.
  destruct (fresh_not_input l (Z.to_nat (inf_num_pis (sequential_inf l) + 1)) Hl) as [F1 F2].
  unfold n. rewrite F1, F2. simpl orb.
  destruct (Z.to_nat (inf_num_pis (sequential_inf l) + 1) - length (inputs (strg l)))%nat as [|k] eqn:Ek.
  - assert (num_ros l =? 0 = false) as -> by lia. simpl. by rewrite Z.eqb_refl.
  - assert (num_ros l =? 0 = true) as -> by lia. simpl. by rewrite Z.eqb_refl, drop_nil, take_nil.
Qed.

Lemma create_pi_classification_witness :
  let n := Z.of_nat (length (nodes (strg example))) in
  ∃ l' s, create_pi example "b" (tile 0 1) = Some (l', s) ∧
          is_pi l' n = Some (num_ros example =? 0) ∧ is_ro l' n = Some (negb (num_ros example =? 0)).
Proof. apply (create_pi_classification example "b" (tile 0 1)); [apply example_wf|by vm_compute]. Defined.

(** [create_po] on a live tile makes the new node a primary output and leaves the classification
    of every node that is not overwritten as it was. *)
Theorem create_po_classification `{MockturtleLaws} {L} `{CoordinateLayout L}
    (l : gate_level_layout L) (sg : Z) (name : string) (t : ucoord_t) :
  layout_wf l → creatable t (abstract_layout l) → is_dead t = false →
  let n := Z.of_nat (length (nodes (strg l))) in
  ∃ l' s, create_po l sg name t = Some (l', s) ∧ is_po l' n = Some true ∧
          ∀ m, 2 <= m < n → get_node_at (strg l) t ≠ m → is_po l' m = is_po l m.
Proof.
  intros Hl Hc Hlive n. pose proof (wf_size _ (lw_storage _ Hl)) as Hsz.
  destruct (create_po_implements l sg name t Hl Hc) as (l' & s & E & Hl' & Ha & _).
  exists l', s. split; [done|].
  set (k := inf_num_pos (sequential_inf l)) in *.
  assert (abstract (strg l') = place_new 2 [sg] t (abstract (strg l))) as Hpl
    by exact (f_equal sp_placement Ha).
  assert (take (Z.to_nat (inf_num_pos (sequential_inf l'))) (outputs (strg l'))
    = take (Z.to_nat k) (outputs (strg l)) ++ [to_uint64 t]) as Hout.
  { pose proof (f_equal sp_outputs Ha) as Ho. pose proof (f_equal sp_pos Ha) as Hp.
    simpl in Ho, Hp. fold k in Ho, Hp. rewrite Ho, Hp. pose proof (lw_pos _ Hl) as Hk.
    fold k in Hk. unfold num_cos in Hk.
    rewrite take_app_ge by (rewrite length_take; lia). f_equal.
    rewrite length_take. replace (Z.to_nat (k + 1) - Z.to_nat k `min` length (outputs (strg l)))%nat
      with 1%nat by lia. done. }
  split.
  - apply is_po_spec; [done|lia|]. exists (to_uint64 t). rewrite Hout, Hpl.
    split; [set_solver|]. unfold place_new. simpl gates. rewrite length_fmap.
    by apply get_node_at_place.
  - intros m Hm Hnode. apply is_po_ext; [done..|]. rewrite !is_po_spec by (done || lia). fold k.
    assert (tiles (abstract (strg l)) !! m ≠ Some (to_uint64 t)) as Ht.
    { intros F%get_node_tiles; [done|apply Hl|lia]. }
    rewrite Hout, Hpl, place_new_lookup; [|done|simpl; rewrite length_fmap; lia|done].
    split; intros (o & Ho & F); exists o; split; try done; [|set_solver].
    apply elem_of_app in Ho as [|Ho%list_elem_of_singleton]; [done|congruence].
Qed.

Lemma create_po_classification_witness :
  let n := Z.of_nat (length (nodes (strg example))) in
  ∃ l' s, create_po example (sig 1 0) "g" (tile 1 1) = Some (l', s) ∧ is_po l' n = Some true ∧
          ∀ m, 2 <= m < n → get_node_at (strg example) (tile 1 1) ≠ m → is_po l' m = is_po example m.
Proof.
  apply (create_po_classification example (sig 1 0) "g" (tile 1 1));
    [apply example_wf|by vm_compute|reflexivity].
Defined.

(** Moving an output node to a dead tile takes its signal out of the outputs without lowering
    the number of primary outputs. When all outputs are primary, the iteration over them and the
    test for primary outputs then read beyond the end of the vector, for every node. *)
Theorem move_output_off_layout_undefined `{MockturtleLaws} {L} `{CoordinateLayout L}
    (l : gate_level_layout L) (n : Z) (t : ucoord_t) (cs : list Z) :
  layout_wf l → wf t → is_dead t = true → 2 <= n < Z.of_nat (length (nodes (strg l))) →
  to_uint64 (get_tile (strg l) n) ∈ outputs (strg l) → inf_num_pos (sequential_inf l) = num_cos l →
  ∃ l' s, move_node l n t cs = Some (l', s) ∧ foreach_po l' = None ∧ ∀ m, is_po l' m = None.
Proof.
  intros Hl Ht Hdead Hn Hout Hpos.
  destruct (relocate_spec (strg l) n t cs (lw_storage _ Hl) Ht Hn) as (s' & E & _ & [_ _ Fo _ _] & _).
  rewrite (move_node_split l n t cs s' E), Hdead. eexists _, _. split; [done|].
  assert (vec_range (filter (λ o, o ≠ to_uint64 (get_tile (strg l) n)) (outputs s')) 0
    (inf_num_pos (sequential_inf l)) = None) as F.
  { unfold vec_range. apply decide_False. rewrite Hpos, Fo. unfold num_cos.
    pose proof (length_filter_lt (λ o, o ≠ to_uint64 (get_tile (strg l) n)) _ _ Hout). tauto || lia. }
  unfold foreach_po, is_po. simpl. by rewrite F.
Qed.

Lemma move_output_off_layout_undefined_witness :
  ∃ l' s, move_node example 4 ucoord_default [] = Some (l', s) ∧ foreach_po l' = None ∧
          ∀ m, is_po l' m = None.
Proof.
  apply (move_output_off_layout_undefined example 4 ucoord_default []);
    [apply example_wf|by vm_compute|reflexivity|by vm_compute|vm_compute; left|reflexivity].
Defined.

(** A layout that is constructed from the storage of another one shares its nodes and tiles, but
    has no primary inputs and outputs, whatever the other layout has. *)
Theorem shared_storage_has_no_io `{Mockturtle} {L} `{CoordinateLayout L} (cl : clocked_layout L)
    (l : gate_level_layout L) (t : ucoord_t) (n : Z) :
  let l' := make_from_storage cl (strg l) in
  get_node_at (strg l') t = get_node_at (strg l) t ∧
  foreach_pi l' = Some [] ∧ foreach_po l' = Some [] ∧
  is_pi l' n = Some false ∧ is_po l' n = Some false.
Proof.
  intros l'. unfold foreach_pi, foreach_po, is_pi, is_po. simpl.
  rewrite !vec_range_prefix by lia. done.
Qed.

(** Primary outputs that are created without a tile share one dead output signal. Moving the
    first of two such nodes onto the layout redirects both outputs to it; the second node is not a
    primary output anymore, even after it has been moved onto the layout as well. *)
Theorem unplaced_outputs_collide :
  ∃ l, run [CreatePi "a" (tile 0 0); CreatePo (sig 0 0) "f" ucoord_default;
            CreatePo (sig 0 0) "g" ucoord_default; MoveNode 3 (tile 1 0) [sig 0 0];
            MoveNode 4 (tile 0 1) [sig 0 0]] example_empty = Some l ∧
       get_tile (strg l) 4 = tile 0 1 ∧ foreach_po l = Some [sig 1 0; sig 1 0] ∧
       is_po l 3 = Some true ∧ is_po l 4 = Some false.
Proof. by_running. Qed.

(** The reference counts follow the tiles, not the nodes: when a node is placed on a tile after
    a child signal to that tile was set, dropping the child lowers a count that was never raised.
    The count wraps around and the placed node is marked dead, without having been removed. *)
Theorem reference_count_wraps :
  ∃ l, run [CreateBuf (sig 0 0) (tile 1 0); CreatePi "a" (tile 0 0); MoveNode 2 (tile 1 0) []]
         example_empty = Some l ∧
       get_node_at (strg l) (tile 0 0) = 3 ∧ is_dead_node (strg l) 3 = Some true ∧
       foreach_node l = Some [0; 1; 2].
Proof. by_running. Qed.

(** A node that is not assigned to a tile is not marked dead, neither when it is created without
    a tile nor when it is moved off the layout. *)
Theorem unplaced_nodes_stay_alive :
  ∃ l, run [CreateBuf (sig 0 0) ucoord_default; CreatePi "a" (tile 0 0);
            MoveNode 3 ucoord_default []] example_empty = Some l ∧
       is_empty (strg l) = true ∧ foreach_node l = Some [0; 1; 2; 3].
Proof. by_running. Qed.

(** ** Data flow *)

(** C23: Incoming and outgoing data flow are converse relations between the tiles of a layout whose
    clock numbers do not depend on the layer: tile [a] feeds tile [b] exactly when [b] accepts from
    [a]. *)
Theorem data_flow_converse `{Mockturtle} {L} `{CoordinateLayoutLaws L} (l : gate_level_layout L)
    (a b : ucoord_t) :
  layout_wf l → representable (coordinate_layout (clocked l)) →
  scheme_wf (clocking (clocked l)) → layer_invariant (clocked l) →
  inside (dimension (coordinate_layout (clocked l))) a →
  inside (dimension (coordinate_layout (clocked l))) b →
  ∃ vin vout, incoming_data_flow l b = Some vin ∧ outgoing_data_flow l a = Some vout ∧
              (a ∈ vin ↔ b ∈ vout).
Proof.
  intros Hl Hd Hs Hinv Ha Hb.
  destruct (incoming_data_flow_spec l (lw_storage _ Hl) Hd Hs b Hb) as (vin & Ein & _ & Hin).
  destruct (outgoing_data_flow_spec l (lw_storage _ Hl) Hd Hs a Ha) as (vout & Eout & _ & Hout).
  exists vin, vout. split_and!; [done..|]. rewrite Hin, Hout, !Hinv by done.
  split; intros (? & Hadj%adjacent_layers & ?); done.
Qed.

Lemma data_flow_converse_witness :
  ∃ vin vout, incoming_data_flow example (tile 1 0) = Some vin ∧
              outgoing_data_flow example (tile 0 0) = Some vout ∧
              (tile 0 0 ∈ vin ↔ tile 1 0 ∈ vout).
Proof.
  apply (data_flow_converse example (tile 0 0) (tile 1 0)); [apply example_wf|..];
    rewrite (proj2 example_spec);
    [apply example_proper|apply example_scheme_wf|apply example_layer_invariant|..];
    vm_compute; repeat split; discriminate.
Defined.

(** C26: [foreach_fanin] of a placed node visits exactly those of its children whose tiles lie on,
    above or below an adjacent zone of the preceding clock number. *)
Theorem foreach_fanin_correct `{Mockturtle} {L} `{CoordinateLayoutLaws L}
    (l : gate_level_layout L) (n : Z) (b : ucoord_t) :
  layout_wf l → representable (coordinate_layout (clocked l)) →
  scheme_wf (clocking (clocked l)) → layer_invariant (clocked l) → 2 <= n →
  get_tile (strg l) n = b → inside (dimension (coordinate_layout (clocked l))) b →
  ∃ sigs d, foreach_fanin l n = Some sigs ∧ nodes (strg l) !! Z.to_nat n = Some d ∧
    ∀ a, inside (dimension (coordinate_layout (clocked l))) a →
      to_uint64 a ∈ sigs ↔
      to_uint64 a ∈ children d ∧
      set_z a (uz b) ∈ adjacent_coordinates (coordinate_layout (clocked l)) b ∧
      (get_clock_number (clocked l) a + 1) mod num_clocks (clocked l)
        = get_clock_number (clocked l) b.
Proof.
  intros Hl Hd Hs Hinv Hn Htile Hb. pose proof (lw_storage _ Hl) as Hst.
  destruct (incoming_data_flow_spec l Hst Hd Hs b Hb) as (vin & Ein & Hins & Hin).
  assert (is_dead b = false) as Hlive.
  { unfold is_dead. destruct Hb as [-> _]. done. }
  assert (get_node_at (strg l) b = n) as Hnode.
  { apply get_node_tiles; [done..|]. rewrite tiles_lookup by done.
    rewrite <-Htile in Hlive. apply placed_live in Hlive as [u Hu]; [|done..].
    rewrite Hu, <-Htile. f_equal. by apply get_tile_signal. }
  destruct (nodes (strg l) !! Z.to_nat n) as [d|] eqn:Ed.
  2:{ apply lookup_ge_None in Ed. pose proof (get_node_range (strg l) (to_uint64 b) Hst) as Hr.
      unfold get_node_at in Hnode. lia. }
  exists (to_uint64 <$> vin), d. unfold foreach_fanin. assert (n <=? 1 = false) as -> by lia.
  rewrite Htile, Ein. split_and!; [done..|]. intros a Ha. specialize (Hin a Ha).
  rewrite Hinv in Hin. unfold has_child in Hin. rewrite Hnode, Ed in Hin.
  rewrite list_elem_of_fmap. split.
  - intros (c & Hc & Hv). rewrite Forall_forall in Hins. pose proof (Hins _ Hv) as Hc'.
    apply to_uint64_inj in Hc; [|by eapply inside_coordinate_wf; [apply representable_proper|]..]. subst c. apply Hin in Hv. naive_solver.
  - intros (Hc & Hadj & Hclk). exists a. split; [done|]. apply Hin. eauto.
Qed.

Lemma foreach_fanin_correct_witness :
  ∃ sigs d, foreach_fanin example 3 = Some sigs ∧ nodes (strg example) !! Z.to_nat 3 = Some d ∧
    ∀ a, inside (dimension (coordinate_layout (clocked example))) a →
      to_uint64 a ∈ sigs ↔
      to_uint64 a ∈ children d ∧
      set_z a 0 ∈ adjacent_coordinates (coordinate_layout (clocked example)) (tile 1 0) ∧
      (get_clock_number (clocked example) a + 1) mod num_clocks (clocked example)
        = get_clock_number (clocked example) (tile 1 0).
Proof.
  apply (foreach_fanin_correct example 3 (tile 1 0)); [apply example_wf|..|lia|by vm_compute|];
    rewrite (proj2 example_spec);
    [apply example_proper|apply example_scheme_wf|apply example_layer_invariant|].
  vm_compute; repeat split; discriminate.
Defined.
