(* ===== verification/CountGateTypes.v ===== *)
(** * Counting gate types (include/fiction/algorithms/properties/count_gate_types.hpp)

    [count_gate_types] for gate-level layouts: the tests that the layout offers are tried in order and
    the counter of the first that holds is incremented. The members of the statistics for which a
    gate-level layout has no test stay 0. *)

From S2P Require Import Prelude.
From S2P Require Import Coordinates.
From S2P Require Import CoordinateLayout.
From S2P Require Import CartesianLayout.
From S2P Require Import ClockingScheme.
From S2P Require Import ClockedLayout.
From S2P Require Import GateLevelLayout.
From S2P Require Import GateLevelInvariant.
From S2P Require Import GateLevelDataFlow.
From S2P Require Import MockturtleModel.
From S2P Require Import GateLevelProperties.
#[local] Open Scope Z_scope.
Import Offset.
Import GateLevel.

Module CountGateTypes.

(** [count_gate_types_stats]; the members have type [uint64_t]. *)
Record count_gate_types_stats := Stats {
  num_fanout : Z; num_buf : Z; num_inv : Z; num_and2 : Z; num_or2 : Z; num_nand2 : Z; num_nor2 : Z;
  num_xor2 : Z; num_xnor2 : Z; num_and3 : Z; num_xor_and : Z; num_or_and : Z; num_onehot : Z;
  num_maj3 : Z; num_gamble : Z; num_dot : Z; num_mux : Z; num_and_xor : Z; num_other : Z;
}.

Definition new_stats : count_gate_types_stats :=
  Stats 0 0 0 0 0 0 0 0 0 0 0 0 0 0 0 0 0 0 0.

(** The counters that can change. *)
Inductive counter := FANOUT | BUF | INV | AND2 | OR2 | NAND2 | NOR2 | XOR2 | XNOR2 | MAJ3 | OTHER.

#[global] Instance counter_eq_dec : EqDecision counter.
Proof. solve_decision. Defined.

Definition get (c : counter) (st : count_gate_types_stats) : Z :=
  match c with
  | FANOUT => num_fanout st | BUF => num_buf st | INV => num_inv st | AND2 => num_and2 st
  | OR2 => num_or2 st | NAND2 => num_nand2 st | NOR2 => num_nor2 st | XOR2 => num_xor2 st
  | XNOR2 => num_xnor2 st | MAJ3 => num_maj3 st | OTHER => num_other st
  end.

(** [++pst.num_...;] *)
Definition incr (c : counter) (st : count_gate_types_stats) : count_gate_types_stats :=
  let b := λ d v, if decide (c = d) then wrap 64 (v + 1) else v in
  Stats (b FANOUT (num_fanout st)) (b BUF (num_buf st)) (b INV (num_inv st)) (b AND2 (num_and2 st))
    (b OR2 (num_or2 st)) (b NAND2 (num_nand2 st)) (b NOR2 (num_nor2 st)) (b XOR2 (num_xor2 st))
    (b XNOR2 (num_xnor2 st)) (num_and3 st) (num_xor_and st) (num_or_and st) (num_onehot st)
    (b MAJ3 (num_maj3 st)) (num_gamble st) (num_dot st) (num_mux st) (num_and_xor st)
    (b OTHER (num_other st)).

(** The sums that [report] prints. *)
Definition reported_other (st : count_gate_types_stats) : Z :=
  wrap 64 (num_and3 st + num_xor_and st + num_or_and st + num_onehot st + num_gamble st +
           num_dot st + num_mux st + num_and_xor st + num_other st).
Definition reported_total (st : count_gate_types_stats) : Z :=
  wrap 64 (num_fanout st + num_buf st + num_inv st + num_and2 st + num_or2 st + num_nand2 st +
           num_nor2 st + num_xor2 st + num_xnor2 st + num_and3 st + num_xor_and st + num_or_and st +
           num_onehot st + num_maj3 st + num_gamble st + num_dot st + num_mux st + num_and_xor st +
           num_other st).

Section Count.
Context `{MT : Mockturtle} {L : Type} `{HL : CoordinateLayout L}.
Implicit Types (l : gate_level_layout L).

(** The tests of a gate-level layout, in the order of the code. *)
Definition tests l : list (counter * (Z → option bool)) :=
  let s := strg l in
  [(FANOUT, is_fanout l); (BUF, is_buf s); (INV, is_inv s); (AND2, is_and s); (OR2, is_or s);
   (NAND2, is_nand s); (NOR2, is_nor s); (XOR2, is_xor s); (XNOR2, is_xnor s); (MAJ3, is_maj s)].

(** The chain of tests: the counter of the first one that holds; the others are not evaluated. *)
Fixpoint first_test (ts : list (counter * (Z → option bool))) (n : Z) : option (option counter) :=
  match ts with
  | [] => Some None
  | (c, test) :: ts' =>
      b ← test n;
      if (b : bool) then Some (Some c) else first_test ts' n
  end.

(** The body of the loop over the nodes. *)
Definition count_node l (st : count_gate_types_stats) (n : Z) : option count_gate_types_stats :=
  if negb (is_constant n) then
    c ← first_test (tests l) n;
    match c with
    | Some c => Some (incr c st)
    | None =>
        pi ← is_pi l n;
        Some (if (pi : bool) then st else incr OTHER st)
    end
  else Some st.

Fixpoint count_nodes l (ns : list Z) (st : count_gate_types_stats) : option count_gate_types_stats :=
  match ns with
  | [] => Some st
  | n :: ns' => st ← count_node l st n; count_nodes l ns' st
  end.

Definition count_gate_types l : option count_gate_types_stats :=
  ns ← foreach_node l;
  count_nodes l ns new_stats.
End Count.
End CountGateTypes.
Import CountGateTypes.

(** ** Lemmas *)

(** The literal that belongs to a counter. *)
Definition counter_literal (c : counter) : Z :=
  match c with
  | FANOUT | BUF => 2 | INV => 3 | AND2 => 4 | NAND2 => 5 | OR2 => 6 | NOR2 => 7 | XOR2 => 8
  | XNOR2 => 9 | MAJ3 => 10 | OTHER => 0
  end.

Lemma get_incr c d st :
  get d (incr c st) = if decide (c = d) then wrap 64 (get d st + 1) else get d st.
Proof. destruct c, d; done. Qed.

Section Counting.
Context `{MT : Mockturtle} `{CL : CoordinateLayout L} (l : gate_level_layout L).
Context (Hl : layout_wf l).

#[local] Abbreviation lit n := (literal_in (nodes (strg l)) n).

Lemma has_literal_total n k :
  0 <= n < Z.of_nat (length (nodes (strg l))) → has_literal (strg l) n k = Some (lit n =? k).
Proof using.
  intros (d & H1 & H2)%vec_at_lookup. unfold has_literal, literal_in. by rewrite H1, H2.
Qed.

Lemma is_fanout_total n :
  0 <= n < Z.of_nat (length (nodes (strg l))) →
  ∃ b, is_fanout l n = Some b ∧ (b = true → lit n = 2).
Proof using Hl.
  intros Hn. unfold is_fanout, is_wire, is_buf. rewrite has_literal_total by done. simpl.
  destruct (Z.eqb_spec (lit n) 2) as [E|]; [|by exists false].
  destruct (data_flow_total l (lw_storage _ Hl) (get_tile (strg l) n)) as [_ [v Hv]].
  unfold fanout_size. rewrite Hv. simpl. eauto.
Qed.

(** The counter that a node is counted by; [None] when it is not counted. *)
Definition counted (n : Z) : option counter :=
  match first_test (tests l) n with
  | Some (Some c) => Some c
  | _ => match is_pi l n with Some false => Some OTHER | _ => None end
  end.

Lemma pi_total n : ∃ b, is_pi l n = Some b.
Proof using Hl.
  unfold is_pi, vec_range. pose proof (lw_pis _ Hl) as Hp. unfold num_cis, num_ros in Hp.
  rewrite decide_True by lia. simpl. eauto.
Qed.

Lemma count_node_counted st n :
  2 <= n < Z.of_nat (length (nodes (strg l))) →
  count_node l st n = Some (match counted n with Some c => incr c st | None => st end) ∧
  match counted n with
  | Some FANOUT => is_fanout l n = Some true ∧ lit n = 2
  | Some BUF => is_fanout l n = Some false ∧ lit n = 2
  | Some OTHER => ¬ 2 <= lit n <= 10 ∧ is_pi l n = Some false
  | Some c => lit n = counter_literal c
  | None => ¬ 2 <= lit n <= 10 ∧ is_pi l n = Some true
  end.
Proof using Hl.
  intros Hn. destruct (is_fanout_total n) as (f & Ef & Hf); [lia|]. destruct (pi_total n) as [p Ep].
  unfold count_node, counted, is_constant. assert (n <=? 1 = false) as -> by lia. simpl.
  rewrite Ef, Ep. unfold is_buf, is_inv, is_and, is_or, is_nand, is_nor, is_xor, is_xnor, is_maj.
  rewrite !has_literal_total by lia. simpl. destruct f; simpl; [auto|].
  destruct (Z.eqb_spec (lit n) 2), (Z.eqb_spec (lit n) 3), (Z.eqb_spec (lit n) 4),
    (Z.eqb_spec (lit n) 6), (Z.eqb_spec (lit n) 5), (Z.eqb_spec (lit n) 7), (Z.eqb_spec (lit n) 8),
    (Z.eqb_spec (lit n) 9), (Z.eqb_spec (lit n) 10); simpl; try by split.
  destruct p; simpl; (split; [done|split; [lia|done]]).
Qed.

Lemma count_nodes_counted ns st :
  (∀ n, n ∈ ns → 0 <= n < Z.of_nat (length (nodes (strg l)))) →
  (∀ c, 0 <= get c st ∧ get c st + Z.of_nat (length ns) < 2 ^ 64) →
  ∃ st', count_nodes l ns st = Some st' ∧
    (∀ c, get c st' =
       get c st + Z.of_nat (length (filter (λ n, 2 <= n ∧ counted n = Some c) ns))) ∧
    num_and3 st' = num_and3 st ∧ num_xor_and st' = num_xor_and st ∧ num_or_and st' = num_or_and st ∧
    num_onehot st' = num_onehot st ∧ num_gamble st' = num_gamble st ∧ num_dot st' = num_dot st ∧
    num_mux st' = num_mux st ∧ num_and_xor st' = num_and_xor st.
Proof using Hl.
  revert st. induction ns as [|n ns IH]; intros st Hns Hst.
  { exists st. split_and!; try done. intros c. simpl. lia. }
  simpl in Hst. cbn [count_nodes].
  destruct (decide (2 <= n)) as [Hn|Hn].
  - assert (n ∈ n :: ns) as Hin by left. apply Hns in Hin.
    destruct (count_node_counted st n) as [-> _]; [lia|]. simpl.
    destruct (IH (match counted n with Some c => incr c st | None => st end)) as (st' & E & Hg & Hr).
    { intros m Hm. apply Hns. by right. }
    { intros c. specialize (Hst c). destruct (counted n) as [d|]; [|lia]. rewrite get_incr.
      case_decide; [rewrite wrap_small by (unfold in_width; lia)|]; lia. }
    exists st'. split; [done|]. split.
    + intros c. rewrite Hg, filter_cons. specialize (Hst c).
      destruct (counted n) as [d|]; [rewrite get_incr|].
      * destruct (decide (d = c)) as [->|Hd].
        { rewrite decide_True by done. rewrite wrap_small by (unfold in_width; lia). simpl. lia. }
        rewrite decide_False; [done|]. intros [_ [= ?]]. done.
      * by rewrite decide_False by (intros [_ ?]; done).
    + clear IH Hst. destruct (counted n) as [d|]; exact Hr.
  - unfold count_node, is_constant. assert (n <=? 1 = true) as -> by lia. simpl.
    destruct (IH st) as (st' & E & Hg & Hr).
    { intros m Hm. apply Hns. by right. }
    { intros c. specialize (Hst c). lia. }
    exists st'. split; [done|]. split; [|done]. intros c. rewrite Hg, filter_cons, decide_False by lia.
    done.
Qed.

(** The nodes that each counter counts. *)
Lemma counted_iff n :
  2 <= n < Z.of_nat (length (nodes (strg l))) →
  (counted n = Some FANOUT ↔ lit n = 2 ∧ is_fanout l n = Some true) ∧
  (counted n = Some FANOUT ∨ counted n = Some BUF ↔ lit n = 2) ∧
  (∀ c, c ≠ FANOUT → c ≠ BUF → c ≠ OTHER → counted n = Some c ↔ lit n = counter_literal c) ∧
  (counted n = Some OTHER ↔ ¬ 2 <= lit n <= 10 ∧ is_pi l n = Some false) ∧
  (counted n = None ↔ ¬ 2 <= lit n <= 10 ∧ is_pi l n = Some true).
Proof using Hl.
  intros Hn. destruct (count_node_counted new_stats n Hn) as [_ Hc].
  destruct (counted n) as [c|] eqn:E; clear E; generalize dependent (lit n);
    generalize (is_pi l n), (is_fanout l n); intros p f v Hc; (try destruct c); simpl in Hc;
    repeat match goal with H : _ ∧ _ |- _ => destruct H end; subst; split_and!;
    try (intros d ???; destruct d; try done; simpl);
    split; intros; repeat match goal with H : _ ∧ _ |- _ => destruct H end;
    repeat match goal with H : _ ∨ _ |- _ => destruct H end; try done; try (split; [lia|done]); try lia; auto.
Qed.
End Counting.

(** The number of nodes of a list that are not constants and have a property. *)
Definition number (ns : list Z) (P : Z → Prop) `{∀ n, Decision (P n)} : Z :=
  Z.of_nat (length (filter (λ n, 2 <= n ∧ P n) ns)).

Lemma number_ext ns (P Q : Z → Prop) `{∀ n, Decision (P n), ∀ n, Decision (Q n)} :
  (∀ n, n ∈ ns → 2 <= n → P n ↔ Q n) → number ns P = number ns Q.
Proof.
  intros HPQ. unfold number. do 2 f_equal. apply list_filter_ext_in. intros n Hn.
  split; intros [H2 Hx]; (split; [done|]); by apply (HPQ n).
Qed.

Lemma number_cons n ns (P : Z → Prop) `{∀ n, Decision (P n)} :
  number (n :: ns) P = number ns P + Z.b2z (bool_decide (2 <= n ∧ P n)).
Proof. unfold number. rewrite filter_cons. case_decide; case_bool_decide; simpl; try done; lia. Qed.

Lemma number_or ns (P Q : Z → Prop) `{∀ n, Decision (P n), ∀ n, Decision (Q n)} :
  (∀ n, P n → Q n → False) → number ns (λ n, P n ∨ Q n) = number ns P + number ns Q.
Proof.
  intros HPQ. induction ns as [|n ns IH]; [done|]. rewrite !number_cons, IH.
  repeat case_bool_decide; simpl; try lia; exfalso; naive_solver.
Qed.

(** A partition of the nodes by a partial function to counters. *)
Lemma number_partition ns (f : Z → option counter) :
  number ns (λ _, True) =
    number ns (λ n, f n = Some FANOUT) + number ns (λ n, f n = Some BUF) +
    number ns (λ n, f n = Some INV) + number ns (λ n, f n = Some AND2) +
    number ns (λ n, f n = Some OR2) + number ns (λ n, f n = Some NAND2) +
    number ns (λ n, f n = Some NOR2) + number ns (λ n, f n = Some XOR2) +
    number ns (λ n, f n = Some XNOR2) + number ns (λ n, f n = Some MAJ3) +
    number ns (λ n, f n = Some OTHER) + number ns (λ n, f n = None).
Proof.
  induction ns as [|n ns IH]; [done|]. rewrite !number_cons, IH. clear IH.
  destruct (decide (2 <= n)).
  - destruct (f n) as [[]|]; repeat
      first [rewrite (bool_decide_eq_true_2 (2 <= n ∧ _)) by done
            |rewrite (bool_decide_eq_false_2 (2 <= n ∧ _)) by (by intros [_ ?])]; simpl; lia.
  - rewrite !bool_decide_eq_false_2 by (by intros [? _]). simpl. lia.
Qed.

Lemma number_bounds ns (P : Z → Prop) `{∀ n, Decision (P n)} :
  0 <= number ns P <= Z.of_nat (length ns).
Proof. unfold number. pose proof (length_filter (λ n, 2 <= n ∧ P n) ns). lia. Qed.

(** * Properties *)

(** On a well-formed layout [count_gate_types] returns, and its counters are exact: among the alive
    nodes that are not constants, buffers and fan-outs together are those with the literal of the
    identity, told apart by [is_fanout], every other counter is the number of nodes with its literal,
    and [num_other] that of the nodes with another literal that are not primary inputs. The total that
    [report] prints is the number of all these nodes but the uncounted primary inputs. *)
Theorem count_gate_types_exact `{Mockturtle} {L} `{CoordinateLayout L} (l : gate_level_layout L) :
  layout_wf l → Z.of_nat (length (nodes (strg l))) < 2 ^ 32 →
  ∃ ns st, foreach_node l = Some ns ∧ count_gate_types l = Some st ∧
    let lit n := literal_in (nodes (strg l)) n in
    num_fanout st = number ns (λ n, lit n = 2 ∧ is_fanout l n = Some true) ∧
    num_fanout st + num_buf st = number ns (λ n, lit n = 2) ∧
    (∀ c, c ∉ [FANOUT; BUF; OTHER] → get c st = number ns (λ n, lit n = counter_literal c)) ∧
    num_other st = number ns (λ n, ¬ 2 <= lit n <= 10 ∧ is_pi l n = Some false) ∧
    reported_other st = num_other st ∧
    reported_total st + number ns (λ n, ¬ 2 <= lit n <= 10 ∧ is_pi l n = Some true)
      = number ns (λ _, True).
Proof.
  intros Hl Hlen. destruct (foreach_node_spec l (lw_storage _ Hl) Hlen) as (ns & Ens & Hnd & Hns).
  assert (length ns <= Z.to_nat (Z.of_nat (length (nodes (strg l)))))%nat as Hle.
  { rewrite <-(length_seqZ 0). apply submseteq_length, NoDup_submseteq; [done|].
    intros n Hn%Hns. rewrite elem_of_seqZ. lia. }
  destruct (count_nodes_counted l Hl ns new_stats) as (st & Est & Hg & R1 & R2 & R3 & R4 & R5 & R6 & R7 & R8).
  { intros n Hn%Hns. lia. }
  { intros c. destruct c; simpl; lia. }
  exists ns, st. split; [done|]. split; [unfold count_gate_types; rewrite Ens; exact Est|].
  assert (∀ c, get c st = number ns (λ n, counted l n = Some c)) as Hget.
  { intros c. rewrite Hg. by destruct c. }
  assert (∀ n, n ∈ ns → 2 <= n → _) as Hclass
    by (intros n Hn%Hns H2; exact (counted_iff l Hl n ltac:(lia))).
  pose proof (Hget FANOUT) as G1. pose proof (Hget BUF) as G2. pose proof (Hget OTHER) as G3.
  pose proof (Hget INV) as G4. pose proof (Hget AND2) as G5. pose proof (Hget OR2) as G6.
  pose proof (Hget NAND2) as G7. pose proof (Hget NOR2) as G8. pose proof (Hget XOR2) as G9.
  pose proof (Hget XNOR2) as G10. pose proof (Hget MAJ3) as G11. simpl in G1, G2, G3, G4, G5, G6, G7, G8, G9, G10, G11.
  pose proof (number_partition ns (counted l)) as Hpart. rewrite <-G1, <-G2, <-G3, <-G4, <-G5, <-G6,
    <-G7, <-G8, <-G9, <-G10, <-G11 in Hpart.
  assert (reported_total st = num_fanout st + num_buf st + num_inv st + num_and2 st + num_or2 st +
    num_nand2 st + num_nor2 st + num_xor2 st + num_xnor2 st + num_maj3 st + num_other st) as Htot.
  { unfold reported_total. rewrite wrap_small; [simpl in *; lia|]. unfold in_width; simpl in *. 
    pose proof (number_bounds ns (λ _, True)). pose proof (number_bounds ns (λ n, counted l n = None)).
    split; [|lia]. rewrite R1, R2, R3, R4, R5, R6, R7, R8, G1, G2, G3, G4, G5, G6, G7, G8, G9, G10, G11.
    simpl. unfold number. lia. }
  simpl. split_and!.
  - rewrite G1. apply number_ext. intros n Hn H2. apply Hclass; done.
  - rewrite G1, G2, <-number_or by congruence. apply number_ext. intros n Hn H2. apply Hclass; done.
  - intros c Hc. rewrite !elem_of_cons in Hc. rewrite Hget. apply number_ext. intros n Hn H2.
    apply Hclass; naive_solver.
  - rewrite G3. apply number_ext. intros n Hn H2. apply Hclass; done.
  - unfold reported_other. rewrite R1, R2, R3, R4, R5, R6, R7, R8. simpl. rewrite wrap_small; [done|].
    rewrite G3. unfold in_width. pose proof (number_bounds ns (λ n, counted l n = Some OTHER)). lia.
  - rewrite Htot, Hpart. apply Z.add_cancel_l. apply number_ext. intros n Hn H2. symmetry.
    apply Hclass; done.
Qed.

Lemma count_gate_types_exact_witness :
  ∃ ns st, foreach_node example = Some ns ∧ count_gate_types example = Some st ∧
    let lit n := literal_in (nodes (strg example)) n in
    num_fanout st = number ns (λ n, lit n = 2 ∧ is_fanout example n = Some true) ∧
    num_fanout st + num_buf st = number ns (λ n, lit n = 2) ∧
    (∀ c, c ∉ [FANOUT; BUF; OTHER] → get c st = number ns (λ n, lit n = counter_literal c)) ∧
    num_other st = number ns (λ n, ¬ 2 <= lit n <= 10 ∧ is_pi example n = Some false) ∧
    reported_other st = num_other st ∧
    reported_total st + number ns (λ n, ¬ 2 <= lit n <= 10 ∧ is_pi example n = Some true)
      = number ns (λ _, True).
Proof. apply (count_gate_types_exact example); [apply example_wf|by vm_compute]. Defined.
