(* ===== verification/CriticalPath.v ===== *)
(** * Critical path and throughput
      (include/fiction/algorithms/properties/critical_path_length_and_throughput.hpp)

    The recursion over the data flow of a gate-level layout that computes the delay of a signal, with
    its cache, and the statistics derived from it. The order in which [std::sort] leaves paths of equal
    length is unspecified: the sorting function is a parameter with the documented postcondition.
    The recursion takes fuel; it is [None] when the fuel runs out, that is, when the calls nest
    deeper. *)

From stdpp Require Import sorting.
From S2P Require Import Prelude.
From S2P Require Import Coordinates.
From S2P Require Import CoordinateLayout.
From S2P Require Import CartesianLayout.
From S2P Require Import ClockingScheme.
From S2P Require Import ClockedLayout.
From S2P Require Import GateLevelLayout.
From S2P Require Import GateLevelInvariant.
From S2P Require Import GateLevelDataFlow.
From S2P Require Import MockturtleModel.
From S2P Require Import GateLevelProperties.
#[local] Open Scope Z_scope.
Import Offset.
Import Clocked.
Import GateLevel.

Module CriticalPath.

(** [path_info]; the members have type [uint64_t]. *)
Record path_info := PathInfo { length : Z; delay : Z; diff : Z }.

Definition shorter (p q : path_info) : Prop := length p <= length q.

(** [std::sort] by the length. *)
Class PathSort := path_sort : list path_info → list path_info.
Class PathSortLaws `{PathSort} := {
  path_sort_permutation v : path_sort v ≡ₚ v;
  path_sort_sorted v : Sorted shorter (path_sort v);
}.

(** [critical_path_length_and_throughput_stats]. *)
Record stats := Stats { critical_path_length : Z; throughput : Z }.

(** [static_cast<uint64_t>(std::abs(static_cast<int64_t>(a - b)))]; [std::abs] of the smallest number
    is undefined. *)
Definition abs_difference (a b : Z) : option Z :=
  let d := wrap 64 (a - b) in
  let i := if d <? 2 ^ 63 then d else d - 2 ^ 64 in
  if i =? - 2 ^ 63 then None else Some (Z.abs i).

(** [std::unordered_map<tile<Lyt>, path_info>]. *)
Abbreviation delay_cache := (gmap ucoord_t path_info).

Section CriticalPath.
Context `{MT : Mockturtle} {L : Type} `{HL : CoordinateLayout L} `{PathSort}.
Implicit Types (l : gate_level_layout L).

(** The dominant path of the incoming ones: the only one, or the longest with the difference of the
    delays of the longest and the shortest. *)
Definition dominant_path (infos : list path_info) : option path_info :=
  match infos with
  | [i] => Some i
  | _ =>
      let infos := path_sort infos in
      back ← last infos;
      front ← head infos;
      d ← abs_difference (delay back) (delay front);
      Some (PathInfo (length back) (delay back) d)
  end.

(** [++dominant_path.length; ++dominant_path.delay;] *)
Definition incorporate_self (p : path_info) : path_info :=
  PathInfo (wrap 64 (length p + 1)) (wrap 64 (delay p + 1)) (diff p).

(** The additional path of a primary input. *)
Definition input_path l (t : ucoord_t) : path_info :=
  PathInfo 1 ((get_clock_number (clocked l) t + (num_clocks (clocked l) - 1))
                mod num_clocks (clocked l)) 0.

(** [std::transform] over the incoming tiles, with the cache that the calls share. *)
Fixpoint transform (f : delay_cache → ucoord_t → option (delay_cache * path_info))
    (c : delay_cache) (idf : list ucoord_t) : option (delay_cache * list path_info) :=
  match idf with
  | [] => Some (c, [])
  | t :: idf' =>
      '(c, p) ← f c t;
      '(c, ps) ← transform f c idf';
      Some (c, p :: ps)
  end.

Fixpoint signal_delay (fuel : nat) l (c : delay_cache) (t : ucoord_t) :
    option (delay_cache * path_info) :=
  match fuel with
  | O => None
  | S fuel' =>
      if is_empty_tile (strg l) t then Some (c, PathInfo 0 0 0)
      else
        idf ← incoming_data_flow l t;
        if is_nil idf then Some (c, PathInfo 1 (get_clock_number (clocked l) t) 0)
        else
          match c !! t with
          | Some p => Some (c, p)
          | None =>
              '(c, infos) ← transform (signal_delay fuel' l) c idf;
              pi ← is_pi_tile l t;
              dominant ← dominant_path (if (pi : bool) then infos ++ [input_path l t] else infos);
              let dominant := incorporate_self dominant in
              wire ← is_wire_tile l t;
              Some (if (wire : bool) then c else <[t := dominant]> c, dominant)
          end
  end.

(** The loop over the outputs. *)
Fixpoint output_delays (fuel : nat) l (pos : list Z) (c : delay_cache) (cpl : Z) :
    option (delay_cache * Z) :=
  match pos with
  | [] => Some (c, cpl)
  | po :: pos' =>
      '(c, p) ← signal_delay fuel l c (of_uint64 po);
      output_delays fuel l pos' c (Z.max (length p) cpl)
  end.

(** The largest difference in the cache, 0 when it is empty. *)
Definition max_diff (c : delay_cache) : Z := map_fold (λ _ p m, Z.max (diff p) m) 0 c.

Definition critical_path_length_and_throughput (fuel : nat) l : option stats :=
  pos ← foreach_po l;
  '(c, cpl) ← output_delays fuel l pos ∅ 0;
  Some (Stats cpl (wrap 64 (max_diff c / num_clocks (clocked l) + 1))).
End CriticalPath.
End CriticalPath.
Import CriticalPath.

(** A sorting function with the laws. *)
Module PathSortModel.
#[global] Instance shorter_dec p q : Decision (shorter p q).
Proof. unfold shorter. apply _. Defined.

#[global] Instance path_sort_model : PathSort := merge_sort shorter.

#[global] Instance path_sort_model_laws : PathSortLaws.
Proof.
  split.
  - intros v. apply merge_sort_Permutation.
  - intros v. apply Sorted_merge_sort. intros p q. unfold shorter. lia.
Qed.
End PathSortModel.

(** ** The reference: the same recursion without a cache *)

Section Reference.
Context `{MT : Mockturtle} `{CL : CoordinateLayout L} `{PathSort}.

Fixpoint path_of (fuel : nat) (l : gate_level_layout L) (t : ucoord_t) : option path_info :=
  match fuel with
  | O => None
  | S fuel' =>
      if is_empty_tile (strg l) t then Some (PathInfo 0 0 0)
      else
        idf ← incoming_data_flow l t;
        if is_nil idf then Some (PathInfo 1 (get_clock_number (clocked l) t) 0)
        else
          infos ← mapM (path_of fuel' l) idf;
          pi ← is_pi_tile l t;
          incorporate_self <$> dominant_path (if (pi : bool) then infos ++ [input_path l t] else infos)
  end.

Context (l : gate_level_layout L).

(** The incoming tiles of a tile. *)
Definition flow (t : ucoord_t) : list ucoord_t := default [] (incoming_data_flow l t).

(** Tile [a] feeds the occupied tile [t]. *)
Definition flows (a t : ucoord_t) : Prop := is_empty_tile (strg l) t = false ∧ a ∈ flow t.

(** The tiles whose paths are cached: gates with incoming data. *)
Definition cached_gate (t : ucoord_t) : Prop :=
  is_empty_tile (strg l) t = false ∧ flow t ≠ [] ∧ is_wire_tile l t = Some false.

(** A chain of [k] occupied tiles along the data flow that ends at a tile. *)
Inductive data_path : ucoord_t → nat → Prop :=
  | data_path_one t : is_empty_tile (strg l) t = false → data_path t 1
  | data_path_step a t k :
      is_empty_tile (strg l) t = false → a ∈ flow t → data_path a k → data_path t (S k).
End Reference.

(** ** The dominant path *)

Section Dominant.
Context `{Laws : PathSortLaws}.

(** A path within a bound under which no arithmetic wraps. *)
Definition bounded (B : Z) (p : path_info) : Prop :=
  0 <= length p <= B ∧ 0 <= delay p <= B ∧ 0 <= diff p <= B.

Lemma bounded_mono B B' p : B <= B' → bounded B p → bounded B' p.
Proof using. unfold bounded. lia. Qed.

Lemma abs_difference_small a b B :
  0 <= a <= B → 0 <= b <= B → B < 2 ^ 62 → abs_difference a b = Some (Z.abs (a - b)).
Proof using.
  intros Ha Hb HB. unfold abs_difference, wrap.
  destruct (decide (0 <= a - b)).
  - rewrite Z.mod_small by lia. assert (a - b <? 2 ^ 63 = true) as -> by lia.
    by assert (a - b =? - 2 ^ 63 = false) as -> by lia.
  - rewrite <-(Z.mod_add _ 1), Z.mod_small by lia.
    assert (a - b + 1 * 2 ^ 64 <? 2 ^ 63 = false) as -> by lia.
    replace (a - b + 1 * 2 ^ 64 - 2 ^ 64) with (a - b) by lia.
    by assert (a - b =? - 2 ^ 63 = false) as -> by lia.
Qed.

Lemma sorted_last v p : Sorted shorter v → last v = Some p → ∀ i, i ∈ v → length i <= length p.
Proof using.
  intros Hs Hl i Hi. apply Sorted_StronglySorted in Hs; [|intros ???; unfold shorter; lia].
  induction Hs as [|a v Hs IH Ha]; [done|]. destruct v as [|b v].
  { injection Hl as ->. apply list_elem_of_singleton in Hi as ->. done. }
  apply elem_of_cons in Hi as [->|Hi]; [|by apply IH].
  rewrite Forall_forall in Ha. apply (Ha p). by apply last_Some_elem_of.
Qed.

(** The dominant path has the greatest length of the incoming ones. *)
Lemma dominant_path_spec B v :
  v ≠ [] → Forall (bounded B) v → B < 2 ^ 62 →
  ∃ p, dominant_path v = Some p ∧ bounded B p ∧
    (∃ i, i ∈ v ∧ length i = length p) ∧ (∀ i, i ∈ v → length i <= length p).
Proof using Laws.
  intros Hne Hv HB.
  assert (∃ p, (back ← last (path_sort v); front ← head (path_sort v);
     d ← abs_difference (delay back) (delay front);
     Some (PathInfo (length back) (delay back) d)) = Some p ∧ bounded B p ∧
    (∃ i, i ∈ v ∧ length i = length p) ∧ (∀ i, i ∈ v → length i <= length p)) as Hsort.
  { pose proof (path_sort_permutation v) as Hp. pose proof (path_sort_sorted v) as Hs.
    destruct (last (path_sort v)) as [b|] eqn:Eb.
    2:{ apply last_None in Eb. rewrite Eb in Hp. by apply Permutation_nil_l in Hp. }
    destruct (path_sort v) as [|f w] eqn:E; [done|]. simpl.
    assert (b ∈ v) as Hb by (rewrite <-Hp; by apply last_Some_elem_of).
    assert (f ∈ v) as Hf by (rewrite <-Hp; by left).
    rewrite Forall_forall in Hv. destruct (Hv b Hb) as (? & ? & ?), (Hv f Hf) as (? & ? & ?).
    rewrite (abs_difference_small _ _ B) by done. simpl. eexists. split; [done|].
    split; [unfold bounded; simpl; lia|]. split; [by exists b|]. simpl.
    intros i Hi. eapply sorted_last; [exact Hs|exact Eb|]. by rewrite Hp. }
  unfold dominant_path. destruct v as [|p [|q v]]; [done| |exact Hsort]. exists p.
  rewrite Forall_cons in Hv. destruct Hv as [Hp _]. split_and!; [done|done|..].
  - exists p. split; [by left|done].
  - by intros i ->%list_elem_of_singleton.
Qed.
End Dominant.

(** ** The reference on an acyclic data flow *)

(** The statistics that the reference determines. *)
Definition path_statistics `{Mockturtle} `{CoordinateLayout L} `{PathSort} (fuel : nat)
    (l : gate_level_layout L) (pos : list Z) (st : stats) : Prop :=
  (0 <= critical_path_length st <= Z.of_nat fuel ∧
   (∀ o k, o ∈ pos → data_path l (of_uint64 o) k → Z.of_nat k <= critical_path_length st) ∧
   (critical_path_length st = 0 ∨
      ∃ o, o ∈ pos ∧ data_path l (of_uint64 o) (Z.to_nat (critical_path_length st)))) ∧
  ∃ d, throughput st = d / num_clocks (clocked l) + 1 ∧ 0 <= d ∧
    (∀ o g p, o ∈ pos → rtc (flows l) g (of_uint64 o) → cached_gate l g →
       path_of fuel l g = Some p → diff p <= d) ∧
    (d = 0 ∨ ∃ o g p, o ∈ pos ∧ rtc (flows l) g (of_uint64 o) ∧ cached_gate l g ∧
       path_of fuel l g = Some p ∧ diff p = d).

Section Acyclic.
Context `{MT : Mockturtle} `{CL : CoordinateLayout L} `{Laws : PathSortLaws}.
Context (l : gate_level_layout L) (rank : ucoord_t → nat) (P : ucoord_t → Prop) (N : nat).

(** The data flow stays among the tiles of [P] and goes up in [rank]. *)
Hypothesis Hl : layout_wf l.
Hypothesis Hscheme : scheme_wf (clocking (clocked l)).
Hypothesis Hflow : ∀ t a, P t → a ∈ flow l t → P a ∧ (rank a < rank t)%nat.
Hypothesis Hrank : ∀ t, P t → (rank t < N)%nat.
Hypothesis HN : Z.of_nat N < 2 ^ 61.
Hypothesis Hpi : ∀ t, P t → is_pi_tile l t = Some true → flow l t = [].

Lemma incoming_flow t : incoming_data_flow l t = Some (flow l t).
Proof using All.
  unfold flow. by destruct (data_flow_total l (lw_storage _ Hl) t) as [[v ->] _].
Qed.

Lemma is_wire_tile_total t : is_Some (is_wire_tile l t).
Proof using All.
  destruct (vec_at_lookup (nodes (strg l)) (get_node_at (strg l) t)) as (d & E & _).
  { apply get_node_range, Hl. }
  unfold is_wire_tile, is_wire, is_buf, has_literal. rewrite E. by eexists.
Qed.

Lemma is_pi_tile_total t : is_Some (is_pi_tile l t).
Proof using All.
  pose proof (lw_pis _ Hl) as Hp. unfold num_cis, num_ros in Hp.
  unfold is_pi_tile, is_pi, vec_range. rewrite decide_True by lia. by eexists.
Qed.

(** Tiles with incoming data are not primary inputs. *)
Lemma not_pi t : P t → flow l t ≠ [] → is_pi_tile l t = Some false.
Proof using All.
  intros Ht Hne. destruct (is_pi_tile_total t) as [[] E]; [|done]. by rewrite Hpi in Hne.
Qed.

(** Enough fuel for a tile. *)
Definition ref (t : ucoord_t) : option path_info := path_of N l t.

Lemma path_of_fuel n m t :
  P t → (rank t < n)%nat → (rank t < m)%nat → path_of n l t = path_of m l t.
Proof using All.
  revert m t. induction n as [|n IH]; intros [|m] t Ht Hn Hm; [lia..|]. simpl.
  case_match; [done|]. rewrite incoming_flow. simpl. case_match; [done|].
  assert (mapM (path_of n l) (flow l t) = mapM (path_of m l) (flow l t)) as ->; [|done].
  assert (∀ v, (∀ a, a ∈ v → a ∈ flow l t) → mapM (path_of n l) v = mapM (path_of m l) v) as Hv.
  { induction v as [|a v IHv]; intros Hv; [done|]. simpl.
    destruct (Hflow t a) as [Pa Ra]; [done|apply Hv; by left|].
    rewrite (IH m a), IHv; [done| |done|lia|lia]. intros b Hb. apply Hv. by right. }
  by apply Hv.
Qed.

Lemma ref_S t : P t → ref t = path_of (S N) l t.
Proof using All. intros Ht. pose proof (Hrank t Ht). apply path_of_fuel; [done|lia..]. Qed.

Lemma ref_unfold t :
  P t → is_empty_tile (strg l) t = false → flow l t ≠ [] →
  ref t = (infos ← mapM ref (flow l t); incorporate_self <$> dominant_path infos).
Proof using All.
  intros Ht He Hf. rewrite ref_S by done. simpl. rewrite He, incoming_flow. simpl. rewrite not_pi by done.
  by destruct (flow l t).
Qed.

(** What the path of a tile is: the longest chain along the data flow that ends there. *)
Record path_ok (t : ucoord_t) (p : path_info) : Prop := {
  path_bounded : bounded (Z.of_nat (rank t) + 2 ^ 8) p;
  path_empty : is_empty_tile (strg l) t = true → p = PathInfo 0 0 0;
  path_chain : is_empty_tile (strg l) t = false →
               1 <= length p <= Z.of_nat (rank t) + 1 ∧ data_path l t (Z.to_nat (length p));
  path_longest k : data_path l t k → Z.of_nat k <= length p;
}.

Lemma empty_no_path t k : is_empty_tile (strg l) t = true → data_path l t k → False.
Proof using. intros E Hk. destruct Hk; congruence. Qed.

Lemma ref_ok t : P t → ∃ p, ref t = Some p ∧ path_ok t p.
Proof using All.
  remember (rank t) as r eqn:Er. revert t Er.
  induction (lt_wf r) as [r _ IH]. intros t -> Ht.
  destruct (is_empty_tile (strg l) t) eqn:He.
  { exists (PathInfo 0 0 0). split.
    - rewrite ref_S by done. simpl. by rewrite He.
    - split; [unfold bounded; simpl; lia|done|congruence|].
      intros k Hk. by destruct (empty_no_path t k). }
  destruct (decide (flow l t = [])) as [Hf|Hf].
  { pose proof (clock_number_bound _ t Hscheme) as Hc. pose proof (scheme_num_clocks _ Hscheme) as Hn.
    exists (PathInfo 1 (get_clock_number (clocked l) t) 0). split.
    - rewrite ref_S by done. simpl. by rewrite He, incoming_flow, Hf.
    - unfold get_clock_number in *. split; [unfold bounded; simpl; lia|congruence|..].
      + intros _. split; [simpl; lia|]. by apply data_path_one.
      + intros k Hk. destruct Hk as [|a t k _ Ha _]; simpl; [lia|]. rewrite Hf in Ha. by apply not_elem_of_nil in Ha. }
  rewrite ref_unfold by done.
  assert (∃ v, mapM ref (flow l t) = Some v ∧ Forall2 path_ok (flow l t) v) as (v & -> & Hv).
  { assert (∀ u, (∀ a, a ∈ u → a ∈ flow l t) → ∃ v, mapM ref u = Some v ∧ Forall2 path_ok u v) as Hu.
    { induction u as [|a u IHu]; intros Hu; [by exists []|]. simpl.
      destruct (Hflow t a) as [Pa Ra]; [done|apply Hu; by left|].
      destruct (IH (rank a) Ra a eq_refl Pa) as (p & -> & Hp). simpl.
      destruct IHu as (v & -> & Hv); [intros b Hb; apply Hu; by right|]. simpl. eauto. }
    by apply Hu. }
  simpl. pose proof (Hrank t Ht).
  assert (∀ i, i ∈ v → ∃ a, a ∈ flow l t ∧ path_ok a i) as Hback.
  { intros i [k Hk]%list_elem_of_lookup. eapply Forall2_lookup_r in Hk as (a & Ha & Hok); [|exact Hv].
    exists a. split; [by eapply list_elem_of_lookup_2|done]. }
  destruct (dominant_path_spec (Z.of_nat (rank t) + 2 ^ 8 - 1) v) as (p & -> & Hb & (i & Hi & Hlen) & Hmax).
  { intros ->. apply Forall2_length in Hv. by destruct (flow l t). }
  { apply Forall_forall. intros i (a & Ha & Hok)%Hback. eapply bounded_mono, path_bounded, Hok.
    apply Hflow in Ha as [_ Ha]; [|done]. lia. }
  { lia. }
  simpl. eexists. split; [done|]. unfold bounded in Hb.
  assert (wrap 64 (length p + 1) = length p + 1) as E1 by (apply wrap_small; unfold in_width; lia).
  assert (wrap 64 (delay p + 1) = delay p + 1) as E2 by (apply wrap_small; unfold in_width; lia).
  destruct (Hback i Hi) as (a & Ha & Hok). destruct (Hflow t a Ht Ha) as [Pa Ra].
  unfold incorporate_self. rewrite E1, E2.
  split; [unfold bounded; simpl; lia|congruence|..]; simpl.
  - intros _. rewrite <-Hlen.
    destruct (is_empty_tile (strg l) a) eqn:Ea.
    + rewrite (path_empty _ _ Hok Ea). simpl. split; [lia|]. by apply data_path_one.
    + destruct (path_chain _ _ Hok Ea) as [H1 H2]. split; [lia|].
      replace (Z.to_nat (length i + 1)) with (S (Z.to_nat (length i))) by lia.
      by apply data_path_step with a.
  - intros k Hk. destruct Hk as [t _|b t k _ Hfb Hk]; [lia|].
    apply list_elem_of_lookup in Hfb as [j Hj]. pose proof Hj as Hj'.
    eapply Forall2_lookup_l in Hj as (q & Hq & Hokq); [|exact Hv].
    apply path_longest with (k := k) in Hokq; [|done].
    specialize (Hmax q (list_elem_of_lookup_2 _ _ _ Hq)). lia.
Qed.

(** *** The cache *)

(** The entries of the cache are the paths of cached gates, with all the gates below them. *)
Definition cache_ok (c : delay_cache) : Prop := ∀ t p, c !! t = Some p →
  ref t = Some p ∧ cached_gate l t ∧ ∀ u, rtc (flows l) u t → cached_gate l u → is_Some (c !! u).

(** What the visit of some tiles adds to the cache: the gates that reach one of them. *)
Record extends (c c' : delay_cache) (ts : list ucoord_t) : Prop := {
  extends_sub : c ⊆ c';
  extends_covers t u : t ∈ ts → rtc (flows l) u t → cached_gate l u → is_Some (c' !! u);
  extends_only u : is_Some (c' !! u) → is_Some (c !! u) ∨ ∃ t, t ∈ ts ∧ rtc (flows l) u t;
}.

Lemma extends_nil c : extends c c [].
Proof using. split; [done|intros t u Ht; by apply not_elem_of_nil in Ht|auto]. Qed.

Lemma is_Some_weaken (c c' : delay_cache) u : c ⊆ c' → is_Some (c !! u) → is_Some (c' !! u).
Proof using. intros Hs [p Hp]. exists p. by eapply lookup_weaken. Qed.

Lemma extends_cons c c1 c2 t ts : extends c c1 [t] → extends c1 c2 ts → extends c c2 (t :: ts).
Proof using.
  intros [S1 C1 O1] [S2 C2 O2]. split; [by etrans|..].
  - intros a u [->|Ha]%elem_of_cons Hr Hu; [|by eapply C2].
    eapply is_Some_weaken; [exact S2|]. eapply C1; [by left|done..].
  - intros u [Hu|(a & Ha & Hr)]%O2.
    + apply O1 in Hu as [|(a & ->%list_elem_of_singleton & Hr)]; [by left|].
      right. exists t. split; [by left|done].
    + right. exists a. split; [by right|done].
Qed.

(** A call of [signal_delay] behaves as the reference. *)
Definition call_ok (f : delay_cache → ucoord_t → option (delay_cache * path_info)) (t : ucoord_t) :
    Prop :=
  ∀ c, cache_ok c →
    ∃ c' p, f c t = Some (c', p) ∧ ref t = Some p ∧ cache_ok c' ∧ extends c c' [t].

Lemma transform_ok f v c :
  (∀ a, a ∈ v → call_ok f a) → cache_ok c →
  ∃ c' ps, transform f c v = Some (c', ps) ∧ mapM ref v = Some ps ∧ cache_ok c' ∧ extends c c' v.
Proof using.
  revert c. induction v as [|a v IH]; intros c Hf Hc.
  { exists c, []. split_and!; [done..|apply extends_nil]. }
  destruct (Hf a (list_elem_of_here _ _) c Hc) as (c1 & p & E1 & E2 & Hc1 & X1).
  destruct (IH c1) as (c2 & ps & E3 & E4 & Hc2 & X2); [intros b Hb; apply Hf; by right|done|].
  exists c2, (p :: ps). simpl. rewrite E1, E2. simpl. rewrite E3, E4. simpl.
  split_and!; [done..|]. by eapply extends_cons.
Qed.

(** The tiles that reach an occupied tile are the tile itself and those that reach a feeding one. *)
Lemma reaches_inv u t : rtc (flows l) u t → u = t ∨ ∃ a, a ∈ flow l t ∧ rtc (flows l) u a.
Proof using.
  intros [->|(a & Hr & _ & Ha)]%rtc_inv_r; [by left|right]. by exists a.
Qed.

Lemma cache_gate c c' t p :
  P t → is_empty_tile (strg l) t = false → flow l t ≠ [] → is_wire_tile l t = Some false →
  ref t = Some p → c !! t = None → cache_ok c' → extends c c' (flow l t) →
  cache_ok (<[t := p]> c') ∧ extends c (<[t := p]> c') [t].
Proof using.
  intros Ht He Hf Hw Ep Hct Hc' [S1 C1 O1].
  assert (∀ u, is_Some (c' !! u) → is_Some (<[t := p]> c' !! u)) as Hins.
  { intros u Hu. destruct (decide (u = t)) as [->|]; [rewrite lookup_insert_eq|rewrite lookup_insert_ne]; done. }
  assert (∀ u, rtc (flows l) u t → cached_gate l u → is_Some (<[t := p]> c' !! u)) as Hcov.
  { intros u [->|(a & Ha & Hr)]%reaches_inv Hu; [by rewrite lookup_insert_eq|]. apply Hins. by eapply C1. }
  split; [|split].
  - intros a q. destruct (decide (a = t)) as [->|Hne].
    + rewrite lookup_insert_eq. intros [= <-]. by split_and!.
    + rewrite lookup_insert_ne by done. intros (E & Hg & Hu)%Hc'. split_and!; [done..|].
      intros u Hr Hgu. apply Hins. by apply Hu.
  - etrans; [exact S1|]. apply map_subseteq_spec. intros a q Ha. destruct (decide (a = t)) as [->|].
    + destruct (O1 t) as [[r Hr]|(a & Ha' & Hr)]; [by eexists|congruence|].
      rewrite lookup_insert_eq. apply Hc' in Ha as [Ha _]. congruence.
    + by rewrite lookup_insert_ne.
  - intros a u ->%list_elem_of_singleton. apply Hcov.
  - intros u. destruct (decide (u = t)) as [->|].
    + intros _. right. exists t. split; [by left|done].
    + rewrite lookup_insert_ne by done. intros [|(a & Ha & Hr)]%O1; [by left|right].
      exists t. split; [by left|]. eapply rtc_r; [exact Hr|]. by split.
Qed.

(** Tiles that are not cached: empty tiles, sources, and wires. *)
Lemma no_gate c c' t :
  cache_ok c' → ¬ cached_gate l t → extends c c' (if is_empty_tile (strg l) t then [] else flow l t) →
  extends c c' [t].
Proof using.
  intros Hc' Hn [S1 C1 O1]. split; [done|..].
  - intros a u ->%list_elem_of_singleton Hr Hu. pose proof Hr as [->|(a & Hr' & He & Ha)]%rtc_inv_r; [done|].
    rewrite He in C1. by eapply C1.
  - intros u [|(a & Ha & Hr)]%O1; [by left|right]. exists t. split; [by left|].
    destruct (is_empty_tile (strg l) t) eqn:E; [by apply not_elem_of_nil in Ha|].
    eapply rtc_r; [exact Hr|]. by split.
Qed.

Lemma signal_delay_ok n t : P t → (rank t < n)%nat → call_ok (signal_delay n l) t.
Proof using All.
  revert t. induction n as [|n IH]; intros t Ht Hn c Hc; [lia|]. simpl.
  destruct (is_empty_tile (strg l) t) eqn:He.
  { exists c, (PathInfo 0 0 0). rewrite ref_S by done. simpl. rewrite He. split_and!; [done..|].
    apply no_gate; [done|by intros [? _]; congruence|]. rewrite He. apply extends_nil. }
  rewrite incoming_flow. simpl. destruct (is_nil (flow l t)) eqn:Enil.
  { eexists c, _. rewrite ref_S by done. simpl. rewrite He, incoming_flow. simpl. rewrite Enil.
    split_and!; [done..|]. destruct (flow l t) eqn:Ef; [|done].
    apply no_gate; [done|by intros (_ & ? & _)|]. rewrite He, Ef. apply extends_nil. }
  assert (flow l t ≠ []) as Hf by (intros E; by rewrite E in Enil).
  destruct (c !! t) as [p|] eqn:Ec.
  { destruct (Hc t p Ec) as (Ep & Hg & Hu). exists c, p. split_and!; [done..|]. split; [done|..].
    - intros a u ->%list_elem_of_singleton. apply Hu.
    - by left. }
  destruct (transform_ok (signal_delay n l) (flow l t) c) as (c' & ps & -> & Eps & Hc' & X); [|done|].
  { intros a Ha. destruct (Hflow t a Ht Ha). apply IH; [done|lia]. }
  simpl. rewrite not_pi by done. simpl.
  destruct (ref_ok t Ht) as (p & Ep & _). pose proof Ep as Ep'. rewrite ref_unfold, Eps in Ep' by done.
  simpl in Ep'. destruct (dominant_path ps) as [d|]; [|done]. injection Ep' as <-. simpl.
  destruct (is_wire_tile_total t) as [w Ew]. rewrite Ew. simpl.
  destruct w; eexists _, _; (split; [done|]; split; [done|]).
  - split; [done|]. apply no_gate; [done|intros (_ & _ & ?); congruence|]. by rewrite He.
  - by eapply cache_gate.
Qed.

(** *** The outputs *)

Lemma output_delays_ok pos c m :
  (∀ o, o ∈ pos → P (of_uint64 o)) → cache_ok c →
  ∃ c' m', output_delays N l pos c m = Some (c', m') ∧ cache_ok c' ∧
    extends c c' (of_uint64 <$> pos) ∧ m <= m' ∧
    (∀ o p, o ∈ pos → ref (of_uint64 o) = Some p → length p <= m') ∧
    (m' = m ∨ ∃ o p, o ∈ pos ∧ ref (of_uint64 o) = Some p ∧ length p = m').
Proof using All.
  revert c m. induction pos as [|o pos IH]; intros c m Hpos Hc.
  { exists c, m. split_and!; [done|done|apply extends_nil|done| |by left]. intros o p Ho. by apply not_elem_of_nil in Ho. }
  assert (P (of_uint64 o)) as Ho by (apply Hpos; by left).
  destruct (signal_delay_ok N (of_uint64 o) Ho (Hrank _ Ho) c Hc) as (c1 & p & E & Ep & Hc1 & X1).
  destruct (IH c1 (Z.max (length p) m)) as (c2 & m2 & E2 & Hc2 & X2 & Hm & Hmax & Hwit);
    [intros q Hq; apply Hpos; by right|done|].
  exists c2, m2. cbn [output_delays]. rewrite E. simpl. rewrite E2.
  split; [done|]. split; [done|]. split; [by eapply extends_cons|]. split; [lia|]. split.
  - intros q r [->|Hq]%elem_of_cons; [|by apply Hmax]. rewrite Ep. intros [= <-]. lia.
  - destruct Hwit as [->|(q & r & Hq & Hr & Hlen)].
    + destruct (Z.max_spec (length p) m) as [[_ ->]|[_ ->]]; [by left|right].
      exists o, p. split; [by left|done].
    + right. exists q, r. split; [by right|done].
Qed.

Lemma max_diff_spec (c : delay_cache) :
  0 <= max_diff c ∧ (∀ t p, c !! t = Some p → diff p <= max_diff c) ∧
  (max_diff c = 0 ∨ ∃ t p, c !! t = Some p ∧ diff p = max_diff c).
Proof using All.
  unfold max_diff. induction c as [|t p c Hc Hf IH] using map_first_key_ind.
  { rewrite map_fold_empty. split_and!; [done| |by left]. intros t p. by rewrite lookup_empty. }
  rewrite map_fold_insert_first_key by done. destruct IH as (H0 & Hmax & Hwit).
  set (m := map_fold _ _ c) in *. split; [lia|]. split.
  - intros a q. destruct (decide (a = t)) as [->|].
    + rewrite lookup_insert_eq. intros [= <-]. lia.
    + rewrite lookup_insert_ne by done. intros Ha%Hmax. lia.
  - destruct (Z.max_spec (diff p) m) as [[_ ->]|[_ ->]].
    + destruct Hwit as [->|(a & q & Ha & Hq)]; [by left|right]. exists a, q. split; [|done].
      rewrite lookup_insert_ne; [done|]. congruence.
    + right. exists t, p. by rewrite lookup_insert_eq.
Qed.

(** The statistics of an acyclic layout, in terms of the reference. *)
Lemma critical_path_acyclic pos :
  foreach_po l = Some pos → (∀ o, o ∈ pos → P (of_uint64 o)) →
  ∃ st, critical_path_length_and_throughput N l = Some st ∧ path_statistics N l pos st.
Proof using All.
  intros Epos Hpos.
  destruct (output_delays_ok pos ∅ 0 Hpos) as (c & m & E & Hc & [_ Xc Xo] & Hm & Hmax & Hwit).
  { intros t p. by rewrite lookup_empty. }
  assert (∀ t, is_Some (c !! t) → ∃ o, o ∈ pos ∧ rtc (flows l) t (of_uint64 o)) as Hreach.
  { intros t [[q Hq]|(a & (o & -> & Ho)%list_elem_of_fmap & Hr)]%Xo; [by rewrite lookup_empty in Hq|].
    by exists o. }
  assert (∀ u t, rtc (flows l) u t → P t → P u) as HP.
  { intros u t Hr. induction Hr as [|u b t [_ Hb] _ IH]; [done|]. intros Ht. exact (proj1 (Hflow b u (IH Ht) Hb)). }
  pose proof (max_diff_spec c) as (D0 & Dmax & Dwit).
  assert (max_diff c < 2 ^ 62) as Dsmall.
  { destruct Dwit as [->|(t & p & Ht & <-)]; [lia|]. destruct (Hreach t) as (o & Ho & Hr); [by eexists|].
    apply Hpos, (HP t) in Ho; [|done]. pose proof (Hrank t Ho).
    destruct (Hc t p Ht) as (Ep & _ & _), (ref_ok t Ho) as (p' & Ep' & Hok).
    pose proof (path_bounded _ _ Hok) as Hb. unfold bounded in Hb. assert (p = p') as -> by congruence. lia. }
  pose proof (scheme_num_clocks _ Hscheme) as Hn.
  exists (Stats m (max_diff c / num_clocks (clocked l) + 1)).
  split; [|unfold path_statistics; simpl; split].
  - unfold critical_path_length_and_throughput. rewrite Epos. simpl. rewrite E. simpl.
    rewrite wrap_small; [done|]. unfold in_width, num_clocks in *.
    pose proof (Z.div_pos (max_diff c) (ClockingScheme.num_clocks (clocking (clocked l))) D0).
    pose proof (Z.div_le_upper_bound (max_diff c) (ClockingScheme.num_clocks (clocking (clocked l))) (max_diff c)).
    nia.
  - assert (∀ o p, o ∈ pos → ref (of_uint64 o) = Some p → path_ok (of_uint64 o) p) as Hok.
    { intros o p Ho Ep. destruct (ref_ok _ (Hpos o Ho)) as (q & Eq & Hq). congruence. }
    split_and!; [done| |..].
    + destruct Hwit as [->|(o & p & Ho & Ep & <-)]; [lia|]. specialize (Hok o p Ho Ep).
      pose proof (Hrank _ (Hpos o Ho)). destruct (is_empty_tile (strg l) (of_uint64 o)) eqn:He.
      * rewrite (path_empty _ _ Hok He). simpl. lia.
      * destruct (path_chain _ _ Hok He). lia.
    + intros o k Ho Hk. destruct (ref_ok _ (Hpos o Ho)) as (p & Ep & Hp).
      pose proof (path_longest _ _ Hp k Hk). pose proof (Hmax o p Ho Ep). lia.
    + destruct Hwit as [->|(o & p & Ho & Ep & <-)]; [by left|]. specialize (Hok o p Ho Ep).
      destruct (is_empty_tile (strg l) (of_uint64 o)) eqn:He.
      * left. by rewrite (path_empty _ _ Hok He).
      * right. exists o. split; [done|]. by apply path_chain.
  - exists (max_diff c). split_and!; [done|done|..].
    + intros o g p Ho Hr Hg Ep. destruct (Xc (of_uint64 o) g) as [q Hq]; [by apply list_elem_of_fmap_2|done..|].
      destruct (Hc g q Hq) as (Eq & _ & _). unfold ref in Eq. assert (p = q) as -> by congruence. by eapply Dmax.
    + destruct Dwit as [|(g & p & Hg & Hd)]; [by left|right].
      destruct (Hreach g) as (o & Ho & Hr); [by eexists|]. destruct (Hc g p Hg) as (Ep & Hgate & _).
      by exists o, g, p.
Qed.
End Acyclic.

(** ** Linear schemes *)

(** A well-formed Cartesian layout of the dimension [ar] that is clocked by the predefined linear
    scheme of a name, with its outputs inside, and no data flowing into its primary inputs. *)
Record linear_layout `{Mockturtle} (n : string) (s : clocking_scheme) (ar : ucoord_t)
    (l : gate_level_layout cartesian) : Prop := {
  linear_wf : layout_wf l;
  linear_proper : proper_dimension ar;
  linear_clocked : clocked l = ClockedLayout (Cartesian.make ar) s;
  linear_registered : ClockingScheme.get_clocking_scheme Cartesian.max_fanin_size None n = Some s;
  linear_scheme : is_linear_scheme s = true;
  linear_outputs pos o : foreach_po l = Some pos → o ∈ pos → inside ar (of_uint64 o);
  linear_inputs t : inside ar t → is_pi_tile l t = Some true → incoming_data_flow l t = Some [];
}.

Lemma foreach_po_total `{Mockturtle} {L} (l : gate_level_layout L) :
  layout_wf l → ∃ pos, foreach_po l = Some pos.
Proof. intros Hl. unfold foreach_po. rewrite vec_range_prefix by apply Hl. by eexists. Qed.

(** On a linear layout, the data flows along a linear form of the position. *)
Lemma linear_layout_rank `{Mockturtle} n s ar (l : gate_level_layout cartesian) :
  linear_layout n s ar l →
  ∃ rank : ucoord_t → nat,
    (∀ t a, inside ar t → a ∈ flow l t → inside ar a ∧ (rank a < rank t)%nat) ∧
    ∀ t, inside ar t → (rank t < Z.to_nat (ux ar + uy ar + 1))%nat.
Proof.
  intros [Hl Har Hcl Hs Hlin _ _].
  destruct (linear_scheme_form n s Hs Hlin) as (Hwf & Hn & a & b & Ha & Hb & Hf).
  pose proof (proper_dimension_bounds _ Har) as Hdim.
  exists (λ t, Z.to_nat (a * ux t + b * uy t)). split.
  - intros t c Ht Hc. unfold flow in Hc.
    destruct (incoming_data_flow_spec l (lw_storage _ Hl)) with (b := t) as (v & E & Hv & Hin);
      rewrite ?Hcl; [exact Har|exact Hwf|exact Ht|].
    rewrite Hcl in Hv, Hin. rewrite E in Hc. simpl in Hc. rewrite Forall_forall in Hv.
    specialize (Hv c Hc). split; [done|]. apply Hin in Hc as (_ & Hadj & Hclk); [|done].
    apply (Cartesian.elem_of_adjacent_inside (Cartesian.make ar)) in Hadj as (_ & _ & Hd); [|done..].
    unfold get_clock_number in Hclk. simpl in Hclk, Hd. rewrite !Hf in Hclk. simpl in Hclk.
    apply mod_succ_step in Hclk; [|done|].
    + unfold inside in Hv, Ht. assert (0 <= a * ux c + b * uy c) by nia. lia.
    + assert (a = 0 ∨ a = 1) as [-> | ->] by lia; assert (b = 0 ∨ b = 1) as [-> | ->] by lia; lia.
  - intros t Ht. unfold inside in Ht. assert (a * ux t + b * uy t <= ux ar + uy ar) by nia. lia.
Qed.

(** The statistics of a linear layout, in terms of the reference. *)
Lemma linear_layout_stats `{Mockturtle} `{PathSortLaws} n s ar (l : gate_level_layout cartesian) :
  linear_layout n s ar l →
  let N := Z.to_nat (ux ar + uy ar + 1) in
  0 <= ux ar + uy ar ∧ ∃ pos, foreach_po l = Some pos ∧
  ∃ st, critical_path_length_and_throughput N l = Some st ∧ path_statistics N l pos st.
Proof.
  intros Hlin N. destruct (linear_layout_rank n s ar l Hlin) as (rank & Hflow & Hrank).
  destruct Hlin as [Hl Har Hcl Hs Hls Hout Hin]. destruct (foreach_po_total l Hl) as [pos Epos].
  pose proof (proper_dimension_bounds _ Har). split; [lia|]. exists pos. split; [done|].
  apply (critical_path_acyclic l rank (inside ar) N Hl); [|done|done|lia| |done|by intros o; apply Hout].
  - rewrite Hcl. by apply (linear_scheme_form n).
  - intros t Ht Hpi. unfold flow. by rewrite (Hin t Ht Hpi).
Qed.

(** * Properties *)

(** C29: On a Cartesian layout that is clocked by a predefined linear scheme, the computation of the
    critical path terminates, its calls nest at most x + y + 1 deep for the last tile (x, y), and the
    critical path length is the number of tiles on a longest chain along the data flow that ends at a
    primary output; it is never above x + y + 1. *)
Theorem critical_path_longest `{Mockturtle} `{PathSortLaws} (n : string) (s : clocking_scheme)
    (ar : ucoord_t) (l : gate_level_layout cartesian) :
  linear_layout n s ar l →
  ∃ pos st, foreach_po l = Some pos ∧
    critical_path_length_and_throughput (Z.to_nat (ux ar + uy ar + 1)) l = Some st ∧
    0 <= critical_path_length st <= ux ar + uy ar + 1 ∧
    (∀ o k, o ∈ pos → data_path l (of_uint64 o) k → Z.of_nat k <= critical_path_length st) ∧
    (critical_path_length st = 0 ∨
       ∃ o, o ∈ pos ∧ data_path l (of_uint64 o) (Z.to_nat (critical_path_length st))).
Proof.
  intros Hlin. destruct (linear_layout_stats n s ar l Hlin) as (? & pos & E & st & Est & (Hb & Hmax & Hwit) & _).
  exists pos, st. split_and!; [done|done|lia..|done|done].
Qed.

(** The cache of the computation is sound: on the same layouts, the throughput that is returned is
    what the recursion without a cache determines, namely one more than d divided by the number of
    clocks, rounded down, for the greatest difference d of the path delays at the gates with incoming
    data from which the data flows to a primary output, and for d = 0 if there is no such gate. *)
Theorem throughput_reference `{Mockturtle} `{PathSortLaws} (n : string) (s : clocking_scheme)
    (ar : ucoord_t) (l : gate_level_layout cartesian) :
  linear_layout n s ar l →
  let fuel := Z.to_nat (ux ar + uy ar + 1) in
  ∃ pos st d, foreach_po l = Some pos ∧
    critical_path_length_and_throughput fuel l = Some st ∧
    throughput st = d / num_clocks (clocked l) + 1 ∧ 0 <= d ∧
    (∀ o g p, o ∈ pos → rtc (flows l) g (of_uint64 o) → cached_gate l g →
       path_of fuel l g = Some p → diff p <= d) ∧
    (d = 0 ∨ ∃ o g p, o ∈ pos ∧ rtc (flows l) g (of_uint64 o) ∧ cached_gate l g ∧
       path_of fuel l g = Some p ∧ diff p = d).
Proof.
  intros Hlin fuel. destruct (linear_layout_stats n s ar l Hlin) as (_ & pos & E & st & Est & _ & d & Hd).
  exists pos, st, d. split; [done|]. split; [done|]. exact Hd.
Qed.

(** *** Witnesses *)

Import PathSortModel.

(** A conjunction of two inputs, one of which comes from a longer path, and an output. *)
Definition unbalanced_ops : list operation :=
  [CreatePi "a" (tile 0 0); CreateBuf (sig 0 0) (tile 1 0); CreateBuf (sig 1 0) (tile 2 0);
   CreateBuf (sig 2 0) (tile 3 0); CreateBuf (sig 3 0) (tile 3 1); CreatePi "b" (tile 2 2);
   CreateAnd (sig 3 1) (sig 2 2) (tile 3 2); CreatePo (sig 3 2) "f" (tile 3 3)].

Definition unbalanced : gate_level_layout cartesian :=
  built example_clocked "unbalanced" unbalanced_ops.

Example unbalanced_statistics :
  critical_path_length_and_throughput 7 unbalanced = Some (Stats 7 2).
Proof. by vm_compute. Qed.

Lemma unbalanced_linear :
  linear_layout "2ddwave4" (twoddwave_clocking 3 FOUR) (UCoord 0 1 3 3) unbalanced.
Proof.
  assert (layout_wf unbalanced ∧ clocked unbalanced = example_clocked) as [Hwf Hcl].
  { apply (built_spec example_clocked "unbalanced" unbalanced_ops). allowed_by_evaluation. }
  split; [exact Hwf|exact example_proper|exact Hcl|reflexivity|reflexivity|..]; clear Hwf Hcl.
  - intros pos o. replace (foreach_po unbalanced) with (Some [sig 3 3]) by by vm_compute.
    intros [= <-] ->%list_elem_of_singleton. vm_compute. repeat split; discriminate.
  - intros [d z y x] Ht. unfold inside in Ht. simpl in Ht. destruct Ht as (-> & Hz & Hy & Hx).
    assert (z = 0 ∨ z = 1) as Cz by lia. assert (y = 0 ∨ y = 1 ∨ y = 2 ∨ y = 3) as Cy by lia.
    assert (x = 0 ∨ x = 1 ∨ x = 2 ∨ x = 3) as Cx by lia. clear Hz Hy Hx.
    destruct Cz as [->| ->], Cy as [->|[->|[->| ->]]], Cx as [->|[->|[->| ->]]]; vm_compute; congruence.
Qed.

Lemma critical_path_longest_witness :
  ∃ pos st, foreach_po unbalanced = Some pos ∧
    critical_path_length_and_throughput 7 unbalanced = Some st ∧
    0 <= critical_path_length st <= 3 + 3 + 1 ∧
    (∀ o k, o ∈ pos → data_path unbalanced (of_uint64 o) k → Z.of_nat k <= critical_path_length st) ∧
    (critical_path_length st = 0 ∨
       ∃ o, o ∈ pos ∧ data_path unbalanced (of_uint64 o) (Z.to_nat (critical_path_length st))).
Proof.
  apply (critical_path_longest "2ddwave4" (twoddwave_clocking 3 FOUR) (UCoord 0 1 3 3) unbalanced).
  exact unbalanced_linear.
Defined.

Lemma throughput_reference_witness :
  ∃ pos st d, foreach_po unbalanced = Some pos ∧
    critical_path_length_and_throughput 7 unbalanced = Some st ∧
    throughput st = d / num_clocks (clocked unbalanced) + 1 ∧ 0 <= d ∧
    (∀ o g p, o ∈ pos → rtc (flows unbalanced) g (of_uint64 o) → cached_gate unbalanced g →
       path_of 7 unbalanced g = Some p → diff p <= d) ∧
    (d = 0 ∨ ∃ o g p, o ∈ pos ∧ rtc (flows unbalanced) g (of_uint64 o) ∧ cached_gate unbalanced g ∧
       path_of 7 unbalanced g = Some p ∧ diff p = d).
Proof.
  apply (throughput_reference "2ddwave4" (twoddwave_clocking 3 FOUR) (UCoord 0 1 3 3) unbalanced).
  exact unbalanced_linear.
Defined.

(** ** Cyclic clockings *)

Lemma tc_last {A} (R : relation A) x z : tc R x z → ∃ y, rtc R x y ∧ R y z.
Proof. induction 1 as [x z H|x y z H _ (w & Hw & Hz)]; [by exists x|]. exists w. split; [by apply rtc_l with y|done]. Qed.

Section Loops.
Context `{MT : Mockturtle} `{CL : CoordinateLayout L} `{PathSort}.
Context (l : gate_level_layout L).

(** Data flows to [t] from a tile on a loop of the data flow. *)
Definition fed_by_loop (t : ucoord_t) : Prop := ∃ u, tc (flows l) u u ∧ rtc (flows l) u t.

Lemma fed_by_loop_flow t :
  fed_by_loop t → is_empty_tile (strg l) t = false ∧ ∃ a, a ∈ flow l t ∧ fed_by_loop a.
Proof using.
  intros (u & Hu & Hr). apply rtc_inv_r in Hr as [->|(a & Hr & He & Ha)].
  - destruct (tc_last _ _ _ Hu) as (a & Hr & He & Ha). split; [done|]. exists a. split; [done|]. by exists t.
  - split; [done|]. exists a. split; [done|]. by exists u.
Qed.

(** Only tiles that no loop feeds get into the cache, since only for these a call returns. *)
Definition loop_free (c : delay_cache) : Prop := ∀ t, is_Some (c !! t) → ¬ fed_by_loop t.

Definition returns_loop_free (f : delay_cache → ucoord_t → option (delay_cache * path_info)) : Prop :=
  ∀ c t c' p, loop_free c → f c t = Some (c', p) → ¬ fed_by_loop t ∧ loop_free c'.

Lemma transform_loop_free f v : returns_loop_free f → ∀ c c' ps,
  loop_free c → transform f c v = Some (c', ps) → (∀ a, a ∈ v → ¬ fed_by_loop a) ∧ loop_free c'.
Proof using.
  intros Hf. induction v as [|a v IH]; intros c c' ps Hc E.
  { injection E as <- <-. split; [|done]. intros a Ha. by apply not_elem_of_nil in Ha. }
  cbn [transform] in E. destruct (f c a) as [[c1 p]|] eqn:E1; [|done]. cbn [mbind option_bind] in E.
  destruct (transform f c1 v) as [[c2 qs]|] eqn:E2; [|done]. injection E as <- <-.
  destruct (Hf c a c1 p Hc E1) as [Ha Hc1]. destruct (IH c1 c2 qs Hc1 E2) as [Hv Hc2].
  split; [|done]. intros b [->|Hb]%elem_of_cons; [done|by apply Hv].
Qed.

Lemma signal_delay_loop_free fuel : returns_loop_free (signal_delay fuel l).
Proof using.
  induction fuel as [|n IH]; intros c t c' p Hc E; [done|]. cbn [signal_delay] in E.
  destruct (is_empty_tile (strg l) t) eqn:He.
  { injection E as <- _. split; [|done]. intros [? _]%fed_by_loop_flow. congruence. }
  destruct (incoming_data_flow l t) as [idf|] eqn:Ei; [|done]. cbn [mbind option_bind] in E.
  assert (flow l t = idf) as Hflow by (unfold flow; by rewrite Ei).
  destruct (is_nil idf) eqn:En.
  { injection E as <- _. split; [|done]. intros (_ & a & Ha & _)%fed_by_loop_flow.
    rewrite Hflow in Ha. destruct idf; [by apply not_elem_of_nil in Ha|done]. }
  destruct (c !! t) as [q|] eqn:Ec; [injection E as <- _; split; [apply Hc; by eexists|done]|].
  destruct (transform (signal_delay n l) c idf) as [[c1 ps]|] eqn:Et; [|done]. cbn [mbind option_bind] in E.
  destruct (is_pi_tile l t) as [b|]; [|done]. cbn [mbind option_bind] in E.
  destruct (dominant_path _) as [d|]; [|done]. cbn [mbind option_bind] in E.
  destruct (is_wire_tile l t) as [w|]; [|done]. injection E as <- _.
  destruct (transform_loop_free _ _ IH c c1 ps Hc Et) as [Hv Hc1].
  assert (¬ fed_by_loop t) as Ht.
  { intros (_ & a & Ha & Hfed)%fed_by_loop_flow. rewrite Hflow in Ha. by apply (Hv a). }
  split; [done|]. destruct w; [done|]. intros a [r Hr]. destruct (decide (a = t)) as [->|Hne]; [done|].
  rewrite lookup_insert_ne in Hr by done. apply Hc1. by eexists.
Qed.

Lemma output_delays_loop_free fuel pos : ∀ c m c' m',
  loop_free c → output_delays fuel l pos c m = Some (c', m') →
  ∀ o, o ∈ pos → ¬ fed_by_loop (of_uint64 o).
Proof using.
  induction pos as [|o pos IH]; intros c m c' m' Hc E a Ha; [by apply not_elem_of_nil in Ha|].
  cbn [output_delays] in E. destruct (signal_delay fuel l c (of_uint64 o)) as [[c1 p]|] eqn:E1; [|done].
  apply signal_delay_loop_free in E1 as [Ho Hc1]; [|done].
  apply elem_of_cons in Ha as [->|Ha]; [done|]. by apply (IH c1 (Z.max (length p) m) c' m').
Qed.
End Loops.

(** C30: On every layout where a loop of the data flow feeds an output, the computation of the critical
    path never returns a result: no nesting depth of the calls is enough. *)
Theorem critical_path_diverges `{Mockturtle} `{CoordinateLayout L} `{PathSort}
    (l : gate_level_layout L) (pos : list Z) (o : Z) (u : ucoord_t) :
  foreach_po l = Some pos → o ∈ pos →
  tc (flows l) u u → rtc (flows l) u (of_uint64 o) →
  ∀ fuel, critical_path_length_and_throughput fuel l = None.
Proof.
  intros Hpos Ho Hu Hr fuel. unfold critical_path_length_and_throughput. rewrite Hpos.
  cbn [mbind option_bind]. destruct (output_delays fuel l pos ∅ 0) as [[c m]|] eqn:E; [exfalso|done].
  eapply (output_delays_loop_free l fuel pos); [|exact E|exact Ho|by exists u].
  intros t [p Hp]. by rewrite lookup_empty in Hp.
Qed.

Definition use_clocked : clocked_layout cartesian :=
  ClockedLayout (Cartesian.make (UCoord 0 1 3 3)) (use_clocking 3).

(** Four wires in a loop of the USE scheme and an output. *)
Definition loop_ops : list operation :=
  [CreateBuf (sig 0 1) (tile 0 0); CreateBuf (sig 0 0) (tile 1 0); CreateBuf (sig 1 0) (tile 1 1);
   CreateBuf (sig 1 1) (tile 0 1); CreatePo (sig 1 1) "f" (tile 1 2)].

Definition loop : gate_level_layout cartesian := built use_clocked "loop" loop_ops.

Lemma loop_wf : layout_wf loop ∧ clocked loop = use_clocked.
Proof. apply (built_spec use_clocked "loop" loop_ops). allowed_by_evaluation. Qed.

Lemma flows_evaluated `{Mockturtle} `{CoordinateLayout L} (l : gate_level_layout L) a t :
  (negb (is_empty_tile (strg l) t) && bool_decide (a ∈ flow l t)) = true → flows l a t.
Proof. intros [E%negb_true_iff Ha%bool_decide_eq_true]%andb_true_iff. by split. Qed.

Lemma loop_flows :
  flows loop (tile 0 0) (tile 1 0) ∧ flows loop (tile 1 0) (tile 1 1) ∧ flows loop (tile 1 1) (tile 0 1) ∧
  flows loop (tile 0 1) (tile 0 0) ∧ flows loop (tile 1 1) (tile 1 2).
Proof. split_and!; apply flows_evaluated; vm_compute; reflexivity. Qed.

Lemma critical_path_diverges_witness :
  layout_wf loop ∧ ∀ fuel, critical_path_length_and_throughput fuel loop = None.
Proof.
  split; [apply loop_wf|]. destruct loop_flows as (F1 & F2 & F3 & F4 & F5).
  apply (critical_path_diverges loop [sig 1 2] (sig 1 2) (tile 1 1)).
  - vm_compute. reflexivity.
  - by left.
  - apply tc_l with (tile 0 1); [done|]. apply tc_l with (tile 0 0); [done|].
    apply tc_l with (tile 1 0); [done|]. by apply tc_once.
  - apply rtc_once. exact F5.
Defined.
