(* ===== verification/CellTechnology.v ===== *)
(** * Cell technologies (include/fiction/technology/cell_technologies.hpp)

    The structs [qca_technology], [inml_technology] and [sidb_technology]: their cell types, cell
    modes and predicates. A cell type is an enumerator of an unscoped enumeration over [uint8_t], so
    it can hold every 8-bit value; the model keeps it as an integer with the enumerators as named
    constants. Class [Technology] is what [cell_level_layout] uses of its template argument. *)

From Stdlib Require Import Ascii.
From S2P Require Import Prelude.
#[local] Open Scope Z_scope.

Class Technology := {
  tech_mode : Type;
  tech_default_mode : tech_mode;
  tech_empty : Z;
  tech_is_empty_cell : Z → bool;
  tech_is_input_cell : Z → bool;
  tech_is_output_cell : Z → bool;
  tech_is_normal_cell_mode : tech_mode → bool;
}.

(** What the layouts rely on: EMPTY is the only empty cell, no cell is input and output, and the
    default mode is the only normal one. *)
Class TechnologyLaws `{Technology} := {
  tech_empty_spec ct : tech_is_empty_cell ct = true ↔ ct = tech_empty;
  tech_input_not_output ct : tech_is_input_cell ct = true → tech_is_output_cell ct = false;
  tech_normal_default m : tech_is_normal_cell_mode m = true ↔ m = tech_default_mode;
}.

(** The character code of an enumerator. *)
Definition code (a : Ascii.ascii) : Z := Z.of_N (Ascii.N_of_ascii a).

Module Qca.
Definition EMPTY : Z := code " "%char.
Definition NORMAL : Z := code "x"%char.
Definition INPUT : Z := code "i"%char.
Definition OUTPUT : Z := code "o"%char.
Definition CONST_0 : Z := code "0"%char.
Definition CONST_1 : Z := code "1"%char.

Inductive cell_mode := MODE_NORMAL | MODE_ROTATED | MODE_VERTICAL | MODE_CROSSOVER.

#[export] Instance cell_mode_eq_dec : EqDecision cell_mode.
Proof. solve_decision. Defined.

(** The marks have the codes of the cell types they turn a cell into. *)
Inductive cell_mark := MARK_EMPTY | MARK_INPUT | MARK_OUTPUT.
Definition mark_type (m : cell_mark) : Z :=
  match m with MARK_EMPTY => EMPTY | MARK_INPUT => INPUT | MARK_OUTPUT => OUTPUT end.

Definition is_empty_cell (c : Z) : bool := c =? EMPTY.
Definition is_normal_cell (c : Z) : bool := c =? NORMAL.
Definition is_input_cell (c : Z) : bool := c =? INPUT.
Definition is_output_cell (c : Z) : bool := c =? OUTPUT.
Definition is_const_0_cell (c : Z) : bool := c =? CONST_0.
Definition is_const_1_cell (c : Z) : bool := c =? CONST_1.
Definition is_constant_cell (c : Z) : bool := is_const_0_cell c || is_const_1_cell c.
Definition is_normal_cell_mode (m : cell_mode) : bool := bool_decide (m = MODE_NORMAL).
Definition is_rotated_cell_mode (m : cell_mode) : bool := bool_decide (m = MODE_ROTATED).
Definition is_vertical_cell_mode (m : cell_mode) : bool := bool_decide (m = MODE_VERTICAL).
Definition is_crossover_cell_mode (m : cell_mode) : bool := bool_decide (m = MODE_CROSSOVER).

Definition CELL_WIDTH : Z := 18.
Definition CELL_HEIGHT : Z := 18.
Definition CELL_HSPACE : Z := 2.
Definition CELL_VSPACE : Z := 2.

#[export] Instance qca_technology : Technology := {
  tech_mode := cell_mode;
  tech_default_mode := MODE_NORMAL;
  tech_empty := EMPTY;
  tech_is_empty_cell := is_empty_cell;
  tech_is_input_cell := is_input_cell;
  tech_is_output_cell := is_output_cell;
  tech_is_normal_cell_mode := is_normal_cell_mode;
}.
End Qca.

Module Inml.
Definition EMPTY : Z := code " "%char.
Definition NORMAL : Z := code "x"%char.
Definition INPUT : Z := code "i"%char.
Definition OUTPUT : Z := code "o"%char.
Definition SLANTED_EDGE_UP_MAGNET : Z := code "u"%char.
Definition SLANTED_EDGE_DOWN_MAGNET : Z := code "d"%char.
Definition INVERTER_MAGNET : Z := code "n"%char.
Definition CROSSWIRE_MAGNET : Z := code "c"%char.
Definition FANOUT_COUPLER_MAGNET : Z := code "f"%char.

(** iNML cells do not have modes. *)
Inductive cell_mode := NO_MODE.

Definition is_empty_cell (c : Z) : bool := c =? EMPTY.
Definition is_normal_cell (c : Z) : bool := c =? NORMAL.
Definition is_input_cell (c : Z) : bool := c =? INPUT.
Definition is_output_cell (c : Z) : bool := c =? OUTPUT.
Definition is_slanted_edge_up_magnet (c : Z) : bool := c =? SLANTED_EDGE_UP_MAGNET.
Definition is_slanted_edge_down_magnet (c : Z) : bool := c =? SLANTED_EDGE_DOWN_MAGNET.
Definition is_slanted_edge_magnet (c : Z) : bool :=
  is_slanted_edge_up_magnet c || is_slanted_edge_down_magnet c.
Definition is_inverter_magnet (c : Z) : bool := c =? INVERTER_MAGNET.
Definition is_crosswire_magnet (c : Z) : bool := c =? CROSSWIRE_MAGNET.
Definition is_fanout_coupler_magnet (c : Z) : bool := c =? FANOUT_COUPLER_MAGNET.
Definition is_normal_cell_mode (m : cell_mode) : bool := true.

Definition CELL_WIDTH : Z := 50.
Definition CELL_HEIGHT : Z := 100.
Definition CELL_HSPACE : Z := 10.
Definition CELL_VSPACE : Z := 25.

#[export] Instance inml_technology : Technology := {
  tech_mode := cell_mode;
  tech_default_mode := NO_MODE;
  tech_empty := EMPTY;
  tech_is_empty_cell := is_empty_cell;
  tech_is_input_cell := is_input_cell;
  tech_is_output_cell := is_output_cell;
  tech_is_normal_cell_mode := is_normal_cell_mode;
}.
End Inml.

Module Sidb.
Definition EMPTY : Z := code " "%char.
Definition NORMAL : Z := code "x"%char.
Definition INPUT : Z := code "i"%char.
Definition OUTPUT : Z := code "o"%char.

(** SiDB cells do not have modes. *)
Inductive cell_mode := NO_MODE.

Definition is_empty_cell (c : Z) : bool := c =? EMPTY.
Definition is_normal_cell (c : Z) : bool := c =? NORMAL.
Definition is_input_cell (c : Z) : bool := c =? INPUT.
Definition is_output_cell (c : Z) : bool := c =? OUTPUT.
Definition is_normal_cell_mode (m : cell_mode) : bool := true.

#[export] Instance sidb_technology : Technology := {
  tech_mode := cell_mode;
  tech_default_mode := NO_MODE;
  tech_empty := EMPTY;
  tech_is_empty_cell := is_empty_cell;
  tech_is_input_cell := is_input_cell;
  tech_is_output_cell := is_output_cell;
  tech_is_normal_cell_mode := is_normal_cell_mode;
}.
End Sidb.

#[export] Instance qca_technology_laws : @TechnologyLaws Qca.qca_technology.
Proof.
  split; [intros ct; apply Z.eqb_eq|by intros ct ->%Z.eqb_eq|].
  intros m. cbn. apply bool_decide_eq_true.
Qed.

#[export] Instance inml_technology_laws : @TechnologyLaws Inml.inml_technology.
Proof.
  split; [intros ct; apply Z.eqb_eq|by intros ct ->%Z.eqb_eq|].
  intros m. cbn. by destruct m.
Qed.

#[export] Instance sidb_technology_laws : @TechnologyLaws Sidb.sidb_technology.
Proof.
  split; [intros ct; apply Z.eqb_eq|by intros ct ->%Z.eqb_eq|].
  intros m. cbn. by destruct m.
Qed.
