(* ===== verification/CellLevelLayout.v ===== *)
(** * Cell-level layouts (include/fiction/layouts/cell_level_layout.hpp)

    The class template [cell_level_layout]: cells of a technology on the positions of a clocked
    layout. The storage is modelled with finite maps and sets; the theorems relate it to the
    sequence of assignments that led to it. *)

From S2P Require Import Prelude.
From S2P Require Import Coordinates.
From S2P Require Import CoordinateLayout.
From S2P Require Import CartesianLayout.
From S2P Require Import ClockingScheme.
From S2P Require Import ClockedLayout.
From S2P Require Import CellTechnology.
#[local] Open Scope Z_scope.
Import Offset.

Module CellLevel.
Section CellLevelLayout.
Context {L : Type} `{HL : CoordinateLayout L} `{Tech : Technology}.

(** [cell_level_layout_storage]; the tile sizes are of type [uint16_t]. *)
Record cell_level_layout_storage := CellStorage {
  layout_name : string;
  tile_size_x : Z;
  tile_size_y : Z;
  cell_type_map : gmap ucoord_t Z;
  cell_mode_map : gmap ucoord_t tech_mode;
  cell_name_map : gmap ucoord_t string;
  inputs : gset ucoord_t;
  outputs : gset ucoord_t;
}.

Record cell_level_layout := CellLevelLayout {
  clocked : Clocked.clocked_layout L;
  strg : cell_level_layout_storage;
}.

(** The constructors, after the construction [cl] of the clocked layout. *)
Definition make (cl : Clocked.clocked_layout L) (name : string) (tile_x tile_y : Z) :
    cell_level_layout :=
  CellLevelLayout cl (CellStorage name tile_x tile_y ∅ ∅ ∅ ∅ ∅).
Definition make_from_storage (cl : Clocked.clocked_layout L) (s : cell_level_layout_storage) :
    cell_level_layout :=
  CellLevelLayout cl s.

(** ** Cell types, modes and names *)

Definition assign_cell_type (s : cell_level_layout_storage) (c : ucoord_t) (ct : Z) :
    cell_level_layout_storage :=
  if tech_is_empty_cell ct then
    CellStorage (layout_name s) (tile_size_x s) (tile_size_y s)
      (delete c (cell_type_map s)) (delete c (cell_mode_map s)) (cell_name_map s)
      (inputs s ∖ {[c]}) (outputs s ∖ {[c]})
  else
    CellStorage (layout_name s) (tile_size_x s) (tile_size_y s)
      (<[c := ct]> (cell_type_map s)) (cell_mode_map s) (cell_name_map s)
      (if tech_is_input_cell ct then {[c]} ∪ inputs s else inputs s)
      (if tech_is_input_cell ct then outputs s
       else if tech_is_output_cell ct then {[c]} ∪ outputs s else outputs s).

Definition get_cell_type (s : cell_level_layout_storage) (c : ucoord_t) : Z :=
  default tech_empty (cell_type_map s !! c).

Definition is_empty_cell (s : cell_level_layout_storage) (c : ucoord_t) : bool :=
  tech_is_empty_cell (get_cell_type s c).

Definition assign_cell_mode (s : cell_level_layout_storage) (c : ucoord_t) (m : tech_mode) :
    cell_level_layout_storage :=
  CellStorage (layout_name s) (tile_size_x s) (tile_size_y s) (cell_type_map s)
    (if tech_is_normal_cell_mode m then delete c (cell_mode_map s)
     else <[c := m]> (cell_mode_map s))
    (cell_name_map s) (inputs s) (outputs s).

Definition get_cell_mode (s : cell_level_layout_storage) (c : ucoord_t) : tech_mode :=
  default tech_default_mode (cell_mode_map s !! c).

Definition assign_cell_name (s : cell_level_layout_storage) (c : ucoord_t) (n : string) :
    cell_level_layout_storage :=
  CellStorage (layout_name s) (tile_size_x s) (tile_size_y s) (cell_type_map s) (cell_mode_map s)
    (if decide (n = "") then delete c (cell_name_map s) else <[c := n]> (cell_name_map s))
    (inputs s) (outputs s).

Definition get_cell_name (s : cell_level_layout_storage) (c : ucoord_t) : string :=
  default "" (cell_name_map s !! c).

(** ** Properties of the layout *)

Definition set_layout_name (s : cell_level_layout_storage) (n : string) :
    cell_level_layout_storage :=
  CellStorage n (tile_size_x s) (tile_size_y s) (cell_type_map s) (cell_mode_map s)
    (cell_name_map s) (inputs s) (outputs s).
Definition get_layout_name (s : cell_level_layout_storage) : string := layout_name s.

Definition num_cells (s : cell_level_layout_storage) : Z :=
  wrap 64 (Z.of_nat (size (cell_type_map s))).
Definition is_empty (s : cell_level_layout_storage) : bool := bool_decide (cell_type_map s = ∅).
Definition num_pis (s : cell_level_layout_storage) : Z := wrap 32 (Z.of_nat (size (inputs s))).
Definition num_pos (s : cell_level_layout_storage) : Z := wrap 32 (Z.of_nat (size (outputs s))).
Definition is_pi (s : cell_level_layout_storage) (c : ucoord_t) : bool :=
  bool_decide (c ∈ inputs s).
Definition is_po (s : cell_level_layout_storage) (c : ucoord_t) : bool :=
  bool_decide (c ∈ outputs s).
Definition get_tile_size_x (s : cell_level_layout_storage) : Z := tile_size_x s.
Definition get_tile_size_y (s : cell_level_layout_storage) : Z := tile_size_y s.

(** ** Clocking *)

(** The clock number of the tile that a cell lies in. Integer division by zero is undefined. *)
Definition get_clock_number (l : cell_level_layout) (c : ucoord_t) : option Z :=
  if decide (tile_size_x (strg l) = 0 ∨ tile_size_y (strg l) = 0) then None
  else Some (Clocked.get_clock_number (clocked l)
    (ucoord3 (ux c `div` tile_size_x (strg l)) (uy c `div` tile_size_y (strg l)) (uz c))).

(** ** Iteration: the elements the functors are applied to, in an unspecified order *)

Definition foreach_cell (s : cell_level_layout_storage) : gset ucoord_t := dom (cell_type_map s).
Definition foreach_pi (s : cell_level_layout_storage) : gset ucoord_t := inputs s.
Definition foreach_po (s : cell_level_layout_storage) : gset ucoord_t := outputs s.

End CellLevelLayout.
Arguments cell_level_layout L {Tech}.
Arguments cell_level_layout_storage {Tech}.
End CellLevel.
Import CellLevel.

(** ** Histories *)

Section Histories.
Context `{Laws : TechnologyLaws}.

(** The assignments to cell positions. *)
Inductive assignment :=
  | SetType (c : ucoord_t) (ct : Z)
  | SetMode (c : ucoord_t) (m : tech_mode)
  | SetName (c : ucoord_t) (n : string).

Definition execute (s : cell_level_layout_storage) (a : assignment) : cell_level_layout_storage :=
  match a with
  | SetType c ct => assign_cell_type s c ct
  | SetMode c m => assign_cell_mode s c m
  | SetName c n => assign_cell_name s c n
  end.

(** What a history of assignments, the latest first, says about a position. *)
Fixpoint last_type (c : ucoord_t) (h : list assignment) : Z :=
  match h with
  | [] => tech_empty
  | SetType c' ct :: h' => if decide (c' = c) then ct else last_type c h'
  | _ :: h' => last_type c h'
  end.

(** The mode is forgotten when the cell is removed. *)
Fixpoint last_mode (c : ucoord_t) (h : list assignment) : tech_mode :=
  match h with
  | [] => tech_default_mode
  | SetMode c' m :: h' => if decide (c' = c) then m else last_mode c h'
  | SetType c' ct :: h' =>
      if decide (c' = c ∧ tech_is_empty_cell ct = true) then tech_default_mode else last_mode c h'
  | _ :: h' => last_mode c h'
  end.

(** The name is not. *)
Fixpoint last_name (c : ucoord_t) (h : list assignment) : string :=
  match h with
  | [] => ""
  | SetName c' n :: h' => if decide (c' = c) then n else last_name c h'
  | _ :: h' => last_name c h'
  end.

(** A type with property [P] has been assigned since the cell was last removed. *)
Fixpoint marked (P : Z → bool) (c : ucoord_t) (h : list assignment) : bool :=
  match h with
  | [] => false
  | SetType c' ct :: h' =>
      if decide (c' = c) then negb (tech_is_empty_cell ct) && (P ct || marked P c h')
      else marked P c h'
  | _ :: h' => marked P c h'
  end.

Definition replay (s : cell_level_layout_storage) (h : list assignment) :
    cell_level_layout_storage :=
  foldr (λ a s, execute s a) s h.

Definition blank (name : string) (tx ty : Z) : cell_level_layout_storage :=
  CellStorage name tx ty ∅ ∅ ∅ ∅ ∅.

Lemma execute_type s a c h :
  get_cell_type s c = last_type c h → get_cell_type (execute s a) c = last_type c (a :: h).
Proof.
  unfold get_cell_type. intros IH. destruct a as [c' ct|c' m|c' n]; simpl; try done.
  unfold assign_cell_type. destruct (tech_is_empty_cell ct) eqn:E; simpl; destruct (decide (c' = c)) as [->|].
  - rewrite lookup_delete_eq. apply tech_empty_spec in E. done.
  - by rewrite lookup_delete_ne.
  - by rewrite lookup_insert_eq.
  - by rewrite lookup_insert_ne.
Qed.

Lemma execute_mode s a c h :
  get_cell_mode s c = last_mode c h → get_cell_mode (execute s a) c = last_mode c (a :: h).
Proof.
  unfold get_cell_mode. intros IH. destruct a as [c' ct|c' m|c' n]; simpl; try done.
  - unfold assign_cell_type. destruct (tech_is_empty_cell ct) eqn:E; simpl.
    + destruct (decide (c' = c)) as [->|].
      * by rewrite lookup_delete_eq, decide_True.
      * rewrite lookup_delete_ne, decide_False by naive_solver. done.
    + rewrite decide_False by naive_solver. done.
  - destruct (tech_is_normal_cell_mode m) eqn:E; destruct (decide (c' = c)) as [->|].
    + rewrite lookup_delete_eq. by apply tech_normal_default in E.
    + by rewrite lookup_delete_ne.
    + by rewrite lookup_insert_eq.
    + by rewrite lookup_insert_ne.
Qed.

Lemma execute_name s a c h :
  get_cell_name s c = last_name c h → get_cell_name (execute s a) c = last_name c (a :: h).
Proof.
  unfold get_cell_name. intros IH. destruct a as [c' ct|c' m|c' n]; simpl; try done.
  - unfold assign_cell_type. by destruct (tech_is_empty_cell ct).
  - destruct (decide (n = "")) as [->|]; destruct (decide (c' = c)) as [->|].
    + by rewrite lookup_delete_eq.
    + by rewrite lookup_delete_ne.
    + by rewrite lookup_insert_eq.
    + by rewrite lookup_insert_ne.
Qed.

Lemma execute_inputs s a c h :
  (c ∈ inputs s ↔ marked tech_is_input_cell c h = true) →
  c ∈ inputs (execute s a) ↔ marked tech_is_input_cell c (a :: h) = true.
Proof.
  intros IH. destruct a as [c' ct|c' m|c' n]; simpl; try done.
  unfold assign_cell_type. destruct (tech_is_empty_cell ct) eqn:E; simpl.
  - destruct (decide (c' = c)) as [->|]; [set_solver|]. rewrite <-IH. set_solver.
  - destruct (tech_is_input_cell ct); destruct (decide (c' = c)) as [->|];
      rewrite <-?IH; simpl; set_solver.
Qed.

Lemma execute_outputs s a c h :
  (c ∈ outputs s ↔ marked tech_is_output_cell c h = true) →
  c ∈ outputs (execute s a) ↔ marked tech_is_output_cell c (a :: h) = true.
Proof.
  intros IH. destruct a as [c' ct|c' m|c' n]; simpl; try done.
  unfold assign_cell_type. destruct (tech_is_empty_cell ct) eqn:E; simpl.
  - destruct (decide (c' = c)) as [->|]; [set_solver|]. rewrite <-IH. set_solver.
  - destruct (tech_is_input_cell ct) eqn:Ei.
    + rewrite (tech_input_not_output ct Ei). simpl. case_decide; by rewrite <-?IH.
    + destruct (tech_is_output_cell ct); destruct (decide (c' = c)) as [->|];
        rewrite <-?IH; simpl; set_solver.
Qed.

(** No empty cell is stored, and every input or output is a stored cell. *)
Record cells_wf (s : cell_level_layout_storage) : Prop := {
  cells_not_empty : map_Forall (λ _ ct, tech_is_empty_cell ct = false) (cell_type_map s);
  cells_inputs : inputs s ⊆ dom (cell_type_map s);
  cells_outputs : outputs s ⊆ dom (cell_type_map s);
}.

Lemma execute_wf s a : cells_wf s → cells_wf (execute s a).
Proof.
  intros [Hne Hi Ho]. destruct a as [c ct|c m|c n]; [|by split..].
  simpl. unfold assign_cell_type. destruct (tech_is_empty_cell ct) eqn:E; split; simpl.
  - by apply map_Forall_delete.
  - rewrite dom_delete. set_solver.
  - rewrite dom_delete. set_solver.
  - by apply map_Forall_insert_2.
  - rewrite dom_insert. destruct (tech_is_input_cell ct); set_solver.
  - rewrite dom_insert. destruct (tech_is_input_cell ct), (tech_is_output_cell ct); set_solver.
Qed.

Lemma replay_wf h name tx ty : cells_wf (replay (blank name tx ty) h).
Proof. induction h; [by split|by apply execute_wf]. Qed.
End Histories.

(** * Properties *)

(** The witnesses use QCA cells. *)
#[local] Existing Instance Qca.qca_technology.

(** C35: What a new cell-level layout reports after any history of assignments: the type last assigned
    to a position, the mode since the cell was last removed, the name last assigned; a position is a
    primary input (output) exactly when an input (output) type was assigned to it since it was last
    removed, even if it has another type by now. *)
Theorem cell_history `{TechnologyLaws} (name : string) (tx ty : Z) (h : list assignment)
    (c : ucoord_t) :
  let s := replay (blank name tx ty) h in
  get_cell_type s c = last_type c h ∧ get_cell_mode s c = last_mode c h ∧
  get_cell_name s c = last_name c h ∧ is_pi s c = marked tech_is_input_cell c h ∧
  is_po s c = marked tech_is_output_cell c h.
Proof.
  intros s. split_and!.
  - unfold s. induction h; [done|by apply execute_type].
  - unfold s. induction h; [done|by apply execute_mode].
  - unfold s. induction h; [done|by apply execute_name].
  - assert (c ∈ inputs s ↔ marked tech_is_input_cell c h = true) as E
      by (unfold s; induction h; [set_solver|by apply execute_inputs]).
    unfold is_pi. case_bool_decide; destruct (marked _ c h); naive_solver.
  - assert (c ∈ outputs s ↔ marked tech_is_output_cell c h = true) as E
      by (unfold s; induction h; [set_solver|by apply execute_outputs]).
    unfold is_po. case_bool_decide; destruct (marked _ c h); naive_solver.
Qed.

Lemma cell_history_witness :
  let h := [SetType (UCoord 0 0 0 0) Qca.OUTPUT; SetType (UCoord 0 0 0 0) Qca.INPUT] in
  let s := replay (blank "layout" 5 5) h in
  let c := UCoord 0 0 0 0 in
  get_cell_type s c = last_type c h ∧ get_cell_mode s c = last_mode c h ∧
  get_cell_name s c = last_name c h ∧ is_pi s c = marked tech_is_input_cell c h ∧
  is_po s c = marked tech_is_output_cell c h.
Proof. apply (cell_history "layout" 5 5). Defined.

(** After any history of assignments the cells that are iterated over are exactly the positions
    that are not empty, [is_empty] says whether there are any, and all primary inputs and outputs
    are among them, so that none of their numbers exceeds the number of cells. *)
Theorem cells_iterated_exactly `{TechnologyLaws} (name : string) (tx ty : Z) (h : list assignment) :
  let s := replay (blank name tx ty) h in
  (∀ c, c ∈ foreach_cell s ↔ is_empty_cell s c = false) ∧
  (is_empty s = true ↔ ∀ c, is_empty_cell s c = true) ∧
  foreach_pi s ⊆ foreach_cell s ∧ foreach_po s ⊆ foreach_cell s ∧
  (Z.of_nat (size (foreach_cell s)) < 2 ^ 32 →
   num_cells s = Z.of_nat (size (foreach_cell s)) ∧
   num_pis s <= num_cells s ∧ num_pos s <= num_cells s).
Proof.
  intros s. pose proof (replay_wf h name tx ty : cells_wf s) as [Hne Hi Ho].
  assert (∀ c, c ∈ foreach_cell s ↔ is_empty_cell s c = false) as Hc.
  { intros c. unfold foreach_cell, is_empty_cell, get_cell_type. rewrite elem_of_dom.
    destruct (cell_type_map s !! c) as [ct|] eqn:E; simpl.
    - apply Hne in E. naive_solver.
    - assert (tech_is_empty_cell tech_empty = true) as -> by by apply tech_empty_spec.
      split; [by intros []|done]. }
  split_and!; [done| |done|done|].
  - unfold is_empty. rewrite bool_decide_eq_true. split.
    + intros E c. apply not_false_iff_true. rewrite <-Hc. unfold foreach_cell. rewrite E. set_solver.
    + intros Hall. apply dom_empty_inv_L, elem_of_equiv_empty_L. intros c F%Hc. by rewrite Hall in F.
  - unfold foreach_cell, num_cells, num_pis, num_pos. rewrite size_dom. intros Hsz.
    pose proof (subseteq_size _ _ Hi) as Si. pose proof (subseteq_size _ _ Ho) as So.
    rewrite size_dom in Si, So.
    rewrite !wrap_small by (unfold in_width; lia). lia.
Qed.

Lemma cells_iterated_exactly_witness :
  let h := [SetType (UCoord 0 0 0 1) Qca.EMPTY; SetType (UCoord 0 0 0 0) Qca.INPUT] in
  let s := replay (blank "layout" 5 5) h in
  (∀ c, c ∈ foreach_cell s ↔ is_empty_cell s c = false) ∧
  (is_empty s = true ↔ ∀ c, is_empty_cell s c = true) ∧
  foreach_pi s ⊆ foreach_cell s ∧ foreach_po s ⊆ foreach_cell s ∧
  (Z.of_nat (size (foreach_cell s)) < 2 ^ 32 →
   num_cells s = Z.of_nat (size (foreach_cell s)) ∧
   num_pis s <= num_cells s ∧ num_pos s <= num_cells s).
Proof. apply (cells_iterated_exactly "layout" 5 5). Defined.

(** The clock number of a cell is that of the tile it lies in: it is the same for all cells of a
    tile, and tiles of a single cell have the clock numbers of the clocked layout. *)
Theorem cell_clock_number_of_tile `{Technology} {L} `{CoordinateLayout L}
    (l : cell_level_layout L) (c c' : ucoord_t) :
  0 < tile_size_x (strg l) → 0 < tile_size_y (strg l) → wf c → is_dead c = false →
  uz c' = uz c → ux c' `div` tile_size_x (strg l) = ux c `div` tile_size_x (strg l) →
  uy c' `div` tile_size_y (strg l) = uy c `div` tile_size_y (strg l) →
  get_clock_number l c' = get_clock_number l c ∧
  get_clock_number l c = Some (Clocked.get_clock_number (clocked l)
    (UCoord 0 (uz c) (uy c `div` tile_size_y (strg l)) (ux c `div` tile_size_x (strg l)))) ∧
  (tile_size_x (strg l) = 1 → tile_size_y (strg l) = 1 →
   get_clock_number l c = Some (Clocked.get_clock_number (clocked l) c)).
Proof.
  intros Htx Hty (Wd & Wz & Wy & Wx) Hlive Ez Ex Ey. unfold get_clock_number, ucoord3.
  rewrite !decide_False by lia. rewrite Ez, Ex, Ey. split; [done|].
  assert (∀ a b, in_width 31 a → 0 < b → wrap 31 (a `div` b) = a `div` b) as Hdiv.
  { intros a b [Ha Hb] Hpos. apply wrap_small. split; [by apply Z.div_pos|].
    apply Z.div_lt_upper_bound; nia. }
  rewrite !Hdiv, (wrap_small 1) by done. split; [done|]. intros E1 E2.
  rewrite E1, E2, !Z.div_1_r. unfold is_dead in Hlive. apply negb_false_iff, Z.eqb_eq in Hlive.
  destruct c; simpl in *. by rewrite Hlive.
Qed.

Lemma cell_clock_number_of_tile_witness :
  get_clock_number
    (make (Tech := Qca.qca_technology)
      (Clocked.ClockedLayout (Cartesian.make (UCoord 0 0 19 19)) (twoddwave_clocking 3 FOUR)) "" 5 5)
    (UCoord 0 0 7 13)
  = get_clock_number
    (make (Tech := Qca.qca_technology)
      (Clocked.ClockedLayout (Cartesian.make (UCoord 0 0 19 19)) (twoddwave_clocking 3 FOUR)) "" 5 5)
    (UCoord 0 0 9 10).
Proof.
  refine (proj1 (cell_clock_number_of_tile (make (Tech := Qca.qca_technology)
      (Clocked.ClockedLayout (Cartesian.make (UCoord 0 0 19 19)) (twoddwave_clocking 3 FOUR)) "" 5 5)
    (UCoord 0 0 9 10) (UCoord 0 0 7 13) _ _ _ _ _ _ _));
    first [reflexivity | vm_compute; repeat split; discriminate].
Defined.
