(* ===== verification/BoundingBox.v ===== *)
(** * Bounding boxes (include/fiction/layouts/bounding_box.hpp)

    The class template [bounding_box_2d]. Its layout enters through class [BoundedLayout], with
    instances for gate-level and cell-level layouts. The loops over the coordinates from above count
    down an unsigned integer, so they are run with fuel. *)

From S2P Require Import Prelude.
From S2P Require Import Coordinates.
From S2P Require Import CoordinateLayout.
From S2P Require Import CartesianLayout.
From S2P Require Import ClockingScheme.
From S2P Require Import ClockedLayout.
From S2P Require Import GateLevelLayout.
From S2P Require Import CellTechnology.
From S2P Require Import CellLevelLayout.
#[local] Open Scope Z_scope.
Import Offset.

(** What the bounding box uses of a layout: its highest positions, the emptiness of the layout, and
    [is_empty_tile] or [is_empty_cell]. *)
Class BoundedLayout (Lyt : Type) := {
  bl_x : Lyt → Z;
  bl_y : Lyt → Z;
  bl_is_empty : Lyt → bool;
  is_empty_coordinate : Lyt → ucoord_t → bool;
}.

#[export] Instance gate_level_bounded `{GateLevel.Mockturtle} {L} `{CoordinateLayout L} :
    BoundedLayout (GateLevel.gate_level_layout L) := {
  bl_x l := ux (dimension (Clocked.coordinate_layout (GateLevel.clocked l)));
  bl_y l := uy (dimension (Clocked.coordinate_layout (GateLevel.clocked l)));
  bl_is_empty l := GateLevel.is_empty (GateLevel.strg l);
  is_empty_coordinate l c := GateLevel.is_empty_tile (GateLevel.strg l) c;
}.

#[export] Instance cell_level_bounded `{Technology} {L} `{CoordinateLayout L} :
    BoundedLayout (CellLevel.cell_level_layout L) := {
  bl_x l := ux (dimension (Clocked.coordinate_layout (CellLevel.clocked l)));
  bl_y l := uy (dimension (Clocked.coordinate_layout (CellLevel.clocked l)));
  bl_is_empty l := CellLevel.is_empty (CellLevel.strg l);
  is_empty_coordinate l c := CellLevel.is_empty_cell (CellLevel.strg l) c;
}.

(** The data members besides the layout. *)
Record bounding_box_2d := BoundingBox {
  bb_min : ucoord_t;
  bb_max : ucoord_t;
  x_size : Z;
  y_size : Z;
}.

Section Update.
Context `{BoundedLayout Lyt}.

(** The inner loops: is any coordinate [{x, y}] of a column or row occupied? *)
Definition column_occupied (l : Lyt) (x : Z) : bool :=
  existsb (λ y, negb (is_empty_coordinate l (ucoord2 x y))) (seqZ 0 (bl_y l + 1)).
Definition row_occupied (l : Lyt) (y : Z) : bool :=
  existsb (λ x, negb (is_empty_coordinate l (ucoord2 x y))) (seqZ 0 (bl_x l + 1)).

(** The loops upwards: each value visited is assigned to [m], up to the first occupied one. *)
Fixpoint scan_up (occupied : Z → bool) (vs : list Z) (m : Z) : Z :=
  match vs with
  | [] => m
  | v :: vs' => if occupied v then wrap 31 v else scan_up occupied vs' (wrap 31 v)
  end.

(** The loops downwards, on [uint64_t]: their condition [v >= 0] always holds. *)
Fixpoint scan_down (fuel : nat) (occupied : Z → bool) (v : Z) : option Z :=
  match fuel with
  | O => None
  | S fuel' => if occupied v then Some (wrap 31 v) else scan_down fuel' occupied (wrap 64 (v - 1))
  end.

Definition update_bounding_box (fuel : nat) (l : Lyt) (b : bounding_box_2d) :
    option bounding_box_2d :=
  let zero := ucoord3 0 0 0 in
  if bl_is_empty l then Some (BoundingBox zero zero (x_size b) (y_size b))
  else
    let min_x := scan_up (column_occupied l) (seqZ 0 (bl_x l + 1)) 0 in
    let min_y := scan_up (row_occupied l) (seqZ 0 (bl_y l + 1)) 0 in
    max_x ← scan_down fuel (column_occupied l) (bl_x l);
    max_y ← scan_down fuel (row_occupied l) (bl_y l);
    Some (BoundingBox (UCoord 0 0 min_y min_x) (UCoord 0 0 max_y max_x)
            (wrap 64 (max_x - min_x)) (wrap 64 (max_y - min_y))).

(** The constructor. *)
Definition make_bounding_box (fuel : nat) (l : Lyt) : option bounding_box_2d :=
  update_bounding_box fuel l (BoundingBox (ucoord3 0 0 0) (ucoord3 0 0 0) 0 0).

Definition get_min (b : bounding_box_2d) : ucoord_t := bb_min b.
Definition get_max (b : bounding_box_2d) : ucoord_t := bb_max b.
Definition get_x_size (b : bounding_box_2d) : Z := x_size b.
Definition get_y_size (b : bounding_box_2d) : Z := y_size b.

(** ** Lemmas on the loops *)

Lemma scan_up_first occupied k n m v :
  0 <= k → k + n <= 2 ^ 31 → k <= v < k + n → occupied v = true →
  let r := scan_up occupied (seqZ k n) m in
  k <= r <= v ∧ occupied r = true ∧ ∀ u, k <= u < r → occupied u = false.
Proof.
  intros Hk Hn Hv Hocc. assert (0 <= n) as Hpos by lia. revert n Hpos k m Hk Hn Hv.
  refine (natlike_ind _ _ _); [intros; lia|]. intros n Hpos IH k m Hk Hn Hv.
  rewrite seqZ_cons by lia. simpl.
  rewrite wrap_small by (unfold in_width; lia).
  replace (Z.pred (Z.succ n)) with n by lia.
  destruct (occupied k) eqn:Ek; [split_and!; [lia|lia|done|intros; lia]|].
  assert (k ≠ v) by congruence.
  destruct (IH (Z.succ k) k) as (H1 & H2 & H3); [lia..|].
  split_and!; [lia|lia|done|]. intros u Hu. destruct (decide (u = k)) as [->|]; [done|].
  apply H3. lia.
Qed.

Lemma scan_down_first occupied (fuel : nat) k v :
  0 <= v <= k → k < 2 ^ 31 → occupied v = true → k - v < Z.of_nat fuel →
  ∃ r, scan_down fuel occupied k = Some r ∧ v <= r <= k ∧ occupied r = true ∧
       ∀ u, r < u <= k → occupied u = false.
Proof.
  revert k. induction fuel as [|fuel IH]; intros k Hv Hk Hocc Hf; [lia|]. simpl.
  destruct (occupied k) eqn:Ek.
  - exists k. rewrite wrap_small by (unfold in_width; lia). split_and!; [done|lia|lia|done|intros; lia].
  - assert (k ≠ v) by congruence. rewrite wrap_small by (unfold in_width; lia).
    destruct (IH (k - 1)) as (r & E & Hr & Hor & Hu); [lia..|done|lia|].
    exists r. split_and!; [done|lia|lia|done|]. intros u Hu'.
    destruct (decide (u = k)) as [->|]; [done|]. apply Hu. lia.
Qed.

Lemma scan_down_diverges occupied fuel v :
  (∀ u, occupied u = false) → scan_down fuel occupied v = None.
Proof.
  intros Hocc. revert v. induction fuel as [|fuel IH]; intros v; [done|]. simpl. by rewrite Hocc.
Qed.

Lemma column_occupied_spec l x :
  column_occupied l x = true ↔
  ∃ y, 0 <= y <= bl_y l ∧ is_empty_coordinate l (ucoord2 x y) = false.
Proof.
  unfold column_occupied. rewrite existsb_exists. setoid_rewrite <-list_elem_of_In.
  setoid_rewrite elem_of_seqZ. setoid_rewrite negb_true_iff.
  split; intros (y & ? & ?); exists y; (split; [lia|done]).
Qed.

Lemma row_occupied_spec l y :
  row_occupied l y = true ↔
  ∃ x, 0 <= x <= bl_x l ∧ is_empty_coordinate l (ucoord2 x y) = false.
Proof.
  unfold row_occupied. rewrite existsb_exists. setoid_rewrite <-list_elem_of_In.
  setoid_rewrite elem_of_seqZ. setoid_rewrite negb_true_iff.
  split; intros (x & ? & ?); exists x; (split; [lia|done]).
Qed.
End Update.

(** * Properties *)

(** When some coordinate of the ground layer within the layout is occupied, the computation of
    the bounding box ends after at most as many steps per loop as the layout has columns or rows,
    and yields the smallest enclosing box: it contains every occupied ground coordinate, each of its
    four sides touches one, and its sizes are the differences of its corners. *)
Theorem bounding_box_minimal `{BoundedLayout Lyt} (fuel : nat) (l : Lyt) (b : bounding_box_2d)
    (x0 y0 : Z) :
  bl_x l < 2 ^ 31 → bl_y l < 2 ^ 31 → bl_is_empty l = false →
  0 <= x0 <= bl_x l → 0 <= y0 <= bl_y l → is_empty_coordinate l (ucoord2 x0 y0) = false →
  bl_x l < Z.of_nat fuel → bl_y l < Z.of_nat fuel →
  ∃ b', update_bounding_box fuel l b = Some b' ∧
    (∀ x y, 0 <= x <= bl_x l → 0 <= y <= bl_y l → is_empty_coordinate l (ucoord2 x y) = false →
       ux (get_min b') <= x <= ux (get_max b') ∧ uy (get_min b') <= y <= uy (get_max b')) ∧
    column_occupied l (ux (get_min b')) = true ∧ column_occupied l (ux (get_max b')) = true ∧
    row_occupied l (uy (get_min b')) = true ∧ row_occupied l (uy (get_max b')) = true ∧
    get_x_size b' = ux (get_max b') - ux (get_min b') ∧
    get_y_size b' = uy (get_max b') - uy (get_min b').
Proof.
  intros Hx Hy Hne Hx0 Hy0 Hocc Hfx Hfy.
  assert (∀ x y, 0 <= x <= bl_x l → 0 <= y <= bl_y l → is_empty_coordinate l (ucoord2 x y) = false →
    column_occupied l x = true ∧ row_occupied l y = true) as Hcr.
  { intros x y ???. rewrite column_occupied_spec, row_occupied_spec. split; [by exists y|by exists x]. }
  destruct (Hcr x0 y0) as [Hc Hr]; [done..|].
  destruct (scan_up_first (column_occupied l) 0 (bl_x l + 1) 0 x0) as (A1 & A2 & A3); [lia..|done|].
  destruct (scan_up_first (row_occupied l) 0 (bl_y l + 1) 0 y0) as (B1 & B2 & B3); [lia..|done|].
  destruct (scan_down_first (column_occupied l) fuel (bl_x l) x0) as (mx & E1 & C1 & C2 & C3);
    [lia..|done|lia|].
  destruct (scan_down_first (row_occupied l) fuel (bl_y l) y0) as (my & E2 & D1 & D2 & D3);
    [lia..|done|lia|].
  unfold update_bounding_box. rewrite Hne, E1, E2. cbn.
  eexists. split; [done|]. cbn. split_and!; try done.
  - intros x y Hxr Hyr Hxy. destruct (Hcr x y) as [Hcx Hry]; [done..|].
    split; split; apply Z.nlt_ge; intros Hlt.
    + rewrite A3 in Hcx; [done|lia].
    + rewrite C3 in Hcx; [done|lia].
    + rewrite B3 in Hry; [done|lia].
    + rewrite D3 in Hry; [done|lia].
  - apply wrap_small. unfold in_width. lia.
  - apply wrap_small. unfold in_width. lia.
Qed.

(** A cell-level layout of 4 x 4 cells on two layers with cells at the given positions. *)
Definition cells_at (cs : list ucoord_t) : CellLevel.cell_level_layout (Tech := Qca.qca_technology) Cartesian.cartesian_layout :=
  CellLevel.CellLevelLayout
    (Clocked.ClockedLayout (Cartesian.make (UCoord 0 1 3 3)) (twoddwave_clocking 3 FOUR))
    (foldr (λ c s, CellLevel.assign_cell_type s c Qca.NORMAL) (blank "cells" 1 1) cs).

Lemma bounding_box_minimal_witness :
  let l := cells_at [UCoord 0 0 1 2; UCoord 0 0 2 1] in
  let b := BoundingBox (UCoord 0 0 0 0) (UCoord 0 0 0 0) 0 0 in
  ∃ b', update_bounding_box 4 l b = Some b' ∧
    (∀ x y, 0 <= x <= bl_x l → 0 <= y <= bl_y l → is_empty_coordinate l (ucoord2 x y) = false →
       ux (get_min b') <= x <= ux (get_max b') ∧ uy (get_min b') <= y <= uy (get_max b')) ∧
    column_occupied l (ux (get_min b')) = true ∧ column_occupied l (ux (get_max b')) = true ∧
    row_occupied l (uy (get_min b')) = true ∧ row_occupied l (uy (get_max b')) = true ∧
    get_x_size b' = ux (get_max b') - ux (get_min b') ∧
    get_y_size b' = uy (get_max b') - uy (get_min b').
Proof.
  apply (bounding_box_minimal 4 (cells_at [UCoord 0 0 1 2; UCoord 0 0 2 1]) _ 2 1);
    first [reflexivity | vm_compute; repeat split; discriminate].
Defined.

(** When a layout is not empty but nothing lies on its ground layer, the computation of the
    bounding box never ends: the search for the highest occupied column runs through all values of
    its unsigned counter. *)
Theorem bounding_box_diverges `{BoundedLayout Lyt} (fuel : nat) (l : Lyt) (b : bounding_box_2d) :
  bl_is_empty l = false →
  (∀ x y, 0 <= y <= bl_y l → is_empty_coordinate l (ucoord2 x y) = true) →
  update_bounding_box fuel l b = None.
Proof.
  intros Hne Hempty. unfold update_bounding_box. rewrite Hne, (scan_down_diverges (column_occupied l)); [done|].
  intros x. apply not_true_iff_false. rewrite column_occupied_spec. intros (y & Hy & E).
  by rewrite Hempty in E by done.
Qed.

Lemma bounding_box_diverges_witness :
  update_bounding_box 100 (cells_at [UCoord 0 1 1 1]) (BoundingBox (UCoord 0 0 0 0) (UCoord 0 0 0 0) 0 0)
    = None.
Proof.
  apply (bounding_box_diverges 100 (cells_at [UCoord 0 1 1 1])); [reflexivity|].
  intros x y _. unfold is_empty_coordinate, cell_level_bounded, CellLevel.is_empty_cell,
    CellLevel.get_cell_type, cells_at. simpl. by rewrite lookup_insert_ne by discriminate.
Defined.

(** Updating the bounding box of a layout that has become empty resets its corners, but keeps the
    sizes of the previous box. *)
Theorem bounding_box_of_empty_layout `{BoundedLayout Lyt} (fuel : nat) (l : Lyt)
    (b : bounding_box_2d) :
  bl_is_empty l = true →
  ∃ b', update_bounding_box fuel l b = Some b' ∧ get_min b' = UCoord 0 0 0 0 ∧
        get_max b' = UCoord 0 0 0 0 ∧ get_x_size b' = get_x_size b ∧ get_y_size b' = get_y_size b.
Proof. intros E. unfold update_bounding_box. rewrite E. eexists. by split_and!. Qed.

Lemma bounding_box_of_empty_layout_witness :
  ∃ b', update_bounding_box 4 (cells_at []) (BoundingBox (UCoord 0 0 0 0) (UCoord 0 0 3 2) 2 3)
          = Some b' ∧ get_min b' = UCoord 0 0 0 0 ∧ get_max b' = UCoord 0 0 0 0 ∧
        get_x_size b' = 2 ∧ get_y_size b' = 3.
Proof. apply (bounding_box_of_empty_layout 4 (cells_at [])). reflexivity. Defined.
