(* ===== verification/AspectRatioIterator.v ===== *)
(** * Aspect ratio iteration (include/fiction/algorithms/iter/aspect_ratio_iterator.hpp)

    The class template [aspect_ratio_iterator] over the aspect ratios [offset::ucoord_t]: it
    enumerates the two-dimensional aspect ratios of [n], [n + 1], ... faces by factorization.

    The loop condition [i <= std::sqrt(num)] compares with a double; it is modelled as
    [i * i <= num], which is the same for [num < 2^52], where the square root of a double decides
    the comparison exactly. The iterator [it] into the factors is an index; a copy of an iterator
    object refers to the factors of the original in the program, so the postfix increment, which
    copies, is not modelled. *)

From S2P Require Import Prelude.
From S2P Require Import Coordinates.
#[local] Open Scope Z_scope.
Import Offset.

Record aspect_ratio_iterator := AspectRatioIterator {
  num : Z;
  factors : list ucoord_t;
  it : Z;
}.

(** What an iteration of the factorization loop appends to the factors; [x] has type [unsigned int]. *)
Definition factor_pair (n i : Z) : list ucoord_t :=
  if n mod i =? 0 then
    let x := wrap 32 (i - 1) in
    let y := wrap 64 (n `div` i - 1) in
    if negb (x =? y) then [ucoord2 x y; ucoord2 y x] else [ucoord2 x y]
  else [].

(** The loop, with [i] of type [unsigned int]. *)
Fixpoint factor_loop (fuel : nat) (n i : Z) (acc : list ucoord_t) : option (list ucoord_t) :=
  match fuel with
  | O => None
  | S fuel' =>
      if i * i <=? n then factor_loop fuel' n (wrap 32 (i + 1)) (acc ++ factor_pair n i)
      else Some acc
  end.

(** Enough iterations for every [n] below 2^52. *)
Definition factorize (n : Z) : option (list ucoord_t) :=
  factor_loop (S (Z.to_nat (Z.sqrt n))) n 1 [].

(** [do { ++num; factorize(); } while (factors.empty());] *)
Fixpoint next (fuel : nat) (n : Z) : option aspect_ratio_iterator :=
  match fuel with
  | O => None
  | S fuel' =>
      let n := wrap 64 (n + 1) in
      fs ← factorize n;
      match fs with
      | [] => next fuel' n
      | _ => Some (AspectRatioIterator n fs 0)
      end
  end.

(** The constructor. *)
Definition make (fuel : nat) (n : Z) : option aspect_ratio_iterator :=
  next fuel (if negb (n =? 0) then n - 1 else 0).

(** [operator++()]. *)
Definition incr (fuel : nat) (a : aspect_ratio_iterator) : option aspect_ratio_iterator :=
  let i := it a + 1 in
  if i =? Z.of_nat (length (factors a)) then next fuel (num a)
  else Some (AspectRatioIterator (num a) (factors a) i).

(** [operator*]. *)
Definition deref (a : aspect_ratio_iterator) : option ucoord_t := vec_at (factors a) (it a).

(** The comparisons with a number of faces. *)
Definition eqb_num (a : aspect_ratio_iterator) (m : Z) : bool := num a =? m.
Definition neqb_num (a : aspect_ratio_iterator) (m : Z) : bool := negb (num a =? m).
Definition ltb_num (a : aspect_ratio_iterator) (m : Z) : bool := num a <? m.
Definition leb_num (a : aspect_ratio_iterator) (m : Z) : bool := num a <=? m.

(** The comparisons of iterators; a comparison of the current ratios dereferences both. *)
Definition compare_current (f : ucoord_t → ucoord_t → bool) (a b : aspect_ratio_iterator) :
    option bool :=
  c ← deref a; o ← deref b; Some (f c o).

Definition iter_eqb (a b : aspect_ratio_iterator) : option bool :=
  if num a =? num b then compare_current eqb a b else Some false.
Definition iter_neqb (a b : aspect_ratio_iterator) : option bool := negb <$> iter_eqb a b.
Definition iter_ltb (a b : aspect_ratio_iterator) : option bool :=
  if num a <? num b then Some true
  else if num a =? num b then compare_current ltb a b else Some false.
Definition iter_leb (a b : aspect_ratio_iterator) : option bool :=
  if num a <=? num b then Some true
  else if num a =? num b then compare_current leb a b else Some false.

(** [k] increments. *)
Fixpoint advance (fuel k : nat) (a : aspect_ratio_iterator) : option aspect_ratio_iterator :=
  match k with
  | O => Some a
  | S k' => a ← incr fuel a; advance fuel k' a
  end.

(** ** The factorization *)

Lemma factor_loop_spec (fuel : nat) n i acc :
  1 <= i → 0 <= n < 2 ^ 52 → (0 < fuel)%nat → Z.sqrt n + 1 - i < Z.of_nat fuel →
  factor_loop fuel n i acc = Some (acc ++ (seqZ i (Z.sqrt n + 1 - i) ≫= factor_pair n)).
Proof.
  revert i acc. induction fuel as [|fuel IH]; intros i acc Hi Hn H0 Hf; [lia|]. simpl.
  pose proof (Z.sqrt_spec n ltac:(lia)) as Hsq.
  destruct (Z.leb_spec (i * i) n).
  - assert (i <= Z.sqrt n) by (apply Z.sqrt_le_square; lia).
    rewrite wrap_small by (unfold in_width; nia).
    rewrite IH, (seqZ_cons i) by lia. simpl. rewrite <-(assoc_L (++)). repeat f_equal; lia.
  - assert (Z.sqrt n < i) by (apply Z.sqrt_lt_square; lia).
    by rewrite seqZ_nil, app_nil_r by lia.
Qed.

Lemma factorize_spec n :
  0 <= n < 2 ^ 52 → factorize n = Some (seqZ 1 (Z.sqrt n) ≫= factor_pair n).
Proof.
  intros Hn. unfold factorize. pose proof (Z.sqrt_nonneg n).
  rewrite factor_loop_spec by lia. simpl. do 2 f_equal. f_equal. lia.
Qed.

(** The ratios of an iteration: the divisor [i] and its cofactor, in both orders. *)
Lemma elem_of_factor_pair n i c :
  1 <= i → i * i <= n → n < 2 ^ 31 →
  c ∈ factor_pair n i ↔
  ∃ k, n = i * k ∧ (c = UCoord 0 0 (k - 1) (i - 1) ∨ c = UCoord 0 0 (i - 1) (k - 1)).
Proof.
  intros Hi Hsq Hn. unfold factor_pair. destruct (Z.eqb_spec (n mod i) 0) as [Hm|Hm].
  - pose proof (Z.div_exact n i ltac:(lia)) as [_ Hk]. specialize (Hk Hm).
    set (k := n `div` i) in *. assert (i <= k) by nia. assert (k < 2 ^ 31) by nia.
    rewrite !wrap_small by (unfold in_width; nia). unfold ucoord2.
    rewrite !wrap_small by (unfold in_width; lia).
    transitivity (c = UCoord 0 0 (k - 1) (i - 1) ∨ c = UCoord 0 0 (i - 1) (k - 1)).
    + destruct (Z.eqb_spec (i - 1) (k - 1)) as [->|]; simpl; set_solver.
    + split; [by exists k|]. intros (k' & E & Hc). assert (k' = k) as -> by nia. done.
  - split; [by intros ?%elem_of_nil|]. intros (k & -> & _). exfalso. apply Hm.
    rewrite Z.mul_comm. apply Z.mod_mul. lia.
Qed.

Lemma factor_pair_NoDup n i : 1 <= i → i * i <= n → n < 2 ^ 31 → NoDup (factor_pair n i).
Proof.
  intros Hi Hsq Hn. unfold factor_pair. destruct (Z.eqb_spec (n mod i) 0) as [Hm|Hm]; [|constructor].
  pose proof (Z.div_exact n i ltac:(lia)) as [_ Hk]. specialize (Hk Hm).
  set (k := n `div` i) in *. assert (i <= k) by nia. assert (k < 2 ^ 31) by nia.
  rewrite !wrap_small by (unfold in_width; nia). unfold ucoord2.
  rewrite !wrap_small by (unfold in_width; lia).
  destruct (Z.eqb_spec (i - 1) (k - 1)); simpl; [apply NoDup_singleton|].
  apply NoDup_cons. split; [|apply NoDup_singleton].
  rewrite list_elem_of_singleton. intros [= E]. lia.
Qed.

(** A ratio of [n] faces. *)
Definition ratio_of (n : Z) (c : ucoord_t) : Prop :=
  ∃ x y, c = UCoord 0 0 y x ∧ 0 <= x ∧ 0 <= y ∧ (x + 1) * (y + 1) = n.

Lemma elem_of_factors n c :
  0 < n < 2 ^ 31 → c ∈ (seqZ 1 (Z.sqrt n) ≫= factor_pair n) ↔ ratio_of n c.
Proof.
  intros Hn. rewrite list_elem_of_bind. pose proof (Z.sqrt_spec n ltac:(lia)) as Hsq. split.
  - intros (i & Hc & Hi%elem_of_seqZ). apply elem_of_factor_pair in Hc as (k & E & Hc); [|lia|apply Z.sqrt_le_square; lia|lia].
    destruct Hc as [->| ->].
    + exists (i - 1), (k - 1). split_and!; [done|lia|nia|lia].
    + exists (k - 1), (i - 1). split_and!; [done|nia|lia|lia].
  - intros (x & y & -> & Hx & Hy & E). destruct (decide (x <= y)).
    + exists (x + 1). assert (x + 1 <= Z.sqrt n) by (apply Z.sqrt_le_square; nia).
      split; [|apply elem_of_seqZ; lia]. apply elem_of_factor_pair; [lia|apply Z.sqrt_le_square; lia|lia|].
      exists (y + 1). split; [lia|]. left. f_equal; lia.
    + exists (y + 1). assert (y + 1 <= Z.sqrt n) by (apply Z.sqrt_le_square; nia).
      split; [|apply elem_of_seqZ; lia]. apply elem_of_factor_pair; [lia|apply Z.sqrt_le_square; lia|lia|].
      exists (x + 1). split; [lia|]. right. f_equal; lia.
Qed.

Lemma factors_NoDup n : 0 < n < 2 ^ 31 → NoDup (seqZ 1 (Z.sqrt n) ≫= factor_pair n).
Proof.
  intros Hn. pose proof (Z.sqrt_spec n ltac:(lia)) as Hsq. apply NoDup_bind.
  - intros i j c Hi%elem_of_seqZ Hj%elem_of_seqZ Hci Hcj.
    apply elem_of_factor_pair in Hci as (k & E & Hci); [|lia|apply Z.sqrt_le_square; lia|lia].
    apply elem_of_factor_pair in Hcj as (k' & E' & Hcj); [|lia|apply Z.sqrt_le_square; lia|lia].
    assert (i * i <= n) by (apply Z.sqrt_le_square; lia).
    assert (j * j <= n) by (apply Z.sqrt_le_square; lia).
    assert (i <= k) by nia. assert (j <= k') by nia.
    destruct Hci as [->| ->], Hcj as [[=]|[=]]; lia.
  - intros i Hi%elem_of_seqZ. apply factor_pair_NoDup; [lia|apply Z.sqrt_le_square; lia|lia].
  - apply NoDup_seqZ.
Qed.

(** ** The iteration *)

Definition all_factors (n : Z) : list ucoord_t := seqZ 1 (Z.sqrt n) ≫= factor_pair n.

(** An iterator that points to one of the ratios of its number of faces. *)
Definition valid (a : aspect_ratio_iterator) : Prop :=
  0 < num a < 2 ^ 31 ∧ factors a = all_factors (num a) ∧ 0 <= it a < Z.of_nat (length (factors a)).

Lemma all_factors_not_nil n : 0 < n < 2 ^ 31 → ∃ c cs, all_factors n = c :: cs.
Proof.
  intros Hn. assert (UCoord 0 0 (n - 1) 0 ∈ all_factors n) as Hin.
  { apply elem_of_factors; [done|]. exists 0, (n - 1). split_and!; [done|lia|lia|lia]. }
  destruct (all_factors n) as [|c cs]; [by apply not_elem_of_nil in Hin|eauto].
Qed.

(** The search for the next number of faces that has factors ends at once. *)
Lemma next_spec fuel n :
  (0 < fuel)%nat → 0 <= n → n + 1 < 2 ^ 31 →
  next fuel n = Some (AspectRatioIterator (n + 1) (all_factors (n + 1)) 0).
Proof.
  intros Hf Hn Hlt. destruct fuel as [|fuel]; [lia|]. simpl.
  rewrite wrap_small by (unfold in_width; lia). rewrite factorize_spec by lia. simpl.
  fold (all_factors (n + 1)). destruct (all_factors_not_nil (n + 1)) as (c & cs & ->); [lia|done].
Qed.

Lemma next_valid n :
  0 <= n → n + 1 < 2 ^ 31 → valid (AspectRatioIterator (n + 1) (all_factors (n + 1)) 0).
Proof.
  intros Hn Hlt. destruct (all_factors_not_nil (n + 1)) as (c & cs & E); [lia|].
  split_and!; simpl; [lia|lia|done|lia|rewrite E; simpl; lia].
Qed.

(** Within the factors of a number of faces, increments move the index. *)
Lemma advance_within fuel k a :
  it a + Z.of_nat k < Z.of_nat (length (factors a)) →
  advance fuel k a = Some (AspectRatioIterator (num a) (factors a) (it a + Z.of_nat k)).
Proof.
  revert a. induction k as [|k IH]; intros a Hk; simpl.
  { rewrite Z.add_0_r. by destruct a. }
  unfold incr. destruct (Z.eqb_spec (it a + 1) (Z.of_nat (length (factors a)))); [lia|]. simpl.
  rewrite IH by (simpl; lia). simpl. do 2 f_equal. lia.
Qed.

Lemma advance_add fuel j k a b :
  advance fuel j a = Some b → advance fuel (j + k) a = advance fuel k b.
Proof.
  revert a. induction j as [|j IH]; intros a; simpl; [by intros [= ->]|].
  destruct (incr fuel a) as [c|]; [simpl; apply IH|done].
Qed.

(** Past the last factor the iterator starts over with the next number of faces. *)
Lemma advance_block fuel n :
  (0 < fuel)%nat → 0 < n → n + 1 < 2 ^ 31 →
  advance fuel (length (all_factors n)) (AspectRatioIterator n (all_factors n) 0)
    = Some (AspectRatioIterator (n + 1) (all_factors (n + 1)) 0).
Proof.
  intros Hf Hn Hlt. destruct (all_factors_not_nil n) as (c & cs & E); [lia|].
  assert (length (all_factors n) = (length cs + 1)%nat) as Hlen by (rewrite E; simpl; lia).
  rewrite Hlen. erewrite advance_add by (apply advance_within; simpl; lia).
  simpl. unfold incr. simpl. rewrite Hlen.
  assert (0 + Z.of_nat (length cs) + 1 =? Z.of_nat (length cs + 1) = true) as ->
    by (apply Z.eqb_eq; lia).
  by rewrite next_spec by lia.
Qed.

(** All numbers of faces are reached. *)
Lemma advance_reaches fuel n d :
  (0 < fuel)%nat → 0 < n → 0 <= d → n + d < 2 ^ 31 →
  ∃ k, advance fuel k (AspectRatioIterator n (all_factors n) 0)
         = Some (AspectRatioIterator (n + d) (all_factors (n + d)) 0).
Proof.
  intros Hf Hn Hd. revert d Hd. refine (natlike_ind _ _ _).
  - intros _. exists O. by rewrite Z.add_0_r.
  - intros d Hd IH Hlt. destruct IH as [k Ek]; [lia|].
    exists (k + length (all_factors (n + d)))%nat. rewrite (advance_add _ _ _ _ _ Ek).
    replace (n + Z.succ d) with (n + d + 1) by lia. by rewrite advance_block by lia.
Qed.

(** * Properties *)

(** The factorization of a number of faces below 2^31 terminates and yields exactly the aspect
    ratios with that many faces, each once. *)
Theorem factorize_exact (n : Z) :
  0 < n < 2 ^ 31 →
  ∃ fs, factorize n = Some fs ∧ NoDup fs ∧ ∀ c, c ∈ fs ↔ ratio_of n c.
Proof.
  intros Hn. exists (all_factors n). split_and!.
  - apply factorize_spec. lia.
  - by apply factors_NoDup.
  - intros c. by apply elem_of_factors.
Qed.

Lemma factorize_exact_witness :
  ∃ fs, factorize 12 = Some fs ∧ NoDup fs ∧ ∀ c, c ∈ fs ↔ ratio_of 12 c.
Proof. apply (factorize_exact 12). lia. Defined.

(** An iterator that starts at [n] faces reaches every aspect ratio of [n] or more faces (below
    2^31 faces) after finitely many increments, without ever searching for factors in vain, and
    every increment moves a valid iterator to the next factor or to the first factor of the next
    number of faces. *)
Theorem iteration_reaches_every_ratio (fuel : nat) (n m : Z) (c : ucoord_t) :
  (0 < fuel)%nat → 0 < n <= m → m < 2 ^ 31 → ratio_of m c →
  (∃ a k b, make fuel n = Some a ∧ advance fuel k a = Some b ∧ num b = m ∧ deref b = Some c) ∧
  (∀ a, valid a → num a + 1 < 2 ^ 31 →
   ∃ b, incr fuel a = Some b ∧ valid b ∧
        ((num b = num a ∧ it b = it a + 1) ∨
         (num b = num a + 1 ∧ it b = 0 ∧ it a + 1 = Z.of_nat (length (factors a))))).
Proof.
  intros Hf Hn Hm Hc. split.
  - exists (AspectRatioIterator n (all_factors n) 0).
    destruct (advance_reaches fuel n (m - n)) as [k Ek]; [done|lia..|].
    replace (n + (m - n)) with m in Ek by lia.
    apply elem_of_factors in Hc as Hin; [|lia]. fold (all_factors m) in Hin.
    apply list_elem_of_lookup in Hin as [j Ej]. apply lookup_lt_Some in Ej as Hj.
    exists (k + j)%nat, (AspectRatioIterator m (all_factors m) (Z.of_nat j)). split_and!; [| |done|].
    + unfold make. destruct (Z.eqb_spec n 0); [lia|]. simpl. rewrite next_spec by lia.
      by replace (n - 1 + 1) with n by lia.
    + rewrite (advance_add _ _ _ _ _ Ek), advance_within by (simpl; lia). done.
    + unfold deref, vec_at; simpl. rewrite decide_True by lia. by rewrite Nat2Z.id.
  - intros a (Ha & Hfs & Hit) Hlt. unfold incr.
    destruct (Z.eqb_spec (it a + 1) (Z.of_nat (length (factors a)))) as [E|E].
    + eexists. split; [apply next_spec; lia|]. split; [apply next_valid; lia|]. by right.
    + eexists. split; [done|]. split; [split_and!; simpl; lia || done|]. by left.
Qed.

Lemma iteration_reaches_every_ratio_witness :
  (∃ a k b, make 1 4 = Some a ∧ advance 1 k a = Some b ∧ num b = 6 ∧ deref b = Some (UCoord 0 0 1 2)) ∧
  (∀ a, valid a → num a + 1 < 2 ^ 31 →
   ∃ b, incr 1 a = Some b ∧ valid b ∧
        ((num b = num a ∧ it b = it a + 1) ∨
         (num b = num a + 1 ∧ it b = 0 ∧ it a + 1 = Z.of_nat (length (factors a))))).
Proof.
  apply (iteration_reaches_every_ratio 1 4 6 (UCoord 0 0 1 2)); [lia..|].
  exists 2, 1. by split_and!.
Defined.

(** [operator<=] of two iterators compares nothing but the numbers of faces: it holds between any
    two ratios with the same number of faces, in both directions, even where [operator<] says that
    they are in the opposite order. *)
Theorem iter_leb_ignores_ratio (a b : aspect_ratio_iterator) :
  iter_leb a b = Some (num a <=? num b) ∧
  ∃ c d, iter_leb c d = Some true ∧ iter_leb d c = Some true ∧ iter_ltb d c = Some true.
Proof.
  split.
  - unfold iter_leb. destruct (Z.leb_spec (num a) (num b)); [done|].
    by destruct (Z.eqb_spec (num a) (num b)); [lia|].
  - exists (AspectRatioIterator 2 [UCoord 0 0 1 0; UCoord 0 0 0 1] 0).
    exists (AspectRatioIterator 2 [UCoord 0 0 1 0; UCoord 0 0 0 1] 1). by vm_compute.
Qed.
