(* ===== verification/CellPorts.v ===== *)
(** * Cell ports (include/fiction/technology/cell_ports.hpp)

    Ports of a tile, as positions or directions, and the lists of input and output ports. Sets of
    ports are [std::set]s; the hash functions and the formatters are left out. *)

From S2P Require Import Prelude.
#[local] Open Scope Z_scope.

(** [port_position]; the positions have type [uint16_t]. *)
Record port_position := PortPosition { port_x : Z; port_y : Z; port_pi : bool; port_po : bool }.

#[export] Instance port_position_eq_dec : EqDecision port_position.
Proof. solve_decision. Defined.

(** The constructor with its default arguments. *)
Definition port_at (x y : Z) : port_position := PortPosition x y false false.

Definition position_ltb (p q : port_position) : bool :=
  (port_x p <? port_x q) || ((port_x p =? port_x q) && (port_y p <? port_y q)).
Definition position_eqb (p q : port_position) : bool :=
  (port_x p =? port_x q) && (port_y p =? port_y q).

(** [port_direction]. *)
Inductive cardinal :=
  NORTH | NORTH_EAST | EAST | SOUTH_EAST | SOUTH | SOUTH_WEST | WEST | NORTH_WEST.

Definition cardinal_code (c : cardinal) : Z :=
  match c with
  | NORTH => 0 | NORTH_EAST => 1 | EAST => 2 | SOUTH_EAST => 3
  | SOUTH => 4 | SOUTH_WEST => 5 | WEST => 6 | NORTH_WEST => 7
  end.

Record port_direction := PortDirection { port_dir : Z; dir_pi : bool; dir_po : bool }.

Definition make_direction (c : cardinal) (pi po : bool) : port_direction :=
  PortDirection (cardinal_code c) pi po.

Definition direction_ltb (p q : port_direction) : bool := port_dir p <? port_dir q.
Definition direction_eqb (p q : port_direction) : bool := port_dir p =? port_dir q.

(** [port_list]: the sets of input and output ports. *)
Record port_list (P : Type) := PortList { port_inp : list P; port_out : list P }.
Arguments PortList {P} _ _.
Arguments port_inp {P} _.
Arguments port_out {P} _.

Section PortLists.
Context {P : Type} (lt eqb : P → P → bool).

(** [std::set::operator==]: equal sizes and equal elements in order. *)
Fixpoint set_eqb (s t : list P) : bool :=
  match s, t with
  | [], [] => true
  | a :: s', b :: t' => eqb a b && set_eqb s' t'
  | _, _ => false
  end.

Definition port_list_eqb (p q : port_list P) : bool :=
  set_eqb (port_inp p) (port_inp q) && set_eqb (port_out p) (port_out q).

(** [std::set::count(a) > 0]: an element equivalent to [a] is present. *)
Definition set_contains (a : P) (s : list P) : bool :=
  existsb (λ b, negb (lt a b) && negb (lt b a)) s.

(** [s.merge(t)]: the elements of [t] without an equivalent in [s] move to [s]; the others stay. *)
Definition set_merge (s t : list P) : list P * list P :=
  (foldl (λ s a, set_insert lt a s) s t, List.filter (λ a, set_contains a s) t).

(** [operator+=]: the merged list, and what is left of the argument. *)
Definition port_list_merge (p q : port_list P) : port_list P * port_list P :=
  let i := set_merge (port_inp p) (port_inp q) in
  let o := set_merge (port_out p) (port_out q) in
  (PortList i.1 o.1, PortList i.2 o.2).
End PortLists.
