(* ===== verification/FcnGateLibrary.v ===== *)
(** * Gate libraries (include/fiction/technology/fcn_gate_library.hpp, utils/array_utils.hpp)

    The class template [fcn_gate_library]: gates as two-dimensional arrays of cell types, their
    rotation, merging and marking. A gate is the list of its rows; an index out of range is [None]. *)

From S2P Require Import Prelude.
From S2P Require Import Coordinates.
From S2P Require Import CellTechnology.
From S2P Require Import CellPorts.
#[local] Open Scope Z_scope.

(** [cell_list<T>] with [GateSizeY] rows of [GateSizeX] cells. *)
Abbreviation fcn_gate := (list (list Z)).

Definition gate_shape (sx sy : nat) (g : fcn_gate) : Prop :=
  length g = sy ∧ Forall (λ row, length row = sx) g.

(** [g[i][j]] and [g[i][j] = v]. *)
Definition gate_cell (g : fcn_gate) (i j : nat) : option Z := row ← g !! i; row !! j.
Definition set_gate_cell (g : fcn_gate) (i j : nat) (v : Z) : option fcn_gate :=
  _ ← gate_cell g i j; Some (alter (λ row, <[j := v]> row) i g).

(** A loop [for (auto x = 0ul; x < sx; ++x) for (auto y = 0ul; y < sy; ++y)]. *)
Definition loop_indices (sx sy : nat) : list (nat * nat) :=
  x ← seq 0 sx; y ← seq 0 sy; [(x, y)].

(** A loop over indices whose body changes an array and can leave its range. *)
Fixpoint array_loop (body : fcn_gate → nat * nat → option fcn_gate) (idx : list (nat * nat))
    (g : fcn_gate) : option fcn_gate :=
  match idx with
  | [] => Some g
  | i :: idx' => g ← body g i; array_loop body idx' g
  end.

Section Library.
Context `{Technology} (sx sy : nat).

(** [create_array], [convert_array] and [convert_array_of_arrays] of array_utils.hpp; the cast of an
    element to a cell type truncates it to 8 bits. *)
Definition create_array {A} (n : nat) (v : A) : list A := replicate n v.
Definition convert_array (a : list Z) : list Z := (λ v, wrap 8 v) <$> a.
Definition convert_array_of_arrays (a : list (list Z)) : list (list Z) := convert_array <$> a.

Definition EMPTY_GATE : fcn_gate := create_array sy (create_array sx tech_empty).

Definition cell_list_to_gate (c : list (list Z)) : fcn_gate := convert_array_of_arrays c.

Definition transpose (g : fcn_gate) : option fcn_gate :=
  array_loop (λ trans '(x, y), v ← gate_cell g x y; set_gate_cell trans y x v)
    (loop_indices sx sy) EMPTY_GATE.

Definition reverse_columns (g : fcn_gate) : fcn_gate := reverse <$> g.
Definition reverse_rows (g : fcn_gate) : fcn_gate := reverse g.

Definition rotate_90 (g : fcn_gate) : option fcn_gate := reverse_columns <$> transpose g.
Definition rotate_180 (g : fcn_gate) : option fcn_gate := Some (reverse_columns (reverse_rows g)).
Definition rotate_270 (g : fcn_gate) : option fcn_gate := transpose (reverse_columns g).

(** The innermost loop of [merge], over the gates. *)
Fixpoint merge_cell (gates : list fcn_gate) (merged : fcn_gate) (x y : nat) : option fcn_gate :=
  match gates with
  | [] => Some merged
  | g :: gates' =>
      v ← gate_cell g x y;
      merged ← (if tech_is_empty_cell v then Some merged else set_gate_cell merged x y v);
      merge_cell gates' merged x y
  end.

Definition merge (gates : list fcn_gate) : option fcn_gate :=
  array_loop (λ merged '(x, y), merge_cell gates merged x y) (loop_indices sx sy) EMPTY_GATE.

(** [mark_cell] at a port position; [mark] is the cell type that the mark is cast to. *)
Definition mark_cell (g : fcn_gate) (p : port_position) (mark : Z) : option fcn_gate :=
  set_gate_cell g (Z.to_nat (port_y p)) (Z.to_nat (port_x p)) mark.

Definition gate_x_size : Z := Z.of_nat sx.
Definition gate_y_size : Z := Z.of_nat sy.
End Library.

(** The arrays of characters in the libraries, row by row. *)
Fixpoint row_codes (s : string) : list Z :=
  match s with
  | EmptyString => []
  | String c s' => code c :: row_codes s'
  end.

(** [cell_list_to_gate<char>({{...}})]. *)
Definition gate_rows (rows : list string) : fcn_gate := cell_list_to_gate (row_codes <$> rows).

(** What [set_up_gate] of a library yields: a gate, or one of the two exceptions. *)
Inductive gate_result (P : Type) :=
  | Gate (g : fcn_gate)
  | UnsupportedOrientation (t : Offset.ucoord_t) (p : port_list P)
  | UnsupportedType (t : Offset.ucoord_t).
Arguments Gate {P} _.
Arguments UnsupportedOrientation {P} _ _.
Arguments UnsupportedType {P} _.

(** What becomes of the look-up of a gate by the ports [p] of a tile [t]. *)
Definition lookup_result {P} (t : Offset.ucoord_t) (p : port_list P) (g : option fcn_gate) :
    gate_result P :=
  match g with
  | Some g => Gate g
  | None => UnsupportedOrientation t p
  end.

(** [port_gate_map]s: unordered maps from port lists to gates, looked up by [at];
    [None] is [std::out_of_range]. *)
Section GateMaps.
Context {K : Type} (eqb : K → K → bool).

Fixpoint map_at (m : list (K * fcn_gate)) (k : K) : option fcn_gate :=
  match m with
  | [] => None
  | (q, g) :: m' => if eqb q k then Some g else map_at m' k
  end.
End GateMaps.

(** ** Lemmas *)

Lemma lookup_gate {P} t (p : port_list P) (o : option fcn_gate) g :
  Some (lookup_result t p o) = Some (Gate g) → o = Some g.
Proof. by destruct o; intros [=->]. Qed.

Lemma map_at_Some {K} (eqb : K → K → bool) m k g :
  map_at eqb m k = Some g → ∃ q, (q, g) ∈ m ∧ eqb q k = true.
Proof.
  induction m as [|[q h] m IH]; simpl; [done|]. destruct (eqb q k) eqn:E.
  - intros [= ->]. exists q. split; [by left|done].
  - intros (q' & Hq & ?)%IH. exists q'. split; [by right|done].
Qed.

(** *** Arrays *)

Lemma gate_cell_shape sx sy g i j :
  gate_shape sx sy g → is_Some (gate_cell g i j) ↔ (i < sy)%nat ∧ (j < sx)%nat.
Proof.
  intros [Hy Hx]. unfold gate_cell. split.
  - intros [v Hv]. destruct (g !! i) as [row|] eqn:E; [|done]. simpl in Hv.
    rewrite Forall_forall in Hx. rewrite <-(Hx row), <-Hy by (by eapply list_elem_of_lookup_2).
    split; by eapply lookup_lt_Some.
  - intros [Hi Hj]. destruct (lookup_lt_is_Some_2 g i) as [row E]; [lia|]. rewrite E. simpl.
    apply lookup_lt_is_Some_2. rewrite Forall_forall in Hx. rewrite Hx; [done|].
    by eapply list_elem_of_lookup_2.
Qed.

Lemma gate_ext sx sy g h :
  gate_shape sx sy g → gate_shape sx sy h →
  (∀ i j, (i < sy)%nat → (j < sx)%nat → gate_cell g i j = gate_cell h i j) → g = h.
Proof.
  intros [Hgy Hgx] [Hhy Hhx] Heq. apply list_eq_same_length with sy; [lia..|].
  intros i r r' Hi Hr Hr'. rewrite Forall_forall in Hgx, Hhx.
  apply list_eq_same_length with sx; [by apply Hhx; eapply list_elem_of_lookup_2
    |rewrite (Hgx r) by (by eapply list_elem_of_lookup_2); done|].
  intros j v v' Hj Hv Hv'. specialize (Heq i j Hi Hj). unfold gate_cell in Heq.
  rewrite Hr, Hr' in Heq. simpl in Heq. congruence.
Qed.

Lemma set_gate_cell_spec sx sy g i j v :
  gate_shape sx sy g → (i < sy)%nat → (j < sx)%nat →
  ∃ g', set_gate_cell g i j v = Some g' ∧ gate_shape sx sy g' ∧
        ∀ i' j', gate_cell g' i' j' = if decide (i' = i ∧ j' = j) then Some v else gate_cell g i' j'.
Proof.
  intros Hg Hi Hj. unfold set_gate_cell.
  destruct (proj2 (gate_cell_shape _ _ _ i j Hg) (conj Hi Hj)) as [w Hw]. rewrite Hw. simpl.
  eexists. split; [done|]. destruct Hg as [Hy Hx]. split; [split|].
  - by rewrite length_alter.
  - rewrite Forall_forall in *. intros row (i' & Hrow)%list_elem_of_lookup.
    destruct (decide (i' = i)) as [->|].
    + rewrite list_lookup_alter_eq in Hrow. destruct (g !! i) as [r|] eqn:E; [|done].
      injection Hrow as <-. rewrite length_insert. apply Hx. by eapply list_elem_of_lookup_2.
    + rewrite list_lookup_alter_ne in Hrow by done. apply Hx. by eapply list_elem_of_lookup_2.
  - intros i' j'. unfold gate_cell in *. destruct (decide (i' = i)) as [->|].
    + rewrite list_lookup_alter_eq. destruct (g !! i) as [r|] eqn:E; [|done]. simpl in *.
      destruct (decide (j' = j)) as [->|].
      * rewrite decide_True by done. apply list_lookup_insert_eq. by eapply lookup_lt_Some.
      * rewrite decide_False by tauto. by rewrite list_lookup_insert_ne.
    + rewrite list_lookup_alter_ne, decide_False by naive_solver. done.
Qed.

Lemma elem_of_loop_indices sx sy x y : (x, y) ∈ loop_indices sx sy ↔ (x < sx)%nat ∧ (y < sy)%nat.
Proof.
  unfold loop_indices. rewrite list_elem_of_bind. setoid_rewrite list_elem_of_bind.
  setoid_rewrite elem_of_seq. setoid_rewrite list_elem_of_singleton. split.
  - intros (a & (b & [= -> ->] & Hb) & Ha). lia.
  - intros [Hx Hy]. exists x. split; [|lia]. exists y. split; [done|lia].
Qed.

Lemma loop_indices_NoDup sx sy : NoDup (loop_indices sx sy).
Proof.
  unfold loop_indices. apply NoDup_bind; [|intros x _; apply NoDup_bind|apply NoDup_seq].
  - intros x x' p _ _ (y & Hy & _)%list_elem_of_bind (y' & Hy' & _)%list_elem_of_bind.
    apply list_elem_of_singleton in Hy, Hy'. congruence.
  - intros y y' p _ _ Hy%list_elem_of_singleton Hy'%list_elem_of_singleton. congruence.
  - intros y _. apply NoDup_singleton.
  - apply NoDup_seq.
Qed.

(** A loop whose body changes one cell [tgt p] per index [p], by [new p], and visits each cell at
    most once. *)
Lemma array_loop_spec sx sy (body : fcn_gate → nat * nat → option fcn_gate)
    (tgt : nat * nat → nat * nat) (new : nat * nat → option Z → option Z) idx g :
  (∀ h p, p ∈ idx → gate_shape sx sy h →
   ∃ h', body h p = Some h' ∧ gate_shape sx sy h' ∧
     ∀ i j, gate_cell h' i j =
       if decide ((i, j) = tgt p) then new p (gate_cell h i j) else gate_cell h i j) →
  (∀ p q, tgt p = tgt q → p = q) → NoDup idx → gate_shape sx sy g →
  ∃ g', array_loop body idx g = Some g' ∧ gate_shape sx sy g' ∧
    (∀ p i j, p ∈ idx → tgt p = (i, j) → gate_cell g' i j = new p (gate_cell g i j)) ∧
    (∀ i j, (∀ p, p ∈ idx → tgt p ≠ (i, j)) → gate_cell g' i j = gate_cell g i j).
Proof.
  intros Hbody Hinj Hnd. revert g. induction Hnd as [|p idx Hp Hnd IH]; intros g Hg.
  { exists g. split_and!; [done|done| |done]. by intros p i j Hp%elem_of_nil. }
  destruct (Hbody g p) as (h & E & Hh & Hcell); [by left|done|].
  destruct IH with (g := h) as (g' & E' & Hg' & Hin & Hout); [|done|].
  { intros h' q Hq. apply Hbody. by right. }
  exists g'. simpl. rewrite E. simpl. split_and!; [done|done| |].
  - intros q i j [->|Hq]%elem_of_cons Ht.
    + rewrite Hout, Hcell, decide_True by done || (intros q Hq Hqt; apply Hp; by rewrite (Hinj p q) by congruence).
      done.
    + rewrite (Hin q) by done. rewrite Hcell, decide_False; [done|].
      intros Heq. apply Hp. by rewrite (Hinj p q) by congruence.
  - intros i j Hne. rewrite Hout by (intros q Hq; apply Hne; by right).
    rewrite Hcell, decide_False; [done|]. intros Heq. apply (Hne p); [by left|done].
Qed.

Section LibraryLemmas.
Context `{Technology} (n : nat).

Lemma empty_gate_shape sx sy : gate_shape sx sy (EMPTY_GATE sx sy).
Proof.
  unfold EMPTY_GATE, create_array. split; [apply length_replicate|].
  apply Forall_replicate. apply length_replicate.
Qed.

Lemma empty_gate_cell sx sy i j :
  (i < sy)%nat → (j < sx)%nat → gate_cell (EMPTY_GATE sx sy) i j = Some tech_empty.
Proof.
  intros Hi Hj. unfold gate_cell, EMPTY_GATE, create_array.
  rewrite lookup_replicate_2 by done. simpl. by apply lookup_replicate_2.
Qed.

(** Transposition of a square gate. *)
Lemma transpose_spec g :
  gate_shape n n g →
  ∃ t, transpose n n g = Some t ∧ gate_shape n n t ∧
       ∀ i j, (i < n)%nat → (j < n)%nat → gate_cell t i j = gate_cell g j i.
Proof.
  intros Hg. unfold transpose.
  destruct (array_loop_spec n n (λ trans '(x, y), v ← gate_cell g x y; set_gate_cell trans y x v)
    (λ p, (p.2, p.1)) (λ p _, gate_cell g p.1 p.2) (loop_indices n n) (EMPTY_GATE n n))
    as (t & E & Ht & Hin & _).
  - intros h [x y] [Hx Hy]%elem_of_loop_indices Hh. simpl.
    destruct (proj2 (gate_cell_shape _ _ _ x y Hg) (conj Hx Hy)) as [v Hv]. rewrite Hv. simpl.
    destruct (set_gate_cell_spec n n h y x v) as (h' & -> & Hh' & Hc); [done..|].
    exists h'. split_and!; [done|done|]. intros i j. rewrite Hc.
    repeat case_decide; naive_solver.
  - intros [x y] [x' y']. simpl. naive_solver.
  - apply loop_indices_NoDup.
  - apply empty_gate_shape.
  - exists t. split_and!; [done|done|]. intros i j Hi Hj.
    rewrite (Hin (j, i) i j); [done|by apply elem_of_loop_indices|done].
Qed.

Lemma reverse_columns_spec g :
  gate_shape n n g →
  gate_shape n n (reverse_columns g) ∧
  ∀ i j, (i < n)%nat → (j < n)%nat → gate_cell (reverse_columns g) i j = gate_cell g i (n - 1 - j).
Proof.
  intros [Hy Hx]. split.
  - split; [by unfold reverse_columns; rewrite length_fmap|].
    apply Forall_fmap. eapply Forall_impl; [done|]. intros row <-. apply length_reverse.
  - intros i j Hi Hj. unfold gate_cell, reverse_columns. rewrite list_lookup_fmap.
    destruct (g !! i) as [row|] eqn:E; [|done]. simpl.
    rewrite Forall_forall in Hx. rewrite reverse_lookup; rewrite Hx by (by eapply list_elem_of_lookup_2);
      [f_equal; lia|lia].
Qed.

Lemma reverse_rows_spec g :
  gate_shape n n g →
  gate_shape n n (reverse_rows g) ∧
  ∀ i j, (i < n)%nat → (j < n)%nat → gate_cell (reverse_rows g) i j = gate_cell g (n - 1 - i) j.
Proof.
  intros [Hy Hx]. split.
  - split; [by unfold reverse_rows; rewrite length_reverse|by apply Forall_reverse].
  - intros i j Hi Hj. unfold gate_cell, reverse_rows. rewrite reverse_lookup by lia. rewrite Hy.
    by replace (n - S i)%nat with (n - 1 - i)%nat by lia.
Qed.

Lemma rotate_90_spec g :
  gate_shape n n g →
  ∃ r, rotate_90 n n g = Some r ∧ gate_shape n n r ∧
       ∀ i j, (i < n)%nat → (j < n)%nat → gate_cell r i j = gate_cell g (n - 1 - j) i.
Proof.
  intros Hg. destruct (transpose_spec g Hg) as (t & E & Ht & Hc).
  destruct (reverse_columns_spec t Ht) as [Hr Hrc].
  exists (reverse_columns t). unfold rotate_90. rewrite E. split_and!; [done|done|].
  intros i j Hi Hj. rewrite Hrc, Hc by lia. done.
Qed.

Lemma rotate_180_spec g :
  gate_shape n n g →
  ∃ r, rotate_180 g = Some r ∧ gate_shape n n r ∧
       ∀ i j, (i < n)%nat → (j < n)%nat → gate_cell r i j = gate_cell g (n - 1 - i) (n - 1 - j).
Proof.
  intros Hg. destruct (reverse_rows_spec g Hg) as [Hr Hrc].
  destruct (reverse_columns_spec _ Hr) as [Hc Hcc]. eexists. split; [done|]. split; [done|].
  intros i j Hi Hj. by rewrite Hcc, Hrc by lia.
Qed.

Lemma rotate_270_spec g :
  gate_shape n n g →
  ∃ r, rotate_270 n n g = Some r ∧ gate_shape n n r ∧
       ∀ i j, (i < n)%nat → (j < n)%nat → gate_cell r i j = gate_cell g j (n - 1 - i).
Proof.
  intros Hg. destruct (reverse_columns_spec g Hg) as [Hc Hcc].
  destruct (transpose_spec _ Hc) as (t & E & Ht & Htc). exists t. split_and!; [done|done|].
  intros i j Hi Hj. rewrite Htc, Hcc by lia. done.
Qed.
End LibraryLemmas.

(** * Properties *)

(** On square gates the rotations never leave the arrays and move every cell as their names say:
    the cell in row [i] and column [j] of the gate rotated by 90 degrees clockwise is that in row
    [n - 1 - j] and column [i], and so on; two rotations by 90 degrees are one by 180 degrees,
    three are one by 270 degrees and four are the identity. *)
Theorem rotations_of_square_gates `{Technology} (n : nat) (g : fcn_gate) :
  gate_shape n n g →
  ∃ r90 r180 r270,
    rotate_90 n n g = Some r90 ∧ rotate_180 g = Some r180 ∧ rotate_270 n n g = Some r270 ∧
    rotate_90 n n r90 = Some r180 ∧ rotate_90 n n r180 = Some r270 ∧ rotate_90 n n r270 = Some g ∧
    ∀ i j, (i < n)%nat → (j < n)%nat →
      gate_cell r90 i j = gate_cell g (n - 1 - j) i ∧
      gate_cell r180 i j = gate_cell g (n - 1 - i) (n - 1 - j) ∧
      gate_cell r270 i j = gate_cell g j (n - 1 - i).
Proof.
  intros Hg. destruct (rotate_90_spec n g Hg) as (r1 & E1 & H1 & C1).
  destruct (rotate_180_spec n g Hg) as (r2 & E2 & H2 & C2).
  destruct (rotate_270_spec n g Hg) as (r3 & E3 & H3 & C3).
  exists r1, r2, r3.
  destruct (rotate_90_spec n r1 H1) as (s2 & F2 & G2 & D2).
  destruct (rotate_90_spec n r2 H2) as (s3 & F3 & G3 & D3).
  destruct (rotate_90_spec n r3 H3) as (s4 & F4 & G4 & D4).
  assert (s2 = r2) as ->.
  { apply (gate_ext n n); [done..|]. intros i j Hi Hj. rewrite D2, C1, C2 by lia. done. }
  assert (s3 = r3) as ->.
  { apply (gate_ext n n); [done..|]. intros i j Hi Hj. rewrite D3, C2, C3 by lia. f_equal; lia. }
  assert (s4 = g) as ->.
  { apply (gate_ext n n); [done..|]. intros i j Hi Hj. rewrite D4, C3 by lia. f_equal; lia. }
  split_and!; try done. intros i j Hi Hj. rewrite C1, C2, C3 by done. done.
Qed.

Lemma rotations_of_square_gates_witness :
  let g := [[1; 2]; [3; 4]] in
  ∃ r90 r180 r270,
    rotate_90 (H := Qca.qca_technology) 2 2 g = Some r90 ∧ rotate_180 g = Some r180 ∧
    rotate_270 (H := Qca.qca_technology) 2 2 g = Some r270 ∧
    rotate_90 (H := Qca.qca_technology) 2 2 r90 = Some r180 ∧
    rotate_90 (H := Qca.qca_technology) 2 2 r180 = Some r270 ∧
    rotate_90 (H := Qca.qca_technology) 2 2 r270 = Some g ∧
    ∀ i j, (i < 2)%nat → (j < 2)%nat →
      gate_cell r90 i j = gate_cell g (2 - 1 - j) i ∧
      gate_cell r180 i j = gate_cell g (2 - 1 - i) (2 - 1 - j) ∧
      gate_cell r270 i j = gate_cell g j (2 - 1 - i).
Proof. apply (rotations_of_square_gates 2). split; [done|repeat constructor]. Defined.
