(* ===== verification/GatePaths.v ===== *)
(** * Signal paths through gates

    Paths of adjacent cells in a gate of any technology, decided by flooding, and the positions of
    ports. The theorems on the gate libraries say in these terms what their gates connect. *)

From S2P Require Import Prelude.
From S2P Require Import CellTechnology.
From S2P Require Import CellPorts.
From S2P Require Import FcnGateLibrary.
#[local] Open Scope Z_scope.

(** The place of a cell in a gate: its row and its column. *)
Abbreviation spot := (nat * nat)%type.

Definition spot_of (p : port_position) : spot := (Z.to_nat (port_y p), Z.to_nat (port_x p)).

Section Paths.
Context `{Technology} (sx sy : nat).

Definition occupied (g : fcn_gate) (a : spot) : bool :=
  match gate_cell g a.1 a.2 with Some v => negb (tech_is_empty_cell v) | None => false end.

Definition gap (m n : nat) : nat := (m - n) + (n - m).

(** Two cells side by side, or corner to corner. *)
Definition touching (g : fcn_gate) (a b : spot) : bool :=
  occupied g a && occupied g b && bool_decide (gap a.1 b.1 + gap a.2 b.2 = 1)%nat.
Definition diagonal (g : fcn_gate) (a b : spot) : bool :=
  occupied g a && occupied g b && bool_decide (gap a.1 b.1 = 1 ∧ gap a.2 b.2 = 1)%nat.

(** A path of adjacent cells. *)
Definition wired (g : fcn_gate) : spot → spot → Prop := rtc (λ a b, touching g a b = true).

(** The cells of the two places are on different paths that touch diagonally. *)
Definition inverts (g : fcn_gate) (a b : spot) : Prop :=
  ¬ wired g a b ∧ ∃ a' b', wired g a a' ∧ wired g b' b ∧ diagonal g a' b' = true.

(** *** Deciding paths by flooding *)

Definition flood_step (g : fcn_gate) (s : list spot) : list spot :=
  s ++ List.filter (λ b, negb (bool_decide (b ∈ s)) && existsb (λ a, touching g a b) s)
         (loop_indices sy sx).

Fixpoint flood (k : nat) (g : fcn_gate) (s : list spot) : list spot :=
  match k with
  | O => s
  | S k' => flood k' g (flood_step g s)
  end.

(** No cell outside of [s] touches one in [s]. *)
Definition closed (g : fcn_gate) (s : list spot) : bool :=
  forallb (λ b, bool_decide (b ∈ s) || negb (existsb (λ a, touching g a b) s)) (loop_indices sy sx).

Definition region (g : fcn_gate) (a : spot) : list spot := flood (sx + sy) g [a].

Lemma flood_sound k g s b : b ∈ flood k g s → ∃ a, a ∈ s ∧ wired g a b.
Proof.
  revert s. induction k as [|k IH]; intros s; simpl.
  { intros Hb. exists b. split; [done|apply rtc_refl]. }
  intros (a & Ha & Hw)%IH. unfold flood_step in Ha. apply elem_of_app in Ha as [Ha|Ha].
  { by exists a. }
  apply list_elem_of_In, filter_In in Ha as [_ Ha].
  apply andb_true_iff in Ha as [_ (a' & Ha' & Ht)%existsb_exists].
  apply list_elem_of_In in Ha'. exists a'. split; [done|]. by eapply rtc_l.
Qed.

Lemma flood_extends k g s a : a ∈ s → a ∈ flood k g s.
Proof.
  revert s. induction k as [|k IH]; intros s Ha; [done|]. simpl. apply IH.
  unfold flood_step. apply elem_of_app. by left.
Qed.

Lemma region_wired g a b : b ∈ region g a → wired g a b.
Proof. intros (a' & ->%list_elem_of_singleton & Hw)%flood_sound. done. Qed.

Lemma closed_wired g s a b :
  gate_shape sx sy g → closed g s = true → wired g a b → a ∈ s → b ∈ s.
Proof.
  intros Hg Hc Hw. induction Hw as [a|a b c Ht _ IH]; [done|]. intros Ha. apply IH.
  unfold closed in Hc. rewrite forallb_forall in Hc.
  assert (b ∈ loop_indices sy sx) as Hb.
  { unfold touching in Ht. apply andb_true_iff in Ht as [[_ Hob]%andb_true_iff _].
    unfold occupied in Hob. destruct (gate_cell g b.1 b.2) eqn:E; [|done].
    destruct b as [i j]. apply elem_of_loop_indices. simpl in E.
    destruct (proj1 (gate_cell_shape sx sy g i j Hg)) as [Hi Hj]; [by eexists|]. done. }
  specialize (Hc b (proj1 (list_elem_of_In _ _) Hb)).
  apply orb_true_iff in Hc as [Hc|Hc]; [by apply bool_decide_eq_true in Hc|].
  apply negb_true_iff in Hc. exfalso. eapply not_true_iff_false; [exact Hc|].
  apply existsb_exists. exists a. split; [by apply list_elem_of_In|done].
Qed.

Definition inverts_b (g : fcn_gate) (a b : spot) : bool :=
  closed g (region g a) && negb (bool_decide (b ∈ region g a)) &&
  existsb (λ a', existsb (λ b', bool_decide (b ∈ region g b') && diagonal g a' b')
                   (loop_indices sy sx)) (region g a).

Lemma inverts_b_sound g a b : gate_shape sx sy g → inverts_b g a b = true → inverts g a b.
Proof.
  intros Hg. unfold inverts_b. rewrite !andb_true_iff, negb_true_iff, bool_decide_eq_false.
  intros [[Hc Hb] (a' & Ha' & (b' & _ & Hd)%existsb_exists)%existsb_exists].
  apply andb_true_iff in Hd as [Hb'%bool_decide_eq_true Hd].
  split.
  - intros Hw. apply Hb. eapply closed_wired; [done|done|done|].
    apply flood_extends. by left.
  - exists a', b'. split_and!; [|by apply region_wired|done].
    apply region_wired. by apply list_elem_of_In.
Qed.

(** *** Ports *)

(** All ports are on one path. *)
Definition ports_wired (p : port_list port_position) (g : fcn_gate) : Prop :=
  ∀ q r, q ∈ port_inp p ++ port_out p → r ∈ port_inp p ++ port_out p →
         wired g (spot_of q) (spot_of r).
Definition wired_b (p : port_list port_position) (g : fcn_gate) : bool :=
  forallb (λ q, forallb (λ r, bool_decide (spot_of r ∈ region g (spot_of q)))
                  (port_inp p ++ port_out p)) (port_inp p ++ port_out p).

Lemma wired_sound p g : wired_b p g = true → ports_wired p g.
Proof.
  intros Hb q r Hq%list_elem_of_In Hr%list_elem_of_In. unfold wired_b in Hb.
  rewrite forallb_forall in Hb. apply Hb in Hq. rewrite forallb_forall in Hq.
  by apply Hq, bool_decide_eq_true, region_wired in Hr.
Qed.

Definition shape_b (g : fcn_gate) : bool :=
  bool_decide (length g = sy) && forallb (λ row, bool_decide (length row = sx)) g.

Lemma shape_sound g : shape_b g = true → gate_shape sx sy g.
Proof.
  unfold shape_b. rewrite andb_true_iff, bool_decide_eq_true. intros [Hy Hx]. split; [done|].
  apply Forall_forall. intros row Hr. rewrite forallb_forall in Hx.
  apply list_elem_of_In in Hr. by apply Hx, bool_decide_eq_true in Hr.
Qed.
End Paths.

(** ** Ports without marks *)

(** Ports without the marks of primary inputs and outputs. *)
Definition plain (p : port_list port_position) : bool :=
  forallb (λ q, negb (port_pi q) && negb (port_po q)) (port_inp p ++ port_out p).

Lemma set_eqb_plain s t :
  forallb (λ q, negb (port_pi q) && negb (port_po q)) s = true →
  forallb (λ q, negb (port_pi q) && negb (port_po q)) t = true →
  set_eqb position_eqb s t = true → s = t.
Proof.
  revert t. induction s as [|[x y i o] s IH]; intros [|[x' y' i' o'] t]; simpl; try done.
  rewrite !andb_true_iff, !negb_true_iff. intros [[-> ->] Hs] [[-> ->] Ht] [He Hst].
  unfold position_eqb in He. simpl in He. rewrite andb_true_iff, !Z.eqb_eq in He.
  destruct He as [-> ->]. f_equal. by apply IH.
Qed.

Lemma gate_at_plain m p g :
  plain p = true → forallb (λ e, plain e.1) m = true →
  map_at (port_list_eqb position_eqb) m p = Some g → (p, g) ∈ m.
Proof.
  intros Hp. induction m as [|[q h] m IH]; simpl; [done|].
  rewrite andb_true_iff. intros [Hq Hm]. destruct (port_list_eqb _ q p) eqn:E.
  - intros [= ->]. assert (q = p) as ->; [|by left].
    unfold port_list_eqb in E. apply andb_true_iff in E as [Ei Eo].
    unfold plain in *. rewrite forallb_app, andb_true_iff in Hp, Hq.
    destruct p as [i o], q as [i' o'], Hp, Hq. simpl in *. f_equal; by apply set_eqb_plain.
  - intros Hg. right. by apply IH.
Qed.

(** What holds of every entry of a table holds of the gate that is looked up. *)
Lemma gate_at_check `{Technology} sx sy (check : port_list port_position → fcn_gate → bool) m p g :
  forallb (λ e, plain e.1 && shape_b sx sy e.2 && check e.1 e.2) m = true →
  plain p = true → map_at (port_list_eqb position_eqb) m p = Some g →
  gate_shape sx sy g ∧ check p g = true.
Proof.
  intros Hm Hp Hg. rewrite forallb_forall in Hm.
  assert ((p, g) ∈ m) as Hin.
  { apply gate_at_plain; [done| |done]. apply forallb_forall. intros e He%Hm.
    by apply andb_true_iff in He as [[He _]%andb_true_iff _]. }
  apply list_elem_of_In, Hm in Hin. rewrite !andb_true_iff in Hin.
  destruct Hin as [[_ Hs] Hc]. split; [by apply shape_sound|exact Hc].
Qed.
