(* ===== verification/QcaOneLibrary.v ===== *)
(** * The QCA ONE library (include/fiction/technology/qca_one_library.hpp)

    The gates of 5 x 5 cells, the lookup tables from ports to rotated gates, [set_up_gate], which
    selects the gate for a tile of a gate-level layout, and [post_layout_optimization], which sets
    up the vias of wire crossings. *)

From S2P Require Import Prelude.
From S2P Require Import Coordinates.
From S2P Require Import CoordinateLayout.
From S2P Require Import CartesianLayout.
From S2P Require Import ClockingScheme.
From S2P Require Import ClockedLayout.
From S2P Require Import GateLevelLayout.
From S2P Require Import GateLevelInvariant.
From S2P Require Import MockturtleModel.
From S2P Require Import CellTechnology.
From S2P Require Import CellLevelLayout.
From S2P Require Import CellPorts.
From S2P Require Import FcnGateLibrary.
#[local] Open Scope Z_scope.
Import Offset.

#[local] Existing Instance Qca.qca_technology.

Module QcaOne.

(** ** Gates *)

(** The rotations of constant gates, which are evaluated at compile time. *)
Definition rotated_90 (g : fcn_gate) : fcn_gate := default [] (rotate_90 5 5 g).
Definition rotated_180 (g : fcn_gate) : fcn_gate := default [] (rotate_180 g).
Definition rotated_270 (g : fcn_gate) : fcn_gate := default [] (rotate_270 5 5 g).

Definition STRAIGHT_INVERTER : fcn_gate :=
  gate_rows ["  x  "; " xxx "; " x x "; "  x  "; "  x  "].

Definition BENT_INVERTER : fcn_gate :=
  gate_rows ["  x  "; "  x  "; "   xx"; "     "; "     "].

Definition CONJUNCTION : fcn_gate :=
  gate_rows ["  0  "; "  x  "; "xxxxx"; "  x  "; "  x  "].

Definition DISJUNCTION : fcn_gate :=
  gate_rows ["  1  "; "  x  "; "xxxxx"; "  x  "; "  x  "].

Definition MAJORITY : fcn_gate :=
  gate_rows ["  x  "; "  x  "; "xxxxx"; "  x  "; "  x  "].

Definition FAN_OUT_1_2 : fcn_gate :=
  gate_rows ["     "; "     "; "xxxxx"; "  x  "; "  x  "].

Definition FAN_OUT_1_3 : fcn_gate :=
  gate_rows ["  x  "; "  x  "; "xxxxx"; "  x  "; "  x  "].

Definition PRIMARY_INPUT_PORT : fcn_gate :=
  gate_rows ["  x  "; "  x  "; "  i  "; "     "; "     "].

Definition PRIMARY_OUTPUT_PORT : fcn_gate :=
  gate_rows ["  x  "; "  x  "; "  o  "; "     "; "     "].

Definition CENTER_WIRE : fcn_gate :=
  gate_rows ["  x  "; "  x  "; "  x  "; "  x  "; "  x  "].

Definition INNER_SIDE_WIRE : fcn_gate :=
  gate_rows ["   x "; "   x "; "   x "; "   x "; "   x "].

Definition OUTER_SIDE_WIRE : fcn_gate :=
  gate_rows ["    x"; "    x"; "    x"; "    x"; "    x"].

Definition CENTER_BENT_WIRE : fcn_gate :=
  gate_rows ["  x  "; "  x  "; "  xxx"; "     "; "     "].

Definition INNER_CENTER_TO_INNER_CENTER_BENT_WIRE : fcn_gate :=
  gate_rows ["   x "; "   xx"; "     "; "     "; "     "].

Definition INNER_CENTER_TO_CENTER_BENT_WIRE : fcn_gate :=
  gate_rows ["   x "; "   x "; "   xx"; "     "; "     "].

Definition INNER_CENTER_TO_OUTER_CENTER_BENT_WIRE : fcn_gate :=
  gate_rows ["   x "; "   x "; "   x "; "   xx"; "     "].

Definition INNER_CENTER_TO_OUTER_SIDE_BENT_WIRE : fcn_gate :=
  gate_rows ["   x "; "   x "; "   x "; "   x "; "   xx"].

Definition CENTER_TO_INNER_CENTER_BENT_WIRE : fcn_gate :=
  gate_rows ["  x  "; "  xxx"; "     "; "     "; "     "].

Definition OUTER_CENTER_TO_CENTER_BENT_WIRE : fcn_gate :=
  gate_rows [" x   "; " x   "; " xxxx"; "     "; "     "].

Definition OUTER_CENTER_TO_OUTER_CENTER_BENT_WIRE : fcn_gate :=
  gate_rows [" x   "; " x   "; " x   "; " xxxx"; "     "].

Definition OUTER_SIDE_TO_OUTER_SIDE_BENT_WIRE : fcn_gate :=
  gate_rows ["x    "; "x    "; "x    "; "x    "; "xxxxx"].

(** ** Lookup tables *)

(** A port list from the initializer lists of its sets. *)
Definition ports (inp out : list port_position) : port_list port_position :=
  PortList (set_of_list position_ltb inp) (set_of_list position_ltb out).

Definition port_gate_map : Type := list (port_list port_position * fcn_gate).

(** [at(p)]. *)
Definition gate_at : port_gate_map → port_list port_position → option fcn_gate :=
  map_at (port_list_eqb position_eqb).

Definition WIRE_MAP : port_gate_map :=
  [(ports [] [port_at 2 0], PRIMARY_INPUT_PORT);
   (ports [] [port_at 4 2], rotated_90 PRIMARY_INPUT_PORT);
   (ports [] [port_at 2 4], rotated_180 PRIMARY_INPUT_PORT);
   (ports [] [port_at 0 2], rotated_270 PRIMARY_INPUT_PORT);
   (ports [port_at 2 0] [], PRIMARY_OUTPUT_PORT);
   (ports [port_at 4 2] [], rotated_90 PRIMARY_OUTPUT_PORT);
   (ports [port_at 2 4] [], rotated_180 PRIMARY_OUTPUT_PORT);
   (ports [port_at 0 2] [], rotated_270 PRIMARY_OUTPUT_PORT);
   (ports [port_at 2 0] [port_at 2 4], CENTER_WIRE);
   (ports [port_at 2 4] [port_at 2 0], CENTER_WIRE);
   (ports [port_at 0 2] [port_at 4 2], rotated_90 CENTER_WIRE);
   (ports [port_at 4 2] [port_at 0 2], rotated_90 CENTER_WIRE);
   (ports [port_at 3 0] [port_at 3 4], INNER_SIDE_WIRE);
   (ports [port_at 3 4] [port_at 3 0], INNER_SIDE_WIRE);
   (ports [port_at 0 3] [port_at 4 3], rotated_90 INNER_SIDE_WIRE);
   (ports [port_at 4 3] [port_at 0 3], rotated_90 INNER_SIDE_WIRE);
   (ports [port_at 1 0] [port_at 1 4], rotated_180 INNER_SIDE_WIRE);
   (ports [port_at 1 4] [port_at 1 0], rotated_180 INNER_SIDE_WIRE);
   (ports [port_at 0 1] [port_at 4 1], rotated_270 INNER_SIDE_WIRE);
   (ports [port_at 4 1] [port_at 0 1], rotated_270 INNER_SIDE_WIRE);
   (ports [port_at 4 0] [port_at 4 4], OUTER_SIDE_WIRE);
   (ports [port_at 4 4] [port_at 4 0], OUTER_SIDE_WIRE);
   (ports [port_at 0 4] [port_at 4 4], rotated_90 OUTER_SIDE_WIRE);
   (ports [port_at 4 4] [port_at 0 4], rotated_90 OUTER_SIDE_WIRE);
   (ports [port_at 0 0] [port_at 0 4], rotated_180 OUTER_SIDE_WIRE);
   (ports [port_at 0 4] [port_at 0 0], rotated_180 OUTER_SIDE_WIRE);
   (ports [port_at 0 0] [port_at 4 0], rotated_270 OUTER_SIDE_WIRE);
   (ports [port_at 4 0] [port_at 0 0], rotated_270 OUTER_SIDE_WIRE);
   (ports [port_at 2 0] [port_at 4 2], CENTER_BENT_WIRE);
   (ports [port_at 4 2] [port_at 2 0], CENTER_BENT_WIRE);
   (ports [port_at 4 2] [port_at 2 4], rotated_90 CENTER_BENT_WIRE);
   (ports [port_at 2 4] [port_at 4 2], rotated_90 CENTER_BENT_WIRE);
   (ports [port_at 0 2] [port_at 2 4], rotated_180 CENTER_BENT_WIRE);
   (ports [port_at 2 4] [port_at 0 2], rotated_180 CENTER_BENT_WIRE);
   (ports [port_at 2 0] [port_at 0 2], rotated_270 CENTER_BENT_WIRE);
   (ports [port_at 0 2] [port_at 2 0], rotated_270 CENTER_BENT_WIRE)].

Definition INVERTER_MAP : port_gate_map :=
  [(ports [port_at 2 0] [port_at 2 4], STRAIGHT_INVERTER);
   (ports [port_at 4 2] [port_at 0 2], rotated_90 STRAIGHT_INVERTER);
   (ports [port_at 2 4] [port_at 2 0], rotated_180 STRAIGHT_INVERTER);
   (ports [port_at 0 2] [port_at 4 2], rotated_270 STRAIGHT_INVERTER);
   (ports [port_at 2 0] [], STRAIGHT_INVERTER);
   (ports [port_at 4 2] [], rotated_90 STRAIGHT_INVERTER);
   (ports [port_at 2 4] [], rotated_180 STRAIGHT_INVERTER);
   (ports [port_at 0 2] [], rotated_270 STRAIGHT_INVERTER);
   (ports [] [port_at 2 4], STRAIGHT_INVERTER);
   (ports [] [port_at 0 2], rotated_90 STRAIGHT_INVERTER);
   (ports [] [port_at 2 0], rotated_180 STRAIGHT_INVERTER);
   (ports [] [port_at 4 2], rotated_270 STRAIGHT_INVERTER);
   (ports [port_at 2 0] [port_at 4 2], BENT_INVERTER);
   (ports [port_at 4 2] [port_at 2 0], BENT_INVERTER);
   (ports [port_at 4 2] [port_at 2 4], rotated_90 BENT_INVERTER);
   (ports [port_at 2 4] [port_at 4 2], rotated_90 BENT_INVERTER);
   (ports [port_at 0 2] [port_at 2 4], rotated_180 BENT_INVERTER);
   (ports [port_at 2 4] [port_at 0 2], rotated_180 BENT_INVERTER);
   (ports [port_at 2 0] [port_at 0 2], rotated_270 BENT_INVERTER);
   (ports [port_at 0 2] [port_at 2 0], rotated_270 BENT_INVERTER)].

Definition CONJUNCTION_MAP : port_gate_map :=
  [(ports [port_at 0 2; port_at 2 4] [port_at 4 2], CONJUNCTION);
   (ports [port_at 0 2; port_at 4 2] [port_at 2 4], CONJUNCTION);
   (ports [port_at 2 4; port_at 4 2] [port_at 0 2], CONJUNCTION);
   (ports [port_at 0 2; port_at 2 4] [port_at 2 0], rotated_90 CONJUNCTION);
   (ports [port_at 0 2; port_at 2 0] [port_at 2 4], rotated_90 CONJUNCTION);
   (ports [port_at 2 4; port_at 2 0] [port_at 0 2], rotated_90 CONJUNCTION);
   (ports [port_at 0 2; port_at 4 2] [port_at 2 0], rotated_180 CONJUNCTION);
   (ports [port_at 0 2; port_at 2 0] [port_at 4 2], rotated_180 CONJUNCTION);
   (ports [port_at 4 2; port_at 2 0] [port_at 0 2], rotated_180 CONJUNCTION);
   (ports [port_at 2 4; port_at 4 2] [port_at 2 0], rotated_270 CONJUNCTION);
   (ports [port_at 2 4; port_at 2 0] [port_at 4 2], rotated_270 CONJUNCTION);
   (ports [port_at 4 2; port_at 2 0] [port_at 2 4], rotated_270 CONJUNCTION)].

Definition DISJUNCTION_MAP : port_gate_map :=
  [(ports [port_at 0 2; port_at 2 4] [port_at 4 2], DISJUNCTION);
   (ports [port_at 0 2; port_at 4 2] [port_at 2 4], DISJUNCTION);
   (ports [port_at 2 4; port_at 4 2] [port_at 0 2], DISJUNCTION);
   (ports [port_at 0 2; port_at 2 4] [port_at 2 0], rotated_90 DISJUNCTION);
   (ports [port_at 0 2; port_at 2 0] [port_at 2 4], rotated_90 DISJUNCTION);
   (ports [port_at 2 4; port_at 2 0] [port_at 0 2], rotated_90 DISJUNCTION);
   (ports [port_at 0 2; port_at 4 2] [port_at 2 0], rotated_180 DISJUNCTION);
   (ports [port_at 0 2; port_at 2 0] [port_at 4 2], rotated_180 DISJUNCTION);
   (ports [port_at 4 2; port_at 2 0] [port_at 0 2], rotated_180 DISJUNCTION);
   (ports [port_at 2 4; port_at 4 2] [port_at 2 0], rotated_270 DISJUNCTION);
   (ports [port_at 2 4; port_at 2 0] [port_at 4 2], rotated_270 DISJUNCTION);
   (ports [port_at 4 2; port_at 2 0] [port_at 2 4], rotated_270 DISJUNCTION)].

Definition FANOUT_MAP : port_gate_map :=
  [(ports [port_at 4 2] [port_at 0 2; port_at 2 4], FAN_OUT_1_2);
   (ports [port_at 2 4] [port_at 0 2; port_at 4 2], FAN_OUT_1_2);
   (ports [port_at 0 2] [port_at 2 4; port_at 4 2], FAN_OUT_1_2);
   (ports [port_at 2 0] [port_at 0 2; port_at 2 4], rotated_90 FAN_OUT_1_2);
   (ports [port_at 2 4] [port_at 0 2; port_at 2 0], rotated_90 FAN_OUT_1_2);
   (ports [port_at 0 2] [port_at 2 4; port_at 2 0], rotated_90 FAN_OUT_1_2);
   (ports [port_at 2 0] [port_at 0 2; port_at 4 2], rotated_180 FAN_OUT_1_2);
   (ports [port_at 4 2] [port_at 0 2; port_at 2 0], rotated_180 FAN_OUT_1_2);
   (ports [port_at 0 2] [port_at 4 2; port_at 2 0], rotated_180 FAN_OUT_1_2);
   (ports [port_at 2 0] [port_at 2 4; port_at 4 2], rotated_270 FAN_OUT_1_2);
   (ports [port_at 4 2] [port_at 2 4; port_at 2 0], rotated_270 FAN_OUT_1_2);
   (ports [port_at 2 4] [port_at 4 2; port_at 2 0], rotated_270 FAN_OUT_1_2)].

(** ** Gate selection *)

Section SetUp.
Context `{GateLevel.Mockturtle} {L : Type} `{CoordinateLayout L}.
Import GateLevel.

(** [if (b) s.emplace(x, y);] *)
Definition emplace_if (b : bool) (x y : Z) (s : list port_position) : list port_position :=
  if b then set_insert position_ltb (port_at x y) s else s.

Definition determine_port_routing (l : gate_level_layout L) (t : ucoord_t) :
    option (port_list port_position) :=
  n_in ← has_northern_incoming_signal l t;
  e_in ← has_eastern_incoming_signal l t;
  s_in ← has_southern_incoming_signal l t;
  w_in ← has_western_incoming_signal l t;
  let inp := emplace_if w_in 0 2 (emplace_if s_in 2 4 (emplace_if e_in 4 2
               (emplace_if n_in 2 0 []))) in
  n_out ← has_northern_outgoing_signal l t;
  e_out ← has_eastern_outgoing_signal l t;
  s_out ← has_southern_outgoing_signal l t;
  w_out ← has_western_outgoing_signal l t;
  let out := emplace_if w_out 0 2 (emplace_if s_out 2 4 (emplace_if e_out 4 2
               (emplace_if n_out 2 0 []))) in
  let n := get_node_at (strg l) t in
  wire ← is_wire (strg l) n;
  inv ← is_inv (strg l) n;
  if negb wire && negb inv then
    no_in ← has_no_incoming_signal l t;
    no_out ← has_no_outgoing_signal l t;
    Some (PortList (emplace_if no_in 0 2 inp) (emplace_if no_out 4 2 out))
  else Some (PortList inp out).

Definition set_up_gate (l : gate_level_layout L) (t : ucoord_t) : option (gate_result port_position) :=
  let s := strg l in
  let n := get_node_at s t in
  p ← determine_port_routing l t;
  let lookup := λ m, Some (lookup_result t p (gate_at m p)) in
  fanout ← is_fanout l n;
  k ← (if (fanout : bool) then fanout_size l n else Some 0);
  if (fanout && (k =? 2))%bool then lookup FANOUT_MAP
  else if (fanout && (k =? 3))%bool then Some (Gate FAN_OUT_1_3)
  else
    buf ← is_buf s n;
    if (buf : bool) then lookup WIRE_MAP
    else
      inv ← is_inv s n;
      if (inv : bool) then lookup INVERTER_MAP
      else
        conj ← is_and s n;
        if (conj : bool) then lookup CONJUNCTION_MAP
        else
          disj ← is_or s n;
          if (disj : bool) then lookup DISJUNCTION_MAP
          else
            maj ← is_maj s n;
            if (maj : bool) then Some (Gate MAJORITY) else Some (UnsupportedType t).
End SetUp.

(** ** Post-layout optimization *)

Section PostLayout.
Import CellLevel.
Context (cl : Clocked.clocked_layout Cartesian.cartesian_layout).

(** The functor that is applied to every cell position. *)
Definition set_up_via (s : cell_level_layout_storage) (c : ucoord_t) : cell_level_layout_storage :=
  if Cartesian.is_crossing_layer (Clocked.coordinate_layout cl) c && negb (is_empty_cell s c) then
    let adjacent_cells :=
      List.filter (λ ac, negb (is_empty_cell s ac))
        (adjacent_coordinates (Clocked.coordinate_layout cl) c) in
    if (length adjacent_cells <=? 1)%nat then
      let s := assign_cell_mode s c Qca.MODE_VERTICAL in
      let ground_via_cell := ucoord3 (ux c) (uy c) 0 in
      let s := assign_cell_type s ground_via_cell Qca.NORMAL in
      assign_cell_mode s ground_via_cell Qca.MODE_VERTICAL
    else s
  else s.

(** [foreach_cell_position] visits all coordinates of the layout, for at most [fuel] steps. *)
Definition post_layout_optimization (fuel : nat) (s : cell_level_layout_storage) :
    option cell_level_layout_storage :=
  let '(b, e) := Cartesian.coordinates (Clocked.coordinate_layout cl) ucoord_default ucoord_default in
  cs ← iter_range fuel b e;
  Some (foldl set_up_via s cs).
End PostLayout.

End QcaOne.
Import QcaOne.
