(* ===== verification/QcaOneProperties.v ===== *)
(** * The gates of the QCA ONE library

    What [set_up_gate] promises about the gate it selects for a tile, in terms of the signal paths of
    the gate's cells: the ports are cells, the ports of a wire or a logic gate are joined by a path of
    adjacent cells, and those of an inverter only touch diagonally, where a QCA signal is inverted.
    Then which port configurations the lookup tables cover, and the effect of
    [post_layout_optimization]. *)

From S2P Require Import Prelude.
From S2P Require Import Coordinates.
From S2P Require Import CoordinateLayout.
From S2P Require Import CartesianLayout.
From S2P Require Import ClockingScheme.
From S2P Require Import ClockedLayout.
From S2P Require Import GateLevelLayout.
From S2P Require Import GateLevelInvariant.
From S2P Require Import MockturtleModel.
From S2P Require Import CellTechnology.
From S2P Require Import CellLevelLayout.
From S2P Require Import CellPorts.
From S2P Require Import FcnGateLibrary.
From S2P Require Import GatePaths.
From S2P Require Import QcaOneLibrary.
#[local] Open Scope Z_scope.
Import Offset.
Import QcaOne.

#[local] Existing Instance Qca.qca_technology.

(** ** What the gate of a tile promises *)

(** The middles of the four sides of a tile. *)
Definition side_ports : list port_position := [port_at 2 0; port_at 4 2; port_at 2 4; port_at 0 2].

(** The ports are normal cells. *)
Definition ports_present (p : port_list port_position) (g : fcn_gate) : Prop :=
  ∀ q, q ∈ port_inp p ++ port_out p → gate_cell g (spot_of q).1 (spot_of q).2 = Some Qca.NORMAL.
(** Every input is inverted towards every output. *)
Definition ports_inverted (p : port_list port_position) (g : fcn_gate) : Prop :=
  ∀ q r, q ∈ port_inp p → r ∈ port_out p → inverts g (spot_of q) (spot_of r).
(** The sides without a port are fixed to a constant, which is on the path of the ports. *)
Definition fixed_sides (const : Z) (p : port_list port_position) (g : fcn_gate) : Prop :=
  ∀ m, m ∈ side_ports → m ∉ port_inp p ++ port_out p →
       gate_cell g (spot_of m).1 (spot_of m).2 = Some const ∧ wired g (spot_of m) (2%nat, 2%nat).

(** *** Deciding the promises *)

Section Deciding.
Context (p : port_list port_position) (g : fcn_gate).

Definition present_b : bool :=
  forallb (λ q, bool_decide (gate_cell g (spot_of q).1 (spot_of q).2 = Some Qca.NORMAL))
    (port_inp p ++ port_out p).
Definition inverted_b : bool :=
  forallb (λ q, forallb (λ r, inverts_b 5 5 g (spot_of q) (spot_of r)) (port_out p)) (port_inp p).
Definition fixed_b (const : Z) : bool :=
  forallb (λ m, bool_decide (m ∈ port_inp p ++ port_out p)
                || bool_decide (gate_cell g (spot_of m).1 (spot_of m).2 = Some const)
                   && bool_decide ((2%nat, 2%nat) ∈ region 5 5 g (spot_of m))) side_ports.

Lemma present_sound : present_b = true → ports_present p g.
Proof.
  intros Hb q Hq%list_elem_of_In. unfold present_b in Hb. rewrite forallb_forall in Hb.
  by apply Hb, bool_decide_eq_true in Hq.
Qed.

Lemma inverted_sound : gate_shape 5 5 g → inverted_b = true → ports_inverted p g.
Proof.
  intros Hg Hb q r Hq%list_elem_of_In Hr%list_elem_of_In. unfold inverted_b in Hb.
  rewrite forallb_forall in Hb. apply Hb in Hq. rewrite forallb_forall in Hq.
  by apply Hq, inverts_b_sound in Hr.
Qed.

Lemma fixed_sound const : fixed_b const = true → fixed_sides const p g.
Proof.
  intros Hb m Hm%list_elem_of_In Hn. unfold fixed_b in Hb. rewrite forallb_forall in Hb.
  apply Hb, orb_true_iff in Hm as [Hm|Hm]; [by apply bool_decide_eq_true in Hm|].
  apply andb_true_iff in Hm as [Hm%bool_decide_eq_true Hw%bool_decide_eq_true].
  split; [done|by eapply region_wired].
Qed.
End Deciding.

(** ** Lookups *)

Lemma wire_entries :
  forallb (λ e, plain e.1 && shape_b 5 5 e.2 && (present_b e.1 e.2 && wired_b 5 5 e.1 e.2)) WIRE_MAP = true.
Proof. by vm_compute. Qed.

Lemma inverter_entries :
  forallb (λ e, plain e.1 && shape_b 5 5 e.2 && (present_b e.1 e.2 && inverted_b e.1 e.2))
    INVERTER_MAP = true.
Proof. by vm_compute. Qed.

Lemma conjunction_entries :
  forallb (λ e, plain e.1 && shape_b 5 5 e.2 &&
                (present_b e.1 e.2 && wired_b 5 5 e.1 e.2 && fixed_b e.1 e.2 Qca.CONST_0))
    CONJUNCTION_MAP = true.
Proof. by vm_compute. Qed.

Lemma disjunction_entries :
  forallb (λ e, plain e.1 && shape_b 5 5 e.2 &&
                (present_b e.1 e.2 && wired_b 5 5 e.1 e.2 && fixed_b e.1 e.2 Qca.CONST_1))
    DISJUNCTION_MAP = true.
Proof. by vm_compute. Qed.

Lemma fanout_entries :
  forallb (λ e, plain e.1 && shape_b 5 5 e.2 && (present_b e.1 e.2 && wired_b 5 5 e.1 e.2)) FANOUT_MAP = true.
Proof. by vm_compute. Qed.

(** The ports that the routing of a tile can have. *)
Definition on_sides (p : port_list port_position) : bool :=
  forallb (λ q, bool_decide (q ∈ side_ports)) (port_inp p ++ port_out p).

Lemma on_sides_plain p : on_sides p = true → plain p = true.
Proof.
  unfold on_sides, plain. rewrite !forallb_forall. intros Hp q Hq%Hp%bool_decide_eq_true.
  unfold side_ports in Hq. rewrite !elem_of_cons, elem_of_nil in Hq. naive_solver.
Qed.

(** The gates with a cell at each side suit all ports. *)
Lemma cross_entries g p :
  g = FAN_OUT_1_3 ∨ g = MAJORITY → on_sides p = true →
  gate_shape 5 5 g ∧ ports_present p g ∧ ports_wired p g.
Proof.
  intros Hg Hp. assert (g = FAN_OUT_1_3) as -> by by destruct Hg. clear Hg.
  assert (present_b (PortList side_ports []) FAN_OUT_1_3 &&
          wired_b 5 5 (PortList side_ports []) FAN_OUT_1_3 && shape_b 5 5 FAN_OUT_1_3 = true) as Hb
    by by vm_compute.
  rewrite !andb_true_iff in Hb. destruct Hb as [[H1%present_sound H2%(wired_sound 5 5)] H3%(shape_sound 5 5)].
  assert (∀ q, q ∈ port_inp p ++ port_out p → q ∈ side_ports ++ []) as Hq.
  { intros q Hq%list_elem_of_In. unfold on_sides in Hp. rewrite forallb_forall in Hp.
    apply Hp, bool_decide_eq_true in Hq. rewrite app_nil_r. done. }
  split_and!; [done| |].
  - intros q Hin. by apply H1, Hq.
  - intros q r Hin Hrin. by apply H2; apply Hq.
Qed.

(** ** The gate selection *)

Section Selection.
Context `{GateLevel.Mockturtle} {L : Type} `{CoordinateLayout L}.
Import GateLevel.

Lemma emplace_if_sides b x y s :
  port_at x y ∈ side_ports →
  forallb (λ q, bool_decide (q ∈ side_ports)) s = true →
  forallb (λ q, bool_decide (q ∈ side_ports)) (emplace_if b x y s) = true.
Proof.
  intros Hp Hs. destruct b; [|done]. apply forallb_forall. intros q Hq%list_elem_of_In.
  apply elem_of_set_insert_1 in Hq as [->|Hq]; [by apply bool_decide_eq_true|].
  rewrite forallb_forall in Hs. by apply Hs, list_elem_of_In.
Qed.

(** The cases of the routing: a boolean per side and direction. *)
Lemma determine_port_routing_sides (l : gate_level_layout L) t p :
  determine_port_routing l t = Some p → on_sides p = true.
Proof.
  unfold determine_port_routing, on_sides. rewrite !bind_Some.
  intros (n_in & _ & Hp). do 9 (apply bind_Some in Hp as (? & _ & Hp)).
  rewrite forallb_app. apply andb_true_iff.
  destruct (negb _ && negb _) in Hp.
  - do 2 (apply bind_Some in Hp as (? & _ & Hp)). injection Hp as <-; simpl.
    split; repeat (apply emplace_if_sides; [unfold side_ports; set_solver|]); done.
  - injection Hp as <-; simpl.
    split; repeat (apply emplace_if_sides; [unfold side_ports; set_solver|]); done.
Qed.
End Selection.

(** What each table provides. *)

#[local] Arguments gate_at : simpl never.

Lemma wire_gate p g :
  plain p = true → gate_at WIRE_MAP p = Some g →
  gate_shape 5 5 g ∧ ports_present p g ∧ ports_wired p g.
Proof.
  intros Hp Hg.
  destruct (gate_at_check 5 5 (λ p g, present_b p g && wired_b 5 5 p g) _ _ _ wire_entries Hp Hg)
    as [? [Ha Hb]%andb_true_iff].
  split_and!; [done|by apply present_sound|by eapply wired_sound].
Qed.

Lemma fanout_gate p g :
  plain p = true → gate_at FANOUT_MAP p = Some g →
  gate_shape 5 5 g ∧ ports_present p g ∧ ports_wired p g.
Proof.
  intros Hp Hg.
  destruct (gate_at_check 5 5 (λ p g, present_b p g && wired_b 5 5 p g) _ _ _ fanout_entries Hp Hg)
    as [? [Ha Hb]%andb_true_iff].
  split_and!; [done|by apply present_sound|by eapply wired_sound].
Qed.

Lemma inverter_gate p g :
  plain p = true → gate_at INVERTER_MAP p = Some g →
  gate_shape 5 5 g ∧ ports_present p g ∧ ports_inverted p g.
Proof.
  intros Hp Hg.
  destruct (gate_at_check 5 5 (λ p g, present_b p g && inverted_b p g) _ _ _ inverter_entries Hp Hg)
    as [? [Ha Hb]%andb_true_iff].
  split_and!; [done|by apply present_sound|by apply inverted_sound].
Qed.

Lemma conjunction_gate p g :
  plain p = true → gate_at CONJUNCTION_MAP p = Some g →
  gate_shape 5 5 g ∧ ports_present p g ∧ ports_wired p g ∧ fixed_sides Qca.CONST_0 p g.
Proof.
  intros Hp Hg.
  destruct (gate_at_check 5 5 (λ p g, present_b p g && wired_b 5 5 p g && fixed_b p g Qca.CONST_0) _ _ _ conjunction_entries Hp Hg)
    as [? [[Ha Hb]%andb_true_iff Hc]%andb_true_iff].
  split_and!; [done|by apply present_sound|by eapply wired_sound|by apply fixed_sound].
Qed.

Lemma disjunction_gate p g :
  plain p = true → gate_at DISJUNCTION_MAP p = Some g →
  gate_shape 5 5 g ∧ ports_present p g ∧ ports_wired p g ∧ fixed_sides Qca.CONST_1 p g.
Proof.
  intros Hp Hg.
  destruct (gate_at_check 5 5 (λ p g, present_b p g && wired_b 5 5 p g && fixed_b p g Qca.CONST_1) _ _ _ disjunction_entries Hp Hg)
    as [? [[Ha Hb]%andb_true_iff Hc]%andb_true_iff].
  split_and!; [done|by apply present_sound|by eapply wired_sound|by apply fixed_sound].
Qed.

(** The functions the selection distinguishes are those of different literals. *)
Lemma kind_of (k : Z) :
  k = 2 ∨ k = 3 ∨ k = 4 ∨ k = 6 ∨ k = 10 ∨
  (k =? 2, k =? 3, k =? 4, k =? 6, k =? 10) = (false, false, false, false, false).
Proof.
  destruct (k =? 2) eqn:E2; [lia|]. destruct (k =? 3) eqn:E3; [lia|].
  destruct (k =? 4) eqn:E4; [lia|]. destruct (k =? 6) eqn:E6; [lia|].
  destruct (k =? 10) eqn:E10; [lia|]. by do 5 right.
Qed.

(** ** The selected gates *)

Lemma set_up_gate_sound `{GateLevel.Mockturtle} `{CoordinateLayout L}
    (l : GateLevel.gate_level_layout L) (t : ucoord_t) (p : port_list port_position) (g : fcn_gate) :
  let s := GateLevel.strg l in
  let n := GateLevel.get_node_at s t in
  determine_port_routing l t = Some p → set_up_gate l t = Some (Gate g) →
  gate_shape 5 5 g ∧ ports_present p g ∧
  (GateLevel.is_inv s n = Some true → ports_inverted p g) ∧
  (GateLevel.is_inv s n = Some false → ports_wired p g) ∧
  (GateLevel.is_and s n = Some true → fixed_sides Qca.CONST_0 p g) ∧
  (GateLevel.is_or s n = Some true → fixed_sides Qca.CONST_1 p g).
Proof.
  intros s n Hp. pose proof (determine_port_routing_sides l t p Hp) as Hs.
  pose proof (on_sides_plain p Hs) as Hpl.
  unfold set_up_gate. rewrite Hp. fold s n. simpl.
  unfold GateLevel.is_fanout, GateLevel.is_wire, GateLevel.is_buf, GateLevel.is_inv,
    GateLevel.is_and, GateLevel.is_or, GateLevel.is_maj, GateLevel.has_literal. fold s.
  destruct (vec_at (GateLevel.nodes s) n) as [d|]; [|done]. simpl.
  destruct (kind_of (GateLevel.literal d)) as [E|[E|[E|[E|[E|E]]]]];
    [rewrite !E; simpl..|injection E as -> -> -> -> ->; done].
  - destruct (GateLevel.fanout_size l n) as [m|]; [|done]. simpl.
    destruct (1 <? m); simpl; [destruct (m =? 2); [|destruct (m =? 3)]|]; simpl.
    + intros Hg%lookup_gate. destruct (fanout_gate p g Hpl Hg) as (? & ? & ?). split_and!; done.
    + intros [= <-]. destruct (cross_entries FAN_OUT_1_3 p) as (? & ? & ?); [by left|done|].
      split_and!; done.
    + intros Hg%lookup_gate. destruct (wire_gate p g Hpl Hg) as (? & ? & ?). split_and!; done.
    + intros Hg%lookup_gate. destruct (wire_gate p g Hpl Hg) as (? & ? & ?). split_and!; done.
  - intros Hg%lookup_gate. destruct (inverter_gate p g Hpl Hg) as (? & ? & ?). split_and!; done.
  - intros Hg%lookup_gate. destruct (conjunction_gate p g Hpl Hg) as (? & ? & ? & ?). split_and!; done.
  - intros Hg%lookup_gate. destruct (disjunction_gate p g Hpl Hg) as (? & ? & ? & ?). split_and!; done.
  - intros [= <-]. destruct (cross_entries MAJORITY p) as (? & ? & ?); [by right|done|].
    split_and!; done.
Qed.

Lemma set_up_gate_shape `{GateLevel.Mockturtle} `{CoordinateLayout L}
    (l : GateLevel.gate_level_layout L) t g :
  set_up_gate l t = Some (Gate g) → gate_shape 5 5 g.
Proof.
  intros Hg. pose proof Hg as Hp. unfold set_up_gate in Hp. apply bind_Some in Hp as (p & Hp & _).
  by apply (set_up_gate_sound l t p g).
Qed.

(** ** Vias *)

Section Vias.
Context (cl : Clocked.clocked_layout Cartesian.cartesian_layout).
Import CellLevel.
#[local] Abbreviation storage := (@CellLevel.cell_level_layout_storage Qca.qca_technology).
#[local] Abbreviation dim := (Cartesian.dimension (Clocked.coordinate_layout cl)).

(** The ends of wire segments on the crossing layer: cells with at most one neighbor. *)
Definition is_via (s : storage) (c : ucoord_t) : bool :=
  (0 <? uz c) && negb (is_empty_cell s c) &&
  (length (List.filter (λ a, negb (is_empty_cell s a))
             (Cartesian.adjacent_coordinates (Clocked.coordinate_layout cl) c)) <=? 1)%nat.

Definition vias (s : storage) (cs : list ucoord_t) : list ucoord_t := List.filter (is_via s) cs.

Definition ground (c : ucoord_t) : ucoord_t := ucoord3 (ux c) (uy c) 0.

Lemma ground_layer c : uz (ground c) = 0.
Proof. done. Qed.

(** A step of the loop, by whether the cell is a via. *)
Lemma set_up_via_cases (s : storage) c :
  set_up_via cl s c =
    if is_via s c then
      assign_cell_mode (assign_cell_type (assign_cell_mode s c Qca.MODE_VERTICAL) (ground c)
        Qca.NORMAL) (ground c) Qca.MODE_VERTICAL
    else s.
Proof.
  unfold set_up_via, is_via, Cartesian.is_crossing_layer, ground.
  cbn [CoordinateLayout.adjacent_coordinates Cartesian.cartesian_coordinate_layout].
  destruct ((0 <? uz c) && negb (is_empty_cell s c)); [|done].
  rewrite andb_true_l. by destruct (_ <=? 1)%nat.
Qed.

Lemma is_via_ext (s s' : storage) c :
  proper_dimension dim → inside dim c →
  (∀ a, 0 < uz a → is_empty_cell s' a = is_empty_cell s a) → is_via s' c = is_via s c.
Proof.
  intros Hd Hc Heq. unfold is_via. destruct (0 <? uz c) eqn:E; [|done]. apply Z.ltb_lt in E.
  rewrite Heq by done. f_equal. f_equal. f_equal. apply filter_ext_in.
  intros a Ha%list_elem_of_In. apply Cartesian.elem_of_adjacent_inside in Ha; [|done..]. destruct Ha as (_ & Hz & _).
  rewrite Heq; [done|lia].
Qed.

(** What the loop over [cs] has done to the layout [s]. *)
Record via_effect (s : storage) (cs : list ucoord_t) (s' : storage) : Prop := {
  via_type c : get_cell_type s' c =
    if decide (c ∈ ground <$> vias s cs) then Qca.NORMAL else get_cell_type s c;
  via_mode c : get_cell_mode s' c =
    if decide (c ∈ vias s cs ++ (ground <$> vias s cs)) then Qca.MODE_VERTICAL else get_cell_mode s c;
  via_name c : get_cell_name s' c = get_cell_name s c;
  via_io : inputs s' = inputs s ∧ outputs s' = outputs s;
  via_tiles : tile_size_x s' = tile_size_x s ∧ tile_size_y s' = tile_size_y s;
}.

Lemma via_effect_upper s cs s' a :
  via_effect s cs s' → 0 < uz a → is_empty_cell s' a = is_empty_cell s a.
Proof.
  intros Hs Ha. unfold is_empty_cell. rewrite (via_type s cs s' Hs), decide_False; [done|].
  intros (v & -> & _)%list_elem_of_fmap. rewrite ground_layer in Ha. lia.
Qed.

Lemma get_type_normal (s : storage) a c :
  get_cell_type (assign_cell_type s a Qca.NORMAL) c =
    if decide (c = a) then Qca.NORMAL else get_cell_type s c.
Proof.
  unfold get_cell_type. simpl. case_decide as E; [subst; by rewrite lookup_insert_eq|].
  by rewrite lookup_insert_ne.
Qed.

Lemma get_mode_vertical (s : storage) a c :
  get_cell_mode (assign_cell_mode s a Qca.MODE_VERTICAL) c =
    if decide (c = a) then Qca.MODE_VERTICAL else get_cell_mode s c.
Proof.
  unfold get_cell_mode. simpl. case_decide as E; [subst; by rewrite lookup_insert_eq|].
  by rewrite lookup_insert_ne.
Qed.

Lemma vias_snoc s cs c : vias s (cs ++ [c]) = vias s cs ++ if is_via s c then [c] else [].
Proof. unfold vias. rewrite List.filter_app. simpl. done. Qed.

Lemma fold_set_up_via s cs :
  proper_dimension dim → Forall (inside dim) cs → via_effect s cs (foldl (set_up_via cl) s cs).
Proof.
  intros Hd. induction cs as [|c cs IH] using rev_ind; intros Hcs; [by split|].
  apply Forall_app in Hcs as [Hcs [Hc _]%Forall_cons]. specialize (IH Hcs).
  rewrite foldl_snoc, set_up_via_cases.
  set (s1 := foldl (set_up_via cl) s cs) in *.
  assert (is_via s1 c = is_via s c) as ->.
  { apply is_via_ext; [done..|]. intros a. by apply (via_effect_upper s cs). }
  destruct IH as [Ht Hm Hn Hio Hts].
  split; [intros a|intros a|intros a| |]; rewrite ?vias_snoc; destruct (is_via s c);
    rewrite ?app_nil_r; try done.
  - change (get_cell_type (assign_cell_mode ?x _ _) a) with (get_cell_type x a).
    rewrite get_type_normal. change (get_cell_type (assign_cell_mode s1 _ _) a) with (get_cell_type s1 a).
    rewrite Ht, fmap_app. repeat case_decide; set_solver.
  - rewrite get_mode_vertical.
    change (get_cell_mode (assign_cell_type ?x _ Qca.NORMAL) a) with (get_cell_mode x a).
    rewrite get_mode_vertical, Hm, fmap_app. repeat case_decide; set_solver.
  - exact (Hn a).
Qed.

Lemma vias_set_up (fuel : nat) (s : storage) :
  steppable dim → Coordinates.volume dim < Z.of_nat fuel →
  ∃ s', post_layout_optimization cl fuel s = Some s' ∧ via_effect s (nested_loops dim) s'.
Proof.
  intros Hs Hfuel. pose proof (visited_all (Clocked.coordinate_layout cl) fuel Hs Hfuel) as Hv.
  assert (wf dim) as Hwf by apply Hs.
  exists (foldl (set_up_via cl) s (nested_loops dim)). split.
  - unfold post_layout_optimization. unfold Cartesian.visited in Hv.
    destruct (Cartesian.coordinates _ _ _) as [b e]. simpl in Hv. by rewrite Hv.
  - apply fold_set_up_via.
    + split; [done|]. unfold is_dead. by destruct Hs as (_ & -> & _).
    + apply Forall_forall. intros c Hc. by apply elem_of_nested_loops in Hc.
Qed.
End Vias.

(** * Properties *)

(** C31: Whenever [set_up_gate] selects a gate for a tile, it is a 5 x 5 gate with a normal cell at
    every port of the tile's routing. Unless the tile holds an inverter, all ports lie on one path
    of adjacent cells; for an inverter, every input is on a path of its own that touches the path of
    the output only diagonally, which inverts the signal. The sides of an AND (OR) gate that are not
    ports are the constant 0 (1) and lead to its center, the majority cell. *)
Theorem set_up_gate_realizes `{GateLevel.Mockturtle} `{CoordinateLayout L}
    (l : GateLevel.gate_level_layout L) (t : ucoord_t) (p : port_list port_position) (g : fcn_gate) :
  let s := GateLevel.strg l in
  let n := GateLevel.get_node_at s t in
  determine_port_routing l t = Some p → set_up_gate l t = Some (Gate g) →
  gate_shape 5 5 g ∧ ports_present p g ∧
  (GateLevel.is_inv s n = Some true → ports_inverted p g) ∧
  (GateLevel.is_inv s n = Some false → ports_wired p g) ∧
  (GateLevel.is_and s n = Some true → fixed_sides Qca.CONST_0 p g) ∧
  (GateLevel.is_or s n = Some true → fixed_sides Qca.CONST_1 p g).
Proof. exact (set_up_gate_sound l t p g). Qed.

(** A layout with the AND of the inputs to its north and its west. *)
Definition and_clocked : Clocked.clocked_layout Cartesian.cartesian_layout :=
  Clocked.ClockedLayout (Cartesian.make (UCoord 0 1 3 3)) (twoddwave_clocking 3 FOUR).
Definition and_tile : ucoord_t := UCoord 0 0 1 1.
Definition and_ops : list operation :=
  [CreatePi "a" (UCoord 0 0 0 1); CreatePi "b" (UCoord 0 0 1 0);
   CreateAnd (to_uint64 (UCoord 0 0 0 1)) (to_uint64 (UCoord 0 0 1 0)) and_tile;
   CreatePo (to_uint64 and_tile) "f" (UCoord 0 0 1 2)].
Definition and_layout : GateLevel.gate_level_layout Cartesian.cartesian_layout :=
  let l0 := GateLevel.make_from_storage and_clocked GateLevel.new_storage in
  default l0 (l ← GateLevel.make and_clocked "and"; run and_ops l).
Definition and_ports : port_list port_position := ports [port_at 0 2; port_at 2 0] [port_at 4 2].

Lemma set_up_gate_realizes_witness :
  set_up_gate and_layout and_tile = Some (Gate (rotated_180 CONJUNCTION)) ∧
  gate_shape 5 5 (rotated_180 CONJUNCTION) ∧ ports_wired and_ports (rotated_180 CONJUNCTION) ∧
  fixed_sides Qca.CONST_0 and_ports (rotated_180 CONJUNCTION).
Proof.
  assert (determine_port_routing and_layout and_tile = Some and_ports) as Hp by by vm_compute.
  assert (set_up_gate and_layout and_tile = Some (Gate (rotated_180 CONJUNCTION))) as Hg
    by by vm_compute.
  destruct (set_up_gate_realizes and_layout and_tile _ _ Hp Hg) as (Hs & _ & _ & Hw & Hf & _).
  split_and!; [done|done|apply Hw|apply Hf]; by vm_compute.
Defined.

(** The routing with the given incoming and outgoing signals. *)
Definition routing (n_in e_in s_in w_in n_out e_out s_out w_out : bool) : port_list port_position :=
  PortList (emplace_if w_in 0 2 (emplace_if s_in 2 4 (emplace_if e_in 4 2 (emplace_if n_in 2 0 []))))
    (emplace_if w_out 0 2 (emplace_if s_out 2 4 (emplace_if e_out 4 2 (emplace_if n_out 2 0 [])))).

Definition covers (m : port_gate_map) (p : port_list port_position) : bool :=
  match gate_at m p with Some _ => true | None => false end.

(** The numbers of inputs and outputs, when no side is both. *)
Definition has_arity (p : port_list port_position) (i o : nat) : bool :=
  bool_decide (length (port_inp p) = i ∧ length (port_out p) = o) &&
  forallb (λ q, negb (bool_decide (q ∈ port_out p))) (port_inp p).

(** The lookup tables cover exactly the routings that the gates are for. With ports at the middles
    of the sides, none of which is an input and an output at once: wires and inverters with one
    input and one output, or with only one of the two; AND and OR gates with two inputs and one
    output; two-output fan-outs with one input. Every other combination of incoming and outgoing
    signals is an unsupported orientation. *)
Theorem lookup_tables_cover (n_in e_in s_in w_in n_out e_out s_out w_out : bool) :
  let p := routing n_in e_in s_in w_in n_out e_out s_out w_out in
  covers WIRE_MAP p = has_arity p 1 1 || has_arity p 0 1 || has_arity p 1 0 ∧
  covers INVERTER_MAP p = has_arity p 1 1 || has_arity p 0 1 || has_arity p 1 0 ∧
  covers CONJUNCTION_MAP p = has_arity p 2 1 ∧
  covers DISJUNCTION_MAP p = has_arity p 2 1 ∧
  covers FANOUT_MAP p = has_arity p 1 2.
Proof.
  destruct n_in, e_in, s_in, w_in, n_out, e_out, s_out, w_out; split_and!; by vm_compute.
Qed.

(** On every layout whose loops over coordinates end, [post_layout_optimization] turns the ends of
    the wire segments on the crossing layer into vias and touches nothing else: the cells of the
    crossing layer with at most one neighboring cell get the vertical mode, and on the ground layer
    below each of them there is a normal cell with the vertical mode. The types of all other cells,
    the other modes, and all names, inputs and outputs stay. *)
Theorem post_layout_optimization_sets_vias (cl : Clocked.clocked_layout Cartesian.cartesian_layout)
    (fuel : nat) (s : CellLevel.cell_level_layout_storage) :
  let dim := Cartesian.dimension (Clocked.coordinate_layout cl) in
  steppable dim → Coordinates.volume dim < Z.of_nat fuel →
  ∃ s', post_layout_optimization cl fuel s = Some s' ∧
        (∀ c, CellLevel.get_cell_type s' c =
           if decide (c ∈ ground <$> vias cl s (nested_loops dim)) then Qca.NORMAL
           else CellLevel.get_cell_type s c) ∧
        (∀ c, CellLevel.get_cell_mode s' c =
           if decide (c ∈ vias cl s (nested_loops dim) ++ (ground <$> vias cl s (nested_loops dim)))
           then Qca.MODE_VERTICAL else CellLevel.get_cell_mode s c) ∧
        (∀ c, CellLevel.get_cell_name s' c = CellLevel.get_cell_name s c) ∧
        CellLevel.inputs s' = CellLevel.inputs s ∧ CellLevel.outputs s' = CellLevel.outputs s.
Proof.
  intros dim Hs Hfuel. destruct (vias_set_up cl fuel s Hs Hfuel) as (s' & E & [Ht Hm Hn [Hi Ho] _]).
  by exists s'.
Qed.

(** A wire that crosses another one on the crossing layer, with its ends at (0,0) and (2,0). *)
Definition crossing_clocked : Clocked.clocked_layout Cartesian.cartesian_layout :=
  Clocked.ClockedLayout (Cartesian.make (UCoord 0 1 1 2)) (twoddwave_clocking 3 FOUR).
Definition crossing_cells : CellLevel.cell_level_layout_storage :=
  foldl (λ s c, CellLevel.assign_cell_type s c Qca.NORMAL) (blank "crossing" 5 5)
    [UCoord 0 1 0 0; UCoord 0 1 0 1; UCoord 0 1 0 2].

Lemma post_layout_optimization_sets_vias_witness :
  ∃ s', post_layout_optimization crossing_clocked 13 crossing_cells = Some s' ∧
        CellLevel.get_cell_mode s' (UCoord 0 1 0 1) = Qca.MODE_NORMAL ∧
        CellLevel.get_cell_mode s' (UCoord 0 1 0 2) = Qca.MODE_VERTICAL ∧
        CellLevel.get_cell_type s' (UCoord 0 0 0 2) = Qca.NORMAL.
Proof.
  destruct (post_layout_optimization_sets_vias crossing_clocked 13 crossing_cells)
    as (s' & E & Ht & Hm & _); [by vm_compute..|].
  exists s'. split; [done|]. rewrite !Hm, Ht. split_and!; by vm_compute.
Defined.
