(* ===== verification/ApplyGateLibrary.v ===== *)
(** * Application of gate libraries
      (include/fiction/algorithms/physical_design/apply_gate_library.hpp)

    The pass that turns a gate-level layout into a cell-level one: the gates that a library sets up
    for the nodes of the layout are placed on the cells of their tiles. The pass is modelled over any
    library of class [GateLibrary] and any layout of class [TileGrid], with instances for Cartesian,
    shifted Cartesian and hexagonal layouts; the theorems here are about QCA ONE. *)

From S2P Require Import Prelude.
From S2P Require Import Coordinates.
From S2P Require Import CoordinateLayout.
From S2P Require Import CartesianLayout.
From S2P Require Import HexagonalLayout.
From S2P Require Import ShiftedCartesianLayout.
From S2P Require Import ClockingScheme.
From S2P Require Import ClockedLayout.
From S2P Require Import GateLevelLayout.
From S2P Require Import GateLevelInvariant.
From S2P Require Import GateLevelDataFlow.
From S2P Require Import MockturtleModel.
From S2P Require Import CellTechnology.
From S2P Require Import CellLevelLayout.
From S2P Require Import CellPorts.
From S2P Require Import FcnGateLibrary.
From S2P Require Import QcaOneLibrary.
From S2P Require Import QcaOneProperties.
#[local] Open Scope Z_scope.
Import Offset.

Abbreviation cartesian := Cartesian.cartesian_layout.

(** What the pass uses of a gate library. The optimization of the resulting cells is optional. *)
Class GateLibrary `{Technology} (GateLyt : Type) := {
  gate_port : Type;
  gate_size_x : Z;
  gate_size_y : Z;
  set_up_gate : GateLyt → ucoord_t → option (gate_result gate_port);
  post_layout_optimization : option (Clocked.clocked_layout cartesian → nat →
    CellLevel.cell_level_layout_storage → option CellLevel.cell_level_layout_storage);
}.

(** The cell at the upper left corner of a tile, for gates of a size: the branches of [run] on the type
    of the gate-level layout. The products of 31-bit fields are computed in [int]. *)
Class TileGrid (L : Type) := tile_corner : Z → Z → L → ucoord_t → option ucoord_t.

Module Apply.

(** Cartesian layouts. *)
Definition cartesian_corner (sx sy : Z) (lyt : cartesian) (t : ucoord_t) : option ucoord_t :=
  cx ← Cube.int_result (ux t * sx);
  cy ← Cube.int_result (uy t * sy);
  Some (ucoord3 cx cy (uz t)).

(** Half a gate, [static_cast<double>(size) / 2.0] truncated, is added to the corners in odd or even
    rows or columns. *)
Definition shift_x (b : bool) (sx : Z) (c : ucoord_t) : ucoord_t :=
  if b then set_x c (ux c + sx / 2) else c.
Definition shift_y (b : bool) (sy : Z) (c : ucoord_t) : ucoord_t :=
  if b then set_y c (uy c + sy / 2) else c.

Definition shift_corner {h} (sx sy : Z) (lyt : Hexagonal.hexagonal_layout h) (t c : ucoord_t) :
    ucoord_t :=
  match h with
  | Hexagonal.odd_row_hex => shift_x (Hexagonal.is_in_odd_row lyt t) sx c
  | Hexagonal.even_row_hex => shift_x (Hexagonal.is_in_even_row lyt t) sx c
  | Hexagonal.odd_column_hex => shift_y (Hexagonal.is_in_odd_column lyt t) sy c
  | Hexagonal.even_column_hex => shift_y (Hexagonal.is_in_even_column lyt t) sy c
  end.

(** Shifted Cartesian layouts. *)
Definition shifted_corner {a} (sx sy : Z) (lyt : ShiftedCartesian.shifted_cartesian_layout a)
    (t : ucoord_t) : option ucoord_t :=
  cx ← Cube.int_result (ux t * sx);
  cy ← Cube.int_result (uy t * sy);
  Some (shift_corner sx sy lyt t (ucoord3 cx cy (uz t))).

(** Hexagonal layouts; the distance between rows or columns is 3/4 of a gate. *)
Definition hexagonal_corner {h} (sx sy : Z) (lyt : Hexagonal.hexagonal_layout h) (t : ucoord_t) :
    option ucoord_t :=
  c ← match Hexagonal.orientation_of h with
      | Hexagonal.pointy_top_hex =>
          cx ← Cube.int_result (ux t * sx);
          cy ← Cube.int_result (uy t * (sy * 3 / 4));
          Some (ucoord3 cx cy (uz t))
      | Hexagonal.flat_top_hex =>
          cx ← Cube.int_result (ux t * (sx * 3 / 4));
          cy ← Cube.int_result (uy t * sy);
          Some (ucoord3 cx cy (uz t))
      end;
  Some (shift_corner sx sy lyt t c).

#[global] Instance cartesian_grid : TileGrid cartesian := cartesian_corner.
#[global] Instance shifted_grid a : TileGrid (ShiftedCartesian.shifted_cartesian_layout a) :=
  shifted_corner.
#[global] Instance hexagonal_grid h : TileGrid (Hexagonal.hexagonal_layout h) := hexagonal_corner.

Section Apply.
Context `{MT : GateLevel.Mockturtle} `{Tech : Technology} {L : Type} `{HL : CoordinateLayout L}.
Context `{Grid : !TileGrid L} `{Lib : !GateLibrary (GateLevel.gate_level_layout L)}.

(** A cell-level layout, or the exception of the library that passes through. *)
Inductive outcome :=
  | Done (l : CellLevel.cell_level_layout cartesian)
  | Thrown (e : gate_result gate_port).

(** The cells of a gate, row by row, with their row and column. *)
Definition gate_cells (g : fcn_gate) : list (nat * nat * Z) :=
  mjoin (imap (λ y row, imap (λ x v, (y, x, v)) row) g).

(** The body of the loops of [assign_gate]. *)
Definition assign_cell (name : string) (c : ucoord_t) (s : CellLevel.cell_level_layout_storage)
    (cell : nat * nat * Z) : CellLevel.cell_level_layout_storage :=
  let '(y, x, type) := cell in
  let pos := ucoord3 (ux c + Z.of_nat x) (uy c + Z.of_nat y) (uz c) in
  let s := if negb (tech_is_empty_cell type) then CellLevel.assign_cell_type s pos type else s in
  if tech_is_input_cell type || tech_is_output_cell type then CellLevel.assign_cell_name s pos name
  else s.

Definition assign_gate (s : CellLevel.cell_level_layout_storage) (c : ucoord_t) (g : fcn_gate)
    (name : string) : CellLevel.cell_level_layout_storage :=
  foldl (assign_cell name c) s (gate_cells g).

(** The loop over the nodes. *)
Fixpoint place_gates (l : GateLevel.gate_level_layout L) (ns : list Z)
    (s : CellLevel.cell_level_layout_storage) :
    option (CellLevel.cell_level_layout_storage + gate_result gate_port) :=
  match ns with
  | [] => Some (inl s)
  | n :: ns' =>
      if GateLevel.is_constant n then place_gates l ns' s
      else
        let t := GateLevel.get_tile (GateLevel.strg l) n in
        c ← tile_corner gate_size_x gate_size_y (Clocked.coordinate_layout (GateLevel.clocked l)) t;
        r ← set_up_gate l t;
        match r with
        | Gate g =>
            place_gates l ns'
              (assign_gate s c g (GateLevel.get_name (GateLevel.strg l) n))
        | e => Some (inr e)
        end
  end.

(** The clocked layout below the cells, made by the constructor of [apply_gate_library_impl]. *)
Definition cell_clocked (l : GateLevel.gate_level_layout L) :
    Clocked.clocked_layout cartesian :=
  let gate_lyt := Clocked.coordinate_layout (GateLevel.clocked l) in
  Clocked.make Cartesian.make
    (ucoord3 (wrap 64 ((ux (dimension gate_lyt) + 1) * gate_size_x - 1))
             (wrap 64 ((uy (dimension gate_lyt) + 1) * gate_size_y - 1)) (uz (dimension gate_lyt)))
    (Clocked.get_clocking_scheme (GateLevel.clocked l)).

(** [fuel] bounds the loop of the optimization. *)
Definition apply_gate_library (fuel : nat) (l : GateLevel.gate_level_layout L) :
    option outcome :=
  let cell_lyt := CellLevel.make (cell_clocked l) "" gate_size_x gate_size_y in
  ns ← GateLevel.foreach_node l;
  r ← place_gates l ns (CellLevel.strg cell_lyt);
  match r with
  | inr e => Some (Thrown e)
  | inl s =>
      s ← match post_layout_optimization with
          | Some optimize => optimize (cell_clocked l) fuel s
          | None => Some s
          end;
      Some (Done (CellLevel.CellLevelLayout (cell_clocked l)
        (CellLevel.set_layout_name s (GateLevel.get_layout_name (GateLevel.strg l)))))
  end.
End Apply.
End Apply.

#[local] Existing Instance Qca.qca_technology.

#[export] Instance qca_one_library `{GateLevel.Mockturtle} :
    GateLibrary (H := Qca.qca_technology) (GateLevel.gate_level_layout cartesian) := {
  gate_port := port_position;
  gate_size_x := 5;
  gate_size_y := 5;
  set_up_gate := QcaOne.set_up_gate;
  post_layout_optimization := Some QcaOne.post_layout_optimization;
}.

(** ** The cells of a gate *)

Lemma elem_of_gate_cells g y x v : (y, x, v) ∈ Apply.gate_cells g ↔ gate_cell g y x = Some v.
Proof.
  unfold Apply.gate_cells, gate_cell. rewrite list_elem_of_join. setoid_rewrite elem_of_lookup_imap.
  rewrite bind_Some. split.
  - intros (r & Hv & (i & row & -> & Hrow)). apply elem_of_lookup_imap in Hv as (j & w & [= -> -> ->] & Hw).
    by exists row.
  - intros (row & Hrow & Hv). eexists. split; [|by exists y, row].
    apply elem_of_lookup_imap. by exists x, v.
Qed.

Lemma gate_cells_NoDup g : NoDup (Apply.gate_cells g).
Proof.
  unfold Apply.gate_cells.
  assert (∀ k, NoDup (mjoin (imap (λ y row, imap (λ x v, ((k + y)%nat, x, v)) row) g))) as Hk;
    [|exact (Hk O)].
  induction g as [|row g IH]; intros k; simpl; [constructor|]. apply NoDup_app. split_and!.
  - apply NoDup_alt. intros i j c Hi Hj. rewrite list_lookup_imap in Hi, Hj.
    destruct (row !! i); [|done]. destruct (row !! j); [|done]. naive_solver.
  - intros c (x & v & -> & Hv)%elem_of_lookup_imap Hc.
    apply list_elem_of_join in Hc as (r & Hc & (i & row' & -> & _)%elem_of_lookup_imap).
    apply elem_of_lookup_imap in Hc as (j & w & E & _). injection E. lia.
  - specialize (IH (S k)). erewrite imap_ext; [exact IH|]. intros i r _. simpl.
    apply imap_ext. intros j v _. f_equal. f_equal. lia.
Qed.

(** ** Layouts whose gates are placed *)

Section Settled.
Context `{MT : GateLevel.Mockturtle} `{HL : CoordinateLayout L} (l : GateLevel.gate_level_layout L).
Import GateLevel.
#[local] Abbreviation s := (strg l).
#[local] Abbreviation dim := (dimension (Clocked.coordinate_layout (clocked l))).

(** Every live gate is on a tile of the layout, and every gate on a tile of the layout is alive. *)
Record settled : Prop := {
  settled_alive n : 2 <= n < Z.of_nat (length (nodes s)) → is_dead_node s n = Some false →
    inside dim (get_tile s n) ∧ is_dead (get_tile s n) = false;
  settled_hosted t : inside dim t → is_empty_tile s t = false →
    is_dead_node s (get_node_at s t) = Some false;
}.

Definition settled_b : bool :=
  forallb (λ n, match is_dead_node s n with
                | Some false =>
                    bool_decide (inside dim (get_tile s n)) && negb (is_dead (get_tile s n))
                | _ => true
                end) (seqZ 2 (Z.of_nat (length (nodes s)) - 2)) &&
  forallb (λ t, is_empty_tile s t ||
                match is_dead_node s (get_node_at s t) with Some false => true | _ => false end)
    (nested_loops dim).

Lemma settled_sound : wf dim → settled_b = true → settled.
Proof.
  intros Hd [Hn Ht]%andb_true_iff. rewrite forallb_forall in Hn, Ht. split.
  - intros n Hr Ha. assert (n ∈ seqZ 2 (Z.of_nat (length (nodes s)) - 2)) as Hin%list_elem_of_In
      by (apply elem_of_seqZ; lia).
    apply Hn in Hin. rewrite Ha in Hin. by rewrite andb_true_iff, bool_decide_eq_true, negb_true_iff in Hin.
  - intros t Hin He. apply elem_of_nested_loops, list_elem_of_In, Ht in Hin; [|done].
    rewrite He in Hin. simpl in Hin. by destruct (is_dead_node s (get_node_at s t)) as [[]|].
Qed.

Context (Hl : layout_wf l).

(** A tile of the layout with a node. *)
Lemma hosted t :
  proper_dimension dim →   inside dim t → is_empty_tile s t = false →
  2 <= get_node_at s t < Z.of_nat (length (nodes s)) ∧ get_tile s (get_node_at s t) = t.
Proof.
  intros Hd Ht He. pose proof (lw_storage _ Hl) as Hs. pose proof (proper_dimension_bounds _ Hd).
  assert (wf t) as Hwt by (unfold inside, wf, in_width in *; lia).
  unfold is_empty_tile, get_node_at, get_node in *.
  destruct (tile_node_map s !! to_uint64 t) as [n|] eqn:E; simpl in *; [|done].
  apply wf_inverse in E; [|done]. pose proof (wf_node _ Hs _ _ E) as Hn.
  pose proof (wf_dead _ Hs _ _ E) as Hdead. rewrite of_to_uint64 in Hdead by done.
  assert (is_dead t = false) as Hlive by (unfold is_dead; by destruct Ht as [-> _]).
  rewrite Hlive in Hdead. symmetry in Hdead. apply Z.leb_gt in Hdead.
  split; [lia|]. unfold get_tile. by rewrite E, of_to_uint64.
Qed.

(** The node of a tile that is hosted is the one of the tile. *)
Lemma placed_node n t :
  2 <= n → inside dim (get_tile s n) → is_dead (get_tile s n) = false → get_tile s n = t →
  get_node_at s t = n ∧ is_empty_tile s t = false.
Proof.
  intros Hn Hin Hlive <-. pose proof (lw_storage _ Hl) as Hs.
  assert (get_node_at s (get_tile s n) = n) as E.
  { unfold get_node_at. rewrite get_node_tiles, tiles_lookup by done.
    unfold get_tile in *. destruct (node_tile_map s !! n) as [o|] eqn:E; [|done].
    rewrite to_of_uint64; [done|]. by eapply wf_tile. }
  split; [done|]. unfold is_empty_tile. rewrite E. lia.
Qed.

End Settled.

(** ** The pass with QCA ONE *)

Section QcaOneApplied.
Context `{MT : GateLevel.Mockturtle} (l : GateLevel.gate_level_layout cartesian).
Import GateLevel.
#[local] Abbreviation s := (strg l).
#[local] Abbreviation dim := (Cartesian.dimension (Clocked.coordinate_layout (clocked l))).

(** The library has a gate for every tile. *)
Definition supported : Prop :=
  ∀ t, inside dim t → is_empty_tile s t = false →
       ∃ g, QcaOne.set_up_gate l t = Some (Gate g).

(** The coordinates of all cells are representable, and so is the number of nodes. *)
Definition fits : Prop :=
  proper_dimension dim ∧ 5 * (ux dim + 1) < 2 ^ 31 ∧ 5 * (uy dim + 1) < 2 ^ 31 ∧
  Z.of_nat (length (nodes s)) < 2 ^ 32.

(** The gate of a tile, and the position of its cell in row [i] and column [j]. *)
Definition gate_of (t : ucoord_t) : fcn_gate :=
  match QcaOne.set_up_gate l t with Some (Gate g) => g | _ => [] end.
Definition cell_position (t : ucoord_t) (i j : nat) : ucoord_t :=
  UCoord 0 (uz t) (5 * uy t + Z.of_nat i) (5 * ux t + Z.of_nat j).

(** The type that the gates give to a cell. *)
Definition tile_cell (t : ucoord_t) (i j : nat) : Z :=
  if is_empty_tile s t then Qca.EMPTY else default Qca.EMPTY (gate_cell (gate_of t) i j).

(** *** Deciding the conditions *)

Definition supported_b : bool :=
  forallb (λ t, is_empty_tile s t ||
                match QcaOne.set_up_gate l t with Some (Gate _) => true | _ => false end)
    (nested_loops dim).

Lemma supported_sound : wf dim → supported_b = true → supported.
Proof.
  intros Hd Ht t Hin He. unfold supported_b in Ht. rewrite forallb_forall in Ht.
  apply elem_of_nested_loops, list_elem_of_In, Ht in Hin; [|done]. rewrite He in Hin. simpl in Hin.
  destruct (QcaOne.set_up_gate l t) as [[g| |]|]; [by exists g|done..].
Qed.

(** *** The loops as one *)

Definition corner (n : Z) : ucoord_t :=
  let t := get_tile s n in ucoord3 (ux t * 5) (uy t * 5) (uz t).

Definition work : Type := Z * (nat * nat * Z).

Definition work_of (n : Z) : list work :=
  (λ c, (n, c)) <$> Apply.gate_cells (gate_of (get_tile s n)).

Definition work_step (st : CellLevel.cell_level_layout_storage) (w : work) :
    CellLevel.cell_level_layout_storage :=
  Apply.assign_cell (get_name s w.1) (corner w.1) st w.2.

Definition work_pos (w : work) : ucoord_t :=
  let '(n, (y, x, _)) := w in
  ucoord3 (ux (corner n) + Z.of_nat x) (uy (corner n) + Z.of_nat y) (uz (corner n)).

(** What is seen of a position: type, name, and whether it is an input or an output. *)
Definition cell_view (st : CellLevel.cell_level_layout_storage) (p : ucoord_t) :
    Z * string * bool * bool :=
  (CellLevel.get_cell_type st p, CellLevel.get_cell_name st p,
   CellLevel.is_pi st p, CellLevel.is_po st p).

Definition work_view (w : work) (v : Z * string * bool * bool) : Z * string * bool * bool :=
  let '(n, (_, _, t)) := w in
  let '(ct, name, pi, po) := v in
  (if Qca.is_empty_cell t then ct else t,
   if Qca.is_input_cell t || Qca.is_output_cell t then get_name s n else name,
   Qca.is_input_cell t || pi, Qca.is_output_cell t || po).

Lemma assign_type_view st p t q :
  Qca.is_empty_cell t = false →
  cell_view (CellLevel.assign_cell_type st p t) q =
    if decide (q = p) then
      (t, CellLevel.get_cell_name st p, Qca.is_input_cell t || CellLevel.is_pi st p,
       Qca.is_output_cell t || CellLevel.is_po st p)
    else cell_view st q.
Proof.
  intros He. unfold cell_view, CellLevel.assign_cell_type, CellLevel.get_cell_type,
    CellLevel.get_cell_name, CellLevel.is_pi, CellLevel.is_po. simpl. rewrite He. simpl.
  assert (Qca.is_input_cell t = true → Qca.is_output_cell t = false) as Hio
    by by intros ->%Z.eqb_eq.
  case_decide as E; [subst q; rewrite lookup_insert_eq|rewrite lookup_insert_ne by done]; simpl.
  - destruct (Qca.is_input_cell t); [rewrite Hio by done; simpl|simpl; destruct (Qca.is_output_cell t)];
      simpl; repeat f_equal; try (apply bool_decide_eq_true_2; set_solver); done.
  - repeat f_equal; apply bool_decide_ext; destruct (Qca.is_input_cell t);
      [|destruct (Qca.is_output_cell t)| |destruct (Qca.is_output_cell t)]; set_solver.
Qed.

Lemma assign_name_view st p nm q :
  cell_view (CellLevel.assign_cell_name st p nm) q =
    if decide (q = p) then
      (CellLevel.get_cell_type st p, nm, CellLevel.is_pi st p, CellLevel.is_po st p)
    else cell_view st q.
Proof.
  unfold cell_view. change (CellLevel.get_cell_type (CellLevel.assign_cell_name st p nm) q)
    with (CellLevel.get_cell_type st q).
  change (CellLevel.is_pi (CellLevel.assign_cell_name st p nm) q) with (CellLevel.is_pi st q).
  change (CellLevel.is_po (CellLevel.assign_cell_name st p nm) q) with (CellLevel.is_po st q).
  unfold CellLevel.get_cell_name, CellLevel.assign_cell_name; simpl.
  destruct (decide (q = p)) as [->|]; destruct (decide (nm = "")) as [->|];
    [by rewrite lookup_delete_eq|by rewrite lookup_insert_eq
    |by rewrite lookup_delete_ne|by rewrite lookup_insert_ne].
Qed.

Lemma work_step_view st w p :
  cell_view (work_step st w) p =
    if decide (p = work_pos w) then work_view w (cell_view st p) else cell_view st p.
Proof.
  destruct w as [n [[y x] t]]. unfold work_step, Apply.assign_cell. cbn -[cell_view work_pos].
  change (ucoord3 _ _ _) with (work_pos (n, (y, x, t))). set (q := work_pos (n, (y, x, t))). clearbody q.
  destruct (Qca.is_empty_cell t) eqn:He; cbn -[cell_view].
  - assert (t = Qca.EMPTY) as -> by by apply Z.eqb_eq.
    change (Qca.is_input_cell Qca.EMPTY) with false. change (Qca.is_output_cell Qca.EMPTY) with false.
    cbn -[cell_view]. case_decide; [|done]. by destruct (cell_view st p) as [[[]]].
  - destruct (Qca.is_input_cell t || Qca.is_output_cell t) eqn:Hio;
      rewrite ?assign_name_view, ?assign_type_view by done; case_decide as E; try done; subst p.
    + pose proof (assign_type_view st q t q He) as Hv. rewrite decide_True in Hv by done.
      unfold cell_view in Hv at 1. injection Hv as -> _ -> ->. done.
    + done.
Qed.

(** *** Positions *)

Lemma corner_eq n :
  fits → inside dim (get_tile s n) →
  corner n = UCoord 0 (uz (get_tile s n)) (5 * uy (get_tile s n)) (5 * ux (get_tile s n)).
Proof.
  intros (Hd & Hx & Hy & _) Ht. pose proof (proper_dimension_bounds _ Hd).
  unfold inside in Ht. unfold corner, ucoord3. rewrite !wrap_small by (unfold in_width; lia).
  f_equal; lia.
Qed.

Lemma work_pos_position n y x v :
  fits → inside dim (get_tile s n) → (y < 5)%nat → (x < 5)%nat →
  work_pos (n, (y, x, v)) = cell_position (get_tile s n) y x.
Proof.
  intros Hf Ht Hy Hx. unfold work_pos. rewrite corner_eq by done. simpl.
  destruct Hf as (Hd & ? & ? & _). pose proof (proper_dimension_bounds _ Hd).
  unfold inside in Ht. unfold ucoord3. by rewrite !wrap_small by (unfold in_width; lia).
Qed.

Lemma cell_position_inj t t' i j i' j' :
  ud t = ud t' → (i < 5)%nat → (j < 5)%nat → (i' < 5)%nat → (j' < 5)%nat →
  cell_position t i j = cell_position t' i' j' → t = t' ∧ i = i' ∧ j = j'.
Proof.
  intros Hd Hi Hj Hi' Hj' E. injection E. destruct t, t'; simpl in *. intros. split_and!; [|lia..].
  f_equal; lia.
Qed.

(** *** The loops *)

Lemma place_gates_spec ns st :
  fits →
  (∀ n, n ∈ ns → 2 <= n → inside dim (get_tile s n) ∧
     ∃ g, QcaOne.set_up_gate l (get_tile s n) = Some (Gate g)) →
  Apply.place_gates l ns st = Some (inl (foldl work_step st (filter (λ n, 2 <= n) ns ≫= work_of))).
Proof.
  intros Hf. pose proof Hf as (Hd & Hx & Hy & _).
  pose proof (proper_dimension_bounds _ Hd).
  revert st. induction ns as [|n ns IH]; intros st Hns; [done|].
  assert (∀ m, m ∈ ns → 2 <= m → inside dim (get_tile s m) ∧
     ∃ g, QcaOne.set_up_gate l (get_tile s m) = Some (Gate g)) as Hns'.
  { intros m Hm. apply Hns. by right. }
  cbn [Apply.place_gates]. unfold is_constant. destruct (Z.leb_spec n 1).
  { rewrite IH by done. by rewrite filter_cons_False by lia. }
  destruct (Hns n) as (Hin & g & Hg); [by left|lia|]. unfold inside in Hin.
  unfold tile_corner, Apply.cartesian_grid, Apply.cartesian_corner, Cube.int_result.
  cbn [gate_size_x gate_size_y qca_one_library].
  rewrite !decide_True by (unfold Cube.int32; lia). cbn [mbind option_bind set_up_gate qca_one_library].
  rewrite Hg. rewrite filter_cons_True by lia. rewrite bind_cons, foldl_app.
  unfold work_of at 1. unfold gate_of. rewrite Hg, foldl_fmap. by apply IH.
Qed.

(** *** What the loops place *)

Section Placed.
Context (Hl : layout_wf l) (Hset : settled l) (Hsup : supported) (Hf : fits).

Lemma gate_of_shape t : inside dim t → is_empty_tile s t = false → gate_shape 5 5 (gate_of t).
Proof.
  intros Ht He. destruct (Hsup t Ht He) as [g Hg]. unfold gate_of. rewrite Hg.
  exact (set_up_gate_shape l t g Hg).
Qed.

(** All work, for the nodes [ns] of the loop. *)
Definition all_work (ns : list Z) : list work := filter (λ n, 2 <= n) ns ≫= work_of.

Lemma elem_of_all_work ns n i j v :
  (n, (i, j, v)) ∈ all_work ns ↔ n ∈ ns ∧ 2 <= n ∧ gate_cell (gate_of (get_tile s n)) i j = Some v.
Proof.
  unfold all_work, work_of. rewrite list_elem_of_bind. setoid_rewrite list_elem_of_fmap.
  setoid_rewrite list_elem_of_filter. split.
  - intros (m & ([[i' j'] v'] & [= -> -> -> ->] & Hc) & H2 & Hm). by rewrite <-elem_of_gate_cells.
  - intros (Hn & H2 & Hc). exists n. split; [|done]. exists (i, j, v). by rewrite elem_of_gate_cells.
Qed.

Lemma all_work_NoDup ns : NoDup ns → NoDup (all_work ns).
Proof.
  intros Hnd. unfold all_work. apply NoDup_bind; [|intros n _|by apply NoDup_filter].
  - intros n m w _ _ (c & -> & _)%list_elem_of_fmap (c' & [=] & _)%list_elem_of_fmap. done.
  - unfold work_of. apply NoDup_fmap_2; [intros c c' [=]; done|]. apply gate_cells_NoDup.
Qed.

(** The work on alive nodes, with its place. *)
Lemma work_inside ns n i j v :
  (∀ n, n ∈ ns ↔ 0 <= n < Z.of_nat (length (nodes s)) ∧ is_dead_node s n = Some false) →
  (n, (i, j, v)) ∈ all_work ns →
  let t := get_tile s n in
  inside dim t ∧ (i < 5)%nat ∧ (j < 5)%nat ∧ get_node_at s t = n ∧ is_empty_tile s t = false ∧
  work_pos (n, (i, j, v)) = cell_position t i j.
Proof.
  intros Hns (Hn & H2 & Hc)%elem_of_all_work t. apply Hns in Hn as [Hn Ha].
  destruct (settled_alive l Hset n) as [Hin Hlive]; [lia|done|].
  destruct (placed_node l Hl n t) as [Hat He]; [done..|].
  destruct (proj1 (gate_cell_shape 5 5 _ i j (gate_of_shape t Hin He))) as [Hi Hj]; [by exists v|].
  split_and!; try done. by apply work_pos_position.
Qed.

(** What is seen of the cells when all gates are placed. *)
Definition tile_view (t : ucoord_t) (i j : nat) : Z * string * bool * bool :=
  let v := tile_cell t i j in
  (v, if Qca.is_input_cell v || Qca.is_output_cell v then get_name s (get_node_at s t) else "",
   Qca.is_input_cell v, Qca.is_output_cell v).

Lemma work_step_tiles st w :
  CellLevel.tile_size_x st = 5 ∧ CellLevel.tile_size_y st = 5 →
  CellLevel.tile_size_x (work_step st w) = 5 ∧ CellLevel.tile_size_y (work_step st w) = 5.
Proof.
  intros Hst. destruct w as [n [[y x] t]]. unfold work_step, Apply.assign_cell, CellLevel.assign_cell_type.
  simpl. destruct (Qca.is_empty_cell t), (Qca.is_input_cell t || Qca.is_output_cell t); done.
Qed.

Lemma placed_cells :
  ∃ ns st, foreach_node l = Some ns ∧ Apply.place_gates l ns (blank "" 5 5) = Some (inl st) ∧
    (CellLevel.tile_size_x st = 5 ∧ CellLevel.tile_size_y st = 5) ∧
    ∀ t i j, inside dim t → (i < 5)%nat → (j < 5)%nat →
             cell_view st (cell_position t i j) = tile_view t i j.
Proof.
  destruct (foreach_node_spec l (lw_storage _ Hl)) as (ns & Ens & Hnd & Hns); [apply Hf|].
  exists ns. eexists. split; [done|]. split; [|split].
  { apply place_gates_spec; [done|]. intros n Hn H2. apply Hns in Hn as [Hn Ha].
    destruct (settled_alive l Hset n) as [Hin Hlive]; [lia|done|]. split; [done|].
    apply Hsup; [done|]. by eapply (placed_node l Hl). }
  { apply foldl_preserves; [apply work_step_tiles|done]. }
  destruct (foldl_view cell_view work_step work_pos work_view (all_work ns) (blank "" 5 5))
    as [Hin Hout].
  { intros st w p. apply work_step_view. }
  { apply NoDup_fmap_2_strong; [|by apply all_work_NoDup].
    intros [n [[i j] v]] [n' [[i' j'] v']] Hw Hw' E.
    apply work_inside in Hw as Hp; [|done]. apply work_inside in Hw' as Hp'; [|done].
    destruct Hp as (Ht & Hi & Hj & Hat & He & Hp), Hp' as (Ht' & Hi' & Hj' & Hat' & He' & Hp').
    rewrite Hp, Hp' in E. apply cell_position_inj in E as (E & -> & ->); [|by destruct Ht as [-> _], Ht' as [-> _]|done..].
    assert (n = n') as <- by congruence.
    apply elem_of_all_work in Hw as (_ & _ & Hv), Hw' as (_ & _ & Hv'). congruence. }
  intros t i j Ht Hi Hj. unfold tile_view, tile_cell. fold (all_work ns).
  destruct (is_empty_tile s t) eqn:He.
  - rewrite Hout; [done|]. intros ([n [[i' j'] v]] & Hp & Hw)%list_elem_of_fmap.
    apply work_inside in Hw as (Ht' & Hi' & Hj' & _ & He' & Hp'); [|done].
    rewrite Hp' in Hp. apply cell_position_inj in Hp as (-> & _); [congruence| |done..].
    by destruct Ht as [-> _], Ht' as [-> _].
  - destruct (hosted l Hl t) as [Hn Hat]; [apply Hf|done|done|].
    destruct (proj2 (gate_cell_shape 5 5 _ i j (gate_of_shape t Ht He)) (conj Hi Hj)) as [v Hv].
    assert ((get_node_at s t, (i, j, v)) ∈ all_work ns) as Hw.
    { apply elem_of_all_work. rewrite Hat. split_and!; [|lia|done].
      apply Hns. split; [lia|]. by apply (settled_hosted l Hset). }
    apply work_inside in Hw as Hp; [|done]. destruct Hp as (_ & _ & _ & _ & _ & Hp).
    rewrite Hat in Hp. rewrite <-Hp, Hin by done. rewrite Hv. simpl. rewrite !orb_false_r.
    destruct (Qca.is_empty_cell v) eqn:E; [apply Z.eqb_eq in E as ->|]; done.
Qed.

(** *** The cell-level layout *)

#[local] Abbreviation cells := (Apply.cell_clocked l).
#[local] Abbreviation cell_dim := (Cartesian.dimension (Clocked.coordinate_layout cells)).

Lemma cell_dim_eq : cell_dim = UCoord 0 (uz dim) (5 * (uy dim + 1) - 1) (5 * (ux dim + 1) - 1).
Proof.
  destruct Hf as (Hd & Hx & Hy & _). pose proof (proper_dimension_bounds _ Hd).
  unfold Apply.cell_clocked, Cartesian.x, Cartesian.y, Cartesian.z; simpl. unfold ucoord3.
  rewrite !(wrap_small 64) by (unfold in_width; lia).
  rewrite !wrap_small by (unfold in_width; lia). f_equal; lia.
Qed.

Lemma cell_dim_steppable : steppable cell_dim.
Proof.
  rewrite cell_dim_eq. destruct Hf as (Hd & Hx & Hy & _). pose proof (proper_dimension_bounds _ Hd).
  unfold steppable, wf, in_width; simpl. lia.
Qed.

Lemma cell_dim_volume :
  Coordinates.volume cell_dim = 25 * (ux dim + 1) * (uy dim + 1) * (uz dim + 1).
Proof.
  pose proof cell_dim_steppable as Hs. destruct (size_exact cell_dim) as (Ha & -> & _); [apply Hs|].
  rewrite Ha, cell_dim_eq. simpl. lia.
Qed.

(** A cell above the ground layer within the layout, and its tile. *)
Lemma cell_above t i j v :
  inside dim t → (i < 5)%nat → (j < 5)%nat → inside cell_dim v →
  ux v = ux (cell_position t i j) → uy v = uy (cell_position t i j) →
  let t' := UCoord 0 (uz v) (uy t) (ux t) in inside dim t' ∧ v = cell_position t' i j.
Proof.
  intros Ht Hi Hj Hv Hx Hy t'. rewrite cell_dim_eq in Hv. unfold inside in *. simpl in *.
  split; [lia|]. destruct v; simpl in *. unfold cell_position; simpl. f_equal; lia.
Qed.

(** The cell whose ground cell is that of a tile. *)
Lemma ground_position t i j v :
  inside dim t → (i < 5)%nat → (j < 5)%nat → inside cell_dim v →
  cell_position t i j = ground v →
  uz t = 0 ∧ ux v = ux (cell_position t i j) ∧ uy v = uy (cell_position t i j).
Proof.
  intros Ht Hi Hj Hv E. rewrite cell_dim_eq in Hv. unfold inside in Hv. simpl in Hv.
  destruct Hf as (Hd & Hfx & Hfy & _). pose proof (proper_dimension_bounds _ Hd).
  unfold ground, ucoord3 in E. rewrite !wrap_small in E by (unfold in_width; lia).
  unfold cell_position in *. simplify_eq. simpl. lia.
Qed.

Lemma cell_clock_number st t i j :
  inside dim t → (i < 5)%nat → (j < 5)%nat →
  CellLevel.tile_size_x st = 5 → CellLevel.tile_size_y st = 5 →
  CellLevel.get_clock_number (CellLevel.CellLevelLayout cells st) (cell_position t i j) =
    Some (Clocked.get_clock_number (clocked l) t).
Proof.
  intros Ht Hi Hj Hx Hy. unfold CellLevel.get_clock_number. simpl. rewrite Hx, Hy. simpl.
  unfold Clocked.get_clock_number. simpl. do 2 f_equal.
  destruct Hf as (Hd & Hfx & Hfy & _). pose proof (proper_dimension_bounds _ Hd).
  replace ((5 * ux t + Z.of_nat j) / 5) with (ux t) by (apply (Z.div_unique _ _ _ (Z.of_nat j)); lia).
  replace ((5 * uy t + Z.of_nat i) / 5) with (uy t) by (apply (Z.div_unique _ _ _ (Z.of_nat i)); lia).
  unfold inside in Ht. unfold ucoord3. rewrite !wrap_small by (unfold in_width; lia).
  destruct t; simpl in *. f_equal; lia.
Qed.

(** The optimization changes a cell only below one of the crossing layer. *)
Lemma optimized_type st st' t i j :
  (∀ t i j, inside dim t → (i < 5)%nat → (j < 5)%nat →
            CellLevel.get_cell_type st (cell_position t i j) = tile_cell t i j) →
  via_effect cells st (nested_loops cell_dim) st' →
  inside dim t → (i < 5)%nat → (j < 5)%nat →
  let p := cell_position t i j in
  CellLevel.get_cell_type st' p = tile_cell t i j ∨
  uz t = 0 ∧ CellLevel.get_cell_type st' p = Qca.NORMAL ∧
  CellLevel.get_cell_mode st' p = Qca.MODE_VERTICAL ∧
  ∃ k, 0 < k <= uz dim ∧ tile_cell (UCoord 0 k (uy t) (ux t)) i j ≠ Qca.EMPTY.
Proof.
  intros Hst Heff Ht Hi Hj p. rewrite (via_type _ _ _ _ Heff), (via_mode _ _ _ _ Heff).
  case_decide as Hg; [right|left; by apply Hst].
  rewrite decide_True by (apply elem_of_app; by right).
  apply list_elem_of_fmap in Hg as (v & Hp & Hv). apply list_elem_of_In, filter_In in Hv as [Hin Hvia].
  apply list_elem_of_In, elem_of_nested_loops in Hin; [|apply cell_dim_steppable].
  destruct (ground_position t i j v) as (Hz & Hx & Hy); [done..|].
  split_and!; [done..|]. destruct (cell_above t i j v) as [Ht' Hv']; [done..|].
  exists (uz v). unfold is_via in Hvia. rewrite !andb_true_iff in Hvia. destruct Hvia as [[Hup Hne] _].
  split; [unfold inside in Ht'; simpl in Ht'; lia|].
  rewrite Hv' in Hne. unfold CellLevel.is_empty_cell in Hne. rewrite Hst in Hne by done.
  intros E. simpl in Hne. rewrite E in Hne. done.
Qed.
End Placed.
End QcaOneApplied.

(** * Properties *)

(** C3: The pass with QCA ONE is correct on every Cartesian gate-level layout that is well-formed and
    settled, whose cells fit the coordinates, and for whose tiles the library has gates: it
    terminates without an exception, and in its result each tile of the gate-level layout is the
    block of 5 x 5 cells that the library sets up for its gate, an empty tile an empty block. The
    only cells that differ are normal vertical cells on the ground layer below cells of the crossing
    layer. Inputs and outputs are the cells of these types, named like the node of the tile, and
    every cell has the clock number of its tile. *)
Theorem apply_gate_library_realizes `{GateLevel.Mockturtle}
    (l : GateLevel.gate_level_layout cartesian) (fuel : nat) :
  let dim := Cartesian.dimension (Clocked.coordinate_layout (GateLevel.clocked l)) in
  layout_wf l → settled l → supported l → fits l →
  25 * (ux dim + 1) * (uy dim + 1) * (uz dim + 1) < Z.of_nat fuel →
  ∃ c, Apply.apply_gate_library fuel l = Some (Apply.Done c) ∧
  CellLevel.get_layout_name (CellLevel.strg c) = GateLevel.get_layout_name (GateLevel.strg l) ∧
  ∀ t i j, inside dim t → (i < 5)%nat → (j < 5)%nat →
    let p := cell_position t i j in
    let v := tile_cell l t i j in
    let s := CellLevel.strg c in
    (CellLevel.get_cell_type s p = v ∨
     uz t = 0 ∧ CellLevel.get_cell_type s p = Qca.NORMAL ∧
     CellLevel.get_cell_mode s p = Qca.MODE_VERTICAL ∧
     ∃ k, 0 < k <= uz dim ∧ tile_cell l (UCoord 0 k (uy t) (ux t)) i j ≠ Qca.EMPTY) ∧
    CellLevel.get_cell_name s p =
      (if Qca.is_input_cell v || Qca.is_output_cell v
       then GateLevel.get_name (GateLevel.strg l) (GateLevel.get_node_at (GateLevel.strg l) t) else "") ∧
    CellLevel.is_pi s p = Qca.is_input_cell v ∧ CellLevel.is_po s p = Qca.is_output_cell v ∧
    CellLevel.get_clock_number c p = Some (Clocked.get_clock_number (GateLevel.clocked l) t).
Proof.
  intros dim Hl Hset Hsup Hf Hfuel.
  destruct (placed_cells l Hl Hset Hsup Hf) as (ns & st & Ens & Est & Hts & Hview).
  pose proof (cell_dim_steppable l Hf) as Hstep.
  destruct (vias_set_up (Apply.cell_clocked l) fuel st Hstep) as (s' & Es & Heff).
  { by rewrite cell_dim_volume. }
  exists (CellLevel.CellLevelLayout (Apply.cell_clocked l)
    (CellLevel.set_layout_name s' (GateLevel.get_layout_name (GateLevel.strg l)))).
  split; [|split; [done|]].
  { unfold Apply.apply_gate_library. rewrite Ens. cbn [mbind option_bind].
    change (CellLevel.strg (CellLevel.make _ _ _ _)) with (blank "" 5 5). rewrite Est. simpl.
    by rewrite Es. }
  intros t i j Ht Hi Hj p v s. specialize (Hview t i j Ht Hi Hj) as Hv.
  unfold cell_view, tile_view in Hv. injection Hv as Htype Hname Hpi Hpo.
  split_and!.
  - apply (optimized_type l Hf st s' t i j); [|done..].
    intros t' i' j' Ht' Hi' Hj'. specialize (Hview t' i' j' Ht' Hi' Hj').
    by injection Hview as -> _ _ _.
  - transitivity (CellLevel.get_cell_name s' p); [done|]. by rewrite (via_name _ _ _ _ Heff).
  - unfold v. rewrite <-Hpi. destruct (via_io _ _ _ _ Heff) as [Hi' _].
    unfold CellLevel.is_pi. simpl. by rewrite Hi'.
  - unfold v. rewrite <-Hpo. destruct (via_io _ _ _ _ Heff) as [_ Ho'].
    unfold CellLevel.is_po. simpl. by rewrite Ho'.
  - destruct (via_tiles _ _ _ _ Heff) as [Hx Hy]. apply cell_clock_number; try done; simpl; lia.
Qed.

(** The layout with an AND gate of QcaOneProperties is well-formed. *)
Lemma and_layout_spec : layout_wf and_layout ∧ GateLevel.clocked and_layout = and_clocked.
Proof.
  destruct (make_spec and_clocked "and") as (l0 & E0 & Hl & Hc & Ha).
  destruct (run_implements l0 and_ops Hl) as (l & E & Hl' & Hc' & _).
  - rewrite Ha. vm_compute. repeat split; discriminate.
  - assert (and_layout = l) as ->; [|split; [done|congruence]].
    unfold and_layout. rewrite E0. cbn [mbind option_bind]. by rewrite E.
Qed.

Lemma apply_gate_library_realizes_witness :
  ∃ c, Apply.apply_gate_library 801 and_layout = Some (Apply.Done c) ∧
  ∀ i j, (i < 5)%nat → (j < 5)%nat →
    CellLevel.get_clock_number c (cell_position and_tile i j) =
    Some (Clocked.get_clock_number (GateLevel.clocked and_layout) and_tile).
Proof.
  destruct and_layout_spec as [Hl Hc].
  destruct (apply_gate_library_realizes and_layout 801) as (c & Ec & _ & Hcells).
  - exact Hl.
  - apply settled_sound; [rewrite Hc|]; clear Hl Hc; by vm_compute.
  - apply supported_sound; [rewrite Hc|]; clear Hl Hc; by vm_compute.
  - unfold fits. rewrite Hc. clear Hl Hc. split_and!; by vm_compute.
  - rewrite Hc. clear Hl Hc. by vm_compute.
  - exists c. split; [exact Ec|]. intros i j Hi Hj. apply Hcells; [|exact Hi|exact Hj].
    rewrite Hc. clear. vm_compute. repeat split; discriminate.
Defined.
