(* ===== verification/SidbBestagonLibrary.v ===== *)
(** * The Bestagon library (include/fiction/technology/sidb_bestagon_library.hpp)

    The gates of 60 x 46 cells for hexagonal tiles, the lookup tables from ports to gates, and
    [set_up_gate], which selects the gate for a tile of a gate-level layout with pointy-top hexagons.
    The theorems are in [SidbBestagonProperties.v]. *)

From S2P Require Import Prelude.
From S2P Require Import Coordinates.
From S2P Require Import CoordinateLayout.
From S2P Require Import HexagonalLayout.
From S2P Require Import ClockingScheme.
From S2P Require Import ClockedLayout.
From S2P Require Import GateLevelLayout.
From S2P Require Import CellTechnology.
From S2P Require Import CellPorts.
From S2P Require Import FcnGateLibrary.
#[local] Open Scope Z_scope.
Import Offset.

#[local] Existing Instance Sidb.sidb_technology.

Module Bestagon.

(** ** Gates *)

Definition STRAIGHT_WIRE : fcn_gate :=
  gate_rows
    ["                                                            ";
     "                                                            ";
     "                                                            ";
     "                                                            ";
     "                                                            ";
     "                                                            ";
     "                x               x                           ";
     "                                                            ";
     "                  x                                         ";
     "                                                            ";
     "                      x                                     ";
     "                                                            ";
     "                        x                                   ";
     "                                                            ";
     "                                                            ";
     "                                                            ";
     "                                                            ";
     "                         x                                  ";
     "                                                            ";
     "                                                            ";
     "                         x                                  ";
     "                                                            ";
     "                                                            ";
     "                                                            ";
     "                                                            ";
     "                         x                                  ";
     "                                                            ";
     "                                                            ";
     "                         x                                  ";
     "                                                            ";
     "                                                            ";
     "                                                            ";
     "                        x                                   ";
     "                                                            ";
     "                      x                                     ";
     "                                                            ";
     "                  x                                         ";
     "                                                            ";
     "                x                                           ";
     "                                                            ";
     "                                                            ";
     "                                                            ";
     "                                                            ";
     "                                                            ";
     "                                                            ";
     "                                                            "].

Definition MIRRORED_STRAIGHT_WIRE : fcn_gate :=
  gate_rows
    ["                                                            ";
     "                                                            ";
     "                                                            ";
     "                                                            ";
     "                                                            ";
     "                                                            ";
     "                                                            ";
     "                          x               x                 ";
     "                                                            ";
     "                                        x                   ";
     "                                                            ";
     "                                    x                       ";
     "                                                            ";
     "                                  x                         ";
     "                                                            ";
     "                                                            ";
     "                                                            ";
     "                                 x                          ";
     "                                                            ";
     "                                                            ";
     "                                 x                          ";
     "                                                            ";
     "                                                            ";
     "                                                            ";
     "                                                            ";
     "                                 x                          ";
     "                                                            ";
     "                                                            ";
     "                                 x                          ";
     "                                                            ";
     "                                                            ";
     "                                                            ";
     "                                                            ";
     "                                  x                         ";
     "                                                            ";
     "                                    x                       ";
     "                                                            ";
     "                                        x                   ";
     "                                                            ";
     "                                          x                 ";
     "                                                            ";
     "                                                            ";
     "                                                            ";
     "                                                            ";
     "                                                            ";
     "                                                            "].

Definition DIAGONAL_WIRE : fcn_gate :=
  gate_rows
    ["                                                            ";
     "                                                            ";
     "                                                            ";
     "                                                            ";
     "                                                            ";
     "                                                            ";
     "                x                                           ";
     "                                                            ";
     "                  x                                         ";
     "                                                            ";
     "                      x                                     ";
     "                                                            ";
     "                        x                                   ";
     "                                                            ";
     "                                                            ";
     "                                                            ";
     "                           x      x                         ";
     "                                                            ";
     "                                                            ";
     "                            x                               ";
     "                                                            ";
     "                                                            ";
     "                                                            ";
     "                                                            ";
     "                                                            ";
     "                                                            ";
     "                             x                              ";
     "                                                            ";
     "                                                            ";
     "                        x     x                             ";
     "                                                            ";
     "                                                            ";
     "                                  x                         ";
     "                                                            ";
     "                                    x                       ";
     "                                                            ";
     "                                        x                   ";
     "                                                            ";
     "                                          x                 ";
     "                                                            ";
     "                                                            ";
     "                                                            ";
     "                                                            ";
     "                                                            ";
     "                                                            ";
     "                                                            "].

Definition MIRRORED_DIAGONAL_WIRE : fcn_gate :=
  gate_rows
    ["                                                            ";
     "                                                            ";
     "                                                            ";
     "                                                            ";
     "                                                            ";
     "                                                            ";
     "                                          x                 ";
     "                                                            ";
     "                                        x                   ";
     "                                                            ";
     "                                    x                       ";
     "                                                            ";
     "                                  x                         ";
     "                                                            ";
     "                                                            ";
     "                                                            ";
     "                        x      x                            ";
     "                                                            ";
     "                                                            ";
     "                              x                             ";
     "                                                            ";
     "                                                            ";
     "                                                            ";
     "                                                            ";
     "                                                            ";
     "                                                            ";
     "                             x                              ";
     "                                                            ";
     "                                                            ";
     "                            x     x                         ";
     "                                                            ";
     "                                                            ";
     "                        x                                   ";
     "                                                            ";
     "                      x                                     ";
     "                                                            ";
     "                  x                                         ";
     "                                                            ";
     "                x                                           ";
     "                                                            ";
     "                                                            ";
     "                                                            ";
     "                                                            ";
     "                                                            ";
     "                                                            ";
     "                                                            "].

Definition STRAIGHT_INVERTER : fcn_gate :=
  gate_rows
    ["                                                            ";
     "                                                            ";
     "                                                            ";
     "                                                            ";
     "                                                            ";
     "                                                            ";
     "                x                                           ";
     "                                                            ";
     "                  x                                         ";
     "                                                            ";
     "                      x                                     ";
     "                                                            ";
     "                        x          x                        ";
     "                                                            ";
     "                                                            ";
     "                                                            ";
     "                                                            ";
     "                                                            ";
     "                           x    x                           ";
     "                                                            ";
     "                                                            ";
     "                                                            ";
     "                           x    x                           ";
     "                                                            ";
     "                                                            ";
     "                                                            ";
     "                           x    x                           ";
     "                                                            ";
     "                                                            ";
     "                                                            ";
     "                                                            ";
     "                                                            ";
     "                        x          x                        ";
     "                                                            ";
     "                      x                                     ";
     "                                                            ";
     "                  x                                         ";
     "                                                            ";
     "                x                                           ";
     "                                                            ";
     "                                                            ";
     "                                                            ";
     "                                                            ";
     "                                                            ";
     "                                                            ";
     "                                                            "].

Definition MIRRORED_STRAIGHT_INVERTER : fcn_gate :=
  gate_rows
    ["                                                            ";
     "                                                            ";
     "                                                            ";
     "                                                            ";
     "                                                            ";
     "                                                            ";
     "                                          x                 ";
     "                                                            ";
     "                                        x                   ";
     "                                                            ";
     "                                    x                       ";
     "                                                            ";
     "                       x          x                         ";
     "                                                            ";
     "                                                            ";
     "                                                            ";
     "                                                            ";
     "                                                            ";
     "                          x    x                            ";
     "                                                            ";
     "                                                            ";
     "                                                            ";
     "                          x    x                            ";
     "                                                            ";
     "                                                            ";
     "                                                            ";
     "                          x    x                            ";
     "                                                            ";
     "                                                            ";
     "                                                            ";
     "                                                            ";
     "                                                            ";
     "                       x          x                         ";
     "                                                            ";
     "                                    x                       ";
     "                                                            ";
     "                                        x                   ";
     "                                                            ";
     "                                          x                 ";
     "                                                            ";
     "                                                            ";
     "                                                            ";
     "                                                            ";
     "                                                            ";
     "                                                            ";
     "                                                            "].

Definition DIAGONAL_INVERTER : fcn_gate :=
  gate_rows
    ["                                                            ";
     "                                                            ";
     "                                                            ";
     "                                                            ";
     "                                                            ";
     "                                                            ";
     "                x                                           ";
     "                                                            ";
     "                  x          x                              ";
     "                                                            ";
     "                      x                                     ";
     "                                                            ";
     "                        x          x                        ";
     "                                                            ";
     "                                                            ";
     "                                                            ";
     "                                                            ";
     "                                                            ";
     "                                                            ";
     "                                                            ";
     "                           x   x                            ";
     "                                                            ";
     "                                                            ";
     "                                                            ";
     "                           x   x                            ";
     "                                                            ";
     "                                                            ";
     "                                                            ";
     "                                                            ";
     "                                                            ";
     "                                                            ";
     "                                                            ";
     "                       x          x                         ";
     "                                                            ";
     "                                    x                       ";
     "                                                            ";
     "                             x          x                   ";
     "                                                            ";
     "                                          x                 ";
     "                                                            ";
     "                                                            ";
     "                                                            ";
     "                                                            ";
     "                                                            ";
     "                                                            ";
     "                                                            "].

Definition MIRRORED_DIAGONAL_INVERTER : fcn_gate :=
  gate_rows
    ["                                                            ";
     "                                                            ";
     "                                                            ";
     "                                                            ";
     "                                                            ";
     "                                                            ";
     "                                          x                 ";
     "                                                            ";
     "                             x          x                   ";
     "                                                            ";
     "                                    x                       ";
     "                                                            ";
     "                       x          x                         ";
     "                                                            ";
     "                                                            ";
     "                                                            ";
     "                                                            ";
     "                                                            ";
     "                                                            ";
     "                                                            ";
     "                           x   x                            ";
     "                                                            ";
     "                                                            ";
     "                                                            ";
     "                           x   x                            ";
     "                                                            ";
     "                                                            ";
     "                                                            ";
     "                                                            ";
     "                                                            ";
     "                                                            ";
     "                                                            ";
     "                        x          x                        ";
     "                                                            ";
     "                      x                                     ";
     "                                                            ";
     "                  x          x                              ";
     "                                                            ";
     "                x                                           ";
     "                                                            ";
     "                                                            ";
     "                                                            ";
     "                                                            ";
     "                                                            ";
     "                                                            ";
     "                                                            "].

Definition CONJUNCTION : fcn_gate :=
  gate_rows
    ["                                                            ";
     "                                                            ";
     "                                                            ";
     "                                                            ";
     "                                                            ";
     "                                                            ";
     "                x                         x                 ";
     "                                                            ";
     "                  x                     x                   ";
     "                                                            ";
     "                      x             x                       ";
     "                                                            ";
     "                        x         x                         ";
     "                                                            ";
     "                                                            ";
     "                                                            ";
     "                                                            ";
     "                                                            ";
     "                             x                              ";
     "                                                            ";
     "                            x    x                          ";
     "                                                            ";
     "                                                            ";
     "                                                            ";
     "                                                            ";
     "                            x                               ";
     "                                                            ";
     "                                                            ";
     "                             x                              ";
     "                                                            ";
     "                              x                             ";
     "                                                            ";
     "                                  x                         ";
     "                                                            ";
     "                                    x                       ";
     "                                                            ";
     "                                        x                   ";
     "                                                            ";
     "                                          x                 ";
     "                                                            ";
     "                                                            ";
     "                                                            ";
     "                                                            ";
     "                                                            ";
     "                                                            ";
     "                                                            "].

Definition MIRRORED_CONJUNCTION : fcn_gate :=
  gate_rows
    ["                                                            ";
     "                                                            ";
     "                                                            ";
     "                                                            ";
     "                                                            ";
     "                                                            ";
     "                x                         x                 ";
     "                                                            ";
     "                  x                     x                   ";
     "                                                            ";
     "                      x             x                       ";
     "                                                            ";
     "                        x         x                         ";
     "                                                            ";
     "                                                            ";
     "                                                            ";
     "                                                            ";
     "                                                            ";
     "                             x                              ";
     "                                                            ";
     "                         x    x                             ";
     "                                                            ";
     "                                                            ";
     "                                                            ";
     "                                                            ";
     "                              x                             ";
     "                                                            ";
     "                                                            ";
     "                             x                              ";
     "                                                            ";
     "                            x                               ";
     "                                                            ";
     "                        x                                   ";
     "                                                            ";
     "                      x                                     ";
     "                                                            ";
     "                  x                                         ";
     "                                                            ";
     "                x                                           ";
     "                                                            ";
     "                                                            ";
     "                                                            ";
     "                                                            ";
     "                                                            ";
     "                                                            ";
     "                                                            "].

Definition DISJUNCTION : fcn_gate :=
  gate_rows
    ["                                                            ";
     "                                                            ";
     "                                                            ";
     "                                                            ";
     "                                                            ";
     "                                                            ";
     "                x                         x                 ";
     "                                                            ";
     "                  x                     x                   ";
     "                                                            ";
     "                      x             x                       ";
     "                                                            ";
     "                        x         x                         ";
     "                                                            ";
     "                                                            ";
     "                                                            ";
     "                                                            ";
     "                                                            ";
     "                           x                                ";
     "                                                            ";
     "                                x                           ";
     "                           x                                ";
     "                                                            ";
     "                             x                              ";
     "                                                            ";
     "                                                            ";
     "                                                            ";
     "                                                            ";
     "                             x                              ";
     "                                                            ";
     "                              x                             ";
     "                                                            ";
     "                                  x                         ";
     "                                                            ";
     "                                    x                       ";
     "                                                            ";
     "                                        x                   ";
     "                                                            ";
     "                                          x                 ";
     "                                                            ";
     "                                                            ";
     "                                                            ";
     "                                                            ";
     "                                                            ";
     "                                                            ";
     "                                                            "].

Definition MIRRORED_DISJUNCTION : fcn_gate :=
  gate_rows
    ["                                                            ";
     "                                                            ";
     "                                                            ";
     "                                                            ";
     "                                                            ";
     "                                                            ";
     "                x                         x                 ";
     "                                                            ";
     "                  x                     x                   ";
     "                                                            ";
     "                      x             x                       ";
     "                                                            ";
     "                        x         x                         ";
     "                                                            ";
     "                                                            ";
     "                                                            ";
     "                                                            ";
     "                                                            ";
     "                               x                            ";
     "                                                            ";
     "                          x                                 ";
     "                               x                            ";
     "                                                            ";
     "                             x                              ";
     "                                                            ";
     "                                                            ";
     "                                                            ";
     "                                                            ";
     "                             x                              ";
     "                                                            ";
     "                            x                               ";
     "                                                            ";
     "                        x                                   ";
     "                                                            ";
     "                      x                                     ";
     "                                                            ";
     "                  x                                         ";
     "                                                            ";
     "                x                                           ";
     "                                                            ";
     "                                                            ";
     "                                                            ";
     "                                                            ";
     "                                                            ";
     "                                                            ";
     "                                                            "].

Definition NEGATED_CONJUNCTION : fcn_gate :=
  gate_rows
    ["                                                            ";
     "                                                            ";
     "                                                            ";
     "                                                            ";
     "                                                            ";
     "                                                            ";
     "                x                         x                 ";
     "                                                            ";
     "                  x                     x                   ";
     "                                                            ";
     "                      x             x                       ";
     "                                                            ";
     "                        x         x                         ";
     "                                                            ";
     "                                                            ";
     "                                                            ";
     "                                                            ";
     "                                                            ";
     "                                                            ";
     "                                                            ";
     "                                                            ";
     "                              x                             ";
     "                                                            ";
     "                           x                                ";
     "                                                            ";
     "                                                            ";
     "                                                            ";
     "                                                            ";
     "                             x                              ";
     "                                                            ";
     "                              x                             ";
     "                                                            ";
     "                                  x                         ";
     "                                                            ";
     "                                    x                       ";
     "                                                            ";
     "                                        x                   ";
     "                                                            ";
     "                                          x                 ";
     "                                                            ";
     "                                                            ";
     "                                                            ";
     "                                                            ";
     "                                                            ";
     "                                                            ";
     "                                                            "].

Definition MIRRORED_NEGATED_CONJUNCTION : fcn_gate :=
  gate_rows
    ["                                                            ";
     "                                                            ";
     "                                                            ";
     "                                                            ";
     "                                                            ";
     "                                                            ";
     "                x                         x                 ";
     "                                                            ";
     "                  x                     x                   ";
     "                                                            ";
     "                      x             x                       ";
     "                                                            ";
     "                        x         x                         ";
     "                                                            ";
     "                                                            ";
     "                                                            ";
     "                                                            ";
     "                                                            ";
     "                                                            ";
     "                                                            ";
     "                                                            ";
     "                            x                               ";
     "                                                            ";
     "                               x                            ";
     "                                                            ";
     "                                                            ";
     "                                                            ";
     "                                                            ";
     "                             x                              ";
     "                                                            ";
     "                            x                               ";
     "                                                            ";
     "                        x                                   ";
     "                                                            ";
     "                      x                                     ";
     "                                                            ";
     "                  x                                         ";
     "                                                            ";
     "                x                                           ";
     "                                                            ";
     "                                                            ";
     "                                                            ";
     "                                                            ";
     "                                                            ";
     "                                                            ";
     "                                                            "].

Definition NEGATED_DISJUNCTION : fcn_gate :=
  gate_rows
    ["                                                            ";
     "                                                            ";
     "                                                            ";
     "                                                            ";
     "                                                            ";
     "                                                            ";
     "                x                         x                 ";
     "                                                            ";
     "                  x                     x                   ";
     "                                                            ";
     "                      x             x                       ";
     "                                                            ";
     "                        x         x                         ";
     "                                                            ";
     "                                                            ";
     "                                                            ";
     "                                                            ";
     "                                                            ";
     "                                                            ";
     "                                                            ";
     "                                                            ";
     "                            x                               ";
     "                                                            ";
     "                                                            ";
     "                            x                               ";
     "                                                            ";
     "                                                            ";
     "                                                            ";
     "                             x                              ";
     "                                                            ";
     "                              x                             ";
     "                                                            ";
     "                                  x                         ";
     "                                                            ";
     "                                    x                       ";
     "                                                            ";
     "                                        x                   ";
     "                                                            ";
     "                                          x                 ";
     "                                                            ";
     "                                                            ";
     "                                                            ";
     "                                                            ";
     "                                                            ";
     "                                                            ";
     "                                                            "].

Definition MIRRORED_NEGATED_DISJUNCTION : fcn_gate :=
  gate_rows
    ["                                                            ";
     "                                                            ";
     "                                                            ";
     "                                                            ";
     "                                                            ";
     "                                                            ";
     "                x                         x                 ";
     "                                                            ";
     "                  x                     x                   ";
     "                                                            ";
     "                      x             x                       ";
     "                                                            ";
     "                        x         x                         ";
     "                                                            ";
     "                                                            ";
     "                                                            ";
     "                                                            ";
     "                                                            ";
     "                                                            ";
     "                                                            ";
     "                                                            ";
     "                              x                             ";
     "                                                            ";
     "                                                            ";
     "                              x                             ";
     "                                                            ";
     "                                                            ";
     "                                                            ";
     "                             x                              ";
     "                                                            ";
     "                            x                               ";
     "                                                            ";
     "                        x                                   ";
     "                                                            ";
     "                      x                                     ";
     "                                                            ";
     "                  x                                         ";
     "                                                            ";
     "                x                                           ";
     "                                                            ";
     "                                                            ";
     "                                                            ";
     "                                                            ";
     "                                                            ";
     "                                                            ";
     "                                                            "].

Definition EXCLUSIVE_DISJUNCTION : fcn_gate :=
  gate_rows
    ["                                                            ";
     "                                                            ";
     "                                                            ";
     "                                                            ";
     "                                                            ";
     "                                                            ";
     "                x                         x                 ";
     "                                                            ";
     "                  x                     x                   ";
     "                                                            ";
     "                      x             x                       ";
     "                                                            ";
     "                        x         x                         ";
     "                                                            ";
     "                                                            ";
     "                                                            ";
     "                         x                                  ";
     "                                                            ";
     "                             x                              ";
     "                                                            ";
     "                                                            ";
     "                           x                                ";
     "                                                            ";
     "                                                            ";
     "                              x                             ";
     "                                                            ";
     "                                                            ";
     "                                                            ";
     "                             x                              ";
     "                                                            ";
     "                              x                             ";
     "                                                            ";
     "                                  x                         ";
     "                                                            ";
     "                                    x                       ";
     "                                                            ";
     "                                        x                   ";
     "                                                            ";
     "                                          x                 ";
     "                                                            ";
     "                                                            ";
     "                                                            ";
     "                                                            ";
     "                                                            ";
     "                                                            ";
     "                                                            "].

Definition MIRRORED_EXCLUSIVE_DISJUNCTION : fcn_gate :=
  gate_rows
    ["                                                            ";
     "                                                            ";
     "                                                            ";
     "                                                            ";
     "                                                            ";
     "                                                            ";
     "                x                         x                 ";
     "                                                            ";
     "                  x                     x                   ";
     "                                                            ";
     "                      x             x                       ";
     "                                                            ";
     "                        x         x                         ";
     "                                                            ";
     "                                                            ";
     "                                                            ";
     "                                 x                          ";
     "                                                            ";
     "                             x                              ";
     "                                                            ";
     "                                                            ";
     "                               x                            ";
     "                                                            ";
     "                                                            ";
     "                            x                               ";
     "                                                            ";
     "                                                            ";
     "                                                            ";
     "                             x                              ";
     "                                                            ";
     "                            x                               ";
     "                                                            ";
     "                        x                                   ";
     "                                                            ";
     "                      x                                     ";
     "                                                            ";
     "                  x                                         ";
     "                                                            ";
     "                x                                           ";
     "                                                            ";
     "                                                            ";
     "                                                            ";
     "                                                            ";
     "                                                            ";
     "                                                            ";
     "                                                            "].

Definition NEGATED_EXCLUSIVE_DISJUNCTION : fcn_gate :=
  gate_rows
    ["                                                            ";
     "                                                            ";
     "                                                            ";
     "                                                            ";
     "                                                            ";
     "                                                            ";
     "                x                         x                 ";
     "                                                            ";
     "                  x                     x                   ";
     "                                                            ";
     "                      x             x                       ";
     "                                                            ";
     "                        x         x                         ";
     "                                                            ";
     "                                                            ";
     "                                                            ";
     "                                                            ";
     "                              x                             ";
     "                                                            ";
     "                                                            ";
     "                                                            ";
     "                                                            ";
     "                               x                            ";
     "                         x  x                               ";
     "                                                            ";
     "                                                            ";
     "                                                            ";
     "                                                            ";
     "                             x                              ";
     "                                                            ";
     "                              x                             ";
     "                                                            ";
     "                                  x                         ";
     "                                                            ";
     "                                    x                       ";
     "                                                            ";
     "                                        x                   ";
     "                                                            ";
     "                                          x                 ";
     "                                                            ";
     "                                                            ";
     "                                                            ";
     "                                                            ";
     "                                                            ";
     "                                                            ";
     "                                                            "].

Definition MIRRORED_NEGATED_EXCLUSIVE_DISJUNCTION : fcn_gate :=
  gate_rows
    ["                                                            ";
     "                                                            ";
     "                                                            ";
     "                                                            ";
     "                                                            ";
     "                                                            ";
     "                x                         x                 ";
     "                                                            ";
     "                  x                     x                   ";
     "                                                            ";
     "                      x             x                       ";
     "                                                            ";
     "                        x         x                         ";
     "                                                            ";
     "                                                            ";
     "                                                            ";
     "                                                            ";
     "                            x                               ";
     "                                                            ";
     "                                                            ";
     "                                                            ";
     "                                                            ";
     "                           x                                ";
     "                              x  x                          ";
     "                                                            ";
     "                                                            ";
     "                                                            ";
     "                                                            ";
     "                             x                              ";
     "                                                            ";
     "                            x                               ";
     "                                                            ";
     "                        x                                   ";
     "                                                            ";
     "                      x                                     ";
     "                                                            ";
     "                  x                                         ";
     "                                                            ";
     "                x                                           ";
     "                                                            ";
     "                                                            ";
     "                                                            ";
     "                                                            ";
     "                                                            ";
     "                                                            ";
     "                                                            "].

Definition FANOUT_1_2 : fcn_gate :=
  gate_rows
    ["                                                            ";
     "                                                            ";
     "                                                            ";
     "                                                            ";
     "                                                            ";
     "                                                            ";
     "                x                                           ";
     "                                                            ";
     "                  x                                         ";
     "                                                            ";
     "                      x                                     ";
     "                                                            ";
     "                        x                                   ";
     "                                                            ";
     "                            x                               ";
     "                                                            ";
     "                             x                              ";
     "                                                            ";
     "                                                            ";
     "                                                            ";
     "                                                            ";
     "                                                            ";
     "                                                            ";
     "                                                            ";
     "                           x                                ";
     "                               x                            ";
     "                                                            ";
     "                                                            ";
     "                            x                               ";
     "                                                            ";
     "                                                            ";
     "                                                            ";
     "                        x         x                         ";
     "                                                            ";
     "                      x             x                       ";
     "                                                            ";
     "                  x                     x                   ";
     "                                                            ";
     "                x                         x                 ";
     "                                                            ";
     "                                                            ";
     "                                                            ";
     "                                                            ";
     "                                                            ";
     "                                                            ";
     "                                                            "].

Definition MIRRORED_FANOUT_1_2 : fcn_gate :=
  gate_rows
    ["                                                            ";
     "                                                            ";
     "                                                            ";
     "                                                            ";
     "                                                            ";
     "                                                            ";
     "                                          x                 ";
     "                                                            ";
     "                                        x                   ";
     "                                                            ";
     "                                    x                       ";
     "                                                            ";
     "                                  x                         ";
     "                                                            ";
     "                              x                             ";
     "                                                            ";
     "                             x                              ";
     "                                                            ";
     "                                                            ";
     "                                                            ";
     "                                                            ";
     "                                                            ";
     "                                                            ";
     "                                                            ";
     "                               x                            ";
     "                           x                                ";
     "                                                            ";
     "                                                            ";
     "                              x                             ";
     "                                                            ";
     "                                                            ";
     "                                                            ";
     "                        x         x                         ";
     "                                                            ";
     "                      x             x                       ";
     "                                                            ";
     "                  x                     x                   ";
     "                                                            ";
     "                x                         x                 ";
     "                                                            ";
     "                                                            ";
     "                                                            ";
     "                                                            ";
     "                                                            ";
     "                                                            ";
     "                                                            "].

Definition CROSSING_WIRE : fcn_gate :=
  gate_rows
    ["                                                            ";
     "                                                            ";
     "                                                            ";
     "                                                            ";
     "                                                            ";
     "                                                            ";
     "                x                         x                 ";
     "                                                            ";
     "                  x                     x                   ";
     "                                                            ";
     "                      x             x                       ";
     "                                                            ";
     "                        x         x                         ";
     "                                                            ";
     "                                                            ";
     "                                                            ";
     "                                                            ";
     "                                                            ";
     "                              x                             ";
     "                                                            ";
     "                        x   x                               ";
     "                                                            ";
     "                                                            ";
     "                                                            ";
     "                                                            ";
     "                        x                                   ";
     "                              x                             ";
     "                                                            ";
     "                                                            ";
     "                          x       x                         ";
     "                                                            ";
     "                                                            ";
     "                        x         x                         ";
     "                                                            ";
     "                      x             x                       ";
     "                                                            ";
     "                  x                     x                   ";
     "                                                            ";
     "                x                         x                 ";
     "                                                            ";
     "                                                            ";
     "                                                            ";
     "                                                            ";
     "                                                            ";
     "                                                            ";
     "                                                            "].

Definition HOURGLASS_DOUBLE_WIRE : fcn_gate :=
  gate_rows
    ["                                                            ";
     "                                                            ";
     "                                                            ";
     "                                                            ";
     "                                                            ";
     "                                                            ";
     "                x                         x                 ";
     "                                                            ";
     "                  x                     x                   ";
     "                                                            ";
     "                      x             x                       ";
     "                                                            ";
     "                        x         x                         ";
     "                                                            ";
     "                                                            ";
     "                                                            ";
     "                                                            ";
     "                        x         x                         ";
     "                                                            ";
     "                                                            ";
     "                    x                 x                     ";
     "                                                            ";
     "                                                            ";
     "                                                            ";
     "                                                            ";
     "                     x               x                      ";
     "                                                            ";
     "                        x         x                         ";
     "                                                            ";
     "                                                            ";
     "                                                            ";
     "                                                            ";
     "                        x         x                         ";
     "                                                            ";
     "                      x             x                       ";
     "                                                            ";
     "                  x                     x                   ";
     "                                                            ";
     "                x                         x                 ";
     "                                                            ";
     "                                                            ";
     "                                                            ";
     "                                                            ";
     "                                                            ";
     "                                                            ";
     "                                                            "].

(** ** Lookup tables *)

(** A port list from the initializer lists of its sets. *)
Definition ports (inp out : list cardinal) : port_list port_direction :=
  let set := λ v, set_of_list direction_ltb ((λ d, make_direction d false false) <$> v) in
  PortList (set inp) (set out).

Definition port_gate_map : Type := list (port_list port_direction * fcn_gate).
Definition double_port_gate_map : Type :=
  list (port_list port_direction * port_list port_direction * fcn_gate).

Definition ports_eqb : port_list port_direction → port_list port_direction → bool :=
  port_list_eqb direction_eqb.
Definition double_ports_eqb (p q : port_list port_direction * port_list port_direction) : bool :=
  ports_eqb p.1 q.1 && ports_eqb p.2 q.2.

(** [at(p)]. *)
Definition gate_at : port_gate_map → port_list port_direction → option fcn_gate := map_at ports_eqb.
Definition double_gate_at :
    double_port_gate_map → port_list port_direction * port_list port_direction → option fcn_gate :=
  map_at double_ports_eqb.

Definition WIRE_MAP : port_gate_map :=
  [(ports [] [SOUTH_WEST], STRAIGHT_WIRE);
   (ports [] [SOUTH_EAST], DIAGONAL_WIRE);
   (ports [NORTH_WEST] [], DIAGONAL_WIRE);
   (ports [NORTH_EAST] [], MIRRORED_STRAIGHT_WIRE);
   (ports [NORTH_WEST] [SOUTH_WEST], STRAIGHT_WIRE);
   (ports [NORTH_EAST] [SOUTH_EAST], MIRRORED_STRAIGHT_WIRE);
   (ports [NORTH_WEST] [SOUTH_EAST], DIAGONAL_WIRE);
   (ports [NORTH_EAST] [SOUTH_WEST], MIRRORED_DIAGONAL_WIRE);
   (ports [] [], EMPTY_GATE 60 46)].

Definition CROSSING_MAP : double_port_gate_map :=
  [(ports [NORTH_WEST] [SOUTH_WEST], ports [NORTH_EAST] [SOUTH_EAST], HOURGLASS_DOUBLE_WIRE);
   (ports [NORTH_EAST] [SOUTH_EAST], ports [NORTH_WEST] [SOUTH_WEST], HOURGLASS_DOUBLE_WIRE);
   (ports [NORTH_WEST] [SOUTH_EAST], ports [NORTH_EAST] [SOUTH_WEST], CROSSING_WIRE);
   (ports [NORTH_EAST] [SOUTH_WEST], ports [NORTH_WEST] [SOUTH_EAST], CROSSING_WIRE)].

Definition INVERTER_MAP : port_gate_map :=
  [(ports [NORTH_WEST] [SOUTH_WEST], STRAIGHT_INVERTER);
   (ports [NORTH_EAST] [SOUTH_EAST], MIRRORED_STRAIGHT_INVERTER);
   (ports [NORTH_WEST] [SOUTH_EAST], DIAGONAL_INVERTER);
   (ports [NORTH_EAST] [SOUTH_WEST], MIRRORED_DIAGONAL_INVERTER);
   (ports [] [SOUTH_WEST], STRAIGHT_INVERTER);
   (ports [] [SOUTH_EAST], DIAGONAL_INVERTER);
   (ports [NORTH_WEST] [], DIAGONAL_INVERTER);
   (ports [NORTH_EAST] [], MIRRORED_STRAIGHT_INVERTER)].

Definition CONJUNCTION_MAP : port_gate_map :=
  [(ports [NORTH_WEST; NORTH_EAST] [SOUTH_EAST], CONJUNCTION);
   (ports [NORTH_WEST; NORTH_EAST] [SOUTH_WEST], MIRRORED_CONJUNCTION)].

Definition DISJUNCTION_MAP : port_gate_map :=
  [(ports [NORTH_WEST; NORTH_EAST] [SOUTH_EAST], DISJUNCTION);
   (ports [NORTH_WEST; NORTH_EAST] [SOUTH_WEST], MIRRORED_DISJUNCTION)].

Definition NEGATED_CONJUNCTION_MAP : port_gate_map :=
  [(ports [NORTH_WEST; NORTH_EAST] [SOUTH_EAST], NEGATED_CONJUNCTION);
   (ports [NORTH_WEST; NORTH_EAST] [SOUTH_WEST], MIRRORED_NEGATED_CONJUNCTION)].

Definition NEGATED_DISJUNCTION_MAP : port_gate_map :=
  [(ports [NORTH_WEST; NORTH_EAST] [SOUTH_EAST], NEGATED_DISJUNCTION);
   (ports [NORTH_WEST; NORTH_EAST] [SOUTH_WEST], MIRRORED_NEGATED_DISJUNCTION)].

Definition EXCLUSIVE_DISJUNCTION_MAP : port_gate_map :=
  [(ports [NORTH_WEST; NORTH_EAST] [SOUTH_EAST], EXCLUSIVE_DISJUNCTION);
   (ports [NORTH_WEST; NORTH_EAST] [SOUTH_WEST], MIRRORED_EXCLUSIVE_DISJUNCTION)].

Definition NEGATED_EXCLUSIVE_DISJUNCTION_MAP : port_gate_map :=
  [(ports [NORTH_WEST; NORTH_EAST] [SOUTH_EAST], NEGATED_EXCLUSIVE_DISJUNCTION);
   (ports [NORTH_WEST; NORTH_EAST] [SOUTH_WEST], MIRRORED_NEGATED_EXCLUSIVE_DISJUNCTION)].

Definition FANOUT_MAP : port_gate_map :=
  [(ports [NORTH_WEST] [SOUTH_EAST; SOUTH_WEST], FANOUT_1_2);
   (ports [NORTH_EAST] [SOUTH_EAST; SOUTH_WEST], MIRRORED_FANOUT_1_2)].

(** ** Gate selection *)

Section SetUp.
Context `{GateLevel.Mockturtle} {h : Hexagonal.hex_arrangement}.
#[local] Abbreviation L := (Hexagonal.hexagonal_layout h).
Import GateLevel.

(** [if (b) s.emplace(d);] *)
Definition emplace_if (b : bool) (d : cardinal) (s : list port_direction) : list port_direction :=
  if b then set_insert direction_ltb (make_direction d false false) s else s.

Definition determine_port_routing (l : gate_level_layout L) (t : ucoord_t) :
    option (port_list port_direction) :=
  ne_in ← has_north_eastern_incoming_signal l t;
  nw_in ← has_north_western_incoming_signal l t;
  let inp := emplace_if nw_in NORTH_WEST (emplace_if ne_in NORTH_EAST []) in
  se_out ← has_south_eastern_outgoing_signal l t;
  sw_out ← has_south_western_outgoing_signal l t;
  let out := emplace_if sw_out SOUTH_WEST (emplace_if se_out SOUTH_EAST []) in
  let n := get_node_at (strg l) t in
  wire ← is_wire (strg l) n;
  inv ← is_inv (strg l) n;
  if negb wire && negb inv then
    no_in ← has_no_incoming_signal l t;
    no_out ← has_no_outgoing_signal l t;
    Some (PortList (emplace_if no_in NORTH_WEST inp) (emplace_if no_out SOUTH_EAST out))
  else Some (PortList inp out).

(** The remaining tests of [set_up_gate], with the table of the gate type. *)
Definition function_tables (l : gate_level_layout L) :
    list ((Z → option bool) * port_gate_map) :=
  let s := strg l in
  [(is_inv s, INVERTER_MAP); (is_and s, CONJUNCTION_MAP); (is_or s, DISJUNCTION_MAP);
   (is_nand s, NEGATED_CONJUNCTION_MAP); (is_nor s, NEGATED_DISJUNCTION_MAP);
   (is_xor s, EXCLUSIVE_DISJUNCTION_MAP); (is_xnor s, NEGATED_EXCLUSIVE_DISJUNCTION_MAP)].

(** The first test that holds decides on the table. *)
Fixpoint set_up_function (tables : list ((Z → option bool) * port_gate_map)) (n : Z) (t : ucoord_t)
    (p : port_list port_direction) : option (gate_result port_direction) :=
  match tables with
  | [] => Some (UnsupportedType t)
  | (test, m) :: tables' =>
      b ← test n;
      if (b : bool) then Some (lookup_result t p (gate_at m p)) else set_up_function tables' n t p
  end.

(** A buffer or a fan-out with another number of outputs than 2. *)
Definition set_up_wire (l : gate_level_layout L) (t : ucoord_t) (p : port_list port_direction) :
    option (gate_result port_direction) :=
  let lyt := Clocked.coordinate_layout (clocked l) in
  if Hexagonal.is_ground_layer lyt t then
    let at_ := Hexagonal.above lyt t in
    crossed ← (if neqb t at_ then is_wire_tile l at_ else Some false);
    if (crossed : bool) then
      pa ← determine_port_routing l at_;
      Some (lookup_result t p (double_gate_at CROSSING_MAP (p, pa)))
    else Some (lookup_result t p (gate_at WIRE_MAP p))
  else Some (Gate (EMPTY_GATE 60 46)).

Definition set_up_gate (l : gate_level_layout L) (t : ucoord_t) :
    option (gate_result port_direction) :=
  let n := get_node_at (strg l) t in
  p ← determine_port_routing l t;
  fanout ← is_fanout l n;
  k ← (if (fanout : bool) then fanout_size l n else Some 0);
  if (fanout && (k =? 2))%bool then Some (lookup_result t p (gate_at FANOUT_MAP p))
  else
    buf ← is_buf (strg l) n;
    if (buf : bool) then set_up_wire l t p else set_up_function (function_tables l) n t p.
End SetUp.
End Bestagon.
