(* ===== verification/SidbBestagonProperties.v ===== *)
(** * Properties of the Bestagon library

    Signals enter and leave the hexagonal tiles of the Bestagon library on arms of dots, one arm for each
    of the four directions. The theorems relate the arms of the gates that [set_up_gate] selects to the
    routing of the tile, and the mirrored gates to those they mirror. *)

From S2P Require Import Prelude.
From S2P Require Import Coordinates.
From S2P Require Import CoordinateLayout.
From S2P Require Import HexagonalLayout.
From S2P Require Import ClockingScheme.
From S2P Require Import ClockedLayout.
From S2P Require Import GateLevelLayout.
From S2P Require Import GateLevelInvariant.
From S2P Require Import MockturtleModel.
From S2P Require Import GateLevelProperties.
From S2P Require Import CellTechnology.
From S2P Require Import CellPorts.
From S2P Require Import FcnGateLibrary.
From S2P Require Import SidbBestagonLibrary.
#[local] Open Scope Z_scope.
Import Offset Bestagon.

#[local] Existing Instance Sidb.sidb_technology.

(** ** Arms *)

(** A dot in row [i] and column [j]. *)
Definition dot (g : fcn_gate) (i j : nat) : Prop := gate_cell g i j = Some Sidb.NORMAL.

#[export] Instance dot_dec g i j : Decision (dot g i j).
Proof. unfold dot. apply _. Defined.

#[export] Instance cardinal_eq_dec : EqDecision cardinal.
Proof. solve_decision. Defined.

Definition directions : list cardinal := [NORTH_EAST; SOUTH_EAST; SOUTH_WEST; NORTH_WEST].

(** The rows and columns of the dots of an arm, downwards. *)
Definition arm (d : cardinal) : list (nat * nat) :=
  match d with
  | NORTH_WEST => [(6, 16); (8, 18); (10, 22); (12, 24)]
  | NORTH_EAST => [(6, 42); (8, 40); (10, 36); (12, 34)]
  | SOUTH_WEST => [(34, 22); (36, 18); (38, 16)]
  | SOUTH_EAST => [(34, 36); (36, 40); (38, 42)]
  | _ => []
  end%nat.

Definition has_arm (g : fcn_gate) (d : cardinal) : Prop := Forall (λ p, dot g p.1 p.2) (arm d).

#[export] Instance has_arm_dec g d : Decision (has_arm g d).
Proof. unfold has_arm. apply _. Defined.

(** One gate is drawn a row lower than all others, out of line with the arms of its neighbors. *)
Definition misdrawn (g : fcn_gate) : Prop := g = MIRRORED_STRAIGHT_WIRE.
#[export] Instance misdrawn_dec g : Decision (misdrawn g).
Proof. unfold misdrawn. apply _. Defined.

Definition row_shift (g : fcn_gate) : nat := if decide (misdrawn g) then 1 else 0.

Definition has_low_arm (g : fcn_gate) (d : cardinal) : Prop := Forall (λ p, dot g (1 + p.1) p.2) (arm d).

#[export] Instance has_low_arm_dec g d : Decision (has_low_arm g d).
Proof. unfold has_low_arm. apply _. Defined.

(** The dots keep off the border of the tile. *)
Definition framed (g : fcn_gate) : Prop :=
  ∀ i j v, gate_cell g i j = Some v →
    v = Sidb.EMPTY ∨ v = Sidb.NORMAL ∧ (6 <= i <= 39)%nat ∧ (16 <= j <= 42)%nat.

(** A port in a direction. *)
Definition has_port (p : port_list port_direction) (d : cardinal) : Prop :=
  cardinal_code d ∈ port_dir <$> port_inp p ++ port_out p.

#[export] Instance has_port_dec p d : Decision (has_port p d).
Proof. unfold has_port. apply _. Defined.

(** ** Deciding the properties of gates *)

Definition shape_b (g : fcn_gate) : bool :=
  (length g =? 46)%nat && forallb (λ row, (length row =? 60)%nat) g.

Definition framed_b (g : fcn_gate) : bool :=
  forallb (λ p : nat * list Z, forallb (λ q : nat * Z,
    (q.2 =? Sidb.EMPTY) || (q.2 =? Sidb.NORMAL) && (6 <=? p.1)%nat && (p.1 <=? 39)%nat &&
                           (16 <=? q.1)%nat && (q.1 <=? 42)%nat) (zip (seq 0 (length p.2)) p.2))
    (zip (seq 0 (length g)) g).

Lemma shape_b_sound g : shape_b g = true → gate_shape 60 46 g.
Proof.
  unfold shape_b. intros [H1%Nat.eqb_eq H2]%andb_true_iff. split; [done|].
  rewrite forallb_forall in H2. apply Forall_forall. intros r Hr%list_elem_of_In%H2. by apply Nat.eqb_eq.
Qed.

Lemma elem_of_zip_seq {A} (v : list A) i a : v !! i = Some a → (i, a) ∈ zip (seq 0 (length v)) v.
Proof.
  intros Hi. apply list_elem_of_lookup. exists i. apply lookup_zip_with_Some.
  exists i, a. split_and!; [done| |done]. apply lookup_seq. split; [done|]. by eapply lookup_lt_Some.
Qed.

Lemma framed_b_sound g : framed_b g = true → framed g.
Proof.
  unfold framed_b. intros Hb i j v (row & Hrow & Hv)%bind_Some. rewrite forallb_forall in Hb.
  apply elem_of_zip_seq, list_elem_of_In, Hb in Hrow. cbn [fst snd] in Hrow. rewrite forallb_forall in Hrow.
  apply elem_of_zip_seq, list_elem_of_In, Hrow in Hv. cbn [fst snd] in Hv.
  rewrite orb_true_iff, !andb_true_iff, !Nat.leb_le, !Z.eqb_eq in Hv.
  destruct Hv as [->|((((-> & ?) & ?) & ?) & ?)]; [by left|right]. split_and!; done.
Qed.

(** The wires of inputs and outputs have a second end, where no signal enters or leaves. *)
Definition loose_end (p : port_list port_direction) (d : cardinal) : Prop :=
  port_inp p = [] ∧ port_out p ≠ [] ∧ d = NORTH_WEST ∨ port_out p = [] ∧ port_inp p ≠ [] ∧ d = SOUTH_EAST.

#[export] Instance loose_end_dec p d : Decision (loose_end p d).
Proof. unfold loose_end. apply _. Defined.

(** What a gate is for the ports of a tile: it has an arm exactly for each of them, and for the loose end
    of an input or output. The misdrawn gate has no arm in line, but these arms a row below. *)
Definition arms_match (p : port_list port_direction) (g : fcn_gate) (d : cardinal) : Prop :=
  (¬ misdrawn g ∧ has_arm g d ∨ misdrawn g ∧ ¬ has_arm g d ∧ has_low_arm g d) ∧ (has_port p d ∨ loose_end p d) ∨
  ¬ has_arm g d ∧ ¬ has_low_arm g d ∧ ¬ has_port p d ∧ ¬ loose_end p d.

#[export] Instance arms_match_dec p g d : Decision (arms_match p g d).
Proof. unfold arms_match. apply _. Defined.

Definition connects (p : port_list port_direction) (g : fcn_gate) : Prop :=
  gate_shape 60 46 g ∧ framed g ∧ ∀ d, d ∈ directions → arms_match p g d.

Definition connects_b (p : port_list port_direction) (g : fcn_gate) : bool :=
  shape_b g && framed_b g && forallb (λ d, bool_decide (arms_match p g d)) directions.

Lemma connects_b_sound p g : connects_b p g = true → connects p g.
Proof.
  unfold connects_b. rewrite !andb_true_iff, !forallb_forall.
  intros [[Hs Hf] Ha]. split_and!; [by apply shape_b_sound|by apply framed_b_sound|..].
  intros d Hd%list_elem_of_In%Ha. by rewrite bool_decide_eq_true in Hd.
Qed.

(** Ports that compare equal have the same directions. *)
Lemma set_eqb_dirs s t : set_eqb direction_eqb s t = true → port_dir <$> s = port_dir <$> t.
Proof.
  revert t. induction s as [|a s IH]; intros [|b t]; simpl; try done.
  intros [Hab%Z.eqb_eq Hs]%andb_true_iff. f_equal; [done|by apply IH].
Qed.

Lemma ports_eqb_spec q p :
  ports_eqb q p = true →
  port_dir <$> port_inp q = port_dir <$> port_inp p ∧ port_dir <$> port_out q = port_dir <$> port_out p.
Proof. intros [Hi Ho]%andb_true_iff. split; by apply set_eqb_dirs. Qed.

Lemma has_port_ext q p d : ports_eqb q p = true → has_port q d ↔ has_port p d.
Proof. intros [Hi Ho]%ports_eqb_spec. unfold has_port. by rewrite !fmap_app, Hi, Ho. Qed.

Lemma loose_end_ext q p d : ports_eqb q p = true → loose_end q d ↔ loose_end p d.
Proof.
  intros [Ei Eo]%ports_eqb_spec. unfold loose_end.
  assert (∀ v w, port_dir <$> v = port_dir <$> w → v = [] ↔ w = []) as Hnil
    by (intros v w Evw; split; intros ->; by apply (fmap_nil_inv port_dir)).
  by rewrite (Hnil _ _ Ei), (Hnil _ _ Eo).
Qed.

Lemma connects_ext q p g : ports_eqb q p = true → connects q g → connects p g.
Proof.
  intros E (Hs & Hf & Ha). split_and!; [done..|]. intros d Hd. specialize (Ha d Hd). unfold arms_match in *.
  by rewrite (has_port_ext q p d E), (loose_end_ext q p d E) in Ha.
Qed.

(** ** The tables *)

Lemma table_gate (m : port_gate_map) p g :
  forallb (λ e, connects_b e.1 e.2) m = true → gate_at m p = Some g → connects p g.
Proof.
  intros Hm (q & Hq & E)%map_at_Some. rewrite forallb_forall in Hm.
  apply list_elem_of_In, Hm in Hq. eapply connects_ext; [exact E|]. by apply connects_b_sound.
Qed.

Lemma fanout_table p g : gate_at FANOUT_MAP p = Some g → connects p g.
Proof. apply table_gate. by vm_compute. Qed.
Lemma wire_table p g : gate_at WIRE_MAP p = Some g → connects p g.
Proof. apply table_gate. by vm_compute. Qed.

(** The crossings serve the ports of both tiles. *)
Definition crosses_b (p pa : port_list port_direction) (g : fcn_gate) : bool :=
  shape_b g && framed_b g &&
  forallb (λ d, bool_decide (has_arm g d) && bool_decide (has_port p d ∨ has_port pa d)) directions.

Definition crosses (p pa : port_list port_direction) (g : fcn_gate) : Prop :=
  gate_shape 60 46 g ∧ framed g ∧
  ∀ d, d ∈ directions → has_arm g d ∧ (has_port p d ∨ has_port pa d).

Lemma crossing_entries : forallb (λ e, crosses_b e.1.1 e.1.2 e.2) CROSSING_MAP = true.
Proof. by vm_compute. Qed.

Lemma crossing_table p pa g : double_gate_at CROSSING_MAP (p, pa) = Some g → crosses p pa g.
Proof.
  intros ([q qa] & Hq & E)%map_at_Some. pose proof crossing_entries as Hm. rewrite forallb_forall in Hm.
  apply list_elem_of_In, Hm in Hq. simpl in Hq. unfold crosses_b in Hq.
  rewrite !andb_true_iff, forallb_forall in Hq. destruct Hq as [[Hs Hf] Ha].
  apply andb_true_iff in E as [E Ea]. simpl in E, Ea.
  split_and!; [by apply shape_b_sound|by apply framed_b_sound|].
  intros d Hd%list_elem_of_In%Ha. rewrite andb_true_iff, !bool_decide_eq_true in Hd.
  by rewrite (has_port_ext q p d E), (has_port_ext qa pa d Ea) in Hd.
Qed.

Section Selection.
Context `{GateLevel.Mockturtle} {h : Hexagonal.hex_arrangement}.
Import GateLevel.
Implicit Types (l : gate_level_layout (Hexagonal.hexagonal_layout h)) (t : ucoord_t).

Lemma function_table_gates l p g f m :
  (f, m) ∈ function_tables l → gate_at m p = Some g → connects p g.
Proof.
  unfold function_tables. rewrite !elem_of_cons, elem_of_nil.
  intros Hm. repeat destruct Hm as [[= _ ->]|Hm]; [..|done]; apply table_gate; by vm_compute.
Qed.

Lemma set_up_function_gate l tables n t p g :
  tables ⊆ function_tables l → set_up_function tables n t p = Some (Gate g) → connects p g.
Proof.
  induction tables as [|[f m] tables IH]; intros Hsub; simpl; [done|].
  destruct (f n) as [[]|]; [..|done]; simpl.
  - intros Hg%lookup_gate. eapply function_table_gates; [|exact Hg]. apply Hsub. by left.
  - apply IH. intros e He. apply Hsub. by right.
Qed.

(** A wire on the ground layer below a wire. *)
Definition crossed l t : Prop :=
  let at_ := Hexagonal.above (Clocked.coordinate_layout (clocked l)) t in
  t ≠ at_ ∧ is_wire_tile l at_ = Some true.

Lemma set_up_wire_gate l t p g :
  set_up_wire l t p = Some (Gate g) →
  (uz t ≠ 0 ∧ g = EMPTY_GATE 60 46) ∨
  uz t = 0 ∧ (¬ crossed l t ∧ connects p g ∨
    crossed l t ∧ ∃ pa, determine_port_routing l
      (Hexagonal.above (Clocked.coordinate_layout (clocked l)) t) = Some pa ∧ crosses p pa g).
Proof.
  unfold set_up_wire, Hexagonal.is_ground_layer, crossed. set (a := Hexagonal.above _ t).
  destruct (Z.eqb_spec (uz t) 0) as [Hz|Hz]; [|intros [= <-]; by left].
  intros Hg. right. split; [done|]. revert Hg. unfold neqb. rewrite eqb_spec. case_bool_decide as E; simpl.
  - intros Hg%lookup_gate. left. split; [by intros []|]. by apply wire_table.
  - destruct (is_wire_tile l a) as [[]|] eqn:Ew; simpl; [|..|done].
    + destruct (determine_port_routing l a) as [pa|]; [|done]. simpl.
      intros Hg%lookup_gate. right. split; [done|]. exists pa. split; [done|].
      by apply crossing_table.
    + intros Hg%lookup_gate. left. split; [by intros []|]. by apply wire_table.
Qed.
End Selection.

#[local] Arguments set_up_function : simpl never.
#[local] Arguments gate_at : simpl never.

Lemma selected_gate `{GateLevel.Mockturtle} {h}
    (l : GateLevel.gate_level_layout (Hexagonal.hexagonal_layout h)) (t : ucoord_t)
    (p : port_list port_direction) (g : fcn_gate) :
  let n := GateLevel.get_node_at (GateLevel.strg l) t in
  let above := Hexagonal.above (Clocked.coordinate_layout (GateLevel.clocked l)) t in
  let forks := GateLevel.is_fanout l n = Some true ∧ GateLevel.fanout_size l n = Some 2 in
  determine_port_routing l t = Some p → set_up_gate l t = Some (Gate g) →
  (forks ∨ GateLevel.is_wire (GateLevel.strg l) n = Some false) ∧ connects p g ∨
  GateLevel.is_wire (GateLevel.strg l) n = Some true ∧
  (uz t ≠ 0 ∧ g = EMPTY_GATE 60 46 ∨
   uz t = 0 ∧ ¬ crossed l t ∧ connects p g ∨
   uz t = 0 ∧ crossed l t ∧ ∃ pa, determine_port_routing l above = Some pa ∧ crosses p pa g).
Proof.
  intros n above forks Hp. unfold set_up_gate. rewrite Hp. fold n. simpl.
  destruct (GateLevel.is_fanout l n) as [f|] eqn:Ef; [|done]. simpl.
  destruct (if f then GateLevel.fanout_size l n else Some 0) as [k|] eqn:Ek; [|done]. simpl.
  destruct (f && (k =? 2)) eqn:Efk; simpl.
  { intros Hg%lookup_gate%fanout_table. left. split; [left|done].
    destruct f; [|done]. simpl in Efk. split; [done|]. rewrite Ek. f_equal. lia. }
  unfold GateLevel.is_wire. destruct (GateLevel.is_buf _ n) as [[]|]; simpl; [|..|done].
  - intros Hg%set_up_wire_gate. right. split; [done|]. destruct Hg as [?|[? [[??]|[??]]]]; auto 10.
  - intros Hg%(set_up_function_gate l); [|done]. left. by auto.
Qed.

(** ** Mirrored gates *)

(** The rows from [lo] up to [hi] of [g'] are those of [g] mirrored at column 29 and moved down by [k]. *)
Definition mirrored (lo hi k : nat) (g g' : fcn_gate) : Prop :=
  ∀ i j, (lo <= i < hi)%nat → (j < 59)%nat → gate_cell g' (i + k) (58 - j) = gate_cell g i j.

Definition mirrored_b (lo hi k : nat) (g g' : fcn_gate) : bool :=
  forallb (λ i, forallb (λ j, bool_decide (gate_cell g' (i + k) (58 - j) = gate_cell g i j)) (seq 0 59))
    (seq lo (hi - lo)).

Lemma mirrored_b_spec lo hi k g g' : mirrored_b lo hi k g g' = true ↔ mirrored lo hi k g g'.
Proof.
  unfold mirrored_b, mirrored. rewrite forallb_forall. setoid_rewrite forallb_forall.
  setoid_rewrite bool_decide_eq_true. setoid_rewrite <-list_elem_of_In. setoid_rewrite elem_of_seq.
  split; intros Hm i; intros; apply Hm; lia.
Qed.

(** * Properties *)

(** C32: Whenever [set_up_gate] selects a gate for a tile, it is a gate of 60 x 46 cells whose dots keep a
    distance from the border of the tile. For gates, inverters, two-way fan-outs and uncrossed wires on
    the ground layer it has an arm of dots exactly for the ports of the tile; a tile with outputs only
    has a loose end to the north-west besides, and one with inputs only to the south-east. The arms of
    the mirrored straight wire, and of no other gate, are a row below those of its neighbors. For a wire
    on the ground layer that is crossed by another wire, it has arms in all four directions, and every
    direction is a port of one of the two. Wires on the crossing layer are left empty. *)
Theorem bestagon_gates_connect `{GateLevel.Mockturtle} {h}
    (l : GateLevel.gate_level_layout (Hexagonal.hexagonal_layout h)) (t : ucoord_t)
    (p : port_list port_direction) (g : fcn_gate) :
  let n := GateLevel.get_node_at (GateLevel.strg l) t in
  let above := Hexagonal.above (Clocked.coordinate_layout (GateLevel.clocked l)) t in
  let forks := GateLevel.is_fanout l n = Some true ∧ GateLevel.fanout_size l n = Some 2 in
  determine_port_routing l t = Some p → set_up_gate l t = Some (Gate g) →
  (forks ∨ GateLevel.is_wire (GateLevel.strg l) n = Some false) ∧ connects p g ∨
  GateLevel.is_wire (GateLevel.strg l) n = Some true ∧
  (uz t ≠ 0 ∧ g = EMPTY_GATE 60 46 ∨
   uz t = 0 ∧ ¬ crossed l t ∧ connects p g ∨
   uz t = 0 ∧ crossed l t ∧ ∃ pa, determine_port_routing l above = Some pa ∧ crosses p pa g).
Proof. exact (selected_gate l t p g). Qed.

(** Every mirrored gate of the library is the exact mirror image of the gate it is named after, and
    the double wire is symmetric, with one exception: in the mirrored straight wire, the four inner dots
    are where they belong, but the arms above and below are one row too low, out of line with the
    inner dots and with the arms of all other gates. *)
Theorem bestagon_mirrored_gates :
  Forall (λ e, mirrored 0 46 0 e.1 e.2)
    [(DIAGONAL_WIRE, MIRRORED_DIAGONAL_WIRE); (STRAIGHT_INVERTER, MIRRORED_STRAIGHT_INVERTER);
     (DIAGONAL_INVERTER, MIRRORED_DIAGONAL_INVERTER); (CONJUNCTION, MIRRORED_CONJUNCTION);
     (DISJUNCTION, MIRRORED_DISJUNCTION); (NEGATED_CONJUNCTION, MIRRORED_NEGATED_CONJUNCTION);
     (NEGATED_DISJUNCTION, MIRRORED_NEGATED_DISJUNCTION);
     (EXCLUSIVE_DISJUNCTION, MIRRORED_EXCLUSIVE_DISJUNCTION);
     (NEGATED_EXCLUSIVE_DISJUNCTION, MIRRORED_NEGATED_EXCLUSIVE_DISJUNCTION);
     (FANOUT_1_2, MIRRORED_FANOUT_1_2); (HOURGLASS_DOUBLE_WIRE, HOURGLASS_DOUBLE_WIRE)] ∧
  mirrored 0 13 1 STRAIGHT_WIRE MIRRORED_STRAIGHT_WIRE ∧
  mirrored 14 32 0 STRAIGHT_WIRE MIRRORED_STRAIGHT_WIRE ∧
  mirrored 31 45 1 STRAIGHT_WIRE MIRRORED_STRAIGHT_WIRE ∧
  ¬ mirrored 0 13 0 STRAIGHT_WIRE MIRRORED_STRAIGHT_WIRE.
Proof.
  split_and!; try (apply mirrored_b_spec; by vm_compute).
  - rewrite !Forall_cons, Forall_nil. simpl. split_and!; try done; apply mirrored_b_spec; by vm_compute.
  - intros Hm%mirrored_b_spec. by vm_compute in Hm.
Qed.

(** *** An AND gate on hexagons *)

Definition hex_clocked : Clocked.clocked_layout (Hexagonal.hexagonal_layout Hexagonal.odd_row_hex) :=
  Clocked.ClockedLayout (Hexagonal.make (UCoord 0 1 3 3)) (row_clocking 5 FOUR).

Definition hex_ops : list operation :=
  [CreatePi "a" (tile 0 0); CreatePi "b" (tile 1 0); CreateAnd (sig 0 0) (sig 1 0) (tile 0 1);
   CreateBuf (sig 0 1) (tile 1 2); CreatePo (sig 1 2) "f" (tile 1 3)].

Definition hex_layout : GateLevel.gate_level_layout (Hexagonal.hexagonal_layout Hexagonal.odd_row_hex) :=
  built hex_clocked "hexagons" hex_ops.

Lemma bestagon_gates_connect_witness :
  determine_port_routing hex_layout (tile 0 1) = Some (ports [NORTH_WEST; NORTH_EAST] [SOUTH_EAST]) ∧
  set_up_gate hex_layout (tile 0 1) = Some (Gate CONJUNCTION) ∧
  ((GateLevel.is_fanout hex_layout 4 = Some true ∧ GateLevel.fanout_size hex_layout 4 = Some 2 ∨
    GateLevel.is_wire (GateLevel.strg hex_layout) 4 = Some false) ∧
   connects (ports [NORTH_WEST; NORTH_EAST] [SOUTH_EAST]) CONJUNCTION ∨
  GateLevel.is_wire (GateLevel.strg hex_layout) 4 = Some true ∧
  (0 ≠ 0 ∧ CONJUNCTION = EMPTY_GATE 60 46 ∨
   0 = 0 ∧ ¬ crossed hex_layout (tile 0 1) ∧
     connects (ports [NORTH_WEST; NORTH_EAST] [SOUTH_EAST]) CONJUNCTION ∨
   0 = 0 ∧ crossed hex_layout (tile 0 1) ∧
     ∃ pa, determine_port_routing hex_layout (UCoord 0 1 1 0) = Some pa ∧
           crosses (ports [NORTH_WEST; NORTH_EAST] [SOUTH_EAST]) pa CONJUNCTION)).
Proof.
  assert (determine_port_routing hex_layout (tile 0 1) =
    Some (ports [NORTH_WEST; NORTH_EAST] [SOUTH_EAST])) as Hp by by vm_compute.
  assert (set_up_gate hex_layout (tile 0 1) = Some (Gate CONJUNCTION)) as Hg by by vm_compute.
  split; [exact Hp|]. split; [exact Hg|].
  pose proof (bestagon_gates_connect hex_layout (tile 0 1) _ _ Hp Hg) as Hc. cbv zeta in Hc.
  replace (GateLevel.get_node_at (GateLevel.strg hex_layout) (tile 0 1)) with 4 in Hc by by vm_compute.
  exact Hc.
Defined.
