(* ===== verification/ApplyBestagon.v ===== *)
(** * The Bestagon library applied

    The pass of [ApplyGateLibrary.v] on layouts of pointy-top hexagons with the Bestagon library: which
    dots the resulting cell-level layout has, how the wires of adjacent tiles continue each other, and
    what the Cartesian grid of the cell-level layout makes of shifted tiles. *)

From S2P Require Import Prelude.
From S2P Require Import Coordinates.
From S2P Require Import CoordinateLayout.
From S2P Require Import CartesianLayout.
From S2P Require Import HexagonalLayout.
From S2P Require Import ClockingScheme.
From S2P Require Import ClockedLayout.
From S2P Require Import GateLevelLayout.
From S2P Require Import GateLevelInvariant.
From S2P Require Import GateLevelDataFlow.
From S2P Require Import MockturtleModel.
From S2P Require Import GateLevelProperties.
From S2P Require Import CellTechnology.
From S2P Require Import CellLevelLayout.
From S2P Require Import CellPorts.
From S2P Require Import FcnGateLibrary.
From S2P Require Import ApplyGateLibrary.
From S2P Require Import SidbBestagonLibrary.
From S2P Require Import SidbBestagonProperties.
#[local] Open Scope Z_scope.
Import Offset Hexagonal.

#[local] Existing Instance Sidb.sidb_technology.

#[export] Instance bestagon_library `{GateLevel.Mockturtle} {h} :
    GateLibrary (H := Sidb.sidb_technology)
      (GateLevel.gate_level_layout (Hexagonal.hexagonal_layout h)) := {
  gate_port := port_direction;
  gate_size_x := 60;
  gate_size_y := 46;
  set_up_gate := Bestagon.set_up_gate;
  post_layout_optimization := None;
}.

(** ** Positions of dots *)

Section Positions.
Context {h : Hexagonal.hex_arrangement}.
Implicit Types (lyt : Hexagonal.hexagonal_layout h) (t : ucoord_t).

(** Whether a row is shifted to the right. *)
Definition row_parity (y : Z) : Z :=
  match h with
  | Hexagonal.odd_row_hex => y mod 2
  | Hexagonal.even_row_hex => 1 - y mod 2
  | _ => 0
  end.

(** The cell in row [i] and column [j] of the gate of a tile. *)
Definition dot_position t (i j : nat) : ucoord_t :=
  UCoord 0 (uz t) (34 * uy t + Z.of_nat i) (60 * ux t + 30 * row_parity (uy t) + Z.of_nat j).

(** Layouts of pointy-top hexagons whose cells have representable coordinates. *)
Definition hex_fits lyt : Prop :=
  Hexagonal.orientation_of h = Hexagonal.pointy_top_hex ∧ proper_dimension (Hexagonal.dimension lyt) ∧
  60 * (ux (Hexagonal.dimension lyt) + 2) < 2 ^ 31 ∧ 46 * (uy (Hexagonal.dimension lyt) + 2) < 2 ^ 31.

Lemma row_parity_bounds y : 0 <= row_parity y <= 1.
Proof. unfold row_parity. pose proof (Z.mod_pos_bound y 2 ltac:(lia)). destruct h; lia. Qed.

Lemma hexagonal_corner_eq lyt t :
  hex_fits lyt → inside (Hexagonal.dimension lyt) t →
  Apply.hexagonal_corner 60 46 lyt t = Some (dot_position t 0 0).
Proof.
  intros (Hh & Hd & Hx & Hy) Ht. pose proof (proper_dimension_bounds _ Hd). unfold inside in Ht.
  unfold Apply.hexagonal_corner. rewrite Hh. unfold Cube.int_result.
  change (46 * 3 / 4) with 34. rewrite !decide_True by (unfold Cube.int32; lia).
  cbn [mbind option_bind]. f_equal. unfold Apply.shift_corner, Apply.shift_x, Apply.shift_y,
    Hexagonal.is_in_odd_row, Hexagonal.is_in_even_row, dot_position, row_parity, ucoord3.
  pose proof (Z.mod_pos_bound (uy t) 2 ltac:(lia)). change (60 / 2) with 30.
  destruct h; try discriminate Hh; destruct (Z.eqb_spec (uy t mod 2) 1), (Z.eqb_spec (uy t mod 2) 0);
    try lia; unfold set_x; simpl;
    rewrite !wrap_small by (rewrite ?wrap_small; unfold in_width; lia);
    rewrite ?wrap_small by (unfold in_width; lia); f_equal; lia.
Qed.

Lemma dot_position_shift lyt t i j :
  hex_fits lyt → inside (Hexagonal.dimension lyt) t → (i < 46)%nat → (j < 60)%nat →
  let c := dot_position t 0 0 in
  ucoord3 (ux c + Z.of_nat j) (uy c + Z.of_nat i) (uz c) = dot_position t i j.
Proof.
  intros (Hh & Hd & Hx & Hy) Ht Hi Hj c. pose proof (proper_dimension_bounds _ Hd). unfold inside in Ht.
  pose proof (row_parity_bounds (uy t)). unfold c, dot_position, ucoord3. cbn [ux uy uz].
  rewrite !wrap_small by (unfold in_width; lia). f_equal; lia.
Qed.

(** The dots of framed gates on different tiles are different. *)
Lemma dot_position_inj t t' (i j i' j' : nat) :
  ud t = ud t' → (6 <= i <= 39)%nat → (16 <= j <= 42)%nat → (6 <= i' <= 39)%nat → (16 <= j' <= 42)%nat →
  dot_position t i j = dot_position t' i' j' → t = t' ∧ i = i' ∧ j = j'.
Proof.
  intros Hd Hi Hj Hi' Hj' E. unfold dot_position in E.
  assert (uz t = uz t' ∧ 34 * uy t + Z.of_nat i = 34 * uy t' + Z.of_nat i' ∧
    60 * ux t + 30 * row_parity (uy t) + Z.of_nat j = 60 * ux t' + 30 * row_parity (uy t') + Z.of_nat j')
    as (Ez & Ey & Ex) by (injection E; auto).
  assert (uy t = uy t') as Ety by lia. rewrite Ety in Ex. destruct t, t'; simpl in *.
  split_and!; [f_equal; lia|lia..].
Qed.

(** *** Adjacent tiles *)

(** The horizontal position of a tile in halves of its width, by its axial coordinates. *)
Lemma row_parity_axial p :
  Hexagonal.orientation_of h = Hexagonal.pointy_top_hex →
  2 * p.1 + row_parity p.2 = 2 * (axial h p).1 + p.2 + Z.b2z (bool_decide (Hexagonal.offset h = 1)).
Proof.
  intros Hh. pose proof (half_exact h p.2) as [_ E]. unfold axial, row_parity. rewrite Hh.
  pose proof (Z.mod_pos_bound p.2 2 ltac:(lia)). destruct h; try discriminate Hh; simpl in *; lia.
Qed.

(** The tile in a direction is where the axial coordinates say. *)
Lemma neighbor_tile lyt t t' dir :
  hex_fits lyt → hex_representable lyt → inside (Hexagonal.dimension lyt) t →
  unit_direction dir → Hexagonal.neighbor_or_c lyt t dir = Some t' → t' ≠ t →
  inside (Hexagonal.dimension lyt) t' ∧ uz t' = uz t ∧ uy t' = uy t + Cube.cz dir ∧
  2 * ux t' + row_parity (uy t') =
    2 * ux t + row_parity (uy t) + 2 * Cube.cx dir + Cube.cz dir.
Proof.
  intros (Hh & _) Hl Ht Hdir Hn Hne. rewrite neighbor_or_c_toward in Hn by done. injection Hn as Hn.
  assert (t' ∈ place lyt t (step dir)) as Hp.
  { revert Hn. unfold toward, place. case_decide; intros <-; [by left|done]. }
  apply elem_of_place in Hp as (Ht' & Hz & Hxy); [|done..].
  pose proof (row_parity_axial (xy t) Hh) as E. pose proof (row_parity_axial (xy t') Hh) as E'.
  assert (axial h (xy t') = ((axial h (xy t)).1 + (step dir).1, (axial h (xy t)).2 + (step dir).2)) as Ea.
  { rewrite Hxy. unfold target. apply axial_position. }
  assert (uy t' = uy t + Cube.cz dir) as Ey.
  { apply (f_equal snd) in Ea. unfold axial in Ea. rewrite Hh in Ea. exact Ea. }
  rewrite Ea in E'. simpl in E, E'. split_and!; [done..|]. lia.
Qed.
End Positions.

(** ** The pass *)

Section BestagonApplied.
Context `{MT : GateLevel.Mockturtle} {h : Hexagonal.hex_arrangement}.
Context (l : GateLevel.gate_level_layout (Hexagonal.hexagonal_layout h)).
Import GateLevel.
#[local] Abbreviation s := (strg l).
#[local] Abbreviation lyt := (Clocked.coordinate_layout (clocked l)).
#[local] Abbreviation dim := (Hexagonal.dimension lyt).

(** The gate of a tile; none for an empty tile. *)
Definition hex_gate (t : ucoord_t) : fcn_gate :=
  if is_empty_tile s t then []
  else match Bestagon.set_up_gate l t with Some (Gate g) => g | _ => [] end.

(** The library has a gate for every tile. *)
Definition hex_supported : Prop :=
  ∀ t, inside dim t → is_empty_tile s t = false →
       ∃ g, Bestagon.set_up_gate l t = Some (Gate g).

Definition hex_supported_b : bool :=
  forallb (λ t, is_empty_tile s t ||
                match Bestagon.set_up_gate l t with Some (Gate _) => true | _ => false end)
    (nested_loops dim).

Lemma hex_supported_sound : wf dim → hex_supported_b = true → hex_supported.
Proof.
  intros Hd Ht t Hin He. unfold hex_supported_b in Ht. rewrite forallb_forall in Ht.
  apply elem_of_nested_loops, list_elem_of_In, Ht in Hin; [|done]. rewrite He in Hin. simpl in Hin.
  destruct (Bestagon.set_up_gate l t) as [[g| |]|]; [by exists g|done..].
Qed.

(** A gate that the library sets up has the size of the library and dots inside of a frame. *)
Lemma hex_gate_framed t g :
  Bestagon.set_up_gate l t = Some (Gate g) → gate_shape 60 46 g ∧ framed g.
Proof.
  intros Hg. pose proof Hg as Hp. unfold Bestagon.set_up_gate in Hp.
  apply bind_Some in Hp as (p & Hp & _).
  destruct (selected_gate l t p g Hp Hg) as [(_ & ? & ? & _)|[_ [[_ ->]|[(_ & _ & ? & ? & _)|(_ & _ & pa & _ & ? & ? & _)]]]];
    try done.
  split; [apply shape_b_sound|apply framed_b_sound]; by vm_compute.
Qed.

(** *** The cells that have been assigned *)

(** All assignments leave the inputs, the outputs and the names alone and add normal cells. *)
Record dotted (P : ucoord_t → Prop) (st : CellLevel.cell_level_layout_storage) : Prop := {
  dotted_type p : CellLevel.get_cell_type st p = Sidb.NORMAL ∧ P p ∨
                  CellLevel.get_cell_type st p = Sidb.EMPTY ∧ ¬ P p;
  dotted_io p : CellLevel.is_pi st p = false ∧ CellLevel.is_po st p = false;
  dotted_name p : CellLevel.get_cell_name st p = "";
  dotted_tiles : CellLevel.tile_size_x st = 60 ∧ CellLevel.tile_size_y st = 46;
}.

Lemma dotted_ext P Q st : (∀ p, P p ↔ Q p) → dotted P st → dotted Q st.
Proof. intros E [Ht Hio Hn Hts]. split; try done. intros p. rewrite <-E. apply Ht. Qed.

Lemma assign_dot (P : ucoord_t → Prop) name c st i j v :
  dotted P st → v = Sidb.EMPTY ∨ v = Sidb.NORMAL →
  dotted (λ p, P p ∨ v = Sidb.NORMAL ∧
                 p = ucoord3 (ux c + Z.of_nat j) (uy c + Z.of_nat i) (uz c))
    (Apply.assign_cell name c st (i, j, v)).
Proof.
  intros Hst [-> | ->].
  { eapply dotted_ext; [|exact Hst]. intros p. split; [by left|]. intros [|[? _]]; done. }
  unfold Apply.assign_cell. set (q := ucoord3 _ _ _).
  change (tech_is_empty_cell Sidb.NORMAL) with false. change (tech_is_input_cell Sidb.NORMAL) with false.
  change (tech_is_output_cell Sidb.NORMAL) with false. cbn [negb orb].
  destruct Hst as [Ht Hio Hn Hts]. split.
  - intros p. unfold CellLevel.get_cell_type, CellLevel.assign_cell_type in *. simpl.
    destruct (decide (p = q)) as [->|Hne].
    + rewrite lookup_insert_eq. left. auto.
    + rewrite lookup_insert_ne by done. destruct (Ht p) as [[? ?]|[? ?]]; [left|right]; naive_solver.
  - intros p. destruct (Hio p). done.
  - done.
  - done.
Qed.

Lemma assign_dots (P : ucoord_t → Prop) name c st (cs : list (nat * nat * Z)) :
  dotted P st → (∀ i j v, (i, j, v) ∈ cs → v = Sidb.EMPTY ∨ v = Sidb.NORMAL) →
  dotted (λ p, P p ∨ ∃ i j, (i, j, Sidb.NORMAL) ∈ cs ∧
                 p = ucoord3 (ux c + Z.of_nat j) (uy c + Z.of_nat i) (uz c))
    (foldl (Apply.assign_cell name c) st cs).
Proof.
  revert P st. induction cs as [|[[i j] v] cs IH]; intros P st Hst Hcs; simpl.
  { eapply dotted_ext; [|exact Hst]. intros p. split; [by left|].
    intros [|(i & j & Hc & _)]; [done|]. by apply not_elem_of_nil in Hc. }
  eapply dotted_ext; [|apply IH; [apply assign_dot; [exact Hst|]|]].
  - intros p. setoid_rewrite elem_of_cons. simpl. split.
    + intros [[?|[-> ->]]|(i' & j' & ? & ->)]; [by left|right..]; [exists i, j|exists i', j']; auto.
    + intros [?|(i' & j' & [[= <- <- <-]|?] & ->)]; [by do 2 left|left; right|right]; eauto.
  - eapply (Hcs i j v). by left.
  - intros i' j' v' Hc. eapply Hcs. by right.
Qed.
(** A dot of the gate of a tile. *)
Definition tile_dot (t : ucoord_t) (i j : nat) : Prop :=
  ∃ g, Bestagon.set_up_gate l t = Some (Gate g) ∧ dot g i j.

Lemma tile_dot_framed t i j : tile_dot t i j → (6 <= i <= 39)%nat ∧ (16 <= j <= 42)%nat.
Proof.
  intros (g & Hg & Hd). destruct (hex_gate_framed t g Hg) as [_ Hf].
  destruct (Hf i j _ Hd) as [?|(_ & ? & ?)]; [done|by split].
Qed.

Lemma place_dots ns P st :
  hex_fits lyt → dotted P st →
  (∀ n, n ∈ ns → 2 <= n → inside dim (get_tile s n) ∧
     ∃ g, Bestagon.set_up_gate l (get_tile s n) = Some (Gate g)) →
  ∃ st', Apply.place_gates l ns st = Some (inl st') ∧
    dotted (λ p, P p ∨ ∃ n i j, n ∈ ns ∧ 2 <= n ∧ tile_dot (get_tile s n) i j ∧
                                p = dot_position (h := h) (get_tile s n) i j) st'.
Proof.
  intros Hf. revert P st. induction ns as [|n ns IH]; intros P st Hst Hns.
  { exists st. split; [done|]. eapply dotted_ext; [|exact Hst]. intros p. split; [by left|].
    intros [|(n & i & j & Hn & _)]; [done|]. by apply not_elem_of_nil in Hn. }
  assert (∀ m, m ∈ ns → 2 <= m → inside dim (get_tile s m) ∧
     ∃ g, Bestagon.set_up_gate l (get_tile s m) = Some (Gate g)) as Hns'.
  { intros m Hm. apply Hns. by right. }
  cbn [Apply.place_gates]. unfold is_constant. destruct (Z.leb_spec n 1) as [H1|H1].
  { destruct (IH P st Hst Hns') as (st' & -> & Hst'). exists st'. split; [done|].
    eapply dotted_ext; [|exact Hst']. intros p. setoid_rewrite elem_of_cons. split.
    - intros [|(m & i & j & ? & ?)]; [by left|right]. exists m, i, j. auto.
    - intros [|(m & i & j & [->|?] & ? & ?)]; [by left|lia|right]. exists m, i, j. auto. }
  destruct (Hns n) as (Hin & g & Hg); [by left|lia|]. set (t := get_tile s n) in *.
  unfold tile_corner, Apply.hexagonal_grid. cbn [gate_size_x gate_size_y bestagon_library].
  rewrite (hexagonal_corner_eq lyt t Hf Hin). cbn [mbind option_bind set_up_gate bestagon_library].
  rewrite Hg. destruct (hex_gate_framed t g Hg) as [Hshape Hframe].
  destruct (IH _ _ (assign_dots P (get_name s n) (dot_position (h := h) t 0 0) st (Apply.gate_cells g) Hst
    ltac:(intros i j v Hc; apply elem_of_gate_cells in Hc; destruct (Hframe i j v Hc) as [|[? _]]; auto)) Hns')
    as (st' & E & Hst').
  exists st'. split; [exact E|]. eapply dotted_ext; [|exact Hst']. intros p.
  setoid_rewrite elem_of_cons. setoid_rewrite elem_of_gate_cells. split.
  - intros [[?|(i & j & Hd & ->)]|(m & i & j & ? & ?)]; [by left|right|right].
    + exists n, i, j. destruct (proj1 (gate_cell_shape 60 46 g i j Hshape)) as [Hi Hj]; [by eexists|].
      split_and!; [by left|lia|by exists g|]. by apply (dot_position_shift lyt).
    + exists m, i, j. auto.
  - intros [?|(m & i & j & [->|?] & ? & Hd & ->)]; [by do 2 left|left; right|right].
    + destruct Hd as (g' & Hg' & Hd). fold t in Hg'. assert (g' = g) as -> by congruence.
      exists i, j. destruct (proj1 (gate_cell_shape 60 46 g i j Hshape)) as [Hi Hj]; [by eexists|].
      split; [done|]. symmetry. by apply (dot_position_shift lyt).
    + exists m, i, j. auto.
Qed.
End BestagonApplied.

(** * Properties *)

(** The steps between successive positions. *)
Definition steps_between (v : list ucoord_t) : list (Z * Z) :=
  zip_with (λ a b, (ux b - ux a, uy b - uy a)) v (tail v).

(** The cells of an arm of the gate [g] of a tile. *)
Definition arm_cells {h} (t : ucoord_t) (g : fcn_gate) (d : cardinal) : list ucoord_t :=
  (λ p, dot_position (h := h) t (row_shift g + p.1) p.2) <$> arm d.

(** The cell in row [i] and column [j] of the gate of a tile. *)
Definition tile_cell `{GateLevel.Mockturtle} {h} (l : GateLevel.gate_level_layout (Hexagonal.hexagonal_layout h))
    (t : ucoord_t) (i j : nat) (v : Z) : Prop :=
  ∃ g, Bestagon.set_up_gate l t = Some (Gate g) ∧ gate_cell g i j = Some v.

Lemma tile_cell_dot `{GateLevel.Mockturtle} {h} (l : GateLevel.gate_level_layout (Hexagonal.hexagonal_layout h))
    t i j v : v ≠ Sidb.EMPTY → tile_cell l t i j v ↔ v = Sidb.NORMAL ∧ tile_dot l t i j.
Proof.
  intros Hv. split.
  - intros (g & Hg & Hc). destruct (hex_gate_framed l t g Hg) as [_ Hf].
    destruct (Hf i j v Hc) as [?|[-> _]]; [done|]. split; [done|]. by exists g.
  - intros [-> (g & Hg & Hd)]. by exists g.
Qed.

(** The result of the pass, by dots. *)
Lemma bestagon_result `{GateLevel.Mockturtle} {h}
    (l : GateLevel.gate_level_layout (Hexagonal.hexagonal_layout h)) (fuel : nat) :
  let lyt := Clocked.coordinate_layout (GateLevel.clocked l) in
  layout_wf l → settled l → hex_supported l → hex_fits lyt →
  Z.of_nat (length (GateLevel.nodes (GateLevel.strg l))) < 2 ^ 32 →
  ∃ c, Apply.apply_gate_library fuel l = Some (Apply.Done c) ∧
    CellLevel.get_layout_name (CellLevel.strg c) = GateLevel.get_layout_name (GateLevel.strg l) ∧
    dotted (λ p, ∃ t i j, inside (Hexagonal.dimension lyt) t ∧
      GateLevel.is_empty_tile (GateLevel.strg l) t = false ∧
      tile_dot l t i j ∧ p = dot_position (h := h) t i j) (CellLevel.strg c).
Proof.
  intros lyt Hl Hset Hsup Hf Hlen.
  destruct (foreach_node_spec l (lw_storage _ Hl) Hlen) as (ns & Ens & _ & Hns).
  assert (dotted (λ _, False) (blank "" 60 46)) as Hblank.
  { split; try done. intros p. right. split; [done|tauto]. }
  destruct (place_dots l ns _ _ Hf Hblank) as (st & Est & Hst).
  { intros n [Hn Ha]%Hns H2. destruct (settled_alive l Hset n) as [Hin Hlive]; [lia|done|].
    split; [done|]. apply Hsup; [done|]. by eapply (placed_node l Hl). }
  eexists. split; [|split].
  { unfold Apply.apply_gate_library. rewrite Ens. cbn [mbind option_bind].
    change (CellLevel.strg (CellLevel.make _ _ _ _)) with (blank "" 60 46). rewrite Est. reflexivity. }
  - done.
  - assert (dotted (λ p, ∃ t i j, inside (Hexagonal.dimension lyt) t ∧
      GateLevel.is_empty_tile (GateLevel.strg l) t = false ∧
      tile_dot l t i j ∧ p = dot_position (h := h) t i j) st) as [Ht Hio Hn Hts]; [|by split].
    eapply dotted_ext; [|exact Hst]. intros p. split.
    + intros [[]|(n & i & j & [Hn Ha]%Hns & H2 & Hd & ->)].
      destruct (settled_alive l Hset n) as [Hin Hlive]; [lia|done|].
      exists (GateLevel.get_tile (GateLevel.strg l) n), i, j. split_and!; [done| |done|done].
      by eapply (placed_node l Hl).
    + intros (t & i & j & Ht & He & Hd & ->). right.
      destruct (hosted l Hl t) as [Hn Hat]; [apply Hf|done|done|].
      exists (GateLevel.get_node_at (GateLevel.strg l) t), i, j. rewrite Hat. split_and!; [|lia|done|done].
      apply Hns. split; [lia|]. by apply (settled_hosted l Hset).
Qed.

(** C5: The pass with the Bestagon library on every well-formed and settled layout of pointy-top
    hexagons, whose cells fit the coordinates and for whose tiles the library has gates, terminates
    without an exception. The cells of the result are those of the gates that the library sets up for
    the tiles: a cell of a type other than empty is at a position exactly if the gate of one tile has it
    there, at the place that the shifted rows of hexagons with a distance of 34 cells give it, and no
    two tiles have cells at the same position. *)
Theorem bestagon_applied `{GateLevel.Mockturtle} {h}
    (l : GateLevel.gate_level_layout (Hexagonal.hexagonal_layout h)) (fuel : nat) :
  let lyt := Clocked.coordinate_layout (GateLevel.clocked l) in
  layout_wf l → settled l → hex_supported l → hex_fits lyt →
  Z.of_nat (length (GateLevel.nodes (GateLevel.strg l))) < 2 ^ 32 →
  ∃ c, Apply.apply_gate_library fuel l = Some (Apply.Done c) ∧
    CellLevel.get_layout_name (CellLevel.strg c) = GateLevel.get_layout_name (GateLevel.strg l) ∧
    (∀ p v, v ≠ Sidb.EMPTY →
       CellLevel.get_cell_type (CellLevel.strg c) p = v ↔
       ∃ t i j, inside (Hexagonal.dimension lyt) t ∧ GateLevel.is_empty_tile (GateLevel.strg l) t = false ∧
         tile_cell l t i j v ∧ p = dot_position (h := h) t i j) ∧
    (∀ t t' i j i' j' v v', inside (Hexagonal.dimension lyt) t → inside (Hexagonal.dimension lyt) t' →
       v ≠ Sidb.EMPTY → v' ≠ Sidb.EMPTY → tile_cell l t i j v → tile_cell l t' i' j' v' →
       dot_position (h := h) t i j = dot_position (h := h) t' i' j' → t = t').
Proof.
  intros lyt Hl Hset Hsup Hf Hlen.
  destruct (bestagon_result l fuel Hl Hset Hsup Hf Hlen) as (c & E & Hname & Hst). exists c. split_and!; [done..| |].
  - intros p v Hv. setoid_rewrite (λ t i j, tile_cell_dot l t i j v Hv).
    destruct (dotted_type _ _ Hst p) as [[-> Hd]|[-> Hd]]; split.
    + intros <-. naive_solver.
    + intros (t & i & j & _ & _ & [-> _] & _). done.
    + by intros <-.
    + intros (t & i & j & Ht & He & [_ Hdot] & ->). destruct Hd. by exists t, i, j.
  - intros t t' i j i' j' v v' Ht Ht' Hv Hv' [_ Hd%tile_dot_framed]%tile_cell_dot [_ Hd'%tile_dot_framed]%tile_cell_dot Ep;
      [|done..]. destruct Hd, Hd'. eapply (dot_position_inj (h := h)) in Ep as (-> & _); [done| |done..].
    by destruct Ht as [-> _], Ht' as [-> _].
Qed.

(** Contrary to the documentation of [set_up_gate], no inputs and outputs are marked. *)
Lemma bestagon_marks_no_io `{GateLevel.Mockturtle} {h}
    (l : GateLevel.gate_level_layout (Hexagonal.hexagonal_layout h)) (fuel : nat) :
  layout_wf l → settled l → hex_supported l → hex_fits (Clocked.coordinate_layout (GateLevel.clocked l)) →
  Z.of_nat (length (GateLevel.nodes (GateLevel.strg l))) < 2 ^ 32 →
  ∃ c, Apply.apply_gate_library fuel l = Some (Apply.Done c) ∧
    ∀ p, CellLevel.is_pi (CellLevel.strg c) p = false ∧ CellLevel.is_po (CellLevel.strg c) p = false ∧
         CellLevel.get_cell_name (CellLevel.strg c) p = "".
Proof.
  intros Hl Hset Hsup Hf Hlen.
  destruct (bestagon_result l fuel Hl Hset Hsup Hf Hlen) as (c & E & _ & Hst). exists c. split; [done|].
  intros p. destruct (dotted_io _ _ Hst p). split_and!; [done|done|]. by apply (dotted_name _ _ Hst).
Qed.

Lemma hex_layout_spec : layout_wf hex_layout ∧ GateLevel.clocked hex_layout = hex_clocked.
Proof. apply (built_spec hex_clocked "hexagons" hex_ops). allowed_by_evaluation. Qed.

Lemma hex_layout_settled : settled hex_layout ∧ hex_supported hex_layout.
Proof.
  destruct hex_layout_spec as [_ Hc]. split.
  - apply settled_sound; [rewrite Hc|]; clear Hc; by vm_compute.
  - apply hex_supported_sound; [rewrite Hc|]; clear Hc; by vm_compute.
Qed.

Lemma bestagon_applied_witness :
  ∃ c, Apply.apply_gate_library 0 hex_layout = Some (Apply.Done c) ∧
    ∀ p v, v ≠ Sidb.EMPTY →
      CellLevel.get_cell_type (CellLevel.strg c) p = v ↔
      ∃ t i j, inside (UCoord 0 1 3 3) t ∧ GateLevel.is_empty_tile (GateLevel.strg hex_layout) t = false ∧
        tile_cell hex_layout t i j v ∧ p = dot_position (h := Hexagonal.odd_row_hex) t i j.
Proof.
  destruct hex_layout_spec as [Hl Hc]. destruct hex_layout_settled as [Hset Hsup].
  destruct (bestagon_applied hex_layout 0) as (c & Ec & _ & Hcells & _); [exact Hl|exact Hset|exact Hsup|..].
  - rewrite Hc. clear Hl Hc. split_and!; by vm_compute.
  - clear Hl Hc. by vm_compute.
  - exists c. split; [exact Ec|]. rewrite Hc in Hcells. exact Hcells.
Defined.

(** Wires continue across tiles: below a tile, the dots of its arm and of the arm of the tile that it
    leads to form one chain in which the steps between dots alternate between (4, 2) and (2, 2), to the
    right or to the left, as they do within the arms. The step between the tiles differs only for the
    gate that is drawn one row lower than all others, the mirrored straight wire. *)
Theorem bestagon_wires_continue {h} (lyt : Hexagonal.hexagonal_layout h) (t t' : ucoord_t)
    (g g' : fcn_gate) :
  let k := Z.of_nat (row_shift g') - Z.of_nat (row_shift g) in
  hex_fits lyt → hex_representable lyt → inside (Hexagonal.dimension lyt) t → t' ≠ t →
  (Hexagonal.south_east lyt t = Some t' →
   steps_between (arm_cells (h := h) t g SOUTH_EAST ++ arm_cells (h := h) t' g' NORTH_WEST) =
     [(4, 2); (2, 2); (4, 2 + k); (2, 2); (4, 2); (2, 2)]) ∧
  (Hexagonal.south_west lyt t = Some t' →
   steps_between (arm_cells (h := h) t g SOUTH_WEST ++ arm_cells (h := h) t' g' NORTH_EAST) =
     [(-4, 2); (-2, 2); (-4, 2 + k); (-2, 2); (-4, 2); (-2, 2)]).
Proof.
  intros k Hf Hl Ht Hne. pose proof Hf as (Hh & _). unfold k, arm_cells.
  generalize (row_shift g), (row_shift g'). intros r r'.
  unfold Hexagonal.south_east, Hexagonal.south_west. rewrite Hh.
  assert (unit_direction (Cube.coord3 0 (-1) 1) ∧ unit_direction (Cube.coord3 (-1) 0 1)) as [U1 U2]
    by (vm_compute; repeat split; discriminate).
  split; intros Hn;
    [destruct (neighbor_tile lyt t t' _ Hf Hl Ht U1 Hn Hne) as (_ & _ & Hy & Hx)
    |destruct (neighbor_tile lyt t t' _ Hf Hl Ht U2 Hn Hne) as (_ & _ & Hy & Hx)];
    [change (Cube.cx _) with 0 in Hx; change (Cube.cz _) with 1 in Hx, Hy
    |change (Cube.cx _) with (-1) in Hx; change (Cube.cz _) with 1 in Hx, Hy];
    rewrite Hy in Hx; unfold steps_between, arm, dot_position; cbn -[Z.mul Z.add Z.sub Z.of_nat Nat.add];
    rewrite !Hy; repeat f_equal; lia.
Qed.

Lemma bestagon_wires_continue_witness :
  steps_between (arm_cells (h := Hexagonal.odd_row_hex) (tile 0 1) Bestagon.CONJUNCTION SOUTH_EAST ++
                 arm_cells (h := Hexagonal.odd_row_hex) (tile 1 2) Bestagon.DIAGONAL_WIRE NORTH_WEST) =
    [(4, 2); (2, 2); (4, 2); (2, 2); (4, 2); (2, 2)].
Proof.
  apply (bestagon_wires_continue (Clocked.coordinate_layout hex_clocked) (tile 0 1) (tile 1 2)
           Bestagon.CONJUNCTION Bestagon.DIAGONAL_WIRE).
  - split_and!; by vm_compute.
  - split_and!; by vm_compute.
  - vm_compute. repeat split; discriminate.
  - done.
  - by vm_compute.
Defined.

(** The cell-level layout does not fit the shifted grid of hexagons. Dots in the right half of the
    last tile of a shifted row lie beyond the last column of the cell-level layout. And since its tiles
    of 60 x 46 cells are not shifted and do not overlap, the clock number of a dot is that of the tile
    at its quotients by 60 and 46, which is another tile of the hexagonal layout for instance for all
    dots in the upper 36 rows of the gates in row 3. *)
Theorem bestagon_overhang `{GateLevel.Mockturtle} {h}
    (l : GateLevel.gate_level_layout (Hexagonal.hexagonal_layout h)) (t : ucoord_t) (i j : nat) :
  let lyt := Clocked.coordinate_layout (GateLevel.clocked l) in
  let cells := Apply.cell_clocked l in
  let p := dot_position (h := h) t i j in
  hex_fits lyt → inside (Hexagonal.dimension lyt) t → (i < 46)%nat → (j < 60)%nat →
  (ux t = Hexagonal.x lyt → row_parity (h := h) (uy t) = 1 → (30 <= j)%nat →
   Cartesian.is_within_bounds (Clocked.coordinate_layout cells) p = false) ∧
  (∀ st, CellLevel.tile_size_x st = 60 → CellLevel.tile_size_y st = 46 →
   CellLevel.get_clock_number (CellLevel.CellLevelLayout cells st) p =
     Some (clock_number_at (Clocked.clocking (GateLevel.clocked l))
       (UCoord 0 (uz t) ((34 * uy t + Z.of_nat i) / 46)
          ((60 * ux t + 30 * row_parity (h := h) (uy t) + Z.of_nat j) / 60)))) ∧
  (uy t = 3 → (i < 36)%nat → (34 * uy t + Z.of_nat i) / 46 = 2).
Proof.
  intros lyt cells p (Hh & Hd & Hx & Hy) Ht Hi Hj. pose proof (proper_dimension_bounds _ Hd).
  pose proof (row_parity_bounds (h := h) (uy t)). unfold inside in Ht. split; [|split].
  - intros Hlast Hodd Hright. unfold Cartesian.is_within_bounds, cells, Apply.cell_clocked, Cartesian.x.
    simpl. fold lyt. unfold Hexagonal.x in Hlast. rewrite !(wrap_small 64) by (unfold in_width; lia).
    unfold ucoord3. cbn [ux uy uz]. rewrite !wrap_small by (unfold in_width; lia).
    rewrite Hodd, Hlast. apply andb_false_iff. left. apply andb_false_iff. left. lia.
  - intros st Sx Sy. unfold CellLevel.get_clock_number. cbn [CellLevel.strg]. rewrite Sx, Sy. simpl.
    unfold Clocked.get_clock_number. simpl. do 2 f_equal. unfold ucoord3.
    pose proof (Z.div_pos (34 * uy t + Z.of_nat i) 46 ltac:(lia) ltac:(lia)).
    pose proof (Z.div_le_upper_bound (34 * uy t + Z.of_nat i) 46 (34 * uy t + Z.of_nat i)).
    pose proof (Z.div_pos (60 * ux t + 30 * row_parity (h := h) (uy t) + Z.of_nat j) 60 ltac:(lia) ltac:(lia)).
    pose proof (Z.div_le_upper_bound (60 * ux t + 30 * row_parity (h := h) (uy t) + Z.of_nat j) 60
      (60 * ux t + 30 * row_parity (h := h) (uy t) + Z.of_nat j)).
    rewrite !wrap_small by (unfold in_width; lia). reflexivity.
  - intros -> Hup. symmetry. apply (Z.div_unique_pos _ _ _ (10 + Z.of_nat i)); lia.
Qed.

Lemma bestagon_overhang_witness :
  Cartesian.is_within_bounds (Clocked.coordinate_layout (Apply.cell_clocked hex_layout))
    (dot_position (h := Hexagonal.odd_row_hex) (tile 3 3) 8 40) = false.
Proof.
  pose proof (proj2 hex_layout_spec) as Hc.
  destruct (bestagon_overhang hex_layout (tile 3 3) 8 40) as [Hout _].
  - rewrite Hc. clear Hc. split_and!; by vm_compute.
  - rewrite Hc. clear Hc. vm_compute. repeat split; discriminate.
  - lia.
  - lia.
  - apply Hout; [rewrite Hc; reflexivity|reflexivity|lia].
Defined.
