(* ===== verification/InmlTopolinanoLibrary.v ===== *)
(** * The ToPoliNano library (include/fiction/technology/inml_topolinano_library.hpp)

    The gates of 4 x 4 magnets for tiles of vertically shifted layouts, the lookup tables from ports
    to gates, [set_up_gate], which selects the gate for a tile of a gate-level layout, and
    [post_layout_optimization], which straightens wires. The theorems are in
    [InmlTopolinanoProperties.v]. *)

From S2P Require Import Prelude.
From S2P Require Import Coordinates.
From S2P Require Import CoordinateLayout.
From S2P Require Import CartesianLayout.
From S2P Require Import ClockingScheme.
From S2P Require Import ClockedLayout.
From S2P Require Import GateLevelLayout.
From S2P Require Import CellTechnology.
From S2P Require Import CellLevelLayout.
From S2P Require Import CellPorts.
From S2P Require Import FcnGateLibrary.
#[local] Open Scope Z_scope.
Import Offset.

#[local] Existing Instance Inml.inml_technology.

Module Topolinano.

(** ** Gates *)

Definition CONJUNCTION : fcn_gate :=
  gate_rows ["d   "; "dxxx"; "d   "; "    "].

Definition DISJUNCTION : fcn_gate :=
  gate_rows ["u   "; "uxxx"; "u   "; "    "].

Definition MAJORITY : fcn_gate :=
  gate_rows ["xx  "; " x  "; "xxxx"; " x  "].

Definition LOWER_STRAIGHT_INVERTER : fcn_gate :=
  gate_rows ["    "; "    "; "nnnn"; "    "].

Definition BOTTOM_LOWER_STRAIGHT_INVERTER : fcn_gate :=
  gate_rows ["    "; "    "; "nnnn"; "x   "].

Definition UPPER_STRAIGHT_INVERTER : fcn_gate :=
  gate_rows ["nnnn"; "    "; "    "; "    "].

Definition TOP_DOWN_BENT_INVERTER : fcn_gate :=
  gate_rows ["x   "; "x   "; "nnnn"; "    "].

Definition BOTTOM_UP_BENT_INVERTER : fcn_gate :=
  gate_rows ["nnnn"; "x   "; "x   "; "    "].

Definition BOTTOM_LOWER_UP_BENT_INVERTER : fcn_gate :=
  gate_rows ["nnnn"; "x   "; "x   "; "x   "].

Definition CROSSWIRE : fcn_gate :=
  gate_rows ["c cx"; " c  "; "c cx"; "    "].

Definition COUPLER : fcn_gate :=
  gate_rows ["ffxx"; "f   "; "ffxx"; "    "].

Definition LOWER_WIRE : fcn_gate :=
  gate_rows ["    "; "    "; "xxxx"; "    "].

Definition UPPER_WIRE : fcn_gate :=
  gate_rows ["xxxx"; "    "; "    "; "    "].

Definition TOP_DOWN_BENT_WIRE : fcn_gate :=
  gate_rows ["x   "; "xxx "; "  xx"; "    "].

Definition BOTTOM_UP_BENT_WIRE : fcn_gate :=
  gate_rows ["   x"; "xxxx"; "x   "; "    "].

Definition TOP_DOWN_STAIRCASE_WIRE : fcn_gate :=
  gate_rows ["x   "; "xxx "; "  x "; "  xx"].

Definition BOTTOM_UP_STAIRCASE_WIRE : fcn_gate :=
  gate_rows ["  xx"; "  x "; "xxx "; "x   "].

Definition BOTTOM_DOWN_BENT_WIRE : fcn_gate :=
  gate_rows ["    "; "    "; "xxx "; "  xx"].

Definition MAJORITY_WIRE : fcn_gate :=
  gate_rows ["xx  "; "    "; "    "; "    "].

Definition COUPLER_WIRE : fcn_gate :=
  gate_rows ["    "; "    "; "xxxx"; "x   "].

(** ** Lookup tables *)

(** The rotations of constant gates, which are evaluated before the program starts. *)
Definition rotated_180 (g : fcn_gate) : fcn_gate := default [] (rotate_180 g).

(** A port list from the initializer lists of its sets. *)
Definition ports (inp out : list port_position) : port_list port_position :=
  PortList (set_of_list position_ltb inp) (set_of_list position_ltb out).

Definition port_gate_map : Type := list (port_list port_position * fcn_gate).

(** [at(p)]. *)
Definition gate_at : port_gate_map → port_list port_position → option fcn_gate :=
  map_at (port_list_eqb position_eqb).

Definition WIRE_MAP : port_gate_map :=
  [(ports [port_at 0 2] [port_at 3 2], LOWER_WIRE);
   (ports [] [port_at 3 2], LOWER_WIRE);
   (ports [port_at 0 2] [], LOWER_WIRE);
   (ports [port_at 0 0] [port_at 3 0], UPPER_WIRE);
   (ports [] [port_at 3 0], UPPER_WIRE);
   (ports [port_at 0 0] [], UPPER_WIRE);
   (ports [port_at 0 3] [port_at 3 3], rotated_180 UPPER_WIRE);
   (ports [] [port_at 3 3], rotated_180 UPPER_WIRE);
   (ports [port_at 0 3] [], rotated_180 UPPER_WIRE);
   (ports [port_at 0 0] [port_at 3 2], TOP_DOWN_BENT_WIRE);
   (ports [port_at 0 2] [port_at 3 0], BOTTOM_UP_BENT_WIRE);
   (ports [port_at 0 2] [port_at 3 3], BOTTOM_DOWN_BENT_WIRE);
   (ports [port_at 0 0] [port_at 3 3], TOP_DOWN_STAIRCASE_WIRE);
   (ports [port_at 0 3] [port_at 3 0], BOTTOM_UP_STAIRCASE_WIRE);
   (ports [port_at 0 0] [port_at 1 0], MAJORITY_WIRE);
   (ports [port_at 0 3] [port_at 3 2], COUPLER_WIRE)].

Definition INVERTER_MAP : port_gate_map :=
  [(ports [port_at 0 2] [port_at 3 2], LOWER_STRAIGHT_INVERTER);
   (ports [port_at 0 3] [port_at 3 2], BOTTOM_LOWER_STRAIGHT_INVERTER);
   (ports [port_at 0 0] [port_at 3 0], UPPER_STRAIGHT_INVERTER);
   (ports [port_at 0 2] [], LOWER_STRAIGHT_INVERTER);
   (ports [port_at 0 0] [], UPPER_STRAIGHT_INVERTER);
   (ports [] [port_at 3 2], LOWER_STRAIGHT_INVERTER);
   (ports [] [port_at 3 0], UPPER_STRAIGHT_INVERTER);
   (ports [port_at 0 0] [port_at 3 2], TOP_DOWN_BENT_INVERTER);
   (ports [port_at 0 2] [port_at 3 0], BOTTOM_UP_BENT_INVERTER);
   (ports [port_at 0 3] [port_at 3 0], BOTTOM_LOWER_UP_BENT_INVERTER)].

(** The port on the other side of the tile in the same row; [None] is [std::out_of_range]. *)
Definition opposite (p : port_position) : option port_position :=
  if bool_decide (port_y p ∈ [0; 1; 2; 3]) then
    if port_x p =? 0 then Some (port_at 3 (port_y p))
    else if port_x p =? 3 then Some (port_at 0 (port_y p))
    else None
  else None.

(** ** Gate selection *)

(** [if (b) { x } else { y }]. *)
Definition if_else {A} (b : option bool) (x y : option A) : option A :=
  c ← b; if (c : bool) then x else y.

Section SetUp.
Context `{GateLevel.Mockturtle} {L : Type} `{CoordinateLayout L}.
Import GateLevel.
Implicit Types (l : gate_level_layout L) (t : ucoord_t) (n : Z).

(** [s.emplace(x, y)], by itself and under a condition. *)
Definition emplace (x y : Z) (s : list port_position) : list port_position :=
  set_insert position_ltb (port_at x y) s.
Definition emplace_if (b : bool) (x y : Z) (s : list port_position) : list port_position :=
  if b then emplace x y s else s.

(** An iteration that ends when a test holds. *)
Fixpoint any_of {A} (test : A → option bool) (v : list A) : option bool :=
  match v with
  | [] => Some false
  | a :: v' => opt_or (test a) (any_of test v')
  end.

Definition is_and_or_maj l n : option bool :=
  opt_or (is_and (strg l) n) (opt_or (is_or (strg l) n) (is_maj (strg l) n)).

Definition has_and_or_maj_fanin l n : option bool :=
  fis ← foreach_fanin l n; any_of (λ fi, is_and_or_maj l (get_node (strg l) fi)) fis.

Definition has_fanout_fanout l n : option bool :=
  fons ← foreach_fanout l n; any_of (is_fanout l) fons.

(** *** Ports of wires within the circuit *)

Definition wire_input l t n : option (list port_position) :=
  let inp x y := Some (emplace x y []) in
  if_else (has_northern_incoming_signal l t) (inp 0 0)
    (if_else (has_southern_incoming_signal l t) (inp 0 3)
      (if_else (has_north_western_incoming_signal l t) (inp 0 0)
        (if_else (has_south_western_incoming_signal l t)
          (if_else (has_and_or_maj_fanin l n) (inp 0 3) (inp 0 2))
          (inp 0 0)))).

Definition wire_output l t n : option (list port_position) :=
  let out x y := Some (emplace x y []) in
  let northern := north (Clocked.coordinate_layout (clocked l)) t in
  if_else (has_northern_outgoing_signal l t)
    (if_else (is_maj (strg l) (get_node_at (strg l) northern)) (out 1 0) (out 3 0))
    (if_else (has_southern_outgoing_signal l t) (out 3 3)
      (if_else (has_north_eastern_outgoing_signal l t) (out 3 0)
        (if_else (has_south_eastern_outgoing_signal l t)
          (if_else (has_fanout_fanout l n) (out 3 3) (out 3 2))
          (out 3 2)))).

(** *** Ports of all other tiles

    The ports found so far, [inl] when they are returned early. *)
Abbreviation routing := (port_list port_position + port_list port_position)%type.

Definition output_ports l t n : option routing :=
  if_else (is_po l n)
    (if_else (has_and_or_maj_fanin l n)
      (if_else (has_south_western_incoming_signal l t)
        (Some (inl (PortList (emplace 0 3 []) (emplace 3 3 []))))
        (Some (inr (PortList [] []))))
      (if_else (has_north_western_incoming_signal l t) (Some (inr (PortList [] (emplace 3 0 []))))
        (if_else (has_south_western_incoming_signal l t)
          (Some (inr (PortList [] (emplace 3 2 []))))
          (Some (inr (PortList [] []))))))
    (Some (inr (PortList [] []))).

Definition incoming_ports l t n (inp : list port_position) : option (list port_position) :=
  nw ← has_north_western_incoming_signal l t;
  let inp := emplace_if nw 0 0 inp in
  if_else (has_south_western_incoming_signal l t)
    (if_else (opt_or (is_po l n) (is_inv (strg l) n))
      (if_else (has_and_or_maj_fanin l n) (Some (emplace 0 3 inp)) (Some (emplace 0 2 inp)))
      (Some (emplace 0 2 inp)))
    (Some inp).

Definition input_ports l t n (p : port_list port_position) : option routing :=
  if_else (is_pi l n)
    (if_else (has_fanout_fanout l n)
      (Some (inl (PortList (emplace 0 3 (port_inp p)) (emplace 3 3 (port_out p)))))
      (if_else (has_north_eastern_outgoing_signal l t)
        (Some (inr (PortList (emplace 0 0 (port_inp p)) (port_out p))))
        (if_else (has_south_eastern_outgoing_signal l t)
          (Some (inr (PortList (emplace 0 2 (port_inp p)) (port_out p))))
          (Some (inr p)))))
    (Some (inr p)).

Definition outgoing_ports l t n (out : list port_position) : option (list port_position) :=
  out ← if_else (has_north_eastern_outgoing_signal l t)
    (if_else (is_and_or_maj l n) (Some (emplace 3 1 out)) (Some (emplace 3 0 out)))
    (Some out);
  se ← has_south_eastern_outgoing_signal l t;
  Some (emplace_if se 3 2 out).

Definition other_ports l t n : option (port_list port_position) :=
  r ← output_ports l t n;
  match r with
  | inl p => Some p
  | inr p =>
      inp ← incoming_ports l t n (port_inp p);
      r ← input_ports l t n (PortList inp (port_out p));
      match r with
      | inl p => Some p
      | inr p => out ← outgoing_ports l t n (port_out p); Some (PortList (port_inp p) out)
      end
  end.

Definition determine_port_routing l t : option (port_list port_position) :=
  let n := get_node_at (strg l) t in
  if_else (opt_and (is_buf (strg l) n) (opt_and (negb <$> is_pi l n) (negb <$> is_po l n)))
    (inp ← wire_input l t n; out ← wire_output l t n; Some (PortList inp out))
    (other_ports l t n).

(** *** The gate of a tile *)

(** The first port of [first], or the one opposite to the first port of [second]. The outer option is
    the access to the first element of an empty set, the inner one the exception of [opposite]. *)
Definition mark_position (first second : list port_position) : option (option port_position) :=
  match first, second with
  | q :: _, _ => Some (Some q)
  | [], q :: _ => Some (opposite q)
  | [], [] => None
  end.

(** [mark_cell] under a condition. *)
Definition mark_if (b : bool) (first second : list port_position) (mark : Z) (g : fcn_gate) :
    option (option fcn_gate) :=
  if b then
    q ← mark_position first second;
    match q with
    | Some q => g ← mark_cell g q mark; Some (Some g)
    | None => Some None
    end
  else Some (Some g).

Definition set_up_wire l t n (p : port_list port_position) : option (gate_result port_position) :=
  let a := above (Clocked.coordinate_layout (clocked l)) t in
  if_else (if neqb t a then is_wire_tile l a else Some false)
    (Some (Gate CROSSWIRE))
    match gate_at WIRE_MAP p with
    | None => Some (UnsupportedOrientation t p)
    | Some wire =>
        pi ← is_pi l n;
        wire ← mark_if pi (port_inp p) (port_out p) Inml.INPUT wire;
        match wire with
        | None => Some (UnsupportedOrientation t p)
        | Some wire =>
            po ← is_po l n;
            wire ← mark_if po (port_out p) (port_inp p) Inml.OUTPUT wire;
            Some (lookup_result t p wire)
        end
    end.

Definition set_up_gate l t : option (gate_result port_position) :=
  let s := strg l in
  let n := get_node_at s t in
  if_else (is_fanout l n) (Some (Gate COUPLER))
    (if_else (is_and s n) (Some (Gate CONJUNCTION))
      (if_else (is_or s n) (Some (Gate DISJUNCTION))
        (if_else (is_maj s n) (Some (Gate MAJORITY))
          (p ← determine_port_routing l t;
           if_else (is_inv s n) (Some (lookup_result t p (gate_at INVERTER_MAP p)))
             (if_else (is_buf s n) (set_up_wire l t n p) (Some (UnsupportedType t))))))).
End SetUp.

(** ** Post-layout optimization *)

Section PostLayout.
Import CellLevel.
Context (cl : Clocked.clocked_layout Cartesian.cartesian_layout).
#[local] Abbreviation lyt := (Clocked.coordinate_layout cl).
Implicit Types (s : cell_level_layout_storage) (c hc : ucoord_t) (hump : list ucoord_t).

(** The bodies of the loops that merge a hump with the row below or above. *)
Definition merge_cell_down s hc : cell_level_layout_storage :=
  let t := Cartesian.south lyt hc in
  let s :=
    if negb (get_cell_type s t =? Inml.INVERTER_MAGNET) then
      let s := assign_cell_type s t (get_cell_type s hc) in
      let s := assign_cell_mode s t (get_cell_mode s hc) in
      assign_cell_name s t (get_cell_name s hc)
    else s in
  let s := assign_cell_type s hc Inml.EMPTY in
  assign_cell_name s hc "".

Definition merge_cell_up s hc : cell_level_layout_storage :=
  let t := Cartesian.north lyt hc in
  let s := assign_cell_type s t (get_cell_type s hc) in
  let s := assign_cell_mode s t (get_cell_mode s hc) in
  let s := assign_cell_name s t (get_cell_name s hc) in
  let s := assign_cell_type s hc Inml.EMPTY in
  assign_cell_name s hc "".

(** The cells from [hump.begin() + 1] up to [hump.end() - 2]; when the latter comes first, which it
    does in a hump of two cells, the iteration leaves the vector. *)
Definition inner_cells hump : option (list ucoord_t) :=
  if (length hump <? 3)%nat then None else Some (take (length hump - 3) (drop 1 hump)).

Definition is_upper_hump s (front back : ucoord_t) : bool :=
  let inp := get_cell_type s front in
  let out := get_cell_type s back in
  let fts := get_cell_type s (Cartesian.south lyt front) in
  let bts := get_cell_type s (Cartesian.south lyt back) in
  ((inp =? Inml.INPUT) || (fts =? Inml.NORMAL)) &&
  ((bts =? Inml.NORMAL) || (out =? Inml.OUTPUT) || (bts =? Inml.INVERTER_MAGNET)).

Definition is_lower_hump s (front back : ucoord_t) : bool :=
  let inp := get_cell_type s front in
  let out := get_cell_type s back in
  let ftn := get_cell_type s (Cartesian.north lyt front) in
  let btn := get_cell_type s (Cartesian.north lyt back) in
  ((inp =? Inml.INPUT) || (ftn =? Inml.NORMAL)) && ((btn =? Inml.NORMAL) || (out =? Inml.OUTPUT)).

(** The lambda [handle], with the flag [improvement_found]. *)
Definition handle s (improved : bool) hump : option (cell_level_layout_storage * bool) :=
  match hump with
  | front :: _ :: _ =>
      let back := List.last hump front in
      if is_upper_hump s front back then
        inner ← inner_cells hump;
        if forallb (λ hc, is_empty_cell s (Cartesian.south lyt (Cartesian.south lyt hc))) inner
        then Some (foldl merge_cell_down s hump, true)
        else Some (s, improved)
      else if is_lower_hump s front back then
        inner ← inner_cells hump;
        if forallb (λ hc, is_empty_cell s (Cartesian.north lyt (Cartesian.north lyt hc))) inner
        then Some (foldl merge_cell_up s hump, true)
        else Some (s, improved)
      else Some (s, improved)
  | _ => Some (s, improved)
  end.

(** The state machine that finds humps. *)
Inductive status := SEARCH | COLLECT | SKIP.

Record scan := Scan {
  st : status;
  hump_cells : list ucoord_t;
  cells : cell_level_layout_storage;
  improvement_found : bool;
}.

Definition visit (sc : scan) c : option scan :=
  let '(Scan st hump s improved) := sc in
  let t := get_cell_type s c in
  match st with
  | SEARCH =>
      if (t =? Inml.NORMAL) || (t =? Inml.INPUT) || (t =? Inml.INVERTER_MAGNET)
      then Some (Scan COLLECT (hump ++ [c]) s improved)
      else if t =? Inml.EMPTY then Some sc
      else Some (Scan SKIP hump s improved)
  | COLLECT =>
      if (t =? Inml.NORMAL) || (t =? Inml.INVERTER_MAGNET)
      then Some (Scan COLLECT (hump ++ [c]) s improved)
      else if (t =? Inml.EMPTY) || (t =? Inml.OUTPUT)
      then r ← handle s improved hump; Some (Scan SEARCH [] r.1 r.2)
      else Some (Scan SKIP [] s improved)
  | SKIP => if t =? Inml.EMPTY then Some (Scan SEARCH hump s improved) else Some sc
  end.

Fixpoint visit_all (sc : scan) (cs : list ucoord_t) : option scan :=
  match cs with
  | [] => Some sc
  | c :: cs' => sc ← visit sc c; visit_all sc cs'
  end.

(** A row; the hump is local to it, the status is not. *)
Definition row_cells (row : Z) : list ucoord_t :=
  (λ column, ucoord2 column row) <$> seqZ 0 (Cartesian.x lyt + 1).

Definition visit_row (sc : scan) (row : Z) : option scan :=
  visit_all (Scan (st sc) [] (cells sc) (improvement_found sc)) (row_cells row).

Fixpoint visit_rows (sc : scan) (rows : list Z) : option scan :=
  match rows with
  | [] => Some sc
  | row :: rows' => sc ← visit_row sc row; visit_rows sc rows'
  end.

(** The body of the [do] loop: the cells, and whether an improvement was found. *)
Definition pass s : option (cell_level_layout_storage * bool) :=
  sc ← visit_rows (Scan SEARCH [] s false) (seqZ 0 (Cartesian.y lyt + 1));
  Some (cells sc, improvement_found sc).

(** The [do] loop, for at most [fuel] passes. [Some None] is undefined behaviour, [None] is a lack of
    fuel. *)
Fixpoint straighten (fuel : nat) s : option (option cell_level_layout_storage) :=
  match fuel with
  | O => None
  | S fuel' =>
      match pass s with
      | None => Some None
      | Some (s, true) => straighten fuel' s
      | Some (s, false) => Some (Some s)
      end
  end.

Definition post_layout_optimization (fuel : nat) s : option cell_level_layout_storage :=
  r ← straighten fuel s; r.
End PostLayout.

End Topolinano.
