(* ===== verification/InmlTopolinanoProperties.v ===== *)
(** * Theorems on the ToPoliNano library

    What the gates of [InmlTopolinanoLibrary.v] connect, how the ports of adjacent tiles of a shifted
    layout meet, and the termination of the straightening of wires. *)

From S2P Require Import Prelude.
From S2P Require Import Coordinates.
From S2P Require Import CoordinateLayout.
From S2P Require Import CartesianLayout.
From S2P Require Import HexagonalLayout.
From S2P Require Import ShiftedCartesianLayout.
From S2P Require Import ClockingScheme.
From S2P Require Import ClockedLayout.
From S2P Require Import GateLevelLayout.
From S2P Require Import GateLevelInvariant.
From S2P Require Import MockturtleModel.
From S2P Require Import GateLevelProperties.
From S2P Require Import CellTechnology.
From S2P Require Import CellLevelLayout.
From S2P Require Import CellPorts.
From S2P Require Import FcnGateLibrary.
From S2P Require Import GatePaths.
From S2P Require Import ApplyGateLibrary.
From S2P Require Import InmlTopolinanoLibrary.
#[local] Open Scope Z_scope.
Import Offset Topolinano.

#[local] Existing Instance Inml.inml_technology.

#[export] Instance topolinano_library `{GateLevel.Mockturtle} {a} :
    GateLibrary (H := Inml.inml_technology)
      (GateLevel.gate_level_layout (ShiftedCartesian.shifted_cartesian_layout a)) := {
  gate_port := port_position;
  gate_size_x := 4;
  gate_size_y := 4;
  set_up_gate := Topolinano.set_up_gate;
  post_layout_optimization := Some Topolinano.post_layout_optimization;
}.

(** ** Straightening *)

Section Straightening.
Import CellLevel.
Context (cl : Clocked.clocked_layout Cartesian.cartesian_layout).
#[local] Abbreviation lyt := (Clocked.coordinate_layout cl).
#[local] Abbreviation storage := (@cell_level_layout_storage Inml.inml_technology).
Implicit Types (s : storage) (c hc : ucoord_t) (hump : list ucoord_t).

(** The number of cells. *)
Definition magnets s : nat := size (cell_type_map s).

Definition nonempty s c : Prop := is_empty_cell s c = false.

Lemma nonempty_lookup s c : nonempty s c → ∃ t, cell_type_map s !! c = Some t.
Proof.
  unfold nonempty, is_empty_cell, get_cell_type. destruct (cell_type_map s !! c) as [t|]; [by exists t|done].
Qed.

Lemma nonempty_type s c v : get_cell_type s c = v → v ≠ Inml.EMPTY → nonempty s c.
Proof. intros E Hv. unfold nonempty, is_empty_cell. rewrite E. by apply Z.eqb_neq. Qed.

Lemma assign_type_nonempty s c ct a :
  tech_is_empty_cell ct = false →
  nonempty s a ∨ a = c → nonempty (assign_cell_type s c ct) a.
Proof.
  intros Hct Ha. unfold nonempty, is_empty_cell, get_cell_type, assign_cell_type. rewrite Hct. simpl.
  destruct (decide (a = c)) as [->|Hne]; [by rewrite lookup_insert_eq|].
  rewrite lookup_insert_ne by done. by destruct Ha.
Qed.

Lemma remove_nonempty s c a : nonempty s a → a ≠ c → nonempty (assign_cell_type s c Inml.EMPTY) a.
Proof.
  intros Ha Hne. unfold nonempty, is_empty_cell, get_cell_type. simpl. by rewrite lookup_delete_ne.
Qed.

Lemma assign_type_magnets s c ct :
  tech_is_empty_cell ct = false →
  (magnets (assign_cell_type s c ct) <= S (magnets s))%nat ∧
  (nonempty s c → magnets (assign_cell_type s c ct) = magnets s).
Proof.
  intros Hct. unfold magnets, assign_cell_type. rewrite Hct. cbn [cell_type_map]. split.
  - destruct (cell_type_map s !! c) as [t|] eqn:E.
    + rewrite map_size_insert_Some by done. lia.
    + rewrite map_size_insert_None by done. lia.
  - intros (t & E)%nonempty_lookup. apply map_size_insert_Some. by rewrite E.
Qed.

Lemma remove_magnets s c : nonempty s c → S (magnets (assign_cell_type s c Inml.EMPTY)) = magnets s.
Proof.
  intros (t & E)%nonempty_lookup. unfold magnets. simpl. rewrite map_size_delete_Some by done.
  assert (size (cell_type_map s) ≠ 0%nat); [|lia].
  intros Hz%map_size_empty_inv. by rewrite Hz, lookup_empty in E.
Qed.

(** What merging one cell with the cell [dst hc] does. *)
Definition merging (f : storage → ucoord_t → storage) (dst : ucoord_t → ucoord_t) : Prop :=
  ∀ s hc, nonempty s hc →
    (magnets (f s hc) <= magnets s)%nat ∧
    (nonempty s (dst hc) → (magnets (f s hc) < magnets s)%nat) ∧
    ∀ c, c ≠ hc → nonempty s c → nonempty (f s hc) c.

(** A cell that moves onto another one. *)
Lemma move_magnets s hc t :
  nonempty s hc →
  let s' := assign_cell_type (assign_cell_type s t (get_cell_type s hc)) hc Inml.EMPTY in
  (magnets s' <= magnets s)%nat ∧ (nonempty s t → (magnets s' < magnets s)%nat) ∧
  ∀ c, c ≠ hc → nonempty s c → nonempty s' c.
Proof.
  intros Hhc. set (s1 := assign_cell_type s t _). simpl.
  assert (nonempty s1 hc) as H1 by (apply assign_type_nonempty; [exact Hhc|by left]).
  destruct (assign_type_magnets s t (get_cell_type s hc) Hhc) as [Hle Heq].
  pose proof (remove_magnets s1 hc H1) as Hr. fold s1 in Hle, Heq. split_and!.
  - lia.
  - intros Ht. rewrite Heq in Hr by done. lia.
  - intros c Hc Hn. apply remove_nonempty; [|done]. apply assign_type_nonempty; [exact Hhc|by left].
Qed.

Lemma remove_only s hc :
  nonempty s hc →
  let s' := assign_cell_type s hc Inml.EMPTY in
  (magnets s' < magnets s)%nat ∧ ∀ c, c ≠ hc → nonempty s c → nonempty s' c.
Proof.
  intros Hhc. pose proof (remove_magnets s hc Hhc). split; [lia|].
  intros c Hc Hn. by apply remove_nonempty.
Qed.

Lemma merging_down : merging (merge_cell_down cl) (Cartesian.south lyt).
Proof.
  intros s hc Hhc. unfold merge_cell_down. destruct (negb _).
  - exact (move_magnets s hc (Cartesian.south lyt hc) Hhc).
  - destruct (remove_only s hc Hhc) as [Hlt Hn].
    split_and!; [exact (Nat.lt_le_incl _ _ Hlt)|intros _; exact Hlt|exact Hn].
Qed.

Lemma merging_up : merging (merge_cell_up cl) (Cartesian.north lyt).
Proof. intros s hc Hhc. exact (move_magnets s hc (Cartesian.north lyt hc) Hhc). Qed.

Lemma merge_inits f dst s hump c :
  merging f dst → NoDup (ux <$> hump) → Forall (nonempty s) hump →
  (magnets (foldl f s hump) <= magnets s)%nat ∧
  (nonempty s c → ux c ∉ ux <$> hump → nonempty (foldl f s hump) c).
Proof.
  intros Hf. revert s. induction hump as [|hc hump IH]; intros s Hnd Hall; [done|].
  apply NoDup_cons in Hnd as [Hhc Hnd]. apply Forall_cons in Hall as [Hn Hall].
  destruct (Hf s hc Hn) as (Hle & _ & Hkeep). simpl.
  destruct (IH (f s hc)) as [Hle' Hc'].
  - done.
  - rewrite Forall_forall in *. intros a Ha. apply Hkeep; [|by apply Hall].
    intros ->. apply Hhc. by apply list_elem_of_fmap_2.
  - split; [lia|]. intros Hc Hni. apply not_elem_of_cons in Hni as [Hne Hni].
    apply Hc'; [|done]. apply Hkeep; [congruence|done].
Qed.

(** Merging a hump saves a cell, when its last one is merged with a cell. *)
Lemma merge_saves f dst s hump back :
  merging f dst → (∀ c, ux (dst c) = ux c) → NoDup (ux <$> (hump ++ [back])) →
  Forall (nonempty s) (hump ++ [back]) → nonempty s (dst back) →
  (magnets (foldl f s (hump ++ [back])) < magnets s)%nat.
Proof.
  intros Hf Hux Hnd Hall Hdst. rewrite foldl_snoc. rewrite fmap_app in Hnd.
  apply NoDup_app in Hnd as (Hnd & Hdisj & _). apply Forall_app in Hall as [Hall [Hb _]%Forall_cons].
  assert (ux back ∉ ux <$> hump) as Hni by (intros Hin; apply (Hdisj _ Hin); simpl; by left).
  destruct (merge_inits f dst s hump back Hf Hnd Hall) as [Hle Hb'].
  destruct (merge_inits f dst s hump (dst back) Hf Hnd Hall) as [_ Hd'].
  destruct (Hf (foldl f s hump) back (Hb' Hb Hni)) as (_ & Hlt & _).
  specialize (Hlt ltac:(apply Hd'; [done|by rewrite Hux])). lia.
Qed.

(** *** The state machine *)

(** Either nothing has changed, or an improvement has saved cells. *)
Definition progress (a b : storage * bool) : Prop :=
  b = a ∨ b.2 = true ∧ (magnets b.1 < magnets a.1)%nat.

#[local] Instance progress_preorder : PreOrder progress.
Proof.
  split; [by left|]. intros a b c [->|Hb] [->|Hc]; [by left|by right|by right|].
  destruct Hb, Hc. right. split; [done|lia].
Qed.

(** The cells of a hump are magnets in different columns; only the first one can be an input. *)
Record hump_ok s hump : Prop := {
  hump_columns : NoDup (ux <$> hump);
  hump_magnets c : c ∈ hump → nonempty s c;
  hump_no_output c : c ∈ hump → get_cell_type s c ≠ Inml.OUTPUT;
}.

Lemma south_column c : ux (Cartesian.south lyt c) = ux c.
Proof. unfold Cartesian.south. by repeat case_match. Qed.
Lemma north_column c : ux (Cartesian.north lyt c) = ux c.
Proof. unfold Cartesian.north. by repeat case_match. Qed.

Lemma upper_hump_merges s front back :
  get_cell_type s back ≠ Inml.OUTPUT → is_upper_hump cl s front back = true →
  nonempty s (Cartesian.south lyt back).
Proof.
  unfold is_upper_hump. rewrite andb_true_iff, !orb_true_iff, !Z.eqb_eq.
  intros Hout (_ & [[E|E]|E]); [|done|]; by apply (nonempty_type _ _ _ E).
Qed.

Lemma lower_hump_merges s front back :
  get_cell_type s back ≠ Inml.OUTPUT → is_lower_hump cl s front back = true →
  nonempty s (Cartesian.north lyt back).
Proof.
  unfold is_lower_hump. rewrite andb_true_iff, !orb_true_iff, !Z.eqb_eq.
  intros Hout (_ & [E|E]); [|done]. by apply (nonempty_type _ _ _ E).
Qed.

Lemma handle_progress s b hump r :
  hump_ok s hump → handle cl s b hump = Some r → progress (s, b) r.
Proof.
  intros Hok. unfold handle. destruct hump as [|front [|c hump']]; [by intros [= <-]; left|by intros [= <-]; left|].
  set (hump := front :: c :: hump') in *. set (back := List.last hump front).
  assert (hump = removelast hump ++ [back]) as Eh by (by apply app_removelast_last).
  clearbody hump. assert (back ∈ hump) as Hback by (rewrite Eh; set_solver).
  pose proof (hump_columns _ _ Hok) as Hnd.
  assert (Forall (nonempty s) hump) as Hall by (apply Forall_forall; apply Hok).
  pose proof (hump_no_output _ _ Hok back Hback) as Hno. rewrite Eh in Hnd, Hall.
  destruct (is_upper_hump cl s front back) eqn:Eu; [|destruct (is_lower_hump cl s front back) eqn:El].
  - destruct (inner_cells hump) as [inner|]; [|done]. simpl. destruct (forallb _ _); intros [= <-]; [|by left].
    right. split; [done|]. rewrite Eh. simpl.
    eapply merge_saves; [apply merging_down|apply south_column|done..|].
    by apply (upper_hump_merges _ front).
  - destruct (inner_cells hump) as [inner|]; [|done]. simpl. destruct (forallb _ _); intros [= <-]; [|by left].
    right. split; [done|]. rewrite Eh. simpl.
    eapply merge_saves; [apply merging_up|apply north_column|done..|].
    by apply (lower_hump_merges _ front).
  - intros [= <-]. by left.
Qed.

(** The part of the state that is reported. *)
Definition found (sc : scan) : storage * bool := (cells sc, improvement_found sc).

Lemma hump_ok_nil s : hump_ok s [].
Proof. split; [constructor|intros c Hc; by apply elem_of_nil in Hc..]. Qed.

Lemma hump_ok_snoc s hump c :
  hump_ok s hump → ux c ∉ ux <$> hump → nonempty s c → get_cell_type s c ≠ Inml.OUTPUT →
  hump_ok s (hump ++ [c]).
Proof.
  intros [Hnd Hm Ho] Hni Hc Hno. split.
  - rewrite fmap_app. apply NoDup_app. split_and!; [done| |apply NoDup_singleton].
    intros x Hx ->%list_elem_of_singleton. done.
  - intros a [?| ->%list_elem_of_singleton]%elem_of_app; [by apply Hm|done].
  - intros a [?| ->%list_elem_of_singleton]%elem_of_app; [by apply Ho|done].
Qed.

(** Each step keeps the hump in columns that have been visited. *)
Lemma visit_progress sc c sc' :
  hump_ok (cells sc) (hump_cells sc) → ux c ∉ ux <$> hump_cells sc → visit cl sc c = Some sc' →
  progress (found sc) (found sc') ∧ hump_ok (cells sc') (hump_cells sc') ∧
  ∀ x, x ∈ ux <$> hump_cells sc' → x ∈ ux <$> hump_cells sc ∨ x = ux c.
Proof.
  destruct sc as [st hump s b]. simpl. intros Hok Hni.
  assert (∀ v, get_cell_type s c = v → v ≠ Inml.EMPTY → v ≠ Inml.OUTPUT →
    hump_ok s (hump ++ [c]) ∧ ∀ x, x ∈ ux <$> (hump ++ [c]) → x ∈ ux <$> hump ∨ x = ux c) as Hpush.
  { intros v E H1 H2. split; [apply hump_ok_snoc; [done|done|by eapply nonempty_type|congruence]|].
    intros x. rewrite fmap_app, elem_of_app. set_solver. }
  assert (∀ x, x ∈ ux <$> ([] : list ucoord_t) → x ∈ ux <$> hump ∨ x = ux c) as Hnil.
  { intros x Hx. by apply elem_of_nil in Hx. }
  destruct st.
  - destruct (_ || _ || _) eqn:E1.
    { intros [= <-]. split; [by left|]. rewrite !orb_true_iff, !Z.eqb_eq in E1.
      destruct E1 as [[E|E]|E]; by apply (Hpush _ E). }
    destruct (_ =? Inml.EMPTY); intros [= <-]; (split_and!; [by left|done|intros ?; by left]).
  - destruct (_ || _) eqn:E1.
    { intros [= <-]. split; [by left|]. rewrite !orb_true_iff, !Z.eqb_eq in E1.
      destruct E1 as [E|E]; by apply (Hpush _ E). }
    destruct ((_ =? Inml.EMPTY) || (_ =? Inml.OUTPUT)); [|intros [= <-]; (split_and!; [by left|apply hump_ok_nil|done])].
    intros ([s' b'] & Hr & [= <-])%bind_Some.
    split_and!; [by apply (handle_progress _ _ hump)|apply hump_ok_nil|done].
  - destruct (_ =? Inml.EMPTY); intros [= <-]; (split_and!; [by left|done|intros ?; by left]).
Qed.

Lemma visit_all_progress cs sc sc' :
  hump_ok (cells sc) (hump_cells sc) → NoDup ((ux <$> hump_cells sc) ++ (ux <$> cs)) →
  visit_all cl sc cs = Some sc' → progress (found sc) (found sc').
Proof.
  revert sc. induction cs as [|c cs IH]; intros sc Hok Hnd; simpl; [by intros [= ->]|].
  apply NoDup_app in Hnd as (Hnd & Hdisj & [Hc Hcs]%NoDup_cons).
  intros (sc1 & Hv & Hr)%bind_Some.
  destruct (visit_progress sc c sc1 Hok) as (Hp & Hok1 & Hin); [|done|].
  { intros Hx. apply (Hdisj _ Hx). simpl. by left. }
  etrans; [exact Hp|]. apply IH; [done| |done]. apply NoDup_app. split_and!; [apply Hok1| |done].
  intros x [Hx| ->]%Hin Hx'; [|done]. apply (Hdisj _ Hx). simpl. by right.
Qed.

Lemma row_columns row :
  0 <= ux (Cartesian.dimension lyt) < 2 ^ 31 → NoDup (ux <$> row_cells cl row).
Proof.
  intros Hx. unfold row_cells. rewrite <-list_fmap_compose. apply NoDup_fmap_2_strong; [|apply NoDup_seqZ].
  intros i j Hi%elem_of_seqZ Hj%elem_of_seqZ. unfold Cartesian.x in *. cbn [compose ux ucoord2].
  rewrite !wrap_small by (unfold in_width; lia). done.
Qed.

Lemma visit_rows_progress rows sc sc' :
  0 <= ux (Cartesian.dimension lyt) < 2 ^ 31 →
  visit_rows cl sc rows = Some sc' → progress (found sc) (found sc').
Proof.
  intros Hx. revert sc. induction rows as [|row rows IH]; intros sc; simpl; [by intros [= ->]|].
  intros (sc1 & Hv & Hr)%bind_Some. etrans; [|by apply IH]. unfold visit_row in Hv.
  eapply (visit_all_progress _ (Scan _ _ _ _)); [| |exact Hv]; [apply hump_ok_nil|].
  by apply row_columns.
Qed.

Lemma pass_progress s r :
  0 <= ux (Cartesian.dimension lyt) < 2 ^ 31 → pass cl s = Some r → progress (s, false) r.
Proof.
  intros Hx (sc & Hv & [= <-])%bind_Some. by apply (visit_rows_progress _ (Scan _ _ _ _) _ Hx) in Hv.
Qed.

Lemma straighten_spec fuel s :
  0 <= ux (Cartesian.dimension lyt) < 2 ^ 31 → (magnets s < fuel)%nat →
  ∃ r, straighten cl fuel s = Some r ∧
    ∀ s', r = Some s' → pass cl s' = Some (s', false) ∧ (magnets s' <= magnets s)%nat.
Proof.
  intros Hx. revert s. induction fuel as [|fuel IH]; intros s Hf; [lia|]. simpl.
  destruct (pass cl s) as [[s1 [|]]|] eqn:E; [| |by exists None].
  - apply pass_progress in E as [|[_ Hlt]]; [done| |done]. simpl in Hlt.
    destruct (IH s1) as (r & Hr & Hs); [lia|]. exists r. split; [done|].
    intros s' Hs'. destruct (Hs s' Hs'). split; [done|lia].
  - exists (Some s1). split; [done|]. intros s' [= <-].
    pose proof E as E'. apply pass_progress in E' as [[= ->]|[[=] _]]; done.
Qed.
End Straightening.

(** ** Gates *)

(** All ports are magnets, and they are on one path of adjacent magnets. *)
Record connects (p : port_list port_position) (g : fcn_gate) : Prop := {
  connects_shape : gate_shape 4 4 g;
  connects_ports q : q ∈ port_inp p ++ port_out p → occupied g (spot_of q) = true;
  connects_path : ports_wired p g;
}.

Definition connects_b (p : port_list port_position) (g : fcn_gate) : bool :=
  shape_b 4 4 g && forallb (λ q, occupied g (spot_of q)) (port_inp p ++ port_out p) && wired_b 4 4 p g.

Lemma connects_sound p g : connects_b p g = true → connects p g.
Proof.
  unfold connects_b. rewrite !andb_true_iff, forallb_forall. intros [[Hs Hp] Hw]. split.
  - by apply shape_sound.
  - intros q Hq. by apply Hp, list_elem_of_In.
  - by eapply wired_sound.
Qed.

(** The number of magnets of a type. *)
Definition magnets_of (v : Z) (g : fcn_gate) : nat := length (List.filter (Z.eqb v) (mjoin g)).

(** The marks of a wire that [set_up_wire] applies. *)
Definition marked (pi po : bool) (p : port_list port_position) (wire : fcn_gate) :
    option (option fcn_gate) :=
  w ← mark_if pi (port_inp p) (port_out p) Inml.INPUT wire;
  match w with
  | Some w => mark_if po (port_out p) (port_inp p) Inml.OUTPUT w
  | None => Some None
  end.

Definition wire_ok (pi po : bool) (p : port_list port_position) (g : fcn_gate) : bool :=
  connects_b p g && (magnets_of Inml.INVERTER_MAGNET g =? 0)%nat &&
  (magnets_of Inml.INPUT g =? if pi then 1 else 0)%nat &&
  (magnets_of Inml.OUTPUT g =? if po then 1 else 0)%nat.

Lemma topolinano_wire_entries :
  forallb (λ e, plain e.1 && shape_b 4 4 e.2 &&
    forallb (λ '(pi, po), match marked pi po e.1 e.2 with
                          | Some (Some g) => wire_ok pi po e.1 g
                          | _ => true
                          end) [(false, false); (false, true); (true, false); (true, true)])
    WIRE_MAP = true.
Proof. by vm_compute. Qed.

Lemma topolinano_inverter_entries :
  forallb (λ e, plain e.1 && shape_b 4 4 e.2 &&
    (connects_b e.1 e.2 && (magnets_of Inml.INVERTER_MAGNET e.2 =? 4)%nat)) INVERTER_MAP = true.
Proof. by vm_compute. Qed.

Section GateSelection.
Context `{MT : GateLevel.Mockturtle} {L : Type} `{HL : CoordinateLayout L}.
Import GateLevel.
Implicit Types (l : gate_level_layout L) (t : ucoord_t) (n : Z).

Definition plain_ports (v : list port_position) : bool :=
  forallb (λ q, negb (port_pi q) && negb (port_po q)) v.

Lemma plain_emplace x y v : plain_ports v = true → plain_ports (emplace x y v) = true.
Proof.
  unfold plain_ports. rewrite !forallb_forall. intros Hv q Hq%list_elem_of_In.
  apply elem_of_set_insert_1 in Hq as [->|Hq]; [done|]. by apply Hv, list_elem_of_In.
Qed.

Lemma plain_list v w : plain_ports v = true → plain_ports w = true → plain (PortList v w) = true.
Proof. unfold plain, plain_ports. simpl. rewrite forallb_app. by intros -> ->. Qed.

Lemma if_else_Some {A} (b : option bool) (x y : option A) r :
  if_else b x y = Some r → ∃ c : bool, b = Some c ∧ (if c then x else y) = Some r.
Proof. by intros (c & Hb & Hr)%bind_Some; exists c. Qed.
End GateSelection.

(** Splits the branches of the routing. *)
Ltac routing_cases :=
  repeat match goal with
  | Hr : if_else _ _ _ = Some _ |- _ =>
      let c := fresh "c" in let Hc := fresh "Hc" in
      apply if_else_Some in Hr as (c & Hc & Hr); destruct c
  | Hr : Some _ = Some _ |- _ => injection Hr as Hr; try subst
  | Hr : mbind _ _ = Some _ |- _ => apply bind_Some in Hr as (? & ? & Hr)
  end.

Section Routing.
Context `{MT : GateLevel.Mockturtle} {L : Type} `{HL : CoordinateLayout L}.
Import GateLevel.
Implicit Types (l : gate_level_layout L) (t : ucoord_t) (n : Z).

#[local] Hint Resolve plain_emplace : core.

Lemma plain_emplace_if b x y v : plain_ports v = true → plain_ports (emplace_if b x y v) = true.
Proof. destruct b; simpl; auto. Qed.

Lemma wire_input_plain l t n v : wire_input l t n = Some v → plain_ports v = true.
Proof. unfold wire_input. intros Hv. routing_cases; by vm_compute. Qed.
Lemma wire_output_plain l t n v : wire_output l t n = Some v → plain_ports v = true.
Proof. unfold wire_output. intros Hv. routing_cases; by vm_compute. Qed.

Lemma output_ports_plain l t n r :
  output_ports l t n = Some r →
  match r with inl p | inr p => plain_ports (port_inp p) = true ∧ plain_ports (port_out p) = true end.
Proof. unfold output_ports. intros Hr. routing_cases; by vm_compute. Qed.

Lemma incoming_ports_plain l t n v w :
  plain_ports v = true → incoming_ports l t n v = Some w → plain_ports w = true.
Proof.
  intros Hv Hw. unfold incoming_ports in Hw.
  routing_cases; auto using plain_emplace_if, plain_emplace.
Qed.

Lemma input_ports_plain l t n p r :
  plain_ports (port_inp p) = true → plain_ports (port_out p) = true → input_ports l t n p = Some r →
  match r with inl p | inr p => plain_ports (port_inp p) = true ∧ plain_ports (port_out p) = true end.
Proof. intros Hi Ho Hr. unfold input_ports in Hr. routing_cases; simpl; auto. Qed.

Lemma outgoing_ports_plain l t n v w :
  plain_ports v = true → outgoing_ports l t n v = Some w → plain_ports w = true.
Proof.
  intros Hv Hw. unfold outgoing_ports in Hw. routing_cases; auto using plain_emplace_if, plain_emplace.
Qed.

Lemma determine_port_routing_plain l t p : determine_port_routing l t = Some p → plain p = true.
Proof.
  intros Hp. unfold determine_port_routing in Hp. apply if_else_Some in Hp as ([|] & _ & Hp).
  - apply bind_Some in Hp as (v & Hv & (w & Hw & [= <-])%bind_Some).
    apply plain_list; [exact (wire_input_plain _ _ _ _ Hv)|exact (wire_output_plain _ _ _ _ Hw)].
  - unfold other_ports in Hp. apply bind_Some in Hp as (r & Hr%output_ports_plain & Hp).
    destruct r as [[v w]|[v w]]; destruct Hr as [Hv Hw]; [injection Hp as <-; by apply plain_list|].
    apply bind_Some in Hp as (v1 & Hv1 & Hp).
    pose proof (incoming_ports_plain _ _ _ _ _ Hv Hv1) as Hp1.
    apply bind_Some in Hp as (r & Hr & Hp). apply input_ports_plain in Hr; [|exact Hp1|exact Hw].
    destruct r as [[v2 w2]|[v2 w2]]; destruct Hr as [Hv2 Hw2]; [injection Hp as <-; by apply plain_list|].
    apply bind_Some in Hp as (w3 & Hw3 & Hp). injection Hp as <-.
    apply plain_list; [exact Hv2|]. by apply (outgoing_ports_plain _ _ _ _ _ Hw2 Hw3).
Qed.
End Routing.

Section Selected.
Context `{MT : GateLevel.Mockturtle} {L : Type} `{HL : CoordinateLayout L}.
Import GateLevel.
Implicit Types (l : gate_level_layout L) (t : ucoord_t) (n : Z).

(** A wire above crosses the wire of a tile. *)
Definition crossed l t : option bool :=
  let a := above (Clocked.coordinate_layout (clocked l)) t in
  if neqb t a then is_wire_tile l a else Some false.

Lemma wire_ok_sound pi po p g :
  wire_ok pi po p g = true →
  connects p g ∧ magnets_of Inml.INVERTER_MAGNET g = 0%nat ∧
  magnets_of Inml.INPUT g = (if pi then 1 else 0)%nat ∧
  magnets_of Inml.OUTPUT g = (if po then 1 else 0)%nat.
Proof.
  unfold wire_ok. rewrite !andb_true_iff, !Nat.eqb_eq. intros [[[Hc ?] ?] ?].
  split; [by apply connects_sound|done].
Qed.

Lemma marked_wire pi po p w g :
  plain p = true → gate_at WIRE_MAP p = Some w → marked pi po p w = Some (Some g) →
  wire_ok pi po p g = true.
Proof.
  intros Hp Hw Hg.
  destruct (gate_at_check 4 4 (λ p w, forallb (λ '(pi, po),
      match marked pi po p w with Some (Some g) => wire_ok pi po p g | _ => true end)
      [(false, false); (false, true); (true, false); (true, true)]) _ _ _ topolinano_wire_entries Hp Hw) as [_ Hc].
  rewrite forallb_forall in Hc. specialize (Hc (pi, po)). simpl in Hc. rewrite Hg in Hc.
  apply Hc. destruct pi, po; tauto.
Qed.

Lemma topolinano_inverter_gate p g :
  plain p = true → gate_at INVERTER_MAP p = Some g →
  connects p g ∧ magnets_of Inml.INVERTER_MAGNET g = 4%nat.
Proof.
  intros Hp Hg.
  destruct (gate_at_check 4 4 (λ p g, connects_b p g && (magnets_of Inml.INVERTER_MAGNET g =? 4)%nat)
    _ _ _ topolinano_inverter_entries Hp Hg) as [_ [Hc Hm%Nat.eqb_eq]%andb_true_iff].
  split; [by apply connects_sound|done].
Qed.

(** The gate of a wire that is not crossed. *)
Lemma topolinano_wire_gate l t n p g :
  plain p = true → set_up_wire l t n p = Some (Gate g) →
  crossed l t = Some true ∧ g = CROSSWIRE ∨
  crossed l t = Some false ∧ ∃ pi po, is_pi l n = Some pi ∧ is_po l n = Some po ∧
    wire_ok pi po p g = true.
Proof.
  intros Hp Hg. unfold set_up_wire in Hg. apply if_else_Some in Hg as (c & Hc & Hg).
  fold (crossed l t) in Hc. destruct c; [left; by injection Hg as <-|right; split; [done|]].
  destruct (gate_at WIRE_MAP p) as [w|] eqn:Ew; [|done].
  apply bind_Some in Hg as (pi & Hpi & Hg). apply bind_Some in Hg as (w1 & Hw1 & Hg).
  destruct w1 as [w1|]; [|done].
  apply bind_Some in Hg as (po & Hpo & Hg). apply bind_Some in Hg as (w2 & Hw2 & Hg).
  apply lookup_gate in Hg as ->. exists pi, po. split_and!; [done..|].
  apply (marked_wire _ _ _ w); [done..|]. unfold marked. rewrite Hw1. exact Hw2.
Qed.

(** The kinds of gates that the library sets up. *)
Lemma set_up_gate_cases l t p g :
  let s := strg l in
  let n := get_node_at s t in
  determine_port_routing l t = Some p → set_up_gate l t = Some (Gate g) →
  is_fanout l n = Some true ∧ g = COUPLER ∨
  is_and s n = Some true ∧ g = CONJUNCTION ∨ is_or s n = Some true ∧ g = DISJUNCTION ∨
  is_maj s n = Some true ∧ g = MAJORITY ∨
  is_inv s n = Some true ∧ gate_at INVERTER_MAP p = Some g ∨
  is_buf s n = Some true ∧ is_fanout l n = Some false ∧ set_up_wire l t n p = Some (Gate g).
Proof.
  intros s n Hp Hg. unfold set_up_gate in Hg. fold s n in Hg.
  apply if_else_Some in Hg as ([|] & Hf & Hg); [injection Hg as <-; auto 8|].
  apply if_else_Some in Hg as ([|] & Ha & Hg); [injection Hg as <-; auto 8|].
  apply if_else_Some in Hg as ([|] & Ho & Hg); [injection Hg as <-; auto 8|].
  apply if_else_Some in Hg as ([|] & Hm & Hg); [injection Hg as <-; auto 8|].
  rewrite Hp in Hg. cbn [mbind option_bind] in Hg.
  apply if_else_Some in Hg as ([|] & Hi & Hg); [apply lookup_gate in Hg; auto 9|].
  apply if_else_Some in Hg as ([|] & Hb & Hg); [auto 10|done].
Qed.
End Selected.

(** ** Ports of adjacent tiles *)

#[local] Abbreviation corner := ShiftedCartesianLayout.corner.

(** The place of a port among the cells of the layout, by the corner of the tile that
    [tile_corner_corner] establishes. *)
Definition port_cell (a : ShiftedCartesian.cartesian_arrangement) (t : ucoord_t) (q : port_position) :
    Z * Z :=
  (2 * (corner a t).1 + port_x q, 2 * (corner a t).2 + port_y q).

(** The port of a tile is the left neighbor of the port of another one. *)
Definition ports_meet a (t : ucoord_t) (o : port_position) (t' : ucoord_t) (i : port_position) : Prop :=
  port_cell a t' i = ((port_cell a t o).1 + 1, (port_cell a t o).2).

Section Meeting.
Context {a : ShiftedCartesian.cartesian_arrangement}.
Context (Ha : ShiftedCartesian.orientation_of a = ShiftedCartesian.vertical_shift_cartesian).
#[local] Abbreviation L := (ShiftedCartesian.shifted_cartesian_layout a).
Implicit Types (lyt : L) (t : ucoord_t).

Lemma neighbor_corner lyt t t' dir :
  Hexagonal.hex_representable lyt → inside (Hexagonal.dimension lyt) t →
  Hexagonal.unit_direction dir → Hexagonal.neighbor_or_c lyt t dir = Some t' → t' ≠ t →
  corner a t' = ((corner a t).1 + 2 * Cube.cx dir, (corner a t).2 + 2 * Cube.cz dir + Cube.cx dir).
Proof.
  intros Hl Ht Hdir Hn Hne. rewrite Hexagonal.neighbor_or_c_toward in Hn by done. injection Hn as Hn.
  assert (t' ∈ Hexagonal.place lyt t (Hexagonal.step dir)) as Hp.
  { revert Hn. unfold Hexagonal.toward, Hexagonal.place. case_decide; intros <-; [by left|done]. }
  apply Hexagonal.elem_of_place in Hp as (_ & _ & Hxy); [|done..].
  destruct (corner_axial a t) as (k & Hc & Hk), (corner_axial a t') as (k' & Hc' & Hk').
  rewrite Ha in Hc, Hc'. rewrite Hxy in Hc'. unfold Hexagonal.target in Hc'.
  rewrite Hexagonal.axial_position in Hc'. simpl in Hc'. destruct Hc as (E2 & E1 & Ex), Hc' as (E2' & E1' & Ex').
  assert (ux t' = ux t + Cube.cx dir) as Eux by (rewrite <-Ex, <-Ex'; done).
  destruct (corner a t) as [c1 c2], (corner a t') as [c1' c2']. simpl in *. f_equal; lia.
Qed.

(** The corner at which the pass places the gate of a tile. *)
Lemma tile_corner_corner lyt t :
  Hexagonal.hex_representable lyt → inside (Hexagonal.dimension lyt) t →
  tile_corner (TileGrid := Apply.shifted_grid a) 4 4 lyt t =
    Some (UCoord 0 (uz t) (2 * (corner a t).2) (2 * (corner a t).1)).
Proof.
  intros (Hd & Hx & Hy) Ht. pose proof (proper_dimension_bounds _ Hd). unfold inside in Ht.
  unfold Hexagonal.x, Hexagonal.y in *. change (2 ^ 29) with 536870912 in *.
  unfold tile_corner, Apply.shifted_grid, Apply.shifted_corner, Cube.int_result.
  rewrite !decide_True by (unfold Cube.int32; lia). cbn [mbind option_bind]. f_equal.
  unfold Apply.shift_corner, Apply.shift_y, Hexagonal.is_in_odd_column,
    Hexagonal.is_in_even_column, corner, ShiftedCartesianLayout.corner, ucoord3. rewrite Ha.
  change (4 / 2) with 2.
  destruct a; try discriminate Ha; simpl;
    [destruct (ux t mod 2 =? 1)|destruct (ux t mod 2 =? 0)]; unfold set_y; simpl;
    rewrite ?wrap_small by (rewrite ?wrap_small; unfold in_width; lia);
    rewrite ?wrap_small by (unfold in_width; lia); f_equal; lia.
Qed.

Lemma vertical_hexagons :
  Hexagonal.orientation_of (ShiftedCartesian.hex_arrangement_of a) = Hexagonal.flat_top_hex.
Proof. by destruct a. Qed.

(** The ports at which the tiles to the north-east and to the south-east meet. *)
Lemma north_east_meets lyt t t' o i :
  Hexagonal.hex_representable lyt → inside (Hexagonal.dimension lyt) t →
  Hexagonal.north_east lyt t = Some t' → t' ≠ t →
  port_x o = 3 → port_x i = 0 → port_y i = port_y o + 2 → ports_meet a t o t' i.
Proof.
  intros Hl Ht Hn Hne Ho Hi Hy. unfold ports_meet, port_cell.
  rewrite (neighbor_corner lyt t t' (Cube.coord3 1 0 (-1))); [|done|done|by vm_compute|done|done].
  change (Cube.cx _) with 1. change (Cube.cz _) with (-1). simpl. f_equal; lia.
Qed.

Lemma south_east_meets lyt t t' o i :
  Hexagonal.hex_representable lyt → inside (Hexagonal.dimension lyt) t →
  Hexagonal.south_east lyt t = Some t' → t' ≠ t →
  port_x o = 3 → port_x i = 0 → port_y i = port_y o - 2 → ports_meet a t o t' i.
Proof.
  intros Hl Ht Hn Hne Ho Hi Hy. unfold Hexagonal.south_east in Hn. rewrite vertical_hexagons in Hn.
  unfold ports_meet, port_cell.
  rewrite (neighbor_corner lyt t t' (Cube.coord3 1 (-1) 0)); [|done|done|by vm_compute|done|done].
  change (Cube.cx _) with 1. change (Cube.cz _) with 0. simpl. f_equal; lia.
Qed.
End Meeting.

(** *** The ports of wires by their signals *)

Section WirePorts.
Context `{MT : GateLevel.Mockturtle} {L : Type} `{HL : CoordinateLayout L}.
Import GateLevel.
Implicit Types (l : gate_level_layout L) (t : ucoord_t).

(** A wire within the circuit. *)
Definition inner_wire l t : Prop :=
  let n := get_node_at (strg l) t in
  is_buf (strg l) n = Some true ∧ is_pi l n = Some false ∧ is_po l n = Some false.

(** The signals of a tile from and to the four directions that have ports. *)
Definition in_signals l t : list (option bool) :=
  [has_northern_incoming_signal l t; has_southern_incoming_signal l t;
   has_north_western_incoming_signal l t; has_south_western_incoming_signal l t].
Definition out_signals l t : list (option bool) :=
  [has_northern_outgoing_signal l t; has_southern_outgoing_signal l t;
   has_north_eastern_outgoing_signal l t; has_south_eastern_outgoing_signal l t].

Definition only (k : nat) : list (option bool) :=
  (λ i, Some (bool_decide (i = k))) <$> seq 0 4.

Lemma inner_wire_ports l t p :
  inner_wire l t → determine_port_routing l t = Some p →
  let n := get_node_at (strg l) t in
  (in_signals l t = only 2 → port_inp p = [port_at 0 0]) ∧
  (in_signals l t = only 3 → ∀ b, has_and_or_maj_fanin l n = Some b →
   port_inp p = [port_at 0 (if b then 3 else 2)]) ∧
  (out_signals l t = only 2 → port_out p = [port_at 3 0]) ∧
  (out_signals l t = only 3 → ∀ b, has_fanout_fanout l n = Some b →
   port_out p = [port_at 3 (if b then 3 else 2)]).
Proof.
  intros (Hb & Hpi & Hpo) Hp n. unfold determine_port_routing in Hp. rewrite Hb, Hpi, Hpo in Hp.
  cbn in Hp. apply bind_Some in Hp as (v & Hv & Hp). apply bind_Some in Hp as (w & Hw & Hp).
  injection Hp as <-. cbn [port_inp port_out]. fold n in Hv, Hw. unfold wire_input in Hv. unfold wire_output in Hw.
  split_and!.
  - intros [= H1 H2 H3 H4]. rewrite H1, H2, H3 in Hv. by injection Hv as <-.
  - intros [= H1 H2 H3 H4] b E. rewrite H1, H2, H3, H4, E in Hv. destruct b; by injection Hv as <-.
  - intros [= H1 H2 H3 H4]. rewrite H1, H2, H3 in Hw. by injection Hw as <-.
  - intros [= H1 H2 H3 H4] b E. rewrite H1, H2, H3, H4, E in Hw. destruct b; by injection Hw as <-.
Qed.
End WirePorts.

(** * Properties *)

(** C34: Whenever the library sets up a gate for a tile, it has 4 x 4 cells. The gate of an inverter and
    that of a wire that is not crossed have a magnet at every port of the tile's routing, and all ports
    lie on one path of adjacent magnets. Inverters have four inverter magnets, wires have none; a wire
    has one input magnet if it is a primary input and one output magnet if it is a primary output, and
    none otherwise. *)
Theorem topolinano_gates_connect `{GateLevel.Mockturtle} `{CoordinateLayout L}
    (l : GateLevel.gate_level_layout L) (t : ucoord_t) (p : port_list port_position) (g : fcn_gate) :
  let s := GateLevel.strg l in
  let n := GateLevel.get_node_at s t in
  determine_port_routing l t = Some p → Topolinano.set_up_gate l t = Some (Gate g) →
  gate_shape 4 4 g ∧
  (GateLevel.is_inv s n = Some true → connects p g ∧ magnets_of Inml.INVERTER_MAGNET g = 4%nat) ∧
  (GateLevel.is_buf s n = Some true → GateLevel.is_fanout l n = Some false → crossed l t = Some false →
   connects p g ∧ magnets_of Inml.INVERTER_MAGNET g = 0%nat ∧
   ∃ pi po, GateLevel.is_pi l n = Some pi ∧ GateLevel.is_po l n = Some po ∧
     magnets_of Inml.INPUT g = (if pi then 1 else 0)%nat ∧
     magnets_of Inml.OUTPUT g = (if po then 1 else 0)%nat).
Proof.
  intros s n Hp Hg. pose proof (determine_port_routing_plain l t p Hp) as Hpl.
  pose proof (set_up_gate_cases l t p g Hp Hg) as Hcases. fold s n in Hcases.
  unfold GateLevel.is_fanout, GateLevel.is_wire, GateLevel.is_inv, GateLevel.is_buf, GateLevel.is_and,
    GateLevel.is_or, GateLevel.is_maj, GateLevel.has_literal in *. fold s in Hcases |- *.
  destruct (vec_at (GateLevel.nodes s) n) as [d|]; cbn [mbind option_bind] in *;
    [|by destruct Hcases as [[? _]|[[? _]|[[? _]|[[? _]|[[? _]|[? _]]]]]]].
  destruct Hcases as [[Hf ->]|[[Ha ->]|[[Ho ->]|[[Hm ->]|[[Hi Hg']|(Hb & Hf & Hg')]]]]].
  - split_and!; [by apply shape_sound| |].
    + intros [= E%Z.eqb_eq]. rewrite E in Hf. done.
    + intros _ Hf'. congruence.
  - injection Ha as Ha%Z.eqb_eq. rewrite Ha. split_and!; [by apply shape_sound|done..].
  - injection Ho as Ho%Z.eqb_eq. rewrite Ho. split_and!; [by apply shape_sound|done..].
  - injection Hm as Hm%Z.eqb_eq. rewrite Hm. split_and!; [by apply shape_sound|done..].
  - destruct (topolinano_inverter_gate p g Hpl Hg') as [Hc Hn]. injection Hi as Hi%Z.eqb_eq. rewrite Hi.
    split_and!; [apply Hc|done|done].
  - destruct (topolinano_wire_gate l t n p g Hpl Hg') as [[Hc ->]|(Hc & pi & po & Hpi & Hpo & Hok)].
    + injection Hb as Hb%Z.eqb_eq. rewrite Hb. split_and!; [by apply shape_sound|done|].
      intros _ _ Hc'. congruence.
    + apply wire_ok_sound in Hok as (Hcon & H1 & H2 & H3). injection Hb as Hb%Z.eqb_eq. rewrite Hb.
      split_and!; [apply Hcon|done|]. intros _ _ _. split_and!; [done|done|]. exists pi, po. auto.
Qed.

(** On layouts with shifted columns the wires of adjacent tiles meet: when the only signal that
    leaves a wire segment goes to the north-east or south-east and the only one that enters the wire
    segment there comes from it, the output port of the one is the left neighbor of the input port of
    the other. The same holds for the port (3, 1) of a gate to the south-west of a wire, and for the
    magnet (0, 1) of a fan-out to the south-east of one. Gates are placed at the corners of the shifted
    squares. *)
Theorem topolinano_ports_meet {a} `{GateLevel.Mockturtle}
    (l : GateLevel.gate_level_layout (ShiftedCartesian.shifted_cartesian_layout a))
    (t t' : ucoord_t) (p p' : port_list port_position) :
  let lyt := Clocked.coordinate_layout (GateLevel.clocked l) in
  let n := GateLevel.get_node_at (GateLevel.strg l) t in
  let n' := GateLevel.get_node_at (GateLevel.strg l) t' in
  ShiftedCartesian.orientation_of a = ShiftedCartesian.vertical_shift_cartesian →
  Hexagonal.hex_representable lyt → inside (Hexagonal.dimension lyt) t → t' ≠ t →
  determine_port_routing l t = Some p → determine_port_routing l t' = Some p' →
  tile_corner 4 4 lyt t = Some (UCoord 0 (uz t) (2 * (corner a t).2) (2 * (corner a t).1)) ∧
  (Hexagonal.north_east lyt t = Some t' → inner_wire l t' → in_signals l t' = only 3 →
   (inner_wire l t → out_signals l t = only 2 → has_and_or_maj_fanin l n' = Some false →
    ∃ o i, port_out p = [o] ∧ port_inp p' = [i] ∧ ports_meet a t o t' i) ∧
   (has_and_or_maj_fanin l n' = Some true →
    ∃ i, port_inp p' = [i] ∧ ports_meet a t (port_at 3 1) t' i)) ∧
  (Hexagonal.south_east lyt t = Some t' → inner_wire l t → out_signals l t = only 3 →
   (inner_wire l t' → in_signals l t' = only 2 → has_fanout_fanout l n = Some false →
    ∃ o i, port_out p = [o] ∧ port_inp p' = [i] ∧ ports_meet a t o t' i) ∧
   (has_fanout_fanout l n = Some true →
    ∃ o, port_out p = [o] ∧ ports_meet a t o t' (port_at 0 1))).
Proof.
  intros lyt n n' Ha Hl Ht Hne Hp Hp'. split; [by apply tile_corner_corner|].
  split; intros Hn; [intros Hw' Hin|intros Hw Hout].
  - destruct (inner_wire_ports l t' p' Hw' Hp') as (_ & Hi & _). specialize (Hi Hin). split.
    + intros Hw Hout Hf. destruct (inner_wire_ports l t p Hw Hp) as (_ & _ & Ho & _).
      do 2 eexists. split_and!; [by apply Ho|by apply (Hi false)|]. by apply (north_east_meets Ha lyt).
    + intros Hf. eexists. split; [by apply (Hi true)|]. by apply (north_east_meets Ha lyt).
  - destruct (inner_wire_ports l t p Hw Hp) as (_ & _ & _ & Ho). specialize (Ho Hout). split.
    + intros Hw' Hin Hf. destruct (inner_wire_ports l t' p' Hw' Hp') as (Hi & _).
      do 2 eexists. split_and!; [by apply (Ho false)|by apply Hi|]. by apply (south_east_meets Ha lyt).
    + intros Hf. eexists. split; [by apply (Ho true)|]. by apply (south_east_meets Ha lyt).
Qed.

(** C33: [post_layout_optimization] terminates: every pass over the rows that finds an improvement saves
    a cell, so that the number of cells plus 1 bounds the number of passes. Unless a pass leaves the
    vector of a hump, the result has at most as many cells as before, and another pass over it finds
    no improvement and changes nothing. *)
Theorem straightening_terminates (cl : Clocked.clocked_layout Cartesian.cartesian_layout)
    (fuel : nat) (s : CellLevel.cell_level_layout_storage) :
  proper_dimension (Cartesian.dimension (Clocked.coordinate_layout cl)) →
  (size (CellLevel.cell_type_map s) < fuel)%nat →
  ∃ r, straighten cl fuel s = Some r ∧
    ∀ s', r = Some s' → pass cl s' = Some (s', false) ∧
      (size (CellLevel.cell_type_map s') <= size (CellLevel.cell_type_map s))%nat.
Proof.
  intros Hd Hf. pose proof (proper_dimension_bounds _ Hd). apply (straighten_spec cl fuel s); [lia|done].
Qed.

(** *** Examples *)

(** A layout with odd columns shifted down: a wire from an input to an output in three segments. *)
Definition topo_clocked :
    Clocked.clocked_layout (ShiftedCartesian.shifted_cartesian_layout ShiftedCartesian.odd_column_cartesian) :=
  Clocked.ClockedLayout (ShiftedCartesian.make (a := ShiftedCartesian.odd_column_cartesian) (UCoord 0 1 3 5))
    (columnar_clocking 5 FOUR).
Definition topo_ops : list operation :=
  [CreatePi "a" (tile 0 1); CreateBuf (sig 0 1) (tile 1 0); CreateBuf (sig 1 0) (tile 2 1);
   CreateBuf (sig 2 1) (tile 3 0); CreatePo (sig 3 0) "f" (tile 4 1)].
Definition topo_layout :
    GateLevel.gate_level_layout
      (ShiftedCartesian.shifted_cartesian_layout ShiftedCartesian.odd_column_cartesian) :=
  built topo_clocked "wire" topo_ops.

Lemma topolinano_gates_connect_witness :
  connects (Topolinano.ports [port_at 0 0] [port_at 3 0]) UPPER_WIRE.
Proof.
  destruct (topolinano_gates_connect topo_layout (tile 2 1)
    (Topolinano.ports [port_at 0 0] [port_at 3 0]) UPPER_WIRE) as (_ & _ & Hw).
  - by vm_compute.
  - by vm_compute.
  - apply Hw; by vm_compute.
Defined.

Lemma topolinano_ports_meet_witness :
  ports_meet ShiftedCartesian.odd_column_cartesian (tile 2 1) (port_at 3 0) (tile 3 0) (port_at 0 2).
Proof.
  destruct (topolinano_ports_meet topo_layout (tile 2 1) (tile 3 0)
    (Topolinano.ports [port_at 0 0] [port_at 3 0]) (Topolinano.ports [port_at 0 2] [port_at 3 2]))
    as (_ & Hne & _).
  - reflexivity.
  - split_and!; by vm_compute.
  - vm_compute. repeat split; discriminate.
  - discriminate.
  - by vm_compute.
  - by vm_compute.
  - destruct Hne as [Hwire _]; [by vm_compute|split_and!; by vm_compute|by vm_compute|].
    destruct Hwire as (o & i & [= <-] & [= <-] & Hm);
      [split_and!; by vm_compute|by vm_compute|by vm_compute|exact Hm].
Defined.

(** The pass joins the five gates to one straight wire. *)
Example topo_wire_straight :
  match Apply.apply_gate_library 30 topo_layout with
  | Some (Apply.Done c) =>
      (λ x, CellLevel.get_cell_type (CellLevel.strg c) (UCoord 0 0 4 x)) <$> seqZ 0 21
  | _ => []
  end = Inml.INPUT :: replicate 18 Inml.NORMAL ++ [Inml.OUTPUT; Inml.EMPTY].
Proof. by vm_compute. Qed.

(** A hump of magnets in a cell-level layout. *)
Definition cells_clocked (x y : Z) : Clocked.clocked_layout Cartesian.cartesian_layout :=
  Clocked.ClockedLayout (Cartesian.make (UCoord 0 0 y x)) (columnar_clocking 3 FOUR).
Definition magnets_at (cs : list (Z * Z * Z)) : CellLevel.cell_level_layout_storage :=
  foldl (λ s '(x, y, v), CellLevel.assign_cell_type s (UCoord 0 0 y x) v) (blank "hump" 4 4) cs.
Definition straight_row (y : Z) (xs : list Z) : list (Z * Z * Z) := (λ x, (x, y, Inml.NORMAL)) <$> xs.

Definition hump_cells_example : CellLevel.cell_level_layout_storage :=
  magnets_at (straight_row 1 [1; 2; 3; 4] ++ straight_row 2 [0; 1; 4; 5]).

Lemma straightening_terminates_witness :
  ∃ r, straighten (cells_clocked 5 3) 9 hump_cells_example = Some r ∧
    r = Some (magnets_at (straight_row 2 [0; 1; 2; 3; 4; 5])).
Proof.
  destruct (straightening_terminates (cells_clocked 5 3) 9 hump_cells_example) as (r & Hr & _).
  - split_and!; by vm_compute.
  - apply Nat.ltb_lt. by vm_compute.
  - exists r. split; [exact Hr|]. vm_compute in Hr. vm_compute. congruence.
Defined.

(** The straightening does not respect the border and the ends of humps. A wire of three magnets in
    the last row is its own southern neighbor, is taken for a hump and removed; a hump of two magnets
    leads to an access behind its end; and since an output ends a hump without being part of it, the
    hump of a wire that ends in an output is not found. *)
Theorem straightening_border_cases :
  straighten (cells_clocked 5 3) 5 (magnets_at (straight_row 3 [1; 2; 3])) =
    Some (Some (magnets_at [])) ∧
  straighten (cells_clocked 5 3) 5 (magnets_at (straight_row 1 [1; 2] ++ straight_row 2 [1; 2])) =
    Some None ∧
  (let s := magnets_at (straight_row 1 [1; 2; 3] ++ straight_row 2 [0; 1] ++ [(4, 1, Inml.OUTPUT)]) in
   straighten (cells_clocked 5 3) 7 s = Some (Some s)).
Proof. split_and!; by vm_compute. Qed.

(** The port that wires expect of the gate to their south-west is a magnet of AND and OR gates, but the
    majority gate has no magnet there. *)
Lemma majority_port_missing :
  gate_cell CONJUNCTION 1 3 = Some Inml.NORMAL ∧ gate_cell DISJUNCTION 1 3 = Some Inml.NORMAL ∧
  gate_cell MAJORITY 1 3 = Some Inml.EMPTY.
Proof. by vm_compute. Qed.
