(* ===== verification/Networks.v ===== *)
(** * Logic networks as the physical design algorithms see them

    Class [Network] lists what the algorithms call of a mockturtle network; mockturtle is a submodule
    without code in the repository, so that these functions are parameters. Class [NetworkLaws] states
    the documented behaviour of its views that the theorems rely on: [fanout_view] is the converse of
    the fanins, and [topo_view] visits nodes after their fanins. On top of it, the helper functions of
    [utils/network_utils.hpp] with their theorems. *)

From S2P Require Import Prelude.
#[local] Open Scope Z_scope.

Module Networks.

(** What the algorithms use of a network [Ntk]. [foreach_node] and the other iterations are the lists
    of what their functors are applied to; [foreach_gate_reverse] is that of [topo_view{ntk}]. *)
Class Network (Ntk : Type) := {
  foreach_node : Ntk → list Z;
  foreach_gate_reverse : Ntk → list Z;
  foreach_pi : Ntk → list Z;
  foreach_po : Ntk → list Z;
  foreach_fanin : Ntk → Z → list Z;
  foreach_fanout : Ntk → Z → list Z;
  get_node : Ntk → Z → Z;
  fanin_size : Ntk → Z → Z;
  size : Ntk → Z;
  node_to_index : Ntk → Z → Z;
  is_constant : Ntk → Z → bool;
  constant_value : Ntk → Z → bool;
  is_pi : Ntk → Z → bool;
  is_po : Ntk → Z → bool;
}.

(** The nodes that drive the fanins of [n]. *)
Definition fanin_nodes `{Network Ntk} (ntk : Ntk) (n : Z) : list Z :=
  get_node ntk <$> foreach_fanin ntk n.

Class NetworkLaws `{Network Ntk} (ntk : Ntk) := {
  foreach_fanout_converse n g :
    g ∈ foreach_fanout ntk n ↔ g ∈ foreach_node ntk ∧ n ∈ fanin_nodes ntk g;
  foreach_node_topological pre n post u :
    foreach_node ntk = pre ++ n :: post → u ∈ fanin_nodes ntk n → u ∈ pre;
  foreach_pi_nodes : foreach_pi ntk ≡ₚ filter (λ n, is_pi ntk n = true) (foreach_node ntk);
  pi_not_constant n : is_pi ntk n = true → is_constant ntk n = false;
  foreach_gate_reverse_gates g :
    g ∈ foreach_gate_reverse ntk ↔
      g ∈ foreach_node ntk ∧ is_constant ntk g = false ∧ is_pi ntk g = false;
  pi_without_fanin n : is_pi ntk n = true → fanin_nodes ntk n = [];
  constant_without_fanin n : is_constant ntk n = true → fanin_nodes ntk n = [];
  fanin_size_length n : fanin_size ntk n = Z.of_nat (length (foreach_fanin ntk n));
  foreach_po_nodes s : s ∈ foreach_po ntk → get_node ntk s ∈ foreach_node ntk;
  node_to_index_range n : n ∈ foreach_node ntk → 0 <= node_to_index ntk n < size ntk;
  node_to_index_inj n m :
    n ∈ foreach_node ntk → m ∈ foreach_node ntk →
    node_to_index ntk n = node_to_index ntk m → n = m;
}.

(** [mockturtle::edge]: source and target. *)
Definition edge : Type := Z * Z.

Definition edge_eqb (e f : edge) : bool := (e.1 =? f.1) && (e.2 =? f.2).
Definition edge_neqb (e f : edge) : bool := negb (edge_eqb e f).

Section Utils.
Context `{Network Ntk}.
Implicit Types (ntk : Ntk) (n : Z).

(** [foreach_outgoing_edge], [foreach_incoming_edge] and [foreach_edge]. *)
Definition foreach_outgoing_edge ntk n : list edge := (λ fon, (n, fon)) <$> foreach_fanout ntk n.

Definition foreach_incoming_edge ntk n : list edge :=
  (λ fi, (get_node ntk fi, n)) <$> foreach_fanin ntk n.

Definition foreach_edge ntk : list edge := foreach_node ntk ≫= foreach_incoming_edge ntk.

Definition fanouts ntk n : list Z := foreach_fanout ntk n.

(** [fanin_container]. *)
Record fanin_container := FaninContainer {
  container_nodes : list Z;
  constant_fanin : option bool;
}.

(** [fanins]; in builds without assertions, the last constant wins. *)
Definition fanins ntk n : fanin_container :=
  foldl (λ fc fi,
    let fin := get_node ntk fi in
    if is_constant ntk fin
    then FaninContainer (container_nodes fc) (Some (constant_value ntk fin))
    else FaninContainer (container_nodes fc ++ [fin]) (constant_fanin fc))
  (FaninContainer [] None) (foreach_fanin ntk n).

Definition num_constant_fanins ntk n : Z :=
  foldl (λ num_const_fi fi,
    if is_constant ntk (get_node ntk fi) then wrap 32 (num_const_fi + 1) else num_const_fi)
  0 (foreach_fanin ntk n).

(** [has_high_degree_fanin_nodes]: the loop stops at the first node it finds. The difference is taken
    in [uint32_t]. *)
Definition has_high_degree_fanin_nodes ntk (threshold : Z) : bool :=
  existsb (λ n,
    negb (is_constant ntk n) &&
    (threshold <? wrap 32 (fanin_size ntk n - num_constant_fanins ntk n)))
  (foreach_node ntk).

(** [fanin_edges]. *)
Definition fanin_edges ntk n : list edge :=
  foldl (λ fec fi,
    let fin := get_node ntk fi in if is_constant ntk fin then fec else fec ++ [(fin, n)])
  [] (foreach_fanin ntk n).

Definition has_incoming_primary_input ntk n : bool :=
  existsb (λ fi,
    let fin := get_node ntk fi in negb (is_constant ntk fin) && is_pi ntk fin)
  (foreach_fanin ntk n).

(** [all_incoming_edge_paths]; [fuel] bounds the depth of the recursion. *)
Fixpoint all_incoming_edge_paths (fuel : nat) ntk n : option (list (list edge)) :=
  match fuel with
  | O => None
  | S fuel =>
      if fanin_size ntk n =? 0 then Some [[]]
      else
        foldl (λ paths e,
          paths ← paths;
          if negb (is_constant ntk e.1)
          then ps ← all_incoming_edge_paths fuel ntk e.1;
               Some (paths ++ ((λ p, p ++ [e]) <$> ps))
          else Some paths)
        (Some []) (foreach_incoming_edge ntk n)
  end.

(** ** [inverse_levels] *)

(** The vectors [inv_levels] and [discovered]. *)
Record level_state := LevelState {
  inv_levels : list Z;
  discovered : list bool;
}.

Definition get_inv_level ntk (s : level_state) n : option Z :=
  vec_at (inv_levels s) (node_to_index ntk n).

Definition set_inv_level ntk (s : level_state) n (l : Z) : option level_state :=
  v ← vec_update (inv_levels s) (node_to_index ntk n) (λ _, l);
  Some (LevelState v (discovered s)).

Definition is_discovered ntk (s : level_state) n : option bool :=
  vec_at (discovered s) (node_to_index ntk n).

Definition set_discovered ntk (s : level_state) n : option level_state :=
  v ← vec_update (discovered s) (node_to_index ntk n) (λ _, true);
  Some (LevelState (inv_levels s) v).

(** [std::all_of(..., is_discovered)]. *)
Fixpoint all_discovered ntk (s : level_state) (fos : list Z) : option bool :=
  match fos with
  | [] => Some true
  | n :: fos =>
      d ← is_discovered ntk s n;
      if (d : bool) then all_discovered ntk s fos else Some false
  end.

(** The level that [std::max_element] points to, if any. *)
Fixpoint max_inv_level ntk (s : level_state) (fos : list Z) : option (option Z) :=
  match fos with
  | [] => Some None
  | n :: fos =>
      l ← get_inv_level ntk s n;
      m ← max_inv_level ntk s fos;
      Some (Some (match m with Some k => Z.max l k | None => l end))
  end.

(** The recursive lambda [inv_jdfs]. *)
Fixpoint inv_jdfs (fuel : nat) ntk (s : level_state) n : option level_state :=
  match fuel with
  | O => None
  | S fuel =>
      let fos := fanouts ntk n in
      all ← all_discovered ntk s fos;
      if (all : bool) then
        s ← set_discovered ntk s n;
        post_l ← max_inv_level ntk s fos;
        l ← get_inv_level ntk s n;
        s ← set_inv_level ntk s n
              (match post_l with Some p => Z.max l (wrap 32 (p + 1)) | None => 0 end);
        foldl (λ s fi,
          s ← s;
          let fin := get_node ntk fi in
          d ← is_discovered ntk s fin;
          if (d : bool) then Some s else inv_jdfs fuel ntk s fin)
        (Some s) (foreach_fanin ntk n)
      else Some s
  end.

Definition inverse_levels (fuel : nat) ntk : option (list Z) :=
  let s := LevelState (replicate (Z.to_nat (size ntk)) 0) (replicate (Z.to_nat (size ntk)) false) in
  s ← foldl (λ s po, s ← s; inv_jdfs fuel ntk s (get_node ntk po)) (Some s) (foreach_po ntk);
  Some (inv_levels s).

(** ** Paths *)

(** A walk from a terminal node to [n] that avoids constants, as a sequence of edges. *)
Inductive incoming_path ntk : Z → list edge → Prop :=
  | incoming_path_terminal n : foreach_fanin ntk n = [] → incoming_path ntk n []
  | incoming_path_step n u p :
      u ∈ fanin_nodes ntk n → is_constant ntk u = false →
      incoming_path ntk u p → incoming_path ntk n (p ++ [(u, n)]).

End Utils.

(** ** Fanins *)

Section Fanins.
Context `{Network Ntk}.
Implicit Types (ntk : Ntk) (n : Z).

(** The fanins that are not constants. *)
Definition proper_fanins ntk n : list Z :=
  filter (λ u, is_constant ntk u = false) (fanin_nodes ntk n).

Lemma elem_of_proper_fanins ntk n u :
  u ∈ proper_fanins ntk n ↔ u ∈ fanin_nodes ntk n ∧ is_constant ntk u = false.
Proof. unfold proper_fanins. rewrite list_elem_of_filter. tauto. Qed.

(** One more fanin. *)
Lemma filter_constant_snoc ntk fis fi :
  filter (λ u, is_constant ntk u = false) (get_node ntk <$> fis ++ [fi]) =
    filter (λ u, is_constant ntk u = false) (get_node ntk <$> fis) ++
    (if is_constant ntk (get_node ntk fi) then [] else [get_node ntk fi]).
Proof.
  rewrite fmap_app, filter_app. f_equal. rewrite list_fmap_singleton, filter_cons, filter_nil.
  destruct (is_constant ntk (get_node ntk fi)) eqn:E; case_decide; congruence.
Qed.

Lemma container_nodes_fanins ntk n : container_nodes (fanins ntk n) = proper_fanins ntk n.
Proof.
  unfold fanins, proper_fanins, fanin_nodes.
  induction (foreach_fanin ntk n) as [|fi l IH] using rev_ind; [done|].
  rewrite foldl_snoc, filter_constant_snoc. cbn.
  destruct (is_constant ntk (get_node ntk fi)) eqn:E; simpl; rewrite IH; [|done].
  by rewrite app_nil_r.
Qed.

Lemma fanin_edges_spec ntk n : fanin_edges ntk n = (λ u, (u, n)) <$> proper_fanins ntk n.
Proof.
  unfold fanin_edges, proper_fanins, fanin_nodes.
  induction (foreach_fanin ntk n) as [|fi l IH] using rev_ind; [done|].
  rewrite foldl_snoc, filter_constant_snoc, fmap_app. cbn.
  destruct (is_constant ntk (get_node ntk fi)) eqn:E; simpl; rewrite IH; [|done].
  by rewrite app_nil_r.
Qed.

Lemma elem_of_fanin_edges ntk n e :
  e ∈ fanin_edges ntk n ↔ e.2 = n ∧ e.1 ∈ proper_fanins ntk n.
Proof.
  rewrite fanin_edges_spec, list_elem_of_fmap. destruct e as [u g]. simpl. naive_solver.
Qed.

Lemma elem_of_incoming_edges ntk n e :
  e ∈ foreach_incoming_edge ntk n ↔ e.2 = n ∧ e.1 ∈ fanin_nodes ntk n.
Proof.
  unfold foreach_incoming_edge, fanin_nodes. rewrite !list_elem_of_fmap.
  destruct e as [u g]. simpl. naive_solver.
Qed.

Lemma elem_of_outgoing_edges ntk n e :
  e ∈ foreach_outgoing_edge ntk n ↔ e.1 = n ∧ e.2 ∈ foreach_fanout ntk n.
Proof.
  unfold foreach_outgoing_edge. rewrite list_elem_of_fmap. destruct e as [u g]. simpl. naive_solver.
Qed.

Lemma elem_of_foreach_edge ntk e :
  e ∈ foreach_edge ntk ↔ e.2 ∈ foreach_node ntk ∧ e.1 ∈ fanin_nodes ntk e.2.
Proof.
  unfold foreach_edge. rewrite list_elem_of_bind. setoid_rewrite elem_of_incoming_edges. naive_solver.
Qed.

Lemma num_constant_fanins_length ntk n :
  Z.of_nat (length (foreach_fanin ntk n)) < 2 ^ 32 →
  num_constant_fanins ntk n =
    Z.of_nat (length (foreach_fanin ntk n)) - Z.of_nat (length (proper_fanins ntk n)).
Proof.
  unfold num_constant_fanins, proper_fanins, fanin_nodes.
  induction (foreach_fanin ntk n) as [|fi l IH] using rev_ind; [done|].
  rewrite foldl_snoc, filter_constant_snoc, !length_app. cbn. intros Hlen.
  rewrite IH by lia.
  pose proof (length_filter (λ u, is_constant ntk u = false) (get_node ntk <$> l)) as Hf.
  rewrite length_fmap in Hf.
  destruct (is_constant ntk (get_node ntk fi)) eqn:E.
  - simpl. rewrite wrap_small by (split; lia). lia.
  - simpl. lia.
Qed.

(** C28: [has_high_degree_fanin_nodes], with which the physical design algorithms reject a network,
    holds exactly when some node has more non-constant fanins than the threshold. *)
Theorem high_degree_nodes_detected ntk `{!NetworkLaws ntk} threshold :
  (∀ n, n ∈ foreach_node ntk → Z.of_nat (length (foreach_fanin ntk n)) < 2 ^ 32) →
  has_high_degree_fanin_nodes ntk threshold = true ↔
    ∃ n, n ∈ foreach_node ntk ∧ is_constant ntk n = false ∧
      threshold < Z.of_nat (length (container_nodes (fanins ntk n))).
Proof.
  intros Hsize. unfold has_high_degree_fanin_nodes. rewrite existsb_exists.
  setoid_rewrite <-list_elem_of_In. setoid_rewrite andb_true_iff. setoid_rewrite negb_true_iff.
  setoid_rewrite Z.ltb_lt. setoid_rewrite container_nodes_fanins.
  assert (∀ n, n ∈ foreach_node ntk →
    wrap 32 (fanin_size ntk n - num_constant_fanins ntk n) =
      Z.of_nat (length (proper_fanins ntk n))) as E.
  { intros n Hn. specialize (Hsize n Hn). rewrite fanin_size_length, num_constant_fanins_length by done.
    pose proof (length_filter (λ u, is_constant ntk u = false) (fanin_nodes ntk n)) as Hf.
    unfold fanin_nodes in Hf at 2. rewrite length_fmap in Hf.
    change (filter _ _) with (proper_fanins ntk n) in Hf.
    rewrite wrap_small; [lia|split; lia]. }
  split; intros (n & Hn & Hc & Ht); exists n; rewrite E in * by done; auto.
Qed.

End Fanins.

(** ** Recursion along the topological order *)

Section Topological.
Context `{Network Ntk} (ntk : Ntk) `{!NetworkLaws ntk}.

(** A fanin stands at an earlier position than the node. *)
Lemma fanin_position n i u :
  foreach_node ntk !! i = Some n → u ∈ fanin_nodes ntk n →
  ∃ j, (j < i)%nat ∧ foreach_node ntk !! j = Some u.
Proof.
  intros Hn Hu. pose proof (take_drop_middle _ _ _ Hn) as E. symmetry in E.
  apply (foreach_node_topological _ _ _ _ E) in Hu as [j Hj]%list_elem_of_lookup.
  apply lookup_take_Some in Hj as [Hj ?]. eauto.
Qed.

Lemma fanin_in_network n u :
  n ∈ foreach_node ntk → u ∈ fanin_nodes ntk n → u ∈ foreach_node ntk.
Proof.
  intros [i Hi]%list_elem_of_lookup Hu. destruct (fanin_position _ _ _ Hi Hu) as (j & _ & Hj).
  by eapply list_elem_of_lookup_2.
Qed.

Lemma fanin_irreflexive n : n ∈ foreach_node ntk → n ∉ fanin_nodes ntk n.
Proof.
  intros Hn Hu.
  assert (∀ i j, (j <= i)%nat → foreach_node ntk !! j = Some n → False) as Hno.
  { induction i as [|i IH]; intros j Hj Hj';
      destruct (fanin_position _ _ _ Hj' Hu) as (k & Hk & Hk'); [lia|].
    by apply (IH k); [lia|]. }
  apply list_elem_of_lookup in Hn as [i Hi]. by eapply (Hno i).
Qed.

(** The loop of [all_incoming_edge_paths] over the incoming edges. *)
Lemma incoming_paths_loop (f : Z → option (list (list edge))) es acc :
  (∀ e, e ∈ es → is_constant ntk e.1 = false →
    ∃ ps, f e.1 = Some ps ∧ ∀ p, p ∈ ps ↔ incoming_path ntk e.1 p) →
  ∃ ps, foldl (λ paths e,
      paths ← paths;
      if negb (is_constant ntk e.1) then ps ← f e.1; Some (paths ++ ((λ p, p ++ [e]) <$> ps))
      else Some paths) (Some acc) es = Some ps ∧
    ∀ p, p ∈ ps ↔ p ∈ acc ∨ ∃ e q, e ∈ es ∧ is_constant ntk e.1 = false ∧
      incoming_path ntk e.1 q ∧ p = q ++ [e].
Proof.
  revert acc. induction es as [|e es IH]; intros acc Hf; simpl.
  { exists acc. set_solver. }
  assert (∀ e', e' ∈ es → is_constant ntk e'.1 = false →
    ∃ ps, f e'.1 = Some ps ∧ ∀ p, p ∈ ps ↔ incoming_path ntk e'.1 p) as Hf'
    by (intros; apply Hf; set_solver).
  destruct (is_constant ntk e.1) eqn:Hc; simpl.
  - destruct (IH acc Hf') as (ps & -> & Hps). exists ps. split; [done|]. intros p. rewrite Hps.
    setoid_rewrite elem_of_cons. naive_solver congruence.
  - destruct (Hf e) as (qs & -> & Hqs); [by left|done|]. simpl.
    destruct (IH (acc ++ ((λ p, p ++ [e]) <$> qs)) Hf') as (ps & -> & Hps).
    exists ps. split; [done|]. intros p. rewrite Hps, elem_of_app, list_elem_of_fmap.
    setoid_rewrite elem_of_cons. setoid_rewrite Hqs. naive_solver.
Qed.

Lemma all_incoming_edge_paths_at fuel n i :
  foreach_node ntk !! i = Some n → (i < fuel)%nat →
  ∃ ps, all_incoming_edge_paths fuel ntk n = Some ps ∧ ∀ p, p ∈ ps ↔ incoming_path ntk n p.
Proof.
  revert n i. induction fuel as [|fuel IH]; intros n i Hn Hi; [lia|]. cbn.
  rewrite fanin_size_length. destruct (foreach_fanin ntk n) as [|fi fis] eqn:Ef; simpl.
  { exists [[]]. split; [done|]. intros p. rewrite list_elem_of_singleton. split.
    - intros ->. by constructor.
    - inversion 1 as [|? u q Hu]; [done|]. unfold fanin_nodes in Hu. rewrite Ef in Hu. set_solver. }
  destruct (incoming_paths_loop (all_incoming_edge_paths fuel ntk) (foreach_incoming_edge ntk n) [])
    as (ps & E & Hps).
  { intros e [He1 He2]%elem_of_incoming_edges _. subst n.
    destruct (fanin_position _ _ _ Hn He2) as (j & Hj & Hj'). eapply (IH _ j); [done|lia]. }
  exists ps. split; [exact E|]. intros p. rewrite Hps. split.
  - intros [?|(e & q & [<- He]%elem_of_incoming_edges & Hc & Hq & ->)]; [set_solver|].
    destruct e as [u m]. by constructor.
  - inversion 1 as [|? u q Hu Hc Hq]; subst; [congruence|]. right.
    exists (u, n), q. rewrite elem_of_incoming_edges. auto.
Qed.

(** C27: [all_incoming_edge_paths] terminates on every node of an acyclic network, with the number of
    nodes as fuel, and returns exactly the walks that reach the node from a node without fanins
    without a constant on the way. *)
Theorem incoming_paths_complete n :
  n ∈ foreach_node ntk →
  ∃ ps, all_incoming_edge_paths (length (foreach_node ntk)) ntk n = Some ps ∧
    ∀ p, p ∈ ps ↔ incoming_path ntk n p.
Proof.
  intros [i Hi]%list_elem_of_lookup. apply (all_incoming_edge_paths_at _ _ i); [done|].
  by eapply lookup_lt_Some.
Qed.

End Topological.
End Networks.
