(* ===== verification/PlacementUtils.v ===== *)
(** * Placing network nodes on layouts

    [utils/placement_utils.hpp] and [utils/name_utils.hpp]: creating for a node of a network the gate
    of the same function on a layout, keeping the order of the inputs, and transferring names. Class
    [GateNetwork] lists what these functions call of the network beyond class [Network]. *)

From S2P Require Import Prelude.
From S2P Require Import Coordinates.
From S2P Require Import CoordinateLayout.
From S2P Require Import GateLevelLayout.
From S2P Require Import Networks.
#[local] Open Scope Z_scope.
Import Offset.
Import Networks.

Module Placement.

(** What the code uses of a [technology_network] with [names_view]: the functions of the nodes and
    the names. *)
Class GateNetwork (Ntk : Type) `{GateLevel.Mockturtle} := {
  is_inv : Ntk → Z → bool;
  is_buf : Ntk → Z → bool;
  is_and : Ntk → Z → bool;
  is_or : Ntk → Z → bool;
  is_xor : Ntk → Z → bool;
  is_nand : Ntk → Z → bool;
  is_nor : Ntk → Z → bool;
  is_maj : Ntk → Z → bool;
  is_function : Ntk → Z → bool;
  node_function : Ntk → Z → GateLevel.truth_table;
  make_signal : Ntk → Z → Z;
  has_name : Ntk → Z → bool;
  get_name : Ntk → Z → string;
  has_output_name : Ntk → Z → bool;
  get_output_name : Ntk → Z → string;
  get_network_name : Ntk → string;
}.

Section Placement.
Context {L : Type} `{HL : CoordinateLayout L} `{MT : GateLevel.Mockturtle}.
Context `{HN : Network Ntk} `{HG : !GateNetwork Ntk}.

Abbreviation layout := (GateLevel.gate_level_layout L).

(** A [node_map] holds a value-initialized element for every node that is not assigned. *)
Definition map_at (m : gmap Z Z) (n : Z) : Z := default 0 (m !! n).

(** [reserve_input_nodes]: all inputs are created at tile (0, 0), each replacing its predecessor, and
    the last one is moved off the layout. *)
Definition reserve_input (ntk : Ntk) (r : layout * gmap Z Z) (pi : Z) :
    option (layout * gmap Z Z) :=
  let pi_signal := make_signal ntk pi in
  let pi_name := if has_name ntk pi_signal then get_name ntk pi_signal else "" in
  '(lyt, s) ← GateLevel.create_pi r.1 pi_name (ucoord2 0 0);
  Some (lyt, <[pi := GateLevel.get_node (GateLevel.strg lyt) s]> r.2).

Definition reserve_input_nodes (lyt : layout) (ntk : Ntk) : option (layout * gmap Z Z) :=
  r ← foldl (λ r pi, r ← r; reserve_input ntk r pi) (Some (lyt, ∅)) (foreach_pi ntk);
  '(lyt, _) ← GateLevel.move_node r.1 (GateLevel.get_node_at (GateLevel.strg r.1) (ucoord2 0 0))
                ucoord_default [];
  Some (lyt, r.2).

(** The overloads of [place] for nodes without inputs and with one, two and three inputs. Where no
    function matches, builds without assertions return the signal 0 and place nothing. *)
Definition place_0 (lyt : layout) (t : ucoord_t) (ntk : Ntk) (n : Z) : option (layout * Z) :=
  if is_pi ntk n
  then GateLevel.create_pi lyt (if has_name ntk n then get_name ntk n else "") t
  else Some (lyt, 0).

Definition place_1 (lyt : layout) (t : ucoord_t) (ntk : Ntk) (n : Z) (a : Z) :
    option (layout * Z) :=
  if is_inv ntk n then GateLevel.create_not lyt a t
  else if is_buf ntk n then GateLevel.create_buf lyt a t
  else Some (lyt, 0).

(** With [c] a constant third input: a majority gate becomes an OR or AND gate, and dereferencing a
    missing constant is undefined; other functions receive [c] converted from [bool] to a signal. *)
Definition place_2 (lyt : layout) (t : ucoord_t) (ntk : Ntk) (n : Z) (a b : Z)
    (c : option bool) : option (layout * Z) :=
  if is_and ntk n then GateLevel.create_and lyt a b t
  else if is_or ntk n then GateLevel.create_or lyt a b t
  else if is_xor ntk n then GateLevel.create_xor lyt a b t
  else if is_nand ntk n then GateLevel.create_nand lyt a b t
  else if is_nor ntk n then GateLevel.create_nor lyt a b t
  else if is_maj ntk n then
    c ← c; if (c : bool) then GateLevel.create_or lyt a b t else GateLevel.create_and lyt a b t
  else if is_function ntk n then
    match c with
    | Some c => GateLevel.create_node lyt [a; b; Z.b2z c] (node_function ntk n) t
    | None => GateLevel.create_node lyt [a; b] (node_function ntk n) t
    end
  else Some (lyt, 0).

Definition place_3 (lyt : layout) (t : ucoord_t) (ntk : Ntk) (n : Z) (a b c : Z) :
    option (layout * Z) :=
  if is_maj ntk n then GateLevel.create_maj lyt a b c t
  else if is_function ntk n then GateLevel.create_node lyt [a; b; c] (node_function ntk n) t
  else Some (lyt, 0).

(** The overloads of [place] that fetch the inputs of a node by themselves: [position u] is
    [node2pos[ntk.make_signal(u)]], or [node2pos[...][n]] with branches. *)
Definition place_at (position : Z → Z) (lyt : layout) (t : ucoord_t) (ntk : Ntk) (n : Z) :
    option (layout * Z) :=
  let fc := fanins ntk n in
  match container_nodes fc with
  | [] => place_0 lyt t ntk n
  | [u] => place_1 lyt t ntk n (position u)
  | [u; v] => place_2 lyt t ntk n (position u) (position v) (constant_fanin fc)
  | [u; v; w] => place_3 lyt t ntk n (position u) (position v) (position w)
  | _ => Some (lyt, 0)
  end.

Definition place (lyt : layout) (t : ucoord_t) (ntk : Ntk) (n : Z) (node2pos : gmap Z Z) :
    option (layout * Z) :=
  place_at (λ u, map_at node2pos (get_node ntk (make_signal ntk u))) lyt t ntk n.

(** [branching_signal_container]: an array of [fanout_size] branches, filled from the front. *)
Record branching_signal := BranchingSignal { ntk_node : Z; lyt_signal : Z }.

Definition branching_signal_container : Type := list (option branching_signal).

Definition no_branches (fanout_size : nat) : branching_signal_container :=
  replicate fanout_size None.

(** [operator[]]. *)
Fixpoint branch_of (bs : branching_signal_container) (n : Z) : Z :=
  match bs with
  | [] => 0
  | Some b :: bs => if ntk_node b =? n then lyt_signal b else branch_of bs n
  | None :: bs => branch_of bs n
  end.

Fixpoint update_branch (bs : branching_signal_container) (n s : Z) : branching_signal_container :=
  match bs with
  | [] => []
  | Some b :: bs =>
      if ntk_node b =? n then Some (BranchingSignal n s) :: bs
      else Some b :: update_branch bs n s
  | None :: bs => Some (BranchingSignal n s) :: bs
  end.

Definition place_branching (lyt : layout) (t : ucoord_t) (ntk : Ntk) (n : Z)
    (node2pos : gmap Z branching_signal_container) : option (layout * Z) :=
  place_at (λ u,
    branch_of (default (no_branches 2) (node2pos !! get_node ntk (make_signal ntk u))) n)
  lyt t ntk n.

(** ** [name_utils.hpp] *)

Definition restore_network_name (ntk : Ntk) (lyt : layout) : layout :=
  GateLevel.set_strg (GateLevel.set_layout_name (GateLevel.strg lyt) (get_network_name ntk)) lyt.

(** [restore_input_names]: inputs correspond by their index. *)
Definition restore_input_names (ntk : Ntk) (lyt : layout) : option layout :=
  foldl (λ o p,
    lyt ← o;
    let pi_signal := make_signal ntk p.2 in
    if has_name ntk pi_signal
    then pi ← GateLevel.pi_at lyt p.1;
         Some (GateLevel.set_strg
                 (GateLevel.set_name_signal (GateLevel.strg lyt)
                    (GateLevel.make_signal (GateLevel.strg lyt) pi) (get_name ntk pi_signal)) lyt)
    else Some lyt)
  (Some lyt) (zip (seqZ 0 (Z.of_nat (length (foreach_pi ntk)))) (foreach_pi ntk)).

(** [restore_output_names]: outputs correspond by their index. *)
Definition restore_output_names (ntk : Ntk) (lyt : layout) : option layout :=
  foldl (λ o i,
    lyt ← o;
    if has_output_name ntk i then GateLevel.set_output_name lyt i (get_output_name ntk i)
    else Some lyt)
  (Some lyt) (seqZ 0 (Z.of_nat (length (foreach_po ntk)))).

(** The overloads of [restore_signal_names]: [position n f] is [old2new[get_node(f)]], with [[n]] for
    branches. *)
Definition restore_signal_names (ntk : Ntk) (lyt : layout) (position : Z → Z → Z) : layout :=
  foldl (λ lyt '(n, f),
    if has_name ntk f
    then GateLevel.set_strg
           (GateLevel.set_name_signal (GateLevel.strg lyt) (position n f) (get_name ntk f)) lyt
    else lyt)
  lyt (foreach_node ntk ≫= λ n, (λ f, (n, f)) <$> foreach_fanin ntk n).

(** The overloads of [restore_names], without and with a map of the signals. *)
Definition restore_io_names (ntk : Ntk) (lyt : layout) : option layout :=
  lyt ← restore_input_names ntk (restore_network_name ntk lyt);
  restore_output_names ntk lyt.

Definition restore_names (ntk : Ntk) (lyt : layout) (old2new : gmap Z Z) : option layout :=
  restore_output_names ntk
    (restore_signal_names ntk (restore_network_name ntk lyt)
       (λ _ f, map_at old2new (get_node ntk f))).

Definition restore_names_branching (ntk : Ntk) (lyt : layout)
    (old2new : gmap Z branching_signal_container) : option layout :=
  restore_output_names ntk
    (restore_signal_names ntk (restore_network_name ntk lyt)
       (λ n f, branch_of (default (no_branches 2) (old2new !! get_node ntk f)) n)).

End Placement.
End Placement.
