(* ===== verification/NetworkModel.v ===== *)
(** * A model of the class Network

    Netlists as lists of gates, an instance of the parameters of [Networks.v] that satisfies their
    laws, with which the witnesses of the theorems on networks evaluate. Nodes 0 and 1 are the
    constants, the inputs follow, then the gates in topological order. *)

From S2P Require Import Prelude.
From S2P Require Import GateLevelLayout.
From S2P Require Import MockturtleModel.
From S2P Require Import Networks.
From S2P Require Import PlacementUtils.
#[local] Open Scope Z_scope.
Import Networks.

Module Netlists.

(** The kinds of gates that the physical design algorithms distinguish. *)
Inductive gate_kind := Buf | Inv | And | Or | Xor | Nand | Nor | Maj | Lut (table : list bool).

#[export] Instance gate_kind_eq_dec : EqDecision gate_kind.
Proof. solve_decision. Defined.

Record netlist := Netlist {
  num_inputs : nat;
  gates : list (gate_kind * list Z);
  output_nodes : list Z;
  input_names : list string;
  output_names : list string;
}.

Definition first_gate (ntk : netlist) : Z := 2 + Z.of_nat (num_inputs ntk).
Definition num_nodes (ntk : netlist) : Z := first_gate ntk + Z.of_nat (length (gates ntk)).
Definition node_list (ntk : netlist) : list Z := seqZ 0 (num_nodes ntk).

Definition gate_at (ntk : netlist) (n : Z) : option (gate_kind * list Z) :=
  vec_at (gates ntk) (n - first_gate ntk).

Definition node_fanins (ntk : netlist) (n : Z) : list Z :=
  match gate_at ntk n with Some (_, fis) => fis | None => [] end.

#[export] Instance netlist_network : Network netlist := {
  foreach_node := node_list;
  foreach_gate_reverse ntk := reverse (seqZ (first_gate ntk) (Z.of_nat (length (gates ntk))));
  foreach_pi ntk := seqZ 2 (Z.of_nat (num_inputs ntk));
  foreach_po := output_nodes;
  foreach_fanin := node_fanins;
  foreach_fanout ntk n := filter (λ g, n ∈ node_fanins ntk g) (node_list ntk);
  get_node _ n := n;
  fanin_size ntk n := Z.of_nat (length (node_fanins ntk n));
  size := num_nodes;
  node_to_index _ n := n;
  is_constant _ n := n <? 2;
  constant_value _ n := n =? 1;
  is_pi ntk n := (2 <=? n) && (n <? first_gate ntk);
  is_po ntk n := existsb (Z.eqb n) (output_nodes ntk);
}.

(** Gates stand behind their fanins, and outputs are nodes. *)
Definition valid_netlist (ntk : netlist) : bool :=
  forallb (λ n, forallb (λ u, (0 <=? u) && (u <? n)) (node_fanins ntk n)) (node_list ntk) &&
  forallb (λ n, (0 <=? n) && (n <? num_nodes ntk)) (output_nodes ntk).

Lemma elem_of_node_list ntk n : n ∈ node_list ntk ↔ 0 <= n < num_nodes ntk.
Proof. unfold node_list. rewrite elem_of_seqZ. lia. Qed.

Lemma node_fanins_below ntk n : n < first_gate ntk → node_fanins ntk n = [].
Proof. intros Hn. unfold node_fanins, gate_at, vec_at. by rewrite decide_False by lia. Qed.

Lemma valid_fanin ntk n u :
  valid_netlist ntk = true → n ∈ node_list ntk → u ∈ node_fanins ntk n → 0 <= u < n.
Proof.
  unfold valid_netlist. rewrite andb_true_iff, forallb_forall. setoid_rewrite <-list_elem_of_In.
  intros [Hv _] Hn Hu. specialize (Hv n Hn). rewrite forallb_forall in Hv.
  apply list_elem_of_In in Hu. specialize (Hv u Hu). lia.
Qed.

Lemma netlist_laws ntk : valid_netlist ntk = true → NetworkLaws ntk.
Proof.
  intros Hv. split; cbn; unfold fanin_nodes; cbn; intros;
    try (rewrite list_fmap_id in *).
  - rewrite list_elem_of_filter. tauto.
  - rename H into E, H0 into Hu.
    assert (n = Z.of_nat (length pre)) as Hn.
    { unfold node_list in E.
      assert (seqZ 0 (num_nodes ntk) !! length pre = Some n) as Hl
        by (rewrite E; apply list_lookup_middle; done).
      apply lookup_seqZ in Hl. lia. }
    assert (0 <= u < n) as Hun.
    { apply (valid_fanin ntk); [done| |done]. rewrite E. set_solver. }
    apply (list_elem_of_lookup_2 _ (Z.to_nat u)).
    assert (node_list ntk !! Z.to_nat u = Some u) as Hl.
    { unfold node_list. apply lookup_seqZ.
      assert (n ∈ node_list ntk) as Hin%elem_of_node_list by (rewrite E; set_solver). lia. }
    rewrite E in Hl. by rewrite lookup_app_l in Hl by lia.
  - apply NoDup_Permutation; [apply NoDup_seqZ|apply NoDup_filter, NoDup_seqZ|]. intros n.
    rewrite list_elem_of_filter, elem_of_seqZ, elem_of_node_list, andb_true_iff.
    unfold num_nodes, first_gate. lia.
  - lia.
  - rewrite elem_of_reverse, elem_of_seqZ, elem_of_node_list, andb_false_iff.
    unfold num_nodes, first_gate. lia.
  - apply node_fanins_below. lia.
  - apply node_fanins_below. unfold first_gate. lia.
  - done.
  - unfold valid_netlist in Hv. rewrite andb_true_iff in Hv. destruct Hv as [_ Hv].
    rewrite forallb_forall in Hv. apply elem_of_node_list. apply list_elem_of_In in H.
    specialize (Hv _ H). lia.
  - by apply elem_of_node_list.
  - done.
Qed.

(** Functions and names. Signals are nodes. *)
Definition has_kind (ntk : netlist) (n : Z) (k : gate_kind) : bool :=
  match gate_at ntk n with Some (k', _) => bool_decide (k = k') | None => false end.

Definition kind_function (k : gate_kind) : list bool :=
  match k with
  | Buf => [false; true]
  | Inv => [true; false]
  | And => table_of_word 0x8 2
  | Or => table_of_word 0xe 2
  | Xor => table_of_word 0x6 2
  | Nand => table_of_word 0x7 2
  | Nor => table_of_word 0x1 2
  | Maj => table_of_word 0xe8 3
  | Lut f => f
  end.

Definition name_at (names : list string) (i : Z) : string := default "" (vec_at names i).

#[export] Instance netlist_gates : Placement.GateNetwork netlist := {
  is_inv ntk n := has_kind ntk n Inv;
  is_buf ntk n := has_kind ntk n Buf;
  is_and ntk n := has_kind ntk n And;
  is_or ntk n := has_kind ntk n Or;
  is_xor ntk n := has_kind ntk n Xor;
  is_nand ntk n := has_kind ntk n Nand;
  is_nor ntk n := has_kind ntk n Nor;
  is_maj ntk n := has_kind ntk n Maj;
  is_function ntk n := first_gate ntk <=? n;
  node_function ntk n :=
    match gate_at ntk n with Some (k, _) => kind_function k | None => [] end;
  make_signal _ n := n;
  has_name ntk s := negb (bool_decide (name_at (input_names ntk) (s - 2) = ""));
  get_name ntk s := name_at (input_names ntk) (s - 2);
  has_output_name ntk i := negb (bool_decide (name_at (output_names ntk) i = ""));
  get_output_name ntk i := name_at (output_names ntk) i;
  get_network_name _ := "netlist";
}.

End Netlists.
