(* ===== verification/EdgeColoring.v ===== *)
(** * Edge colors and the east-south coloring of networks

    [networks/views/edge_color_view.hpp] and the coloring part of
    [algorithms/physical_design/orthogonal.hpp], which decides for each gate whether it is placed to
    the east or to the south of its predecessors. Node colors are mockturtle's [color_view], class
    [ColorView]; [MapColors] is an instance. *)

From S2P Require Import Prelude.
From S2P Require Import Networks.
#[local] Open Scope Z_scope.
Import Networks.

Module EdgeColoring.

(** What the code uses of mockturtle's [out_of_place_color_view]. *)
Class ColorView := {
  node_colors : Type;
  no_node_colors : node_colors;
  color : node_colors → Z → Z;
  paint_node : node_colors → Z → Z → node_colors;
  new_color : node_colors → Z * node_colors;
  current_color : node_colors → Z;
  clear_node_colors : node_colors → Z → node_colors;
}.

Class ColorViewLaws `{ColorView} := {
  color_none n : color no_node_colors n = 0;
  color_paint v n m c : color (paint_node v n c) m = if decide (n = m) then c else color v m;
  new_color_colors v n : color (new_color v).2 n = color v n;
  new_color_not_null v : (new_color v).1 ≠ 0;
  new_color_fresh v : (new_color (new_color v).2).1 ≠ (new_color v).1;
}.

(** ** [out_of_place_edge_color_view] *)

Section View.
Context `{ColorView}.

(** The view: the node colors of the parent view, and [edge_colors]. *)
Record edge_color_view := EdgeColorView {
  parent_view : node_colors;
  edge_colors : gmap edge Z;
}.

Definition new_edge_color_view : edge_color_view := EdgeColorView no_node_colors ∅.

Definition clear_colors (v : edge_color_view) : edge_color_view :=
  EdgeColorView (clear_node_colors (parent_view v) 0) ∅.

Definition edge_color (v : edge_color_view) (e : edge) : Z :=
  match edge_colors v !! e with Some c => c | None => 0 end.

(** The overloads of [paint_edge]: with a color, with the current color, with the color of another
    edge; the last one inserts the other edge with color 0 when it has none. *)
Definition paint_edge (v : edge_color_view) (e : edge) (clr : Z) : edge_color_view :=
  EdgeColorView (parent_view v) (<[e := clr]> (edge_colors v)).

Definition paint_edge_current (v : edge_color_view) (e : edge) : edge_color_view :=
  paint_edge v e (current_color (parent_view v)).

Definition paint_edge_like (v : edge_color_view) (e other : edge) : edge_color_view :=
  let m := match edge_colors v !! other with
           | Some _ => edge_colors v
           | None => <[other := 0]> (edge_colors v)
           end in
  EdgeColorView (parent_view v) (<[e := default 0 (m !! other)]> m).

Definition eval_edge_color {A} (v : edge_color_view) (e : edge) (pred : Z → A) : A :=
  pred (edge_color v e).

Definition eval_edge_colors {A} (v : edge_color_view) (a b : edge) (pred : Z → Z → A) : A :=
  pred (edge_color v a) (edge_color v b).

(** [paint] of the parent view. *)
Definition paint (v : edge_color_view) (n : Z) (clr : Z) : edge_color_view :=
  EdgeColorView (paint_node (parent_view v) n clr) (edge_colors v).

Definition node_color (v : edge_color_view) (n : Z) : Z := color (parent_view v) n.

(** ** [orthogonal.hpp]: coloring *)

(** [coloring_container]; its constructor takes two new colors. The network is passed along. *)
Record coloring_container := ColoringContainer {
  color_ntk : edge_color_view;
  color_east : Z;
  color_south : Z;
}.

Definition color_null : Z := 0.

Definition new_coloring_container : coloring_container :=
  let r1 := new_color (parent_view new_edge_color_view) in
  let r2 := new_color r1.2 in
  ColoringContainer (EdgeColorView r2.2 (edge_colors new_edge_color_view)) r1.1 r2.1.

Definition opposite_color (ctn : coloring_container) (c : Z) : Z :=
  if c =? color_east ctn then color_south ctn else color_east ctn.

Definition set_color_ntk (v : edge_color_view) (ctn : coloring_container) : coloring_container :=
  ColoringContainer v (color_east ctn) (color_south ctn).

Context `{Network Ntk}.
Implicit Types (ntk : Ntk).

(** [siblings]. *)
Definition siblings ntk (n : Z) : list Z :=
  foreach_fanin ntk n ≫= λ fi,
    let fin := get_node ntk fi in
    if negb (is_constant ntk fin)
    then filter (λ fon, is_constant ntk fon = false ∧ fon ≠ n) (foreach_fanout ntk fin)
    else [].

(** [recursively_paint_edges]; the view is [mutable] and passed along. [fuel] bounds the depth of the
    recursion. *)
Fixpoint recursively_paint_edges (fuel : nat) ntk (ctn : coloring_container) (e : edge) (c : Z) :
    option coloring_container :=
  match fuel with
  | O => None
  | S fuel =>
      if negb (edge_color (color_ntk ctn) e =? color_null) then Some ctn
      else
        let painted := set_color_ntk (paint_edge (color_ntk ctn) e c) ctn in
        painted ← foldl (λ o oe,
                    painted ← o;
                    if edge_neqb oe e
                    then recursively_paint_edges fuel ntk painted oe (opposite_color ctn c)
                    else Some painted)
                  (Some painted) (foreach_outgoing_edge ntk e.1);
        foldl (λ o ie,
          painted ← o;
          if edge_neqb ie e then recursively_paint_edges fuel ntk painted ie c else Some painted)
        (Some painted) (foreach_incoming_edge ntk e.2)
  end.

(** The functor of [east_south_edge_coloring] on one gate. *)
Definition color_gate (fuel : nat) ntk (ctn : coloring_container) (n : Z) : option coloring_container :=
  let finc := fanin_edges ntk n in
  let colored ctn c := λ fe, edge_color (color_ntk ctn) fe =? c in
  let c := if existsb (colored ctn (color_east ctn)) finc
           then color_east ctn else color_south ctn in
  ctn ← foldl (λ ctn fe, ctn ← ctn; recursively_paint_edges fuel ntk ctn fe c) (Some ctn) finc;
  Some (
    if forallb (colored ctn (color_east ctn)) finc
    then set_color_ntk (paint (color_ntk ctn) n (color_east ctn)) ctn
    else if forallb (colored ctn (color_south ctn)) finc
    then set_color_ntk (paint (color_ntk ctn) n (color_south ctn)) ctn
    else ctn).

Definition east_south_edge_coloring (fuel : nat) ntk : option coloring_container :=
  foldl (λ ctn n, ctn ← ctn; color_gate fuel ntk ctn n) (Some new_coloring_container)
    (foreach_gate_reverse ntk).

(** [is_east_south_colored]; both loops stop at the first violation. *)
Definition is_east_south_colored ntk (v : edge_color_view) : bool :=
  forallb (λ n,
    is_constant ntk n ||
    match foreach_fanout ntk n with
    | [] => true
    | fon :: fons => forallb (λ f, negb (node_color v fon =? node_color v f)) fons
    end)
  (foreach_node ntk).

(** [is_eastern_po_orientation_available], which looks at the first fanout only. *)
Definition is_eastern_po_orientation_available ntk (ctn : coloring_container) (n : Z) : bool :=
  match foreach_fanout ntk n with
  | [] => true
  | fon :: _ => negb (node_color (color_ntk ctn) fon =? color_east ctn)
  end.

End View.

(** ** Colors as maps *)

Module MapColors.

#[export] Instance map_colors : ColorView := {
  node_colors := gmap Z Z * N;
  no_node_colors := (∅, 0%N);
  color v n := default 0 (v.1 !! n);
  paint_node v n c := (<[n := c]> v.1, v.2);
  new_color v := (Z.of_N (v.2 + 1), (v.1, (v.2 + 1)%N));
  current_color v := Z.of_N v.2;
  clear_node_colors v c := (∅, v.2);
}.

#[export] Instance map_colors_laws : ColorViewLaws.
Proof.
  split; cbn; [done| |done|lia|lia]. intros v n m c. by rewrite lookup_insert; case_decide.
Qed.

End MapColors.
End EdgeColoring.
