(* ===== verification/EdgeColoringProperties.v ===== *)
(** * The east-south coloring: termination, completeness, properness

    Painting an edge paints exactly its component, the edges that are connected to it by common
    sources and targets, and it follows any proper coloring of the component. *)

From S2P Require Import Prelude.
From S2P Require Import Networks.
From S2P Require Import EdgeColoring.
From S2P Require Import NetworkModel.
#[local] Open Scope Z_scope.
Import Networks EdgeColoring.

Module Painting.
Section Painting.
Context `{HC : ColorView} `{HN : Network Ntk} (ntk : Ntk) `{!NetworkLaws ntk}.
Implicit Types (ctn : coloring_container) (e f : edge).

(** ** Adjacent edges *)

Definition all_edges : gset edge := list_to_set (foreach_edge ntk).

(** The edges that the recursion visits from [e]: children edges and spouse edges. *)
Definition adjacent e f : Prop := e ≠ f ∧ f ∈ all_edges ∧ (f.1 = e.1 ∨ f.2 = e.2).

Lemma elem_of_all_edges e : e ∈ all_edges ↔ e.2 ∈ foreach_node ntk ∧ e.1 ∈ fanin_nodes ntk e.2.
Proof. unfold all_edges. rewrite elem_of_list_to_set. apply elem_of_foreach_edge. Qed.

Lemma outgoing_edges_all e f :
  f ∈ foreach_outgoing_edge ntk e.1 ↔ f.1 = e.1 ∧ f ∈ all_edges.
Proof.
  rewrite elem_of_outgoing_edges, elem_of_all_edges, foreach_fanout_converse.
  split; intros [-> ?]; auto.
Qed.

Lemma incoming_edges_all e f :
  e ∈ all_edges → f ∈ foreach_incoming_edge ntk e.2 ↔ f.2 = e.2 ∧ f ∈ all_edges.
Proof.
  rewrite elem_of_incoming_edges, !elem_of_all_edges. intros [He _].
  split; intros [-> ?]; naive_solver.
Qed.

Lemma fanin_edges_all n e :
  n ∈ foreach_node ntk → e ∈ fanin_edges ntk n → e ∈ all_edges.
Proof.
  rewrite elem_of_fanin_edges, elem_of_proper_fanins, elem_of_all_edges.
  intros Hn (-> & He & _). auto.
Qed.

Lemma edge_neqb_spec e f : edge_neqb e f = true ↔ e ≠ f.
Proof.
  unfold edge_neqb, edge_eqb. destruct e as [a b], f as [c d]. simpl.
  rewrite negb_true_iff, andb_false_iff, !Z.eqb_neq. split; [naive_solver|].
  intros Hne. destruct (decide (a = c)); [right|by left]. naive_solver.
Qed.

(** ** States of the container *)

Definition ecolor ctn e : Z := edge_color (color_ntk ctn) e.
Definition ncolor ctn (n : Z) : Z := node_color (color_ntk ctn) n.
Definition painted ctn e : Prop := ecolor ctn e ≠ color_null.

Definition unpainted ctn : gset edge := filter (λ e, ecolor ctn e = color_null) all_edges.

(** The two colors of a container are colors, and different. *)
Record container_ok ctn : Prop := {
  east_painted : color_east ctn ≠ color_null;
  south_painted : color_south ctn ≠ color_null;
  east_not_south : color_east ctn ≠ color_south ctn;
}.

Definition valid_color ctn (c : Z) : Prop := c = color_east ctn ∨ c = color_south ctn.

Lemma opposite_color_valid ctn c : valid_color ctn (opposite_color ctn c).
Proof. unfold opposite_color, valid_color. case_match; auto. Qed.

Lemma opposite_color_involutive ctn c :
  container_ok ctn → valid_color ctn c → opposite_color ctn (opposite_color ctn c) = c.
Proof.
  intros [] [->| ->]; unfold opposite_color; rewrite ?Z.eqb_refl;
    repeat case_match; zbool; rewrite ?Z.eqb_eq, ?Z.eqb_neq in *; congruence.
Qed.

Lemma valid_painted ctn c : container_ok ctn → valid_color ctn c → c ≠ color_null.
Proof. intros [] [->| ->]; done. Qed.

(** What painting does to a container: painted edges keep their color, newly painted edges are
    edges of [Q] all whose adjacent edges are painted, and nothing else changes. *)
Record paints (Q : edge → Z → Prop) ctn ctn' : Prop := {
  paints_east : color_east ctn' = color_east ctn;
  paints_south : color_south ctn' = color_south ctn;
  paints_nodes : parent_view (color_ntk ctn') = parent_view (color_ntk ctn);
  paints_keeps e : painted ctn e → ecolor ctn' e = ecolor ctn e;
  paints_new e : painted ctn' e → ¬ painted ctn e → e ∈ all_edges ∧ Q e (ecolor ctn' e);
  paints_closed e f : painted ctn' e → ¬ painted ctn e → adjacent e f → painted ctn' f;
}.

Instance painted_dec ctn e : Decision (painted ctn e).
Proof. unfold painted. apply _. Defined.

Lemma paints_painted Q ctn ctn' e : paints Q ctn ctn' → painted ctn e → painted ctn' e.
Proof. intros Hp He. unfold painted. by rewrite (paints_keeps _ _ _ Hp). Qed.

Lemma paints_refl Q ctn : paints Q ctn ctn.
Proof. by split. Qed.

Lemma paints_trans Q ctn1 ctn2 ctn3 : paints Q ctn1 ctn2 → paints Q ctn2 ctn3 → paints Q ctn1 ctn3.
Proof.
  intros H12 H23. pose proof (λ e, paints_painted _ _ _ e H12) as Hp12.
  pose proof (λ e, paints_painted _ _ _ e H23) as Hp23.
  destruct H12 as [E1 S1 N1 K1 Q1 C1], H23 as [E2 S2 N2 K2 Q2 C2]. split; try congruence.
  - intros e He. rewrite K2 by auto. auto.
  - intros e He Hne. destruct (decide (painted ctn2 e)) as [He2|]; [|auto].
    rewrite K2 by done. auto.
  - intros e f He Hne Hf. destruct (decide (painted ctn2 e)); [|eauto]. eauto.
Qed.

Lemma unpainted_mono Q ctn ctn' : paints Q ctn ctn' → unpainted ctn' ⊆ unpainted ctn.
Proof.
  intros Hp e. unfold unpainted. rewrite !elem_of_filter. intros [He ?]. split; [|done].
  destruct (decide (ecolor ctn e = color_null)) as [|Hne]; [done|].
  by rewrite (paints_keeps _ _ _ Hp e Hne) in He.
Qed.

(** ** Painting one edge *)

Definition paint_one ctn e (c : Z) : coloring_container :=
  set_color_ntk (paint_edge (color_ntk ctn) e c) ctn.

Lemma ecolor_paint_one ctn e c f :
  ecolor (paint_one ctn e c) f = if decide (e = f) then c else ecolor ctn f.
Proof.
  unfold ecolor, paint_one, edge_color. cbn. rewrite lookup_insert. by case_decide.
Qed.

Lemma unpainted_paint_one ctn e c :
  e ∈ all_edges → ¬ painted ctn e → c ≠ color_null →
  (base.size (unpainted (paint_one ctn e c)) < base.size (unpainted ctn))%nat.
Proof.
  intros He Hne Hc. apply subset_size. split.
  - intros f. unfold unpainted. rewrite !elem_of_filter, ecolor_paint_one. case_decide; [|done].
    intros [? ?]. congruence.
  - intros Hsub. assert (e ∈ unpainted (paint_one ctn e c)) as Hin.
    { apply Hsub. unfold unpainted. rewrite elem_of_filter. unfold painted in Hne.
      split; [|done]. by destruct (decide (ecolor ctn e = color_null)). }
    unfold unpainted in Hin. rewrite elem_of_filter, ecolor_paint_one, decide_True in Hin by done.
    naive_solver.
Qed.

(** A loop that paints some of the edges [es] with the color [c]. *)
Definition paint_loop (fuel : nat) (e : edge) (c : Z) (es : list edge)
    (o : option coloring_container) : option coloring_container :=
  foldl (λ o oe, ctn ← o;
    if edge_neqb oe e then recursively_paint_edges fuel ntk ctn oe c else Some ctn) o es.

Lemma paint_unfold fuel ctn e c :
  ¬ painted ctn e →
  recursively_paint_edges (S fuel) ntk ctn e c =
    (ctn' ← paint_loop fuel e (opposite_color ctn c) (foreach_outgoing_edge ntk e.1)
              (Some (paint_one ctn e c));
     paint_loop fuel e c (foreach_incoming_edge ntk e.2) (Some ctn')).
Proof.
  intros Hne. cbn [recursively_paint_edges].
  replace (edge_color (color_ntk ctn) e =? color_null) with true; [done|].
  symmetry. apply Z.eqb_eq. unfold painted, ecolor in Hne.
  by apply dec_stable.
Qed.

Lemma paint_painted fuel ctn e c :
  painted ctn e → recursively_paint_edges (S fuel) ntk ctn e c = Some ctn.
Proof.
  intros He. cbn. apply Z.eqb_neq in He. unfold ecolor in He. by rewrite He.
Qed.

(** A predicate that the colors the recursion passes on, from edges it paints, satisfy. *)
Definition propagates ctn (Q : edge → Z → Prop) : Prop :=
  ∀ e c f, ¬ painted ctn e → Q e c → e ∈ all_edges → f ∈ all_edges → e ≠ f →
    (f.1 = e.1 → Q f (opposite_color ctn c)) ∧ (f.2 = e.2 → Q f c).

Lemma propagates_later Q ctn ctn' :
  color_east ctn' = color_east ctn → color_south ctn' = color_south ctn →
  (∀ e, painted ctn e → painted ctn' e) → propagates ctn Q → propagates ctn' Q.
Proof.
  intros HE HS Hp Hprop e c f Hne. unfold opposite_color. rewrite HE, HS. apply Hprop. naive_solver.
Qed.

(** What a call of [recursively_paint_edges] with [fuel] guarantees. *)
Definition paint_correct (Q : edge → Z → Prop) (fuel : nat) : Prop :=
  ∀ ctn e c, container_ok ctn → propagates ctn Q → e ∈ all_edges → valid_color ctn c → Q e c →
    (base.size (unpainted ctn) < fuel)%nat →
    ∃ ctn', recursively_paint_edges fuel ntk ctn e c = Some ctn' ∧ paints Q ctn ctn' ∧
      painted ctn' e.

Lemma paint_loop_spec Q fuel e c es :
  paint_correct Q fuel → ∀ ctn,
  container_ok ctn → propagates ctn Q → valid_color ctn c →
  (∀ f, f ∈ es → f ≠ e → f ∈ all_edges ∧ Q f c) →
  (base.size (unpainted ctn) < fuel)%nat →
  ∃ ctn', paint_loop fuel e c es (Some ctn) = Some ctn' ∧ paints Q ctn ctn' ∧
    (∀ f, f ∈ es → f ≠ e → painted ctn' f).
Proof.
  intros Hpaint. induction es as [|f es IH]; intros ctn Hok Hprop Hc Hes Hfuel; simpl.
  { exists ctn. split; [done|]. split; [apply paints_refl|]. set_solver. }
  assert (∃ ctn1, (if edge_neqb f e then recursively_paint_edges fuel ntk ctn f c else Some ctn)
      = Some ctn1 ∧ paints Q ctn ctn1 ∧ (f ≠ e → painted ctn1 f)) as (ctn1 & E1 & Hp1 & Hf).
  { destruct (edge_neqb f e) eqn:Hn.
    - apply edge_neqb_spec in Hn. destruct (Hes f) as [? ?]; [by left|done|].
      destruct (Hpaint ctn f c) as (ctn1 & ? & ? & ?); try done. eauto.
    - exists ctn. split; [done|]. split; [apply paints_refl|]. intros Hne.
      apply edge_neqb_spec in Hne. congruence. }
  rewrite E1. pose proof Hp1 as [HE HS _ _ _ _].
  destruct (IH ctn1) as (ctn2 & E2 & Hp2 & Hall).
  - destruct Hok. split; congruence.
  - apply (propagates_later Q ctn); [done..| |done]. intros g. by eapply paints_painted.
  - unfold valid_color in *. by rewrite HE, HS.
  - intros g Hg. apply Hes. by right.
  - pose proof (subseteq_size _ _ (unpainted_mono _ _ _ Hp1)). lia.
  - exists ctn2. split; [exact E2|]. split; [by eapply paints_trans|].
    intros g [->|Hg]%elem_of_cons Hne; [|auto]. eapply paints_painted; eauto.
Qed.

Lemma paint_correct_all Q fuel : paint_correct Q fuel.
Proof.
  induction fuel as [|fuel IH]; intros ctn e c Hok Hprop He Hc HQ Hfuel; [lia|].
  destruct (decide (painted ctn e)) as [Hp|Hnp].
  { rewrite paint_painted by done. exists ctn. split; [done|]. split; [apply paints_refl|done]. }
  rewrite paint_unfold by done.
  pose proof (valid_painted _ _ Hok Hc) as Hcn.
  pose proof (unpainted_paint_one ctn e c He Hnp Hcn) as Hlt.
  set (ctn1 := paint_one ctn e c) in *.
  assert (container_ok ctn1) as Hok1 by (by destruct Hok; split).
  assert (∀ f, painted ctn f → painted ctn1 f) as Hlater.
  { intros f Hf. unfold painted, ctn1 in *. rewrite ecolor_paint_one. by case_decide. }
  assert (propagates ctn1 Q) as Hprop1 by by apply (propagates_later Q ctn).
  destruct (paint_loop_spec Q fuel e (opposite_color ctn c) (foreach_outgoing_edge ntk e.1) IH ctn1)
    as (ctn2 & E2 & Hp2 & Hout); [done|exact Hprop1|exact (opposite_color_valid ctn c)| |lia|].
  { intros f Hf Hne. apply outgoing_edges_all in Hf as [Hf1 Hf]. split; [done|].
    by apply (Hprop e c f). }
  rewrite E2. simpl. pose proof Hp2 as [HE HS _ _ _ _].
  pose proof (subseteq_size _ _ (unpainted_mono _ _ _ Hp2)).
  destruct (paint_loop_spec Q fuel e c (foreach_incoming_edge ntk e.2) IH ctn2)
    as (ctn3 & E3 & Hp3 & Hin); [| | | |lia|].
  { destruct Hok1. split; congruence. }
  { apply (propagates_later Q ctn1); [done..| |done]. intros f. by eapply paints_painted. }
  { unfold valid_color in *. by rewrite HE, HS. }
  { intros f Hf Hne. apply incoming_edges_all in Hf as [Hf2 Hf]; [|done]. split; [done|].
    by apply (Hprop e c f). }
  exists ctn3. split; [exact E3|].
  pose proof (paints_trans _ _ _ _ Hp2 Hp3) as Hp13.
  assert (painted ctn1 e) as He1.
  { unfold painted, ctn1. by rewrite ecolor_paint_one, decide_True. }
  split; [|by eapply paints_painted].
  assert (∀ f, ¬ painted ctn f → painted ctn1 f → f = e) as Honly.
  { intros f Hnf. unfold painted, ctn1 in *. rewrite ecolor_paint_one. by case_decide. }
  split; [apply Hp13|apply Hp13|apply Hp13| | |].
  - intros f Hf. assert (e ≠ f) as Hne by (intros <-; done).
    assert (ecolor ctn1 f = ecolor ctn f) as Ef
      by (unfold ctn1; by rewrite ecolor_paint_one, decide_False).
    rewrite <-Ef. apply (paints_keeps _ _ _ Hp13). unfold painted. by rewrite Ef.
  - intros f Hf Hnf. destruct (decide (painted ctn1 f)) as [Hf1|Hf1].
    + apply Honly in Hf1 as ->; [|done]. split; [done|].
      rewrite (paints_keeps _ _ _ Hp13) by done. unfold ctn1.
      by rewrite ecolor_paint_one, decide_True.
    + by apply (paints_new _ _ _ Hp13).
  - intros f g Hf Hnf Hfg. destruct (decide (painted ctn1 f)) as [Hf1|Hf1].
    + apply Honly in Hf1 as ->; [|done]. destruct Hfg as (Hne & Hg & Hadj).
      destruct Hadj as [Hadj|Hadj].
      * eapply paints_painted; [exact Hp3|]. apply Hout; [|congruence]. by apply outgoing_edges_all.
      * apply Hin; [|congruence]. by apply incoming_edges_all.
    + by eapply (paints_closed _ _ _ Hp13).
Qed.

(** ** Consistent states *)

(** Colors are valid and components are painted as a whole. *)
Record colored ctn : Prop := {
  colored_ok : container_ok ctn;
  colored_edges e : painted ctn e → e ∈ all_edges ∧ valid_color ctn (ecolor ctn e);
  colored_closed e f : painted ctn e → adjacent e f → painted ctn f;
}.

(** The colors of two adjacent edges: those of children are opposite, those of spouses are equal. *)
Definition compatible ctn (k : edge → Z) e f : Prop :=
  (f.1 = e.1 → k f = opposite_color ctn (k e)) ∧ (f.2 = e.2 → k f = k e).

(** A proper coloring of all edges of the network with the colors of the container. *)
Definition proper_assignment ctn (k : edge → Z) : Prop :=
  ∀ e, e ∈ all_edges → valid_color ctn (k e) ∧ ∀ f, adjacent e f → compatible ctn k e f.

Definition colorable ctn : Prop := ∃ k, proper_assignment ctn k.

(** The painted edges are properly colored. *)
Definition proper ctn : Prop :=
  ∀ e f, painted ctn e → painted ctn f → adjacent e f → compatible ctn (ecolor ctn) e f.

(** [ctn'] has the colors and the painted edges of [ctn], and is proper if [ctn] is and if possible. *)
Record extends ctn ctn' : Prop := {
  extends_east : color_east ctn' = color_east ctn;
  extends_south : color_south ctn' = color_south ctn;
  extends_keeps e : painted ctn e → ecolor ctn' e = ecolor ctn e;
  extends_proper : colorable ctn → proper ctn → proper ctn';
}.

Lemma extends_refl ctn : extends ctn ctn.
Proof. by split. Qed.

Lemma extends_painted ctn ctn' e : extends ctn ctn' → painted ctn e → painted ctn' e.
Proof. intros Hx He. unfold painted. by rewrite (extends_keeps _ _ Hx). Qed.

Lemma same_colors ctn ctn' c :
  color_east ctn' = color_east ctn → color_south ctn' = color_south ctn →
  opposite_color ctn' c = opposite_color ctn c ∧ (valid_color ctn' c ↔ valid_color ctn c).
Proof. unfold opposite_color, valid_color. by intros -> ->. Qed.

Lemma colorable_same ctn ctn' :
  color_east ctn' = color_east ctn → color_south ctn' = color_south ctn →
  colorable ctn → colorable ctn'.
Proof.
  unfold colorable, proper_assignment, compatible, valid_color, opposite_color. by intros -> ->.
Qed.

Lemma extends_trans ctn1 ctn2 ctn3 : extends ctn1 ctn2 → extends ctn2 ctn3 → extends ctn1 ctn3.
Proof.
  intros H12 H23. pose proof (λ e, extends_painted _ _ e H12) as Hp.
  destruct H12 as [E1 S1 K1 P1], H23 as [E2 S2 K2 P2]. split; try congruence.
  - intros e He. rewrite K2 by auto. auto.
  - intros Hk Hpr. apply P2; [by eapply colorable_same|auto].
Qed.

(** The opposite of a proper coloring is proper; one of the two has a given color at a given edge. *)
Lemma proper_assignment_with ctn k e c :
  container_ok ctn → proper_assignment ctn k → e ∈ all_edges → valid_color ctn c →
  ∃ k', proper_assignment ctn k' ∧ k' e = c.
Proof.
  intros Hok Hk He Hc. destruct (decide (k e = c)) as [<-|Hne]; [by exists k|].
  exists (λ f, opposite_color ctn (k f)). split.
  - intros f Hf. split; [apply opposite_color_valid|]. intros g Hg.
    destruct (Hk f Hf) as [_ Hfg]. destruct (Hfg g Hg) as [H1 H2].
    split; intros E; [by rewrite H1|by rewrite H2].
  - destruct (Hk e He) as [Hv _]. destruct Hok. unfold opposite_color, valid_color in *.
    case_match; rewrite ?Z.eqb_eq, ?Z.eqb_neq in *; destruct Hv, Hc; congruence.
Qed.

(** ** Painting an unpainted component *)

Lemma adjacent_all_edges e f : e ∈ all_edges → rtc adjacent e f → f ∈ all_edges.
Proof. intros He. induction 1 as [|e f g (_ & Hf & _) _ IH]; auto. Qed.

Lemma paint_component fuel ctn e c :
  colored ctn → e ∈ all_edges → ¬ painted ctn e → valid_color ctn c →
  (base.size all_edges < fuel)%nat →
  ∃ ctn', recursively_paint_edges fuel ntk ctn e c = Some ctn' ∧ colored ctn' ∧
    extends ctn ctn' ∧ parent_view (color_ntk ctn') = parent_view (color_ntk ctn) ∧
    ∀ f, painted ctn' f ↔ painted ctn f ∨ rtc adjacent e f.
Proof.
  intros [Hok Hedges Hclosed] He Hne Hc Hfuel.
  set (Q := λ f c', valid_color ctn c' ∧ rtc adjacent e f ∧
    ∀ k, proper_assignment ctn k → k e = c → c' = k f).
  destruct (paint_correct_all Q fuel ctn e c) as (ctn' & E & Hp & He'); try done.
  - intros f cf g _ (Hv & Hrtc & Hk) Hf Hg Hfg.
    assert (∀ P : Prop, (g.1 = f.1 ∨ g.2 = f.2) → (adjacent f g → P) → P) as Hadj
      by (intros P ? HP; by apply HP).
    split; intros Eg.
    + apply Hadj; [by left|]. intros Ha. split; [apply opposite_color_valid|].
      split; [by eapply rtc_r|]. intros k Hpk Hke. rewrite (Hk k Hpk Hke).
      symmetry. by apply (proj2 (Hpk f Hf) g Ha).
    + apply Hadj; [by right|]. intros Ha. split; [done|].
      split; [by eapply rtc_r|]. intros k Hpk Hke. rewrite (Hk k Hpk Hke).
      symmetry. by apply (proj2 (Hpk f Hf) g Ha).
  - assert (unpainted ctn ⊆ all_edges) as Hsub by (intros f; unfold unpainted; set_solver).
    pose proof (subseteq_size _ _ Hsub). lia.
  - exists ctn'. pose proof Hp as [HE HS HN0 HK HQ Hcl].
    assert (∀ f, painted ctn' f → ¬ painted ctn f → rtc adjacent e f) as Hreach
      by (intros f Hf Hnf; by apply (HQ f)).
    assert (∀ f g, painted ctn' f → adjacent f g → painted ctn' g) as Hclosed'.
    { intros f g Hf Hfg. destruct (decide (painted ctn f)); [|by eapply Hcl].
      eapply paints_painted; [done|]. by eapply Hclosed. }
    assert (∀ f, rtc adjacent e f → painted ctn' f) as Hall
      by (intros f Hf; clear -Hf He' Hclosed'; induction Hf; eauto).
    split; [exact E|]. split; [split|split; [split|split]]; try done.
    + destruct Hok. split; congruence.
    + intros f Hf. destruct (same_colors _ _ (ecolor ctn' f) HE HS) as [_ ->].
      destruct (decide (painted ctn f)) as [Hf0|Hf0].
      * rewrite HK by done. auto.
      * destruct (HQ f Hf Hf0) as [? [? _]]. auto.
    + intros (k0 & Hk0) Hproper f g Hf Hg Hfg.
      destruct (proper_assignment_with ctn k0 e c) as (k & Hk & Hke); try done.
      assert (∀ c', opposite_color ctn' c' = opposite_color ctn c') as Hopp
        by (intros c'; apply (same_colors _ _ c' HE HS)).
      unfold compatible. rewrite Hopp. destruct (decide (painted ctn f)) as [Hf0|Hf0].
      * assert (painted ctn g) as Hg0 by eauto. rewrite !HK by done. by apply Hproper.
      * assert (¬ painted ctn g) as Hg0.
        { intros Hg0. apply Hf0. apply (Hclosed g f); [done|].
          destruct Hfg as (? & ? & ?), (HQ f Hf Hf0) as [? _]. split; [done|]. split; [done|].
          naive_solver. }
        destruct (HQ f Hf Hf0) as [Hfe (_ & _ & Ef)], (HQ g Hg Hg0) as [_ (_ & _ & Eg)].
        rewrite (Ef k), (Eg k) by done. by apply (proj2 (Hk f Hfe) g Hfg).
    + intros f. split; [|intros [Hf|Hf]; [by eapply paints_painted|auto]].
      intros Hf. destruct (decide (painted ctn f)); auto.
Qed.

(** ** Coloring the gates *)

(** An unpainted or painted edge: afterwards it is painted. *)
Lemma paint_edge_spec fuel ctn e c :
  colored ctn → e ∈ all_edges → valid_color ctn c → (base.size all_edges < fuel)%nat →
  ∃ ctn', recursively_paint_edges fuel ntk ctn e c = Some ctn' ∧ colored ctn' ∧
    extends ctn ctn' ∧ parent_view (color_ntk ctn') = parent_view (color_ntk ctn) ∧
    painted ctn' e.
Proof.
  intros Hcol He Hc Hfuel. destruct (decide (painted ctn e)) as [Hp|Hnp].
  - destruct fuel as [|fuel]; [lia|]. rewrite paint_painted by done.
    exists ctn. by split_and!; try apply extends_refl.
  - destruct (paint_component fuel ctn e c) as (ctn' & E & ? & ? & ? & Hp); try done.
    exists ctn'. split_and!; try done. apply Hp. by right.
Qed.

Lemma paint_all_spec fuel c es ctn :
  colored ctn → (∀ e, e ∈ es → e ∈ all_edges) → valid_color ctn c →
  (base.size all_edges < fuel)%nat →
  ∃ ctn', foldl (λ o fe, ctn ← o; recursively_paint_edges fuel ntk ctn fe c) (Some ctn) es
      = Some ctn' ∧ colored ctn' ∧ extends ctn ctn' ∧
    parent_view (color_ntk ctn') = parent_view (color_ntk ctn) ∧ ∀ e, e ∈ es → painted ctn' e.
Proof.
  intros Hcol Hes Hc Hfuel. revert ctn Hcol Hc.
  induction es as [|e es IH]; intros ctn Hcol Hc; simpl.
  { exists ctn. split_and!; try done. set_solver. }
  destruct (paint_edge_spec fuel ctn e c) as (ctn1 & -> & Hcol1 & Hx1 & HN1 & He); try done.
  { apply Hes. by left. }
  destruct (IH ltac:(set_solver) ctn1) as (ctn2 & E2 & Hcol2 & Hx2 & HN2 & Hall); [done| |].
  { by apply (same_colors ctn ctn1 c (extends_east _ _ Hx1) (extends_south _ _ Hx1)). }
  exists ctn2. split_and!; try done; [by eapply extends_trans|congruence|].
  intros f [->|Hf]%elem_of_cons; [by eapply extends_painted|auto].
Qed.

(** The color of a gate: the common color of its fanin edges. *)
Definition gate_color ctn (n : Z) : Z :=
  if forallb (λ fe, ecolor ctn fe =? color_east ctn) (fanin_edges ntk n) then color_east ctn
  else if forallb (λ fe, ecolor ctn fe =? color_south ctn) (fanin_edges ntk n) then color_south ctn
  else color_null.

Definition fanins_painted ctn (n : Z) : Prop := ∀ e, e ∈ fanin_edges ntk n → painted ctn e.

Lemma forallb_ext_in {A} (p q : A → bool) (l : list A) :
  (∀ a, a ∈ l → p a = q a) → forallb p l = forallb q l.
Proof.
  induction l as [|a l IH]; intros Hpq; [done|]. simpl.
  rewrite IH by (intros; apply Hpq; by right). by rewrite Hpq by left.
Qed.

Lemma gate_color_stable ctn ctn' n :
  extends ctn ctn' → fanins_painted ctn n → gate_color ctn' n = gate_color ctn n.
Proof.
  intros Hx Hn. unfold gate_color. rewrite (extends_east _ _ Hx), (extends_south _ _ Hx).
  rewrite (forallb_ext_in _ (λ fe, ecolor ctn fe =? color_east ctn)).
  2: { intros e He. by rewrite (extends_keeps _ _ Hx e (Hn e He)). }
  rewrite (forallb_ext_in (λ fe, ecolor ctn' fe =? color_south ctn)
    (λ fe, ecolor ctn fe =? color_south ctn)); [done|].
  intros e He. by rewrite (extends_keeps _ _ Hx e (Hn e He)).
Qed.

(** Painting a node does not affect edges. *)
Lemma paint_node_extends ctn n c :
  colored ctn →
  let ctn' := set_color_ntk (paint (color_ntk ctn) n c) ctn in colored ctn' ∧ extends ctn ctn'.
Proof. intros Hcol ctn'. split; [|by split]. destruct Hcol as [[] ? ?]. by split; [split|..]. Qed.

Context `{!ColorViewLaws}.

Lemma color_gate_spec fuel ctn n :
  colored ctn → n ∈ foreach_node ntk → (base.size all_edges < fuel)%nat →
  ∃ ctn', color_gate fuel ntk ctn n = Some ctn' ∧ colored ctn' ∧ extends ctn ctn' ∧
    fanins_painted ctn' n ∧
    (∀ m, m ≠ n → ncolor ctn' m = ncolor ctn m) ∧
    (gate_color ctn' n ≠ color_null ∨ ncolor ctn n = color_null →
      ncolor ctn' n = gate_color ctn' n).
Proof.
  intros Hcol Hn Hfuel. unfold color_gate.
  set (c := if existsb _ _ then _ else _).
  destruct (paint_all_spec fuel c (fanin_edges ntk n) ctn)
    as (ctn1 & E & Hcol1 & Hx & HN1 & Hall); try done.
  { intros e He. by eapply fanin_edges_all. }
  { unfold c. case_match; [by left|by right]. }
  rewrite E. simpl. eexists. split; [done|].
  assert (∀ m, ncolor ctn1 m = ncolor ctn m) as Hnode.
  { intros m. unfold ncolor, node_color. by rewrite HN1. }
  assert (∀ c, ecolor (set_color_ntk (paint (color_ntk ctn1) n c) ctn1) = ecolor ctn1)
    as Hedge by done.
  unfold fanins_painted, gate_color.
  destruct (colored_ok _ Hcol1) as [? ? ?].
  change (λ fe, edge_color (color_ntk ctn1) fe =? ?c) with (λ fe, ecolor ctn1 fe =? c).
  destruct (forallb (λ fe, ecolor ctn1 fe =? color_east ctn1) (fanin_edges ntk n)) eqn:He;
    [|destruct (forallb (λ fe, ecolor ctn1 fe =? color_south ctn1) (fanin_edges ntk n)) eqn:Hs].
  - destruct (paint_node_extends ctn1 n (color_east ctn1) Hcol1) as [? ?].
    split_and!; try done; [by eapply extends_trans| |]; intros; rewrite ?Hedge.
    + rewrite <-Hnode. unfold ncolor, node_color. simpl. by rewrite color_paint, decide_False.
    + unfold ncolor, node_color. simpl. rewrite color_paint, decide_True by done. by rewrite He.
  - destruct (paint_node_extends ctn1 n (color_south ctn1) Hcol1) as [? ?].
    split_and!; try done; [by eapply extends_trans| |]; intros; rewrite ?Hedge.
    + rewrite <-Hnode. unfold ncolor, node_color. simpl. by rewrite color_paint, decide_False.
    + unfold ncolor, node_color. simpl. rewrite color_paint, decide_True by done.
      by rewrite He, Hs.
  - split_and!; try done. intros [Hgc|Hgc]; rewrite He, Hs in *; [done|]. by rewrite Hnode.
Qed.

(** ** The whole network *)

(** After the gates [gs] have been colored. *)
Record gates_colored (gs : list Z) ctn : Prop := {
  gates_container : colored ctn;
  gates_extends : extends new_coloring_container ctn;
  gates_fanins n : n ∈ gs → fanins_painted ctn n ∧ ncolor ctn n = gate_color ctn n;
  gates_others n : n ∉ gs → ncolor ctn n = color_null;
}.

Lemma nothing_painted e : ¬ painted new_coloring_container e.
Proof. unfold painted. intros He. by apply He. Qed.

Lemma new_container_ok : container_ok new_coloring_container.
Proof.
  split; cbn; [apply new_color_not_null..|]. intros E. by apply (new_color_fresh no_node_colors).
Qed.

Lemma new_container_colored : gates_colored [] new_coloring_container.
Proof.
  split.
  - split; [apply new_container_ok|..]; intros; by exfalso; eapply nothing_painted.
  - apply extends_refl.
  - set_solver.
  - intros n _. unfold ncolor, node_color. cbn. by rewrite !new_color_colors, color_none.
Qed.

Lemma color_gates_spec fuel gs :
  (∀ n, n ∈ gs → n ∈ foreach_node ntk) → (base.size all_edges < fuel)%nat →
  ∃ ctn, foldl (λ o n, ctn ← o; color_gate fuel ntk ctn n) (Some new_coloring_container) gs
    = Some ctn ∧ gates_colored gs ctn.
Proof.
  intros Hgs Hfuel. induction gs as [|n gs IH] using rev_ind.
  { eexists. split; [done|apply new_container_colored]. }
  destruct IH as (ctn & E & Hcol); [set_solver|]. rewrite foldl_snoc, E. simpl.
  destruct Hcol as [Hcol Hx0 Hin Hout].
  destruct (color_gate_spec fuel ctn n) as (ctn' & E' & Hcol' & Hx & Hn & Hother & Hcolor);
    [done|apply Hgs; set_solver|done|].
  exists ctn'. split; [exact E'|]. split; [done|by eapply extends_trans| |].
  - intros m Hm. destruct (decide (m = n)) as [->|Hne].
    + split; [done|]. apply Hcolor. destruct (decide (n ∈ gs)) as [Hg|Hg]; [|by right; apply Hout].
      destruct (Hin n Hg) as [Hp ->]. rewrite (gate_color_stable ctn ctn') by done.
      destruct (decide (gate_color ctn n = color_null)); auto.
    + destruct (Hin m) as [Hp Hc]; [set_solver|]. split.
      * intros e He. by eapply extends_painted, Hp.
      * by rewrite Hother, (gate_color_stable ctn ctn').
  - intros m Hm. rewrite Hother; [apply Hout|]; set_solver.
Qed.

Lemma coloring_gates_colored fuel :
  (base.size all_edges < fuel)%nat →
  ∃ ctn, east_south_edge_coloring fuel ntk = Some ctn ∧
    gates_colored (foreach_gate_reverse ntk) ctn.
Proof. apply color_gates_spec. intros n. rewrite foreach_gate_reverse_gates. tauto. Qed.

(** A coloring of the edges with two colors that separates children and joins spouses. *)
Definition two_colorable : Prop :=
  ∃ k : edge → bool, ∀ e f, e ∈ all_edges → adjacent e f →
    (f.1 = e.1 → k f = negb (k e)) ∧ (f.2 = e.2 → k f = k e).

Lemma two_colorable_container ctn : container_ok ctn → two_colorable → colorable ctn.
Proof.
  intros [? ? ?] [k Hk]. exists (λ e, if k e then color_east ctn else color_south ctn).
  intros e He. split; [unfold valid_color; case_match; auto|]. intros f Hf.
  destruct (Hk e f He Hf) as [H1 H2]. unfold compatible, opposite_color.
  split; intros E; [rewrite H1 by done|by rewrite H2]. destruct (k e); simpl.
  - by rewrite Z.eqb_refl.
  - case_match; rewrite ?Z.eqb_eq in *; congruence.
Qed.

(** In a proper coloring all fanin edges of a gate have the color of the gate. *)
Lemma proper_gate_color ctn n e :
  colored ctn → proper ctn → n ∈ foreach_node ntk → fanins_painted ctn n →
  e ∈ fanin_edges ntk n → ecolor ctn e = gate_color ctn n.
Proof.
  intros [Hok Hedges _] Hproper Hn Hp He.
  assert (∀ f, f ∈ fanin_edges ntk n → ecolor ctn f = ecolor ctn e) as Heq.
  { intros f Hf. destruct (decide (e = f)) as [->|Hne]; [done|].
    apply (Hproper e f); [by apply Hp..| |].
    - split; [done|]. split; [by eapply fanin_edges_all|].
      right. apply elem_of_fanin_edges in He as [-> _]. by apply elem_of_fanin_edges in Hf as [-> _].
    - apply elem_of_fanin_edges in He as [-> _]. by apply elem_of_fanin_edges in Hf as [-> _]. }
  destruct (Hedges e (Hp e He)) as [_ Hv]. destruct Hok.
  assert (∀ c, forallb (λ fe, ecolor ctn fe =? c) (fanin_edges ntk n) = true ↔ ecolor ctn e = c)
    as Hall.
  { intros c. rewrite forallb_forall. setoid_rewrite <-list_elem_of_In. setoid_rewrite Z.eqb_eq.
    split; [by intros Hl; apply Hl|]. intros <-. auto. }
  unfold gate_color. destruct (forallb _ _) eqn:E1; [by apply Hall|].
  destruct (forallb (λ fe, ecolor ctn fe =? color_south ctn) _) eqn:E2; [by apply Hall|].
  destruct Hv as [Hv|Hv]; apply Hall in Hv; congruence.
Qed.

(** A fanout of a node that is not constant is a gate, along a fanin edge. *)
Lemma fanout_is_gate n g :
  is_constant ntk n = false → g ∈ foreach_fanout ntk n →
  g ∈ foreach_gate_reverse ntk ∧ g ∈ foreach_node ntk ∧ (n, g) ∈ fanin_edges ntk g.
Proof.
  intros Hc [Hg Hn]%foreach_fanout_converse.
  rewrite foreach_gate_reverse_gates, elem_of_fanin_edges, elem_of_proper_fanins. split_and!; try done.
  - destruct (is_constant ntk g) eqn:E; [|done]. rewrite constant_without_fanin in Hn; set_solver.
  - destruct (is_pi ntk g) eqn:E; [|done]. rewrite pi_without_fanin in Hn; set_solver.
Qed.

Lemma proper_east_south_colored ctn :
  gates_colored (foreach_gate_reverse ntk) ctn → proper ctn →
  (∀ n, NoDup (foreach_fanout ntk n) ∧ (length (foreach_fanout ntk n) <= 2)%nat) →
  is_east_south_colored ntk (color_ntk ctn) = true.
Proof.
  intros [Hcol _ Hgates _] Hproper Hdeg. apply forallb_forall. intros n _.
  destruct (is_constant ntk n) eqn:Hc; [done|]. simpl. destruct (Hdeg n) as [Hnd Hlen].
  assert (∀ g, g ∈ foreach_fanout ntk n →
    painted ctn (n, g) ∧ (n, g) ∈ all_edges ∧ ncolor ctn g = ecolor ctn (n, g)) as Hfo.
  { intros g Hg. destruct (fanout_is_gate n g) as (H1 & H2 & H3); [done..|].
    destruct (Hgates g H1) as [Hp ->]. split_and!; [by apply Hp|by eapply fanin_edges_all|].
    symmetry. by apply proper_gate_color. }
  destruct (foreach_fanout ntk n) as [|f [|g [|]]]; simpl in *; try done; try lia.
  destruct (Hfo f) as (Hpf & _ & Ef); [set_solver|].
  destruct (Hfo g) as (Hpg & Hg & Eg); [set_solver|].
  change (node_color (color_ntk ctn) ?m) with (ncolor ctn m). rewrite Ef, Eg, andb_true_r.
  apply negb_true_iff, Z.eqb_neq. apply NoDup_cons in Hnd as [Hnd _].
  assert (adjacent (n, f) (n, g)) as Hadj by (split; [set_solver|auto]).
  rewrite (proj1 (Hproper _ _ Hpf Hpg Hadj)) by done.
  destruct (colored_ok _ Hcol). unfold opposite_color.
  case_match; rewrite ?Z.eqb_eq, ?Z.eqb_neq in *; congruence.
Qed.

(** ** The properties *)

(** [recursively_paint_edges] terminates, with the number of edges plus 1 as fuel, and paints
    exactly the component of the edge: what is connected to it by common sources and targets. *)
Theorem painting_paints_component fuel ctn e c :
  colored ctn → e ∈ all_edges → ¬ painted ctn e → valid_color ctn c →
  (base.size all_edges < fuel)%nat →
  ∃ ctn', recursively_paint_edges fuel ntk ctn e c = Some ctn' ∧
    (∀ f, painted ctn' f ↔ painted ctn f ∨ rtc adjacent e f) ∧
    (∀ f, painted ctn f → ecolor ctn' f = ecolor ctn f) ∧
    (∀ n, ncolor ctn' n = ncolor ctn n).
Proof.
  intros Hcol He Hne Hc Hfuel.
  destruct (paint_component fuel ctn e c) as (ctn' & E & _ & Hx & HN1 & Hp); try done.
  exists ctn'. split_and!; [exact E|exact Hp|apply Hx|].
  intros n. unfold ncolor, node_color. by rewrite HN1.
Qed.

(** [east_south_edge_coloring] terminates on every network, colors every fanin edge of a gate
    east or south, and a gate has the common color of its fanin edges; only gates whose fanin
    edges differ in color, and the nodes that are no gates, remain uncolored. *)
Theorem coloring_complete fuel :
  (base.size all_edges < fuel)%nat →
  ∃ ctn, east_south_edge_coloring fuel ntk = Some ctn ∧
    (∀ g e, g ∈ foreach_gate_reverse ntk → e ∈ fanin_edges ntk g →
      valid_color ctn (ecolor ctn e)) ∧
    (∀ g, g ∈ foreach_gate_reverse ntk → ncolor ctn g = gate_color ctn g) ∧
    (∀ n, n ∉ foreach_gate_reverse ntk → ncolor ctn n = color_null).
Proof.
  intros Hfuel. destruct (coloring_gates_colored fuel Hfuel) as (ctn & E & [Hcol _ Hin Hout]).
  exists ctn. split_and!; [exact E| |by apply Hin|exact Hout].
  intros g e Hg He. apply (colored_edges _ Hcol). by apply (proj1 (Hin g Hg)).
Qed.

(** C17: if the edges of a network can be colored with two colors such that the outgoing edges of a
    node differ and the incoming edges of a node agree, [east_south_edge_coloring] finds such a
    coloring: then every gate is colored east or south, as all its fanin edges are, and
    [is_east_south_colored] accepts it if no node has more than two fanouts. *)
Theorem coloring_proper fuel :
  (base.size all_edges < fuel)%nat → two_colorable →
  ∃ ctn, east_south_edge_coloring fuel ntk = Some ctn ∧ proper ctn ∧
    (∀ g e, g ∈ foreach_gate_reverse ntk → e ∈ fanin_edges ntk g →
      ncolor ctn g = ecolor ctn e ∧ valid_color ctn (ncolor ctn g)) ∧
    ((∀ n, NoDup (foreach_fanout ntk n) ∧ (length (foreach_fanout ntk n) <= 2)%nat) →
      is_east_south_colored ntk (color_ntk ctn) = true).
Proof.
  intros Hfuel Htwo. destruct (coloring_gates_colored fuel Hfuel) as (ctn & E & Hgates).
  pose proof Hgates as [Hcol Hx Hin _]. exists ctn.
  assert (proper ctn) as Hproper.
  { apply (extends_proper _ _ Hx).
    - apply two_colorable_container; [apply new_container_ok|done].
    - intros e f He. by apply nothing_painted in He. }
  split_and!; [exact E|done| |by apply proper_east_south_colored].
  intros g e Hg He. destruct (Hin g Hg) as [Hp ->].
  assert (g ∈ foreach_node ntk) as Hn by (apply foreach_gate_reverse_gates in Hg; tauto).
  rewrite <-(proper_gate_color ctn g e) by done. split; [done|].
  by apply (colored_edges _ Hcol), Hp.
Qed.

(** [two_colorable] by evaluation on a given coloring. *)
Definition checks_two_coloring (k : edge → bool) : bool :=
  forallb (λ e, forallb (λ f, edge_eqb e f ||
    (implb (f.1 =? e.1) (eqb (k f) (negb (k e))) && implb (f.2 =? e.2) (eqb (k f) (k e))))
    (foreach_edge ntk)) (foreach_edge ntk).

Lemma two_colorable_by k : checks_two_coloring k = true → two_colorable.
Proof.
  unfold checks_two_coloring. rewrite forallb_forall. intros Hk. exists k. intros e f He (Hne & Hf & _).
  unfold all_edges in He, Hf. rewrite elem_of_list_to_set in He, Hf.
  apply list_elem_of_In in He, Hf. specialize (Hk e He). rewrite forallb_forall in Hk.
  specialize (Hk f Hf). apply edge_neqb_spec, negb_true_iff in Hne. rewrite Hne in Hk. simpl in Hk.
  apply andb_true_iff in Hk as [H1 H2].
  split; intros E; rewrite E, Z.eqb_refl in *; by apply eqb_prop.
Qed.

End Painting.

(** ** Examples *)

Import Netlists MapColors.

(** A half adder: both inputs fork into an AND and an XOR. *)
Definition half_adder : netlist :=
  Netlist 2 [(Buf, [2]); (Buf, [3]); (And, [4; 5]); (Xor, [4; 5])] [6; 7] [] [].

(** Three inputs, each combined with each other: children and spouses alternate in a cycle of three
    forks, which has no proper coloring. *)
Definition carry_terms : netlist :=
  Netlist 3 [(Buf, [2]); (Buf, [3]); (Buf, [4]); (And, [5; 6]); (And, [6; 7]); (And, [5; 7])]
    [8; 9; 10] [] [].

#[local] Instance half_adder_laws : NetworkLaws half_adder.
Proof. by apply netlist_laws. Qed.

#[local] Instance carry_terms_laws : NetworkLaws carry_terms.
Proof. by apply netlist_laws. Qed.

(** On the half adder (color 1 is east) the AND goes to the east, everything else to the south. *)
Example half_adder_colors :
  (λ ctn, ncolor ctn <$> [4; 5; 6; 7]) <$> east_south_edge_coloring 9 half_adder
    = Some [2; 2; 1; 2].
Proof. vm_compute. reflexivity. Qed.

(** In the cycle of three, one AND has fanin edges of both colors and remains uncolored. *)
Example carry_terms_colors :
  (λ ctn, (ncolor ctn <$> [8; 9; 10], ecolor ctn <$> fanin_edges carry_terms 10)) <$>
    east_south_edge_coloring 12 carry_terms = Some ([1; 2; 0], [2; 1]).
Proof. vm_compute. reflexivity. Qed.

(** ** Witnesses *)

Lemma half_adder_size : (base.size (all_edges half_adder) < 9)%nat.
Proof. vm_compute. lia. Qed.

Lemma carry_terms_size : (base.size (all_edges carry_terms) < 12)%nat.
Proof. vm_compute. lia. Qed.

Lemma half_adder_two_colorable : two_colorable half_adder.
Proof. apply (two_colorable_by _ (λ e, bool_decide (e.2 = 6))). vm_compute. reflexivity. Qed.

Lemma painting_paints_component_witness :
  ∃ ctn, recursively_paint_edges 9 half_adder new_coloring_container (4, 6) 1 = Some ctn ∧
    ∀ f, painted ctn f ↔ painted new_coloring_container f ∨ rtc (adjacent half_adder) (4, 6) f.
Proof.
  destruct (painting_paints_component half_adder 9 new_coloring_container (4, 6) 1)
    as (ctn & E & Hp & _).
  - apply (gates_container _ _ _ (new_container_colored half_adder)).
  - apply elem_of_list_to_set, list_elem_of_In. vm_compute. auto 10.
  - apply nothing_painted.
  - by left.
  - exact half_adder_size.
  - exists ctn. split; [exact E|exact Hp].
Defined.

Lemma coloring_complete_witness :
  ∃ ctn, east_south_edge_coloring 12 carry_terms = Some ctn ∧
    ncolor ctn 10 = gate_color carry_terms ctn 10.
Proof.
  destruct (coloring_complete carry_terms 12 carry_terms_size) as (ctn & E & _ & Hg & _).
  exists ctn. split; [exact E|]. apply Hg, list_elem_of_In. vm_compute. auto 10.
Defined.

Lemma coloring_proper_witness :
  ∃ ctn, east_south_edge_coloring 9 half_adder = Some ctn ∧ proper half_adder ctn.
Proof.
  destruct (coloring_proper half_adder 9 half_adder_size half_adder_two_colorable)
    as (ctn & E & Hp & _).
  exists ctn. split; [exact E|exact Hp].
Defined.

Lemma high_degree_nodes_detected_witness :
  has_high_degree_fanin_nodes half_adder 1 = true ∧
  ∃ n, n ∈ foreach_node half_adder ∧ is_constant half_adder n = false ∧
    1 < Z.of_nat (length (container_nodes (fanins half_adder n))).
Proof.
  assert (has_high_degree_fanin_nodes half_adder 1 = true) as Hh by (vm_compute; reflexivity).
  split; [exact Hh|]. apply (high_degree_nodes_detected half_adder 1); [|exact Hh].
  intros n Hn. change (n ∈ seqZ 0 8) in Hn.
  assert (Forall (λ n, Z.of_nat (length (foreach_fanin half_adder n)) < 2 ^ 32) (seqZ 0 8)) as Hall
    by (repeat constructor).
  by apply (proj1 (Forall_forall _ _) Hall).
Defined.

Lemma incoming_paths_complete_witness :
  ∃ ps, all_incoming_edge_paths 8 half_adder 7 = Some ps ∧
    ∀ p, p ∈ ps ↔ incoming_path half_adder 7 p.
Proof.
  assert (7 ∈ foreach_node half_adder) as H7 by (apply list_elem_of_In; vm_compute; auto 10).
  destruct (incoming_paths_complete half_adder 7 H7) as (ps & E & Hps).
  exists ps. split; [exact E|exact Hps].
Defined.

End Painting.
