(* ===== verification/Orthogonal.v ===== *)
(** * Orthogonal physical design

    [algorithms/physical_design/orthogonal.hpp] on Cartesian gate-level layouts: the placement and
    routing of a network whose edges are colored ([EdgeColoring.v]), with the 2DDWave clocking
    scheme. A gate that is colored east opens a new column in the row of its last predecessor, one
    that is colored south a new row. *)

From S2P Require Import Prelude.
From S2P Require Import Coordinates.
From S2P Require Import CoordinateLayout.
From S2P Require Import CartesianLayout.
From S2P Require Import ClockingScheme.
From S2P Require Import ClockedLayout.
From S2P Require Import GateLevelLayout.
From S2P Require Import Networks.
From S2P Require Import EdgeColoring.
From S2P Require Import PlacementUtils.
#[local] Open Scope Z_scope.
Import Offset.
Import Networks EdgeColoring Placement.

Module Orthogonal.
Section Orthogonal.
Context `{MT : GateLevel.Mockturtle} `{HC : ColorView}.
Context `{HN : Network Ntk} `{HG : !GateNetwork Ntk}.

Abbreviation layout := (GateLevel.gate_level_layout Cartesian.cartesian_layout).

(** The Cartesian base class of a gate-level layout. *)
Definition base (lyt : layout) : Cartesian.cartesian_layout :=
  Clocked.coordinate_layout (GateLevel.clocked lyt).

(** The functor of the loop in [determine_layout_size]. *)
Definition grow_layout (ntk : Ntk) (ctn : coloring_container) (size : Z * Z) (n : Z) : Z * Z :=
  let '(x, y) := size in
  if is_constant ntk n then (x, y)
  else
    let '(x, y) :=
      if is_pi ntk n then
        (foldl (λ x fon,
           if node_color (color_ntk ctn) fon =? color_south ctn then wrap 64 (x + 1) else x)
         x (foreach_fanout ntk n), y)
      else
        let clr := node_color (color_ntk ctn) n in
        if clr =? color_east ctn then (wrap 64 (x + 1), y)
        else if clr =? color_south ctn then (x, wrap 64 (y + 1))
        else if clr =? color_null then (wrap 64 (x + 1), wrap 64 (y + 1))
        else (x, y) in
    if is_po ntk n then
      if is_eastern_po_orientation_available ntk ctn n then (wrap 64 (x + 1), y)
      else (x, wrap 64 (y + 1))
    else (x, y).

(** [determine_layout_size]. [num_pis] is a [uint32_t]. *)
Definition determine_layout_size (ntk : Ntk) (ctn : coloring_container) : ucoord_t :=
  let num_pis := Z.of_nat (length (foreach_pi ntk)) in
  let '(x, y) := foldl (grow_layout ntk ctn) (0, wrap 32 (num_pis - 1)) (foreach_node ntk) in
  ucoord3 x y 1.

(** [wire_east] and [wire_south]: the loops over the tiles strictly between [src] and [dest]. A wire
    takes the crossing layer where the ground layer is occupied. *)
Definition place_wire (lyt : layout) (a : Z) (t : ucoord_t) : option (layout * Z) :=
  let t := if negb (GateLevel.is_empty_tile (GateLevel.strg lyt) t)
           then Cartesian.above (base lyt) t else t in
  GateLevel.create_buf lyt a t.

Definition place_wires (lyt : layout) (a : Z) (ts : list ucoord_t) : option (layout * Z) :=
  foldl (λ r t, '(lyt, a) ← r; place_wire lyt a t) (Some (lyt, a)) ts.

Definition tiles_east (src dest : ucoord_t) : list ucoord_t :=
  (λ x, ucoord3 x (uy src) 0) <$> seqZ (ux src + 1) (ux dest - (ux src + 1)).

Definition tiles_south (src dest : ucoord_t) : list ucoord_t :=
  (λ y, ucoord3 (ux src) y 0) <$> seqZ (uy src + 1) (uy dest - (uy src + 1)).

Definition wire_east (lyt : layout) (src dest : ucoord_t) : option (layout * Z) :=
  place_wires lyt (to_uint64 src) (tiles_east src dest).

Definition wire_south (lyt : layout) (src dest : ucoord_t) : option (layout * Z) :=
  place_wires lyt (to_uint64 src) (tiles_south src dest).

(** The overloads of [connect_and_place]. The order in which the two wires of a 2-input gate are
    created is unspecified, as they are arguments of one call; here the first comes first. *)
Definition connect_and_place_2 (lyt : layout) (t : ucoord_t) (ntk : Ntk) (n : Z)
    (pre1_t pre2_t : ucoord_t) (c : option bool) : option (layout * Z) :=
  let '(pre1_t, pre2_t) := if ltb pre2_t pre1_t then (pre2_t, pre1_t) else (pre1_t, pre2_t) in
  '(lyt, a) ← wire_south lyt pre1_t t;
  '(lyt, b) ← wire_east lyt pre2_t t;
  place_2 lyt t ntk n a b c.

Definition connect_and_place_1 (lyt : layout) (t : ucoord_t) (ntk : Ntk) (n : Z)
    (pre_t : ucoord_t) : option (layout * Z) :=
  if Cartesian.is_westwards_of (base lyt) t pre_t
  then '(lyt, a) ← wire_east lyt pre_t t; place_1 lyt t ntk n a
  else if Cartesian.is_northwards_of (base lyt) t pre_t
  then '(lyt, a) ← wire_south lyt pre_t t; place_1 lyt t ntk n a
  else Some (lyt, 0).

(** ** [orthogonal_impl::run] *)

(** The variables of the loop over the nodes. *)
Record design_state := DesignState {
  lyt : layout;
  node2pos : gmap Z Z;
  latest_pos : ucoord_t;
  po_counter : Z;
}.

(** [node2pos[n]], as a tile. *)
Definition position (s : design_state) (n : Z) : ucoord_t := of_uint64 (map_at (node2pos s) n).

(** [++latest_pos.x] and [++latest_pos.y]. *)
Definition next_column (p : ucoord_t) : ucoord_t := set_x p (ux p + 1).
Definition next_row (p : ucoord_t) : ucoord_t := set_y p (uy p + 1).

(** A placed node: the layout after it, its position, and the next free column and row. *)
Definition placed (s : design_state) (n : Z) (r : layout * Z) (p : ucoord_t) : design_state :=
  DesignState r.1 (<[n := r.2]> (node2pos s)) p (po_counter s).

(** An input is moved to the next row. If its first fanout is colored south, a wire leads to a new
    column. *)
Definition place_input (ntk : Ntk) (ctn : coloring_container) (pi2node : gmap Z Z)
    (s : design_state) (n : Z) : option design_state :=
  let p := latest_pos s in
  '(l, sig) ← GateLevel.move_node (lyt s) (map_at pi2node n) (ucoord2 0 (uy p)) [];
  let s := placed s n (l, sig) p in
  let south_fanout :=
    match foreach_fanout ntk n with
    | fon :: _ => node_color (color_ntk ctn) fon =? color_south ctn
    | [] => false
    end in
  if south_fanout then
    '(l, a) ← wire_east (lyt s) (ucoord2 0 (uy p)) p;
    r ← GateLevel.create_buf l a p;
    Some (placed s n r (next_row (next_column p)))
  else Some (DesignState (lyt s) (node2pos s) (next_row p) (po_counter s)).

(** A gate with one fanin. *)
Definition place_single (ntk : Ntk) (ctn : coloring_container) (s : design_state)
    (n pre : Z) : option design_state :=
  let p := latest_pos s in
  let pre_t := position s pre in
  let clr := node_color (color_ntk ctn) n in
  if clr =? color_east ctn then
    r ← connect_and_place_1 (lyt s) (ucoord2 (ux p) (uy pre_t)) ntk n pre_t;
    Some (placed s n r (next_column p))
  else if clr =? color_south ctn then
    r ← connect_and_place_1 (lyt s) (ucoord2 (ux pre_t) (uy p)) ntk n pre_t;
    Some (placed s n r (next_row p))
  else Some s.

(** A gate with two fanins, or with three of which one is constant: one of the wires is bent, or
    both when the gate has no color. *)
Definition place_double (ntk : Ntk) (ctn : coloring_container) (s : design_state)
    (n pre1 pre2 : Z) (c : option bool) : option design_state :=
  let p := latest_pos s in
  let pre1_t := position s pre1 in
  let pre2_t := position s pre2 in
  let clr := node_color (color_ntk ctn) n in
  if clr =? color_east ctn then
    let '(pre1_t, pre2_t) := if uy pre2_t <? uy pre1_t then (pre2_t, pre1_t) else (pre1_t, pre2_t) in
    let t := ucoord2 (ux p) (uy pre2_t) in
    '(l, a) ← wire_east (lyt s) pre1_t (ucoord2 (ux t + 1) (uy pre1_t));
    r ← connect_and_place_2 l t ntk n (of_uint64 a) pre2_t c;
    Some (placed s n r (next_column p))
  else if clr =? color_south ctn then
    let '(pre1_t, pre2_t) := if ux pre1_t <? ux pre2_t then (pre2_t, pre1_t) else (pre1_t, pre2_t) in
    let t := ucoord2 (ux pre1_t) (uy p) in
    '(l, a) ← wire_south (lyt s) pre2_t (ucoord2 (ux pre2_t) (uy t + 1));
    r ← connect_and_place_2 l t ntk n pre1_t (of_uint64 a) c;
    Some (placed s n r (next_row p))
  else
    let empty t := GateLevel.is_empty_tile (GateLevel.strg (lyt s)) t in
    let '(pre1_t, pre2_t) :=
      if negb (empty (Cartesian.east (base (lyt s)) pre1_t)) ||
         negb (empty (Cartesian.south (base (lyt s)) pre2_t))
      then (pre2_t, pre1_t) else (pre1_t, pre2_t) in
    let t := p in
    '(l, a) ← wire_east (lyt s) pre1_t (ucoord2 (ux t + 1) (uy pre1_t));
    '(l, b) ← wire_south l pre2_t (ucoord2 (ux pre2_t) (uy t + 1));
    r ← connect_and_place_2 l t ntk n (of_uint64 a) (of_uint64 b) c;
    Some (placed s n r (next_row (next_column p))).

(** The name of the next output. *)
Definition next_output_name (ntk : Ntk) (po_counter : Z) : string :=
  if has_output_name ntk po_counter then get_output_name ntk po_counter
  else "po" +:+ pretty po_counter.

(** A node that drives an output: an output next to it or at the eastern border of that tile's row,
    connected by wires. *)
Definition place_output (ntk : Ntk) (ctn : coloring_container) (s : design_state) (n : Z) :
    option design_state :=
  let n_s := map_at (node2pos s) n in
  let l := lyt s in
  let '(po_tile, p) :=
    if is_eastern_po_orientation_available ntk ctn n
    then (Cartesian.east (base l) (of_uint64 n_s), next_column (latest_pos s))
    else (Cartesian.south (base l) (of_uint64 n_s), next_row (latest_pos s)) in
  let name := next_output_name ntk (po_counter s) in
  l ← (if Cartesian.is_at_eastern_border (base l) po_tile
       then '(l, _) ← GateLevel.create_po l n_s name po_tile; Some l
       else
         '(l, anker) ← GateLevel.create_buf l n_s po_tile;
         let po_tile := Cartesian.eastern_border_of (base l) po_tile in
         '(l, a) ← wire_east l (of_uint64 anker) po_tile;
         '(l, _) ← GateLevel.create_po l a name po_tile;
         Some l);
  Some (DesignState l (node2pos s) p (wrap 32 (po_counter s + 1))).

(** The functor of the loop. Two fanins are accessed when there is not exactly one; an access behind
    the end of the vector is undefined. *)
Definition place_node (ntk : Ntk) (ctn : coloring_container) (pi2node : gmap Z Z)
    (s : design_state) (n : Z) : option design_state :=
  if is_constant ntk n then Some s
  else
    s ← (if is_pi ntk n then place_input ntk ctn pi2node s n
         else
           let fc := fanins ntk n in
           match container_nodes fc with
           | [pre] => place_single ntk ctn s n pre
           | pre1 :: pre2 :: _ => place_double ntk ctn s n pre1 pre2 (constant_fanin fc)
           | [] => None
           end);
    if is_po ntk n then place_output ntk ctn s n else Some s.

Definition place_nodes (ntk : Ntk) (ctn : coloring_container) (pi2node : gmap Z Z)
    (s : design_state) (ns : list Z) : option design_state :=
  foldl (λ s n, s ← s; place_node ntk ctn pi2node s n) (Some s) ns.

(** The layout with its reserved inputs, and the state before the loop. *)
Definition initial_state (ntk : Ntk) (ctn : coloring_container) (phases : num_clks) :
    option (design_state * gmap Z Z) :=
  l ← GateLevel.make
        (Clocked.make Cartesian.make (determine_layout_size ntk ctn)
           (twoddwave_clocking Cartesian.max_fanin_size phases)) "";
  '(l, pi2node) ← reserve_input_nodes l ntk;
  Some (DesignState l ∅ (ucoord2 1 0) 0, pi2node).

(** [run] on the network [ntk], the fanout-substituted one; the count of crossings that it prints and
    the statistics are left out. *)
Definition run (fuel : nat) (ntk : Ntk) (phases : num_clks) : option layout :=
  ctn ← east_south_edge_coloring fuel ntk;
  '(s, pi2node) ← initial_state ntk ctn phases;
  s ← place_nodes ntk ctn pi2node s (foreach_node ntk);
  restore_names ntk (lyt s) (node2pos s).

(** [orthogonal]: the exception for a high fanin degree of [src]; [substitute] stands for
    [fanout_substitution] into a topologically ordered technology network. *)
Inductive design_result := Designed (lyt : option layout) | HighDegreeFanin.

Definition orthogonal {Src} `{Network Src} (substitute : Src → Ntk) (fuel : nat) (src : Src)
    (phases : num_clks) : design_result :=
  if has_high_degree_fanin_nodes src 2 then HighDegreeFanin
  else Designed (run fuel (substitute src) phases).

End Orthogonal.
End Orthogonal.
