(* ===== verification/LayoutBuilding.v ===== *)
(** * Building layouts from networks

    What the physical design algorithms have in common. Module [Building] counts what creations do to
    a layout; module [Names] shows that restoring names changes nothing else; module [Routing]
    describes a layout by the gates on its tiles and has the theorem on wires. *)

From S2P Require Import Prelude.
From S2P Require Import Coordinates.
From S2P Require Import CoordinateLayout.
From S2P Require Import CartesianLayout.
From S2P Require Import ClockingScheme.
From S2P Require Import ClockedLayout.
From S2P Require Import GateLevelLayout.
From S2P Require Import GateLevelInvariant.
From S2P Require Import Networks.
From S2P Require Import PlacementUtils.
From S2P Require Import EdgeColoring.
From S2P Require Import Orthogonal.
#[local] Open Scope Z_scope.
Import Offset.

(** ** Building layouts *)

Module Building.
Section Building.
Context {L : Type} `{HL : CoordinateLayout L} `{HM : GateLevel.MockturtleLaws}.
Implicit Types (l : GateLevel.gate_level_layout L) (t : ucoord_t).

Definition num_nodes l : Z := Z.of_nat (length (GateLevel.nodes (GateLevel.strg l))).
Definition inputs_of l : list Z := GateLevel.inputs (GateLevel.strg l).

Definition outputs_of l : list Z := GateLevel.outputs (GateLevel.strg l).

(** [l'] is a well-formed layout with at most [k] more nodes than [l] and exactly [p] more outputs, and
    with the same inputs. *)
Record builds (k p : Z) l l' : Prop := {
  builds_wf : layout_wf l';
  builds_clocked : GateLevel.clocked l' = GateLevel.clocked l;
  builds_size : num_nodes l <= num_nodes l' <= num_nodes l + k;
  builds_inputs : inputs_of l' = inputs_of l;
  builds_pis : GateLevel.num_pis l' = GateLevel.num_pis l;
  builds_pos : GateLevel.num_pos l' = GateLevel.num_pos l + p;
  builds_no_outputs : p = 0 → outputs_of l = [] → outputs_of l' = [];
}.

Lemma builds_refl l : layout_wf l → builds 0 0 l l.
Proof. intros Hl. split; try done; lia. Qed.

Lemma builds_seq k k1 k2 p l1 l2 l3 :
  builds k1 0 l1 l2 → builds k2 p l2 l3 → k1 + k2 <= k → builds k p l1 l3.
Proof. intros [] [] Hk. split; try congruence; [lia|lia|auto]. Qed.

Lemma builds_weaken k k' p l l' : k <= k' → builds k p l l' → builds k' p l l'.
Proof. intros Hk []. split; try done; lia. Qed.

(** The operation succeeds and builds; its signal is that of the tile [t], or 0. *)
Definition yields (k : Z) t l (r : option (GateLevel.gate_level_layout L * Z)) : Prop :=
  ∃ l' s, r = Some (l', s) ∧ builds k 0 l l' ∧ (s = to_uint64 t ∨ s = 0).

Lemma yields_weaken k k' t l r : k <= k' → yields k t l r → yields k' t l r.
Proof. intros Hk (l' & s & -> & Hb & Hs). exists l', s. split_and!; [done|by eapply builds_weaken|done]. Qed.

Lemma abstract_num_nodes l : sp_size (abstract_layout l) = num_nodes l.
Proof. apply sp_size_length. Qed.

(** A single operation, from its specification. *)
Lemma exec_builds op l p :
  layout_wf l → allowed op (abstract_layout l) →
  (let a := abstract_layout l in let a' := spec_exec op a in
   sp_size a <= sp_size a' <= sp_size a + 1 ∧ sp_inputs a' = sp_inputs a ∧
   sp_pis a' = sp_pis a ∧ sp_pos a' = sp_pos a + p ∧ (p = 0 → sp_outputs a = [] → sp_outputs a' = [])) →
  ∃ l' s, exec op l = Some (l', s) ∧ builds 1 p l l'.
Proof.
  intros Hl Hop Ha. destruct (exec_implements l op Hl Hop) as (l' & s & E & Hl' & Ha' & Hc).
  exists l', s. split; [exact E|]. cbv zeta in Ha. rewrite <-Ha' in Ha.
  rewrite !abstract_num_nodes in Ha. destruct Ha as (? & ? & ? & ? & ?). by split.
Qed.

Lemma create_signal l cs lit t l' s :
  GateLevel.create_node_from_literal l cs lit t = Some (l', s) → s = to_uint64 t.
Proof.
  unfold GateLevel.create_node_from_literal.
  intros (? & _ & (? & _ & (? & _ & [=])%bind_Some)%bind_Some)%bind_Some. done.
Qed.

(** A creation of a gate. *)
Definition creates_gate (op : operation) t : Prop :=
  match op with
  | CreateBuf _ u | CreateNot _ u | CreateAnd _ _ u | CreateNand _ _ u | CreateOr _ _ u
  | CreateNor _ _ u | CreateXor _ _ u | CreateXnor _ _ u | CreateMaj _ _ _ u
  | CreateNode (_ :: _) _ u => u = t
  | _ => False
  end.

Lemma creates_gate_signal op t l l' s :
  creates_gate op t → exec op l = Some (l', s) → s = to_uint64 t.
Proof.
  destruct op as [| | | | | | | | | | | | |[|? ?]|]; simpl; try done; intros ->;
    unfold GateLevel.create_buf, GateLevel.create_not, GateLevel.create_and, GateLevel.create_nand,
      GateLevel.create_or, GateLevel.create_nor, GateLevel.create_xor, GateLevel.create_xnor,
      GateLevel.create_maj; apply create_signal.
Qed.

Lemma place_new_size lit cs t p :
  Z.of_nat (length (gates (place_new lit cs t p))) = Z.of_nat (length (gates p)) + 1.
Proof. unfold place_new. simpl. rewrite length_app. simpl. lia. Qed.

Lemma exec_yields op t l :
  layout_wf l → creates_gate op t → wf t → num_nodes l < 2 ^ 32 → yields 1 t l (exec op l).
Proof.
  intros Hl Hop Ht Hsz.
  assert (allowed op (abstract_layout l)) as Hal.
  { assert (creatable t (abstract_layout l)) by (split; [done|by rewrite abstract_num_nodes]).
    destruct op as [| | | | | | | | | | | | |[|? ?]|]; simpl in *; by subst. }
  destruct (exec_builds op l 0 Hl Hal) as (l' & s & E & Hb).
  { destruct op as [| | | | | | | | | | | | |[|? ?]|]; simpl in Hop; try done; subst;
      unfold sp_size; cbn [spec_exec spec_gate with_placement sp_placement sp_inputs sp_pis sp_pos];
      rewrite place_new_size; split_and!; try done; lia. }
  exists l', s. split_and!; [done|done|left; by eapply creates_gate_signal].
Qed.

Lemma create_po_builds l sig name t :
  layout_wf l → wf t → num_nodes l < 2 ^ 32 →
  ∃ l' s, GateLevel.create_po l sig name t = Some (l', s) ∧ builds 1 1 l l'.
Proof.
  intros Hl Ht Hsz. apply (exec_builds (CreatePo sig name t) l 1 Hl).
  - split; [done|by rewrite abstract_num_nodes].
  - unfold sp_size. cbn [spec_exec sp_placement sp_inputs sp_pis sp_pos].
    rewrite place_new_size. split_and!; try done; lia.
Qed.

Lemma relocate_gates n t cs p : length (gates (relocate n t cs p)) = length (gates p).
Proof. unfold relocate. case_decide; simpl; by rewrite length_alter. Qed.

Lemma move_node_builds l n t :
  layout_wf l → wf t → 2 <= n < num_nodes l →
  (is_dead t = true → to_uint64 (node_position n (abstract (GateLevel.strg l))) ∉
    GateLevel.outputs (GateLevel.strg l)) →
  ∃ l', GateLevel.move_node l n t [] = Some (l', to_uint64 t) ∧ builds 0 0 l l'.
Proof.
  intros Hl Ht Hn Hdead.
  assert (allowed (MoveNode n t []) (abstract_layout l)) as Hal
    by (simpl; by rewrite abstract_num_nodes).
  destruct (exec_implements l (MoveNode n t []) Hl Hal) as (l' & s & E & Hl' & Ha & Hc).
  assert (num_nodes l' = num_nodes l) as Hnum.
  { rewrite <-!abstract_num_nodes, Ha. unfold sp_size. simpl. by rewrite relocate_gates. }
  assert (s = to_uint64 t) as ->.
  { clear -E. simpl in E. unfold GateLevel.move_node in E.
    repeat (apply bind_Some in E as (? & _ & E)). by simplify_eq. }
  exists l'. split; [done|]. unfold abstract_layout in Ha. injection Ha as _ _ Hi Hout Hp Ho _.
  split; try done; [lia|by rewrite Z.add_0_r|]. unfold outputs_of. intros _ Hnil. rewrite Hout, Hnil.
  by destruct (is_dead t).
Qed.

End Building.
End Building.

(** ** Reserving inputs and restoring names *)

Module Names.
Import Building.
Import Networks Placement.
Section Names.
Context {L : Type} `{HL : CoordinateLayout L} `{HM : GateLevel.MockturtleLaws}.
Context `{HN : Network Ntk} `{HG : !GateNetwork Ntk} (ntk : Ntk).
Implicit Types (l : GateLevel.gate_level_layout L).

(** Layouts that differ in names only. *)
Record renames l l' : Prop := {
  renames_wf : layout_wf l → layout_wf l';
  renames_clocked : GateLevel.clocked l' = GateLevel.clocked l;
  renames_abstract : abstract_layout l' = abstract_layout l;
}.

Lemma renames_refl l : renames l l.
Proof. by split. Qed.

Lemma renames_trans l1 l2 l3 : renames l1 l2 → renames l2 l3 → renames l1 l3.
Proof. intros [] []. split; [auto|congruence|congruence]. Qed.

Lemma set_name_renames l n name :
  renames l (GateLevel.set_strg (GateLevel.set_name (GateLevel.strg l) n name) l).
Proof.
  split; [|done|done]. intros [Hs]. split; try done. by eapply storage_wf_ext; [..|exact Hs].
Qed.

Lemma set_layout_name_renames l name :
  renames l (GateLevel.set_strg (GateLevel.set_layout_name (GateLevel.strg l) name) l).
Proof.
  split; [|done|done]. intros [Hs]. split; try done. by eapply storage_wf_ext; [..|exact Hs].
Qed.

Lemma set_output_name_renames l i name :
  layout_wf l → 0 <= i → ∃ l', GateLevel.set_output_name l i name = Some l' ∧ renames l l'.
Proof.
  intros Hl Hi. unfold GateLevel.set_output_name.
  case_match eqn:E; [|exists l; split; [done|apply renames_refl]].
  pose proof (lw_pos _ Hl) as Hp. unfold GateLevel.num_pos, GateLevel.num_cos in *. apply Z.ltb_lt in E.
  destruct (lookup_lt_is_Some_2 (GateLevel.outputs (GateLevel.strg l)) (Z.to_nat i)) as [o Ho]; [lia|].
  unfold vec_at. rewrite decide_True, Ho by done. cbn [mbind option_bind].
  eexists. split; [done|]. apply set_name_renames.
Qed.

Lemma restore_signal_names_renames l position :
  renames l (restore_signal_names ntk l position).
Proof.
  unfold restore_signal_names. generalize (foreach_node ntk ≫= λ n, (λ f, (n, f)) <$> foreach_fanin ntk n).
  intros nfs. revert l. induction nfs as [|[n f] nfs IH]; intros l; [apply renames_refl|].
  cbn [foldl]. eapply renames_trans; [|apply IH]. case_match; [|apply renames_refl].
  apply set_name_renames.
Qed.

Lemma restore_output_names_renames l :
  layout_wf l → ∃ l', restore_output_names ntk l = Some l' ∧ renames l l'.
Proof.
  unfold restore_output_names.
  assert (∀ i, i ∈ seqZ 0 (Z.of_nat (length (foreach_po ntk))) → 0 <= i) as Hi
    by (intros i; rewrite elem_of_seqZ; lia).
  revert Hi. generalize (seqZ 0 (Z.of_nat (length (foreach_po ntk)))). intros indices.
  revert l. induction indices as [|i indices IH]; intros l Hi Hl; [exists l; split; [done|apply renames_refl]|].
  cbn [foldl mbind option_bind].
  assert (∃ l1, (if has_output_name ntk i
      then GateLevel.set_output_name l i (get_output_name ntk i) else Some l) = Some l1 ∧ renames l l1)
    as (l1 & E1 & Hr1).
  { case_match; [apply set_output_name_renames; [done|apply Hi; by left]|].
    exists l. split; [done|apply renames_refl]. }
  rewrite E1. destruct (IH l1) as (l2 & E2 & Hr2); [set_solver|by apply Hr1|].
  exists l2. split; [exact E2|by eapply renames_trans].
Qed.

(** [restore_names] succeeds and changes names only. *)
Lemma restore_names_renames l old2new :
  layout_wf l → ∃ l', restore_names ntk l old2new = Some l' ∧ renames l l'.
Proof.
  intros Hl. unfold restore_names, restore_network_name.
  set (l1 := GateLevel.set_strg _ l). set (l2 := restore_signal_names _ _ _).
  assert (renames l l2) as H2.
  { eapply renames_trans; [apply set_layout_name_renames|apply restore_signal_names_renames]. }
  destruct (restore_output_names_renames l2) as (l3 & E & H3); [by apply H2|].
  exists l3. split; [exact E|by eapply renames_trans].
Qed.

End Names.
End Names.

(** ** Layouts as maps from tiles to gates *)

Module Routing.
Import Building.
Section Contents.
Context {L : Type} `{HL : CoordinateLayout L} `{HM : GateLevel.MockturtleLaws}.
Implicit Types (l : GateLevel.gate_level_layout L) (t u : ucoord_t).

(** Literal and children of the node on a tile. *)
Definition contents l u : option (Z * list Z) :=
  let n := GateLevel.get_node_at (GateLevel.strg l) u in
  if n =? 0 then None else gates (abstract (GateLevel.strg l)) !! Z.to_nat n.

Definition live u : Prop := wf u ∧ is_dead u = false.

#[export] Instance live_dec u : Decision (live u).
Proof. unfold live. apply _. Defined.

(** A live tile is empty or holds a node that is not a constant. *)
Lemma live_tile_node l u :
  layout_wf l → live u →
  GateLevel.get_node_at (GateLevel.strg l) u = 0 ∨
  2 <= GateLevel.get_node_at (GateLevel.strg l) u < num_nodes l.
Proof.
  intros Hl [Hu Hd]. unfold GateLevel.get_node_at, GateLevel.get_node.
  destruct (GateLevel.tile_node_map (GateLevel.strg l) !! to_uint64 u) as [n|] eqn:E; [right|by left].
  pose proof (lw_storage _ Hl) as Hs. apply wf_inverse in E; [|done].
  pose proof (wf_dead _ Hs _ _ E) as Hn. rewrite of_to_uint64, Hd in Hn by done.
  pose proof (wf_node _ Hs _ _ E). unfold num_nodes. simpl. lia.
Qed.

Lemma is_empty_contents l u :
  layout_wf l → live u →
  GateLevel.is_empty_tile (GateLevel.strg l) u = true ↔ contents l u = None.
Proof.
  intros Hl Hu. unfold GateLevel.is_empty_tile, contents. destruct (live_tile_node l u Hl Hu) as [->|Hn].
  - done.
  - replace (GateLevel.get_node_at (GateLevel.strg l) u =? 0) with false by lia.
    split; [done|]. intros E%lookup_ge_None. simpl in E. rewrite length_fmap in E.
    unfold num_nodes in Hn. lia.
Qed.

(** A new node on a live tile is found there, and nothing else changes. *)
Lemma node_place_new l l' lit cs t u :
  layout_wf l → layout_wf l' → live t → live u →
  abstract (GateLevel.strg l') = place_new lit cs t (abstract (GateLevel.strg l)) →
  GateLevel.get_node_at (GateLevel.strg l') u =
    if decide (u = t) then num_nodes l else GateLevel.get_node_at (GateLevel.strg l) u.
Proof.
  intros Hl Hl' [Ht Hdt] Hu Ha. pose proof (lw_storage _ Hl) as Hs. pose proof (lw_storage _ Hl') as Hs'.
  assert (2 <= num_nodes l) as HN by apply (wf_size _ Hs).
  assert (∀ m, 2 <= m → GateLevel.get_node_at (GateLevel.strg l') u = m ↔
    (if decide (u = t) then num_nodes l else GateLevel.get_node_at (GateLevel.strg l) u) = m) as Hget.
  { intros m Hm. unfold GateLevel.get_node_at at 1. rewrite get_node_tiles by done. rewrite Ha.
    unfold place_new, place, occupy. cbn [tiles gates abstract]. rewrite Hdt, length_fmap.
    change (Z.of_nat (length (GateLevel.nodes (GateLevel.strg l)))) with (num_nodes l).
    destruct Hu as [Hu _]. rewrite lookup_insert_Some, map_lookup_filter_Some. cbn [snd].
    change (filter _ (GateLevel.node_tile_map (GateLevel.strg l)))
      with (tiles (abstract (GateLevel.strg l))).
    destruct (decide (u = t)) as [->|Hne]; [split; [naive_solver|intros <-; by left]|].
    rewrite <-get_node_tiles by done. fold (GateLevel.get_node_at (GateLevel.strg l) u).
    split; [naive_solver (eauto using to_uint64_inj)|].
    intros E. right. split_and!; [|done|by intros E'%to_uint64_inj].
    intros <-. pose proof (get_node_range (GateLevel.strg l) (to_uint64 u) Hs) as Hr.
    unfold GateLevel.get_node_at, num_nodes in *. lia. }
  destruct (live_tile_node l' u Hl' Hu) as [E0|Hn']; [|exact (eq_sym (proj1 (Hget _ (proj1 Hn')) eq_refl))].
  rewrite E0. destruct (decide (u = t)); [pose proof (proj2 (Hget _ HN) eq_refl); lia|].
  destruct (live_tile_node l u Hl Hu) as [->|[Hn _]]; [done|].
  pose proof (proj2 (Hget _ Hn) eq_refl). lia.
Qed.

Lemma contents_place_new l l' lit cs t u :
  layout_wf l → layout_wf l' → live t → live u →
  abstract (GateLevel.strg l') = place_new lit cs t (abstract (GateLevel.strg l)) →
  contents l' u = if decide (u = t) then Some (lit, cs) else contents l u.
Proof.
  intros Hl Hl' Ht Hu Ha. unfold contents. rewrite (node_place_new l l' lit cs t u) by done.
  rewrite Ha. unfold place_new. cbn [gates place].
  pose proof (wf_size _ (lw_storage _ Hl)) as Hsize.
  assert (length (gates (abstract (GateLevel.strg l))) = Z.to_nat (num_nodes l)) as Hlen
    by (simpl; rewrite length_fmap; unfold num_nodes; lia).
  case_decide.
  - replace (num_nodes l =? 0) with false by (unfold num_nodes; lia).
    apply list_lookup_middle. lia.
  - destruct (live_tile_node l u Hl Hu) as [->|Hn]; [done|].
    replace (_ =? 0) with false by lia. apply lookup_app_l. lia.
Qed.

(** A wire segment. *)
Lemma create_buf_contents l a t :
  layout_wf l → live t → num_nodes l < 2 ^ 32 →
  ∃ l', GateLevel.create_buf l a t = Some (l', to_uint64 t) ∧ builds 1 0 l l' ∧
    ∀ u, live u → contents l' u = if decide (u = t) then Some (2, [a]) else contents l u.
Proof.
  intros Hl Ht Hsz.
  assert (allowed (CreateBuf a t) (abstract_layout l)) as Hal
    by (split; [apply Ht|by rewrite abstract_num_nodes]).
  destruct (exec_yields (CreateBuf a t) t l) as (l1 & s1 & E1 & Hb & _); [done|done|apply Ht|done|].
  destruct (exec_implements l (CreateBuf a t) Hl Hal) as (l' & s & E & Hl' & Ha & _).
  rewrite E in E1. simplify_eq. exists l1.
  pose proof (creates_gate_signal (CreateBuf a t) t _ _ _ eq_refl E) as ->.
  split_and!; [exact E|done|]. intros u Hu. apply contents_place_new; try done.
  by apply (f_equal sp_placement) in Ha.
Qed.

(** ** Reserved inputs *)

Context `{HN : Networks.Network Ntk} `{HG : !Placement.GateNetwork Ntk} (ntk : Ntk).

Lemma create_pi_spec l name t :
  layout_wf l → live t → num_nodes l < 2 ^ 32 →
  ∃ l', GateLevel.create_pi l name t = Some (l', to_uint64 t) ∧ layout_wf l' ∧
    GateLevel.clocked l' = GateLevel.clocked l ∧ num_nodes l' = num_nodes l + 1 ∧
    inputs_of l' = inputs_of l ++ [num_nodes l] ∧ GateLevel.num_pis l' = GateLevel.num_pis l + 1 ∧
    GateLevel.num_pos l' = GateLevel.num_pos l ∧
    GateLevel.outputs (GateLevel.strg l') = GateLevel.outputs (GateLevel.strg l) ∧
    GateLevel.get_node_at (GateLevel.strg l') t = num_nodes l.
Proof.
  intros Hl Ht Hsz.
  assert (allowed (CreatePi name t) (abstract_layout l)) as Hal
    by (split; [apply Ht|by rewrite abstract_num_nodes]).
  destruct (exec_implements l (CreatePi name t) Hl Hal) as (l' & s & E & Hl' & Ha & Hc).
  simpl in E. assert (s = to_uint64 t) as ->.
  { clear -E. unfold GateLevel.create_pi in E. apply bind_Some in E as ([? ?] & _ & E).
    apply bind_Some in E as (? & _ & E). by simplify_eq. }
  exists l'. split; [done|]. pose proof (f_equal sp_placement Ha) as Hp. cbn in Hp.
  pose proof (node_place_new l l' 2 [] t t Hl Hl' Ht Ht Hp) as Hnode. rewrite decide_True in Hnode by done.
  pose proof (f_equal sp_size Ha) as Hsz'. unfold sp_size in Hsz' at 2.
  cbn [spec_exec sp_placement] in Hsz'. rewrite place_new_size in Hsz'.
  rewrite <-abstract_num_nodes, Hsz'. fold (sp_size (abstract_layout l)). rewrite abstract_num_nodes.
  pose proof (f_equal sp_inputs Ha) as Hi. cbn [spec_exec sp_inputs] in Hi.
  rewrite abstract_num_nodes in Hi.
  split_and!; try done; [by apply (f_equal sp_pis) in Ha|by apply (f_equal sp_pos) in Ha|
    by apply (f_equal sp_outputs) in Ha].
Qed.

Lemma origin_live : live (ucoord2 0 0).
Proof. split; [|done]. by repeat split. Qed.

Lemma reserve_loop pis : ∀ l (m : gmap Z Z) (D : list Z),
  layout_wf l → (∀ n, n ∈ D → 2 <= Placement.map_at m n < num_nodes l) → num_nodes l + Z.of_nat (length pis) <= 2 ^ 32 →
  ∃ l' m', foldl (λ r pi, r ← r; Placement.reserve_input ntk r pi) (Some (l, m)) pis
      = Some (l', m') ∧
    layout_wf l' ∧ GateLevel.clocked l' = GateLevel.clocked l ∧
    num_nodes l' = num_nodes l + Z.of_nat (length pis) ∧
    inputs_of l' = inputs_of l ++ seqZ (num_nodes l) (Z.of_nat (length pis)) ∧
    GateLevel.num_pis l' = GateLevel.num_pis l + Z.of_nat (length pis) ∧
    GateLevel.num_pos l' = GateLevel.num_pos l ∧
    GateLevel.outputs (GateLevel.strg l') = GateLevel.outputs (GateLevel.strg l) ∧
    (∀ n, n ∈ D ++ pis → 2 <= Placement.map_at m' n < num_nodes l') ∧
    (pis ≠ [] → GateLevel.get_node_at (GateLevel.strg l') (ucoord2 0 0) = num_nodes l' - 1).
Proof.
  induction pis as [|pi pis IH]; intros l m D Hl HD Hsz; simpl length in *.
  { exists l, m. cbn [foldl]. rewrite !app_nil_r, !Z.add_0_r. by split_and!. }
  cbn [foldl mbind option_bind]. unfold Placement.reserve_input at 2. cbn [fst snd].
  destruct (create_pi_spec l (if Placement.has_name ntk (Placement.make_signal ntk pi)
    then Placement.get_name ntk (Placement.make_signal ntk pi) else "") (ucoord2 0 0))
    as (l1 & E1 & Hl1 & Hc1 & Hn1 & Hi1 & Hpi1 & Hpo1 & Ho1 & Hg1); [done|apply origin_live|lia|].
  rewrite E1. cbn [mbind option_bind]. fold (GateLevel.get_node_at (GateLevel.strg l1) (ucoord2 0 0)).
  rewrite Hg1. set (m1 := <[pi := num_nodes l]> m).
  pose proof (wf_size _ (lw_storage _ Hl)) as H2. fold (num_nodes l) in H2.
  destruct (IH l1 m1 (D ++ [pi])) as (l2 & m2 & E2 & Hl2 & Hc2 & Hn2 & Hi2 & Hpi2 & Hpo2 & Ho2 & HD2 & Hg2);
    [done| |lia|].
  { intros n Hn. unfold Placement.map_at, m1. rewrite lookup_insert. case_decide; [simpl; lia|].
    assert (n ∈ D) as Hin by set_solver. specialize (HD n Hin). unfold Placement.map_at in HD. lia. }
  exists l2, m2. split_and!; [exact E2|done|congruence|lia| |lia|congruence|congruence| |].
  - rewrite Hi2, Hi1, Hn1, <-app_assoc. f_equal.
    replace (Z.of_nat (S (length pis))) with (1 + Z.of_nat (length pis)) by lia.
    by rewrite seqZ_app by lia.
  - intros n Hn. apply HD2. by rewrite <-app_assoc.
  - intros _. destruct pis as [|pi2 pis']; [|by apply Hg2].
    cbn [foldl] in E2. simplify_eq. rewrite Hg1. lia.
Qed.

(** [reserve_input_nodes]: one node per input, in their order, none of which is placed at the end. *)
Lemma reserve_input_nodes_spec l :
  layout_wf l → GateLevel.outputs (GateLevel.strg l) = [] → Networks.foreach_pi ntk ≠ [] →
  num_nodes l + Z.of_nat (length (Networks.foreach_pi ntk)) <= 2 ^ 32 →
  let k := Z.of_nat (length (Networks.foreach_pi ntk)) in
  ∃ l' m, Placement.reserve_input_nodes l ntk = Some (l', m) ∧ layout_wf l' ∧
    GateLevel.clocked l' = GateLevel.clocked l ∧ num_nodes l' = num_nodes l + k ∧
    inputs_of l' = inputs_of l ++ seqZ (num_nodes l) k ∧
    GateLevel.num_pis l' = GateLevel.num_pis l + k ∧ GateLevel.num_pos l' = GateLevel.num_pos l ∧
    outputs_of l' = [] ∧ ∀ n, n ∈ Networks.foreach_pi ntk → 2 <= Placement.map_at m n < num_nodes l'.
Proof.
  intros Hl Hout Hne Hsz k. unfold Placement.reserve_input_nodes.
  destruct (reserve_loop (Networks.foreach_pi ntk) l ∅ []) as
    (l1 & m & E1 & Hl1 & Hc1 & Hn1 & Hi1 & Hpi1 & Hpo1 & Ho1 & Hm & Hg1); [done|set_solver|done|].
  rewrite E1. cbn [mbind option_bind fst snd]. rewrite Hg1 by done. clear E1.
  pose proof (wf_size _ (lw_storage _ Hl)) as H2. fold (num_nodes l) in H2.
  assert (0 < k) as Hk by (unfold k; destruct (Networks.foreach_pi ntk); [done|simpl; lia]).
  destruct (move_node_builds l1 (num_nodes l1 - 1) ucoord_default) as (l2 & E2 & Hb);
    [done|by repeat split|unfold k in *; lia|by rewrite Ho1, Hout; set_solver|].
  rewrite E2. cbn [mbind option_bind]. exists l2, m.
  destruct Hb as [Hl2 Hc2 Hn2 Hi2 Hpi2 Hpo2 Ho2]. unfold k in *.
  split_and!; [done|done|congruence|lia|congruence|lia|lia|apply Ho2; unfold outputs_of; congruence|].
  intros n Hn. specialize (Hm n Hn). lia.
Qed.

End Contents.

(** ** Wires *)

Import Networks EdgeColoring Placement Orthogonal.

Section Wires.
Context `{HM : GateLevel.MockturtleLaws}.
Implicit Types (l : GateLevel.gate_level_layout Cartesian.cartesian_layout) (t u : ucoord_t).

(** The tile a wire takes: the crossing layer where the ground is occupied. *)
Definition wire_tile l t : ucoord_t :=
  if negb (GateLevel.is_empty_tile (GateLevel.strg l) t) then Cartesian.above (base l) t else t.

(** The signal at the end of a wire that starts at [a]. *)
Definition wire_end (a : Z) (ts : list ucoord_t) : Z :=
  match last ts with Some t => to_uint64 t | None => a end.

(** Wire segments on [ts], each connected to its predecessor, the first one to [a]. *)
Fixpoint chained l (a : Z) (ts : list ucoord_t) : Prop :=
  match ts with
  | [] => True
  | t :: ts => contents l t = Some (2, [a]) ∧ chained l (to_uint64 t) ts
  end.

Definition two_layers l : Prop := uz (Cartesian.dimension (base l)) = 1.

(** A live tile of the ground layer. *)
Definition ground t : Prop := live t ∧ uz t = 0.

Lemma above_ground l t :
  two_layers l → ground t → live (Cartesian.above (base l) t) ∧
    Cartesian.above (base l) t = UCoord (ud t) 1 (uy t) (ux t).
Proof.
  intros Hz [[Ht Hd] Hg]. unfold Cartesian.above, Cartesian.z. rewrite Hz, Hg. cbn.
  split; [|done]. split; [|done].
  destruct Ht as (? & ? & ? & ?). by split_and!.
Qed.

Lemma wire_tile_live l t :
  two_layers l → ground t → live (wire_tile l t) ∧
    ux (wire_tile l t) = ux t ∧ uy (wire_tile l t) = uy t.
Proof.
  intros Hz Hg. unfold wire_tile. case_match; [|by destruct Hg].
  destruct (above_ground l t Hz Hg) as [? E]. by rewrite E in *.
Qed.

(** Another wire does not change which layer a tile is wired on. *)
Lemma wire_tile_frame l l' t u :
  layout_wf l → layout_wf l' → base l' = base l → ground u →
  (contents l' u = contents l u) → wire_tile l' u = wire_tile l u.
Proof.
  intros Hl Hl' Hb [Hu _] Hc. unfold wire_tile. rewrite Hb.
  assert (GateLevel.is_empty_tile (GateLevel.strg l') u =
    GateLevel.is_empty_tile (GateLevel.strg l) u) as ->; [|done].
  apply eq_true_iff_eq. by rewrite !is_empty_contents, Hc.
Qed.

(** Tiles of a straight wire: ground tiles, no two of the same position. *)
Definition wire_path (ts : list ucoord_t) : Prop :=
  NoDup ts ∧ Forall ground ts.

Lemma ground_wire_tile_ne l t u :
  two_layers l → ground t → ground u → t ≠ u → u ≠ wire_tile l t ∧ wire_tile l u ≠ wire_tile l t.
Proof.
  intros Hz Ht Hu Hne. destruct (above_ground l t Hz Ht) as [_ Et].
  destruct (above_ground l u Hz Hu) as [_ Eu]. unfold wire_tile.
  destruct Ht as [[? Hdt] Hzt], Hu as [[? Hdu] Hzu]. unfold is_dead in *.
  destruct t as [dt zt yt xt], u as [du zu yu xu]. simpl in *.
  repeat case_match; rewrite ?Et, ?Eu; split; congruence.
Qed.

Lemma place_wires_spec ts : ∀ l a,
  layout_wf l → two_layers l → wire_path ts → num_nodes l + Z.of_nat (length ts) <= 2 ^ 32 →
  let path := wire_tile l <$> ts in
  ∃ l', place_wires l a ts = Some (l', wire_end a path) ∧
    builds (Z.of_nat (length ts)) 0 l l' ∧ chained l' a path ∧
    ∀ u, live u → u ∉ path → contents l' u = contents l u.
Proof.
  induction ts as [|t ts IH]; intros l a Hl Hz [Hnd Hg] Hsz; cbn zeta.
  { exists l. split_and!; [done|by apply builds_refl|done|done]. }
  apply NoDup_cons in Hnd as [Ht Hnd]. apply Forall_cons in Hg as [Hgt Hg].
  destruct (wire_tile_live l t Hz Hgt) as [Hlive _]. cbn [length] in Hsz.
  destruct (create_buf_contents l a (wire_tile l t)) as (l1 & E1 & Hb1 & Hc1); [done|done|lia|].
  pose proof Hb1 as [Hl1 Hcl1 Hsz1 _ _ _].
  assert (base l1 = base l) as Hbase by (unfold base; by rewrite Hcl1).
  assert (∀ u, u ∈ ts → wire_tile l1 u = wire_tile l u) as Hsame.
  { intros u Hu. rewrite Forall_forall in Hg. apply wire_tile_frame; try done; [by apply Hg|].
    rewrite Hc1 by apply (Hg u Hu). apply decide_False.
    apply (ground_wire_tile_ne l t u); [done..|by apply Hg|]. intros ->. done. }
  assert (wire_tile l1 <$> ts = wire_tile l <$> ts) as Hpath
    by (apply list_fmap_ext; intros i u Hi; apply Hsame; by eapply list_elem_of_lookup_2).
  destruct (IH l1 (to_uint64 (wire_tile l t))) as (l2 & E2 & Hb2 & Hch & Hfr);
    [done|unfold two_layers in *; by rewrite Hbase|by split|lia|].
  rewrite Hpath in *. exists l2.
  assert (wire_tile l t ∉ wire_tile l <$> ts) as Hnotin.
  { rewrite list_elem_of_fmap. intros (u & E & Hu). rewrite Forall_forall in Hg.
    apply (ground_wire_tile_ne l t u); [done..|by apply Hg| |done]. intros ->. done. }
  split_and!.
  - change (place_wires l a (t :: ts)) with
      (foldl (λ r t, '(lyt, a) ← r; place_wire lyt a t) (place_wire l a t) ts).
    change (place_wire l a t) with (GateLevel.create_buf l a (wire_tile l t)). rewrite E1.
    change (foldl _ _ _) with (place_wires l1 (to_uint64 (wire_tile l t)) ts). rewrite E2.
    unfold wire_end. rewrite fmap_cons, last_cons. by destruct (last (wire_tile l <$> ts)).
  - eapply builds_seq; [exact Hb1|exact Hb2|cbn [length]; lia].
  - cbn [fmap list_fmap chained]. split; [|done].
    by rewrite Hfr, Hc1, decide_True by done.
  - intros u Hu Hnu. rewrite fmap_cons, not_elem_of_cons in Hnu. destruct Hnu as [Hne Hnu].
    by rewrite Hfr, Hc1, decide_False by done.
Qed.

(** The tiles strictly between two coordinates of a row or a column. *)
Lemma straight_path (f : Z → ucoord_t) a n :
  0 <= a → a + n <= 2 ^ 31 → (∀ i, 0 <= i < 2 ^ 31 → ground (f i)) →
  (∀ i j, 0 <= i < 2 ^ 31 → 0 <= j < 2 ^ 31 → f i = f j → i = j) → wire_path (f <$> seqZ a n).
Proof.
  intros Ha Hn Hf Hinj. split.
  - apply NoDup_alt. intros i j t Hi Hj. rewrite list_lookup_fmap in Hi, Hj.
    apply fmap_Some in Hi as (x & Hx & ->), Hj as (y & Hy & E).
    apply lookup_seqZ in Hx as [-> ?], Hy as [-> ?]. apply Hinj in E; lia.
  - apply Forall_fmap, Forall_forall. intros i Hi%elem_of_seqZ. apply Hf. lia.
Qed.

Lemma tiles_east_path src dest : wf src → wf dest → wire_path (tiles_east src dest).
Proof.
  intros (_ & _ & Hy & Hx) (_ & _ & _ & Hx'). unfold in_width in *. apply straight_path; [lia|lia|..].
  - intros i Hi. split; [|done]. split; [|done]. by repeat split; try apply wrap_width.
  - intros i j Hi Hj [=E]. by rewrite !wrap_small in E by (unfold in_width; lia).
Qed.

Lemma tiles_south_path src dest : wf src → wf dest → wire_path (tiles_south src dest).
Proof.
  intros (_ & _ & Hy & Hx) (_ & _ & Hy' & _). unfold in_width in *. apply straight_path; [lia|lia|..].
  - intros i Hi. split; [|done]. split; [|done]. by repeat split; try apply wrap_width.
  - intros i j Hi Hj [=E]. by rewrite !wrap_small in E by (unfold in_width; lia).
Qed.

(** C22: [wire_east] and [wire_south] place one wire segment on each tile between their ends, in the
    ground layer or, to cross what is there, in the layer above; each segment is fed by its
    predecessor and the first one by the source, and the signal of the last one is returned. All
    other tiles keep their gates, and nothing at all is overwritten if each occupied tile on the
    way has an empty tile above. *)
Theorem wires_connect l wire ts src dest :
  (wire = wire_east ∧ ts = tiles_east src dest ∨ wire = wire_south ∧ ts = tiles_south src dest) →
  layout_wf l → two_layers l → wf src → wf dest →
  num_nodes l + Z.of_nat (length ts) <= 2 ^ 32 →
  let path := wire_tile l <$> ts in
  ∃ l', wire l src dest = Some (l', wire_end (to_uint64 src) path) ∧ layout_wf l' ∧
    chained l' (to_uint64 src) path ∧
    (∀ u, live u → u ∉ path → contents l' u = contents l u) ∧
    ((∀ t, t ∈ ts → contents l t ≠ None → contents l (Cartesian.above (base l) t) = None) →
     ∀ u, live u → contents l u ≠ None → contents l' u = contents l u).
Proof.
  intros Hwire Hl Hz Hsrc Hdest Hsz path.
  assert (wire l src dest = place_wires l (to_uint64 src) ts ∧ wire_path ts) as [-> Hpath].
  { destruct Hwire as [[-> ->]|[-> ->]]; split; try done;
      [by apply tiles_east_path|by apply tiles_south_path]. }
  destruct (place_wires_spec ts l (to_uint64 src)) as (l' & E & Hb & Hch & Hfr); try done.
  exists l'. split_and!; [done|apply Hb|done|done|].
  intros Hfree u Hu Hne. apply Hfr; [done|]. intros (t & -> & Ht)%list_elem_of_fmap.
  destruct Hpath as [_ Hg]. rewrite Forall_forall in Hg.
  unfold wire_tile in Hne. destruct (GateLevel.is_empty_tile (GateLevel.strg l) t) eqn:Hemp; simpl in Hne.
  - apply is_empty_contents in Hemp; [done|done|]. apply (Hg t Ht).
  - destruct (decide (contents l t = None)) as [Hnone|Hsome]; [|by rewrite Hfree in Hne].
    apply is_empty_contents in Hnone; [congruence|done|]. apply (Hg t Ht).
Qed.

End Wires.
End Routing.
