(* ===== verification/OrthogonalProperties.v ===== *)
(** * Theorems on orthogonal physical design

    Module [Design] follows the loop of [orthogonal_impl::run]: each step uses a bounded number of new
    nodes and the columns and rows that [determine_layout_size] has counted (where each node of the
    network is placed is in OrthogonalPlacement.v). Module [DesignExamples]
    has the witnesses and two networks for which the result is wrong. *)

From S2P Require Import Prelude.
From S2P Require Import Coordinates.
From S2P Require Import CoordinateLayout.
From S2P Require Import CartesianLayout.
From S2P Require Import ClockingScheme.
From S2P Require Import ClockedLayout.
From S2P Require Import GateLevelLayout.
From S2P Require Import GateLevelInvariant.
From S2P Require Import MockturtleModel.
From S2P Require Import GateLevelProperties.
From S2P Require Import Networks.
From S2P Require Import PlacementUtils.
From S2P Require Import NetworkModel.
From S2P Require Import EdgeColoring.
From S2P Require Import EdgeColoringProperties.
From S2P Require Import Orthogonal.
From S2P Require Import LayoutBuilding.
#[local] Open Scope Z_scope.
Import Offset.

(** ** The loop over the nodes *)

Module Design.
Import Building Names Routing Painting.
Import Networks EdgeColoring Placement Orthogonal.

Section Design.
Context `{HM : GateLevel.MockturtleLaws} `{HC : ColorView}.
Context `{HN : Network Ntk} `{HG : !GateNetwork Ntk} (ntk : Ntk).
(** The dimension of the layout, and what lies within. *)
Context (width height : Z) (Hwidth : 0 <= width < 2 ^ 31 - 1)
  (Hheight : 0 <= height < 2 ^ 31 - 1).

Abbreviation layout := (GateLevel.gate_level_layout Cartesian.cartesian_layout).
Implicit Types (l : layout) (t : ucoord_t).

Definition within t : Prop := wf t ∧ ux t <= width ∧ uy t <= height.
Definition signal_within (s : Z) : Prop := within (of_uint64 s).

Lemma tile_signal_within t : within t → signal_within (to_uint64 t).
Proof. intros Ht. unfold signal_within. by rewrite of_to_uint64 by apply Ht. Qed.

Lemma zero_within : signal_within 0.
Proof.
  unfold signal_within. change (of_uint64 0) with (UCoord 0 0 0 0). unfold within. simpl.
  split; [|lia]. by repeat split.
Qed.

Lemma within_2 x y : 0 <= x <= width → 0 <= y <= height → within (ucoord2 x y).
Proof.
  intros Hx Hy. unfold within, ucoord2; simpl. rewrite !wrap_small by (unfold in_width; lia).
  split; [|lia]. split_and!; unfold in_width; simpl; lia.
Qed.

Lemma ux_ucoord2 x y : 0 <= x < 2 ^ 31 → ux (ucoord2 x y) = x.
Proof. intros Hx. apply wrap_small, Hx. Qed.

Lemma uy_ucoord2 x y : 0 <= y < 2 ^ 31 → uy (ucoord2 x y) = y.
Proof. intros Hy. apply wrap_small, Hy. Qed.

Lemma within_bounds t : within t → 0 <= ux t <= width ∧ 0 <= uy t <= height.
Proof. intros ((_ & _ & [? _] & [? _]) & ? & ?). lia. Qed.

(** Within the capacity of the storage, the operation succeeds with at most [k] new nodes, and its
    signal points into the layout. *)
Definition makes (k : Z) l (r : option (layout * Z)) : Prop :=
  layout_wf l → num_nodes l + k <= 2 ^ 32 →
  ∃ l' s, r = Some (l', s) ∧ builds k 0 l l' ∧ signal_within s.

Lemma makes_weaken k k' l r : k <= k' → makes k l r → makes k' l r.
Proof.
  intros Hk Hr Hl Hsz. destruct Hr as (l' & s & -> & Hb & Hs); [done|lia|].
  exists l', s. split_and!; [done|by eapply builds_weaken|done].
Qed.

Lemma makes_return l s : signal_within s → makes 0 l (Some (l, s)).
Proof. intros Hs Hl _. exists l, s. split_and!; [done|by apply builds_refl|done]. Qed.

Lemma makes_bind k1 k2 l r (f : layout * Z → option (layout * Z)) :
  makes k1 l r → (∀ l' s, builds k1 0 l l' → signal_within s → makes k2 l' (f (l', s))) →
  0 <= k2 → makes (k1 + k2) l (r ≫= f).
Proof.
  intros Hr Hf Hk Hl Hsz. destruct Hr as (l1 & s1 & -> & Hb1 & Hs1); [done|lia|]. simpl.
  pose proof (builds_size _ _ _ _ Hb1).
  destruct (Hf l1 s1 Hb1 Hs1) as (l2 & s2 & -> & Hb2 & Hs2); [apply Hb1|lia|].
  exists l2, s2. split_and!; [done| |done]. eapply builds_seq; [exact Hb1|exact Hb2|lia].
Qed.

Lemma exec_makes op t l : creates_gate op t → within t → makes 1 l (exec op l).
Proof.
  intros Hop Ht Hl Hsz. destruct (exec_yields op t l) as (l' & s & E & Hb & Hs); [done|done|apply Ht|lia|].
  exists l', s. split_and!; [done|done|].
  destruct Hs as [->| ->]; [by apply tile_signal_within|apply zero_within].
Qed.

(** ** Placing gates *)

Lemma place_1_makes l t n a : within t → makes 1 l (place_1 l t ntk n a).
Proof.
  intros Ht. unfold place_1. repeat case_match.
  - by apply (exec_makes (CreateNot a t) t).
  - by apply (exec_makes (CreateBuf a t) t).
  - eapply makes_weaken; [|apply makes_return, zero_within]. lia.
Qed.

(** A majority gate is only placed with a constant among its inputs. *)
Definition majority_with_constant (n : Z) (c : option bool) : Prop :=
  is_and ntk n || is_or ntk n || is_xor ntk n || is_nand ntk n || is_nor ntk n = true ∨
  is_maj ntk n = false ∨ c ≠ None.

Lemma place_2_makes l t n a b c :
  within t → majority_with_constant n c → makes 1 l (place_2 l t ntk n a b c).
Proof.
  intros Ht Hc. unfold place_2.
  destruct (is_and ntk n) eqn:E1; [by apply (exec_makes (CreateAnd a b t) t)|].
  destruct (is_or ntk n) eqn:E2; [by apply (exec_makes (CreateOr a b t) t)|].
  destruct (is_xor ntk n) eqn:E3; [by apply (exec_makes (CreateXor a b t) t)|].
  destruct (is_nand ntk n) eqn:E4; [by apply (exec_makes (CreateNand a b t) t)|].
  destruct (is_nor ntk n) eqn:E5; [by apply (exec_makes (CreateNor a b t) t)|].
  destruct (is_maj ntk n) eqn:E6.
  - unfold majority_with_constant in Hc. rewrite E1, E2, E3, E4, E5, E6 in Hc.
    destruct c as [[]|]; simpl; [..|naive_solver].
    + by apply (exec_makes (CreateOr a b t) t).
    + by apply (exec_makes (CreateAnd a b t) t).
  - destruct (is_function ntk n).
    + destruct c as [c|].
      * by apply (exec_makes (CreateNode [a; b; Z.b2z c] (node_function ntk n) t) t).
      * by apply (exec_makes (CreateNode [a; b] (node_function ntk n) t) t).
    + eapply makes_weaken; [|apply makes_return, zero_within]. lia.
Qed.

(** ** Wires within the layout *)

Lemma above_within l t : within t → within (Cartesian.above (base l) t).
Proof.
  intros [(Hd & Hz & Hy & Hx) ?]. unfold Cartesian.above. repeat case_match; [| |done].
  - split; [split_and!; [by apply wrap_width|done..]|done].
  - split; [split_and!; [done|by apply wrap_width|done..]|done].
Qed.

Lemma place_wires_none ts : foldl (λ r t, '(l, a) ← r; place_wire l a t) None ts = None.
Proof. by induction ts. Qed.

Lemma place_wires_cons l a t ts :
  place_wires l a (t :: ts) = place_wire l a t ≫= λ r, place_wires r.1 r.2 ts.
Proof.
  unfold place_wires. simpl. destruct (place_wire l a t) as [[l' a']|]; simpl; [done|].
  apply place_wires_none.
Qed.

Lemma place_wires_makes ts : ∀ l a,
  signal_within a → Forall within ts → makes (Z.of_nat (length ts)) l (place_wires l a ts).
Proof.
  induction ts as [|t ts IH]; intros l a Ha Hts; [by apply makes_return|].
  apply Forall_cons in Hts as [Ht Hts]. rewrite place_wires_cons.
  apply (makes_weaken (1 + Z.of_nat (length ts))); [simpl; lia|].
  apply makes_bind; [|by intros; apply IH|lia].
  apply (exec_makes (CreateBuf a (wire_tile l t)) (wire_tile l t)); [done|].
  unfold wire_tile. case_match; [by apply above_within|done].
Qed.

Lemma wire_east_makes l src dest :
  within src → ux dest <= width + 1 → makes (width + 1) l (wire_east l src dest).
Proof.
  intros Hsrc Hdest. pose proof (within_bounds _ Hsrc). unfold wire_east, tiles_east.
  eapply makes_weaken; [|apply place_wires_makes; [by apply tile_signal_within|]].
  - rewrite length_fmap, length_seqZ. lia.
  - apply Forall_fmap, Forall_forall. intros x Hx%elem_of_seqZ. apply within_2; lia.
Qed.

Lemma wire_south_makes l src dest :
  within src → uy dest <= height + 1 → makes (height + 1) l (wire_south l src dest).
Proof.
  intros Hsrc Hdest. pose proof (within_bounds _ Hsrc). unfold wire_south, tiles_south.
  eapply makes_weaken; [|apply place_wires_makes; [by apply tile_signal_within|]].
  - rewrite length_fmap, length_seqZ. lia.
  - apply Forall_fmap, Forall_forall. intros y Hy%elem_of_seqZ. apply within_2; lia.
Qed.

Lemma connect_and_place_1_makes l t n pre_t :
  within t → within pre_t → makes (width + height + 3) l (connect_and_place_1 l t ntk n pre_t).
Proof.
  intros Ht Hpre. pose proof (within_bounds _ Ht). unfold connect_and_place_1. repeat case_match.
  - apply (makes_weaken ((width + 1) + 1)); [lia|].
    apply makes_bind; [apply wire_east_makes; [done|lia]|by intros; apply place_1_makes|lia].
  - apply (makes_weaken ((height + 1) + 1)); [lia|].
    apply makes_bind; [apply wire_south_makes; [done|lia]|by intros; apply place_1_makes|lia].
  - eapply makes_weaken; [|apply makes_return, zero_within]. lia.
Qed.

Lemma connect_and_place_2_makes l t n pre1_t pre2_t c :
  within t → within pre1_t → within pre2_t → majority_with_constant n c →
  makes (width + height + 3) l (connect_and_place_2 l t ntk n pre1_t pre2_t c).
Proof.
  intros Ht Hpre1 Hpre2 Hc. pose proof (within_bounds _ Ht). unfold connect_and_place_2.
  destruct (if ltb pre2_t pre1_t then _ else _) as [p q] eqn:E.
  assert (within p ∧ within q) as [Hp Hq] by (by case_match; simplify_eq).
  apply (makes_weaken ((height + 1) + ((width + 1) + 1))); [lia|].
  apply makes_bind; [apply wire_south_makes; [done|lia]|intros l1 a Hb1 Ha|lia].
  apply makes_bind; [apply wire_east_makes; [done|lia]|intros l2 b Hb2 Hb|lia].
  by apply place_2_makes.
Qed.

(** ** States of the loop *)

(** The next free column is [x], the next free row is [y]. *)
Record design_ok (x y : Z) (s : design_state) : Prop := {
  ok_wf : layout_wf (lyt s);
  ok_dimension : Cartesian.dimension (base (lyt s)) = UCoord 0 1 height width;
  ok_latest : latest_pos s = UCoord 0 0 y x;
  ok_column : 0 <= x <= width + 1;
  ok_row : 0 <= y <= height + 1;
  ok_positions n : signal_within (map_at (node2pos s) n);
}.

(** A step takes at most [k] new nodes and adds [p] outputs; it leaves the columns from [x] and the
    rows from [y] on free. *)
Definition steps (k p x y : Z) (s : design_state) (r : option design_state) : Prop :=
  num_nodes (lyt s) + k <= 2 ^ 32 →
  ∃ s', r = Some s' ∧ builds k p (lyt s) (lyt s') ∧ design_ok x y s'.

Lemma map_at_insert (m : gmap Z Z) n v k :
  map_at (<[n := v]> m) k = if decide (n = k) then v else map_at m k.
Proof. unfold map_at. rewrite lookup_insert. by case_decide. Qed.

Lemma latest_within x y s :
  design_ok x y s → x <= width → y <= height → within (latest_pos s).
Proof.
  intros Hs Hx Hy. pose proof (ok_column _ _ _ Hs). pose proof (ok_row _ _ _ Hs).
  rewrite (ok_latest _ _ _ Hs). split; [|done]. repeat split; simpl; lia.
Qed.

(** The state after a node has been placed. *)
Lemma placed_ok x y x' y' k s n l sig p :
  design_ok x y s → builds k 0 (lyt s) l → signal_within sig →
  p = UCoord 0 0 y' x' → 0 <= x' <= width + 1 → 0 <= y' <= height + 1 →
  design_ok x' y' (placed s n (l, sig) p).
Proof.
  intros Hs Hb Hsig Hp Hx' Hy'. split; simpl; try done; [apply Hb| |].
  - unfold base. rewrite (builds_clocked _ _ _ _ Hb). apply Hs.
  - intros m. rewrite map_at_insert. case_decide; [done|apply Hs].
Qed.

Lemma next_column_at x y :
  0 <= x <= width → next_column (UCoord 0 0 y x) = UCoord 0 0 y (x + 1).
Proof. intros Hx. unfold next_column, set_x. simpl. by rewrite wrap_small by (unfold in_width; lia). Qed.

Lemma next_row_at x y :
  0 <= y <= height → next_row (UCoord 0 0 y x) = UCoord 0 0 (y + 1) x.
Proof. intros Hy. unfold next_row, set_y. simpl. by rewrite wrap_small by (unfold in_width; lia). Qed.

(** A step that places one node. *)
Lemma makes_step x y x' y' k s n r p :
  design_ok x y s → makes k (lyt s) r →
  p = UCoord 0 0 y' x' → 0 <= x' <= width + 1 → 0 <= y' <= height + 1 →
  steps k 0 x' y' s (r ← r; Some (placed s n r p)).
Proof.
  intros Hs Hr Hp Hx Hy Hsz. destruct Hr as (l & sig & -> & Hb & Hsig); [apply Hs|done|].
  exists (placed s n (l, sig) p). split_and!; [done|done|by eapply placed_ok].
Qed.

(** The same after one and after two wires. *)
Lemma makes_step_1 x y x' y' k1 k2 s n m (f : layout → Z → option (layout * Z)) p :
  design_ok x y s → makes k1 (lyt s) m →
  (∀ l a, signal_within a → makes k2 l (f l a)) → 0 <= k2 →
  p = UCoord 0 0 y' x' → 0 <= x' <= width + 1 → 0 <= y' <= height + 1 →
  steps (k1 + k2) 0 x' y' s ('(l, a) ← m; r ← f l a; Some (placed s n r p)).
Proof.
  intros Hs Hm Hf Hk Hp Hx Hy.
  assert (('(l, a) ← m; r ← f l a; Some (placed s n r p)) =
    (r ← ('(l, a) ← m; f l a); Some (placed s n r p))) as -> by (by destruct m as [[]|]).
  apply (makes_step x y); try done. apply makes_bind; [done| |done]. intros l a _ Ha. by apply Hf.
Qed.

Lemma makes_step_2 x y x' y' k1 k2 k3 s n m (f : layout → Z → option (layout * Z))
    (g : layout → Z → Z → option (layout * Z)) p :
  design_ok x y s → makes k1 (lyt s) m →
  (∀ l a, signal_within a → makes k2 l (f l a)) → 0 <= k2 →
  (∀ l a b, signal_within a → signal_within b → makes k3 l (g l a b)) → 0 <= k3 →
  p = UCoord 0 0 y' x' → 0 <= x' <= width + 1 → 0 <= y' <= height + 1 →
  steps (k1 + (k2 + k3)) 0 x' y' s
    ('(l, a) ← m; '(l, b) ← f l a; r ← g l a b; Some (placed s n r p)).
Proof.
  intros Hs Hm Hf Hk2 Hg Hk3 Hp Hx Hy.
  assert (('(l, a) ← m; '(l, b) ← f l a; r ← g l a b; Some (placed s n r p)) =
    (r ← ('(l, a) ← m; '(l, b) ← f l a; g l a b); Some (placed s n r p))) as ->.
  { destruct m as [[l a]|]; [|done]. simpl. by destruct (f l a) as [[]|]. }
  apply (makes_step x y); try done. apply makes_bind; [done| |lia]. intros l a _ Ha.
  apply makes_bind; [by apply Hf| |done]. intros l' b _ Hb. by apply Hg.
Qed.

Lemma steps_weaken k k' p x y s r : k <= k' → steps k p x y s r → steps k' p x y s r.
Proof.
  intros Hk Hr Hsz. destruct Hr as (s' & -> & Hb & Hs'); [lia|]. exists s'.
  split_and!; [done|by eapply builds_weaken|done].
Qed.

(** The inputs that are wired to a new column. *)
Definition input_goes_south (ctn : coloring_container) (n : Z) : bool :=
  match foreach_fanout ntk n with
  | fon :: _ => node_color (color_ntk ctn) fon =? color_south ctn
  | [] => false
  end.

Lemma place_input_steps ctn pi2node x y s n :
  design_ok x y s → 2 <= map_at pi2node n < num_nodes (lyt s) → y <= height →
  x + Z.b2z (input_goes_south ctn n) <= width + 1 →
  steps (width + 2) 0 (x + Z.b2z (input_goes_south ctn n)) (y + 1) s
    (place_input ntk ctn pi2node s n).
Proof.
  intros Hs Hn Hy Hx Hsz. unfold place_input. pose proof (ok_row _ _ _ Hs). pose proof (ok_column _ _ _ Hs).
  rewrite (ok_latest _ _ _ Hs). simpl uy.
  assert (within (ucoord2 0 y)) as Hin by (apply within_2; lia).
  destruct (move_node_builds (lyt s) (map_at pi2node n) (ucoord2 0 y)) as (l & -> & Hb);
    [apply Hs|apply Hin|done|done|]. simpl.
  change (match foreach_fanout ntk n with [] => false | fon :: _ => _ end) with (input_goes_south ctn n).
  destruct (input_goes_south ctn n); simpl in *.
  - set (s1 := placed s n (l, to_uint64 (ucoord2 0 y)) (UCoord 0 0 y x)).
    assert (design_ok x y s1) as Hs1
      by (eapply placed_ok; [done|exact Hb|by apply tile_signal_within|done|lia|lia]).
    assert (within (UCoord 0 0 y x)) as Hp.
    { rewrite <-(ok_latest _ _ _ Hs1). apply (latest_within x y); [done|lia|lia]. }
    assert (makes (width + 2) l
      ('(l, a) ← wire_east l (ucoord2 0 y) (UCoord 0 0 y x);
       GateLevel.create_buf l a (UCoord 0 0 y x))) as Hm.
    { apply (makes_weaken ((width + 1) + 1)); [lia|]. apply makes_bind; [|intros l1 a _ _|lia].
      - apply wire_east_makes; [done|simpl; lia].
      - by apply (exec_makes (CreateBuf a (UCoord 0 0 y x)) (UCoord 0 0 y x)). }
    pose proof (builds_size _ _ _ _ Hb).
    destruct (makes_step x y (x + 1) (y + 1) (width + 2) s1 n _ (next_row (next_column (UCoord 0 0 y x)))
      Hs1 Hm) as (s2 & E2 & Hb2 & Hs2); [|lia|lia|simpl; lia|].
    { by rewrite next_column_at, next_row_at by lia. }
    exists s2. split_and!; [|by eapply builds_seq; [exact Hb|exact Hb2|lia]|exact Hs2].
    rewrite <-E2. subst s1. simpl. by destruct (wire_east _ _ _) as [[? ?]|].
  - exists (placed s n (l, to_uint64 (ucoord2 0 y)) (next_row (UCoord 0 0 y x))).
    split_and!; [done|by eapply builds_weaken; [|exact Hb]; lia|].
    eapply placed_ok; [done|exact Hb|by apply tile_signal_within| |lia|lia].
    rewrite next_row_at by lia. by rewrite Z.add_0_r.
Qed.

(** The color of a gate with one or two fanins: east, south, or none for two fanins. *)
Lemma place_single_steps ctn x y s n pre :
  design_ok x y s → container_ok ctn → valid_color ctn (node_color (color_ntk ctn) n) →
  let east := node_color (color_ntk ctn) n =? color_east ctn in
  x + Z.b2z east <= width + 1 → y + Z.b2z (negb east) <= height + 1 →
  steps (width + height + 3) 0 (x + Z.b2z east) (y + Z.b2z (negb east)) s
    (place_single ntk ctn s n pre).
Proof.
  intros Hs [_ _ Hne] Hv east Hx Hy. unfold place_single.
  pose proof (ok_row _ _ _ Hs). pose proof (ok_column _ _ _ Hs).
  assert (within (position s pre)) as Hpre by apply (ok_positions _ _ _ Hs).
  pose proof (within_bounds _ Hpre). rewrite (ok_latest _ _ _ Hs). cbn [ux uy].
  fold east. destruct east eqn:E; cbn [Z.b2z negb] in *.
  - apply makes_step with (x := x) (y := y); [done| | |lia|lia].
    + apply connect_and_place_1_makes; [apply within_2; lia|done].
    + rewrite next_column_at by lia. by rewrite Z.add_0_r.
  - destruct Hv as [Hv|Hv]; [unfold east in E; lia|]. rewrite Hv, Z.eqb_refl.
    apply makes_step with (x := x) (y := y); [done| | |lia|lia].
    + apply connect_and_place_1_makes; [apply within_2; lia|done].
    + rewrite next_row_at by lia. by rewrite Z.add_0_r.
Qed.

(** The columns and rows that a gate takes. *)
Definition gate_columns (ctn : coloring_container) (n : Z) : Z :=
  if node_color (color_ntk ctn) n =? color_south ctn then 0 else 1.
Definition gate_rows (ctn : coloring_container) (n : Z) : Z :=
  if node_color (color_ntk ctn) n =? color_east ctn then 0 else 1.

Lemma place_double_steps ctn x y s n pre1 pre2 c :
  design_ok x y s → container_ok ctn → majority_with_constant n c →
  x + gate_columns ctn n <= width + 1 → y + gate_rows ctn n <= height + 1 →
  steps (2 * width + 2 * height + 5) 0 (x + gate_columns ctn n) (y + gate_rows ctn n) s
    (place_double ntk ctn s n pre1 pre2 c).
Proof.
  intros Hs [_ _ Hne] Hc. unfold place_double, gate_columns, gate_rows.
  pose proof (ok_row _ _ _ Hs). pose proof (ok_column _ _ _ Hs).
  assert (within (position s pre1)) as Hpre1 by apply (ok_positions _ _ _ Hs).
  assert (within (position s pre2)) as Hpre2 by apply (ok_positions _ _ _ Hs).
  rewrite (ok_latest _ _ _ Hs). cbn [ux uy].
  set (clr := node_color (color_ntk ctn) n). destruct (clr =? color_east ctn) eqn:Ee.
  { replace (clr =? color_south ctn) with false by lia. cbv iota. intros Hx Hy.
    destruct (if uy (position s pre2) <? uy (position s pre1) then _ else _) as [p q] eqn:E.
    assert (within p ∧ within q) as [Hp Hq] by (by case_match; simplify_eq).
    pose proof (within_bounds _ Hp). pose proof (within_bounds _ Hq).
    assert (within (ucoord2 x (uy q))) as Ht by (apply within_2; lia).
    eapply steps_weaken; [|eapply (makes_step_1 x y)]; [|done|apply wire_east_makes; [done|]|..].
    - instantiate (1 := width + height + 3). lia.
    - rewrite (ux_ucoord2 x), ux_ucoord2 by lia. lia.
    - intros l a Ha. by apply connect_and_place_2_makes.
    - lia.
    - by rewrite next_column_at, Z.add_0_r by lia.
    - lia.
    - lia. }
  destruct (clr =? color_south ctn) eqn:Es; cbv iota; intros Hx Hy.
  { destruct (if ux (position s pre1) <? ux (position s pre2) then _ else _) as [p q] eqn:E.
    assert (within p ∧ within q) as [Hp Hq] by (by case_match; simplify_eq).
    pose proof (within_bounds _ Hp). pose proof (within_bounds _ Hq).
    assert (within (ucoord2 (ux p) y)) as Ht by (apply within_2; lia).
    eapply steps_weaken; [|eapply (makes_step_1 x y)]; [|done|apply wire_south_makes; [done|]|..].
    - instantiate (1 := width + height + 3). lia.
    - rewrite (uy_ucoord2 (ux p)), uy_ucoord2 by lia. lia.
    - intros l a Ha. by apply connect_and_place_2_makes.
    - lia.
    - by rewrite next_row_at, Z.add_0_r by lia.
    - lia.
    - lia. }
  destruct (if negb _ || negb _ then _ else _) as [p q] eqn:E.
  assert (within p ∧ within q) as [Hp Hq] by (by case_match; simplify_eq).
  pose proof (within_bounds _ Hp). pose proof (within_bounds _ Hq).
  assert (within (UCoord 0 0 y x)) as Ht.
  { rewrite <-(ok_latest _ _ _ Hs). apply (latest_within x y); [done|lia|lia]. }
  eapply steps_weaken; [|eapply (makes_step_2 x y)];
    [|done|apply wire_east_makes; [done|]|intros l a Ha; apply wire_south_makes; [done|]|..].
  - instantiate (1 := width + height + 3). lia.
  - rewrite ux_ucoord2 by lia. lia.
  - rewrite uy_ucoord2 by lia. lia.
  - lia.
  - intros l a b Ha Hb. by apply connect_and_place_2_makes.
  - lia.
  - by rewrite next_column_at, next_row_at by lia.
  - lia.
  - lia.
Qed.

(** ** Outputs *)

Lemma east_within l t :
  Cartesian.dimension (base l) = UCoord 0 1 height width → within t →
  within (Cartesian.east (base l) t).
Proof.
  intros Hd Ht. pose proof (within_bounds _ Ht). pose proof Ht as [(Ht1 & Ht2 & Ht3 & Ht4) _].
  unfold Cartesian.east, Cartesian.x. rewrite Hd. cbn [ux]. repeat case_match; zbool; [lia| |].
  - split; [by repeat split; try apply wrap_width; try apply Ht1; try apply Ht2; try apply Ht3|].
    cbn [ux uy set_x]. rewrite wrap_small by (unfold in_width; lia). lia.
  - done.
Qed.

Lemma south_within l t :
  Cartesian.dimension (base l) = UCoord 0 1 height width → within t →
  within (Cartesian.south (base l) t).
Proof.
  intros Hd Ht. pose proof (within_bounds _ Ht). pose proof Ht as [(Ht1 & Ht2 & Ht3 & Ht4) _].
  unfold Cartesian.south, Cartesian.y. rewrite Hd. cbn [uy]. repeat case_match; zbool; [lia| |].
  - split; [by repeat split; try apply wrap_width; try apply Ht1; try apply Ht2; try apply Ht4|].
    cbn [ux uy set_y]. rewrite wrap_small by (unfold in_width; lia). lia.
  - done.
Qed.

Lemma border_within l t :
  Cartesian.dimension (base l) = UCoord 0 1 height width → within t →
  within (Cartesian.eastern_border_of (base l) t) ∧
  ux (Cartesian.eastern_border_of (base l) t) = width.
Proof.
  intros Hd Ht. pose proof (within_bounds _ Ht). unfold Cartesian.eastern_border_of, Cartesian.x.
  rewrite Hd. set (c := ucoord3 _ _ _).
  assert (wf c) as Hc by (by repeat split; try apply wrap_width).
  assert (ux c = width) as Hcx by (apply wrap_small; unfold in_width; cbn [ux]; lia).
  assert (uy c = uy t) as Hcy by (apply wrap_small; unfold in_width; lia).
  unfold within. rewrite Hcx, Hcy. split_and!; done || lia.
Qed.

(** The gate or wires and the output itself. *)
Lemma output_builds l n_s name po_tile :
  layout_wf l → Cartesian.dimension (base l) = UCoord 0 1 height width →
  signal_within n_s → within po_tile → num_nodes l + (width + 3) <= 2 ^ 32 →
  ∃ l', (if Cartesian.is_at_eastern_border (base l) po_tile
         then '(l, _) ← GateLevel.create_po l n_s name po_tile; Some l
         else
           '(l, anker) ← GateLevel.create_buf l n_s po_tile;
           '(l', a) ← wire_east l (of_uint64 anker) (Cartesian.eastern_border_of (base l) po_tile);
           '(l', _) ← GateLevel.create_po l' a name (Cartesian.eastern_border_of (base l) po_tile);
           Some l') = Some l' ∧ builds (width + 3) 1 l l'.
Proof.
  intros Hl Hd Hn Hpo Hsz. case_match.
  - destruct (create_po_builds l n_s name po_tile) as (l1 & s1 & -> & Hb); [done|apply Hpo|lia|].
    exists l1. split; [done|]. eapply builds_weaken; [|done]. lia.
  - destruct (exec_makes (CreateBuf n_s po_tile) po_tile l) as (l1 & anker & E & Hb1 & Ha);
      [done|done|done|lia|]. simpl in E. rewrite E. cbn [mbind option_bind].
    assert (base l1 = base l) as Hbase by (unfold base; by rewrite (builds_clocked _ _ _ _ Hb1)).
    destruct (border_within l1 po_tile) as [Hborder Hx]; [by rewrite Hbase|done|].
    pose proof (builds_size _ _ _ _ Hb1).
    destruct (wire_east_makes l1 (of_uint64 anker) (Cartesian.eastern_border_of (base l1) po_tile))
      as (l2 & a & -> & Hb2 & _); [done|lia|apply Hb1|lia|]. cbn [mbind option_bind].
    pose proof (builds_size _ _ _ _ Hb2).
    destruct (create_po_builds l2 a name (Cartesian.eastern_border_of (base l1) po_tile))
      as (l3 & s3 & -> & Hb3); [apply Hb2|apply Hborder|lia|]. cbn [mbind option_bind].
    exists l3. split; [done|]. eapply (builds_seq _ 1 (width + 2)); [exact Hb1| |lia].
    eapply builds_seq; [exact Hb2|exact Hb3|lia].
Qed.

Lemma place_output_steps ctn x y s n :
  design_ok x y s →
  let east := is_eastern_po_orientation_available ntk ctn n in
  x + Z.b2z east <= width + 1 → y + Z.b2z (negb east) <= height + 1 →
  steps (width + 3) 1 (x + Z.b2z east) (y + Z.b2z (negb east)) s (place_output ntk ctn s n).
Proof.
  intros Hs east Hx Hy Hsz. pose proof (ok_column _ _ _ Hs). pose proof (ok_row _ _ _ Hs).
  unfold place_output. fold east.
  pose proof (ok_positions _ _ _ Hs n) as Hn.
  set (po := if east then _ else _).
  assert (within po.1 ∧ po.2 = UCoord 0 0 (y + Z.b2z (negb east)) (x + Z.b2z east)) as [Hpo Hp].
  { unfold po. rewrite (ok_latest _ _ _ Hs). destruct east; cbn [fst snd Z.b2z negb] in *.
    - rewrite next_column_at, Z.add_0_r by lia. split; [|done]. apply east_within; [apply Hs|done].
    - rewrite next_row_at, Z.add_0_r by lia. split; [|done]. apply south_within; [apply Hs|done]. }
  destruct po as [po_tile p]. cbn [fst snd] in *.
  destruct (output_builds (lyt s) (map_at (node2pos s) n) (next_output_name ntk (po_counter s)) po_tile)
    as (l & E & Hb); [apply Hs|apply Hs|done|done|done|].
  cbv zeta. rewrite E. cbn [mbind option_bind]. eexists. split_and!; [done|exact Hb|].
  destruct east; cbn [Z.b2z negb] in *;
    (split; cbn [lyt latest_pos node2pos]; [apply Hb| |done|lia|lia|apply Hs]);
    unfold base; rewrite (builds_clocked _ _ _ _ Hb); apply Hs.
Qed.

(** ** Columns and rows *)

Definition columns (ctn : coloring_container) (n : Z) : Z :=
  if is_constant ntk n then 0
  else (if is_pi ntk n then Z.b2z (input_goes_south ctn n) else gate_columns ctn n) +
       (if is_po ntk n then Z.b2z (is_eastern_po_orientation_available ntk ctn n) else 0).

Definition rows (ctn : coloring_container) (n : Z) : Z :=
  if is_constant ntk n then 0
  else (if is_pi ntk n then 1 else gate_rows ctn n) +
       (if is_po ntk n then Z.b2z (negb (is_eastern_po_orientation_available ntk ctn n)) else 0).

(** The outputs that the loop creates. *)
Definition drives_output (n : Z) : bool := negb (is_constant ntk n) && is_po ntk n.

(** What the loop relies on: a gate has a fanin that is not a constant, one with a single such fanin
    has a color, and a majority gate with two has a constant. *)
Definition placeable (ctn : coloring_container) (n : Z) : Prop :=
  match container_nodes (fanins ntk n) with
  | [] => False
  | [_] => valid_color ctn (node_color (color_ntk ctn) n)
  | _ => majority_with_constant n (constant_fanin (fanins ntk n))
  end.

Lemma gate_columns_bounds ctn n : 0 <= gate_columns ctn n <= 1.
Proof. unfold gate_columns. case_match; lia. Qed.

Lemma gate_rows_bounds ctn n : 0 <= gate_rows ctn n <= 1.
Proof. unfold gate_rows. case_match; lia. Qed.

Lemma valid_color_counts ctn n :
  container_ok ctn → valid_color ctn (node_color (color_ntk ctn) n) →
  gate_columns ctn n = Z.b2z (node_color (color_ntk ctn) n =? color_east ctn) ∧
  gate_rows ctn n = Z.b2z (negb (node_color (color_ntk ctn) n =? color_east ctn)).
Proof.
  intros [_ _ Hne] Hv. unfold gate_columns, gate_rows. set (c := node_color _ _) in *.
  destruct Hv as [->| ->]; rewrite Z.eqb_refl.
  - by replace (color_east ctn =? color_south ctn) with false by lia.
  - by replace (color_south ctn =? color_east ctn) with false by lia.
Qed.

Definition node_cost : Z := 3 * width + 2 * height + 8.

(** An input or a gate, without the output it may drive. *)
Lemma place_inner_steps ctn pi2node x y s n :
  design_ok x y s → container_ok ctn →
  (is_pi ntk n = true → 2 <= map_at pi2node n < num_nodes (lyt s)) →
  (is_pi ntk n = false → placeable ctn n) →
  let dx := if is_pi ntk n then Z.b2z (input_goes_south ctn n) else gate_columns ctn n in
  let dy := if is_pi ntk n then 1 else gate_rows ctn n in
  x + dx <= width + 1 → y + dy <= height + 1 →
  steps (2 * width + 2 * height + 5) 0 (x + dx) (y + dy) s
    (if is_pi ntk n then place_input ntk ctn pi2node s n
     else
       match container_nodes (fanins ntk n) with
       | [pre] => place_single ntk ctn s n pre
       | pre1 :: pre2 :: _ => place_double ntk ctn s n pre1 pre2 (constant_fanin (fanins ntk n))
       | [] => None
       end).
Proof.
  intros Hs Hok Hpi Hgate. destruct (is_pi ntk n).
  - intros dx dy Hx Hy. eapply steps_weaken; [|apply place_input_steps]; try done; [lia|auto|lia].
  - specialize (Hgate eq_refl). unfold placeable in Hgate.
    destruct (container_nodes (fanins ntk n)) as [|pre1 [|pre2 pres]]; [done| |].
    + destruct (valid_color_counts ctn n Hok Hgate) as [-> ->]. intros dx dy Hx Hy.
      eapply steps_weaken; [|by apply place_single_steps]. lia.
    + intros dx dy Hx Hy. by apply place_double_steps.
Qed.

Lemma place_node_steps ctn pi2node x y s n :
  design_ok x y s → container_ok ctn →
  (is_pi ntk n = true → 2 <= map_at pi2node n < num_nodes (lyt s)) →
  (is_constant ntk n = false → is_pi ntk n = false → placeable ctn n) →
  x + columns ctn n <= width + 1 → y + rows ctn n <= height + 1 →
  steps node_cost (Z.b2z (drives_output n)) (x + columns ctn n) (y + rows ctn n) s
    (place_node ntk ctn pi2node s n).
Proof.
  intros Hs Hok Hpi Hgate. unfold place_node, columns, rows, drives_output, node_cost.
  pose proof (gate_columns_bounds ctn n). pose proof (gate_rows_bounds ctn n).
  destruct (is_constant ntk n); cbn [negb andb Z.b2z].
  { intros _ _ Hsz. exists s. split_and!; [done| |by rewrite !Z.add_0_r].
    eapply builds_weaken; [|apply builds_refl, Hs]. lia. }
  specialize (Hgate eq_refl). intros Hx Hy Hsz. cbv zeta.
  pose proof (place_inner_steps ctn pi2node x y s n Hs Hok Hpi Hgate) as Hinner. cbv zeta in Hinner.
  set (dx := if is_pi ntk n then Z.b2z (input_goes_south ctn n) else gate_columns ctn n) in *.
  set (dy := if is_pi ntk n then 1 else gate_rows ctn n) in *.
  assert (0 <= dx <= 1 ∧ 0 <= dy <= 1) as [??]
    by (unfold dx, dy; destruct (is_pi ntk n), (input_goes_south ctn n); simpl; lia).
  set (east := is_eastern_po_orientation_available ntk ctn n) in *.
  destruct Hinner as (s1 & E1 & Hb1 & Hs1);
    [destruct (is_po ntk n), east; simpl in *; lia..|lia|].
  rewrite E1. cbn [mbind option_bind]. destruct (is_po ntk n).
  - pose proof (builds_size _ _ _ _ Hb1).
    destruct (place_output_steps ctn (x + dx) (y + dy) s1 n Hs1) as (s2 & E2 & Hb2 & Hs2);
      [fold east; lia..|lia|].
    exists s2. split_and!; [exact E2| |].
    + eapply builds_seq; [exact Hb1|exact Hb2|lia].
    + fold east in Hs2. by rewrite !Z.add_assoc.
  - exists s1. split_and!; [done| |by rewrite !Z.add_0_r].
    eapply builds_weaken; [|exact Hb1]. lia.
Qed.

(** The sum of a quantity over nodes. *)
Definition total (f : Z → Z) (ns : list Z) : Z := foldr (λ n k, f n + k) 0 ns.

Lemma total_nonneg f ns : (∀ n, n ∈ ns → 0 <= f n) → 0 <= total f ns.
Proof.
  induction ns as [|n ns IH]; intros Hf; simpl; [lia|].
  pose proof (Hf n ltac:(by left)). specialize (IH ltac:(intros; apply Hf; by right)). lia.
Qed.

Lemma columns_nonneg ctn n : 0 <= columns ctn n.
Proof.
  unfold columns. pose proof (gate_columns_bounds ctn n).
  repeat case_match; destruct (input_goes_south ctn n),
    (is_eastern_po_orientation_available ntk ctn n); simpl; lia.
Qed.

Lemma rows_nonneg ctn n : 0 <= rows ctn n.
Proof.
  unfold rows. pose proof (gate_rows_bounds ctn n).
  repeat case_match; destruct (is_eastern_po_orientation_available ntk ctn n); simpl; lia.
Qed.

Lemma place_nodes_steps ctn pi2node ns : ∀ x y s,
  design_ok x y s → container_ok ctn →
  (∀ n, n ∈ ns → is_pi ntk n = true → 2 <= map_at pi2node n < num_nodes (lyt s)) →
  (∀ n, n ∈ ns → is_constant ntk n = false → is_pi ntk n = false → placeable ctn n) →
  x + total (columns ctn) ns <= width + 1 → y + total (rows ctn) ns <= height + 1 →
  steps (Z.of_nat (length ns) * node_cost) (total (λ n, Z.b2z (drives_output n)) ns)
    (x + total (columns ctn) ns) (y + total (rows ctn) ns) s
    (place_nodes ntk ctn pi2node s ns).
Proof.
  induction ns as [|n ns IH]; intros x y s Hs Hok Hpi Hgate Hx Hy Hsz.
  { exists s. cbn [total foldr] in *. rewrite !Z.add_0_r in *.
    split_and!; [done|apply builds_refl, Hs|done]. }
  cbn [total foldr] in *. change (foldr _ 0 ns) with (total (columns ctn) ns) in Hx.
  change (foldr _ 0 ns) with (total (rows ctn) ns) in Hy.
  pose proof (columns_nonneg ctn n). pose proof (rows_nonneg ctn n).
  pose proof (total_nonneg (columns ctn) ns (λ m _, columns_nonneg ctn m)).
  pose proof (total_nonneg (rows ctn) ns (λ m _, rows_nonneg ctn m)).
  assert (0 <= node_cost) by (unfold node_cost; lia).
  destruct (place_node_steps ctn pi2node x y s n Hs Hok) as (s1 & E1 & Hb1 & Hs1);
    [apply Hpi; by left|apply Hgate; by left|lia|lia|simpl in Hsz; nia|].
  pose proof (builds_size _ _ _ _ Hb1).
  destruct (IH (x + columns ctn n) (y + rows ctn n) s1) as (s2 & E2 & Hb2 & Hs2); try done.
  - intros m Hm Hp. destruct (Hpi m ltac:(by right) Hp). lia.
  - intros m Hm. apply Hgate. by right.
  - lia.
  - lia.
  - simpl in Hsz. nia.
  - exists s2. split_and!.
    + unfold place_nodes in *. simpl. by rewrite E1.
    + assert (0 <= total (λ n, Z.b2z (drives_output n)) ns) as Hout
        by (apply total_nonneg; intros m _; destruct (drives_output m); simpl; lia).
      destruct Hb1, Hb2. split; try congruence; [simpl; lia|unfold total in *; simpl; lia|].
      unfold total in *. intros E. destruct (drives_output n); simpl in E; [lia|auto].
    + by rewrite !Z.add_assoc.
Qed.

End Design.

(** ** The size of the layout *)

Section Size.
Context `{HM : GateLevel.MockturtleLaws} `{HC : ColorView}.
Context `{HN : Network Ntk} `{HG : !GateNetwork Ntk} (ntk : Ntk) `{HNL : !NetworkLaws ntk}.
Context (ctn : coloring_container) (Hok : container_ok ctn).
(** All nodes are colored with the colors of the container. *)
Context (Hknown : ∀ n, ncolor ctn n = color_null ∨ valid_color ctn (ncolor ctn n)).

(** The columns and rows that [determine_layout_size] counts. *)
Definition south_fanouts (n : Z) : list Z :=
  filter (λ fon, node_color (color_ntk ctn) fon = color_south ctn) (foreach_fanout ntk n).

Definition counted_columns (n : Z) : Z :=
  if is_constant ntk n then 0
  else (if is_pi ntk n then Z.of_nat (length (south_fanouts n)) else gate_columns ctn n) +
       (if is_po ntk n then Z.b2z (is_eastern_po_orientation_available ntk ctn n) else 0).

Definition counted_rows (n : Z) : Z :=
  if is_constant ntk n then 0
  else (if is_pi ntk n then 0 else gate_rows ctn n) +
       (if is_po ntk n then Z.b2z (negb (is_eastern_po_orientation_available ntk ctn n)) else 0).

Definition num_inputs : Z := Z.of_nat (length (foreach_pi ntk)).
Definition layout_width : Z := total counted_columns (foreach_node ntk).
Definition layout_height : Z := num_inputs - 1 + total counted_rows (foreach_node ntk).

Lemma counted_columns_nonneg n : 0 <= counted_columns n.
Proof.
  unfold counted_columns. pose proof (gate_columns_bounds ctn n).
  repeat case_match; destruct (is_eastern_po_orientation_available ntk ctn n); simpl; lia.
Qed.

Lemma counted_rows_nonneg n : 0 <= counted_rows n.
Proof.
  unfold counted_rows. pose proof (gate_rows_bounds ctn n).
  repeat case_match; destruct (is_eastern_po_orientation_available ntk ctn n); simpl; lia.
Qed.

Lemma wrap64_small x : 0 <= x < 2 ^ 31 → wrap 64 x = x.
Proof. intros Hx. apply wrap_small. unfold in_width. lia. Qed.

Lemma south_fanouts_loop fons x :
  0 <= x → x + Z.of_nat (length (filter (λ fon, node_color (color_ntk ctn) fon = color_south ctn) fons))
    < 2 ^ 31 →
  foldl (λ x fon,
    if node_color (color_ntk ctn) fon =? color_south ctn then wrap 64 (x + 1) else x) x fons =
  x + Z.of_nat (length (filter (λ fon, node_color (color_ntk ctn) fon = color_south ctn) fons)).
Proof.
  revert x. induction fons as [|fon fons IH]; intros x Hx; [simpl; lia|].
  rewrite filter_cons. cbn [foldl]. intros Hlt. destruct (decide _) as [Hc|Hc]; cbn [length] in *.
  - rewrite Hc, Z.eqb_refl, wrap64_small by lia. rewrite IH; lia.
  - apply Z.eqb_neq in Hc. rewrite Hc. by rewrite IH.
Qed.

Lemma grow_layout_counts x y n :
  0 <= x → 0 <= y → x + counted_columns n < 2 ^ 31 → y + counted_rows n < 2 ^ 31 →
  grow_layout ntk ctn (x, y) n = (x + counted_columns n, y + counted_rows n).
Proof.
  intros Hx Hy. unfold grow_layout, counted_columns, counted_rows.
  destruct (is_constant ntk n); [by rewrite !Z.add_0_r|].
  pose proof (gate_columns_bounds ctn n). pose proof (gate_rows_bounds ctn n).
  set (east := is_eastern_po_orientation_available ntk ctn n).
  set (dx := if is_pi ntk n then Z.of_nat (length (south_fanouts n)) else gate_columns ctn n).
  set (dy := if is_pi ntk n then 0 else gate_rows ctn n).
  assert (0 <= dx ∧ 0 <= dy) as [Hdx Hdy] by (unfold dx, dy; case_match; lia).
  intros Hcol Hrow. set (inner := if is_pi ntk n then _ else _).
  assert (inner = (x + dx, y + dy)) as ->.
  { assert (x + dx < 2 ^ 31 ∧ y + dy < 2 ^ 31) as [Hcx Hcy]
      by (destruct (is_po ntk n), east; simpl in *; lia).
    unfold inner, dx, dy in *. destruct (is_pi ntk n).
    { unfold south_fanouts in *. by rewrite south_fanouts_loop, Z.add_0_r by lia. }
    destruct Hok as [He Hs Hes]. unfold gate_columns, gate_rows in *.
    pose proof (Hknown n) as Hk. unfold valid_color, ncolor in Hk.
    set (c := node_color (color_ntk ctn) n) in *.
    destruct (c =? color_east ctn) eqn:Ee, (c =? color_south ctn) eqn:Es;
      rewrite ?Z.eqb_eq, ?Z.eqb_neq in *; cbv zeta; try congruence.
    - rewrite wrap64_small by lia. by rewrite Z.add_0_r.
    - rewrite wrap64_small by lia. by rewrite Z.add_0_r.
    - destruct Hk as [->|[?|?]]; [|congruence..]. by rewrite !wrap64_small by lia. }
  destruct (is_po ntk n); [|by rewrite !Z.add_0_r].
  destruct east; simpl in *; rewrite wrap64_small by lia; f_equal; lia.
Qed.

Lemma grow_layout_loop ns x y :
  0 <= x → 0 <= y → x + total counted_columns ns < 2 ^ 31 → y + total counted_rows ns < 2 ^ 31 →
  foldl (grow_layout ntk ctn) (x, y) ns = (x + total counted_columns ns, y + total counted_rows ns).
Proof.
  revert x y. induction ns as [|n ns IH]; intros x y Hx Hy; cbn [foldl total foldr];
    [by rewrite !Z.add_0_r|].
  change (foldr _ 0 ns) with (total counted_columns ns) at 1.
  change (foldr (λ n k, counted_rows n + k) 0 ns) with (total counted_rows ns).
  change (foldr (λ n k, counted_columns n + k) 0 ns) with (total counted_columns ns).
  pose proof (counted_columns_nonneg n). pose proof (counted_rows_nonneg n).
  pose proof (total_nonneg counted_columns ns (λ m _, counted_columns_nonneg m)).
  pose proof (total_nonneg counted_rows ns (λ m _, counted_rows_nonneg m)).
  intros Hcol Hrow. rewrite grow_layout_counts, IH by lia. f_equal; lia.
Qed.

Lemma determine_layout_size_spec :
  1 <= num_inputs < 2 ^ 32 → layout_width < 2 ^ 31 → layout_height < 2 ^ 31 →
  determine_layout_size ntk ctn = UCoord 0 1 layout_height layout_width.
Proof.
  intros Hn Hw Hh. unfold determine_layout_size. fold num_inputs.
  pose proof (total_nonneg counted_columns (foreach_node ntk) (λ m _, counted_columns_nonneg m)) as H1.
  pose proof (total_nonneg counted_rows (foreach_node ntk) (λ m _, counted_rows_nonneg m)) as H2.
  fold layout_width in H1. unfold layout_height in *.
  rewrite (wrap_small 32) by (unfold in_width; lia).
  rewrite grow_layout_loop by (unfold layout_width in *; lia). fold layout_width.
  unfold ucoord3. by rewrite !(wrap_small 31), Z.add_0_l by (unfold in_width; lia).
Qed.

(** What the loop takes is what is counted: exactly for rows, at most for columns. *)
Lemma total_rows : total (rows ntk ctn) (foreach_node ntk) = layout_height + 1.
Proof.
  unfold layout_height, num_inputs. rewrite (Permutation_length foreach_pi_nodes).
  induction (foreach_node ntk) as [|n ns IH]; [done|].
  cbn [total foldr] in *. unfold total in IH. rewrite filter_cons, IH.
  unfold rows at 1, counted_rows at 2. pose proof (pi_not_constant n) as Hpi.
  destruct (is_pi ntk n).
  - rewrite Hpi, decide_True by done. simpl length. unfold total. lia.
  - rewrite decide_False by done. unfold total. case_match; lia.
Qed.

Lemma columns_counted n :
  columns ntk ctn n <= counted_columns n ∧
  ((length (foreach_fanout ntk n) <= 1)%nat → columns ntk ctn n = counted_columns n).
Proof.
  unfold columns, counted_columns. destruct (is_constant ntk n); [done|].
  destruct (is_pi ntk n); [|done].
  unfold input_goes_south, south_fanouts. destruct (foreach_fanout ntk n) as [|fon fons]; [done|].
  rewrite filter_cons. destruct (decide _) as [Hc|Hc].
  - rewrite Hc, Z.eqb_refl. simpl. split; [lia|]. destruct fons; [done|simpl; lia].
  - apply Z.eqb_neq in Hc. rewrite Hc. simpl. split; [lia|]. destruct fons; [done|simpl; lia].
Qed.

Lemma total_columns :
  total (columns ntk ctn) (foreach_node ntk) <= layout_width ∧
  ((∀ n, is_pi ntk n = true → (length (foreach_fanout ntk n) <= 1)%nat) →
    total (columns ntk ctn) (foreach_node ntk) = layout_width).
Proof.
  unfold layout_width. induction (foreach_node ntk) as [|n ns [IH1 IH2]]; [done|].
  cbn [total foldr] in *. unfold total in *. destruct (columns_counted n) as [H1 H2].
  split; [lia|]. intros Hfo. rewrite IH2 by done. f_equal.
  destruct (is_pi ntk n) eqn:E; [by apply H2, Hfo|].
  unfold columns, counted_columns. by rewrite E.
Qed.

End Size.

(** ** The whole run *)

Section Run.
Context `{HM : GateLevel.MockturtleLaws} `{HC : ColorView} `{HCL : !ColorViewLaws}.
Context `{HN : Network Ntk} `{HG : !GateNetwork Ntk} (ntk : Ntk) `{HNL : !NetworkLaws ntk}.
Context (ctn : coloring_container) (fuel : nat) (phases : num_clks).
Context (Hfuel : (base.size (all_edges ntk) < fuel)%nat).
Context (Hctn : east_south_edge_coloring fuel ntk = Some ctn).

(** Every gate has a fanin that is no constant, and one with several is a majority gate only if it
    has a constant, too. *)
Definition supported_gates : Prop :=
  ∀ g, g ∈ foreach_gate_reverse ntk →
    match container_nodes (fanins ntk g) with
    | [] => False
    | [_] => True
    | _ => majority_with_constant ntk g (constant_fanin (fanins ntk g))
    end.

(** The layout is representable, and its storage has indices for all nodes. *)
Definition fits_storage : Prop :=
  layout_width ntk ctn < 2 ^ 31 - 1 ∧ layout_height ntk ctn < 2 ^ 31 - 1 ∧
  2 + num_inputs ntk + Z.of_nat (length (foreach_node ntk)) *
    node_cost (layout_width ntk ctn) (layout_height ntk ctn) <= 2 ^ 32.

Lemma coloring_facts : gates_colored ntk (foreach_gate_reverse ntk) ctn.
Proof.
  destruct (coloring_gates_colored ntk fuel Hfuel) as (ctn' & E & Hg). by rewrite Hctn in E; simplify_eq.
Qed.

Lemma coloring_known n : ncolor ctn n = color_null ∨ valid_color ctn (ncolor ctn n).
Proof.
  destruct coloring_facts as [_ _ Hin Hout].
  destruct (decide (n ∈ foreach_gate_reverse ntk)) as [Hn|Hn]; [|left; by apply Hout].
  destruct (Hin n Hn) as [_ ->]. unfold gate_color, valid_color. repeat case_match; auto.
Qed.

(** A gate with a single fanin edge has the color of that edge. *)
Lemma single_gate_colored g u :
  g ∈ foreach_gate_reverse ntk → container_nodes (fanins ntk g) = [u] →
  valid_color ctn (ncolor ctn g).
Proof.
  intros Hg Hu. destruct coloring_facts as [Hcol _ Hin _]. destruct (Hin g Hg) as [Hp ->].
  rewrite container_nodes_fanins in Hu.
  assert (fanin_edges ntk g = [(u, g)]) as He by (by rewrite fanin_edges_spec, Hu).
  assert (painted ctn (u, g)) as Hpu by (apply Hp; rewrite He; by left).
  destruct (colored_edges _ _ Hcol (u, g) Hpu) as [_ Hv].
  unfold gate_color. rewrite He. simpl. rewrite !andb_true_r.
  destruct Hv as [Hv|Hv]; rewrite Hv, Z.eqb_refl; [by left|]. case_match; [by left|by right].
Qed.

Lemma supported_placeable n :
  supported_gates → n ∈ foreach_node ntk → is_constant ntk n = false → is_pi ntk n = false →
  placeable ntk ctn n.
Proof.
  intros Hsup Hn Hc Hp.
  assert (n ∈ foreach_gate_reverse ntk) as Hg by (by apply foreach_gate_reverse_gates).
  specialize (Hsup n Hg). unfold placeable.
  destruct (container_nodes (fanins ntk n)) as [|u [|? ?]] eqn:E; [done| |done].
  by apply (single_gate_colored n u).
Qed.

(** The state before the loop. *)
Lemma initial_state_ok :
  foreach_pi ntk ≠ [] → fits_storage →
  ∃ s pi2node, initial_state ntk ctn phases = Some (s, pi2node) ∧
    design_ok (layout_width ntk ctn) (layout_height ntk ctn) 1 0 s ∧
    GateLevel.clocked (lyt s) = Clocked.make Cartesian.make
      (UCoord 0 1 (layout_height ntk ctn) (layout_width ntk ctn))
      (twoddwave_clocking Cartesian.max_fanin_size phases) ∧
    num_nodes (lyt s) = 2 + num_inputs ntk ∧ inputs_of (lyt s) = seqZ 2 (num_inputs ntk) ∧
    GateLevel.num_pis (lyt s) = num_inputs ntk ∧ GateLevel.num_pos (lyt s) = 0 ∧
    ∀ n, n ∈ foreach_pi ntk → 2 <= map_at pi2node n < num_nodes (lyt s).
Proof.
  intros Hne (Hw & Hh & Hsz). pose proof coloring_facts as [Hcol _ _ _].
  pose proof (colored_ok _ _ Hcol) as Hok.
  assert (1 <= num_inputs ntk) as H1
    by (unfold num_inputs; destruct (foreach_pi ntk); [done|simpl; lia]).
  pose proof (total_nonneg (counted_columns ntk ctn) (foreach_node ntk)
    (λ m _, counted_columns_nonneg ntk ctn m)) as Hw0.
  pose proof (total_nonneg (counted_rows ntk ctn) (foreach_node ntk)
    (λ m _, counted_rows_nonneg ntk ctn m)) as Hh0.
  fold (layout_width ntk ctn) in Hw0.
  assert (0 <= layout_height ntk ctn) as Hh1 by (unfold layout_height; lia).
  assert (0 <= Z.of_nat (length (foreach_node ntk)) *
    node_cost (layout_width ntk ctn) (layout_height ntk ctn)) as Hcost
    by (apply Z.mul_nonneg_nonneg; [|unfold node_cost]; lia).
  unfold initial_state. rewrite (determine_layout_size_spec ntk ctn Hok coloring_known) by lia.
  set (cl := Clocked.make Cartesian.make _ _).
  destruct (make_spec cl "") as (l0 & -> & Hl0 & Hc0 & Ha0). cbn [mbind option_bind].
  pose proof (f_equal sp_outputs Ha0) as Ho. cbn in Ho.
  pose proof (f_equal sp_size Ha0) as Hn0. rewrite abstract_num_nodes in Hn0.
  change (num_nodes l0 = 2) in Hn0.
  destruct (reserve_input_nodes_spec ntk l0) as (l1 & m & E & Hl1 & Hc1 & Hn1 & Hi1 & Hp1 & Hq1 & _ & Hm);
    [done|exact Ho|done|rewrite Hn0; fold (num_inputs ntk); lia|].
  rewrite E. cbn [mbind option_bind]. eexists _, _. split; [done|].
  pose proof (f_equal sp_inputs Ha0) as Hi0. pose proof (f_equal sp_pis Ha0) as Hp0.
  pose proof (f_equal sp_pos Ha0) as Hq0. cbn in Hi0, Hp0, Hq0.
  cbn [lyt]. split_and!; [|congruence|by rewrite Hn1, Hn0|..].
  - split; cbn [lyt latest_pos node2pos]; [done| |done|lia|lia|].
    + unfold base. by rewrite Hc1, Hc0.
    + intros n. apply zero_within; lia.
  - rewrite Hi1, Hn0. unfold inputs_of. by rewrite Hi0.
  - rewrite Hp1. unfold GateLevel.num_pis. by rewrite Hp0.
  - rewrite Hq1. exact Hq0.
  - exact Hm.
Qed.

(** The state after the loop. *)
Lemma loop_ok s pi2node :
  supported_gates → fits_storage → num_inputs ntk >= 1 →
  design_ok (layout_width ntk ctn) (layout_height ntk ctn) 1 0 s →
  num_nodes (lyt s) = 2 + num_inputs ntk →
  (∀ n, n ∈ foreach_pi ntk → 2 <= map_at pi2node n < num_nodes (lyt s)) →
  ∃ s', place_nodes ntk ctn pi2node s (foreach_node ntk) = Some s' ∧
    builds (Z.of_nat (length (foreach_node ntk)) *
      node_cost (layout_width ntk ctn) (layout_height ntk ctn))
      (total (λ n, Z.b2z (drives_output ntk n)) (foreach_node ntk)) (lyt s) (lyt s') ∧
    design_ok (layout_width ntk ctn) (layout_height ntk ctn)
      (1 + total (columns ntk ctn) (foreach_node ntk)) (layout_height ntk ctn + 1) s'.
Proof.
  intros Hsup (Hw & Hh & Hsz) Hne Hs Hn Hpi. pose proof coloring_facts as [Hcol _ _ _].
  pose proof (colored_ok _ _ Hcol) as Hok.
  pose proof (ok_column _ _ _ _ _ Hs). pose proof (ok_row _ _ _ _ _ Hs).
  destruct (total_columns ntk ctn) as [Hcols _].
  rewrite <-(Z.add_0_l (layout_height ntk ctn + 1)), <-(total_rows ntk ctn).
  eapply (place_nodes_steps ntk (layout_width ntk ctn) (layout_height ntk ctn)); try done.
  - pose proof (total_nonneg (counted_columns ntk ctn) (foreach_node ntk)
      (λ m _, counted_columns_nonneg ntk ctn m)) as Hw0. fold (layout_width ntk ctn) in Hw0. lia.
  - pose proof (total_nonneg (counted_rows ntk ctn) (foreach_node ntk)
      (λ m _, counted_rows_nonneg ntk ctn m)) as Hh0. unfold layout_height in *. lia.
  - intros n Hn' Hp. apply Hpi. rewrite foreach_pi_nodes. by apply list_elem_of_filter.
  - intros n Hn'. by apply supported_placeable.
  - lia.
  - rewrite (total_rows ntk ctn). lia.
  - rewrite Hn. lia.
Qed.

(** C6: orthogonal physical design terminates without undefined behaviour on every acyclic network
    with inputs whose gates have one or two fanins besides constants, as long as the storage can
    index the nodes. The result is a well-formed layout of exactly the determined size, clocked by
    2DDWave, with the inputs of the network in their order and one output for each node that
    drives an output. *)
Theorem orthogonal_well_formed :
  foreach_pi ntk ≠ [] → supported_gates → fits_storage →
  ∃ l, run fuel ntk phases = Some l ∧ layout_wf l ∧
    GateLevel.clocked l = Clocked.make Cartesian.make
      (UCoord 0 1 (layout_height ntk ctn) (layout_width ntk ctn))
      (twoddwave_clocking Cartesian.max_fanin_size phases) ∧
    inputs_of l = seqZ 2 (num_inputs ntk) ∧ GateLevel.num_pis l = num_inputs ntk ∧
    GateLevel.num_pos l = total (λ n, Z.b2z (drives_output ntk n)) (foreach_node ntk).
Proof.
  intros Hne Hsup Hfits. unfold run. rewrite Hctn. cbn [mbind option_bind].
  destruct (initial_state_ok Hne Hfits) as (s0 & pi2node & -> & Hs0 & Hc0 & Hn0 & Hi0 & Hp0 & Hq0 & Hpi).
  cbn [mbind option_bind].
  assert (num_inputs ntk >= 1) as H1
    by (unfold num_inputs; destruct (foreach_pi ntk); [done|simpl; lia]).
  destruct (loop_ok s0 pi2node Hsup Hfits H1 Hs0 Hn0 Hpi) as (s & -> & Hb & Hs). cbn [mbind option_bind].
  destruct (restore_names_renames ntk (lyt s) (node2pos s)) as (l & -> & Hr); [apply Hs|].
  exists l. destruct Hb as [_ Hcb _ Hib Hpb Hqb], Hr as [Hrw Hrc Hra].
  split_and!; [done|by apply Hrw, Hs|congruence|..].
  - apply (f_equal sp_inputs) in Hra. unfold inputs_of in *. cbn in Hra. congruence.
  - apply (f_equal sp_pis) in Hra. unfold GateLevel.num_pis in *. cbn in Hra. congruence.
  - apply (f_equal sp_pos) in Hra. unfold GateLevel.num_pos in *. cbn in Hra. rewrite Hra, Hqb, Hq0. lia.
Qed.

End Run.
End Design.

(** ** Examples *)

Module DesignExamples.
Import Building Routing Painting Design.
Import Networks EdgeColoring Placement Orthogonal.
Import Netlists MapColors.

Abbreviation layout := (GateLevel.gate_level_layout Cartesian.cartesian_layout).

Definition designed (fuel : nat) (ntk : netlist) : layout :=
  default no_layout (run fuel ntk FOUR).

Definition container (fuel : nat) (ntk : netlist) : coloring_container :=
  default new_coloring_container (east_south_edge_coloring fuel ntk).

(** The half adder with names; the sum is the first output. *)
Definition named_half_adder : netlist :=
  Netlist 2 [(Buf, [2]); (Buf, [3]); (And, [4; 5]); (Xor, [4; 5])] [7; 6] ["a"; "b"] ["sum"; "carry"].

#[local] Instance named_half_adder_laws : NetworkLaws named_half_adder.
Proof. by apply netlist_laws. Qed.

Lemma named_half_adder_size : (base.size (all_edges named_half_adder) < 9)%nat.
Proof. vm_compute. lia. Qed.

Lemma named_half_adder_container :
  east_south_edge_coloring 9 named_half_adder = Some (container 9 named_half_adder).
Proof. vm_compute. reflexivity. Qed.

Lemma named_half_adder_supported : supported_gates named_half_adder.
Proof.
  intros g Hg. change (g ∈ [7; 6; 5; 4]) in Hg.
  repeat (apply elem_of_cons in Hg as [->|Hg]; [vm_compute; auto|]). by apply elem_of_nil in Hg.
Qed.

Lemma named_half_adder_fits : fits_storage named_half_adder (container 9 named_half_adder).
Proof. vm_compute. repeat split; discriminate. Qed.

Lemma orthogonal_well_formed_witness :
  ∃ l, run 9 named_half_adder FOUR = Some l ∧ layout_wf l ∧ GateLevel.num_pos l = 2.
Proof.
  destruct (orthogonal_well_formed named_half_adder (container 9 named_half_adder) 9 FOUR
    named_half_adder_size named_half_adder_container) as (l & E & Hl & _ & _ & _ & Hp).
  - discriminate.
  - exact named_half_adder_supported.
  - exact named_half_adder_fits.
  - exists l. split; [exact E|]. split; [exact Hl|]. rewrite Hp. vm_compute. reflexivity.
Defined.

(** outputs are created in the order of the nodes but named by the order of the network's
    outputs. In the half adder whose first output is the sum, the first output of the layout is
    fed, through a wire, by the AND gate, and is named after the sum. *)
Theorem orthogonal_permutes_outputs :
  get_output_name named_half_adder 0 = "sum" ∧ foreach_po named_half_adder = [7; 6] ∧
  has_kind named_half_adder 7 Xor = true ∧
  run 9 named_half_adder FOUR = Some (designed 9 named_half_adder) ∧
  GateLevel.po_at (designed 9 named_half_adder) 0 = Some (sig 5 3) ∧
  GateLevel.get_output_name (designed 9 named_half_adder) 0 = Some "sum" ∧
  contents (designed 9 named_half_adder) (tile 5 3) = Some (2, [sig 4 3]) ∧
  contents (designed 9 named_half_adder) (tile 4 3) = Some (2, [sig 3 3]) ∧
  contents (designed 9 named_half_adder) (tile 3 3) = Some (4, [sig 3 2; sig 2 3]).
Proof. vm_compute. repeat split. Qed.

(** A chain of two forks of the first input, of which the second also drives an output; the forks of
    the two inputs meet in an AND. *)
Definition forks : netlist :=
  Netlist 2 [(Buf, [2]); (Buf, [3]); (Buf, [4]); (Inv, [4]); (And, [6; 5]); (Inv, [5])] [6; 7; 8; 9]
    ["a"; "b"] ["f"; "r"; "g"; "m"].

(** The output of a node whose fanout is colored east is placed to the south, in a row that may
    be taken. In this properly colored network without any node of more than two fanouts, the
    outputs "f" and "g" are placed on the same tile: the later one replaces the earlier one, and the
    layout has three distinct outputs instead of four. *)
Theorem orthogonal_overwrites_output :
  valid_netlist forks = true ∧
  is_east_south_colored forks (color_ntk (container 13 forks)) = true ∧
  run 13 forks FOUR = Some (designed 13 forks) ∧
  GateLevel.outputs (GateLevel.strg (designed 13 forks)) = [sig 7 3; sig 7 5; sig 7 3; sig 7 6] ∧
  GateLevel.get_output_name (designed 13 forks) 0 = Some "g".
Proof. vm_compute. repeat split. Qed.

(** A gate with a constant among three inputs: the constant is passed on as the signal 0, which is
    that of tile (0, 0) and not of the constant. *)
Example constant_fanin_is_a_tile :
  let ntk := Netlist 2 [(Lut [false; true; true; false; true; false; false; true], [2; 3; 0])] [4] [] [] in
  constant_fanin (fanins ntk 4) = Some false ∧
  (r ← place_2 no_layout (tile 1 1) ntk 4 (sig 1 0) (sig 0 1) (constant_fanin (fanins ntk 4));
   snd <$> contents r.1 (tile 1 1)) = Some [sig 1 0; sig 0 1; sig 0 0] ∧
  sig 0 0 ≠ GateLevel.get_constant false.
Proof. vm_compute. repeat split. discriminate. Qed.

(** A network without inputs is placed on a layout of the greatest possible height. *)
Example no_inputs_wrap_around :
  Cartesian.dimension (base (designed 1 (Netlist 0 [] [] [] []))) = UCoord 0 1 (2 ^ 31 - 1) 0.
Proof. vm_compute. reflexivity. Qed.

(** A wire down the second column, which a wire along the second row has to cross. *)
Definition column_wire : layout :=
  built example_clocked "" [CreatePi "a" (tile 1 0); CreateBuf (sig 1 0) (tile 1 1); CreatePi "b" (tile 0 1)].

Lemma wires_connect_witness :
  ∃ l', wire_east column_wire (tile 0 1) (tile 3 1) =
      Some (l', to_uint64 (tile 2 1)) ∧
    chained l' (sig 0 1) [UCoord 0 1 1 1; tile 2 1].
Proof.
  destruct (wires_connect column_wire wire_east (tiles_east (tile 0 1) (tile 3 1)) (tile 0 1) (tile 3 1))
    as (l' & E & _ & Hch & _).
  - left. split; reflexivity.
  - apply built_spec. allowed_by_evaluation.
  - vm_compute. reflexivity.
  - by repeat split.
  - by repeat split.
  - vm_compute. discriminate.
  - exists l'. split; [exact E|exact Hch].
Defined.

End DesignExamples.
