(* ===== verification/OrthogonalPlacement.v ===== *)
(** * The positions of orthogonal physical design

    Where [orthogonal_impl::run] puts each node: the columns and rows that the nodes before it take
    determine the next free column and row, and the color of the node whether it goes to the next
    column, the next row, or both. The positions stay within the layout that
    [determine_layout_size] computes, and the columns and rows that are taken are exactly its own. *)

From S2P Require Import Prelude.
From S2P Require Import Coordinates.
From S2P Require Import CoordinateLayout.
From S2P Require Import CartesianLayout.
From S2P Require Import ClockingScheme.
From S2P Require Import ClockedLayout.
From S2P Require Import GateLevelLayout.
From S2P Require Import GateLevelInvariant.
From S2P Require Import MockturtleModel.
From S2P Require Import GateLevelProperties.
From S2P Require Import Networks.
From S2P Require Import PlacementUtils.
From S2P Require Import NetworkModel.
From S2P Require Import EdgeColoring.
From S2P Require Import EdgeColoringProperties.
From S2P Require Import Orthogonal.
From S2P Require Import LayoutBuilding.
From S2P Require Import OrthogonalProperties.
#[local] Open Scope Z_scope.
Import Offset.

Module Positions.
Import Building Names Routing Painting Design.
Import Networks EdgeColoring Placement Orthogonal.

Section Positions.
Context `{HM : GateLevel.MockturtleLaws} `{HC : ColorView}.
Context `{HN : Network Ntk} `{HG : !GateNetwork Ntk} (ntk : Ntk).

Abbreviation layout := (GateLevel.gate_level_layout Cartesian.cartesian_layout).
Implicit Types (l : layout) (t : ucoord_t).

(** ** Signals of placed gates *)

(** The kinds of gates that the functions [place] handle. *)
Definition recognized_1 (n : Z) : bool := is_inv ntk n || is_buf ntk n.
Definition recognized_2 (n : Z) : bool :=
  is_and ntk n || is_or ntk n || is_xor ntk n || is_nand ntk n || is_nor ntk n || is_maj ntk n ||
  is_function ntk n.

(** A gate of a known kind is on its tile; for another one the signal 0 is returned. *)
Definition lands (t : ucoord_t) (known : bool) (sg : Z) : Prop :=
  sg = to_uint64 t ∨ known = false ∧ sg = 0.

Lemma exec_lands op t known l l' sg :
  creates_gate op t → exec op l = Some (l', sg) → lands t known sg.
Proof. intros Hop E. left. by eapply creates_gate_signal. Qed.

Lemma place_1_lands l t n a l' sg :
  place_1 l t ntk n a = Some (l', sg) → lands t (recognized_1 n) sg.
Proof.
  unfold place_1, recognized_1. destruct (is_inv ntk n); [by apply (exec_lands (CreateNot a t))|].
  destruct (is_buf ntk n); [by apply (exec_lands (CreateBuf a t))|]. intros [= _ <-]. by right.
Qed.

Lemma place_2_lands l t n a b c l' sg :
  place_2 l t ntk n a b c = Some (l', sg) → lands t (recognized_2 n) sg.
Proof.
  unfold place_2, recognized_2.
  destruct (is_and ntk n); [by apply (exec_lands (CreateAnd a b t))|].
  destruct (is_or ntk n); [by apply (exec_lands (CreateOr a b t))|].
  destruct (is_xor ntk n); [by apply (exec_lands (CreateXor a b t))|].
  destruct (is_nand ntk n); [by apply (exec_lands (CreateNand a b t))|].
  destruct (is_nor ntk n); [by apply (exec_lands (CreateNor a b t))|].
  destruct (is_maj ntk n).
  { destruct c as [[]|]; [by apply (exec_lands (CreateOr a b t))|by apply (exec_lands (CreateAnd a b t))|done]. }
  destruct (is_function ntk n).
  { destruct c as [c|]; [by apply (exec_lands (CreateNode [a; b; Z.b2z c] (node_function ntk n) t))|].
    by apply (exec_lands (CreateNode [a; b] (node_function ntk n) t)). }
  intros [= _ <-]. by right.
Qed.

(** The target is to the east or to the south of the fanin. *)
Lemma connect_and_place_1_lands l t n pre_t l' sg :
  uz t = uz pre_t →
  uy t = uy pre_t ∧ ux pre_t < ux t ∨ ux t = ux pre_t ∧ uy pre_t < uy t →
  connect_and_place_1 l t ntk n pre_t = Some (l', sg) → lands t (recognized_1 n) sg.
Proof.
  intros Hz Hdir. unfold connect_and_place_1.
  assert (Cartesian.is_westwards_of (base l) t pre_t || Cartesian.is_northwards_of (base l) t pre_t = true) as Hb.
  { unfold Cartesian.is_westwards_of, Cartesian.is_northwards_of. rewrite !orb_true_iff, !andb_true_iff. lia. }
  destruct (Cartesian.is_westwards_of (base l) t pre_t).
  - destruct (wire_east l pre_t t) as [[l1 a]|]; [|done]. apply place_1_lands.
  - cbn [orb] in Hb. rewrite Hb. destruct (wire_south l pre_t t) as [[l1 a]|]; [|done]. apply place_1_lands.
Qed.

Lemma connect_and_place_2_lands l t n p q c l' sg :
  connect_and_place_2 l t ntk n p q c = Some (l', sg) → lands t (recognized_2 n) sg.
Proof.
  unfold connect_and_place_2. destruct (if ltb q p then _ else _) as [p' q'].
  destruct (wire_south l p' t) as [[l1 a]|]; [|done]. cbn [mbind option_bind].
  destruct (wire_east l1 q' t) as [[l2 b]|]; [|done]. apply place_2_lands.
Qed.

(** ** Single nodes *)

(** A gate of a kind that is placed. *)
Definition recognized (n : Z) : bool :=
  is_pi ntk n ||
  match container_nodes (fanins ntk n) with [_] => recognized_1 n | _ => recognized_2 n end.

(** The tile of a node: [pos] has the tiles of its fanins, [x] is the next free column and [y] the next
    free row. An input goes to the first column, or to the next one if its fanout is colored south. A
    gate goes to the next column in the row of its fanin (the lower of two rows) if it is colored east, to
    the next row in the column of its fanin (the eastern one of two) if it is colored south, and to the
    next column and row if it has no color. *)
Definition spot (ctn : coloring_container) (pos : Z → ucoord_t) (n x y : Z) : ucoord_t :=
  let clr := node_color (color_ntk ctn) n in
  if is_pi ntk n then ucoord2 (if input_goes_south ntk ctn n then x else 0) y
  else
    match container_nodes (fanins ntk n) with
    | [u] => if clr =? color_east ctn then ucoord2 x (uy (pos u)) else ucoord2 (ux (pos u)) y
    | u :: v :: _ =>
        if clr =? color_east ctn then ucoord2 x (Z.max (uy (pos u)) (uy (pos v)))
        else if clr =? color_south ctn then ucoord2 (Z.max (ux (pos u)) (ux (pos v))) y
        else ucoord2 x y
    | [] => ucoord2 0 0
    end.

Section Bounds.
Context (width height : Z) (Hwidth : 0 <= width < 2 ^ 31 - 1) (Hheight : 0 <= height < 2 ^ 31 - 1).
Context (ctn : coloring_container) (Hok : container_ok ctn).

Abbreviation design_ok := (design_ok width height).

(** Placed nodes are in the ground layer, before the next free column and row. *)
Definition before (x y : Z) (t : ucoord_t) : Prop := ux t < x ∧ uy t < Z.max 1 y ∧ uz t = 0.
Definition positions_before (x y : Z) (s : design_state) : Prop := ∀ n, before x y (position s n).

Lemma spot_ground pos n x y : uz (spot ctn pos n x y) = 0 ∧ wf (spot ctn pos n x y).
Proof.
  assert (∀ x y, uz (ucoord2 x y) = 0 ∧ wf (ucoord2 x y)) as H2
    by (intros; split; [done|by repeat split; try apply wrap_width]).
  unfold spot. repeat case_match; apply H2.
Qed.

Lemma ucoord2_at x y : 0 <= x <= width + 1 → 0 <= y <= height + 1 → ucoord2 x y = UCoord 0 0 y x.
Proof. intros Hx Hy. unfold ucoord2. by rewrite !wrap_small by (unfold in_width; lia). Qed.

Lemma coordinates_small x y :
  0 <= x <= width + 1 → 0 <= y <= height + 1 → ux (ucoord2 x y) = x ∧ uy (ucoord2 x y) = y.
Proof. intros Hx Hy. by rewrite ucoord2_at. Qed.

(** The node of a step is put on its spot. *)
Definition puts (s s' : design_state) (n x y : Z) : Prop :=
  ∃ sg, node2pos s' = <[n := sg]> (node2pos s) ∧ lands (spot ctn (position s) n x y) (recognized n) sg.

Lemma place_input_puts pi2node x y s s' n :
  design_ok x y s → is_pi ntk n = true → 2 <= map_at pi2node n < num_nodes (lyt s) → y <= height →
  place_input ntk ctn pi2node s n = Some s' → puts s s' n x y.
Proof.
  intros Hs Hpi Hn Hy. unfold place_input. pose proof (ok_row _ _ _ _ _ Hs). pose proof (ok_column _ _ _ _ _ Hs).
  rewrite (ok_latest _ _ _ _ _ Hs). cbn [uy].
  destruct (move_node_builds (lyt s) (map_at pi2node n) (ucoord2 0 y)) as (l & -> & _);
    [apply Hs|by repeat split; try apply wrap_width|done|done|]. cbn [mbind option_bind lyt placed].
  change (match foreach_fanout ntk n with [] => false | fon :: _ => _ end) with (input_goes_south ntk ctn n).
  unfold puts, spot, recognized. rewrite Hpi. destruct (input_goes_south ntk ctn n).
  - destruct (wire_east _ _ _) as [[l1 a]|]; [|done]. cbn [mbind option_bind].
    destruct (GateLevel.create_buf l1 a _) as [[l2 sg]|] eqn:E; [|done]. intros [= <-].
    exists sg. cbn [node2pos placed snd]. rewrite insert_insert_eq. split; [done|].
    rewrite ucoord2_at by lia. by apply (exec_lands (CreateBuf a (UCoord 0 0 y x)) _ _ l1 l2).
  - intros [= <-]. eexists. split; [done|]. by left.
Qed.

Lemma place_single_puts x y s s' n u :
  design_ok x y s → positions_before x y s → 1 <= y → is_pi ntk n = false →
  container_nodes (fanins ntk n) = [u] → valid_color ctn (node_color (color_ntk ctn) n) →
  x + gate_columns ctn n <= width + 1 → y + gate_rows ctn n <= height + 1 →
  place_single ntk ctn s n u = Some s' → puts s s' n x y.
Proof.
  intros Hs Hb Hy Hpi Hu Hv Hx' Hy'. destruct (valid_color_counts ctn n Hok Hv) as [Ec Er]. rewrite Ec, Er in *.
  unfold place_single, puts, spot, recognized. rewrite Hpi, Hu, (ok_latest _ _ _ _ _ Hs). cbn [ux uy orb].
  pose proof (ok_row _ _ _ _ _ Hs). pose proof (ok_column _ _ _ _ _ Hs).
  pose proof (within_bounds _ _ _ (ok_positions _ _ _ _ _ Hs u : within _ _ (position s u))) as Hw.
  destruct (Hb u) as (Hbx & Hby & Hbz). destruct (node_color (color_ntk ctn) n =? color_east ctn) eqn:Ee.
  - destruct (coordinates_small x (uy (position s u))) as [E1 E2]; [lia..|].
    destruct (connect_and_place_1 _ _ _ _ _) as [[l sg]|] eqn:E; [|done]. intros [= <-].
    exists sg. split; [done|]. eapply connect_and_place_1_lands; [| |exact E]; [done|]. left. lia.
  - destruct Hv as [Hv|Hv]; [lia|]. rewrite Hv, Z.eqb_refl. cbn [Z.b2z negb] in *.
    destruct (coordinates_small (ux (position s u)) y) as [E1 E2]; [lia..|].
    destruct (connect_and_place_1 _ _ _ _ _) as [[l sg]|] eqn:E; [|done]. intros [= <-].
    exists sg. split; [done|]. eapply connect_and_place_1_lands; [| |exact E]; [done|]. right. lia.
Qed.

Lemma place_double_puts x y s s' n u v us c :
  design_ok x y s → is_pi ntk n = false → container_nodes (fanins ntk n) = u :: v :: us →
  place_double ntk ctn s n u v c = Some s' → puts s s' n x y.
Proof.
  intros Hs Hpi Hu. unfold place_double, puts, spot, recognized. rewrite Hpi, Hu, (ok_latest _ _ _ _ _ Hs).
  pose proof (ok_row _ _ _ _ _ Hs). pose proof (ok_column _ _ _ _ _ Hs). cbn [ux uy orb].
  destruct (node_color (color_ntk ctn) n =? color_east ctn).
  { destruct (if uy (position s v) <? uy (position s u) then _ else _) as [p q] eqn:Epq.
    assert (uy q = Z.max (uy (position s u)) (uy (position s v))) as ->
      by (case_match; zbool; simplify_eq; lia).
    destruct (wire_east _ _ _) as [[l1 a]|]; [|done]. cbn [mbind option_bind].
    destruct (connect_and_place_2 _ _ _ _ _ _ _) as [[l sg]|] eqn:E; [|done]. intros [= <-].
    exists sg. split; [done|]. by eapply connect_and_place_2_lands. }
  destruct (node_color (color_ntk ctn) n =? color_south ctn).
  { destruct (if ux (position s u) <? ux (position s v) then _ else _) as [p q] eqn:Epq.
    assert (ux p = Z.max (ux (position s u)) (ux (position s v))) as ->
      by (case_match; zbool; simplify_eq; lia).
    destruct (wire_south _ _ _) as [[l1 a]|]; [|done]. cbn [mbind option_bind].
    destruct (connect_and_place_2 _ _ _ _ _ _ _) as [[l sg]|] eqn:E; [|done]. intros [= <-].
    exists sg. split; [done|]. by eapply connect_and_place_2_lands. }
  destruct (if negb _ || negb _ then _ else _) as [p q].
  destruct (wire_east _ _ _) as [[l1 a]|]; [|done]. cbn [mbind option_bind].
  destruct (wire_south _ _ _) as [[l2 b]|]; [|done]. cbn [mbind option_bind].
  destruct (connect_and_place_2 _ _ _ _ _ _ _) as [[l sg]|] eqn:E; [|done]. intros [= <-].
  exists sg. split; [done|]. rewrite ucoord2_at by lia. by eapply connect_and_place_2_lands.
Qed.

Lemma place_output_positions s s' n : place_output ntk ctn s n = Some s' → node2pos s' = node2pos s.
Proof.
  unfold place_output. destruct (if is_eastern_po_orientation_available _ _ _ then _ else _) as [po p].
  destruct (if Cartesian.is_at_eastern_border _ _ then _ else _) as [l|]; [|done]. by intros [= <-].
Qed.

(** A step for a node that is not a constant. *)
Lemma place_node_puts pi2node x y s s' n :
  design_ok x y s → positions_before x y s → is_constant ntk n = false →
  (is_pi ntk n = true → 2 <= map_at pi2node n < num_nodes (lyt s)) →
  (is_pi ntk n = false → placeable ntk ctn n ∧ 1 <= y) →
  x + columns ntk ctn n <= width + 1 → y + rows ntk ctn n <= height + 1 →
  place_node ntk ctn pi2node s n = Some s' → puts s s' n x y.
Proof.
  intros Hs Hb Hc Hpi Hgate Hx Hy. unfold place_node, columns, rows in *. rewrite Hc in *.
  match goal with |- mbind _ ?r = _ → _ => destruct r as [s1|] eqn:E1 end; [|done].
  cbn [mbind option_bind].
  assert (puts s s1 n x y) as Hp.
  { pose proof (gate_columns_bounds ctn n). pose proof (gate_rows_bounds ctn n).
    assert (∀ b, 0 <= (if is_po ntk n then Z.b2z b else 0)) as Hout by (intros []; destruct (is_po ntk n); simpl; lia).
    pose proof (Hout (is_eastern_po_orientation_available ntk ctn n)).
    pose proof (Hout (negb (is_eastern_po_orientation_available ntk ctn n))).
    destruct (is_pi ntk n) eqn:Ep.
    - eapply place_input_puts; [exact Hs|done|by apply Hpi|lia|exact E1].
    - destruct (Hgate eq_refl) as [Hg Hy1]. unfold placeable in Hg.
      destruct (container_nodes (fanins ntk n)) as [|u [|v us]] eqn:Eu; [done| |].
      + eapply place_single_puts; [exact Hs|done|done|done|exact Eu|done|lia|lia|exact E1].
      + eapply place_double_puts; [exact Hs|done|exact Eu|exact E1]. }
  destruct (is_po ntk n); [|by intros [= <-]].
  intros E2%place_output_positions. destruct Hp as (sg & Hsg & Hl). exists sg. by rewrite E2.
Qed.

(** The spot is before the columns and rows that are free after the step. *)
Lemma spot_before x y s n :
  design_ok x y s → positions_before x y s →
  is_constant ntk n = false → (is_pi ntk n = false → placeable ntk ctn n ∧ 1 <= y) → 1 <= x →
  x + columns ntk ctn n <= width + 1 → y + rows ntk ctn n <= height + 1 →
  before (x + columns ntk ctn n) (y + rows ntk ctn n) (spot ctn (position s) n x y).
Proof.
  intros Hs Hb Hc Hgate H1x. unfold columns, rows. rewrite Hc.
  pose proof (ok_row _ _ _ _ _ Hs). pose proof (ok_column _ _ _ _ _ Hs).
  assert (∀ b, 0 <= (if is_po ntk n then Z.b2z b else 0)) as Hout by (intros []; destruct (is_po ntk n); simpl; lia).
  pose proof (Hout (is_eastern_po_orientation_available ntk ctn n)) as Ho1.
  pose proof (Hout (negb (is_eastern_po_orientation_available ntk ctn n))) as Ho2.
  set (o1 := if is_po ntk n then _ else _) in *. set (o2 := if is_po ntk n then _ else _) in *.
  assert (∀ u, 0 <= ux (position s u) <= width ∧ 0 <= uy (position s u) <= height) as Hw
    by (intros u; apply within_bounds, (ok_positions _ _ _ _ _ Hs u)).
  pose proof (λ u, Hb u) as Hb'. unfold before, spot in *.
  destruct (is_pi ntk n) eqn:Ep.
  { intros Hx Hy. destruct (input_goes_south ntk ctn n); cbn [Z.b2z] in *.
    - destruct (coordinates_small x y) as [-> ->]; [lia..|]. split_and!; [lia|lia|done].
    - destruct (coordinates_small 0 y) as [-> ->]; [lia..|]. split_and!; [lia|lia|done]. }
  destruct (Hgate eq_refl) as [Hg Hy1]. unfold placeable, gate_columns, gate_rows in *.
  destruct Hok as [_ _ Hne].
  destruct (container_nodes (fanins ntk n)) as [|u [|v us]]; [done| |]; intros Hx Hy.
  - pose proof (Hw u). destruct (Hb' u) as (? & ? & ?). destruct Hg as [Hg|Hg]; rewrite Hg, ?Z.eqb_refl in *.
    + replace (color_east ctn =? color_south ctn) with false in * by lia.
      destruct (coordinates_small x (uy (position s u))) as [-> ->]; [lia..|]. split_and!; [lia|lia|done].
    + replace (color_south ctn =? color_east ctn) with false in * by lia.
      destruct (coordinates_small (ux (position s u)) y) as [-> ->]; [lia..|]. split_and!; [lia|lia|done].
  - pose proof (Hw u). destruct (Hb' u) as (? & ? & ?). pose proof (Hw v). destruct (Hb' v) as (? & ? & ?).
    destruct (node_color (color_ntk ctn) n =? color_east ctn) eqn:Ee.
    + replace (node_color (color_ntk ctn) n =? color_south ctn) with false in * by lia.
      destruct (coordinates_small x (Z.max (uy (position s u)) (uy (position s v)))) as [-> ->]; [lia..|].
      split_and!; [lia|lia|done].
    + destruct (node_color (color_ntk ctn) n =? color_south ctn).
      * destruct (coordinates_small (Z.max (ux (position s u)) (ux (position s v))) y) as [-> ->]; [lia..|].
        split_and!; [lia|lia|done].
      * destruct (coordinates_small x y) as [-> ->]; [lia..|]. split_and!; [lia|lia|done].
Qed.

(** ** The loop *)

Context `{HNL : !NetworkLaws ntk} (Hnd : NoDup (foreach_node ntk)).
(** Each gate has a fanin that is not a constant. *)
Context (Hfanin : ∀ n, n ∈ foreach_node ntk → is_constant ntk n = false → is_pi ntk n = false →
  placeable ntk ctn n).

Lemma proper_fanin ns n ns' u :
  foreach_node ntk = ns ++ n :: ns' → u ∈ container_nodes (fanins ntk n) →
  u ∈ ns ∧ is_constant ntk u = false.
Proof.
  intros E. rewrite container_nodes_fanins. unfold proper_fanins.
  intros [Hc Hu]%list_elem_of_filter. split; [|done]. by apply (foreach_node_topological ns n ns').
Qed.

(** An input comes before each gate, so that the first row is taken. *)
Lemma input_before k : ∀ ns n ns',
  (length ns <= k)%nat → foreach_node ntk = ns ++ n :: ns' →
  is_constant ntk n = false → is_pi ntk n = false → ∃ p, p ∈ ns ∧ is_pi ntk p = true.
Proof.
  induction k as [|k IH]; intros ns n ns' Hk E Hc Hp;
    (assert (n ∈ foreach_node ntk) as Hn by (rewrite E; set_solver));
    specialize (Hfanin n Hn Hc Hp); unfold placeable in Hfanin;
    (destruct (container_nodes (fanins ntk n)) as [|u us] eqn:Eu; [done|]);
    (destruct (proper_fanin ns n ns' u E) as [Hu Huc]; [rewrite Eu; by left|]).
  - destruct ns; [by apply not_elem_of_nil in Hu|simpl in Hk; lia].
  - destruct (is_pi ntk u) eqn:Eup; [by exists u|].
    apply list_elem_of_split in Hu as (ns1 & ns2 & ->).
    destruct (IH ns1 u (ns2 ++ n :: ns')) as (p & Hp1 & Hp2); [|by rewrite E, <-app_assoc|done|done|].
    + rewrite length_app in Hk. simpl in Hk. lia.
    + exists p. split; [|done]. apply elem_of_app. by left.
Qed.

Lemma total_app g ns ns' : total g (ns ++ ns') = total g ns + total g ns'.
Proof. induction ns as [|n ns IH]; [done|]. cbn [total foldr app] in *. unfold total in *. lia. Qed.

Lemma total_elem g ns n : (∀ m, 0 <= g m) → n ∈ ns → g n <= total g ns.
Proof.
  intros Hg (ns1 & ns2 & ->)%list_elem_of_split. rewrite total_app.
  pose proof (total_nonneg g ns1 (λ m _, Hg m)). pose proof (total_nonneg g ns2 (λ m _, Hg m)).
  cbn [total foldr]. unfold total in *. lia.
Qed.

Lemma row_before_gate ns n ns' :
  foreach_node ntk = ns ++ n :: ns' → is_constant ntk n = false → is_pi ntk n = false →
  1 <= total (rows ntk ctn) ns.
Proof.
  intros E Hc Hp. destruct (input_before (length ns) ns n ns') as (p & Hin & Hpi); [done..|].
  pose proof (total_elem (rows ntk ctn) ns p (rows_nonneg ntk ctn) Hin) as Ht.
  unfold rows in Ht at 1. rewrite (pi_not_constant p Hpi), Hpi in Ht.
  destruct (is_po ntk p), (is_eastern_po_orientation_available ntk ctn p); simpl in Ht; lia.
Qed.

Lemma place_nodes_none pi2node ns :
  foldl (λ s n, s ← s; place_node ntk ctn pi2node s n) None ns = None.
Proof. by induction ns. Qed.

Lemma puts_positions s s' n x y m :
  puts s s' n x y → m ≠ n → node2pos s' !! m = node2pos s !! m ∧ position s' m = position s m.
Proof.
  intros (sg & E & _) Hne. unfold position, map_at. rewrite E.
  by rewrite lookup_insert_ne.
Qed.

(** The next state: what is placed stays before the next free column and row. *)
Lemma puts_before s s' n x y :
  design_ok x y s → positions_before x y s → puts s s' n x y →
  is_constant ntk n = false → (is_pi ntk n = false → placeable ntk ctn n ∧ 1 <= y) → 1 <= x →
  x + columns ntk ctn n <= width + 1 → y + rows ntk ctn n <= height + 1 →
  positions_before (x + columns ntk ctn n) (y + rows ntk ctn n) s'.
Proof.
  intros Hs Hb Hp Hc Hgate H1 Hx Hy m.
  pose proof (columns_nonneg ntk ctn n). pose proof (rows_nonneg ntk ctn n).
  destruct (decide (m = n)) as [->|Hne].
  - destruct Hp as (sg & E & Hl). unfold position, map_at. rewrite E, lookup_insert_eq. simpl default.
    destruct Hl as [->|[_ ->]].
    + rewrite of_to_uint64 by apply spot_ground. by apply spot_before.
    + change (of_uint64 0) with (UCoord 0 0 0 0). unfold before. cbn [ux uy uz]. lia.
  - destruct (puts_positions s s' n x y m Hp Hne) as [_ ->]. destruct (Hb m) as (? & ? & ?).
    unfold before. split_and!; [lia|lia|done].
Qed.

(** The fanins of a node are placed before it, so that its spot does not change any more. *)
Lemma spot_stays ns n ns' pos pos' x y :
  foreach_node ntk = ns ++ n :: ns' → (∀ m, m ∈ ns → pos m = pos' m) →
  spot ctn pos n x y = spot ctn pos' n x y.
Proof.
  intros E Hpos. unfold spot.
  pose proof (λ u Hu, Hpos u (proj1 (proper_fanin ns n ns' u E Hu))) as Hu.
  destruct (container_nodes (fanins ntk n)) as [|u [|v us]]; [done| |].
  - by rewrite (Hu u) by (by left).
  - by rewrite (Hu u), (Hu v) by (set_solver).
Qed.

(** Where the loop over the remaining nodes [ns] puts them, and that it moves none of the others. *)
Lemma place_nodes_puts pi2node ns : ∀ past x y s s',
  foreach_node ntk = past ++ ns → y = total (rows ntk ctn) past → 1 <= x →
  design_ok x y s → positions_before x y s →
  (∀ n, n ∈ ns → is_pi ntk n = true → 2 <= map_at pi2node n < num_nodes (lyt s)) →
  x + total (columns ntk ctn) ns <= width + 1 → y + total (rows ntk ctn) ns <= height + 1 →
  num_nodes (lyt s) + Z.of_nat (length ns) * node_cost width height <= 2 ^ 32 →
  place_nodes ntk ctn pi2node s ns = Some s' →
  (∀ m, m ∉ ns → node2pos s' !! m = node2pos s !! m) ∧
  (∀ ns1 n ns2, ns = ns1 ++ n :: ns2 → is_constant ntk n = false → recognized n = true →
     node2pos s' !! n = Some (to_uint64 (spot ctn (position s') n
       (x + total (columns ntk ctn) ns1) (y + total (rows ntk ctn) ns1)))).
Proof.
  induction ns as [|n ns IH]; intros past x y s s' Hall Hyt H1 Hs Hb Hpi Hx Hy Hsz.
  { intros [= <-]. split; [done|]. by intros [|] ? ?. }
  unfold place_nodes. cbn [foldl mbind option_bind].
  destruct (place_node ntk ctn pi2node s n) as [s1|] eqn:E1; [|by rewrite place_nodes_none].
  intros E2. cbn [total foldr length] in Hx, Hy, Hsz.
  change (foldr _ 0 ns) with (total (columns ntk ctn) ns) in Hx.
  change (foldr _ 0 ns) with (total (rows ntk ctn) ns) in Hy.
  pose proof (columns_nonneg ntk ctn n). pose proof (rows_nonneg ntk ctn n).
  pose proof (total_nonneg (columns ntk ctn) ns (λ m _, columns_nonneg ntk ctn m)).
  pose proof (total_nonneg (rows ntk ctn) ns (λ m _, rows_nonneg ntk ctn m)).
  assert (0 <= node_cost width height) by (unfold node_cost; lia).
  assert (n ∈ foreach_node ntk) as Hn by (rewrite Hall; set_solver).
  assert (is_constant ntk n = false → is_pi ntk n = false → placeable ntk ctn n ∧ 1 <= y) as Hgate.
  { intros Hc Hp. split; [by apply Hfanin|]. rewrite Hyt. by apply (row_before_gate past n ns). }
  destruct (place_node_steps ntk width height Hwidth Hheight ctn pi2node x y s n Hs Hok)
    as (s1' & E1' & Hb1 & Hs1); [apply Hpi; by left|intros; by apply Hgate|lia|lia|nia|].
  rewrite E1 in E1'. injection E1' as <-. pose proof (builds_size _ _ _ _ Hb1).
  assert (positions_before (x + columns ntk ctn n) (y + rows ntk ctn n) s1 ∧
    (∀ m, m ≠ n → node2pos s1 !! m = node2pos s !! m ∧ position s1 m = position s m) ∧
    (is_constant ntk n = false → recognized n = true →
     node2pos s1 !! n = Some (to_uint64 (spot ctn (position s) n x y)))) as (Hb2 & Hother & Hthis).
  { destruct (is_constant ntk n) eqn:Ec.
    - unfold place_node in E1. rewrite Ec in E1. injection E1 as <-.
      unfold columns, rows. rewrite Ec, !Z.add_0_r. by split_and!.
    - assert (puts s s1 n x y) as Hp.
      { eapply place_node_puts; [exact Hs|done|done|intros; apply Hpi; [by left|done]|by intros; apply Hgate|lia|lia|exact E1]. }
      split_and!; [by eapply puts_before; eauto with lia|intros m Hm; by apply (puts_positions s s1 n x y)|].
      intros _ Hr. destruct Hp as (sg & -> & [->|[Hf _]]); [by rewrite lookup_insert_eq|congruence]. }
  assert (n ∉ past ∧ n ∉ ns) as [Hnp Hnn].
  { rewrite Hall in Hnd. apply NoDup_app in Hnd as (_ & Hd & [Hnn _]%NoDup_cons). split; [|done].
    intros Hin. apply (Hd n Hin). by left. }
  destruct (IH (past ++ [n]) (x + columns ntk ctn n) (y + rows ntk ctn n) s1 s') as [Hrest Hnext]; try done.
  - by rewrite <-app_assoc.
  - rewrite total_app. cbn [total foldr]. lia.
  - lia.
  - intros m Hm Hp. destruct (Hpi m ltac:(by right) Hp). lia.
  - lia.
  - lia.
  - nia.
  - assert (∀ m, m ∈ past → position s' m = position s m) as Hpast.
    { intros m Hm. assert (m ∉ ns) as Hmn.
      { rewrite Hall in Hnd. apply NoDup_app in Hnd as (_ & Hd & _). intros Hin. apply (Hd m Hm). by right. }
      unfold position, map_at. rewrite (Hrest m Hmn). apply (Hother m). by intros ->. }
    split.
    + intros m [Hne Hm]%not_elem_of_cons. rewrite (Hrest m Hm). by apply Hother.
    + intros [|a ns1] k ns2; cbn [app]; intros [= <- ->] Hc Hr.
      * cbn [total foldr]. rewrite !Z.add_0_r, (Hrest n Hnn), Hthis by done. do 2 f_equal.
        symmetry. by apply (spot_stays past n ns2).
      * rewrite (Hnext ns1 k ns2) by done. cbn [total foldr]. unfold total. by rewrite !Z.add_assoc.
Qed.

End Bounds.
End Positions.

(** C18: after the loop over the nodes, every node that is not a constant and is of a kind that [place]
    handles has an entry in [node2pos]: its [spot], in the next free column and row, where each node
    before it has taken the columns and rows that its kind and color call for ([columns], [rows]). All
    these tiles lie within the layout that [determine_layout_size] computes. The rows that are taken
    are exactly those of the layout, and so are the columns, behind the first one, if no input has more
    than one fanout; otherwise there are at most as many. *)
Theorem placement_fills_layout `{HM : GateLevel.MockturtleLaws} `{HC : ColorView} `{HCL : !ColorViewLaws}
    `{HN : Network Ntk} `{HG : !GateNetwork Ntk} (ntk : Ntk) `{HNL : !NetworkLaws ntk}
    (ctn : coloring_container) (fuel : nat) (phases : num_clks) :
  (base.size (all_edges ntk) < fuel)%nat → east_south_edge_coloring fuel ntk = Some ctn →
  NoDup (foreach_node ntk) → foreach_pi ntk ≠ [] → supported_gates ntk → fits_storage ntk ctn →
  ∃ s0 pi2node s, initial_state ntk ctn phases = Some (s0, pi2node) ∧
    place_nodes ntk ctn pi2node s0 (foreach_node ntk) = Some s ∧
    (let d := Cartesian.dimension (base (lyt s)) in
     d = determine_layout_size ntk ctn ∧
     (∀ ns n ns', foreach_node ntk = ns ++ n :: ns' → is_constant ntk n = false →
        recognized ntk n = true →
        let t := spot ntk ctn (position s) n
                   (1 + total (columns ntk ctn) ns) (total (rows ntk ctn) ns) in
        node2pos s !! n = Some (to_uint64 t) ∧ ux t <= ux d ∧ uy t <= uy d) ∧
     total (rows ntk ctn) (foreach_node ntk) = uy d + 1 ∧
     total (columns ntk ctn) (foreach_node ntk) <= ux d ∧
     ((∀ n, is_pi ntk n = true → (length (foreach_fanout ntk n) <= 1)%nat) →
      total (columns ntk ctn) (foreach_node ntk) = ux d) ∧
     latest_pos s = UCoord 0 0 (total (rows ntk ctn) (foreach_node ntk))
                      (1 + total (columns ntk ctn) (foreach_node ntk))).
Proof.
  intros Hfuel Hctn Hnd Hne Hsup Hfits. pose proof Hfits as (Hw & Hh & Hsz).
  destruct (initial_state_ok ntk ctn fuel phases Hfuel Hctn Hne Hfits)
    as (s0 & pi2node & E0 & Hs0 & _ & Hn0 & _ & _ & _ & Hpi).
  assert (num_inputs ntk >= 1) as H1
    by (unfold num_inputs; destruct (foreach_pi ntk); [done|simpl; lia]).
  destruct (loop_ok ntk ctn fuel Hfuel Hctn s0 pi2node Hsup Hfits H1 Hs0 Hn0 Hpi) as (s & E & _ & Hs).
  exists s0, pi2node, s. split_and!; [done|done|]. cbv zeta.
  pose proof (coloring_facts ntk ctn fuel Hfuel Hctn) as [Hcol _ _ _].
  pose proof (colored_ok _ _ Hcol) as Hok. destruct (total_columns ntk ctn) as [Hle Heq].
  pose proof (total_rows ntk ctn) as Hrows.
  pose proof (total_nonneg (counted_columns ntk ctn) (foreach_node ntk)
    (λ m _, counted_columns_nonneg ntk ctn m)) as Hw0.
  pose proof (total_nonneg (counted_rows ntk ctn) (foreach_node ntk)
    (λ m _, counted_rows_nonneg ntk ctn m)) as Hh0. fold (layout_width ntk ctn) in Hw0.
  assert (0 <= layout_height ntk ctn) as Hh1 by (unfold layout_height; lia).
  assert (0 <= Z.of_nat (length (foreach_node ntk)) *
    node_cost (layout_width ntk ctn) (layout_height ntk ctn)) as Hcost
    by (apply Z.mul_nonneg_nonneg; [|unfold node_cost]; lia).
  assert (positions_before 1 0 s0) as Hb0.
  { unfold initial_state in E0. destruct (GateLevel.make _ _) as [l|]; [|done].
    cbn [mbind option_bind] in E0. destruct (reserve_input_nodes l ntk) as [[l' m]|]; [|done].
    injection E0 as <- _. intros n. unfold position, map_at. cbn [node2pos]. rewrite lookup_empty.
    change (of_uint64 (default 0 None)) with (UCoord 0 0 0 0). unfold before. cbn [ux uy uz]. lia. }
  rewrite (ok_dimension _ _ _ _ _ Hs), (ok_latest _ _ _ _ _ Hs). cbn [ux uy]. rewrite <-Hrows.
  split_and!; [|intros ns n ns' Hall Hc Hr|lia|lia|exact Heq|done].
  - symmetry. apply determine_layout_size_spec; [done|by eapply coloring_known|lia..].
  - destruct (place_nodes_puts ntk (layout_width ntk ctn) (layout_height ntk ctn) (conj Hw0 Hw) (conj Hh1 Hh)
      ctn Hok Hnd (λ n Hn Hc Hp, supported_placeable ntk ctn fuel Hfuel Hctn n Hsup Hn Hc Hp)
      pi2node (foreach_node ntk) [] 1 0 s0 s) as [_ Hspot]; try done.
    + intros m Hm Hp. apply Hpi. rewrite foreach_pi_nodes. by apply list_elem_of_filter.
    + lia.
    + lia.
    + lia.
    + rewrite (Hspot ns n ns' Hall Hc Hr). split; [done|].
      pose proof (ok_positions _ _ _ _ _ Hs n) as Hin. unfold map_at in Hin.
      rewrite (Hspot ns n ns' Hall Hc Hr) in Hin. unfold signal_within in Hin. simpl default in Hin.
      rewrite of_to_uint64 in Hin by apply spot_ground. apply within_bounds in Hin.
      rewrite Z.add_0_l in Hin. cbn [ux uy] in Hin |- *. lia.
Qed.

End Positions.

(** ** An example *)

Module PositionExamples.
Import Building Routing Painting Design Positions DesignExamples.
Import Networks EdgeColoring Placement Orthogonal.
Import Netlists MapColors.

#[local] Existing Instance named_half_adder_laws.

Lemma placement_fills_layout_witness :
  total (rows named_half_adder (container 9 named_half_adder)) (foreach_node named_half_adder) = 5 ∧
  forallb (λ n, is_constant named_half_adder n || recognized named_half_adder n)
    (foreach_node named_half_adder) = true ∧
  ∃ s0 pi2node s, initial_state named_half_adder (container 9 named_half_adder) FOUR = Some (s0, pi2node) ∧
    place_nodes named_half_adder (container 9 named_half_adder) pi2node s0 (foreach_node named_half_adder)
      = Some s ∧
    ∀ ns n ns', foreach_node named_half_adder = ns ++ n :: ns' → is_constant named_half_adder n = false →
      recognized named_half_adder n = true →
      node2pos s !! n = Some (to_uint64 (spot named_half_adder (container 9 named_half_adder) (position s) n
        (1 + total (columns named_half_adder (container 9 named_half_adder)) ns)
        (total (rows named_half_adder (container 9 named_half_adder)) ns))).
Proof.
  split; [vm_compute; reflexivity|]. split; [vm_compute; reflexivity|].
  destruct (placement_fills_layout named_half_adder (container 9 named_half_adder) 9 FOUR
    named_half_adder_size named_half_adder_container) as (s0 & m & s & E0 & E & _ & Hspot & _).
  - apply (bool_decide_eq_true_1 _). vm_compute. reflexivity.
  - discriminate.
  - exact named_half_adder_supported.
  - exact named_half_adder_fits.
  - exists s0, m, s. split; [exact E0|]. split; [exact E|]. intros ns n ns' Hall Hc Hr.
    exact (proj1 (Hspot ns n ns' Hall Hc Hr)).
Defined.
End PositionExamples.
