(* ===== verification/TechnologyNetwork.v ===== *)
(** * Technology networks
      (include/fiction/networks/technology_network.hpp, sequential_technology_network.hpp)

    Module [Technology] has the class [technology_network]: a k-LUT network of mockturtle whose node
    creation is overridden, so that no two gates are shared and buffers are nodes. Module [Sequential]
    has the specialization of [mockturtle::sequential] for it. The storage has the members that the
    code reads and writes; what the classes inherit are the parameters of class [Klut], with the
    documented behaviour in class [KlutLaws]. *)

From S2P Require Import Prelude.
From S2P Require Import GateLevelLayout.
#[local] Open Scope Z_scope.

Module Technology.

Abbreviation node_data := GateLevel.node_data.
Abbreviation truth_table := GateLevel.truth_table.
Abbreviation truth_table_cache := GateLevel.truth_table_cache.

(** [mockturtle::klut_storage]. Signals are nodes; nodes 0 and 1 are the constants. *)
Record network `{GateLevel.Mockturtle} := Network {
  nodes : list node_data;
  inputs : list Z;
  outputs : list Z;
  cache : truth_table_cache;
}.
Arguments Network {_} _ _ _ _.

Definition set_nodes `{GateLevel.Mockturtle} (v : list node_data) (s : network) : network :=
  Network v (inputs s) (outputs s) (cache s).
Definition set_outputs `{GateLevel.Mockturtle} (v : list Z) (s : network) : network :=
  Network (nodes s) (inputs s) v (cache s).
Definition set_cache `{GateLevel.Mockturtle} (c : truth_table_cache) (s : network) : network :=
  Network (nodes s) (inputs s) (outputs s) c.

(** What is inherited from [mockturtle::klut_network], the views of a network, and what the laws need
    of truth tables and their cache. *)
Class Klut `{GateLevel.Mockturtle} := {
  klut_new : network;
  create_pi : network → network * Z;
  create_po : network → Z → network;
  is_pi : network → Z → bool;
  is_constant : network → Z → bool;
  constant_value : Z → bool;
  get_constant : bool → Z;
  is_complemented : Z → bool;
  fanout_size : network → Z → Z;
  foreach_fanin : network → Z → list Z;
  foreach_node : network → list Z;
  foreach_gate : network → list Z;
  (** [foreach_gate] of [topo_view{ntk}], and [initialize_copy_network(ntk)]. *)
  topo_gates : network → list Z;
  (** [level] of [depth_view{ntk}]. *)
  level : network → Z → Z;
  initialize_copy_network : network → network * gmap Z Z;
  (** [tree_reduce], for a function with an effect on a network. *)
  tree_reduce : list Z → Z → (network → Z → Z → option (network * Z)) → network → option (network * Z);
  cache_size : truth_table_cache → Z;
  eval_table : truth_table → list bool → bool;
  buffer_table : truth_table;
}.

Section Technology.
Context `{MT : GateLevel.Mockturtle} `{K : !Klut}.
Implicit Types (s : network) (n : Z).

(** ** Construction *)

(** [add_additional_functions]: dot, and3, xor_and, or_and, onehot, gamble and and_xor. *)
Definition add_additional_functions s : network :=
  foldl (λ s word,
    set_cache (GateLevel.cache_insert (cache s) (GateLevel.truth_table_of_word word 3)).2 s)
    s [0x52; 0x80; 0x28; 0xa8; 0x16; 0x81; 0x6a].

Definition make : network := add_additional_functions klut_new.
Definition make_from_storage s : network := add_additional_functions s.

(** ** Inputs and outputs *)

Definition is_po s n : bool := existsb (Z.eqb n) (outputs s).

(** The position of the first element that is [x], or -1 as a [uint32_t]. *)
Fixpoint first_index (v : list Z) (x i : Z) : Z :=
  match v with
  | [] => wrap 32 (-1)
  | y :: v' => if y =? x then i else first_index v' x (i + 1)
  end.

Definition pi_index s n : Z := first_index (inputs s) n 0.
Definition po_index s n : Z := first_index (outputs s) n 0.

(** ** Creation of nodes *)

(** [_storage->nodes[n] = f(_storage->nodes[n])]. *)
Definition update_node s n (f : node_data → node_data) : option network :=
  v ← vec_update (nodes s) n f; Some (set_nodes v s).

Definition incr_ref s (c : Z) : option network :=
  update_node s c (GateLevel.set_fanout_word (λ w, wrap 32 (w + 1))).
Definition decr_ref s (c : Z) : option network :=
  update_node s c (GateLevel.set_fanout_word (λ w, wrap 32 (w - 1))).

Fixpoint for_each (f : network → Z → option network) s (cs : list Z) : option network :=
  match cs with
  | [] => Some s
  | c :: cs' => s ← f s c; for_each f s cs'
  end.

(** [_create_node]; the events are left out. *)
Definition create_node_from_literal s (cs : list Z) (literal : Z) : option (network * Z) :=
  let node := GateLevel.set_literal literal (GateLevel.set_children (λ v, v ++ cs) GateLevel.empty_node) in
  let index := Z.of_nat (length (nodes s)) in
  let s := set_nodes (nodes s ++ [node]) s in
  s ← for_each incr_ref s cs;
  s ← update_node s index (GateLevel.set_node_value (λ _, 0));
  Some (s, index).

Definition create_buf s (a : Z) := create_node_from_literal s [a] 2.
Definition create_not s (a : Z) : option (network * Z) :=
  if is_constant s a then Some (s, get_constant (negb (constant_value a)))
  else create_node_from_literal s [a] 3.
Definition create_and s (a b : Z) := create_node_from_literal s [a; b] 4.
Definition create_nand s (a b : Z) := create_node_from_literal s [a; b] 5.
Definition create_or s (a b : Z) := create_node_from_literal s [a; b] 6.
Definition create_nor s (a b : Z) := create_node_from_literal s [a; b] 7.
Definition create_lt s (a b : Z) := create_node_from_literal s [a; b] 8.
Definition create_le s (a b : Z) := create_node_from_literal s [a; b] 11.
Definition create_xor s (a b : Z) := create_node_from_literal s [a; b] 12.
Definition create_xnor s (a b : Z) := create_node_from_literal s [a; b] 13.
Definition create_maj s (a b c : Z) := create_node_from_literal s [a; b; c] 14.
Definition create_ite s (a b c : Z) := create_node_from_literal s [a; b; c] 16.
Definition create_xor3 s (a b c : Z) := create_node_from_literal s [a; b; c] 18.
Definition create_dot s (a b c : Z) := create_node_from_literal s [a; b; c] 20.

Definition create_nary_and s (fs : list Z) := tree_reduce fs (get_constant true) create_and s.
Definition create_nary_or s (fs : list Z) := tree_reduce fs (get_constant false) create_or s.
Definition create_nary_xor s (fs : list Z) := tree_reduce fs (get_constant false) create_xor s.

Definition create_node s (cs : list Z) (function : truth_table) : option (network * Z) :=
  match cs with
  | [] => Some (s, get_constant (negb (GateLevel.is_const0 function)))
  | _ =>
      let r := GateLevel.cache_insert (cache s) function in
      create_node_from_literal (set_cache r.2 s) cs r.1
  end.

Definition node_function s n : option truth_table :=
  d ← vec_at (nodes s) n; Some (GateLevel.cache_at (cache s) (GateLevel.literal d)).

Definition clone_node s (other : network) (source : Z) (cs : list Z) : option (network * Z) :=
  f ← node_function other source; create_node s cs f.

(** ** Kinds of nodes *)

Definition has_literal s n (k : Z) : option bool :=
  d ← vec_at (nodes s) n; Some (GateLevel.literal d =? k).

Definition is_buf s n : option bool := (λ b, b && negb (is_pi s n)) <$> has_literal s n 2.
Definition is_fanout s n : option bool :=
  b ← is_buf s n; Some (b && (1 <? fanout_size s n)).
Definition is_inv s n := has_literal s n 3.
Definition is_and s n := has_literal s n 4.
Definition is_nand s n := has_literal s n 5.
Definition is_or s n := has_literal s n 6.
Definition is_nor s n := has_literal s n 7.
Definition is_xor s n := has_literal s n 12.
Definition is_xnor s n := has_literal s n 13.
Definition is_maj s n := has_literal s n 14.
Definition is_ite s n := has_literal s n 16.
Definition is_xor3 s n := has_literal s n 18.
Definition is_dot s n := has_literal s n 20.
Definition is_and3 s n := has_literal s n 22.
Definition is_xor_and s n := has_literal s n 24.
Definition is_or_and s n := has_literal s n 26.
Definition is_onehot s n := has_literal s n 28.
Definition is_gamble s n := has_literal s n 31.
Definition is_and_xor s n := has_literal s n 32.

(** ** Structural manipulation *)

(** The functor of [substitute_po_signals] for the output [po] at [index]. *)
Definition substitute_po s (index : nat) (po : Z) : option network :=
  b ← is_buf s po;
  if (b : bool) then Some s
  else
    s ← decr_ref s po;
    '(s, b) ← create_buf s po;
    _ ← outputs s !! index;
    Some (set_outputs (<[index := b]> (outputs s)) s).

(** The iteration reads each output when it gets there. *)
Fixpoint substitute_pos s (indices : list nat) : option network :=
  match indices with
  | [] => Some s
  | i :: indices' => po ← outputs s !! i; s ← substitute_po s i po; substitute_pos s indices'
  end.

Definition substitute_po_signals s : option network :=
  substitute_pos s (seq 0 (length (outputs s))).
End Technology.
End Technology.

Module Sequential.

Import Technology.

Section Sequential.
Context `{MT : GateLevel.Mockturtle} `{K : !Klut}.

(** [sequential_information]; the counters have type [uint32_t]. *)
Record sequential_information := SequentialInformation {
  inf_num_pis : Z;
  inf_num_pos : Z;
  registers : list GateLevel.register_t;
}.

Record sequential := MakeSequential { ntk : network; inf : sequential_information }.
Implicit Types (q : sequential) (n i : Z).

Definition make : sequential := MakeSequential Technology.make (SequentialInformation 0 0 []).
Definition make_from_storage (s : network) : sequential :=
  MakeSequential (Technology.make_from_storage s) (SequentialInformation 0 0 []).

Definition create_pi q : sequential * Z :=
  let inf := inf q in
  let '(s, n) := Technology.create_pi (ntk q) in
  (MakeSequential s
    (SequentialInformation (wrap 32 (inf_num_pis inf + 1)) (inf_num_pos inf) (registers inf)), n).

Definition create_po q (f : Z) : sequential :=
  let inf := inf q in
  MakeSequential (Technology.create_po (ntk q) f)
    (SequentialInformation (inf_num_pis inf) (wrap 32 (inf_num_pos inf + 1)) (registers inf)).

Definition create_ro q : sequential * Z :=
  let inf := inf q in
  let '(s, n) := Technology.create_pi (ntk q) in
  (MakeSequential s
    (SequentialInformation (inf_num_pis inf) (inf_num_pos inf)
      (registers inf ++ [GateLevel.new_register])), n).

Definition create_ri q (f : Z) : sequential :=
  MakeSequential (Technology.create_po (ntk q) f) (inf q).

Definition num_pis q : Z := inf_num_pis (inf q).
Definition num_pos q : Z := inf_num_pos (inf q).
Definition num_cis q : Z := wrap 32 (Z.of_nat (length (inputs (ntk q)))).
Definition num_cos q : Z := wrap 32 (Z.of_nat (length (outputs (ntk q)))).
Definition num_registers q : Z := wrap 32 (Z.of_nat (length (inputs (ntk q))) - num_pis q).

Definition is_combinational q : bool := (num_cis q =? num_pis q) && (num_cos q =? num_pos q).

Definition found n (v : list Z) : bool := existsb (Z.eqb n) v.
Definition from (v : list Z) (first : Z) : option (list Z) := vec_range v first (Z.of_nat (length v)).

Definition is_ci q n : bool := found n (inputs (ntk q)).
Definition is_pi q n : option bool := found n <$> vec_range (inputs (ntk q)) 0 (num_pis q).
Definition is_ro q n : option bool := found n <$> from (inputs (ntk q)) (num_pis q).
Definition is_po q n : option bool := found n <$> vec_range (outputs (ntk q)) 0 (num_pos q).
Definition is_ri q n : option bool := found n <$> from (outputs (ntk q)) (num_pos q).

Definition foreach_ci q : list Z := inputs (ntk q).
Definition foreach_co q : list Z := outputs (ntk q).
Definition foreach_pi q : option (list Z) := vec_range (inputs (ntk q)) 0 (num_pis q).
Definition foreach_po q : option (list Z) := vec_range (outputs (ntk q)) 0 (num_pos q).
Definition foreach_ro q : option (list Z) := from (inputs (ntk q)) (num_pis q).
Definition foreach_ri q : option (list Z) := from (outputs (ntk q)) (num_pos q).
(** Pairs of register inputs and outputs, up to the end of the shorter range. *)
Definition foreach_register q : option (list (Z * Z)) :=
  ro ← foreach_ro q; ri ← foreach_ri q; Some (zip ri ro).

Definition pi_at q i : option Z := vec_at (inputs (ntk q)) i.
Definition po_at q i : option Z := vec_at (outputs (ntk q)) i.
Definition ci_at q i : option Z := vec_at (inputs (ntk q)) i.
Definition co_at q i : option Z := vec_at (outputs (ntk q)) i.
Definition ro_at q i : option Z := vec_at (inputs (ntk q)) (num_pis q + i).
Definition ri_at q i : option Z := vec_at (outputs (ntk q)) (num_pos q + i).

Definition ri_index q (sig : Z) : option Z := (λ v, first_index v sig 0) <$> foreach_ri q.
Definition ro_index q n : Z := wrap 32 (pi_index (ntk q) n - num_pis q).

(** The sums of an iterator and numbers of type [uint32_t]; each summand is added as it is. *)
Definition ri_to_ro q (sig : Z) : option Z :=
  k ← ri_index q sig; vec_at (inputs (ntk q)) (num_pis q + k).
Definition ro_to_ri q n : option Z :=
  vec_at (outputs (ntk q)) (num_pos q + ro_index q n - num_pis q).

Definition set_register q i (r : GateLevel.register_t) : option sequential :=
  v ← vec_update (registers (inf q)) i (λ _, r);
  Some (MakeSequential (ntk q) (SequentialInformation (num_pis q) (num_pos q) v)).
Definition register_at q i : option GateLevel.register_t := vec_at (registers (inf q)) i.
End Sequential.
End Sequential.
