(* ===== verification/TechnologyInvariant.v ===== *)
(** * Well-formed technology networks

    The documented behaviour of what [technology_network] inherits (class [KlutLaws]), the invariant
    [network_wf], the Boolean functions that a network computes ([simulate]), and what the creation of
    gates and outputs does to them. *)

From S2P Require Import Prelude.
From S2P Require Import GateLevelLayout.
From S2P Require Import TechnologyNetwork.
#[local] Open Scope Z_scope.
Import Technology.

(** The number of occurrences of [x] in a list. *)
Definition occurrences (x : Z) (v : list Z) : Z := Z.of_nat (length (filter (λ y, y = x) v)).

Lemma occurrences_app x v w : occurrences x (v ++ w) = occurrences x v + occurrences x w.
Proof. unfold occurrences. rewrite filter_app, length_app. lia. Qed.
Lemma occurrences_cons x y v : occurrences x (y :: v) = (if decide (y = x) then 1 else 0) + occurrences x v.
Proof. unfold occurrences. rewrite filter_cons. case_decide; simpl; lia. Qed.
Lemma occurrences_nonneg x v : 0 <= occurrences x v.
Proof. unfold occurrences. lia. Qed.
Lemma occurrences_not_elem x v : x ∉ v → occurrences x v = 0.
Proof.
  induction v as [|y v IH]; intros Hx; [done|]. rewrite occurrences_cons. apply not_elem_of_cons in Hx as [? ?].
  rewrite decide_False by done. by rewrite IH.
Qed.
Lemma occurrences_elem x v : x ∈ v → 1 <= occurrences x v.
Proof.
  intros (i & j & ->)%list_elem_of_split. rewrite occurrences_app, occurrences_cons, decide_True by done.
  pose proof (occurrences_nonneg x i). pose proof (occurrences_nonneg x j). lia.
Qed.
Lemma occurrences_NoDup x v : NoDup v → occurrences x v = if decide (x ∈ v) then 1 else 0.
Proof.
  induction 1 as [|y v Hy Hv IH]; [done|]. rewrite occurrences_cons, IH.
  repeat case_decide; subst; set_solver.
Qed.
Lemma occurrences_replicate x y k : occurrences x (replicate k y) = if decide (y = x) then Z.of_nat k else 0.
Proof.
  induction k as [|k IH]; simpl; [by case_decide|]. rewrite occurrences_cons, IH. case_decide; lia.
Qed.
Lemma occurrences_submseteq x v w : v ⊆+ w → occurrences x v <= occurrences x w.
Proof. intros Hv. unfold occurrences. apply Nat2Z.inj_le, submseteq_length. by apply submseteq_filter. Qed.

(** Looking up the truth tables that a cache holds finds them again. *)
Definition cache_ok `{Klut} (c : truth_table_cache) : Prop :=
  ∀ k, 0 <= k < cache_size c → GateLevel.cache_insert c (GateLevel.cache_at c (2 * k)) = (2 * k, c).

(** A literal is twice an index of the cache, plus 1 for the complement. *)
Definition valid_literal `{Klut} (c : truth_table_cache) (k : Z) : Prop := 0 <= k ∧ k / 2 < cache_size c.

Section Functions.
Context `{MT : GateLevel.Mockturtle} `{K : !Klut}.
Implicit Types (s : network) (n : Z) (ins : list bool).

Definition num_nodes s : Z := Z.of_nat (length (nodes s)).

Definition gate_node s n : Prop := 2 <= n < num_nodes s ∧ n ∉ inputs s.

(** The number of fanins and outputs that a node drives. *)
Definition uses s n : Z := occurrences n (outputs s ++ (seqZ 0 (num_nodes s) ≫= foreach_fanin s)).

(** *** The functions of a network *)

(** The value of a node, by the values of the inputs and of the nodes before it. *)
Definition node_value s ins (vs : list bool) (i : Z) : bool :=
  if is_constant s i then constant_value i
  else match list_find (λ n, n = i) (inputs s) with
       | Some (k, _) => nth k ins false
       | None =>
           match vec_at (nodes s) i with
           | Some d => eval_table (GateLevel.cache_at (cache s) (GateLevel.literal d))
                         ((λ c, nth (Z.to_nat c) vs false) <$> GateLevel.children d)
           | None => false
           end
       end.

Definition values_upto s ins (k : nat) : list bool :=
  foldl (λ vs i, vs ++ [node_value s ins vs i]) [] (seqZ 0 (Z.of_nat k)).

Definition value s ins n : bool := nth (Z.to_nat n) (values_upto s ins (length (nodes s))) false.

(** The values of the outputs. *)
Definition simulate s ins : list bool := value s ins <$> outputs s.
End Functions.

(** Nodes in the transitive fanin of an output. *)
Definition fanin_edge `{Klut} (s : network) (a b : Z) : Prop := b ∈ foreach_fanin s a.
Definition reachable `{Klut} (s : network) (n : Z) : Prop :=
  ∃ o, o ∈ outputs s ∧ rtc (fanin_edge s) o n.

(** The behaviour of mockturtle that the theorems rely on. *)
Class KlutLaws `{MT : GateLevel.Mockturtle} `{K : !Klut} := {
  (** A new network has the two constants. *)
  klut_new_constants :
    ∃ d0 d1, nodes klut_new = [d0; d1] ∧ GateLevel.fanout_word d0 = 0 ∧ GateLevel.fanout_word d1 = 0 ∧
      inputs klut_new = [] ∧ outputs klut_new = [] ∧
      cache_ok (cache klut_new) ∧ 1 < cache_size (cache klut_new) ∧
      GateLevel.cache_at (cache klut_new) 2 = buffer_table;
  klut_is_pi s n : is_pi s n = bool_decide (n ∈ inputs s);
  klut_is_constant s n : is_constant s n = bool_decide (n = 0 ∨ n = 1);
  klut_constant_value n : constant_value n = (n =? 1);
  klut_get_constant b : get_constant b = Z.b2z b;
  klut_is_complemented n : is_complemented n = false;
  klut_fanout_size s n d :
    vec_at (nodes s) n = Some d → fanout_size s n = wrap 31 (GateLevel.fanout_word d);
  klut_foreach_fanin s n d :
    vec_at (nodes s) n = Some d →
    foreach_fanin s n = if is_constant s n || is_pi s n then [] else GateLevel.children d;
  klut_foreach_node s : foreach_node s = seqZ 0 (num_nodes s);
  klut_foreach_gate s :
    foreach_gate s = filter (λ i, 2 <= i ∧ i ∉ inputs s) (seqZ 0 (num_nodes s));
  klut_create_pi s :
    ∃ d, create_pi s = (Network (nodes s ++ [d]) (inputs s ++ [num_nodes s]) (outputs s) (cache s),
                        num_nodes s) ∧ GateLevel.fanout_word d = 0;
  klut_create_po s o s' :
    incr_ref s o = Some s' → create_po s o = set_outputs (outputs s ++ [o]) s';
  (** A copy has the inputs, in the same order. *)
  klut_initialize_copy_network s :
    (initialize_copy_network s).1 = foldl (λ d _, (create_pi d).1) make (inputs s) ∧
    (∀ n, is_constant s n = true → (initialize_copy_network s).2 !! n = Some n) ∧
    (∀ i n, NoDup (inputs s) → inputs s !! i = Some n → 2 <= n →
       (initialize_copy_network s).2 !! n = Some (2 + Z.of_nat i)) ∧
    (∀ n, (initialize_copy_network s).2 !! n ≠ None → is_constant s n = true ∨ n ∈ inputs s);
  (** The topological order of a network in which the fanins of gates are nodes before them. *)
  topo_gates_nodes s g :
    (∀ i c, gate_node s i → c ∈ foreach_fanin s i → 0 <= c < i) → g ∈ topo_gates s → gate_node s g;
  topo_gates_NoDup s :
    (∀ i c, gate_node s i → c ∈ foreach_fanin s i → 0 <= c < i) → NoDup (topo_gates s);
  topo_gates_order s pre g post c :
    (∀ i c, gate_node s i → c ∈ foreach_fanin s i → 0 <= c < i) →
    topo_gates s = pre ++ g :: post → c ∈ foreach_fanin s g → gate_node s c → c ∈ pre;
  topo_gates_outputs s o :
    (∀ i c, gate_node s i → c ∈ foreach_fanin s i → 0 <= c < i) →
    o ∈ outputs s → gate_node s o → o ∈ topo_gates s;
  topo_gates_reachable s g :
    (∀ i c, gate_node s i → c ∈ foreach_fanin s i → 0 <= c < i) → g ∈ topo_gates s → reachable s g;
  (** The depth of the nodes from which the outputs are computed, where gates have unit cost. *)
  level_source s n : is_constant s n = true ∨ n ∈ inputs s → level s n = 0;
  level_gate s n :
    (∀ i c, gate_node s i → c ∈ foreach_fanin s i → 0 <= c < i) → gate_node s n → reachable s n →
    level s n = 1 + foldr Z.max 0 (level s <$> foreach_fanin s n);
  (** The cache of truth tables. *)
  cache_ok_insert c f : cache_ok c → cache_ok (GateLevel.cache_insert c f).2;
  cache_size_insert c f : cache_size c <= cache_size (GateLevel.cache_insert c f).2;
  cache_insert_literal c f :
    valid_literal (GateLevel.cache_insert c f).2 (GateLevel.cache_insert c f).1;
  cache_insert_keeps c f k :
    valid_literal c k → GateLevel.cache_at (GateLevel.cache_insert c f).2 k = GateLevel.cache_at c k;
  eval_buffer b : eval_table buffer_table [b] = b;
}.

(** ** The invariant *)

Section Invariant.
Context `{MT : GateLevel.Mockturtle} `{K : !Klut} `{ML : !GateLevel.MockturtleLaws} `{KL : !KlutLaws}.
Implicit Types (s : network) (n : Z) (ins : list bool).

Record network_wf s : Prop := {
  wf_constants : 2 <= num_nodes s;
  wf_inputs n : n ∈ inputs s → 2 <= n < num_nodes s;
  wf_inputs_NoDup : NoDup (inputs s);
  wf_fanins i c : 0 <= i < num_nodes s → c ∈ foreach_fanin s i → 0 <= c < i;
  wf_gates i : gate_node s i → foreach_fanin s i ≠ [];
  wf_outputs o : o ∈ outputs s → 0 <= o < num_nodes s;
  wf_uses n : 0 <= n < num_nodes s → fanout_size s n = wrap 31 (uses s n);
  wf_literals i d : vec_at (nodes s) i = Some d → gate_node s i →
    valid_literal (cache s) (GateLevel.literal d);
  wf_cache : cache_ok (cache s);
  wf_buffer : 1 < cache_size (cache s) ∧ GateLevel.cache_at (cache s) 2 = buffer_table;
}.

Lemma vec_at_range {A} (v : list A) i a : vec_at v i = Some a → 0 <= i < Z.of_nat (length v).
Proof. unfold vec_at. case_decide; [|done]. intros ?%lookup_lt_Some. lia. Qed.

Lemma vec_at_Some {A} (v : list A) i : 0 <= i < Z.of_nat (length v) → ∃ a, vec_at v i = Some a.
Proof.
  intros Hi. unfold vec_at. rewrite decide_True by lia. apply lookup_lt_is_Some_2. lia.
Qed.

(** Networks with the same structure up to reference counts, and further nodes. *)
Record extends s s' : Prop := {
  ext_nodes i d : vec_at (nodes s) i = Some d → ∃ d', vec_at (nodes s') i = Some d' ∧
    GateLevel.children d' = GateLevel.children d ∧ GateLevel.literal d' = GateLevel.literal d;
  ext_inputs : inputs s' = inputs s;
  ext_cache k : valid_literal (cache s) k →
    valid_literal (cache s') k ∧ GateLevel.cache_at (cache s') k = GateLevel.cache_at (cache s) k;
}.

#[export] Instance extends_preorder : PreOrder extends.
Proof.
  split.
  - intros s. split; eauto.
  - intros a b c [Hn Hi Hc] [Hn' Hi' Hc']. split.
    + intros i d (d1 & H1 & E1 & F1)%Hn. destruct (Hn' i d1 H1) as (d2 & ? & ? & ?).
      exists d2. split_and!; [done|congruence..].
    + congruence.
    + intros k [Hk Ek]%Hc. destruct (Hc' k Hk). split; [done|congruence].
Qed.

Lemma extends_num_nodes s s' : extends s s' → num_nodes s <= num_nodes s'.
Proof.
  intros He. unfold num_nodes. destruct (length (nodes s)) as [|k] eqn:E; [lia|].
  destruct (vec_at_Some (nodes s) (Z.of_nat k)) as [d Hd]; [lia|].
  apply (ext_nodes _ _ He) in Hd as (d' & Hd'%vec_at_range & _). lia.
Qed.

Lemma foreach_fanin_eq s n d :
  vec_at (nodes s) n = Some d →
  foreach_fanin s n =
    if decide (n = 0 ∨ n = 1 ∨ n ∈ inputs s) then [] else GateLevel.children d.
Proof.
  intros Hd. rewrite (klut_foreach_fanin s n d Hd), klut_is_constant, klut_is_pi.
  repeat (case_decide || case_bool_decide); simpl; try done; naive_solver.
Qed.

Lemma extends_fanin s s' n :
  extends s s' → 0 <= n < num_nodes s → foreach_fanin s' n = foreach_fanin s n.
Proof.
  intros He Hn. destruct (vec_at_Some (nodes s) n Hn) as [d Hd].
  destruct (ext_nodes _ _ He n d Hd) as (d' & Hd' & E & _).
  rewrite (foreach_fanin_eq s' n d'), (foreach_fanin_eq s n d), E, (ext_inputs _ _ He) by done. done.
Qed.

(** *** Values *)

Lemma values_upto_S s ins k :
  values_upto s ins (S k) = values_upto s ins k ++ [node_value s ins (values_upto s ins k) (Z.of_nat k)].
Proof.
  unfold values_upto. rewrite Nat2Z.inj_succ, <-Z.add_1_r, seqZ_app, foldl_app by lia. done.
Qed.

Lemma length_values_upto s ins k : length (values_upto s ins k) = k.
Proof. induction k as [|k IH]; [done|]. rewrite values_upto_S, length_app, IH. simpl. lia. Qed.

Lemma nth_values_upto s ins k j :
  (j < k)%nat → nth j (values_upto s ins k) false = nth j (values_upto s ins (S j)) false.
Proof.
  intros Hj. induction k as [|k IH]; [lia|]. destruct (decide (j = k)) as [->|]; [done|].
  rewrite values_upto_S, app_nth1 by (rewrite length_values_upto; lia). apply IH. lia.
Qed.

(** The value of a node in terms of those of its fanins. *)
Lemma value_node s ins n d :
  network_wf s → vec_at (nodes s) n = Some d →
  value s ins n =
    if decide (n = 0 ∨ n = 1) then n =? 1
    else match list_find (λ i, i = n) (inputs s) with
         | Some (k, _) => nth k ins false
         | None => eval_table (GateLevel.cache_at (cache s) (GateLevel.literal d))
                     (value s ins <$> foreach_fanin s n)
         end.
Proof.
  intros Hs Hd. pose proof (vec_at_range _ _ _ Hd) as Hn. unfold value.
  rewrite nth_values_upto, values_upto_S, app_nth2; rewrite ?length_values_upto; [|lia..].
  rewrite Nat.sub_diag. cbn [nth]. unfold node_value.
  rewrite Z2Nat.id, klut_is_constant, klut_constant_value by lia.
  case_bool_decide as Hc; [by rewrite decide_True by done|]. rewrite decide_False by done.
  destruct (list_find _ (inputs s)) as [[k i]|] eqn:Ef; [done|]. rewrite Hd. f_equal.
  assert (n ∉ inputs s) as Hni.
  { apply list_find_None in Ef. intros Hin. rewrite Forall_forall in Ef. by apply (Ef n). }
  rewrite (foreach_fanin_eq s n d), decide_False by naive_solver.
  apply list_fmap_ext. intros i c Hc'. rewrite (nth_values_upto _ _ (length (nodes s))).
  - rewrite (nth_values_upto _ _ (Z.to_nat n)); [done|].
    apply list_elem_of_lookup_2 in Hc'. assert (c ∈ foreach_fanin s n) as Hcf.
    { by rewrite (foreach_fanin_eq s n d), decide_False by naive_solver. }
    apply (wf_fanins _ Hs) in Hcf; [lia|done].
  - apply list_elem_of_lookup_2 in Hc'. assert (c ∈ foreach_fanin s n) as Hcf.
    { by rewrite (foreach_fanin_eq s n d), decide_False by naive_solver. }
    apply (wf_fanins _ Hs) in Hcf; [lia|done].
Qed.

Lemma list_find_inputs s n : n ∉ inputs s → list_find (λ i, i = n) (inputs s) = None.
Proof. intros Hn. apply list_find_None. rewrite Forall_forall. intros x Hx ->. done. Qed.

(** Values do not change when a network grows. *)
Lemma extends_value s s' ins n :
  network_wf s → network_wf s' → extends s s' → 0 <= n < num_nodes s → value s' ins n = value s ins n.
Proof.
  intros Hs Hs' He. revert n.
  enough (∀ k : nat, ∀ n, 0 <= n < Z.of_nat k → n < num_nodes s → value s' ins n = value s ins n) as Hk.
  { intros n Hn. apply (Hk (length (nodes s)) n); unfold num_nodes in *; lia. }
  induction k as [|k IH]; intros n Hn Hlt; [lia|].
  destruct (vec_at_Some (nodes s) n) as [d Hd]; [unfold num_nodes in *; lia|].
  destruct (ext_nodes _ _ He n d Hd) as (d' & Hd' & Ec & El).
  rewrite (value_node s' ins n d'), (value_node s ins n d), (ext_inputs _ _ He), El by done.
  case_decide as Hc; [done|].
  destruct (list_find _ (inputs s)) as [[j i]|] eqn:Ef; [done|].
  assert (gate_node s n) as Hg.
  { split; [lia|]. intros Hin. apply list_find_None in Ef. rewrite Forall_forall in Ef. by apply (Ef n). }
  destruct (ext_cache _ _ He (GateLevel.literal d)) as [_ ->]; [by eapply wf_literals|]. f_equal.
  rewrite (extends_fanin s s' n He) by lia. apply list_fmap_ext. intros i c Hcc%list_elem_of_lookup_2.
  apply (wf_fanins _ Hs) in Hcc; [|lia]. apply IH; lia.
Qed.
End Invariant.

(** ** Creation of nodes *)

Section Creation.
Context `{MT : GateLevel.Mockturtle} `{K : !Klut} `{ML : !GateLevel.MockturtleLaws} `{KL : !KlutLaws}.
Implicit Types (s : network) (n : Z) (ins : list bool) (cs : list Z).

Lemma vec_at_insert {A} (v : list A) i j (a b : A) :
  vec_at v i = Some a → vec_at (<[Z.to_nat i := b]> v) j = if decide (i = j) then Some b else vec_at v j.
Proof.
  intros Hi. pose proof (vec_at_range _ _ _ Hi). unfold vec_at. case_decide; case_decide; subst; try lia.
  - apply list_lookup_insert_eq. lia.
  - apply list_lookup_insert_ne. lia.
  - done.
Qed.

Lemma vec_at_snoc {A} (v : list A) i (a : A) :
  vec_at (v ++ [a]) i = if decide (i = Z.of_nat (length v)) then Some a else vec_at v i.
Proof.
  unfold vec_at. repeat case_decide; subst; try lia; [|..|done].
  - rewrite Nat2Z.id. by rewrite lookup_app_r, Nat.sub_diag by lia.
  - destruct (decide (Z.to_nat i < length v)%nat).
    + by rewrite lookup_app_l by lia.
    + rewrite lookup_app_r, (lookup_ge_None_2 v) by lia. apply lookup_ge_None_2. simpl. lia.
Qed.

(** Incrementing the reference counts of [cs]. *)
Record referenced s cs s' : Prop := {
  ref_num : num_nodes s' = num_nodes s;
  ref_rest : inputs s' = inputs s ∧ outputs s' = outputs s ∧ cache s' = cache s;
  ref_nodes i d : vec_at (nodes s) i = Some d → ∃ d', vec_at (nodes s') i = Some d' ∧
    GateLevel.children d' = GateLevel.children d ∧ GateLevel.literal d' = GateLevel.literal d ∧
    wrap 31 (GateLevel.fanout_word d') = wrap 31 (GateLevel.fanout_word d + occurrences i cs);
}.

Lemma wrap_31_32 w : wrap 31 (wrap 32 w) = wrap 31 w.
Proof.
  unfold wrap. rewrite (Z.mod_eq w (2 ^ 32)) by done. change (2 ^ 32) with (2 * 2 ^ 31).
  replace (w - 2 * 2 ^ 31 * (w / (2 * 2 ^ 31))) with (w + (- 2 * (w / (2 * 2 ^ 31))) * 2 ^ 31) by lia.
  by rewrite Z_mod_plus_full.
Qed.

Lemma wrap_31_add a b c : wrap 31 a = wrap 31 b → wrap 31 (a + c) = wrap 31 (b + c).
Proof. unfold wrap. intros E. by rewrite Zplus_mod, E, <-Zplus_mod. Qed.

Lemma incr_ref_some s c : 0 <= c < num_nodes s → ∃ s', incr_ref s c = Some s' ∧ referenced s [c] s'.
Proof.
  intros Hc. destruct (vec_at_Some (nodes s) c Hc) as [d Hd]. unfold incr_ref, update_node, vec_update.
  rewrite Hd. eexists. split; [done|]. split.
  - unfold num_nodes, set_nodes. cbn [nodes]. by rewrite length_insert.
  - done.
  - intros i di Hi. cbn [set_nodes nodes]. rewrite (vec_at_insert _ _ _ d) by done.
    rewrite occurrences_cons. change (occurrences i []) with 0. case_decide as E.
    + subst i. assert (di = d) as -> by congruence. eexists. split; [done|]. split_and!; [done..|].
      cbn [GateLevel.fanout_word GateLevel.set_fanout_word]. rewrite wrap_31_32. f_equal; lia.
    + exists di. split_and!; [done..|]. f_equal; lia.
Qed.

Lemma for_each_incr_ref cs s :
  Forall (λ c, 0 <= c < num_nodes s) cs → ∃ s', for_each incr_ref s cs = Some s' ∧ referenced s cs s'.
Proof.
  revert s. induction cs as [|c cs IH]; intros s Hcs.
  { exists s. split; [done|]. split; [done|done|]. intros i d Hd. exists d. split_and!; [done..|].
    change (occurrences i []) with 0. f_equal; lia. }
  apply Forall_cons in Hcs as [Hc Hcs]. simpl.
  destruct (incr_ref_some s c Hc) as (s1 & -> & [Hn1 (Hi1 & Ho1 & Hc1) Hr1]). cbn [mbind option_bind].
  destruct (IH s1) as (s2 & -> & [Hn2 (Hi2 & Ho2 & Hc2) Hr2]); [by rewrite Hn1|].
  exists s2. split; [done|]. split; [congruence|split_and!; congruence|].
  intros i d Hd. destruct (Hr1 i d Hd) as (d1 & Hd1 & E1 & F1 & G1).
  destruct (Hr2 i d1 Hd1) as (d2 & Hd2 & E2 & F2 & G2). exists d2. split_and!; [done|congruence..|].
  rewrite G2, (wrap_31_add _ _ _ G1), (occurrences_cons i c cs).
  rewrite occurrences_cons. change (occurrences i []) with 0. f_equal; lia.
Qed.

(** The result of adding a gate. *)
Record added s cs (lit : Z) s' : Prop := {
  added_wf : network_wf s';
  added_extends : extends s s';
  added_num : num_nodes s' = num_nodes s + 1;
  added_outputs : outputs s' = outputs s;
  added_fanin : foreach_fanin s' (num_nodes s) = cs;
  added_literal : has_literal s' (num_nodes s) lit = Some true;
  added_uses n : 0 <= n < num_nodes s' → uses s' n = uses s n + occurrences n cs;
}.

Lemma uses_fresh s n : network_wf s → num_nodes s <= n → uses s n = 0.
Proof.
  intros Hs Hn. unfold uses. apply occurrences_not_elem. rewrite elem_of_app, list_elem_of_bind.
  intros [Ho|(i & Hc & Hi%elem_of_seqZ)].
  - apply (wf_outputs _ Hs) in Ho. lia.
  - apply (wf_fanins _ Hs) in Hc; lia.
Qed.

Lemma uses_nonneg s n : 0 <= uses s n.
Proof. apply occurrences_nonneg. Qed.

Lemma bind_seqZ_ext (f g : Z → list Z) k :
  (∀ i, 0 <= i < k → f i = g i) → seqZ 0 k ≫= f = seqZ 0 k ≫= g.
Proof.
  intros Hfg.
  assert (∀ v, (∀ i, i ∈ v → f i = g i) → v ≫= f = v ≫= g) as Hv.
  { induction v as [|i v IH]; intros Hi; [done|]. rewrite !bind_cons, (Hi i), IH; set_solver. }
  apply Hv. intros i Hi%elem_of_seqZ. apply Hfg. lia.
Qed.

(** The network after [create_node_from_literal]. *)
Record appended s cs (lit : Z) s' : Prop := {
  app_num : num_nodes s' = num_nodes s + 1;
  app_rest : inputs s' = inputs s ∧ outputs s' = outputs s ∧ cache s' = cache s;
  app_new : ∃ d, vec_at (nodes s') (num_nodes s) = Some d ∧
    GateLevel.children d = cs ∧ GateLevel.literal d = lit ∧
    wrap 31 (GateLevel.fanout_word d) = wrap 31 (occurrences (num_nodes s) cs);
  app_nodes i d : vec_at (nodes s) i = Some d → ∃ d', vec_at (nodes s') i = Some d' ∧
    GateLevel.children d' = GateLevel.children d ∧ GateLevel.literal d' = GateLevel.literal d ∧
    wrap 31 (GateLevel.fanout_word d') = wrap 31 (GateLevel.fanout_word d + occurrences i cs);
}.

Lemma create_node_from_literal_appends s cs lit :
  Forall (λ c, 0 <= c < num_nodes s) cs →
  ∃ s', create_node_from_literal s cs lit = Some (s', num_nodes s) ∧ appended s cs lit s'.
Proof.
  intros Hcs. unfold create_node_from_literal.
  set (node := GateLevel.set_literal _ _). set (s0 := set_nodes (nodes s ++ [node]) s).
  assert (num_nodes s0 = num_nodes s + 1) as Hn0
    by (unfold num_nodes, s0; cbn [set_nodes nodes]; rewrite length_app; simpl; lia).
  destruct (for_each_incr_ref cs s0) as (s1 & -> & [Hn1 (Hi1 & Ho1 & Hc1) Hr1]).
  { eapply Forall_impl; [done|]. simpl. lia. }
  cbn [mbind option_bind]. fold (num_nodes s).
  destruct (Hr1 (num_nodes s) node) as (d1 & Hd1 & E1 & F1 & G1).
  { unfold s0. cbn [set_nodes nodes]. rewrite vec_at_snoc, decide_True; done. }
  unfold update_node, vec_update. rewrite Hd1. cbn [mbind option_bind].
  set (d2 := GateLevel.set_node_value _ d1). eexists. split; [done|].
  assert (∀ i, vec_at (<[Z.to_nat (num_nodes s) := d2]> (nodes s1)) i =
    if decide (num_nodes s = i) then Some d2 else vec_at (nodes s1) i) as Hat.
  { intros i. apply (vec_at_insert _ _ _ d1). done. }
  split; [|done|..]; cbn [set_nodes nodes].
  - unfold num_nodes in *. cbn [set_nodes nodes]. rewrite length_insert. lia.
  - exists d2. rewrite Hat, decide_True by done. split; [done|]. unfold node in *.
    rewrite GateLevel.empty_node_zero in *. done.
  - intros i d Hd. pose proof (vec_at_range _ _ _ Hd) as Hi. fold (num_nodes s) in Hi.
    rewrite Hat, decide_False by lia. apply Hr1. unfold s0. cbn [set_nodes nodes].
    rewrite vec_at_snoc, decide_False by (unfold num_nodes in *; lia). done.
Qed.

Section Appended.
Context s cs lit s' (Hs : network_wf s) (Ha : appended s cs lit s').
Context (Hcs : Forall (λ c, 0 <= c < num_nodes s) cs) (Hne : cs ≠ []).
Context (Hlit : valid_literal (cache s) lit).

Lemma appended_extends : extends s s'.
Proof.
  destruct Ha as [Hn (Hi & Ho & Hc) _ Hd]. split; [|done|by intros k Hk; rewrite Hc].
  intros i d (d' & ? & ? & ? & _)%Hd. eauto.
Qed.

Lemma appended_fanin : foreach_fanin s' (num_nodes s) = cs.
Proof.
  destruct (app_new _ _ _ _ Ha) as (d & Hd & Ech & _). destruct (app_rest _ _ _ _ Ha) as (Hi & _).
  rewrite (foreach_fanin_eq s' _ d), decide_False; [done| |done].
  pose proof (wf_constants _ Hs). rewrite Hi. intros [?|[?|Hin%(wf_inputs _ Hs)]]; lia.
Qed.

Lemma appended_uses n : uses s' n = uses s n + occurrences n cs.
Proof.
  destruct (app_rest _ _ _ _ Ha) as (_ & Ho & _). unfold uses. rewrite Ho, (app_num _ _ _ _ Ha).
  pose proof (wf_constants _ Hs). rewrite seqZ_app, bind_app by lia.
  change (seqZ (0 + num_nodes s) 1) with [0 + num_nodes s].
  rewrite Z.add_0_l, bind_cons. cbn [mbind list_bind]. rewrite app_nil_r, appended_fanin.
  rewrite (bind_seqZ_ext (foreach_fanin s') (foreach_fanin s))
    by (intros; apply extends_fanin; [exact appended_extends|done]).
  rewrite !occurrences_app. lia.
Qed.

Lemma appended_fanout_size n :
  0 <= n < num_nodes s' → fanout_size s' n = wrap 31 (uses s' n).
Proof.
  intros Hn. rewrite appended_uses. rewrite (app_num _ _ _ _ Ha) in Hn.
  destruct (decide (n = num_nodes s)) as [->|].
  - destruct (app_new _ _ _ _ Ha) as (d & Hd & _ & _ & E).
    rewrite (klut_fanout_size s' _ d Hd), E, uses_fresh by (done || lia). done.
  - destruct (vec_at_Some (nodes s) n) as [d Hd]; [unfold num_nodes in *; lia|].
    destruct (app_nodes _ _ _ _ Ha n d Hd) as (d' & Hd' & _ & _ & G).
    rewrite (klut_fanout_size s' _ d' Hd'), G.
    apply wrap_31_add. rewrite <-(wf_uses _ Hs) by lia. rewrite (klut_fanout_size s n d Hd).
    done.
Qed.

Lemma appended_literal i d :
  vec_at (nodes s') i = Some d → gate_node s' i → valid_literal (cache s') (GateLevel.literal d).
Proof.
  destruct (app_rest _ _ _ _ Ha) as (Hi & _ & ->). intros Hd [Hr Hg]. rewrite Hi in Hg.
  rewrite (app_num _ _ _ _ Ha) in Hr. destruct (decide (i = num_nodes s)) as [->|].
  - destruct (app_new _ _ _ _ Ha) as (d' & Hd' & _ & E & _). by simplify_eq.
  - destruct (vec_at_Some (nodes s) i) as [d0 Hd0]; [unfold num_nodes in *; lia|].
    destruct (app_nodes _ _ _ _ Ha i d0 Hd0) as (d' & Hd' & _ & El & _). simplify_eq. rewrite El.
    apply (wf_literals _ Hs i); [done|]. split; [lia|done].
Qed.

Lemma appended_network_wf : network_wf s'.
Proof.
  destruct (app_rest _ _ _ _ Ha) as (Hi & Ho & Hc). pose proof (app_num _ _ _ _ Ha) as Hn'.
  pose proof (wf_constants _ Hs). split.
  - lia.
  - intros n Hn. rewrite Hi in Hn. apply (wf_inputs _ Hs) in Hn. lia.
  - rewrite Hi. apply Hs.
  - intros i c Hin. destruct (decide (i = num_nodes s)) as [->|].
    + rewrite appended_fanin. rewrite Forall_forall in Hcs. apply Hcs.
    + rewrite (extends_fanin s s') by (exact appended_extends || lia). apply (wf_fanins _ Hs). lia.
  - intros i [Hr Hg]. rewrite Hi in Hg. destruct (decide (i = num_nodes s)) as [->|].
    + by rewrite appended_fanin.
    + rewrite (extends_fanin s s') by (exact appended_extends || lia). apply (wf_gates _ Hs).
      split; [lia|done].
  - intros o Hin. rewrite Ho in Hin. apply (wf_outputs _ Hs) in Hin. lia.
  - exact appended_fanout_size.
  - exact appended_literal.
  - rewrite Hc. apply Hs.
  - rewrite Hc. apply Hs.
Qed.
End Appended.

Lemma create_node_from_literal_spec s cs lit :
  network_wf s → Forall (λ c, 0 <= c < num_nodes s) cs → cs ≠ [] → valid_literal (cache s) lit →
  ∃ s', create_node_from_literal s cs lit = Some (s', num_nodes s) ∧ added s cs lit s' ∧
        cache s' = cache s.
Proof.
  intros Hs Hcs Hne Hlit. destruct (create_node_from_literal_appends s cs lit Hcs) as (s' & E & Ha).
  exists s'. destruct (app_rest _ _ _ _ Ha) as (_ & Ho & Hc). split; [done|]. split; [|done]. split.
  - exact (appended_network_wf s cs lit s' Hs Ha Hcs Hne Hlit).
  - exact (appended_extends s cs lit s' Ha).
  - apply Ha.
  - done.
  - exact (appended_fanin s cs lit s' Hs Ha).
  - destruct (app_new _ _ _ _ Ha) as (d & Hd & _ & El & _). unfold has_literal. rewrite Hd.
    cbn [mbind option_bind]. by rewrite El, Z.eqb_refl.
  - intros n _. exact (appended_uses s cs lit s' Hs Ha n).
Qed.
End Creation.
