(* ===== verification/NetworkCopy.v ===== *)
(** * Copying technology networks

    What [create_node], [create_buf], [clone_node] and [create_po] do to a well-formed network and its
    functions, and the invariant [copied] of the transformations that copy a network gate by gate:
    a map from old to new nodes that preserves the function of each node. *)

From S2P Require Import Prelude.
From S2P Require Import GateLevelLayout.
From S2P Require Import TechnologyNetwork.
From S2P Require Import TechnologyInvariant.
#[local] Open Scope Z_scope.
Import Technology.

Section Nodes.
Context `{MT : GateLevel.Mockturtle} `{K : !Klut} `{ML : !GateLevel.MockturtleLaws} `{KL : !KlutLaws}.
Implicit Types (s : network) (n : Z) (ins : list bool) (cs : list Z).

Lemma node_at s n : 0 <= n < num_nodes s → ∃ d, vec_at (nodes s) n = Some d.
Proof. apply vec_at_Some. Qed.

(** ** Truth tables *)

Lemma set_cache_extends s f :
  extends s (set_cache (GateLevel.cache_insert (cache s) f).2 s).
Proof.
  split; [by eauto|done|]. cbn [set_cache cache]. intros k Hk.
  split; [|by apply cache_insert_keeps]. destruct Hk. split; [done|].
  pose proof (cache_size_insert (cache s) f). lia.
Qed.

Lemma set_cache_fanin s c n : 0 <= n < num_nodes s → foreach_fanin (set_cache c s) n = foreach_fanin s n.
Proof.
  intros [d Hd]%node_at. by rewrite (foreach_fanin_eq s n d), (foreach_fanin_eq (set_cache c s) n d).
Qed.

Lemma set_cache_uses s c n : uses (set_cache c s) n = uses s n.
Proof.
  unfold uses. change (outputs (set_cache c s)) with (outputs s).
  change (num_nodes (set_cache c s)) with (num_nodes s). f_equal. f_equal.
  apply bind_seqZ_ext. intros i Hi. by apply set_cache_fanin.
Qed.

Lemma set_cache_wf s f :
  network_wf s → network_wf (set_cache (GateLevel.cache_insert (cache s) f).2 s).
Proof.
  intros Hs. set (c := (GateLevel.cache_insert (cache s) f).2).
  assert (valid_literal (cache s) 2) as H2.
  { split; [done|]. apply (wf_buffer _ Hs). }
  split; try apply Hs.
  - intros i k Hi. rewrite set_cache_fanin by done. by apply (wf_fanins _ Hs).
  - intros i Hi. change (gate_node s i) in Hi. rewrite set_cache_fanin by (destruct Hi; lia). by apply (wf_gates _ Hs).
  - intros n Hn. rewrite set_cache_uses, <-(wf_uses _ Hs) by done.
    destruct (node_at s n Hn) as [d Hd]. by rewrite (klut_fanout_size s n d), (klut_fanout_size _ n d).
  - intros i d Hd Hg. apply (ext_cache _ _ (set_cache_extends s f)). by apply (wf_literals _ Hs i d).
  - apply cache_ok_insert, Hs.
  - split.
    + pose proof (cache_size_insert (cache s) f) as H. pose proof (wf_buffer _ Hs). cbn [set_cache cache]. fold c in H. lia.
    + cbn [set_cache cache]. unfold c. rewrite cache_insert_keeps by done. apply (wf_buffer _ Hs).
Qed.

(** ** Gates *)

(** The nodes of a network keep their uses but for the fanins of a new gate. *)
Lemma create_node_spec s cs f :
  network_wf s → Forall (λ c, 0 <= c < num_nodes s) cs → cs ≠ [] →
  ∃ s', create_node s cs f = Some (s', num_nodes s) ∧
    added s cs (GateLevel.cache_insert (cache s) f).1 s' ∧
    GateLevel.cache_at (cache s') (GateLevel.cache_insert (cache s) f).1 = f.
Proof.
  intros Hs Hcs Hne. set (r := GateLevel.cache_insert (cache s) f). set (s0 := set_cache r.2 s).
  assert (create_node s cs f = create_node_from_literal s0 cs r.1) as -> by (by destruct cs).
  destruct (create_node_from_literal_spec s0 cs r.1) as (s' & -> & [] & Hc); [|done|done|..].
  { by apply set_cache_wf. }
  { apply cache_insert_literal. }
  exists s'. split; [done|]. split.
  - split; try done.
    + etrans; [apply set_cache_extends|done].
    + intros n Hn. rewrite added_uses by done. unfold s0. by rewrite set_cache_uses.
  - rewrite Hc. apply GateLevel.cache_at_insert.
Qed.

Lemma create_buf_spec s c :
  network_wf s → 0 <= c < num_nodes s →
  ∃ s', create_buf s c = Some (s', num_nodes s) ∧ added s [c] 2 s' ∧ cache s' = cache s.
Proof.
  intros Hs Hc. apply create_node_from_literal_spec; [done|by constructor|done|].
  split; [done|]. apply (wf_buffer _ Hs).
Qed.

Lemma added_gate s cs k s' : network_wf s → added s cs k s' → gate_node s' (num_nodes s).
Proof.
  intros Hs Ha. pose proof (wf_constants _ Hs). pose proof (added_num _ _ _ _ Ha). split; [lia|].
  rewrite (ext_inputs _ _ (added_extends _ _ _ _ Ha)). intros Hin%(wf_inputs _ Hs). lia.
Qed.

Lemma value_gate s ins g d :
  network_wf s → gate_node s g → vec_at (nodes s) g = Some d →
  value s ins g = eval_table (GateLevel.cache_at (cache s) (GateLevel.literal d))
                    (value s ins <$> foreach_fanin s g).
Proof.
  intros Hs [Hg Hni] Hd. rewrite (value_node s ins g d), decide_False by (done || lia).
  by rewrite list_find_inputs.
Qed.

Lemma has_literal_node s n k :
  has_literal s n k = Some true → ∃ d, vec_at (nodes s) n = Some d ∧ GateLevel.literal d = k.
Proof.
  unfold has_literal. destruct (vec_at _ n) as [d|]; [|done]. cbn [mbind option_bind].
  intros [= E%Z.eqb_eq]. eauto.
Qed.

Lemma extends_literal s s' n k :
  extends s s' → has_literal s n k = Some true → has_literal s' n k = Some true.
Proof.
  intros He (d & Hd & Ek)%has_literal_node. destruct (ext_nodes _ _ He n d Hd) as (d' & Hd' & _ & El).
  unfold has_literal. rewrite Hd'. cbn [mbind option_bind]. by rewrite El, Ek, Z.eqb_refl.
Qed.

Lemma added_value s cs k s' ins :
  network_wf s → added s cs k s' →
  value s' ins (num_nodes s) = eval_table (GateLevel.cache_at (cache s') k) (value s' ins <$> cs).
Proof.
  intros Hs Ha. destruct (has_literal_node _ _ _ (added_literal _ _ _ _ Ha)) as (d & Hd & <-).
  rewrite (value_gate s' ins _ d), (added_fanin _ _ _ _ Ha); [done|apply Ha|by eapply added_gate|done].
Qed.

(** A buffer computes the identity. *)
Lemma added_buf_value s c s' ins :
  network_wf s → 0 <= c < num_nodes s → added s [c] 2 s' → value s' ins (num_nodes s) = value s ins c.
Proof.
  intros Hs Hc Ha. rewrite (added_value s [c] 2) by done. pose proof (added_wf _ _ _ _ Ha) as Hs'.
  rewrite (proj2 (wf_buffer _ Hs')). cbn [fmap list_fmap]. rewrite eval_buffer.
  apply extends_value; [done..|apply Ha|done].
Qed.

Lemma is_buf_gate s n : has_literal s n 2 = Some true → n ∉ inputs s → is_buf s n = Some true.
Proof.
  intros Hl Hn. unfold is_buf. rewrite Hl, klut_is_pi, bool_decide_false by done. done.
Qed.

(** ** Outputs *)

Record output_added s o s' : Prop := {
  po_wf : network_wf s';
  po_extends : extends s s';
  po_num : num_nodes s' = num_nodes s;
  po_outputs : outputs s' = outputs s ++ [o];
  po_uses n : uses s' n = uses s n + occurrences n [o];
}.

Lemma referenced_extends s cs s' : referenced s cs s' → extends s s'.
Proof.
  intros [Hn (Hi & Ho & Hc) Hd]. split; [|done|by intros k Hk; rewrite Hc].
  intros i d (d' & ? & ? & ? & _)%Hd. eauto.
Qed.

Section CreatePo.
Context s o s1 (Hs : network_wf s) (Ho : 0 <= o < num_nodes s) (Hr : referenced s [o] s1).
Let s' := set_outputs (outputs s ++ [o]) s1.

Lemma set_outputs_extends : extends s s'.
Proof.
  destruct (referenced_extends _ _ _ Hr) as [Hn Hi Hc]. split; [|done|done].
  intros i d Hd. exact (Hn i d Hd).
Qed.

Lemma set_outputs_uses n : uses s' n = uses s n + occurrences n [o].
Proof.
  unfold uses. change (outputs s') with (outputs s ++ [o]).
  change (num_nodes s') with (num_nodes s1). rewrite (ref_num _ _ _ Hr).
  rewrite (bind_seqZ_ext (foreach_fanin s') (foreach_fanin s))
    by (intros; apply extends_fanin; [exact set_outputs_extends|done]).
  rewrite !occurrences_app. lia.
Qed.

Lemma set_outputs_wf : network_wf s'.
Proof.
  destruct (ref_rest _ _ _ Hr) as (Hi & _ & Hc). pose proof (ref_num _ _ _ Hr) as Hn.
  assert (num_nodes s' = num_nodes s) as Hn' by done. pose proof set_outputs_extends as Hext.
  assert (inputs s' = inputs s) as Hi' by done. assert (cache s' = cache s) as Hc' by done.
  split.
  - rewrite Hn'. apply Hs.
  - rewrite Hn', Hi'. apply Hs.
  - rewrite Hi'. apply Hs.
  - intros i c H1. rewrite (extends_fanin s s') by (done || lia). apply (wf_fanins _ Hs). lia.
  - intros i [H1 H2]. rewrite (extends_fanin s s') by (done || lia). apply (wf_gates _ Hs).
    split; [lia|by rewrite <-Hi'].
  - intros p. change (outputs s') with (outputs s ++ [o]). rewrite Hn', elem_of_app, list_elem_of_singleton.
    intros [?%(wf_outputs _ Hs)| ->]; done.
  - intros n H1. rewrite Hn' in H1. rewrite set_outputs_uses. destruct (node_at s n H1) as [d Hd].
    destruct (ref_nodes _ _ _ Hr n d Hd) as (d' & Hd' & _ & _ & E).
    rewrite (klut_fanout_size s' n d' Hd'), E. apply wrap_31_add.
    rewrite <-(wf_uses _ Hs) by done. by rewrite (klut_fanout_size s n d Hd).
  - intros i d Hd [H1 H2]. rewrite Hc'. rewrite Hi' in H2. rewrite Hn' in H1.
    destruct (node_at s i) as [d0 Hd0]; [lia|]. destruct (ext_nodes _ _ Hext i d0 Hd0) as (d1 & Hd1 & _ & El).
    simplify_eq. rewrite El. by apply (wf_literals _ Hs i).
  - rewrite Hc'. apply Hs.
  - rewrite Hc'. apply Hs.
Qed.
End CreatePo.

Lemma create_po_spec s o :
  network_wf s → 0 <= o < num_nodes s → output_added s o (create_po s o).
Proof.
  intros Hs Ho. destruct (incr_ref_some s o Ho) as (s1 & E & Hr). rewrite (klut_create_po _ _ _ E).
  split.
  - by apply set_outputs_wf.
  - by apply set_outputs_extends.
  - apply Hr.
  - done.
  - intros n. by apply set_outputs_uses.
Qed.
End Nodes.

(** ** The copy of the inputs *)

Section Initial.
Context `{MT : GateLevel.Mockturtle} `{K : !Klut} `{ML : !GateLevel.MockturtleLaws} `{KL : !KlutLaws}.
Implicit Types (s ntk : network) (n : Z).

(** A network of [k] inputs. *)
Record only_inputs (k : nat) s : Prop := {
  oi_wf : network_wf s;
  oi_num : num_nodes s = 2 + Z.of_nat k;
  oi_inputs : inputs s = seqZ 2 (Z.of_nat k);
  oi_outputs : outputs s = [];
  oi_uses n : uses s n = 0;
}.

Lemma klut_new_only_inputs : only_inputs 0 klut_new.
Proof.
  destruct klut_new_constants as (d0 & d1 & Hn & H0 & H1 & Hi & Ho & Hc & Hb).
  assert (num_nodes klut_new = 2) as Hk by (unfold num_nodes; by rewrite Hn).
  assert (∀ i d, vec_at (nodes klut_new) i = Some d → (i = 0 ∧ d = d0) ∨ (i = 1 ∧ d = d1)) as Hd.
  { intros i d Hid. pose proof (vec_at_range _ _ _ Hid) as Hr. fold (num_nodes klut_new) in Hr.
    rewrite Hn in Hid. unfold vec_at in Hid. rewrite decide_True in Hid by lia.
    assert (i = 0 ∨ i = 1) as [-> | ->] by lia; injection Hid as <-; auto. }
  assert (∀ i, 0 <= i < 2 → foreach_fanin klut_new i = []) as Hf.
  { intros i Hi2. destruct (node_at klut_new i) as [d Hid]; [lia|].
    rewrite (foreach_fanin_eq _ _ d), decide_True; [done|lia|done]. }
  assert (∀ n, uses klut_new n = 0) as Hu.
  { intros n. unfold uses. rewrite Ho, Hk. change (seqZ 0 2) with [0; 1].
    rewrite !bind_cons, !Hf by lia. done. }
  assert (∀ i, ¬ gate_node klut_new i) as Hg by (intros i [? _]; lia).
  split; try done. split; try done.
  - lia.
  - rewrite Hi. intros n Hin. by apply not_elem_of_nil in Hin.
  - rewrite Hi. constructor.
  - intros i c Hr. rewrite Hf by lia. intros Hin. by apply not_elem_of_nil in Hin.
  - intros i Hgi. by apply Hg in Hgi.
  - rewrite Ho. intros o Hin. by apply not_elem_of_nil in Hin.
  - intros n [d Hid]%node_at. rewrite (klut_fanout_size _ n d Hid), Hu.
    destruct (Hd n d Hid) as [[_ ->]|[_ ->]]; by rewrite ?H0, ?H1.
  - intros i d _ Hgi. by apply Hg in Hgi.
Qed.

Lemma set_cache_only_inputs k s f :
  only_inputs k s → only_inputs k (set_cache (GateLevel.cache_insert (cache s) f).2 s).
Proof.
  intros [Hs Hn Hi Ho Hu]. split; try done; [by apply set_cache_wf|]. intros n. by rewrite set_cache_uses.
Qed.

Lemma make_only_inputs : only_inputs 0 make.
Proof.
  unfold make, add_additional_functions. generalize [0x52; 0x80; 0x28; 0xa8; 0x16; 0x81; 0x6a].
  intros words. pose proof klut_new_only_inputs as Hk. revert Hk. generalize klut_new.
  induction words as [|w words IH]; intros s Hs; [done|]. simpl. apply IH. by apply set_cache_only_inputs.
Qed.

Lemma create_pi_only_inputs k s : only_inputs k s → only_inputs (S k) (create_pi s).1.
Proof.
  intros [Hs Hn Hi Ho Hu]. destruct (klut_create_pi s) as (d & -> & Hd). cbn [fst].
  set (s' := Network _ _ _ _). assert (num_nodes s' = num_nodes s + 1) as Hn'.
  { unfold num_nodes, s'. cbn [nodes]. rewrite length_app. simpl. lia. }
  assert (inputs s' = seqZ 2 (Z.of_nat (S k))) as Hi'.
  { unfold s'. cbn [inputs]. rewrite Hi, Hn, Nat2Z.inj_succ, <-Z.add_1_r, seqZ_app by lia. done. }
  assert (∀ i, 0 <= i < num_nodes s' → foreach_fanin s' i = []) as Hf.
  { intros i Hr. destruct (node_at s' i) as [di Hdi]; [lia|].
    rewrite (foreach_fanin_eq _ _ di), decide_True; [done| |done]. rewrite Hi', elem_of_seqZ. lia. }
  assert (∀ n, uses s' n = 0) as Hu'.
  { intros n. unfold uses. change (outputs s') with (outputs s). rewrite Ho.
    rewrite (bind_seqZ_ext _ (λ _, [])) by done. apply occurrences_not_elem. simpl.
    rewrite list_elem_of_bind. intros (i & Hin & _). by apply not_elem_of_nil in Hin. }
  assert (∀ i, ¬ gate_node s' i) as Hg by (intros i [? Hin]; rewrite Hi', elem_of_seqZ in Hin; lia).
  split; try done; [|lia]. split; try done.
  - pose proof (wf_constants _ Hs). lia.
  - intros n Hin. rewrite Hi', elem_of_seqZ in Hin. lia.
  - rewrite Hi'. apply NoDup_seqZ.
  - intros i c Hr. rewrite Hf by lia. intros Hin. by apply not_elem_of_nil in Hin.
  - intros i Hgi. by apply Hg in Hgi.
  - intros o Hin. change (outputs s') with (outputs s) in Hin. rewrite Ho in Hin.
    by apply not_elem_of_nil in Hin.
  - intros n Hr. rewrite Hu'. destruct (node_at s' n Hr) as [di Hdi].
    rewrite (klut_fanout_size _ n di Hdi). unfold s' in Hdi. cbn [nodes] in Hdi. rewrite vec_at_snoc in Hdi.
    case_decide; [by simplify_eq; rewrite Hd|]. rewrite <-(klut_fanout_size s n di Hdi).
    rewrite (wf_uses _ Hs), Hu; [done|]. apply vec_at_range in Hdi. done.
  - intros i di _ Hgi. by apply Hg in Hgi.
  - apply Hs.
  - apply Hs.
Qed.

Lemma foldl_only_inputs (v : list Z) : only_inputs (length v) (foldl (λ d _, (create_pi d).1) make v).
Proof.
  pose proof make_only_inputs as Hm. revert Hm. generalize make.
  enough (∀ v k s, only_inputs k s → only_inputs (k + length v) (foldl (λ d _, (create_pi d).1) s v)) as Hv
    by (intros s; apply (Hv _ 0%nat)).
  clear v. induction v as [|n v IH]; intros k s Hs; simpl; [by rewrite Nat.add_0_r|].
  rewrite Nat.add_succ_r, <-Nat.add_succ_l. apply IH. by apply create_pi_only_inputs.
Qed.

Lemma initial_only_inputs ntk :
  only_inputs (length (inputs ntk)) (initialize_copy_network ntk).1.
Proof. destruct (klut_initialize_copy_network ntk) as (-> & _). apply foldl_only_inputs. Qed.
End Initial.

(** ** The invariant of a copy *)

Section Copied.
Context `{MT : GateLevel.Mockturtle} `{K : !Klut} `{ML : !GateLevel.MockturtleLaws} `{KL : !KlutLaws}.
Context (ntk : network) (Hntk : network_wf ntk).
Implicit Types (s : network) (n : Z) (pre : list Z).

(** The nodes that have a copy when the gates [pre] are done. *)
Definition copied_node pre n : Prop := n = 0 ∨ n = 1 ∨ n ∈ inputs ntk ∨ n ∈ pre.

Record copied pre s (old2new : gmap Z Z) : Prop := {
  cp_wf : network_wf s;
  cp_inputs : inputs s = seqZ 2 (Z.of_nat (length (inputs ntk)));
  cp_node n : copied_node pre n → ∃ m, old2new !! n = Some m ∧ 0 <= m < num_nodes s ∧
    (n = 0 ∨ n = 1 → m = n) ∧ (2 <= n → 2 <= m) ∧ ∀ ins, value s ins m = value ntk ins n;
}.

Lemma copied_extends pre s s' old2new :
  copied pre s old2new → network_wf s' → extends s s' → copied pre s' old2new.
Proof.
  intros [Hs Hi Hn] Hs' He. split; [done|by rewrite (ext_inputs _ _ He)|].
  intros n (m & Hm & Hr & Hc & Hg & Hv)%Hn. exists m. pose proof (extends_num_nodes _ _ He).
  split_and!; [done|lia..|done|done|]. intros ins. rewrite <-Hv. by apply extends_value.
Qed.

Lemma list_find_lookup (v : list Z) i n :
  NoDup v → v !! i = Some n → list_find (λ x, x = n) v = Some (i, n).
Proof.
  intros Hv Hi. apply list_find_Some. split_and!; [done|done|]. intros j y Hj Hlt ->.
  pose proof (NoDup_lookup _ _ _ _ Hv Hi Hj). lia.
Qed.

Lemma value_constant s ins n : network_wf s → n = 0 ∨ n = 1 → value s ins n = (n =? 1).
Proof.
  intros Hs Hn. pose proof (wf_constants _ Hs). destruct (node_at s n) as [d Hd]; [lia|].
  by rewrite (value_node s ins n d), decide_True.
Qed.

Lemma value_input s ins i n : network_wf s → inputs s !! i = Some n → value s ins n = nth i ins false.
Proof.
  intros Hs Hi. pose proof (wf_inputs _ Hs n (list_elem_of_lookup_2 _ _ _ Hi)) as Hn.
  destruct (node_at s n) as [d Hd]; [lia|].
  rewrite (value_node s ins n d), decide_False by (done || lia).
  by rewrite (list_find_lookup _ i) by (done || apply Hs).
Qed.

Lemma initial_copied :
  copied [] (initialize_copy_network ntk).1 (initialize_copy_network ntk).2.
Proof.
  pose proof (initial_only_inputs ntk) as [Hs Hk Hi _ _].
  destruct (klut_initialize_copy_network ntk) as (_ & Hc & Hp & _). split; [done|done|].
  assert (∀ n, n = 0 ∨ n = 1 → ∃ m, (initialize_copy_network ntk).2 !! n = Some m ∧
    0 <= m < num_nodes (initialize_copy_network ntk).1 ∧ (n = 0 ∨ n = 1 → m = n) ∧ (2 <= n → 2 <= m) ∧
    ∀ ins, value (initialize_copy_network ntk).1 ins m = value ntk ins n) as Hconst.
  { intros n Hn. exists n. split_and!; [|lia..|done|lia|].
    - apply Hc. rewrite klut_is_constant. by apply bool_decide_true.
    - intros ins. by rewrite !value_constant. }
  intros n [Hn|[Hn|[Hn|Hn]]]; [by apply Hconst; left|by apply Hconst; right| |].
  2: { by apply not_elem_of_nil in Hn. }
  apply list_elem_of_lookup in Hn as [i Hn].
  pose proof (wf_inputs _ Hntk n (list_elem_of_lookup_2 _ _ _ Hn)) as Hr.
  pose proof (lookup_lt_Some _ _ _ Hn) as Hlt. exists (2 + Z.of_nat i). split_and!; try lia.
  - apply Hp; [apply Hntk|done|lia].
  - intros ins. rewrite (value_input ntk ins i n) by done. apply value_input; [done|].
    rewrite Hi, lookup_seqZ. lia.
Qed.

(** The fanins of a gate have copies when the gates before it do. *)
Lemma fanins_before i c : gate_node ntk i → c ∈ foreach_fanin ntk i → 0 <= c < i.
Proof. intros [? _] ?. apply (wf_fanins _ Hntk); [lia|done]. Qed.

Lemma fanin_copied pre g post c :
  topo_gates ntk = pre ++ g :: post → c ∈ foreach_fanin ntk g → copied_node pre c.
Proof.
  intros Ht Hc. assert (gate_node ntk g) as Hg.
  { apply (topo_gates_nodes ntk); [exact fanins_before|]. rewrite Ht. set_solver. }
  pose proof (fanins_before _ _ Hg Hc) as Hr. destruct (decide (c = 0 ∨ c = 1)); [unfold copied_node; tauto|].
  destruct (decide (c ∈ inputs ntk)); [unfold copied_node; tauto|]. right. right. right.
  apply (topo_gates_order ntk pre g post); [exact fanins_before|done..|].
  destruct Hg. split; [lia|done].
Qed.

Lemma output_copied o : o ∈ outputs ntk → copied_node (topo_gates ntk) o.
Proof.
  intros Ho. pose proof (wf_outputs _ Hntk o Ho). destruct (decide (o = 0 ∨ o = 1)); [unfold copied_node; tauto|].
  destruct (decide (o ∈ inputs ntk)); [unfold copied_node; tauto|]. right. right. right.
  apply topo_gates_outputs; [exact fanins_before|done|]. split; [lia|done].
Qed.

(** A copy of a gate, on fanins that have the values of its fanins. *)
Lemma clone_node_spec pre s old2new g cs :
  copied pre s old2new → gate_node ntk g →
  Forall2 (λ c f, 0 <= c < num_nodes s ∧ ∀ ins, value s ins c = value ntk ins f)
    cs (foreach_fanin ntk g) →
  ∃ s' k, clone_node s ntk g cs = Some (s', num_nodes s) ∧ added s cs k s' ∧
    copied (pre ++ [g]) s' (<[g := num_nodes s]> old2new) ∧
    (is_buf ntk g = Some true → k = 2).
Proof.
  intros Hcp Hg Hcs. pose proof (cp_wf _ _ _ Hcp) as Hs. destruct (node_at ntk g) as [d Hd]; [destruct Hg; lia|].
  set (f := GateLevel.cache_at (cache ntk) (GateLevel.literal d)).
  destruct (create_node_spec s cs f) as (s' & Hc & Ha & Hf); [done|..].
  { eapply Forall2_Forall_l, Forall_true; [done|]. simpl. intuition. }
  { intros ->. apply Forall2_nil_inv_l in Hcs. by apply (wf_gates _ Hntk) in Hcs. }
  exists s', (GateLevel.cache_insert (cache s) f).1. split_and!; [|done|..].
  - unfold clone_node, node_function. rewrite Hd. exact Hc.
  - pose proof (added_wf _ _ _ _ Ha) as Hs'. pose proof (added_extends _ _ _ _ Ha) as He.
    destruct (copied_extends _ _ _ _ Hcp Hs' He) as [_ Hi Hn]. split; [done|done|]. intros n Hnd.
    pose proof (added_num _ _ _ _ Ha). pose proof (wf_constants _ Hs).
    assert (∀ ins, value s' ins (num_nodes s) = value ntk ins g) as Hv.
    { intros ins. rewrite (added_value s cs (GateLevel.cache_insert (cache s) f).1 s') by done.
      rewrite Hf, (value_gate ntk ins g d) by done. f_equal.
      clear -Hcs Hs Hs' He KL. induction Hcs as [|c x cs fs [Hr Hv] _ IH]; [done|].
      rewrite !fmap_cons, IH. f_equal. rewrite <-Hv. by apply extends_value. }
    destruct (decide (n = g)) as [->|].
    + exists (num_nodes s). rewrite lookup_insert_eq. destruct Hg. split_and!; [done|lia..|done].
    + rewrite lookup_insert_ne by done. apply Hn. unfold copied_node in *. set_solver.
  - intros Hb. unfold is_buf, has_literal in Hb. rewrite Hd in Hb. cbn in Hb.
    assert (GateLevel.literal d = 2) as E by (destruct (Z.eqb_spec (GateLevel.literal d) 2); naive_solver).
    unfold f. rewrite E, (proj2 (wf_buffer _ Hntk)), <-(proj2 (wf_buffer _ Hs)).
    pose proof (wf_cache _ Hs 1) as Hone. change (2 * 1) with 2 in Hone.
    by rewrite Hone by (pose proof (wf_buffer _ Hs); lia).
Qed.
End Copied.
