(* ===== verification/KlutModel.v ===== *)
(** * A model of the class Klut

    An instance of the members that [technology_network] inherits, on the truth tables of
    [MockturtleModel.v], that satisfies [KlutLaws]: the witnesses of the theorems on networks evaluate
    with it. *)

From S2P Require Import Prelude.
From S2P Require Import GateLevelLayout.
From S2P Require Import MockturtleModel.
From S2P Require Import TechnologyNetwork.
From S2P Require Import TechnologyInvariant.
#[local] Open Scope Z_scope.
Import Technology.

Abbreviation list_network := (@network table_mockturtle).

(** ** Members *)

Definition new_node (children : list Z) (literal : Z) : node_data :=
  GateLevel.NodeData children 0 0 literal 0.

(** The tables of a new network: a constant, the identity, and, or, lt, its converse, xor, maj, ite and
    xor3. *)
Definition list_tables : list (list bool) :=
  [[false]; [false; true]; [false; false; false; true]; [false; true; true; true];
   [false; false; true; false]; [false; true; false; false]; [false; true; true; false];
   [false; false; false; true; false; true; true; true]; [false; false; false; true; true; false; true; true];
   [false; true; true; false; true; false; false; true]].

Definition list_klut_new : list_network := Network [new_node [] 0; new_node [] 1] [] [] list_tables.

Definition list_create_pi (s : list_network) : list_network * Z :=
  (Network (nodes s ++ [new_node [] 0]) (inputs s ++ [Z.of_nat (length (nodes s))]) (outputs s) (cache s),
   Z.of_nat (length (nodes s))).

Definition list_create_po (s : list_network) (o : Z) : list_network :=
  let s' := default s (incr_ref s o) in set_outputs (outputs s ++ [o]) s'.

Definition constant (n : Z) : bool := (n =? 0) || (n =? 1).

Definition list_fanin (s : list_network) (n : Z) : list Z :=
  match vec_at (nodes s) n with
  | Some d => if constant n || bool_decide (n ∈ inputs s) then [] else GateLevel.children d
  | None => []
  end.

Definition gate_b (s : list_network) (n : Z) : bool :=
  bool_decide (2 <= n ∧ n < Z.of_nat (length (nodes s)) ∧ n ∉ inputs s).

(** The transitive fanin of the outputs, from the last node down. *)
Definition mark (s : list_network) (m : list Z) (k : Z) : list Z :=
  if bool_decide (k ∈ m) then list_fanin s k ++ m else m.
Definition marked (s : list_network) : list Z :=
  foldl (mark s) (outputs s) (reverse (seqZ 0 (Z.of_nat (length (nodes s))))).

Definition list_topo (s : list_network) : list Z :=
  filter (λ n, gate_b s n = true ∧ n ∈ marked s) (seqZ 0 (Z.of_nat (length (nodes s)))).

Definition list_copy_map (s : list_network) : gmap Z Z :=
  <[0 := 0]> (<[1 := 1]> (list_to_map (imap (λ i n, (n, 2 + Z.of_nat i)) (inputs s)))).

Definition levels_upto (s : list_network) (k : nat) : list Z :=
  foldl (λ ls n, ls ++ [if gate_b s n && bool_decide (n ∈ marked s)
                        then 1 + foldr Z.max 0 ((λ c, nth (Z.to_nat c) ls 0) <$> list_fanin s n) else 0])
    [] (seqZ 0 (Z.of_nat k)).
Definition list_level (s : list_network) (n : Z) : Z :=
  if decide (n < 0) then 0 else nth (Z.to_nat n) (levels_upto s (length (nodes s))) 0.

Fixpoint bits_index (vs : list bool) : nat :=
  match vs with [] => O | b :: vs' => (if b : bool then 1 else 0) + 2 * bits_index vs' end%nat.

Definition list_eval (f : list bool) (vs : list bool) : bool := nth (bits_index vs) f false.

Definition list_tree_reduce (fs : list Z) (init : Z)
    (f : list_network → Z → Z → option (list_network * Z)) (s : list_network) : option (list_network * Z) :=
  match fs with
  | [] => Some (s, init)
  | x :: fs' => foldl (λ r y, r ← r; f r.1 r.2 y) (Some (s, x)) fs'
  end.

#[export] Instance list_klut : Klut := {
  klut_new := list_klut_new;
  create_pi := list_create_pi;
  create_po := list_create_po;
  is_pi s n := bool_decide (n ∈ inputs s);
  is_constant _ n := constant n;
  constant_value n := n =? 1;
  get_constant b := Z.b2z b;
  is_complemented _ := false;
  fanout_size s n :=
    match vec_at (nodes s) n with Some d => wrap 31 (GateLevel.fanout_word d) | None => 0 end;
  foreach_fanin := list_fanin;
  foreach_node s := seqZ 0 (Z.of_nat (length (nodes s)));
  foreach_gate s := filter (λ i, 2 <= i ∧ i ∉ inputs s) (seqZ 0 (Z.of_nat (length (nodes s))));
  topo_gates := list_topo;
  level := list_level;
  initialize_copy_network s :=
    (foldl (λ d _, (list_create_pi d).1)
       (foldl (λ s word, set_cache (table_insert (cache s) (table_of_word word 3)).2 s) list_klut_new
          [0x52; 0x80; 0x28; 0xa8; 0x16; 0x81; 0x6a]) (inputs s), list_copy_map s);
  tree_reduce := list_tree_reduce;
  cache_size c := Z.of_nat (length c);
  eval_table := list_eval;
  buffer_table := [false; true];
}.

(** ** The cache *)

Definition normal (f : list bool) : Prop := normalize f = (f, false).

Lemma cache_index_spec (c : list (list bool)) f :
  (∃ k, c !! k = Some f ∧ (∀ j, (j < k)%nat → c !! j ≠ Some f) ∧ cache_index c f = (k, c)) ∨
  (f ∉ c ∧ cache_index c f = (length c, c ++ [f])).
Proof.
  induction c as [|g c IH]; simpl; [right; split; [apply not_elem_of_nil|done]|]. case_decide as E.
  - left. exists O. subst g. split_and!; [done|lia|done].
  - destruct IH as [(k & Hk & Hj & ->)|[Hf ->]].
    + left. exists (S k). split_and!; [done| |done]. intros [|j] Hlt; simpl; [congruence|]. apply Hj. lia.
    + right. split; [|done]. rewrite elem_of_cons. intros [?|?]; [congruence|done].
Qed.

Lemma normalize_normal f : normal (normalize f).1.
Proof. destruct f as [|[] f]; done. Qed.

Lemma table_at_even c k : 0 <= k → table_at c (2 * k) = nth (Z.to_nat k) c [].
Proof.
  intros Hk. unfold table_at. rewrite Z.odd_mul. simpl. by rewrite Z.mul_comm, Z.div_mul.
Qed.

(** The caches in which each table is normal and found where it is stored. *)
Lemma list_cache_ok (c : list (list bool)) :
  cache_ok (c : truth_table_cache) ↔ NoDup c ∧ Forall normal c.
Proof.
  unfold cache_ok. cbn [cache_size list_klut GateLevel.cache_at GateLevel.cache_insert table_mockturtle].
  assert (∀ (i : nat) f, c !! i = Some f → table_at c (2 * Z.of_nat i) = f) as Hat.
  { intros i f Hi. rewrite table_at_even, Nat2Z.id by lia. by apply nth_lookup_Some. }
  split.
  - intros Hc. assert (∀ (i : nat) f, c !! i = Some f → table_insert c f = (2 * Z.of_nat i, c)) as Hins.
    { intros i f Hi. rewrite <-(Hat i f Hi) at 1. apply Hc. apply lookup_lt_Some in Hi. lia. }
    split.
    + apply NoDup_alt. intros i j f Hi Hj. apply Hins in Hi, Hj. rewrite Hi in Hj. injection Hj. lia.
    + apply Forall_lookup. intros i f Hi%Hins. unfold table_insert in Hi. unfold normal.
      destruct (normalize f) as [g []] eqn:E; [|by destruct f as [|[] f]; inversion E].
      injection Hi. lia.
  - intros [Hnd Hn] k Hk. destruct (lookup_lt_is_Some_2 c (Z.to_nat k)) as [f Hf]; [lia|].
    rewrite <-(Z2Nat.id k) by lia. rewrite (Hat _ f Hf). unfold table_insert.
    rewrite Forall_lookup in Hn. rewrite (Hn _ f Hf).
    destruct (cache_index_spec c f) as [(j & Hj & _ & ->)|[Hni _]].
    + rewrite (NoDup_lookup _ _ _ _ Hnd Hj Hf). simpl. f_equal. lia.
    + destruct Hni. by eapply list_elem_of_lookup_2.
Qed.

Lemma table_insert_cases c f :
  ∃ k b, (table_insert c f).1 = 2 * Z.of_nat k + (if (b : bool) then 1 else 0) ∧
    (((table_insert c f).2 = c ∧ (k < length c)%nat) ∨
     (∃ g, normal g ∧ g ∉ c ∧ (table_insert c f).2 = c ++ [g] ∧ k = length c)).
Proof.
  unfold table_insert. pose proof (normalize_normal f) as Hn. destruct (normalize f) as [g b]. simpl in Hn.
  destruct (cache_index_spec c g) as [(k & Hk & _ & ->)|[Hni ->]]; simpl.
  - exists k, b. split; [done|]. left. split; [done|]. by eapply lookup_lt_Some.
  - exists (length c), b. split; [done|]. right. eauto.
Qed.

Lemma half_literal k (b : bool) : (2 * Z.of_nat k + (if b then 1 else 0)) / 2 = Z.of_nat k.
Proof. destruct b; [symmetry; apply (Z.div_unique _ _ _ 1); lia|symmetry; apply (Z.div_unique _ _ _ 0); lia]. Qed.

Lemma table_at_app c c' k : 0 <= k → k / 2 < Z.of_nat (length c) → table_at (c ++ c') k = table_at c k.
Proof.
  intros H0 Hk. unfold table_at. rewrite app_nth1; [done|]. pose proof (Z.div_pos k 2). lia.
Qed.

Lemma table_insert_ok c f :
  NoDup c ∧ Forall normal c → NoDup (table_insert c f).2 ∧ Forall normal (table_insert c f).2.
Proof.
  intros [Hnd Hn]. destruct (table_insert_cases c f) as (k & b & _ & [[-> _]|(g & Hg & Hgc & -> & _)]); [done|].
  split; [|by apply Forall_app_2; [|constructor]]. apply NoDup_app. split_and!; [done| |apply NoDup_singleton].
  by intros x Hx ->%list_elem_of_singleton.
Qed.

Lemma table_insert_size c f : Z.of_nat (length c) <= Z.of_nat (length (table_insert c f).2).
Proof.
  destruct (table_insert_cases c f) as (k & b & _ & [[-> _]|(g & _ & _ & -> & _)]); [done|].
  rewrite length_app. lia.
Qed.

Lemma table_insert_literal c f :
  0 <= (table_insert c f).1 ∧ (table_insert c f).1 / 2 < Z.of_nat (length (table_insert c f).2).
Proof.
  destruct (table_insert_cases c f) as (k & b & -> & Hk). rewrite half_literal.
  split; [destruct b; lia|]. destruct Hk as [[-> ?]|(g & _ & _ & -> & ->)]; [lia|]. rewrite length_app. simpl. lia.
Qed.

Lemma table_insert_keeps c f k :
  0 <= k ∧ k / 2 < Z.of_nat (length c) → table_at (table_insert c f).2 k = table_at c k.
Proof.
  intros [H0 Hk]. destruct (table_insert_cases c f) as (j & b & _ & [[-> _]|(g & _ & _ & -> & _)]); [done|].
  by apply table_at_app.
Qed.

(** ** The transitive fanin of the outputs *)

Section Marked.
Context (s : list_network).
Context (Hbefore : ∀ i c, gate_node s i → c ∈ foreach_fanin s i → 0 <= c < i).
#[local] Notation N := (Z.of_nat (length (nodes s))).

Lemma gate_b_spec n : gate_b s n = true ↔ gate_node s n.
Proof. unfold gate_b. rewrite bool_decide_eq_true. unfold gate_node, num_nodes. tauto. Qed.

Lemma list_fanin_gate i c : c ∈ list_fanin s i → gate_node s i.
Proof.
  unfold list_fanin. destruct (vec_at (nodes s) i) as [d|] eqn:Ed; [|intros Hc; by apply not_elem_of_nil in Hc].
  unfold constant. destruct (Z.eqb_spec i 0), (Z.eqb_spec i 1); simpl; try (intros Hc; by apply not_elem_of_nil in Hc).
  case_bool_decide as Hi; intros Hc; [by apply not_elem_of_nil in Hc|].
  apply vec_at_range in Ed. split; [unfold num_nodes; lia|done].
Qed.

Lemma marked_loop (v : list Z) m :
  (∀ n, n ∈ m → n ∈ foldl (mark s) m v) ∧
  (∀ n, n ∈ foldl (mark s) m v → n ∈ m ∨ ∃ k, k ∈ v ∧ k ∈ foldl (mark s) m v ∧ n ∈ list_fanin s k).
Proof.
  revert m. induction v as [|k v IH]; intros m; simpl; [by split; [|left]|].
  destruct (IH (mark s m k)) as [H1 H2]. split.
  - intros n Hn. apply H1. unfold mark. case_bool_decide; set_solver.
  - intros n [Hn|(j & Hj & Hm & Hf)]%H2; [|right; exists j; split_and!; [by right|done|done]].
    unfold mark in Hn. case_bool_decide as Hk; [|by left]. apply elem_of_app in Hn as [Hn|?]; [|by left].
    right. exists k. split_and!; [by left| |done]. apply H1. unfold mark. case_bool_decide; set_solver.
Qed.

Lemma marked_reachable n : n ∈ marked s → reachable s n.
Proof.
  unfold marked. set (v := reverse _). destruct (marked_loop v (outputs s)) as [_ H2]. revert n.
  enough (∀ k n, N - n <= Z.of_nat k → n ∈ foldl (mark s) (outputs s) v → reachable s n) as Hk.
  { intros n. apply (Hk (Z.to_nat (N - n))). lia. }
  induction k as [|k IH]; intros n Hle [Hn|(j & Hj & Hm & Hf)]%H2; try (exists n; split; [done|constructor]).
  - pose proof (list_fanin_gate j n Hf) as Hg. specialize (Hbefore j n Hg Hf). destruct Hg.
    unfold num_nodes in *. lia.
  - pose proof (list_fanin_gate j n Hf) as Hg. pose proof (Hbefore j n Hg Hf).
    destruct (IH j) as (o & Ho & Hr); [lia|done|]. exists o. split; [done|]. eapply rtc_r; [done|exact Hf].
Qed.

Lemma marked_closed g c : g ∈ marked s → c ∈ list_fanin s g → c ∈ marked s.
Proof.
  intros Hg Hc. pose proof (list_fanin_gate g c Hc) as [Hr Hi]. unfold num_nodes in Hr.
  unfold marked in *. assert (seqZ 0 N = seqZ 0 g ++ g :: seqZ (g + 1) (N - (g + 1))) as E.
  { replace N with (g + (1 + (N - (g + 1)))) at 1 by lia. rewrite !seqZ_app by lia. done. }
  rewrite E, reverse_app, reverse_cons, <-app_assoc, !foldl_app in *. cbn [foldl reverse app] in *.
  set (m := foldl (mark s) (outputs s) (reverse (seqZ (g + 1) (N - (g + 1))))) in *.
  destruct (marked_loop (reverse (seqZ 0 g)) (mark s m g)) as [H1 H2]. apply H1.
  assert (g ∈ m) as Hm.
  { apply H2 in Hg as [Hg|(k & Hk & _ & Hf)].
    - unfold mark in Hg. case_bool_decide; done.
    - apply elem_of_reverse, elem_of_seqZ in Hk.
      specialize (Hbefore k g (list_fanin_gate k g Hf) Hf). lia. }
  unfold mark. rewrite bool_decide_true by done. apply elem_of_app. by left.
Qed.

Lemma marked_output o : o ∈ outputs s → o ∈ marked s.
Proof. apply marked_loop. Qed.

Lemma reachable_marked n : reachable s n → n ∈ marked s.
Proof.
  intros (o & Ho & Hr). apply marked_output in Ho. revert Ho. induction Hr as [|a b c Hab _ IH]; [done|].
  intros Ha. apply IH. by eapply marked_closed.
Qed.

Lemma list_topo_elem g : g ∈ list_topo s ↔ gate_node s g ∧ g ∈ marked s.
Proof.
  unfold list_topo. rewrite list_elem_of_filter, gate_b_spec, elem_of_seqZ.
  split; [tauto|]. intros [[Hr Hi] Hm]. unfold gate_node, num_nodes in *. split_and!; try done; lia.
Qed.

(** The fanins of a gate come before it. *)
Lemma list_topo_order pre g post c :
  list_topo s = pre ++ g :: post → c ∈ list_fanin s g → gate_node s c → c ∈ pre.
Proof.
  intros Ht Hc Hgc. assert (g ∈ list_topo s) as Hg by (rewrite Ht; set_solver).
  apply list_topo_elem in Hg as [Hgg Hgm].
  assert (c ∈ list_topo s) as Hct by (apply list_topo_elem; split; [done|by eapply marked_closed]).
  pose proof (Hbefore g c Hgg Hc) as Hlt.
  pose proof Hgg as [Hgr _]. unfold num_nodes in Hgr.
  assert (NoDup (list_topo s)) as Hnd by (apply NoDup_filter, NoDup_seqZ).
  pose proof Ht as Ht'. unfold list_topo in Ht'.
  replace N with (g + (1 + (N - (g + 1)))) in Ht' by lia.
  rewrite !seqZ_app, !filter_app in Ht' by lia. change (seqZ (0 + g) 1) with [0 + g] in Ht'.
  rewrite Z.add_0_l, filter_cons, decide_True in Ht' by (by rewrite gate_b_spec).
  apply not_elem_of_app_cons_inv_l in Ht' as (<- & _ & _).
  - apply list_elem_of_filter. rewrite gate_b_spec, elem_of_seqZ. split_and!; [done| |lia..].
    by eapply marked_closed.
  - rewrite Ht in Hnd. apply NoDup_app in Hnd as (_ & Hd & _). intros Hin. by apply (Hd g Hin); left.
  - rewrite list_elem_of_filter, elem_of_seqZ. lia.
Qed.
End Marked.

(** ** Levels *)

Section Levels.
Context (s : list_network).
Implicit Types (k : nat) (n : Z).

Definition level_entry (ls : list Z) n : Z :=
  if gate_b s n && bool_decide (n ∈ marked s)
  then 1 + foldr Z.max 0 ((λ c, nth (Z.to_nat c) ls 0) <$> list_fanin s n) else 0.

Lemma levels_upto_S k :
  levels_upto s (S k) = levels_upto s k ++ [level_entry (levels_upto s k) (Z.of_nat k)].
Proof.
  unfold levels_upto. rewrite Nat2Z.inj_succ, <-Z.add_1_r, seqZ_app, foldl_app by lia. done.
Qed.

Lemma length_levels_upto k : length (levels_upto s k) = k.
Proof. induction k as [|k IH]; [done|]. rewrite levels_upto_S, length_app, IH. simpl. lia. Qed.

Lemma nth_levels_upto k j :
  (j < k)%nat → nth j (levels_upto s k) 0 = level_entry (levels_upto s j) (Z.of_nat j).
Proof.
  intros Hj. induction k as [|k IH]; [lia|]. rewrite levels_upto_S.
  destruct (decide (j = k)) as [->|]; [|rewrite app_nth1 by (rewrite length_levels_upto; lia); apply IH; lia].
  rewrite app_nth2; rewrite length_levels_upto; [|lia]. by rewrite Nat.sub_diag.
Qed.

Lemma list_level_other n : ¬ gate_node s n → list_level s n = 0.
Proof.
  intros Hn. unfold list_level. case_decide; [done|].
  destruct (decide (Z.to_nat n < length (nodes s))%nat).
  - rewrite nth_levels_upto, Z2Nat.id by lia. unfold level_entry.
    destruct (gate_b s n) eqn:E; [by apply gate_b_spec in E|done].
  - apply nth_overflow. rewrite length_levels_upto. lia.
Qed.

Lemma list_level_gate n :
  (∀ i c, gate_node s i → c ∈ foreach_fanin s i → 0 <= c < i) → gate_node s n → reachable s n →
  list_level s n = 1 + foldr Z.max 0 (list_level s <$> list_fanin s n).
Proof.
  intros Hbefore Hn Hr. pose proof Hn as [Hlt _]. unfold num_nodes in Hlt.
  unfold list_level at 1. rewrite decide_False, nth_levels_upto, Z2Nat.id by lia. unfold level_entry.
  rewrite (proj2 (gate_b_spec s n)), bool_decide_true by (done || by apply reachable_marked).
  simpl. f_equal. f_equal. apply list_fmap_ext. intros i c Hc%list_elem_of_lookup_2.
  specialize (Hbefore n c Hn Hc). unfold list_level. rewrite decide_False by lia.
  by rewrite !nth_levels_upto by lia.
Qed.
End Levels.

(** ** The laws *)

Lemma list_copy_map_spec (s : list_network) :
  (∀ n, constant n = true → list_copy_map s !! n = Some n) ∧
  (∀ i n, NoDup (inputs s) → inputs s !! i = Some n → 2 <= n →
     list_copy_map s !! n = Some (2 + Z.of_nat i)) ∧
  (∀ n, list_copy_map s !! n ≠ None → constant n = true ∨ n ∈ inputs s).
Proof.
  unfold list_copy_map, constant. set (m := imap _ (inputs s)).
  assert (m.*1 = inputs s) as Hm.
  { apply list_eq. intros i. unfold m. rewrite list_lookup_fmap, list_lookup_imap. by destruct (inputs s !! i). }
  split_and!.
  - intros n [->%Z.eqb_eq| ->%Z.eqb_eq]%orb_true_iff; [by rewrite lookup_insert_eq|].
    by rewrite lookup_insert_ne, lookup_insert_eq.
  - intros i n Hnd Hi Hn. rewrite !lookup_insert_ne by lia. apply elem_of_list_to_map.
    + by rewrite Hm.
    + apply list_elem_of_lookup. exists i. unfold m. rewrite list_lookup_imap, Hi. done.
  - intros n Hn. destruct (Z.eqb_spec n 0); [by left|]. destruct (Z.eqb_spec n 1); [by left|]. right.
    rewrite !lookup_insert_ne in Hn by lia.
    destruct (list_to_map m !! n) as [x|] eqn:E; [|done]. apply elem_of_list_to_map_2 in E.
    rewrite <-Hm. apply list_elem_of_fmap. by exists (n, x).
Qed.

Lemma constant_spec n : constant n = bool_decide (n = 0 ∨ n = 1).
Proof.
  unfold constant. symmetry. destruct (Z.eqb_spec n 0), (Z.eqb_spec n 1); simpl;
    (apply bool_decide_true; lia) || (apply bool_decide_false; lia).
Qed.

#[export] Instance list_klut_laws : KlutLaws.
Proof.
  split.
  - exists (new_node [] 0), (new_node [] 1). split_and!; try done. apply list_cache_ok. split.
    + apply (bool_decide_unpack _). by vm_compute.
    + repeat constructor.
  - done.
  - intros s n. apply constant_spec.
  - done.
  - done.
  - done.
  - intros s n d Hd. cbn. by rewrite Hd.
  - intros s n d Hd. cbn. unfold list_fanin. by rewrite Hd.
  - done.
  - done.
  - intros s. eexists. split; [done|done].
  - intros s o s' E. cbn. unfold list_create_po. by rewrite E.
  - intros s. destruct (list_copy_map_spec s) as (H1 & H2 & H3). split_and!; [done|exact H1|exact H2|exact H3].
  - intros s g Hb Hg. by apply (list_topo_elem s g).
  - intros s _. apply NoDup_filter, NoDup_seqZ.
  - intros s pre g post c Hb. by apply list_topo_order.
  - intros s o Hb Ho Hg. apply list_topo_elem. split; [done|]. by apply marked_output.
  - intros s g Hb Hg. apply marked_reachable; [done|]. by apply list_topo_elem in Hg as [_ ?].
  - intros s n [Hn|Hn]; apply list_level_other.
    + cbn in Hn. rewrite constant_spec, bool_decide_eq_true in Hn. intros [? _]. lia.
    + by intros [_ ?].
  - exact list_level_gate.
  - intros c f Hc%list_cache_ok. apply list_cache_ok. exact (table_insert_ok c f Hc).
  - exact table_insert_size.
  - exact table_insert_literal.
  - exact table_insert_keeps.
  - by intros [].
Qed.
