(* ===== verification/FanoutSubstitution.v ===== *)
(** * Fanout substitution
      (include/fiction/algorithms/network_transformation/fanout_substitution.hpp)

    Module [FanoutSubstitution] has [fanout_substitution_impl] and [is_fanout_substituted_impl] for
    source and target networks of the type [technology_network], without names: the conversion of the
    network is its identity, and there are no registers. [None] stands for undefined behaviour, here
    the front of an empty queue and signed overflow. *)

From S2P Require Import Prelude.
From S2P Require Import GateLevelLayout.
From S2P Require Import TechnologyNetwork.
#[local] Open Scope Z_scope.
Import Technology.

Module FanoutSubstitution.

Inductive substitution_strategy := BREADTH | DEPTH.
#[export] Instance substitution_strategy_eq_dec : EqDecision substitution_strategy.
Proof. solve_decision. Defined.

(** The numbers have type [uint32_t]. *)
Record fanout_substitution_params := Params {
  strategy : substitution_strategy;
  degree : Z;
  threshold : Z;
}.

Definition default_params : fanout_substitution_params := Params BREADTH 2 1.

(** [static_cast<int32_t>] of a [uint32_t], and the difference of two [int32_t]. *)
Definition int32 (n : Z) : Z := if wrap 32 n <? 2 ^ 31 then wrap 32 n else wrap 32 n - 2 ^ 32.
Definition int32_sub (a b : Z) : option Z :=
  if (- 2 ^ 31 <=? a - b) && (a - b <? 2 ^ 31) then Some (a - b) else None.

(** [std::ceil] of the quotient of two 32-bit integers as [double]s, which is exact. *)
Definition ceil_div (a b : Z) : Z := (a + b - 1) / b.

Section FanoutSubstitution.
Context `{MT : GateLevel.Mockturtle} `{K : !Klut}.
Implicit Types (ntk substituted : network) (n child : Z).

(** The local variables of [run] and the member [available_fanouts]. Entries of a [node_map] that are
    not set are 0 or the empty queue. *)
Record state := State {
  substituted : network;
  old2new : gmap Z Z;
  available_fanouts : gmap Z (list Z);
}.

Definition old2new_at (m : gmap Z Z) n : Z := default 0 (m !! n).
Definition fanouts_at (m : gmap Z (list Z)) n : list Z := default [] (m !! n).

Section Run.
Context (ntk : network) (ps : fanout_substitution_params).

Definition num_fanouts n : option Z :=
  a ← int32_sub (int32 (fanout_size ntk n)) (int32 (threshold ps));
  b ← int32_sub (int32 (degree ps)) 1;
  Some (wrap 32 (ceil_div (Z.max a 0) (Z.max b 1))).

(** The loop of strategy [DEPTH]: a chain of buffers. *)
Fixpoint depth_tree (k : nat) (s : network) child (q : list Z) : option (network * list Z) :=
  match k with
  | O => Some (s, q)
  | S k' => '(s, child) ← create_buf s child; depth_tree k' s child (q ++ [child])
  end.

(** The loop of strategy [BREADTH]. *)
Fixpoint breadth_tree (k : nat) (s : network) (q : list Z) : option (network * list Z) :=
  match k with
  | O => Some (s, q)
  | S k' =>
      match q with
      | [] => None
      | child :: q =>
          '(s, child) ← create_buf s child;
          breadth_tree k' s (q ++ replicate (Z.to_nat (degree ps)) child)
      end
  end.

Definition generate_fanout_tree (st : state) n : option state :=
  b ← is_fanout ntk n;
  if b && (fanout_size ntk n <=? degree ps) then Some st
  else
    num ← num_fanouts n;
    let child := old2new_at (old2new st) n in
    if num =? 0 then Some st
    else
      '(s, q) ← match strategy ps with
                | DEPTH => depth_tree (Z.to_nat num) (substituted st) child []
                | BREADTH => breadth_tree (Z.to_nat num) (substituted st) [child]
                end;
      Some (State s (old2new st) (<[n := q]> (available_fanouts st))).

(** The loop that finds a fanout node with less than [degree] outputs, on a copy of the queue. *)
Fixpoint find_fanout (s : network) (fanouts : list Z) : option Z :=
  match fanouts with
  | [] => None
  | child :: fanouts' => if degree ps <=? fanout_size s child then find_fanout s fanouts' else Some child
  end.

Definition get_fanout (st : state) n child : option Z :=
  if threshold ps <=? fanout_size (substituted st) child then
    match fanouts_at (available_fanouts st) n with
    | [] => Some child
    | fanouts => find_fanout (substituted st) fanouts
    end
  else Some child.

Definition gather_child (st : state) (fn : Z) : option Z :=
  let child := old2new_at (old2new st) fn in
  if is_constant ntk fn then Some child else get_fanout st fn child.

(** The functor over the gates. *)
Definition substitute_gate (st : state) n : option state :=
  children ← mapM (gather_child st) (foreach_fanin ntk n);
  '(s, m) ← clone_node (substituted st) ntk n children;
  generate_fanout_tree (State s (<[n := m]> (old2new st)) (available_fanouts st)) n.

(** The functor over the outputs; [get_fanout] assigns to [tgt_signal], which it has by reference. *)
Definition substitute_output (st : state) (po : Z) : option state :=
  tgt_signal ← get_fanout st po (old2new_at (old2new st) po);
  '(s, tgt_po) ←
    if is_complemented po then create_not (substituted st) tgt_signal
    else Some (substituted st, tgt_signal);
  Some (State (create_po s tgt_po) (old2new st) (available_fanouts st)).

Definition fold_state {A} (f : state → A → option state) (st : option state) (v : list A) : option state :=
  foldl (λ st a, st ← st; f st a) st v.

Definition run : option network :=
  let init := initialize_copy_network ntk in
  let st := Some (State init.1 init.2 ∅) in
  let st := fold_state generate_fanout_tree st (inputs ntk) in
  let st := fold_state substitute_gate st (topo_gates ntk) in
  let st := fold_state substitute_output st (outputs ntk) in
  substituted <$> st.
End Run.

Definition fanout_substitution ntk ps : option network := run ntk ps.

(** The functor of [is_fanout_substituted]: the flag [substituted], which also ends the iteration. *)
Definition node_substituted ntk ps n : option bool :=
  if is_constant ntk n then Some true
  else
    b ← is_fanout ntk n;
    if (b : bool) then Some (fanout_size ntk n <=? degree ps)
    else Some (fanout_size ntk n <=? threshold ps).

Fixpoint all_substituted ntk ps (v : list Z) : option bool :=
  match v with
  | [] => Some true
  | n :: v' => b ← node_substituted ntk ps n; if (b : bool) then all_substituted ntk ps v' else Some false
  end.

Definition is_fanout_substituted ntk ps : option bool := all_substituted ntk ps (foreach_node ntk).
End FanoutSubstitution.
End FanoutSubstitution.
