(* ===== verification/FanoutTrees.v ===== *)
(** * The trees of fanout substitution

    How many outputs the nodes of a list have left ([capacity]), and what the loops of both strategies
    build: a tree of buffers with the value of its root and enough free outputs ([grown]). *)

From S2P Require Import Prelude.
From S2P Require Import GateLevelLayout.
From S2P Require Import TechnologyNetwork.
From S2P Require Import TechnologyInvariant.
From S2P Require Import NetworkCopy.
From S2P Require Import FanoutSubstitution.
#[local] Open Scope Z_scope.
Import Technology.
Import FanoutSubstitution.

(** ** The number of outputs that fanout nodes have left *)

Section Capacity.
Context (deg : Z).
Implicit Types (u : Z → Z) (b : list Z).

Definition capacity u b : Z := foldr (λ x a, Z.max 0 (deg - u x) + a) 0 b.

Lemma capacity_nonneg u b : 0 <= capacity u b.
Proof. induction b as [|x b IH]; simpl; lia. Qed.

Lemma capacity_app u b c : capacity u (b ++ c) = capacity u b + capacity u c.
Proof. induction b as [|x b IH]; simpl; lia. Qed.

Lemma capacity_pos u b : 0 < capacity u b → ∃ x, x ∈ b ∧ u x < deg.
Proof.
  induction b as [|x b IH]; simpl; [lia|]. intros Hc. destruct (decide (u x < deg)).
  - exists x. split; [left|done].
  - destruct IH as (y & ? & ?); [lia|]. exists y. split; [by right|done].
Qed.

Lemma capacity_ext u u' b : (∀ x, x ∈ b → u x = u' x) → capacity u b = capacity u' b.
Proof.
  induction b as [|x b IH]; simpl; intros Hu; [done|]. rewrite Hu, IH; [done| |left].
  intros y Hy. apply Hu. by right.
Qed.

(** Uses of one node take as much. *)
Lemma capacity_use u u' b y d :
  NoDup b → 0 <= d → (∀ x, x ∈ b → u' x = u x + if decide (x = y) then d else 0) →
  capacity u b <= capacity u' b + if decide (y ∈ b) then d else 0.
Proof.
  intros Hb Hd Hu. induction Hb as [|x b Hx Hb IH]; [case_decide; simpl; lia|]. simpl.
  rewrite (Hu x) by left. assert (capacity u b <= capacity u' b + if decide (y ∈ b) then d else 0) as Hle.
  { apply IH. intros z Hz. apply Hu. by right. }
  destruct (decide (x = y)) as [->|Hne].
  - rewrite decide_False in Hle by done. rewrite decide_True by left. lia.
  - destruct (decide (y ∈ b)); [rewrite decide_True by (by right)|rewrite decide_False by set_solver]; lia.
Qed.

(** A list that has every node as often as it has outputs left. *)
Lemma capacity_slots u b q :
  NoDup b → (∀ x, x ∈ q → x ∈ b) → (∀ x, x ∈ b → u x + occurrences x q = deg) →
  capacity u b = Z.of_nat (length q).
Proof.
  intros Hb Hq Hu.
  assert (capacity u b = foldr (λ x a, occurrences x q + a) 0 b) as ->.
  { clear Hb Hq. induction b as [|x b IH]; simpl; [done|]. rewrite IH by (intros; apply Hu; by right).
    pose proof (Hu x ltac:(left)). pose proof (occurrences_nonneg x q). lia. }
  clear Hu. induction q as [|y q IH]; simpl.
  { clear. induction b as [|x b IH]; simpl; [done|]. rewrite IH. done. }
  rewrite Nat2Z.inj_succ, <-IH by (intros; apply Hq; by right). clear IH.
  assert (y ∈ b) as Hy by (apply Hq; left). clear Hq. induction Hb as [|x b Hx Hb IH]; simpl.
  { by apply not_elem_of_nil in Hy. }
  rewrite occurrences_cons. destruct (decide (y = x)) as [->|Hne].
  - assert (∀ c, x ∉ c → foldr (λ z a, occurrences z (x :: q) + a) 0 c =
                         foldr (λ z a, occurrences z q + a) 0 c) as Hc.
    { clear. induction c as [|z c IH]; simpl; intros Hz; [done|].
      rewrite IH, occurrences_cons, decide_False by set_solver. done. }
    rewrite Hc by done. lia.
  - rewrite IH by set_solver. lia.
Qed.
End Capacity.

Section Trees.
Context `{MT : GateLevel.Mockturtle} `{K : !Klut} `{ML : !GateLevel.MockturtleLaws} `{KL : !KlutLaws}.
Context (ps : fanout_substitution_params) (Hdeg : 2 <= degree ps).
Implicit Types (s : network) (x c : Z) (q b : list Z).

Lemma is_buf_extends s s' x : extends s s' → is_buf s x = Some true → is_buf s' x = Some true.
Proof.
  intros He. unfold is_buf. rewrite !klut_is_pi, (ext_inputs _ _ He).
  intros (b & Hl & Hb)%fmap_Some. symmetry in Hb. apply andb_true_iff in Hb as [-> Hb].
  rewrite (extends_literal s s') by done. simpl. by rewrite Hb.
Qed.

(** ** Trees of fanout nodes *)

Section Tree.
Context s (root : Z) (Hs : network_wf s) (Hroot : 0 <= root < num_nodes s).

(** The network [s'] after [k] buffers in a tree with the given root. *)
Record tree (k : Z) s' : Prop := {
  tr_wf : network_wf s';
  tr_extends : extends s s';
  tr_num : num_nodes s' = num_nodes s + k;
  tr_outputs : outputs s' = outputs s;
  tr_uses x : 0 <= x < num_nodes s → uses s' x = uses s x + if decide (x = root ∧ 0 < k) then 1 else 0;
  tr_new x : num_nodes s <= x < num_nodes s' →
    is_buf s' x = Some true ∧ uses s' x <= degree ps ∧ ∀ ins, value s' ins x = value s ins root;
}.

Lemma tree_0 : tree 0 s.
Proof.
  split; [done|done|lia|done|..].
  - intros x _. rewrite decide_False by lia. lia.
  - lia.
Qed.

(** The next buffer hangs on the root first, and on a buffer that is not full from then on. *)
Definition hook (k : Z) s1 c : Prop :=
  if decide (k = 0) then c = root else num_nodes s <= c < num_nodes s1 ∧ uses s1 c < degree ps.

Lemma hook_value k s1 c ins : tree k s1 → hook k s1 c → value s1 ins c = value s ins root.
Proof.
  intros Ht Hc. unfold hook in Hc. case_decide as Hk.
  - subst c. by apply (extends_value s s1 ins root Hs (tr_wf _ _ Ht) (tr_extends _ _ Ht)).
  - destruct Hc as [Hc _]. by destruct (tr_new _ _ Ht c Hc) as (_ & _ & ->).
Qed.

Lemma tree_grow k s1 c :
  0 <= k → tree k s1 → hook k s1 c →
  ∃ s2, create_buf s1 c = Some (s2, num_nodes s + k) ∧ tree (k + 1) s2 ∧
    (∀ x, 0 <= x < num_nodes s2 → uses s2 x = uses s1 x + occurrences x [c]) ∧
    uses s2 (num_nodes s + k) = 0.
Proof.
  intros Hk Ht Hc. pose proof (tr_wf _ _ Ht) as Hs1. pose proof (tr_num _ _ Ht) as Hn1.
  assert (0 <= c < num_nodes s1) as Hcr by (unfold hook in Hc; case_decide; lia).
  assert (c < num_nodes s → c = root ∧ k = 0) as Hold by (unfold hook in Hc; case_decide; lia).
  destruct (create_buf_spec s1 c Hs1 Hcr) as (s2 & E & Ha & _). rewrite Hn1 in E.
  pose proof (added_num _ _ _ _ Ha) as Hn2. pose proof (added_uses _ _ _ _ Ha) as Hu.
  assert (uses s2 (num_nodes s + k) = 0) as Hfresh.
  { rewrite Hu, uses_fresh, occurrences_cons, decide_False by (done || lia). done. }
  exists s2. split; [done|]. split; [|done]. split.
  - apply Ha.
  - etrans; [exact (tr_extends _ _ Ht)|exact (added_extends _ _ _ _ Ha)].
  - lia.
  - rewrite (added_outputs _ _ _ _ Ha). exact (tr_outputs _ _ Ht).
  - intros x Hx. rewrite Hu, (tr_uses _ _ Ht), occurrences_cons by lia. change (occurrences x []) with 0.
    repeat case_decide; lia.
  - intros x Hx. destruct (decide (x = num_nodes s1)) as [->|].
    + split_and!.
      * apply is_buf_gate; [apply (added_literal _ _ _ _ Ha)|apply (added_gate s1 [c] 2); done].
      * rewrite Hn1, Hfresh. lia.
      * intros ins. rewrite (added_buf_value s1 c) by done. by apply (hook_value k).
    + destruct (tr_new _ _ Ht x) as (Hb & Hl & Hv); [lia|]. split_and!.
      * eapply is_buf_extends; [apply Ha|done].
      * rewrite Hu, occurrences_cons by lia. change (occurrences x []) with 0.
        case_decide; [|lia]. subst x. unfold hook in Hc. case_decide; lia.
      * intros ins. rewrite <-Hv. apply extends_value; [done|apply Ha..|]. lia.
Qed.

(** The tree of [k] buffers that [available_fanouts] gets, with the outputs that it has left. *)
Record grown (k : Z) s' q : Prop := {
  gr_tree : tree k s';
  gr_nonempty : q ≠ [];
  gr_range x : x ∈ q → num_nodes s <= x < num_nodes s';
  gr_capacity : ∃ b, NoDup b ∧ b ⊆ q ∧ 1 + k * (degree ps - 1) <= capacity (degree ps) (uses s') b;
}.

(** *** Strategy DEPTH *)

Record chain (k : Z) s1 c q : Prop := {
  ch_tree : tree k s1;
  ch_queue : q = seqZ (num_nodes s) k;
  ch_end : c = if decide (k = 0) then root else num_nodes s + k - 1;
  ch_uses x : num_nodes s <= x < num_nodes s + k →
    uses s1 x = if decide (x = num_nodes s + k - 1) then 0 else 1;
}.

Lemma chain_hook k s1 c q : 0 <= k → chain k s1 c q → hook k s1 c.
Proof.
  intros Hk [Ht _ -> Hu]. unfold hook. case_decide; [done|]. rewrite (tr_num _ _ Ht).
  split; [lia|]. rewrite Hu by lia. case_decide; lia.
Qed.

Lemma depth_tree_spec j : ∀ k s1 c q,
  0 <= k → chain k s1 c q → ∃ s' c' q', depth_tree j s1 c q = Some (s', q') ∧
    chain (k + Z.of_nat j) s' c' q'.
Proof.
  induction j as [|j IH]; intros k s1 c q Hk Hc; simpl.
  { rewrite Z.add_0_r. eauto. }
  destruct (tree_grow k s1 c Hk) as (s2 & -> & Ht & Hu & Hf); [apply Hc|by eapply chain_hook|].
  cbn [mbind option_bind]. replace (k + Z.of_nat (S j)) with (k + 1 + Z.of_nat j) by lia.
  apply IH; [lia|]. destruct Hc as [Ht1 -> -> Hu1]. pose proof (tr_num _ _ Ht). split; [done|..].
  - rewrite seqZ_app by lia. done.
  - rewrite decide_False by lia. lia.
  - intros x Hx. destruct (decide (x = num_nodes s + k)) as [->|].
    + rewrite decide_True by lia. done.
    + rewrite decide_False by lia. rewrite Hu, Hu1, occurrences_cons by lia. change (occurrences x []) with 0.
      repeat case_decide; lia.
Qed.

Lemma chain_grown k s1 c q : 0 < k → chain k s1 c q → grown k s1 q.
Proof.
  intros Hk [Ht -> _ Hu]. split; [done|..].
  - intros E%(f_equal length). rewrite length_seqZ in E. simpl in E. lia.
  - intros x Hx%elem_of_seqZ. rewrite (tr_num _ _ Ht). lia.
  - exists (seqZ (num_nodes s) k). split_and!; [apply NoDup_seqZ|done|].
    assert (∀ j : nat, (∀ x, num_nodes s <= x < num_nodes s + Z.of_nat j → uses s1 x = 1) →
      capacity (degree ps) (uses s1) (seqZ (num_nodes s) (Z.of_nat j)) = Z.of_nat j * (degree ps - 1)) as Hj.
    { induction j as [|j IH]; intros Hx; [done|]. rewrite Nat2Z.inj_succ, <-Z.add_1_r, seqZ_app by lia.
      rewrite capacity_app, IH by (intros; apply Hx; lia). simpl. rewrite Hx by lia. lia. }
    replace k with (Z.of_nat (Z.to_nat (k - 1)) + 1) at 2 by lia.
    rewrite seqZ_app, capacity_app, Hj by (lia || (intros x Hx; rewrite Hu by lia; case_decide; lia)).
    simpl. rewrite Hu by lia. rewrite decide_True by lia. nia.
Qed.

(** *** Strategy BREADTH *)

Record slots (k : Z) s1 q : Prop := {
  sl_tree : tree k s1;
  sl_length : Z.of_nat (length q) = 1 + k * (degree ps - 1);
  sl_range x : x ∈ q → num_nodes s <= x < num_nodes s + k;
  sl_uses x : num_nodes s <= x < num_nodes s + k → uses s1 x + occurrences x q = degree ps;
}.

Lemma occurrences_tree x q : num_nodes s <= x → (∀ y, y ∈ q → y < num_nodes s) → occurrences x q = 0.
Proof. intros Hx Hq. apply occurrences_not_elem. intros ?%Hq. lia. Qed.

Lemma breadth_tree_spec j : ∀ k s1 q,
  0 < k → slots k s1 q → ∃ s' q', breadth_tree ps j s1 q = Some (s', q') ∧ slots (k + Z.of_nat j) s' q'.
Proof.
  induction j as [|j IH]; intros k s1 q Hk [Ht Hl Hr Hu]; simpl.
  { rewrite Z.add_0_r. eauto using Build_slots. }
  destruct q as [|c q]; [simpl in Hl; nia|]. rewrite length_cons in Hl.
  pose proof (Hr c ltac:(left)) as Hc. pose proof (tr_num _ _ Ht).
  destruct (tree_grow k s1 c) as (s2 & -> & Ht2 & Hu2 & Hf); [lia|done|..].
  { unfold hook. rewrite decide_False by lia. split; [lia|]. specialize (Hu c Hc).
    rewrite occurrences_cons, decide_True in Hu by done. pose proof (occurrences_nonneg c q). lia. }
  cbn [mbind option_bind]. replace (k + Z.of_nat (S j)) with (k + 1 + Z.of_nat j) by lia.
  pose proof (tr_num _ _ Ht2). apply IH; [lia|]. split; [done|..].
  - rewrite length_app, length_replicate. lia.
  - intros x [Hx|Hx%elem_of_replicate]%elem_of_app; [|lia]. specialize (Hr x ltac:(by right)). lia.
  - intros x Hx. rewrite occurrences_app, occurrences_replicate.
    destruct (decide (x = num_nodes s + k)) as [->|].
    + rewrite Hf, decide_True by done. rewrite occurrences_not_elem; [lia|].
      intros Hin. specialize (Hr (num_nodes s + k) ltac:(by right)). lia.
    + rewrite decide_False by done. specialize (Hu x ltac:(lia)). rewrite occurrences_cons in Hu.
      rewrite Hu2, occurrences_cons by lia. change (occurrences x []) with 0. repeat case_decide; lia.
Qed.

Lemma breadth_tree_root j :
  ∃ s' q', breadth_tree ps (S j) s [root] = Some (s', q') ∧ slots (Z.of_nat (S j)) s' q'.
Proof.
  simpl. destruct (tree_grow 0 s root) as (s2 & -> & Ht2 & Hu2 & Hf); [done|apply tree_0|by unfold hook|].
  cbn [mbind option_bind]. replace (Z.of_nat (S j)) with (1 + Z.of_nat j) by lia.
  apply breadth_tree_spec; [done|]. rewrite Z.add_0_r in *. split; [done|..].
  - simpl. rewrite length_replicate. lia.
  - simpl. intros x Hx%elem_of_replicate. lia.
  - simpl. intros x Hx. assert (x = num_nodes s) as -> by lia.
    rewrite Hf, occurrences_replicate, decide_True by done. lia.
Qed.

Lemma slots_grown k s1 q : 0 < k → slots k s1 q → grown k s1 q.
Proof.
  intros Hk [Ht Hl Hr Hu]. pose proof (tr_num _ _ Ht) as Hn. split; [done|..].
  - intros ->. simpl in Hl. nia.
  - intros x Hx%Hr. lia.
  - exists (filter (λ x, x ∈ q) (seqZ (num_nodes s) k)). split_and!.
    + apply NoDup_filter, NoDup_seqZ.
    + intros x [? _]%list_elem_of_filter. done.
    + rewrite (capacity_slots _ _ _ q); [lia|apply NoDup_filter, NoDup_seqZ|..].
      * intros x Hx. apply list_elem_of_filter. split; [done|]. apply elem_of_seqZ. apply Hr in Hx. lia.
      * intros x [_ Hx%elem_of_seqZ]%list_elem_of_filter. apply Hu. lia.
Qed.
End Tree.
End Trees.

