(* ===== verification/FanoutProperties.v ===== *)
(** * Correctness of fanout substitution

    For a well-formed network, a degree of at least 2 and a threshold of at least 1, fanout
    substitution never runs out of fanout nodes and returns a network with the same inputs and the
    same functions ([substitution_equivalent]); if no gate has a node at two of its fanins and the
    threshold is not above the degree, the result passes the check of [is_fanout_substituted]
    ([substitution_bounds_fanouts]). *)

From S2P Require Import Prelude.
From S2P Require Import GateLevelLayout.
From S2P Require Import TechnologyNetwork.
From S2P Require Import TechnologyInvariant.
From S2P Require Import NetworkCopy.
From S2P Require Import FanoutSubstitution.
From S2P Require Import FanoutTrees.
#[local] Open Scope Z_scope.
Import Technology.
Import FanoutSubstitution.

(** ** The invariant *)

Section Families.
Context `{MT : GateLevel.Mockturtle} `{K : !Klut} `{ML : !GateLevel.MockturtleLaws} `{KL : !KlutLaws}.
Context (ntk : network) (ps : fanout_substitution_params).

(** No gate has a node at two of its fanins. *)
Definition distinct_fanins : Prop :=
  ∀ g, gate_node ntk g → NoDup (filter (λ f, 2 <= f) (foreach_fanin ntk g)).

(** A node that gets no fanout tree. *)
Definition plain_limit (n : Z) : Prop :=
  (is_buf ntk n = Some true ∧ uses ntk n <= degree ps) ∨ uses ntk n <= threshold ps.

(** The new nodes for the node [n], with [R] uses to come: [owner] maps them to [n], [m] is the copy
    of [n], [q] its queue of fanout nodes, [N] the size of the new network and [u] its uses. *)
Inductive family (owner : Z → Z) (N : Z) (u : Z → Z) (n m : Z) (q : list Z) (R : Z) : Prop :=
| plain_family :
    q = [] → plain_limit n →
    (∀ x, 2 <= x < N → owner x = n → x = m) →
    u m + R <= uses ntk n →
    family owner N u n m q R
| tree_family b :
    q ≠ [] → (∀ x, x ∈ q → 2 <= x < N ∧ owner x = n ∧ x ≠ m) →
    (distinct_fanins → u m <= threshold ps) →
    (∀ x, 2 <= x < N → owner x = n → x ≠ m → distinct_fanins → u x <= degree ps) →
    (∀ x, 2 <= x < N → owner x = n → u x + R <= degree ps + uses ntk n) →
    NoDup b → b ⊆ q → R <= Z.max 0 (threshold ps - u m) + capacity (degree ps) u b →
    family owner N u n m q R.

(** What [get_fanout] answers for [n]. *)
Definition answer (u : Z → Z) (m : Z) q (x : Z) : Prop :=
  match q with
  | [] => x = m
  | _ => (x = m ∧ u m < threshold ps) ∨ (x ∈ q ∧ u x < degree ps)
  end.

Lemma answer_owner owner N u n m q R x :
  family owner N u n m q R → 2 <= m < N → owner m = n → answer u m q x → 2 <= x < N ∧ owner x = n.
Proof.
  intros Hf Hm Ho. unfold answer. destruct q as [|y q]; [by intros ->|].
  intros [[-> _]|[Hx _]]; [done|]. destruct Hf as [|b _ Hq]; [done|]. by destruct (Hq x Hx) as (? & ? & _).
Qed.

(** The same answer for [d] fanins. *)
Lemma family_use owner N u u' n m q R x d :
  family owner N u n m q R → 2 <= m < N → owner m = n → answer u m q x →
  0 <= d <= R → (distinct_fanins → d <= 1) →
  (∀ y, 2 <= y < N → owner y = n → u' y = u y + if decide (y = x) then d else 0) →
  family owner N u' n m q (R - d).
Proof.
  intros Hf Hm Ho Ha Hd Hd1 Hu. pose proof (Hu m Hm Ho) as Hum.
  destruct Hf as [-> Hp Hone Hr|b Hne Hq Ht Hl Hs Hb Hbq Hc].
  - apply plain_family; [done..|]. cbn in Ha. subst x. rewrite decide_True in Hum by done. lia.
  - assert ((x = m ∧ u m < threshold ps) ∨ (x ∈ q ∧ u x < degree ps)) as Hx by (by destruct q).
    assert (∀ y, y ∈ b → u' y = u y + if decide (y = x) then d else 0) as Hub.
    { intros y Hy. destruct (Hq y (Hbq y Hy)) as (? & ? & _). by apply Hu. }
    pose proof (capacity_use (degree ps) u u' b x d Hb (proj1 Hd) Hub) as Hcap.
    pose proof (capacity_nonneg (degree ps) u' b).
    apply tree_family with b; try done.
    + intros Hdist. specialize (Ht Hdist). specialize (Hd1 Hdist). rewrite Hum.
      destruct (decide (m = x)); [|lia]. subst x. destruct Hx as [[_ ?]|[Hx _]]; [lia|]. by apply Hq in Hx as (_ & _ & ?).
    + intros y Hy Hoy Hne' Hdist. specialize (Hl y Hy Hoy Hne' Hdist). specialize (Hd1 Hdist).
      rewrite (Hu y Hy Hoy). destruct (decide (y = x)); [|lia]. subst y. destruct Hx as [[? _]|[_ ?]]; [done|lia].
    + intros y Hy Hoy. specialize (Hs y Hy Hoy). rewrite (Hu y Hy Hoy). destruct (decide (y = x)); lia.
    + destruct Hx as [[-> Hx]|[Hx Hlt]].
      * rewrite decide_True in Hum by done. rewrite decide_False in Hcap; [lia|].
        intros Hin%Hbq. by apply Hq in Hin as (_ & _ & ?).
      * rewrite decide_False in Hum; [destruct (decide (x ∈ b)); lia|]. intros <-. by apply Hq in Hx as (_ & _ & ?).
Qed.

(** Nodes of other families do not matter. *)
Lemma family_frame owner owner' N N' u u' n m q R :
  family owner N u n m q R → 2 <= m < N → owner m = n → N <= N' →
  (∀ x, 2 <= x < N → owner' x = owner x) → (∀ x, N <= x < N' → owner' x ≠ n) →
  (∀ x, 2 <= x < N → owner x = n → u' x = u x) →
  family owner' N' u' n m q R.
Proof.
  intros Hf Hm Ho HN Hown Hnew Hu.
  assert (∀ x, 2 <= x < N' → owner' x = n → 2 <= x < N ∧ owner x = n) as Hold.
  { intros x Hx E. destruct (decide (x < N)); [|by destruct (Hnew x ltac:(lia))]. split; [lia|].
    by rewrite <-Hown by lia. }
  destruct Hf as [-> Hp Hone Hr|b Hne Hq Ht Hl Hs Hb Hbq Hc].
  - apply plain_family; [done..| |by rewrite Hu]. intros x Hx E. destruct (Hold x Hx E). by apply Hone.
  - apply tree_family with b; try done.
    + intros x Hx. destruct (Hq x Hx) as (? & <- & ?). split_and!; [lia..| |done]. apply Hown. lia.
    + by rewrite Hu.
    + intros x Hx E. destruct (Hold x Hx E). rewrite Hu by done. by apply Hl.
    + intros x Hx E. destruct (Hold x Hx E). rewrite Hu by done. by apply Hs.
    + rewrite Hu by done. rewrite <-(capacity_ext (degree ps) u u' b); [done|].
      intros x Hx. symmetry. destruct (Hq x (Hbq x Hx)) as (? & ? & _). by apply Hu.
Qed.
End Families.

(** ** The steps of fanout substitution *)

Section Steps.
Context `{MT : GateLevel.Mockturtle} `{K : !Klut} `{ML : !GateLevel.MockturtleLaws} `{KL : !KlutLaws}.
Context (ntk : network) (ps : fanout_substitution_params) (Hntk : network_wf ntk).
Context (Hdeg : 2 <= degree ps < 2 ^ 31) (Hthr : 1 <= threshold ps < 2 ^ 31).
Context (Hsmall : ∀ n, uses ntk n + degree ps < 2 ^ 31).
Implicit Types (st : state) (n x : Z) (pre dn rest : list Z) (owner : Z → Z).

Definition root st n : Z := old2new_at (old2new st) n.
Definition queue st n : list Z := fanouts_at (available_fanouts st) n.

(** The nodes in [pre] are copied, those in [dn] have their trees; [rest] are the uses to come. *)
Record subst_inv pre dn rest st owner : Prop := {
  si_copied : copied ntk pre (substituted st) (old2new st);
  si_root n : copied_node ntk pre n → 2 <= n → owner (root st n) = n;
  si_node x : 2 <= x < num_nodes (substituted st) →
    (copied_node ntk pre (owner x) ∧ 2 <= owner x) ∧
    (∀ ins, value (substituted st) ins x = value ntk ins (owner x)) ∧
    (x ≠ root st (owner x) ∨ is_buf ntk (owner x) = Some true → is_buf (substituted st) x = Some true);
  si_done n : n ∈ dn → copied_node ntk pre n ∧ 2 <= n;
  si_queue n : n ∉ dn → queue st n = [];
  si_fresh n : copied_node ntk pre n → 2 <= n → n ∉ dn →
    uses (substituted st) (root st n) = 0 ∧
    (∀ x, 2 <= x < num_nodes (substituted st) → owner x = n → x = root st n);
  si_family n : n ∈ dn →
    family ntk ps owner (num_nodes (substituted st)) (uses (substituted st)) n (root st n) (queue st n)
      (occurrences n rest);
}.

(** *** Sizes *)

Lemma fanout_size_uses s x :
  network_wf s → 0 <= x < num_nodes s → uses s x < 2 ^ 31 → fanout_size s x = uses s x.
Proof.
  intros Hs Hx Hu. rewrite (wf_uses _ Hs) by done. apply wrap_small. pose proof (uses_nonneg s x). done.
Qed.

Lemma ntk_fanout_size n : 0 <= n < num_nodes ntk → fanout_size ntk n = uses ntk n.
Proof. intros Hn. apply fanout_size_uses; [done..|]. specialize (Hsmall n). lia. Qed.

Lemma is_fanout_eq s x :
  0 <= x < num_nodes s → ∃ b, is_buf s x = Some b ∧ is_fanout s x = Some (b && (1 <? fanout_size s x)).
Proof.
  intros [d Hd]%node_at. unfold is_fanout, is_buf, has_literal. rewrite Hd. cbn. eauto.
Qed.

Lemma int32_small a : 0 <= a < 2 ^ 31 → int32 a = a.
Proof.
  intros Ha. unfold int32. rewrite wrap_small by (unfold in_width; lia). by destruct (Z.ltb_spec a (2 ^ 31)); [|lia].
Qed.

Lemma num_fanouts_spec n :
  0 <= n < num_nodes ntk → ∃ k, num_fanouts ntk ps n = Some k ∧ 0 <= k ∧
    uses ntk n <= threshold ps + k * (degree ps - 1).
Proof.
  intros Hn. pose proof (uses_nonneg ntk n) as Hu. pose proof (Hsmall n) as Hs.
  unfold num_fanouts. rewrite ntk_fanout_size, !int32_small by lia. unfold int32_sub.
  rewrite !(proj2 (andb_true_iff _ _)) by (rewrite Z.leb_le, Z.ltb_lt; lia). cbn [mbind option_bind].
  eexists. split; [done|]. set (a := Z.max (uses ntk n - threshold ps) 0).
  rewrite (Z.max_l (degree ps - 1)) by lia. set (b := degree ps - 1).
  assert (0 <= a < 2 ^ 31) as Ha by (subst a; lia). assert (0 < b < 2 ^ 31) as Hb by (subst b; lia).
  assert (0 <= ceil_div a b < 2 ^ 32) as Hc.
  { unfold ceil_div. split; [apply Z.div_pos; lia|]. apply Z.div_lt_upper_bound; [lia|]. nia. }
  rewrite wrap_small by (unfold in_width; lia). split; [lia|].
  assert (a <= ceil_div a b * b) as Hab.
  { unfold ceil_div. pose proof (Z.div_mod (a + b - 1) b ltac:(lia)). pose proof (Z.mod_pos_bound (a + b - 1) b ltac:(lia)). lia. }
  subst a. lia.
Qed.

(** *** Trees *)

Lemma copied_range pre n : copied_node ntk pre n → (∀ g, g ∈ pre → gate_node ntk g) → 0 <= n < num_nodes ntk.
Proof.
  pose proof (wf_constants _ Hntk). intros [->|[->|[Hn|Hn]]] Hpre; [lia..| |].
  - apply (wf_inputs _ Hntk) in Hn. lia.
  - apply Hpre in Hn as [? _]. lia.
Qed.

Lemma root_copied pre st n :
  copied ntk pre (substituted st) (old2new st) → copied_node ntk pre n →
  0 <= root st n < num_nodes (substituted st) ∧ (2 <= n → 2 <= root st n) ∧
  (n = 0 ∨ n = 1 → root st n = n) ∧
  ∀ ins, value (substituted st) ins (root st n) = value ntk ins n.
Proof.
  intros Hc Hn. destruct (cp_node _ _ _ _ Hc n Hn) as (m & Hm & ?). unfold root, old2new_at. rewrite Hm. tauto.
Qed.

Lemma generate_cases st n :
  network_wf (substituted st) → 0 <= root st n < num_nodes (substituted st) → 0 <= n < num_nodes ntk →
  (generate_fanout_tree ntk ps st n = Some st ∧ plain_limit ntk ps n) ∨
  ∃ k s' q, 0 < k ∧
    generate_fanout_tree ntk ps st n = Some (State s' (old2new st) (<[n := q]> (available_fanouts st))) ∧
    grown ps (substituted st) (root st n) k s' q ∧ uses ntk n <= threshold ps + k * (degree ps - 1).
Proof.
  intros Hs Hr Hn. unfold generate_fanout_tree. destruct (is_fanout_eq ntk n Hn) as (b & Hb & ->).
  rewrite ntk_fanout_size by done. cbn [mbind option_bind].
  destruct (b && (1 <? uses ntk n) && (uses ntk n <=? degree ps)) eqn:E.
  { left. split; [done|]. left. zbool. destruct b; [|done]. split; [done|lia]. }
  destruct (num_fanouts_spec n Hn) as (k & -> & Hk & Hle). cbn [mbind option_bind].
  destruct (Z.eqb_spec k 0) as [->|Hk0]; [left; split; [done|right; lia]|]. right.
  fold (root st n). exists k. destruct (strategy ps).
  - destruct (breadth_tree_root ps ltac:(lia) (substituted st) (root st n) Hs Hr (Z.to_nat (k - 1)))
      as (s' & q & Ht & Hsl).
    replace (S (Z.to_nat (k - 1))) with (Z.to_nat k) in * by lia. rewrite Z2Nat.id in Hsl by lia.
    rewrite Ht. exists s', q. split_and!; [lia|done| |done]. apply slots_grown; [lia..|done].
  - destruct (depth_tree_spec ps ltac:(lia) (substituted st) (root st n) Hs Hr (Z.to_nat k) 0 (substituted st)
      (root st n) []) as (s' & c' & q & Ht & Hch); [done| |].
    { split; [by apply tree_0|done|done|lia]. }
    rewrite Z.add_0_l, Z2Nat.id in Hch by lia. rewrite Ht. exists s', q. split_and!; [lia|done| |done].
    eapply chain_grown; [lia|lia|exact Hch].
Qed.

(** The new nodes of a tree belong to the node [n]. *)
Definition grow_owner owner (N n : Z) x : Z := if x <? N then owner x else n.

Lemma grow_owner_old owner N n x : x < N → grow_owner owner N n x = owner x.
Proof. unfold grow_owner. by destruct (Z.ltb_spec x N); [|lia]. Qed.
Lemma grow_owner_new owner N n x : N <= x → grow_owner owner N n x = n.
Proof. unfold grow_owner. by destruct (Z.ltb_spec x N); [lia|]. Qed.

Section Generate.
Context pre dn rest st owner (Hinv : subst_inv pre dn rest st owner).
Context n (Hn : copied_node ntk pre n) (Hn2 : 2 <= n) (Hdn : n ∉ dn).
Context (Hrest : occurrences n rest <= uses ntk n).
#[local] Notation s0 := (substituted st).
#[local] Notation N := (num_nodes (substituted st)).

Lemma generate_plain : plain_limit ntk ps n → subst_inv pre (n :: dn) rest st owner.
Proof.
  intros Hp. destruct Hinv as [Hc Hr Hx Hd Hq Hf Hfam]. split; try done.
  - intros n' [->|?]%elem_of_cons; auto.
  - intros n' [? ?]%not_elem_of_cons. auto.
  - intros n' ? ? [? ?]%not_elem_of_cons. auto.
  - intros n' [->|?]%elem_of_cons; [|by apply Hfam]. destruct (Hf n Hn Hn2 Hdn) as [Hu Ho].
    apply plain_family; [by apply Hq|done|exact Ho|rewrite Hu; lia].
Qed.

Context k s' q (Hk : 0 < k) (Hg : grown ps s0 (root st n) k s' q).
Context (Hle : uses ntk n <= threshold ps + k * (degree ps - 1)).
Let st' := State s' (old2new st) (<[n := q]> (available_fanouts st)).
Let owner' := grow_owner owner N n.

Lemma grown_num : num_nodes s' = N + k.
Proof. exact (tr_num _ _ _ _ _ (gr_tree _ _ _ _ _ _ Hg)). Qed.

Lemma grown_uses x : 0 <= x < N → uses s' x = uses s0 x + if decide (x = root st n) then 1 else 0.
Proof.
  intros Hx. rewrite (tr_uses _ _ _ _ _ (gr_tree _ _ _ _ _ _ Hg)) by done. repeat case_decide; tauto || lia.
Qed.

Lemma grown_root : 2 <= root st n < N ∧ owner (root st n) = n ∧ uses s0 (root st n) = 0.
Proof.
  destruct (root_copied pre st n (si_copied _ _ _ _ _ Hinv) Hn) as (? & H2 & _). specialize (H2 Hn2).
  split_and!; [lia|lia| |].
  - by apply (si_root _ _ _ _ _ Hinv).
  - by apply (si_fresh _ _ _ _ _ Hinv).
Qed.

Lemma grown_node x :
  2 <= x < num_nodes s' →
  (copied_node ntk pre (owner' x) ∧ 2 <= owner' x) ∧
  (∀ ins, value s' ins x = value ntk ins (owner' x)) ∧
  (x ≠ root st (owner' x) ∨ is_buf ntk (owner' x) = Some true → is_buf s' x = Some true).
Proof.
  intros Hx. pose proof (gr_tree _ _ _ _ _ _ Hg) as Ht. unfold owner'. destruct (decide (x < N)).
  - rewrite grow_owner_old by done. destruct (si_node _ _ _ _ _ Hinv x) as (? & Hv & Hb); [lia|].
    split_and!; [tauto|tauto|..].
    + intros ins. rewrite <-Hv. apply extends_value; [|apply Ht..|lia].
      exact (cp_wf _ _ _ _ (si_copied _ _ _ _ _ Hinv)).
    + intros ?. apply (is_buf_extends s0 s'); [apply Ht|]. by apply Hb.
  - rewrite grow_owner_new by lia. destruct (tr_new _ _ _ _ _ Ht x) as (Hb & _ & Hv); [lia|].
    split_and!; [done|done| |done]. intros ins. rewrite Hv.
    by destruct (root_copied pre st n (si_copied _ _ _ _ _ Hinv) Hn) as (_ & _ & _ & <-).
Qed.

Lemma grown_family :
  family ntk ps owner' (num_nodes s') (uses s') n (root st n) q (occurrences n rest).
Proof.
  pose proof (gr_tree _ _ _ _ _ _ Hg) as Ht. destruct grown_root as (Hr & Hor & Hur).
  destruct (gr_capacity _ _ _ _ _ _ Hg) as (b & Hb & Hbq & Hcap). pose proof (gr_range _ _ _ _ _ _ Hg) as Hqr.
  assert (uses s' (root st n) = 1) as Hu1 by (rewrite grown_uses, decide_True, Hur by (done || lia); done).
  assert (∀ x, 2 <= x < num_nodes s' → owner' x = n → x ≠ root st n → N <= x) as Hnew.
  { intros x Hx Hox Hne. destruct (decide (N <= x)); [done|]. unfold owner' in Hox.
    rewrite grow_owner_old in Hox by lia. destruct (si_fresh _ _ _ _ _ Hinv n Hn Hn2 Hdn) as [_ Ho].
    destruct Hne. apply Ho; [lia|done]. }
  apply tree_family with b; try done.
  - apply Hg.
  - intros x Hx%Hqr. split_and!; [lia|lia| |lia]. unfold owner'. apply grow_owner_new. lia.
  - intros _. lia.
  - intros x Hx Hox Hne _. apply (tr_new _ _ _ _ _ Ht). specialize (Hnew x Hx Hox Hne). lia.
  - intros x Hx Hox. pose proof (uses_nonneg ntk n). destruct (decide (x = root st n)) as [->|Hne]; [lia|].
    specialize (Hnew x Hx Hox Hne). destruct (tr_new _ _ _ _ _ Ht x) as (_ & ? & _); [lia|lia].
  - lia.
Qed.

Lemma generate_tree : subst_inv pre (n :: dn) rest st' owner'.
Proof.
  pose proof (gr_tree _ _ _ _ _ _ Hg) as Ht. destruct grown_root as (Hr & Hor & Hur).
  pose proof grown_num as HN. destruct Hinv as [Hc Hro Hx Hd Hq Hf Hfam]. split.
  - apply (copied_extends ntk _ s0); [done|apply Ht..].
  - intros n' Hn' Hn2'. change (root st' n') with (root st n'). unfold owner'.
    destruct (root_copied pre st n' Hc Hn') as (? & _). rewrite grow_owner_old by (lia). by apply Hro.
  - exact grown_node.
  - intros n' [->|?]%elem_of_cons; auto.
  - intros n' [? ?]%not_elem_of_cons. unfold queue, fanouts_at, st'. cbn [available_fanouts].
    rewrite lookup_insert_ne by done. by apply Hq.
  - intros n' Hn' Hn2' [Hne Hnd]%not_elem_of_cons. destruct (Hf n' Hn' Hn2' Hnd) as [Hu Ho].
    change (root st' n') with (root st n'). change (substituted st') with s'.
    destruct (root_copied pre st n' Hc Hn') as (? & ? & _). split.
    + rewrite grown_uses by done. rewrite decide_False; [lia|]. intros E.
      pose proof (Hro n' Hn' Hn2') as E'. rewrite E in E'. congruence.
    + intros x Hxr. unfold owner'. destruct (decide (x < N)).
      * rewrite grow_owner_old by done. apply Ho. lia.
      * rewrite grow_owner_new by lia. congruence.
  - intros n' Hin. change (substituted st') with s'. change (root st' n') with (root st n').
    destruct (decide (n' = n)) as [->|Hne].
    + unfold queue, fanouts_at, st'. cbn [available_fanouts]. rewrite lookup_insert_eq. exact grown_family.
    + apply elem_of_cons in Hin as [?|Hin]; [done|]. destruct (Hd n' Hin) as [Hn' Hn2'].
      destruct (root_copied pre st n' Hc Hn') as (Hm & H2 & _). specialize (H2 Hn2').
      unfold queue, fanouts_at, st'. cbn [available_fanouts]. rewrite lookup_insert_ne by done.
      apply (family_frame ntk ps owner owner' N _ (uses s0)).
      * by apply Hfam.
      * lia.
      * by apply Hro.
      * lia.
      * intros x ?. apply grow_owner_old. lia.
      * intros x ?. unfold owner'. rewrite grow_owner_new by lia. done.
      * intros x ? Hox. rewrite grown_uses, decide_False; [lia| |lia]. intros ->. congruence.
Qed.
End Generate.

(** [generate_fanout_tree] for a node that has no tree yet. *)
Lemma generate_inv pre dn rest st owner n :
  subst_inv pre dn rest st owner → copied_node ntk pre n → 2 <= n → n ∉ dn → 0 <= n < num_nodes ntk →
  occurrences n rest <= uses ntk n →
  ∃ st' owner', generate_fanout_tree ntk ps st n = Some st' ∧ subst_inv pre (n :: dn) rest st' owner' ∧
    outputs (substituted st') = outputs (substituted st).
Proof.
  intros Hinv Hn Hn2 Hdn Hnr Hrest. pose proof (si_copied _ _ _ _ _ Hinv) as Hc.
  destruct (root_copied pre st n Hc Hn) as (Hm & _).
  destruct (generate_cases st n (cp_wf _ _ _ _ Hc) Hm Hnr) as [[-> Hp]|(k & s' & q & Hk & -> & Hg & Hle)].
  - exists st, owner. split; [done|]. split; [by apply generate_plain|done].
  - eexists _, _. split; [done|]. split; [by eapply generate_tree|].
    exact (tr_outputs _ _ _ _ _ (gr_tree _ _ _ _ _ _ Hg)).
Qed.

(** *** Fanouts *)

Section Answers.
Context pre dn rest st owner (Hinv : subst_inv pre dn rest st owner).
#[local] Notation s0 := (substituted st).
#[local] Notation N := (num_nodes (substituted st)).

Lemma done_root n : n ∈ dn → 2 <= root st n < N ∧ owner (root st n) = n.
Proof.
  intros Hin. destruct (si_done _ _ _ _ _ Hinv n Hin) as [Hn Hn2].
  destruct (root_copied pre st n (si_copied _ _ _ _ _ Hinv) Hn) as (? & H2 & _). specialize (H2 Hn2).
  split; [lia|]. by apply (si_root _ _ _ _ _ Hinv).
Qed.

Lemma done_fanout_size x : 2 <= x < N → owner x ∈ dn → fanout_size s0 x = uses s0 x.
Proof.
  intros Hx Hin. apply fanout_size_uses; [|lia|].
  { exact (cp_wf _ _ _ _ (si_copied _ _ _ _ _ Hinv)). }
  pose proof (Hsmall (owner x)) as Hsm. pose proof (occurrences_nonneg (owner x) rest) as HR.
  destruct (si_family _ _ _ _ _ Hinv (owner x) Hin) as [_ _ Hone Hr|b _ _ _ _ Hs _ _ _].
  - rewrite (Hone x) by done. lia.
  - specialize (Hs x Hx eq_refl). lia.
Qed.

Lemma find_fanout_spec q :
  (∀ x, x ∈ q → fanout_size s0 x = uses s0 x) → (∃ x, x ∈ q ∧ uses s0 x < degree ps) →
  ∃ y, find_fanout ps s0 q = Some y ∧ y ∈ q ∧ uses s0 y < degree ps.
Proof.
  induction q as [|z q IH]; intros Hq (x & Hx & Hlt); [by apply not_elem_of_nil in Hx|]. simpl.
  rewrite (Hq z) by left. destruct (Z.leb_spec (degree ps) (uses s0 z)).
  - destruct IH as (y & ? & ? & ?); [intros; apply Hq; by right| |exists y; split_and!; [done|by right|done]].
    exists x. apply elem_of_cons in Hx as [->|?]; [lia|done].
  - exists z. split_and!; [done|left|lia].
Qed.

Lemma get_fanout_spec n :
  n ∈ dn → 1 <= occurrences n rest →
  ∃ a, get_fanout ps st n (root st n) = Some a ∧ answer ps (uses s0) (root st n) (queue st n) a.
Proof.
  intros Hin HR. destruct (done_root n Hin) as [Hm Hom].
  pose proof (si_family _ _ _ _ _ Hinv n Hin) as Hf. unfold get_fanout. fold (queue st n).
  rewrite done_fanout_size by (done || by rewrite Hom). unfold answer.
  destruct (queue st n) as [|y q] eqn:Eq.
  { exists (root st n). by destruct (_ <=? _). }
  destruct (Z.leb_spec (threshold ps) (uses s0 (root st n))); [|eauto].
  destruct Hf as [? _|b _ Hq _ _ _ _ Hbq Hcap]; [done|].
  destruct (find_fanout_spec (y :: q)) as (x & ? & ? & ?).
  - intros x Hx. destruct (Hq x Hx) as (? & Hox & _). apply done_fanout_size; [done|by rewrite Hox].
  - destruct (capacity_pos (degree ps) (uses s0) b) as (x & ? & ?); [lia|]. eauto.
  - eauto.
Qed.

(** What the fanins [fs] are replaced by. *)
Definition answers (fs : list Z) (a : Z → Z) : Prop :=
  ∀ f, f ∈ fs → (f < 2 → a f = f) ∧
    (2 <= f → f ∈ dn ∧ answer ps (uses s0) (root st f) (queue st f) (a f)).

Lemma gather_spec fs :
  (∀ f, f ∈ fs → 0 <= f ∧ copied_node ntk pre f ∧ (2 <= f → f ∈ dn ∧ 1 <= occurrences f rest)) →
  ∃ a, mapM (gather_child ntk ps st) fs = Some (a <$> fs) ∧ answers fs a.
Proof.
  intros Hfs. exists (λ f, default 0 (gather_child ntk ps st f)).
  assert (∀ f, f ∈ fs → gather_child ntk ps st f = Some (default 0 (gather_child ntk ps st f)) ∧
    (f < 2 → default 0 (gather_child ntk ps st f) = f) ∧ (2 <= f → f ∈ dn ∧
      answer ps (uses s0) (root st f) (queue st f) (default 0 (gather_child ntk ps st f)))) as Ha.
  { intros f Hf. destruct (Hfs f Hf) as (H0 & Hn & Hd). unfold gather_child. fold (root st f).
    rewrite klut_is_constant. case_bool_decide as Hc.
    - split_and!; [done| |lia]. intros _. cbn [default].
      by apply (root_copied pre st f (si_copied _ _ _ _ _ Hinv) Hn).
    - destruct Hd as [Hd HR]; [lia|]. destruct (get_fanout_spec f Hd HR) as (x & -> & Hx).
      cbn [default]. split_and!; [done|lia|done]. }
  split.
  - clear Hfs. induction fs as [|f fs IH]; [done|]. simpl. destruct (Ha f) as (E & _); [left|].
    rewrite E at 1. cbn [mbind option_bind]. rewrite IH; [done|]. intros; apply Ha. by right.
  - intros f Hf. apply (Ha f Hf).
Qed.

Lemma answers_valid fs a f :
  answers fs a → (∀ f, f ∈ fs → 0 <= f ∧ copied_node ntk pre f) → f ∈ fs →
  0 <= a f < N ∧ (2 <= f → 2 <= a f ∧ owner (a f) = f) ∧ ∀ ins, value s0 ins (a f) = value ntk ins f.
Proof.
  intros Ha Hfs Hf. destruct (Ha f Hf) as [Hc Hg]. destruct (Hfs f Hf) as [H0 Hn].
  destruct (root_copied pre st f (si_copied _ _ _ _ _ Hinv) Hn) as (Hr & _ & Hrc & Hv).
  destruct (decide (f < 2)) as [Hlt|Hge].
  - rewrite Hc by done. rewrite Hrc in Hr, Hv by lia. split_and!; [lia..|done].
  - destruct Hg as [Hd Hx]; [lia|]. destruct (done_root f Hd) as [Hm Hom].
    destruct (answer_owner ntk ps owner N (uses s0) f (root st f) (queue st f) (occurrences f rest) (a f))
      as [Hr2 Ho2]; [by apply (si_family _ _ _ _ _ Hinv)|done..|].
    split_and!; [lia|lia|lia|]. intros ins. destruct (si_node _ _ _ _ _ Hinv (a f) Hr2) as (_ & -> & _).
    by rewrite Ho2.
Qed.

(** A new node is used by a fanin if it is the answer for it. *)
Lemma occurrences_answers fs a x :
  2 <= x → (∀ f, f ∈ fs → 0 <= f ∧ (f < 2 → a f = f) ∧ (2 <= f → owner (a f) = f)) → 2 <= owner x →
  occurrences x (a <$> fs) = if decide (x = a (owner x)) then occurrences (owner x) fs else 0.
Proof.
  intros Hx Hfs Ho. induction fs as [|f fs IH]; [by case_decide|]. rewrite fmap_cons, !occurrences_cons.
  rewrite IH by (intros; apply Hfs; by right). destruct (Hfs f) as (H0 & Hc & Hg); [left|].
  destruct (decide (f < 2)).
  - rewrite (Hc ltac:(done)). rewrite (decide_False (P := f = x)) by lia.
    rewrite (decide_False (P := f = owner x)) by lia. case_decide; lia.
  - specialize (Hg ltac:(lia)). destruct (decide (a f = x)) as [<-|Hne].
    + rewrite Hg, !decide_True by done. lia.
    + destruct (decide (x = a (owner x))) as [E|]; [|lia].
      rewrite (decide_False (P := f = owner x)); [lia|]. intros ->. congruence.
Qed.

(** The families when the fanins [fs] are answered, in a network with [N'] nodes. *)
Lemma families_use fs rest' a owner' N' u' n :
  rest = fs ++ rest' → answers fs a → (∀ f, f ∈ fs → 0 <= f ∧ copied_node ntk pre f) →
  (distinct_fanins ntk → ∀ n, 2 <= n → occurrences n fs <= 1) →
  N <= N' → (∀ x, 2 <= x < N → owner' x = owner x) → (∀ x, N <= x < N' → owner' x ≠ n) →
  (∀ x, 2 <= x < N → u' x = uses s0 x + occurrences x (a <$> fs)) → n ∈ dn →
  family ntk ps owner' N' u' n (root st n) (queue st n) (occurrences n rest').
Proof.
  intros Hrest Ha Hfs Hdist HN Hown Hnew Hu Hin. destruct (done_root n Hin) as [Hm Hom].
  destruct (si_done _ _ _ _ _ Hinv n Hin) as [_ Hn2]. pose proof (si_family _ _ _ _ _ Hinv n Hin) as Hf.
  apply (family_frame ntk ps owner owner' N N' u'); try done.
  assert (∀ x, 2 <= x < N → owner x = n → u' x = uses s0 x + if decide (x = a n) then occurrences n fs else 0) as Hux.
  { intros x Hx <-. rewrite Hu, (occurrences_answers fs a x) by (done || lia ||
      (intros f Hf'; destruct (Ha f Hf'); destruct (answers_valid fs a f Ha Hfs Hf') as (_ & ? & _);
       destruct (Hfs f Hf'); split_and!; [done|done|intros; by apply H1])). done. }
  assert (occurrences n rest' = occurrences n rest - occurrences n fs) as ->
    by (rewrite Hrest, occurrences_app; lia).
  destruct (decide (n ∈ fs)) as [Hnf|Hnf].
  - apply (family_use ntk ps owner N (uses s0) u' n (root st n) (queue st n) _ (a n)); try done.
    + by apply (Ha n Hnf).
    + split; [apply occurrences_nonneg|]. rewrite Hrest, occurrences_app. pose proof (occurrences_nonneg n rest'). lia.
    + intros Hd. by apply Hdist.
  - rewrite (occurrences_not_elem n fs Hnf), Z.sub_0_r.
    apply (family_frame ntk ps owner owner N N (uses s0)); try done; [lia|].
    intros x Hx Ho. rewrite Hux, (occurrences_not_elem n fs Hnf) by done. case_decide; lia.
Qed.
End Answers.

(** *** Gates *)

Lemma distinct_occurrences g n :
  distinct_fanins ntk → gate_node ntk g → 2 <= n → occurrences n (foreach_fanin ntk g) <= 1.
Proof.
  intros Hd Hg Hn. specialize (Hd g Hg). induction (foreach_fanin ntk g) as [|f fs IH]; [done|].
  rewrite filter_cons in Hd. rewrite occurrences_cons. destruct (decide (f = n)) as [->|Hne].
  - rewrite decide_True in Hd by done. apply NoDup_cons in Hd as [Hni _].
    rewrite occurrences_not_elem; [done|]. intros Hin. apply Hni. by apply list_elem_of_filter.
  - apply IH. case_decide; [by apply NoDup_cons in Hd as [_ ?]|done].
Qed.

Section Gate.
Context pre dn rest st owner g (Hinv : subst_inv pre dn (foreach_fanin ntk g ++ rest) st owner).
Context (Hg : gate_node ntk g) (Hpre : g ∉ pre) (Hgd : g ∉ dn).
Context (Hdone : ∀ n, copied_node ntk pre n → 2 <= n → n ∈ dn).
Context (Hfs : ∀ f, f ∈ foreach_fanin ntk g → 0 <= f ∧ copied_node ntk pre f).
Context a (Ha : answers dn st (foreach_fanin ntk g) a) (s' : network) (k : Z).
Context (Hadd : added (substituted st) (a <$> foreach_fanin ntk g) k s').
Context (Hcp : copied ntk (pre ++ [g]) s' (<[g := num_nodes (substituted st)]> (old2new st))).
Context (Hbuf : is_buf ntk g = Some true → k = 2).
#[local] Notation s0 := (substituted st).
#[local] Notation N := (num_nodes (substituted st)).
Let st' := State s' (<[g := N]> (old2new st)) (available_fanouts st).
Let owner' := grow_owner owner N g.

Lemma gate_old n : copied_node ntk (pre ++ [g]) n → n ≠ g → copied_node ntk pre n.
Proof. unfold copied_node. set_solver. Qed.

Lemma gate_root n : root st' n = if decide (n = g) then N else root st n.
Proof.
  unfold root, old2new_at, st'. cbn [old2new]. case_decide; subst.
  - by rewrite lookup_insert_eq.
  - by rewrite lookup_insert_ne.
Qed.

Lemma gate_uses x : 0 <= x <= N → uses s' x = uses s0 x + occurrences x (a <$> foreach_fanin ntk g).
Proof. intros Hx. apply (added_uses _ _ _ _ Hadd). rewrite (added_num _ _ _ _ Hadd). lia. Qed.

Lemma gate_size : 2 <= N ∧ num_nodes s' = N + 1.
Proof.
  split; [|apply Hadd]. apply (wf_constants s0). exact (cp_wf _ _ _ _ (si_copied _ _ _ _ _ Hinv)).
Qed.

Lemma gate_not_copied : ¬ copied_node ntk pre g.
Proof. destruct Hg. unfold copied_node. intros [?|[?|[?|?]]]; [lia|lia|done|done]. Qed.

Lemma gate_node_inv x :
  2 <= x < num_nodes s' →
  (copied_node ntk (pre ++ [g]) (owner' x) ∧ 2 <= owner' x) ∧
  (∀ ins, value s' ins x = value ntk ins (owner' x)) ∧
  (x ≠ root st' (owner' x) ∨ is_buf ntk (owner' x) = Some true → is_buf s' x = Some true).
Proof.
  intros Hx. destruct gate_size as [HN HN']. unfold owner'. destruct (decide (x < N)).
  - rewrite grow_owner_old by done. destruct (si_node _ _ _ _ _ Hinv x) as ((? & ?) & Hv & Hb); [lia|].
    split_and!; [unfold copied_node in *; set_solver|done|..].
    + intros ins. rewrite <-Hv. apply extends_value; [|apply Hadd..|lia].
      exact (cp_wf _ _ _ _ (si_copied _ _ _ _ _ Hinv)).
    + intros Hor. apply (is_buf_extends s0 s'); [apply Hadd|]. apply Hb. rewrite gate_root in Hor.
      rewrite decide_False in Hor; [done|]. intros E. apply gate_not_copied. by rewrite <-E.
  - assert (x = N) as -> by lia. rewrite grow_owner_new by lia. destruct Hg as [Hgr Hgi].
    destruct (root_copied (pre ++ [g]) st' g Hcp) as (_ & _ & _ & Hv).
    { unfold copied_node. set_solver. }
    rewrite gate_root, decide_True in * by done.
    split_and!; [unfold copied_node; set_solver|lia|exact Hv|]. intros [?|Hb]; [done|].
    rewrite (Hbuf Hb) in Hadd. apply is_buf_gate; [apply Hadd|].
    apply (added_gate s0 (a <$> foreach_fanin ntk g) 2); [|done].
    exact (cp_wf _ _ _ _ (si_copied _ _ _ _ _ Hinv)).
Qed.

Lemma gate_inv (Hdist : distinct_fanins ntk → ∀ n, 2 <= n → occurrences n (foreach_fanin ntk g) <= 1) :
  subst_inv (pre ++ [g]) dn rest st' owner'.
Proof.
  destruct gate_size as [HN HN']. split.
  - exact Hcp.
  - intros n Hn Hn2. rewrite gate_root. case_decide; subst.
    + unfold owner'. by rewrite grow_owner_new by lia.
    + pose proof (gate_old n Hn ltac:(done)) as Hn'. unfold owner'. rewrite grow_owner_old.
      * by apply (si_root _ _ _ _ _ Hinv).
      * by destruct (root_copied pre st n (si_copied _ _ _ _ _ Hinv) Hn') as ([? ?] & _).
  - exact gate_node_inv.
  - intros n Hn. destruct (si_done _ _ _ _ _ Hinv n Hn). split; [|done]. unfold copied_node in *. set_solver.
  - exact (si_queue _ _ _ _ _ Hinv).
  - intros n Hn Hn2 Hnd. destruct (decide (n = g)) as [->|Hne].
    2: { by destruct Hnd; apply Hdone; [apply gate_old|]. }
    rewrite gate_root, decide_True by done. change (substituted st') with s'. split.
    + rewrite gate_uses by lia. rewrite uses_fresh by (exact (cp_wf _ _ _ _ (si_copied _ _ _ _ _ Hinv)) || lia).
      rewrite occurrences_not_elem; [done|]. intros (f & Hf & Hfin)%list_elem_of_fmap.
      destruct (answers_valid _ _ _ _ _ Hinv _ a f Ha Hfs Hfin). lia.
    + intros x Hx Hox. destruct (decide (x < N)); [|lia]. destruct gate_not_copied.
      unfold owner' in Hox. rewrite grow_owner_old in Hox by done. rewrite <-Hox.
      apply (si_node _ _ _ _ _ Hinv). lia.
  - intros n Hn. change (substituted st') with s'. change (queue st' n) with (queue st n).
    rewrite gate_root, decide_False by (by intros ->).
    apply (families_use _ _ _ _ _ Hinv (foreach_fanin ntk g) rest a); try done.
    + lia.
    + intros x ?. apply grow_owner_old. lia.
    + intros x ?. unfold owner'. rewrite grow_owner_new by lia. by intros <-.
    + intros x ?. apply gate_uses. lia.
Qed.
End Gate.

(** The functor over the gates. *)
Lemma substitute_gate_inv pre dn rest st owner g :
  subst_inv pre dn (foreach_fanin ntk g ++ rest) st owner → gate_node ntk g → g ∉ pre →
  (∀ n, n ∈ dn ↔ copied_node ntk pre n ∧ 2 <= n) →
  (∀ f, f ∈ foreach_fanin ntk g → copied_node ntk pre f) → occurrences g rest <= uses ntk g →
  ∃ st' owner', substitute_gate ntk ps st g = Some st' ∧ subst_inv (pre ++ [g]) (g :: dn) rest st' owner' ∧
    outputs (substituted st') = outputs (substituted st).
Proof.
  intros Hinv Hg Hpre Hdn Hfs Hrest. unfold substitute_gate.
  assert (∀ f, f ∈ foreach_fanin ntk g → 0 <= f ∧ copied_node ntk pre f) as Hfs'.
  { intros f Hf. pose proof (fanins_before ntk Hntk g f Hg Hf). auto with lia. }
  assert (g ∉ dn) as Hgd.
  { intros [Hin _]%Hdn. destruct Hg. destruct Hin as [?|[?|[?|?]]]; [lia|lia|done|done]. }
  destruct (gather_spec _ _ _ _ _ Hinv (foreach_fanin ntk g)) as (a & -> & Ha).
  { intros f Hf. destruct (Hfs' f Hf). split_and!; [done|done|]. intros ?. split; [by apply Hdn|].
    rewrite occurrences_app. pose proof (occurrences_elem f _ Hf). pose proof (occurrences_nonneg f rest). lia. }
  cbn [mbind option_bind].
  destruct (clone_node_spec ntk Hntk pre (substituted st) (old2new st) g (a <$> foreach_fanin ntk g))
    as (s' & k & -> & Hadd & Hcp & Hbuf); [by apply si_copied in Hinv|done|..].
  { rewrite Forall2_fmap_l. apply Forall_Forall2_diag, Forall_forall. intros f Hf.
    destruct (answers_valid _ _ _ _ _ Hinv _ a f Ha Hfs' Hf) as (? & _ & ?). done. }
  cbn [mbind option_bind].
  destruct (generate_inv (pre ++ [g]) dn rest
    (State s' (<[g := num_nodes (substituted st)]> (old2new st)) (available_fanouts st))
    (grow_owner owner (num_nodes (substituted st)) g) g) as (st' & owner' & -> & Hinv' & Ho).
  - eapply gate_inv; try done; [by intros; apply Hdn|]. intros Hd n Hn. by apply distinct_occurrences.
  - unfold copied_node. set_solver.
  - destruct Hg. lia.
  - done.
  - destruct Hg. lia.
  - done.
  - exists st', owner'. split; [done|]. split; [done|]. rewrite Ho. apply Hadd.
Qed.

(** *** Outputs *)

(** The outputs of the new network compute the functions of [ps]. *)
Definition outputs_match s (pos : list Z) : Prop :=
  Forall2 (λ o p, 0 <= o < num_nodes s ∧ ∀ ins, value s ins o = value ntk ins p) (outputs s) pos.

Lemma output_answer pre dn rest st owner po :
  subst_inv pre dn (po :: rest) st owner → (∀ n, n ∈ dn ↔ copied_node ntk pre n ∧ 2 <= n) →
  copied_node ntk pre po → 0 <= po →
  ∃ a, get_fanout ps st po (root st po) = Some (a po) ∧ answers dn st [po] a.
Proof.
  intros Hinv Hdn Hpo H0. destruct (decide (po < 2)) as [Hlt|Hge].
  - exists (λ f, f). split.
    + destruct (root_copied pre st po (si_copied _ _ _ _ _ Hinv) Hpo) as ([? ?] & _ & Hr & _).
      assert (root st po = po) as E by (apply Hr; lia).
      unfold get_fanout. fold (queue st po). rewrite (si_queue _ _ _ _ _ Hinv), E.
      * by destruct (_ <=? _).
      * intros [_ ?]%Hdn. lia.
    + intros f ->%list_elem_of_singleton. split; [done|lia].
  - destruct (get_fanout_spec _ _ _ _ _ Hinv po) as (a & Hga & Ha).
    + apply Hdn. split; [done|lia].
    + rewrite occurrences_cons, decide_True by done. pose proof (occurrences_nonneg po rest). lia.
    + exists (λ _, a). split; [done|]. intros f ->%list_elem_of_singleton. split; [lia|]. intros _.
      split; [|done]. apply Hdn. split; [done|lia].
Qed.

Lemma substitute_output_inv pre dn rest st owner po pos :
  subst_inv pre dn (po :: rest) st owner → (∀ n, n ∈ dn ↔ copied_node ntk pre n ∧ 2 <= n) →
  copied_node ntk pre po → 0 <= po → outputs_match (substituted st) pos →
  ∃ st', substitute_output ps st po = Some st' ∧ subst_inv pre dn rest st' owner ∧
    outputs_match (substituted st') (pos ++ [po]).
Proof.
  intros Hinv Hdn Hpo H0 Hm. pose proof (si_copied _ _ _ _ _ Hinv) as Hc. pose proof (cp_wf _ _ _ _ Hc) as Hs.
  destruct (output_answer _ _ _ _ _ po Hinv Hdn Hpo H0) as (a & Hga & Ha).
  assert (∀ f, f ∈ [po] → 0 <= f ∧ copied_node ntk pre f) as Hfs by (intros f ->%list_elem_of_singleton; done).
  destruct (answers_valid _ _ _ _ _ Hinv [po] a po Ha Hfs) as (Har & _ & Hav); [set_solver|].
  unfold substitute_output. fold (root st po). rewrite Hga. cbn [mbind option_bind].
  rewrite klut_is_complemented. cbn [mbind option_bind].
  pose proof (create_po_spec (substituted st) (a po) Hs Har) as Hout. set (s' := create_po _ _) in *.
  eexists. split; [done|]. pose proof (po_num _ _ _ Hout) as HN. pose proof (po_extends _ _ _ Hout) as He.
  split.
  - pose proof Hinv as [_ Hro Hx Hd Hq Hf Hfam]. split; try done; cbn [substituted]; rewrite ?HN.
    + apply (copied_extends ntk pre (substituted st)); [done|apply Hout..].
    + intros x Hr. destruct (Hx x Hr) as (? & Hv & Hb). split_and!; [tauto|tauto|..].
      * intros ins. rewrite <-Hv. apply extends_value; [done|apply Hout..|lia].
      * intros ?. apply (is_buf_extends (substituted st)); [done|]. by apply Hb.
    + intros n Hn Hn2 Hnd. contradict Hnd. by apply Hdn.
    + intros n Hin. apply (families_use _ _ _ _ _ Hinv [po] rest a); try done.
      * intros _ n' _. rewrite occurrences_cons. change (occurrences n' []) with 0. case_decide; lia.
      * intros x ?. lia.
      * intros x ?. apply (po_uses _ _ _ Hout).
  - unfold outputs_match in *. cbn [substituted]. rewrite (po_outputs _ _ _ Hout), HN. apply Forall2_app.
    + eapply Forall2_impl; [exact Hm|]. intros o p [Hr Hv]. split; [done|]. intros ins. rewrite <-Hv.
      apply extends_value; [done|apply Hout..|lia].
    + constructor; [|constructor]. split; [lia|]. intros ins. rewrite <-Hav.
      apply extends_value; [done|apply Hout..|lia].
Qed.

(** *** The loops *)

Lemma fold_state_cons {A} (f : state → A → option state) st a v :
  fold_state f (Some st) (a :: v) = fold_state f (f st a) v.
Proof. done. Qed.

Lemma outputs_inv pre dn owner todo : ∀ st pos,
  subst_inv pre dn todo st owner → (∀ n, n ∈ dn ↔ copied_node ntk pre n ∧ 2 <= n) →
  (∀ o, o ∈ todo → copied_node ntk pre o ∧ 0 <= o) → outputs_match (substituted st) pos →
  ∃ st', fold_state (substitute_output ps) (Some st) todo = Some st' ∧ subst_inv pre dn [] st' owner ∧
    outputs_match (substituted st') (pos ++ todo).
Proof.
  induction todo as [|po todo IH]; intros st pos Hinv Hdn Hto Hm.
  { exists st. by rewrite app_nil_r. }
  destruct (Hto po) as [Hpo H0]; [left|].
  destruct (substitute_output_inv _ _ _ _ _ po pos Hinv Hdn Hpo H0 Hm) as (st1 & E & Hinv1 & Hm1).
  rewrite fold_state_cons, E. destruct (IH st1 (pos ++ [po])) as (st' & ? & ? & Hm'); [done..| |done|].
  { intros o Ho. apply Hto. by right. }
  exists st'. rewrite <-app_assoc in Hm'. done.
Qed.

Lemma inputs_inv rest todo : ∀ dn st owner,
  subst_inv [] dn rest st owner → NoDup todo → (∀ n, n ∈ todo → n ∈ inputs ntk ∧ n ∉ dn) →
  (∀ n, 0 <= n < num_nodes ntk → occurrences n rest <= uses ntk n) →
  ∃ dn' st' owner', fold_state (generate_fanout_tree ntk ps) (Some st) todo = Some st' ∧
    subst_inv [] dn' rest st' owner' ∧ (∀ n, n ∈ dn' ↔ n ∈ todo ∨ n ∈ dn) ∧
    outputs (substituted st') = outputs (substituted st).
Proof.
  induction todo as [|n todo IH]; intros dn st owner Hinv Hnd Hto Hrest.
  { exists dn, st, owner. split_and!; [done|done|set_solver|done]. }
  apply NoDup_cons in Hnd as [Hn Hnd]. destruct (Hto n) as [Hni Hnn]; [left|].
  pose proof (wf_inputs _ Hntk n Hni) as Hr.
  destruct (generate_inv [] dn rest st owner n) as (st1 & owner1 & E & Hinv1 & Ho1); try done.
  { unfold copied_node. tauto. }
  { lia. }
  { lia. }
  { apply Hrest. lia. }
  rewrite fold_state_cons, E. destruct (IH (n :: dn) st1 owner1) as (dn' & st' & owner' & ? & ? & Hd & Ho); try done.
  { intros x Hx. destruct (Hto x) as [? ?]; [by right|]. split; [done|]. set_solver. }
  exists dn', st', owner'. split_and!; [done|done| |congruence]. intros x. rewrite Hd. set_solver.
Qed.

Lemma gates_inv post : ∀ pre dn st owner,
  topo_gates ntk = pre ++ post →
  subst_inv pre dn ((post ≫= foreach_fanin ntk) ++ outputs ntk) st owner →
  (∀ n, n ∈ dn ↔ copied_node ntk pre n ∧ 2 <= n) →
  (∀ n v w, topo_gates ntk = v ++ w →
     occurrences n ((w ≫= foreach_fanin ntk) ++ outputs ntk) <= uses ntk n) →
  ∃ dn' st' owner', fold_state (substitute_gate ntk ps) (Some st) post = Some st' ∧
    subst_inv (topo_gates ntk) dn' (outputs ntk) st' owner' ∧
    (∀ n, n ∈ dn' ↔ copied_node ntk (topo_gates ntk) n ∧ 2 <= n) ∧
    outputs (substituted st') = outputs (substituted st).
Proof.
  induction post as [|g post IH]; intros pre dn st owner Ht Hinv Hdn Hrest.
  { rewrite app_nil_r in Ht. rewrite Ht. exists dn, st, owner. done. }
  pose proof (fanins_before ntk Hntk) as Hbefore.
  assert (gate_node ntk g) as Hg by (apply (topo_gates_nodes ntk); [done|rewrite Ht; set_solver]).
  pose proof (topo_gates_NoDup ntk Hbefore) as Hnd. rewrite Ht in Hnd.
  apply NoDup_app in Hnd as (_ & Hdis & _).
  assert (topo_gates ntk = (pre ++ [g]) ++ post) as Ht' by (by rewrite Ht, <-app_assoc).
  rewrite bind_cons, <-app_assoc in Hinv.
  destruct (substitute_gate_inv _ _ _ _ _ g Hinv Hg) as (st1 & owner1 & E & Hinv1 & Ho1); try done.
  { intros Hin. by apply (Hdis g Hin); left. }
  { intros f Hf. by apply (fanin_copied ntk Hntk pre g post). }
  { by apply (Hrest g (pre ++ [g])). }
  rewrite fold_state_cons, E.
  destruct (IH (pre ++ [g]) (g :: dn) st1 owner1 Ht' Hinv1) as (dn' & st' & owner' & ? & ? & Hd & Ho).
  - intros n. rewrite elem_of_cons, Hdn. unfold copied_node. destruct Hg. set_solver.
  - done.
  - exists dn', st', owner'. split_and!; [done..|congruence].
Qed.

(** *** The whole run *)

Definition initial_state : state :=
  State (initialize_copy_network ntk).1 (initialize_copy_network ntk).2 ∅.

Lemma initial_root i n : inputs ntk !! i = Some n → root initial_state n = 2 + Z.of_nat i.
Proof.
  intros Hi. destruct (klut_initialize_copy_network ntk) as (_ & _ & Hp & _).
  unfold root, old2new_at, initial_state. cbn [old2new]. rewrite (Hp i n (wf_inputs_NoDup _ Hntk) Hi); [done|].
  apply (wf_inputs _ Hntk). by eapply list_elem_of_lookup_2.
Qed.

Lemma input_not_buf n : n ∈ inputs ntk → is_buf ntk n ≠ Some true.
Proof.
  intros Hn. unfold is_buf. rewrite klut_is_pi, bool_decide_true by done.
  destruct (has_literal ntk n 2); simpl; [|done]. by rewrite andb_false_r.
Qed.

Lemma copied_nil n : copied_node ntk [] n → 2 <= n → n ∈ inputs ntk.
Proof. intros [?|[?|[?|Hn]]] ?; [lia|lia|done|by apply not_elem_of_nil in Hn]. Qed.

(** Before any tree, each new node is the copy of an input. *)
Lemma initial_inv rest :
  subst_inv [] [] rest initial_state (λ x, nth (Z.to_nat (x - 2)) (inputs ntk) 0).
Proof.
  pose proof (initial_copied ntk Hntk) as Hc. destruct (initial_only_inputs ntk) as [Hs HN Hi Ho Hu].
  assert (∀ x, 2 <= x < num_nodes (initialize_copy_network ntk).1 →
    ∃ n, inputs ntk !! Z.to_nat (x - 2) = Some n ∧ nth (Z.to_nat (x - 2)) (inputs ntk) 0 = n ∧
      root initial_state n = x) as Hx.
  { intros x Hx. destruct (lookup_lt_is_Some_2 (inputs ntk) (Z.to_nat (x - 2))) as [n Hn]; [lia|].
    exists n. split_and!; [done|by apply nth_lookup_Some|]. rewrite (initial_root _ n Hn). lia. }
  split.
  - exact Hc.
  - intros n Hn Hn2. apply (copied_nil _ Hn), list_elem_of_lookup in Hn2 as [i Hi'].
    rewrite (initial_root i n Hi'). replace (Z.to_nat (2 + Z.of_nat i - 2)) with i by lia.
    by apply nth_lookup_Some.
  - intros x (n & Hn & -> & Hr)%Hx. pose proof (list_elem_of_lookup_2 _ _ _ Hn) as Hin.
    split_and!; [unfold copied_node; tauto|by apply (wf_inputs _ Hntk)|..].
    + intros ins. rewrite <-Hr.
      destruct (root_copied [] initial_state n Hc) as (_ & _ & _ & Hv); [unfold copied_node; tauto|]. apply Hv.
    + intros [?|Hb]; [done|]. by apply input_not_buf in Hb.
  - intros n Hn. by apply not_elem_of_nil in Hn.
  - done.
  - intros n Hn Hn2 _. split; [by rewrite Hu|]. by intros x (n' & _ & -> & Hr)%Hx <-.
  - intros n Hn. by apply not_elem_of_nil in Hn.
Qed.

(** The fanins of the gates that a topological order has are uses of nodes. *)
Lemma remaining_uses n v w :
  topo_gates ntk = v ++ w →
  occurrences n ((w ≫= foreach_fanin ntk) ++ outputs ntk) <= uses ntk n.
Proof.
  intros Ht. pose proof (fanins_before ntk Hntk) as Hbefore. unfold uses. rewrite !occurrences_app.
  enough (occurrences n (w ≫= foreach_fanin ntk) <=
          occurrences n (seqZ 0 (num_nodes ntk) ≫= foreach_fanin ntk)) by lia.
  apply occurrences_submseteq, bind_submseteq, NoDup_submseteq.
  - pose proof (topo_gates_NoDup ntk Hbefore) as Hnd. rewrite Ht in Hnd. by apply NoDup_app in Hnd as (_ & _ & ?).
  - intros g Hg. apply elem_of_seqZ. destruct (topo_gates_nodes ntk g Hbefore) as [? _]; [|lia].
    rewrite Ht. set_solver.
Qed.

Lemma run_inv :
  ∃ dn st owner, fanout_substitution ntk ps = Some (substituted st) ∧
    subst_inv (topo_gates ntk) dn [] st owner ∧
    (∀ n, n ∈ dn ↔ copied_node ntk (topo_gates ntk) n ∧ 2 <= n) ∧
    outputs_match (substituted st) (outputs ntk).
Proof.
  set (rest := (topo_gates ntk ≫= foreach_fanin ntk) ++ outputs ntk).
  destruct (inputs_inv rest (inputs ntk) [] _ _ (initial_inv rest)) as (dn1 & st1 & owner1 & E1 & H1 & D1 & O1).
  { apply Hntk. }
  { intros n Hn. split; [done|]. apply not_elem_of_nil. }
  { intros n _. by apply (remaining_uses n []). }
  destruct (gates_inv (topo_gates ntk) [] dn1 st1 owner1) as (dn2 & st2 & owner2 & E2 & H2 & D2 & O2); try done.
  { intros n. rewrite D1. unfold copied_node. pose proof (wf_inputs _ Hntk n). set_solver by lia. }
  { intros n v w. apply remaining_uses. }
  destruct (outputs_inv (topo_gates ntk) dn2 owner2 (outputs ntk) st2 []) as (st3 & E3 & H3 & M3); try done.
  { intros o Ho. split; [by apply output_copied|]. apply (wf_outputs _ Hntk o Ho). }
  { unfold outputs_match. rewrite O2, O1. destruct (initial_only_inputs ntk) as [_ _ _ Ho _].
    unfold initial_state. cbn [substituted]. rewrite Ho. constructor. }
  exists dn2, st3, owner2. split_and!; try done.
  unfold fanout_substitution, run. fold initial_state. by rewrite E1, E2, E3.
Qed.

Lemma output_values s pos ins :
  outputs_match s pos → value s ins <$> outputs s = value ntk ins <$> pos.
Proof. intros Hm. induction Hm as [|o p os ps' [_ Hv] _ IH]; [done|]. by rewrite !fmap_cons, Hv, IH. Qed.

(** A new node passes the check when its family is within the limits. *)
Lemma node_substituted_ok dn st owner x :
  subst_inv (topo_gates ntk) dn [] st owner → (∀ n, n ∈ dn ↔ copied_node ntk (topo_gates ntk) n ∧ 2 <= n) →
  threshold ps <= degree ps → distinct_fanins ntk → 0 <= x < num_nodes (substituted st) →
  node_substituted (substituted st) ps x = Some true.
Proof.
  intros Hinv Hdn Hle Hdist Hx. unfold node_substituted. rewrite klut_is_constant. case_bool_decide as Hc; [done|].
  destruct (si_node _ _ _ _ _ Hinv x) as (Hn & _ & Hb); [lia|]. apply Hdn in Hn.
  destruct (is_fanout_eq (substituted st) x Hx) as (b & Eb & ->). cbn [mbind option_bind].
  rewrite (done_fanout_size _ _ _ _ _ Hinv) by (done || lia).
  pose proof (uses_nonneg (substituted st) x) as H0.
  enough ((b = true ∧ uses (substituted st) x <= degree ps) ∨ uses (substituted st) x <= threshold ps) as Hu.
  { destruct b, (Z.ltb_spec 1 (uses (substituted st) x)); simpl; f_equal; apply Z.leb_le;
      destruct Hu as [[? ?]|?]; done || lia. }
  destruct (si_family _ _ _ _ _ Hinv (owner x) Hn) as [_ Hp Hone Hr|c _ _ Ht Hl _ _ _ _].
  - rewrite <-(Hone x) in Hr by (done || lia). change (occurrences (owner x) []) with 0 in Hr.
    destruct Hp as [[Hbuf Hd]|Hd]; [|right; lia]. left. split; [|lia].
    rewrite Hb in Eb by auto. by injection Eb.
  - destruct (decide (x = root st (owner x))) as [E|Hne].
    + right. rewrite E. by apply Ht.
    + left. rewrite Hb in Eb by auto. injection Eb as <-. split; [done|]. apply Hl; done || lia.
Qed.

Lemma all_substituted_ok s v :
  (∀ x, x ∈ v → node_substituted s ps x = Some true) → all_substituted s ps v = Some true.
Proof.
  induction v as [|x v IH]; intros Hv; [done|]. simpl. rewrite Hv by left. cbn [mbind option_bind].
  apply IH. intros y Hy. apply Hv. by right.
Qed.
End Steps.

Section Theorems.
Context `{MT : GateLevel.Mockturtle} `{K : !Klut} `{ML : !GateLevel.MockturtleLaws} `{KL : !KlutLaws}.

(** C8: Fanout substitution always succeeds (no fanout tree runs out of free outputs) and returns a
    well-formed network with as many inputs, whose outputs compute the same Boolean functions: for
    both strategies, every degree of at least 2 and threshold of at least 1, and all fanouts for
    which the arithmetic on 32-bit integers does not overflow. *)
Theorem substitution_equivalent (ntk : network) (ps : fanout_substitution_params)
    (Hntk : network_wf ntk) (Hdeg : 2 <= degree ps < 2 ^ 31) (Hthr : 1 <= threshold ps < 2 ^ 31)
    (Hsmall : ∀ n, uses ntk n + degree ps < 2 ^ 31) :
  ∃ s, fanout_substitution ntk ps = Some s ∧ network_wf s ∧
    length (inputs s) = length (inputs ntk) ∧ ∀ ins, simulate s ins = simulate ntk ins.
Proof.
  destruct (run_inv ntk ps Hntk Hdeg Hthr Hsmall) as (dn & st & owner & E & Hinv & _ & Hm).
  destruct (si_copied _ _ _ _ _ _ _ Hinv) as [Hs Hi _]. exists (substituted st). split_and!; [done|done|..].
  - rewrite Hi, length_seqZ. lia.
  - intros ins. by apply output_values.
Qed.

(** C9: If no gate has a node at two of its fanins and the threshold is not above the degree, the
    result of fanout substitution passes the check of [is_fanout_substituted] with the same
    parameters: no fanout node drives more than [degree] nodes, no other node more than [threshold]. *)
Theorem substitution_bounds_fanouts (ntk : network) (ps : fanout_substitution_params)
    (Hntk : network_wf ntk) (Hdeg : 2 <= degree ps < 2 ^ 31) (Hthr : 1 <= threshold ps <= degree ps)
    (Hsmall : ∀ n, uses ntk n + degree ps < 2 ^ 31) (Hdist : distinct_fanins ntk) :
  ∃ s, fanout_substitution ntk ps = Some s ∧ is_fanout_substituted s ps = Some true.
Proof.
  destruct (run_inv ntk ps Hntk Hdeg ltac:(lia) Hsmall) as (dn & st & owner & E & Hinv & Hdn & _).
  exists (substituted st). split; [done|]. unfold is_fanout_substituted. apply all_substituted_ok.
  intros x Hx. rewrite klut_foreach_node in Hx. apply elem_of_seqZ in Hx.
  apply (node_substituted_ok ntk ps Hdeg ltac:(lia) Hsmall dn st owner); done || lia.
Qed.
End Theorems.
