(* ===== verification/NetworkBalancing.v ===== *)
(** * Network balancing
      (include/fiction/algorithms/network_transformation/network_balancing.hpp)

    Module [NetworkBalancing] has [network_balancing_impl] and [is_balanced_impl] for source and target
    networks of the type [technology_network], without names: the conversion of the network is its
    identity. Levels are those of mockturtle's [depth_view] (member [level] of class [Klut]); they have
    type [uint32_t]. [None] stands for undefined behaviour. *)

From S2P Require Import Prelude.
From S2P Require Import GateLevelLayout.
From S2P Require Import TechnologyNetwork.
#[local] Open Scope Z_scope.
Import Technology.

Module NetworkBalancing.

Record network_balancing_params := Params { unify_outputs : bool }.

Section NetworkBalancing.
Context `{MT : GateLevel.Mockturtle} `{K : !Klut}.
Implicit Types (s ntk : network) (n child : Z).

Definition get_po_levels ntk : list Z := (λ po, wrap 32 (level ntk po)) <$> outputs ntk.

(** [insert_buf_chain]; [child] is passed by reference. *)
Fixpoint insert_buf_chain (num : nat) s child : option (network * Z) :=
  match num with
  | O => Some (s, child)
  | S num' => '(s, child) ← create_buf s child; insert_buf_chain num' s child
  end.

(** [ntk_depth.level(n) - ntk_depth.level(fn) - 1]. *)
Definition level_diff ntk n (fn : Z) : Z := wrap 32 (level ntk n - level ntk fn - 1).

(** The functor over the fanins of [n], with the balanced network and the children so far. *)
Fixpoint balance_fanins ntk (old2new : gmap Z Z) n s (children fanins : list Z)
    : option (network * list Z) :=
  match fanins with
  | [] => Some (s, children)
  | fn :: fanins' =>
      let child := default 0 (old2new !! fn) in
      '(s, child) ←
        (if is_constant ntk fn then Some (s, child)
         else insert_buf_chain (Z.to_nat (level_diff ntk n fn)) s child);
      balance_fanins ntk old2new n s (children ++ [child]) fanins'
  end.

Record state := State { balanced : network; old2new : gmap Z Z }.

(** The functor over the gates. *)
Definition balance_gate ntk (st : state) n : option state :=
  '(s, children) ← balance_fanins ntk (old2new st) n (balanced st) [] (foreach_fanin ntk n);
  '(s, m) ← clone_node s ntk n children;
  Some (State s (<[n := m]> (old2new st))).

(** [*std::max_element]; undefined for an empty range. *)
Definition max_element (v : list Z) : option Z :=
  match v with [] => None | x :: v' => Some (foldl (λ m y, if m <? y then y else m) x v') end.

(** The functor over the outputs. *)
Definition balance_output ntk (ps : network_balancing_params) (po_levels : list Z) (max_po_level : Z)
    (st : state) (i : nat) (po : Z) : option state :=
  let tgt_signal := default 0 (old2new st !! po) in
  '(s, tgt_po) ←
    (if is_complemented po then create_not (balanced st) tgt_signal else Some (balanced st, tgt_signal));
  '(s, tgt_po) ←
    (if unify_outputs ps then
       l ← po_levels !! i;
       insert_buf_chain (Z.to_nat (wrap 32 (max_po_level - l))) s tgt_po
     else Some (s, tgt_po));
  Some (State (create_po s tgt_po) (old2new st)).

Fixpoint balance_gates ntk (st : state) (gates : list Z) : option state :=
  match gates with
  | [] => Some st
  | n :: gates' => st ← balance_gate ntk st n; balance_gates ntk st gates'
  end.

Fixpoint balance_outputs ntk ps po_levels max_po_level (st : state) (i : nat) (pos : list Z) : option state :=
  match pos with
  | [] => Some st
  | po :: pos' =>
      st ← balance_output ntk ps po_levels max_po_level st i po;
      balance_outputs ntk ps po_levels max_po_level st (S i) pos'
  end.

Definition run ntk ps : option network :=
  let init := initialize_copy_network ntk in
  st ← balance_gates ntk (State init.1 init.2) (topo_gates ntk);
  let po_levels := get_po_levels ntk in
  max_po_level ← max_element po_levels;
  st ← balance_outputs ntk ps po_levels max_po_level st 0 (outputs ntk);
  Some (balanced st).

Definition network_balancing ntk ps : option network := run ntk ps.

(** ** The check *)

Definition fanin_balanced ntk n (fn : Z) : bool :=
  is_constant ntk fn || negb (0 <? level_diff ntk n fn).

(** [std::adjacent_find] with [std::not_equal_to]. *)
Fixpoint adjacent_different (v : list Z) : bool :=
  match v with
  | x :: (y :: _) as v' => negb (x =? y) || adjacent_different v'
  | _ => false
  end.

Definition is_balanced ntk (ps : network_balancing_params) : bool :=
  forallb (λ n, forallb (fanin_balanced ntk n) (foreach_fanin ntk n)) (foreach_gate ntk) &&
  negb (unify_outputs ps && adjacent_different (get_po_levels ntk)).
End NetworkBalancing.
End NetworkBalancing.
