(* ===== verification/BalancingProperties.v ===== *)
(** * Correctness of network balancing

    For a well-formed network with an output, network balancing returns a network with the same inputs
    and the same functions, in which all fanins of a gate, constants apart, have the level before that
    of the gate, and, with [unify_outputs], all outputs have the same level ([balancing_correct]). *)

From stdpp Require Import functions.
From S2P Require Import Prelude.
From S2P Require Import GateLevelLayout.
From S2P Require Import TechnologyNetwork.
From S2P Require Import TechnologyInvariant.
From S2P Require Import NetworkCopy.
From S2P Require Import NetworkBalancing.
#[local] Open Scope Z_scope.
Import Technology.
Import NetworkBalancing.

Section Levels.
Context `{MT : GateLevel.Mockturtle} `{K : !Klut} `{ML : !GateLevel.MockturtleLaws} `{KL : !KlutLaws}.
Implicit Types (s : network) (n x c : Z) (lv : Z → Z) (cs fs : list Z).

(** ** Levels of a network under construction *)

(** [lv] has the levels of a balanced network: the fanins of a gate are constants, or at the level
    before it. *)
Record levels_ok s lv : Prop := {
  lo_source x : 0 <= x < num_nodes s → ¬ gate_node s x → lv x = 0;
  lo_gate x : gate_node s x → lv x = 1 + foldr Z.max 0 (lv <$> foreach_fanin s x);
  lo_fanin x c : gate_node s x → c ∈ foreach_fanin s x → 2 <= c → lv c = lv x - 1;
}.

Lemma foldr_max_nonneg v : 0 <= foldr Z.max 0 v.
Proof. induction v as [|x v IH]; simpl; lia. Qed.

Lemma foldr_max_ge x v : x ∈ v → x <= foldr Z.max 0 v.
Proof. induction 1 as [x v|x y v _ IH]; simpl; lia. Qed.

Lemma foldr_max_le m v : 0 <= m → (∀ x, x ∈ v → x <= m) → foldr Z.max 0 v <= m.
Proof.
  intros Hm. induction v as [|x v IH]; intros Hv; simpl; [done|].
  pose proof (Hv x ltac:(left)). pose proof (IH ltac:(intros; apply Hv; by right)). lia.
Qed.

Lemma levels_nonneg s lv x : levels_ok s lv → 0 <= x < num_nodes s → 0 <= lv x.
Proof.
  intros Hl Hx. destruct (decide (2 <= x < num_nodes s ∧ x ∉ inputs s)) as [Hg|Hg].
  - rewrite (lo_gate _ _ Hl x Hg). pose proof (foldr_max_nonneg (lv <$> foreach_fanin s x)). lia.
  - by rewrite (lo_source _ _ Hl x Hx Hg).
Qed.

Lemma extends_gate s s' x : extends s s' → x < num_nodes s → gate_node s' x ↔ gate_node s x.
Proof.
  intros He Hx. pose proof (extends_num_nodes _ _ He). unfold gate_node. rewrite (ext_inputs _ _ He).
  split; intros [? ?]; split; done || lia.
Qed.

(** Paths stay in the network that they start in. *)
Lemma rtc_range s a b :
  network_wf s → 0 <= a < num_nodes s → rtc (fanin_edge s) a b → 0 <= b < num_nodes s.
Proof.
  intros Hs Ha Hr. induction Hr as [|a b c Hab _ IH]; [done|]. apply IH.
  pose proof (wf_fanins _ Hs a b Ha Hab). lia.
Qed.

Lemma rtc_extends s s' a b :
  network_wf s → extends s s' → 0 <= a < num_nodes s → rtc (fanin_edge s) a b → rtc (fanin_edge s') a b.
Proof.
  intros Hs He Ha Hr. induction Hr as [|a b c Hab _ IH]; [constructor|].
  apply rtc_l with b.
  - unfold fanin_edge. by rewrite (extends_fanin s s') by done.
  - apply IH. pose proof (wf_fanins _ Hs a b Ha Hab). lia.
Qed.

(** A new gate whose fanins are at the level before it. *)
Lemma added_levels s cs k s' lv l :
  network_wf s → added s cs k s' → levels_ok s lv → (∀ c, c ∈ cs → 0 <= c < num_nodes s) →
  l = 1 + foldr Z.max 0 (lv <$> cs) → (∀ c, c ∈ cs → 2 <= c → lv c = l - 1) →
  levels_ok s' (<[num_nodes s := l]> lv).
Proof.
  intros Hs Ha Hl Hcs Hlv Hcl. pose proof (added_extends _ _ _ _ Ha) as He.
  pose proof (added_num _ _ _ _ Ha) as HN.
  assert (∀ c, c < num_nodes s → <[num_nodes s := l]> lv c = lv c) as Hold
    by (intros c Hc; apply fn_lookup_insert_ne; lia).
  assert (∀ v : list Z, (∀ c, c ∈ v → c < num_nodes s) → <[num_nodes s := l]> lv <$> v = lv <$> v) as Hmap.
  { intros v Hv. apply list_fmap_ext. intros i c Hc%list_elem_of_lookup_2. by apply Hold, Hv. }
  split.
  - intros x Hx Hg. destruct (decide (x = num_nodes s)) as [->|].
    + destruct Hg. by eapply added_gate.
    + rewrite Hold by lia. apply (lo_source _ _ Hl); [lia|]. rewrite <-(extends_gate s s') by (done || lia). done.
  - intros x Hg. destruct (decide (x = num_nodes s)) as [->|].
    + rewrite fn_lookup_insert, (added_fanin _ _ _ _ Ha), Hmap; [done|]. intros c Hc. by apply Hcs.
    + pose proof Hg as [Hx _]. assert (gate_node s x) as Hg' by (apply (extends_gate s s'); done || lia).
      rewrite (extends_fanin s s') by (done || lia). rewrite Hold, Hmap by
        (lia || (intros c Hc; apply (wf_fanins _ Hs) in Hc; lia)). by apply (lo_gate _ _ Hl).
  - intros x c Hg Hc Hc2. destruct (decide (x = num_nodes s)) as [->|].
    + rewrite (added_fanin _ _ _ _ Ha) in Hc. rewrite fn_lookup_insert, Hold by (by apply Hcs). by apply Hcl.
    + pose proof Hg as [Hx _]. assert (gate_node s x) as Hg' by (apply (extends_gate s s'); done || lia).
      rewrite (extends_fanin s s') in Hc by (done || lia).
      pose proof (wf_fanins _ Hs x c ltac:(lia) Hc). rewrite !Hold by lia. by apply (lo_fanin _ _ Hl x c).
Qed.

(** ** Chains of buffers *)

(** A network [s'] that has grown from [s], with its levels. *)
Record grows s lv s' lv' : Prop := {
  gw_wf : network_wf s';
  gw_extends : extends s s';
  gw_outputs : outputs s' = outputs s;
  gw_levels : levels_ok s' lv';
  gw_old x : x < num_nodes s → lv' x = lv x;
}.

Lemma grows_refl s lv : network_wf s → levels_ok s lv → grows s lv s lv.
Proof. by split. Qed.

Lemma grows_trans s1 lv1 s2 lv2 s3 lv3 :
  grows s1 lv1 s2 lv2 → grows s2 lv2 s3 lv3 → grows s1 lv1 s3 lv3.
Proof.
  intros [Hw He Ho Hl Hx] [Hw' He' Ho' Hl' Hx']. split; try done.
  - by etrans.
  - congruence.
  - intros x H. rewrite Hx', Hx; [done|done|]. pose proof (extends_num_nodes _ _ He). lia.
Qed.

Lemma added_grows s cs k s' lv l :
  network_wf s → added s cs k s' → levels_ok s lv → (∀ c, c ∈ cs → 0 <= c < num_nodes s) →
  l = 1 + foldr Z.max 0 (lv <$> cs) → (∀ c, c ∈ cs → 2 <= c → lv c = l - 1) →
  grows s lv s' (<[num_nodes s := l]> lv).
Proof.
  intros Hs Ha Hl Hcs Hlv Hcl. split; [apply Ha|apply Ha|apply Ha|by eapply added_levels|].
  intros x Hx. apply fn_lookup_insert_ne. lia.
Qed.

(** The new nodes of a chain are gates from whose end they are reached. *)
Definition new_below s s' c : Prop :=
  ∀ x, num_nodes s <= x < num_nodes s' → gate_node s' x ∧ rtc (fanin_edge s') c x.

Lemma insert_buf_chain_spec k : ∀ s lv c,
  network_wf s → levels_ok s lv → 0 <= c < num_nodes s →
  ∃ s' lv' c', insert_buf_chain k s c = Some (s', c') ∧ grows s lv s' lv' ∧
    0 <= c' < num_nodes s' ∧ (2 <= c ∨ (0 < k)%nat → 2 <= c') ∧ lv' c' = lv c + Z.of_nat k ∧
    (∀ ins, value s' ins c' = value s ins c) ∧ rtc (fanin_edge s') c' c ∧ new_below s s' c'.
Proof.
  induction k as [|k IH]; intros s lv c Hs Hl Hc; simpl.
  { exists s, lv, c. split_and!; [done|by apply grows_refl|lia|lia| |lia|done|done|].
    - intros [?|?]; lia.
    - intros x Hx. lia. }
  destruct (create_buf_spec s c Hs Hc) as (s1 & -> & Ha & _). cbn [mbind option_bind].
  pose proof (levels_nonneg s lv c Hl Hc) as H0. pose proof (added_num _ _ _ _ Ha) as HN.
  pose proof (wf_constants _ Hs) as H2. set (lv1 := <[num_nodes s := lv c + 1]> lv).
  assert (grows s lv s1 lv1) as Hg.
  { apply (added_grows s [c] 2); try done; simpl; [by intros x ->%list_elem_of_singleton|lia|].
    intros x ->%list_elem_of_singleton _. lia. }
  destruct (IH s1 lv1 (num_nodes s)) as (s' & lv' & c' & -> & Hg' & Hr & Hc2 & Hlv & Hv & Hrtc & Hnew);
    [apply Hg|apply Hg|lia|].
  exists s', lv', c'. pose proof (gw_extends _ _ _ _ Hg') as He.
  assert (rtc (fanin_edge s') (num_nodes s) c) as Hlast.
  { apply rtc_once. unfold fanin_edge. rewrite (extends_fanin s1 s' _ He) by lia.
    rewrite (added_fanin _ _ _ _ Ha). by left. }
  split_and!; [done|by eapply grows_trans|lia|lia|..].
  - intros _. apply Hc2. left. lia.
  - rewrite Hlv. unfold lv1. rewrite fn_lookup_insert. lia.
  - intros ins. rewrite Hv. by apply added_buf_value.
  - by etrans.
  - intros x Hx. destruct (decide (x = num_nodes s)) as [->|]; [|apply Hnew; lia]. split; [|done].
    apply (extends_gate s1 s' _ He); [lia|]. by eapply added_gate.
Qed.
End Levels.

(** ** The invariant *)

Section Steps.
Context `{MT : GateLevel.Mockturtle} `{K : !Klut} `{ML : !GateLevel.MockturtleLaws} `{KL : !KlutLaws}.
Context (ntk : network) (Hntk : network_wf ntk) (Hsize : num_nodes ntk < 2 ^ 32).
Implicit Types (s : network) (n x c f : Z) (lv : Z → Z) (cs fs pre : list Z).

Definition copy_of (m : gmap Z Z) n : Z := default 0 (m !! n).

(** The levels of the nodes that the outputs of the network depend on. *)
Definition live n : Prop := gate_node ntk n → reachable ntk n.

Lemma live_fanin g f : live g → gate_node ntk g → f ∈ foreach_fanin ntk g → live f.
Proof.
  intros Hg Hgg Hf _. destruct (Hg Hgg) as (o & Ho & Hr). exists o. split; [done|]. by eapply rtc_r.
Qed.

Lemma level_bounds n : 0 <= n < num_nodes ntk → live n → 0 <= level ntk n <= n.
Proof.
  enough (∀ k : nat, ∀ n, 0 <= n < Z.of_nat k → n < num_nodes ntk → live n → 0 <= level ntk n <= n) as Hk.
  { intros Hn. apply (Hk (Z.to_nat (n + 1)) n); lia. }
  clear n. induction k as [|k IH]; intros n Hn Hlt Hlive; [lia|].
  destruct (decide (2 <= n < num_nodes ntk ∧ n ∉ inputs ntk)) as [Hg|Hg].
  - rewrite level_gate by (exact (fanins_before ntk Hntk) || done || by apply Hlive).
    pose proof (foldr_max_nonneg (level ntk <$> foreach_fanin ntk n)).
    enough (foldr Z.max 0 (level ntk <$> foreach_fanin ntk n) <= n - 1) by lia.
    apply foldr_max_le; [lia|]. intros l (f & -> & Hf)%list_elem_of_fmap.
    pose proof (fanins_before ntk Hntk n f Hg Hf). destruct (IH f); [lia|lia|by eapply live_fanin|lia].
  - rewrite level_source; [lia|]. rewrite klut_is_constant, bool_decide_eq_true.
    destruct (decide (n ∈ inputs ntk)); [by right|]. left. destruct (decide (2 <= n)); [|lia].
    destruct Hg. done.
Qed.

Record balancing pre s (old2new : gmap Z Z) lv : Prop := {
  ba_copied : copied ntk pre s old2new;
  ba_levels : levels_ok s lv;
  ba_level n : copied_node ntk pre n → lv (copy_of old2new n) = level ntk n;
  ba_fanin g f : g ∈ pre → f ∈ foreach_fanin ntk g →
    copied_node ntk pre f ∧ rtc (fanin_edge s) (copy_of old2new g) (copy_of old2new f);
  ba_above x : gate_node s x →
    ∃ y, (y ∈ outputs s ∨ ∃ g, g ∈ pre ∧ y = copy_of old2new g) ∧ 0 <= y < num_nodes s ∧ rtc (fanin_edge s) y x;
}.

Lemma copy_spec pre s old2new n :
  copied ntk pre s old2new → copied_node ntk pre n →
  0 <= copy_of old2new n < num_nodes s ∧ (2 <= n → 2 <= copy_of old2new n) ∧
  (n = 0 ∨ n = 1 → copy_of old2new n = n) ∧ ∀ ins, value s ins (copy_of old2new n) = value ntk ins n.
Proof.
  intros Hc Hn. destruct (cp_node _ _ _ _ Hc n Hn) as (m & Hm & ?). unfold copy_of. rewrite Hm. tauto.
Qed.

(** ** Fanins *)

(** What a fanin [f] of a gate at level [l] is replaced by. *)
Record child_ok s lv (old2new : gmap Z Z) (l c f : Z) : Prop := {
  ch_range : 0 <= c < num_nodes s;
  ch_value ins : value s ins c = value ntk ins f;
  ch_level : 2 <= f → 2 <= c ∧ lv c = l - 1;
  ch_constant : f < 2 → c = f;
  ch_path : rtc (fanin_edge s) c (copy_of old2new f);
}.

Lemma child_ok_grows s lv s' lv' old2new l c f :
  network_wf s → grows s lv s' lv' → child_ok s lv old2new l c f → child_ok s' lv' old2new l c f.
Proof.
  intros Hs Hg [Hr Hv Hl Hc Hp]. pose proof (extends_num_nodes _ _ (gw_extends _ _ _ _ Hg)).
  split.
  - lia.
  - intros ins. rewrite <-Hv. apply extends_value; [done|apply Hg..|done].
  - intros Hf. destruct (Hl Hf) as [? <-]. split; [done|]. apply (gw_old _ _ _ _ Hg). lia.
  - done.
  - apply (rtc_extends s); [done|apply Hg|done|done].
Qed.

Lemma balance_fanin pre s old2new lv g f :
  copied ntk pre s old2new → levels_ok s lv → (∀ n, copied_node ntk pre n → lv (copy_of old2new n) = level ntk n) →
  gate_node ntk g → reachable ntk g → f ∈ foreach_fanin ntk g → copied_node ntk pre f →
  ∃ s' lv' c, (if is_constant ntk f then Some (s, copy_of old2new f)
               else insert_buf_chain (Z.to_nat (level_diff ntk g f)) s (copy_of old2new f)) = Some (s', c) ∧
    grows s lv s' lv' ∧ child_ok s' lv' old2new (level ntk g) c f ∧ new_below s s' c.
Proof.
  intros Hc Hl Hlev Hg Hr Hf Hn. destruct (copy_spec pre s old2new f Hc Hn) as (Hm & H2 & Hconst & Hv).
  pose proof (fanins_before ntk Hntk g f Hg Hf) as Hfg. pose proof (cp_wf _ _ _ _ Hc) as Hs.
  rewrite klut_is_constant. case_bool_decide as Hfc.
  { exists s, lv, (copy_of old2new f). split_and!; [done|by apply grows_refl| |intros x Hx; lia].
    split; [done|done|lia|by intros _; apply Hconst|done]. }
  assert (level ntk f + 1 <= level ntk g) as Hle.
  { rewrite (level_gate ntk g) by (exact (fanins_before ntk Hntk) || done).
    pose proof (foldr_max_ge (level ntk f) (level ntk <$> foreach_fanin ntk g)) as Hmax.
    specialize (Hmax ltac:(by apply list_elem_of_fmap_2)). lia. }
  destruct (level_bounds g) as [_ Hg2]; [destruct Hg; lia|by intros _|]. destruct (level_bounds f) as [Hf0 _].
  { destruct Hg; lia. }
  { by apply (live_fanin g); [intros _|..]. }
  assert (level_diff ntk g f = level ntk g - level ntk f - 1) as Hd.
  { unfold level_diff. apply wrap_small. unfold in_width. destruct Hg. lia. }
  destruct (insert_buf_chain_spec (Z.to_nat (level_diff ntk g f)) s lv (copy_of old2new f))
    as (s' & lv' & c' & -> & Hgw & Hr' & Hc2 & Hlv & Hv' & Hrtc & Hnew); [done|done|done|].
  exists s', lv', c'. split_and!; [done|done| |done]. split; [done| | |lia|done].
  - intros ins. by rewrite Hv'.
  - intros _. split; [apply Hc2; left; apply H2; lia|]. rewrite Hlv, Hlev, Hd by done. lia.
Qed.

(** The fanins that [balance_fanins] has put to [children]. *)
Lemma balance_fanins_spec pre old2new g : ∀ fs s lv children,
  copied ntk pre s old2new → levels_ok s lv → (∀ n, copied_node ntk pre n → lv (copy_of old2new n) = level ntk n) →
  gate_node ntk g → reachable ntk g → (∀ f, f ∈ fs → f ∈ foreach_fanin ntk g ∧ copied_node ntk pre f) →
  ∃ s' lv' cs, balance_fanins ntk old2new g s children fs = Some (s', children ++ cs) ∧ grows s lv s' lv' ∧
    Forall2 (child_ok s' lv' old2new (level ntk g)) cs fs ∧
    ∀ x, num_nodes s <= x < num_nodes s' → gate_node s' x ∧ ∃ c, c ∈ cs ∧ rtc (fanin_edge s') c x.
Proof.
  induction fs as [|f fs IH]; intros s lv children Hc Hl Hlev Hg Hr Hfs; simpl.
  { exists s, lv, []. split_and!; [by rewrite app_nil_r|apply grows_refl; [by eapply cp_wf|done]|constructor|lia]. }
  destruct (Hfs f) as [Hf Hn]; [left|].
  destruct (balance_fanin pre s old2new lv g f Hc Hl Hlev Hg Hr Hf Hn) as (s1 & lv1 & c & E & Hg1 & Hch & Hnew).
  unfold copy_of in E. rewrite E. cbn [mbind option_bind].
  destruct (IH s1 lv1 (children ++ [c])) as (s' & lv' & cs & -> & Hg2 & Hcs & Hnew2); try done.
  { apply (copied_extends ntk pre s); [done|apply Hg1..]. }
  { apply Hg1. }
  { intros n Hn'. rewrite (gw_old _ _ _ _ Hg1) by apply (copy_spec pre s old2new n Hc Hn').
    by apply Hlev. }
  { intros f' Hf'. apply Hfs. by right. }
  exists s', lv', (c :: cs). split_and!; [by rewrite <-app_assoc|by eapply grows_trans|..].
  - constructor; [|done]. apply (child_ok_grows s1 lv1); [apply Hg1|done|done].
  - pose proof (gw_extends _ _ _ _ Hg2) as He. intros x Hx. destruct (decide (x < num_nodes s1)).
    + destruct (Hnew x) as [Hgx Hp]; [lia|]. split; [by apply (extends_gate s1 s' _ He)|].
      exists c. split; [left|]. apply (rtc_extends s1); [apply Hg1|done|apply Hch|done].
    + destruct (Hnew2 x) as (Hgx & c' & Hc' & Hp); [lia|]. split; [done|]. exists c'. split; [by right|done].
Qed.

(** ** Gates *)

Lemma level_constant n : n = 0 ∨ n = 1 → level ntk n = 0.
Proof. intros Hn. apply level_source. left. rewrite klut_is_constant. by apply bool_decide_true. Qed.

Lemma children_level s lv old2new l cs fs :
  levels_ok s lv → Forall2 (child_ok s lv old2new l) cs fs → l = 1 + foldr Z.max 0 (level ntk <$> fs) →
  l = 1 + foldr Z.max 0 (lv <$> cs).
Proof.
  intros Hl Hcs Hlf. pose proof (foldr_max_nonneg (level ntk <$> fs)) as H0.
  assert (∀ c, c ∈ cs → lv c <= l - 1) as Hle.
  { intros c Hc. apply list_elem_of_lookup in Hc as [i Hc].
    destruct (Forall2_lookup_l _ _ _ _ _ Hcs Hc) as (f & _ & [Hr _ Hlv Hconst _]).
    destruct (decide (2 <= f)) as [Hf|Hf]; [destruct (Hlv Hf); lia|].
    rewrite (lo_source _ _ Hl c Hr); [lia|]. intros [? _]. specialize (Hconst ltac:(lia)). lia. }
  assert (foldr Z.max 0 (lv <$> cs) <= l - 1) as Hup.
  { apply foldr_max_le; [lia|]. intros x (c & -> & Hc)%list_elem_of_fmap. by apply Hle. }
  destruct (decide (Exists (λ f, 2 <= f) fs)) as [He|Hn].
  - apply Exists_exists in He as (f & Hf & Hf2). apply list_elem_of_lookup in Hf as [i Hf].
    destruct (Forall2_lookup_r _ _ _ _ _ Hcs Hf) as (c & Hc & [_ _ Hlv _ _]). destruct (Hlv Hf2) as [_ E].
    pose proof (foldr_max_ge (lv c) (lv <$> cs)) as Hge.
    specialize (Hge ltac:(apply list_elem_of_fmap_2; by eapply list_elem_of_lookup_2)). lia.
  - enough (foldr Z.max 0 (level ntk <$> fs) <= 0) as Hz.
    { pose proof (foldr_max_nonneg (lv <$> cs)). lia. }
    apply foldr_max_le; [lia|]. intros x (f & -> & Hf)%list_elem_of_fmap.
    destruct (decide (f = 0 ∨ f = 1)) as [Hc|Hc]; [by rewrite level_constant|].
    destruct (decide (2 <= f)) as [H2|H2]; [destruct Hn; apply Exists_exists; eauto|].
    apply list_elem_of_lookup in Hf as [i Hf].
    destruct (Forall2_lookup_r _ _ _ _ _ Hcs Hf) as (c & _ & [Hr _ _ Hconst _]). specialize (Hconst ltac:(lia)). lia.
Qed.

Section Gate.
Context pre s (m : gmap Z Z) lv (g : Z) (Hba : balancing pre s m lv).
Context (Hg : gate_node ntk g) (Hpre : g ∉ pre) (Hr : reachable ntk g).
Context (Hfs : ∀ f, f ∈ foreach_fanin ntk g → copied_node ntk pre f).
Context (s1 : network) (lv1 : Z → Z) (cs : list Z) (Hg1 : grows s lv s1 lv1).
Context (Hcs : Forall2 (child_ok s1 lv1 m (level ntk g)) cs (foreach_fanin ntk g)).
Context (Hnew : ∀ x, num_nodes s <= x < num_nodes s1 →
  gate_node s1 x ∧ ∃ c, c ∈ cs ∧ rtc (fanin_edge s1) c x).
Context (s2 : network) (k : Z) (Hadd : added s1 cs k s2).
Context (Hcp : copied ntk (pre ++ [g]) s2 (<[g := num_nodes s1]> m)).
Let lv2 := <[num_nodes s1 := level ntk g]> lv1.
Let m2 := <[g := num_nodes s1]> m.

Lemma children_range c : c ∈ cs → 0 <= c < num_nodes s1.
Proof.
  intros [i Hc]%list_elem_of_lookup. destruct (Forall2_lookup_l _ _ _ _ _ Hcs Hc) as (f & _ & Hch). apply Hch.
Qed.

Lemma gate_grows : grows s1 lv1 s2 lv2.
Proof.
  apply (added_grows s1 cs k); [apply Hg1|done|apply Hg1|exact children_range|..].
  - apply (children_level s1 lv1 m (level ntk g) cs (foreach_fanin ntk g)); [apply Hg1|done|].
    by apply level_gate; [exact (fanins_before ntk Hntk)|..].
  - intros c [i Hc]%list_elem_of_lookup Hc2. destruct (Forall2_lookup_l _ _ _ _ _ Hcs Hc) as (f & _ & [_ _ Hlv Hconst _]).
    destruct (decide (2 <= f)) as [Hf|Hf]; [by destruct (Hlv Hf)|]. specialize (Hconst ltac:(lia)). lia.
Qed.

Lemma gate_copy n : copy_of m2 n = if decide (n = g) then num_nodes s1 else copy_of m n.
Proof.
  unfold copy_of, m2. case_decide; subst; [by rewrite lookup_insert_eq|by rewrite lookup_insert_ne].
Qed.

Lemma balanced_gate_not_copied : ¬ copied_node ntk pre g.
Proof. destruct Hg. unfold copied_node. intros [?|[?|[?|?]]]; [lia|lia|done|done]. Qed.

Lemma gate_sizes : 0 <= num_nodes s <= num_nodes s1 ∧ num_nodes s2 = num_nodes s1 + 1.
Proof.
  split; [|apply Hadd]. split; [unfold num_nodes; lia|]. apply extends_num_nodes, Hg1.
Qed.

(** Paths of the networks before. *)
Lemma gate_path_1 a b : 0 <= a < num_nodes s1 → rtc (fanin_edge s1) a b → rtc (fanin_edge s2) a b.
Proof. intros Ha Hp. apply (rtc_extends s1); [apply Hg1|apply Hadd|done..]. Qed.

Lemma gate_path_0 a b : 0 <= a < num_nodes s → rtc (fanin_edge s) a b → rtc (fanin_edge s2) a b.
Proof.
  intros Ha Hp. pose proof gate_sizes. apply gate_path_1; [lia|].
  apply (rtc_extends s); [|apply Hg1|done..]. exact (cp_wf _ _ _ _ (ba_copied _ _ _ _ Hba)).
Qed.

Lemma gate_path_child c b : c ∈ cs → rtc (fanin_edge s1) c b → rtc (fanin_edge s2) (num_nodes s1) b.
Proof.
  intros Hc Hp. apply rtc_l with c.
  - unfold fanin_edge. by rewrite (added_fanin _ _ _ _ Hadd).
  - apply gate_path_1; [by apply children_range|done].
Qed.

Lemma gate_above x :
  gate_node s2 x → ∃ y, (y ∈ outputs s2 ∨ ∃ h, h ∈ pre ++ [g] ∧ y = copy_of m2 h) ∧
    0 <= y < num_nodes s2 ∧ rtc (fanin_edge s2) y x.
Proof.
  intros Hx. pose proof Hx as [Hxr _]. destruct gate_sizes as [Hs HN]. rewrite HN in *.
  assert (∃ h, h ∈ pre ++ [g] ∧ num_nodes s1 = copy_of m2 h) as Hlast.
  { exists g. split; [set_solver|]. by rewrite gate_copy, decide_True. }
  destruct (decide (x < num_nodes s)).
  - assert (gate_node s x) as Hx0.
    { apply (extends_gate s s1); [apply Hg1|lia|]. apply (extends_gate s1 s2); [apply Hadd|lia|done]. }
    destruct (ba_above _ _ _ _ Hba x Hx0) as (y & Hy & Hyr & Hp). exists y.
    split_and!; [|lia|lia|by apply gate_path_0]. destruct Hy as [Hy|(h & Hh & ->)].
    + left. by rewrite (added_outputs _ _ _ _ Hadd), (gw_outputs _ _ _ _ Hg1).
    + right. exists h. split; [set_solver|]. rewrite gate_copy, decide_False; [done|]. by intros ->.
  - exists (num_nodes s1). split_and!; [by right|lia|lia|].
    destruct (decide (x = num_nodes s1)) as [->|]; [done|].
    destruct (Hnew x) as (_ & c & Hc & Hp); [lia|]. by eapply gate_path_child.
Qed.

Lemma gate_balancing : balancing (pre ++ [g]) s2 m2 lv2.
Proof.
  pose proof gate_grows as Hg2. destruct gate_sizes as [Hs HN]. split.
  - exact Hcp.
  - apply Hg2.
  - intros n Hn. rewrite gate_copy. case_decide as E; [subst; apply fn_lookup_insert|].
    assert (copied_node ntk pre n) as Hn' by (unfold copied_node in *; set_solver).
    destruct (copy_spec pre s m n (ba_copied _ _ _ _ Hba) Hn') as ([? ?] & _).
    rewrite (gw_old _ _ _ _ Hg2), (gw_old _ _ _ _ Hg1) by lia. by apply (ba_level _ _ _ _ Hba).
  - intros h f Hh Hf. assert (copied_node ntk pre f ∧ rtc (fanin_edge s2) (copy_of m2 h) (copy_of m f)) as [Hn Hp].
    { rewrite gate_copy. destruct (decide (h = g)) as [->|Hne].
      - split; [by apply Hfs|]. apply list_elem_of_lookup in Hf as [i Hf].
        destruct (Forall2_lookup_r _ _ _ _ _ Hcs Hf) as (c & Hc & [_ _ _ _ Hp]).
        eapply gate_path_child; [by eapply list_elem_of_lookup_2|done].
      - assert (h ∈ pre) as Hin by set_solver. destruct (ba_fanin _ _ _ _ Hba h f Hin Hf) as [Hn Hp].
        split; [done|]. apply gate_path_0; [|done].
        apply (copy_spec pre s m h (ba_copied _ _ _ _ Hba)). unfold copied_node. tauto. }
    split; [unfold copied_node in *; set_solver|]. rewrite (gate_copy f), decide_False; [done|].
    intros ->. by apply balanced_gate_not_copied.
  - exact gate_above.
Qed.
End Gate.

Lemma balance_gate_inv pre s m lv g :
  balancing pre s m lv → gate_node ntk g → g ∉ pre → reachable ntk g →
  (∀ f, f ∈ foreach_fanin ntk g → copied_node ntk pre f) →
  ∃ s' m' lv', balance_gate ntk (State s m) g = Some (State s' m') ∧ balancing (pre ++ [g]) s' m' lv' ∧
    outputs s' = outputs s.
Proof.
  intros Hba Hg Hpre Hr Hfs. unfold balance_gate. cbn [balanced old2new].
  destruct (balance_fanins_spec pre m g (foreach_fanin ntk g) s lv []) as (s1 & lv1 & cs & -> & Hg1 & Hcs & Hnew);
    try apply Hba; try done; [by auto|].
  cbn [mbind option_bind app].
  assert (copied ntk pre s1 m) as Hc1 by (apply (copied_extends ntk pre s); [apply Hba|apply Hg1..]).
  destruct (clone_node_spec ntk Hntk pre s1 m g cs Hc1 Hg) as (s2 & k & -> & Hadd & Hcp & _).
  { eapply Forall2_impl; [exact Hcs|]. intros c f [? ? _ _ _]. done. }
  cbn [mbind option_bind]. eexists _, _, _. split; [done|]. split; [by eapply gate_balancing|].
  by rewrite (added_outputs _ _ _ _ Hadd), (gw_outputs _ _ _ _ Hg1).
Qed.

Lemma balance_gates_inv post : ∀ pre s m lv,
  topo_gates ntk = pre ++ post → balancing pre s m lv →
  ∃ s' m' lv', balance_gates ntk (State s m) post = Some (State s' m') ∧
    balancing (topo_gates ntk) s' m' lv' ∧ outputs s' = outputs s.
Proof.
  induction post as [|g post IH]; intros pre s m lv Ht Hba; simpl.
  { rewrite app_nil_r in Ht. rewrite Ht. by exists s, m, lv. }
  pose proof (fanins_before ntk Hntk) as Hbefore.
  assert (g ∈ topo_gates ntk) as Hin by (rewrite Ht; set_solver).
  pose proof (topo_gates_NoDup ntk Hbefore) as Hnd. rewrite Ht in Hnd.
  apply NoDup_app in Hnd as (_ & Hdis & _).
  destruct (balance_gate_inv pre s m lv g Hba) as (s1 & m1 & lv1 & -> & Hba1 & Ho1).
  - by apply (topo_gates_nodes ntk).
  - intros Hp. by apply (Hdis g Hp); left.
  - by apply topo_gates_reachable.
  - intros f Hf. by apply (fanin_copied ntk Hntk pre g post).
  - cbn [mbind option_bind].
    destruct (IH (pre ++ [g]) s1 m1 lv1) as (s' & m' & lv' & -> & Hba' & Ho'); [by rewrite Ht, <-app_assoc|done|].
    exists s', m', lv'. split_and!; [done|done|congruence].
Qed.

Lemma initial_balancing :
  balancing [] (initialize_copy_network ntk).1 (initialize_copy_network ntk).2 (λ _, 0).
Proof.
  destruct (initial_only_inputs ntk) as [Hs HN Hi Ho _].
  assert (∀ x, ¬ gate_node (initialize_copy_network ntk).1 x) as Hg.
  { intros x [Hx Hni]. rewrite Hi, elem_of_seqZ in Hni. lia. }
  split.
  - by apply initial_copied.
  - split; [done|..].
    + intros x Hx. by apply Hg in Hx.
    + intros x c Hx. by apply Hg in Hx.
  - intros n [Hn|[Hn|[Hn|Hn]]]; [by rewrite level_constant by auto..| |by apply not_elem_of_nil in Hn].
    symmetry. apply level_source. by right.
  - intros g f Hn. by apply not_elem_of_nil in Hn.
  - intros x Hx. by apply Hg in Hx.
Qed.
(** ** Outputs *)

Context (ps : network_balancing_params) (max_level : Z).
Context (Hmax : ∀ o, o ∈ outputs ntk → 0 <= level ntk o <= max_level) (Hmax32 : max_level < 2 ^ 32).

Definition out_level (p : Z) : Z := if unify_outputs ps then max_level else level ntk p.

Record output_ok s lv (m : gmap Z Z) (o p : Z) : Prop := {
  ou_range : 0 <= o < num_nodes s;
  ou_value ins : value s ins o = value ntk ins p;
  ou_path : rtc (fanin_edge s) o (copy_of m p);
  ou_level : lv o = out_level p;
}.

Lemma levels_ok_extends s s' lv :
  network_wf s → extends s s' → num_nodes s' = num_nodes s → levels_ok s lv → levels_ok s' lv.
Proof.
  intros Hs He HN [H1 H2 H3]. assert (∀ x, gate_node s' x → gate_node s x ∧ foreach_fanin s' x = foreach_fanin s x) as Hg.
  { intros x Hx. pose proof Hx as [? _]. split; [by apply (extends_gate s s' x He); [lia|]|].
    apply extends_fanin; [done|lia]. }
  split.
  - intros x Hx Hn. apply H1; [lia|]. by rewrite <-(extends_gate s s') by (done || lia).
  - intros x [Hx ->]%Hg. by apply H2.
  - intros x c [Hx ->]%Hg. by apply H3.
Qed.

Lemma balance_output_inv s m lv po pos i :
  balancing (topo_gates ntk) s m lv → Forall2 (output_ok s lv m) (outputs s) pos →
  copied_node ntk (topo_gates ntk) po → po ∈ outputs ntk → get_po_levels ntk !! i = Some (level ntk po) →
  ∃ s' lv', balance_output ntk ps (get_po_levels ntk) max_level (State s m) i po = Some (State s' m) ∧
    balancing (topo_gates ntk) s' m lv' ∧ Forall2 (output_ok s' lv' m) (outputs s') (pos ++ [po]).
Proof.
  intros Hba Hout Hn Hpo Hi. unfold balance_output. cbn [balanced old2new].
  rewrite klut_is_complemented. cbn [mbind option_bind]. rewrite Hi. cbn [mbind option_bind].
  destruct Hba as [Hc Hl Hlev Hf Hab]. pose proof (cp_wf _ _ _ _ Hc) as Hs.
  destruct (copy_spec _ s m po Hc Hn) as (Hr & _ & _ & Hv). fold (copy_of m po).
  assert (∃ s1 lv1 c, (if unify_outputs ps then insert_buf_chain (Z.to_nat (wrap 32 (max_level - level ntk po))) s (copy_of m po)
      else Some (s, copy_of m po)) = Some (s1, c) ∧ grows s lv s1 lv1 ∧ output_ok s1 lv1 m c po ∧ new_below s s1 c)
    as (s1 & lv1 & c & -> & Hg & Hok & Hnew).
  { pose proof (Hmax po Hpo) as Hm. unfold out_level. destruct (unify_outputs ps) eqn:Eu.
    - rewrite wrap_small by (unfold in_width; lia).
      destruct (insert_buf_chain_spec (Z.to_nat (max_level - level ntk po)) s lv (copy_of m po) Hs Hl Hr)
        as (s1 & lv1 & c & -> & Hg & Hr1 & _ & Hlv & Hv1 & Hp & Hnew).
      exists s1, lv1, c. split_and!; [done|done| |done]. split; [done| |done|].
      + intros ins. by rewrite Hv1.
      + unfold out_level. rewrite Eu, Hlv, Hlev by done. lia.
    - exists s, lv, (copy_of m po). split_and!; [done|by apply grows_refl| |intros x Hx; lia].
      split; [done|done|done|]. unfold out_level. rewrite Eu. by apply Hlev. }
  cbn [mbind option_bind]. pose proof (gw_wf _ _ _ _ Hg) as Hs1. pose proof (gw_extends _ _ _ _ Hg) as He1.
  pose proof (create_po_spec s1 c Hs1 (ou_range _ _ _ _ _ Hok)) as Hadd. set (s2 := create_po s1 c) in *.
  pose proof (po_num _ _ _ Hadd) as HN. pose proof (extends_num_nodes _ _ He1) as HN1.
  assert (extends s s2) as He by (etrans; [exact He1|apply Hadd]).
  assert (∀ a b, 0 <= a < num_nodes s1 → rtc (fanin_edge s1) a b → rtc (fanin_edge s2) a b) as Hp2
    by (intros a b; apply rtc_extends; [done|apply Hadd]).
  exists s2, lv1. split; [done|]. split; [split|].
  - apply (copied_extends ntk _ s); [done|apply Hadd|done].
  - apply (levels_ok_extends s1); [done|apply Hadd|done|apply Hg].
  - intros n Hn'. destruct (copy_spec _ s m n Hc Hn') as ([? ?] & _). rewrite (gw_old _ _ _ _ Hg) by lia. by apply Hlev.
  - intros g f Hg' Hf'. destruct (Hf g f Hg' Hf') as [Hnf Hp]. split; [done|].
    apply (rtc_extends s); [done|done| |done].
    apply (copy_spec _ s m g Hc). unfold copied_node. tauto.
  - intros x Hx. pose proof Hx as [Hxr _]. destruct (decide (x < num_nodes s)).
    + destruct (Hab x) as (y & Hy & Hyr & Hp); [by apply (extends_gate s s2 x He)|]. exists y.
      split_and!; [|lia|lia|by apply (rtc_extends s)]. destruct Hy as [Hy|?]; [left|by right].
      rewrite (po_outputs _ _ _ Hadd), (gw_outputs _ _ _ _ Hg). set_solver.
    + destruct (Hnew x) as [_ Hp]; [lia|]. pose proof (ou_range _ _ _ _ _ Hok). exists c.
      split_and!; [left|lia|lia|by apply Hp2]. rewrite (po_outputs _ _ _ Hadd). set_solver.
  - rewrite (po_outputs _ _ _ Hadd), (gw_outputs _ _ _ _ Hg). apply Forall2_app.
    + eapply Forall2_impl; [exact Hout|]. intros o p [Hor Hov Hop Hol]. split; [lia| |by apply (rtc_extends s)|].
      * intros ins. rewrite <-Hov. apply extends_value; [done|apply Hadd|done|done].
      * rewrite (gw_old _ _ _ _ Hg) by lia. done.
    + constructor; [|constructor]. destruct Hok as [Hor Hov Hop Hol]. split; [lia| |by apply Hp2|done].
      intros ins. rewrite <-Hov. apply extends_value; [done|apply Hadd|apply Hadd|done].
Qed.

(** ** The loops *)

Lemma balance_outputs_inv todo : ∀ s m lv pos i,
  balancing (topo_gates ntk) s m lv → Forall2 (output_ok s lv m) (outputs s) pos →
  (∀ j o, todo !! j = Some o → o ∈ outputs ntk ∧ get_po_levels ntk !! (i + j)%nat = Some (level ntk o)) →
  ∃ s' lv', balance_outputs ntk ps (get_po_levels ntk) max_level (State s m) i todo = Some (State s' m) ∧
    balancing (topo_gates ntk) s' m lv' ∧ Forall2 (output_ok s' lv' m) (outputs s') (pos ++ todo).
Proof.
  induction todo as [|po todo IH]; intros s m lv pos i Hba Hout Hto; simpl.
  { exists s, lv. by rewrite app_nil_r. }
  destruct (Hto O po) as [Hpo Hi]; [done|]. rewrite Nat.add_0_r in Hi.
  destruct (balance_output_inv s m lv po pos i) as (s1 & lv1 & -> & Hba1 & Hout1); try done.
  { by apply output_copied. }
  cbn [mbind option_bind]. destruct (IH s1 m lv1 (pos ++ [po]) (S i)) as (s' & lv' & -> & Hba' & Hout'); try done.
  { intros j o Hj. destruct (Hto (S j) o) as [? E]; [done|]. split; [done|]. by rewrite <-E, Nat.add_succ_r. }
  exists s', lv'. rewrite <-app_assoc in Hout'. done.
Qed.

End Steps.

(** ** Levels of the result *)

Section Result.
Context `{MT : GateLevel.Mockturtle} `{K : !Klut} `{ML : !GateLevel.MockturtleLaws} `{KL : !KlutLaws}.
Context (ntk : network) (Hntk : network_wf ntk).
Implicit Types (s : network) (n x c f : Z).

Lemma fanin_gate s a b : 0 <= a < num_nodes s → b ∈ foreach_fanin s a → gate_node s a.
Proof.
  intros Ha Hb. destruct (node_at s a Ha) as [d Hd]. rewrite (foreach_fanin_eq s a d Hd) in Hb.
  case_decide as Hc; [by apply not_elem_of_nil in Hb|]. split; [lia|]. tauto.
Qed.

Section Paths.
Context s (m : gmap Z Z) (lv : Z → Z) (Hba : balancing ntk (topo_gates ntk) s m lv).

(** A path of the network has a copy. *)
Lemma path_copied a b :
  rtc (fanin_edge ntk) a b → 0 <= a < num_nodes ntk → (gate_node ntk a → a ∈ topo_gates ntk) →
  rtc (fanin_edge s) (copy_of m a) (copy_of m b).
Proof.
  intros Hr. induction Hr as [|a b c Hab _ IH]; intros Ha Hg; [done|].
  pose proof (fanins_before ntk Hntk) as Hbefore.
  specialize (Hg (fanin_gate ntk a b Ha Hab)). destruct (ba_fanin _ _ _ _ _ Hba a b Hg Hab) as [_ Hp].
  etrans; [exact Hp|]. apply IH.
  - pose proof (wf_fanins _ Hntk a b Ha Hab). lia.
  - intros Hgb. apply list_elem_of_split in Hg as (v & w & Ht).
    pose proof (topo_gates_order ntk v a w b Hbefore Ht Hab Hgb). rewrite Ht. set_solver.
Qed.

Context (Hout : ∀ o, o ∈ outputs ntk → ∃ o', o' ∈ outputs s ∧ rtc (fanin_edge s) o' (copy_of m o)).

Lemma result_reachable x : gate_node s x → reachable s x.
Proof.
  intros Hx. destruct (ba_above _ _ _ _ _ Hba x Hx) as (y & [Hy|(g & Hg & ->)] & _ & Hp); [by exists y|].
  pose proof (fanins_before ntk Hntk) as Hbefore.
  destruct (topo_gates_reachable ntk g Hbefore Hg) as (o & Ho & Hr). destruct (Hout o Ho) as (o' & Ho' & Hp').
  exists o'. split; [done|]. etrans; [exact Hp'|]. etrans; [|exact Hp]. apply path_copied; [done|..].
  - by apply (wf_outputs _ Hntk).
  - by apply topo_gates_outputs.
Qed.

(** The levels of [depth_view] are those of the construction. *)
Lemma result_level x : 0 <= x < num_nodes s → level s x = lv x.
Proof.
  pose proof (cp_wf _ _ _ _ (ba_copied _ _ _ _ _ Hba)) as Hs. pose proof (ba_levels _ _ _ _ _ Hba) as Hl.
  enough (∀ k : nat, ∀ x, 0 <= x < Z.of_nat k → x < num_nodes s → level s x = lv x) as Hk.
  { intros Hx. apply (Hk (Z.to_nat (x + 1)) x); lia. }
  clear x. induction k as [|k IH]; intros x Hx Hlt; [lia|].
  destruct (decide (2 <= x < num_nodes s ∧ x ∉ inputs s)) as [Hg|Hg].
  - pose proof (fanins_before s Hs) as Hbefore.
    rewrite level_gate, (lo_gate _ _ Hl x Hg) by (done || by apply result_reachable).
    f_equal. f_equal. apply list_fmap_ext. intros i c Hc%list_elem_of_lookup_2.
    specialize (Hbefore x c Hg Hc). apply IH; lia.
  - rewrite (lo_source _ _ Hl) by (done || lia). apply level_source. rewrite klut_is_constant, bool_decide_eq_true.
    destruct (decide (x ∈ inputs s)); [by right|]. left. destruct (decide (2 <= x)); [|lia]. by destruct Hg.
Qed.

Lemma result_fanins_balanced :
  forallb (λ n, forallb (fanin_balanced s n) (foreach_fanin s n)) (foreach_gate s) = true.
Proof.
  pose proof (cp_wf _ _ _ _ (ba_copied _ _ _ _ _ Hba)) as Hs. pose proof (ba_levels _ _ _ _ _ Hba) as Hl.
  apply forallb_forall. intros x Hx%list_elem_of_In. rewrite klut_foreach_gate in Hx.
  apply list_elem_of_filter in Hx as [[H2 Hni] Hx%elem_of_seqZ].
  assert (gate_node s x) as Hg by (split; [lia|done]).
  apply forallb_forall. intros c Hc%list_elem_of_In. unfold fanin_balanced. rewrite klut_is_constant.
  pose proof (fanins_before s Hs x c Hg Hc) as Hr. case_bool_decide as Hconst; [done|].
  unfold level_diff. rewrite !result_level by lia. rewrite (lo_fanin _ _ Hl x c) by (done || lia).
  by replace (lv x - (lv x - 1) - 1) with 0 by lia.
Qed.
End Paths.

Lemma foldl_max_spec v x :
  let r := foldl (λ m y, if m <? y then y else m) x v in
  (r = x ∨ r ∈ v) ∧ x <= r ∧ ∀ y, y ∈ v → y <= r.
Proof.
  revert x. induction v as [|z v IH]; intros x; simpl.
  { split_and!; [by left|done|]. intros y Hy. by apply not_elem_of_nil in Hy. }
  destruct (IH (if x <? z then z else x)) as (H1 & H2 & H3). destruct (Z.ltb_spec x z).
  - split_and!; [|lia|].
    + right. destruct H1 as [->|?]; [by left|by right].
    + intros y [->|?]%elem_of_cons; [done|by apply H3].
  - split_and!; [|lia|].
    + destruct H1 as [->|?]; [by left|right; by right].
    + intros y [->|?]%elem_of_cons; [lia|by apply H3].
Qed.

Lemma max_element_spec v : v ≠ [] → ∃ x, max_element v = Some x ∧ x ∈ v ∧ ∀ y, y ∈ v → y <= x.
Proof.
  destruct v as [|x v]; [done|]. intros _. destruct (foldl_max_spec v x) as (H1 & H2 & H3). simpl.
  eexists. split; [done|]. split.
  - destruct H1 as [->|?]; [by left|by right].
  - intros y [->|?]%elem_of_cons; [done|by apply H3].
Qed.

Lemma adjacent_same a v : (∀ x, x ∈ v → x = a) → adjacent_different v = false.
Proof.
  induction v as [|x v IH]; intros Hv; [done|]. destruct v as [|y v]; [done|].
  change (adjacent_different (x :: y :: v)) with (negb (x =? y) || adjacent_different (y :: v)).
  rewrite IH by (intros z Hz; apply Hv; by right). rewrite (Hv x), (Hv y) by (repeat constructor).
  by rewrite Z.eqb_refl.
Qed.

Lemma run_balancing (ps : network_balancing_params) :
  num_nodes ntk < 2 ^ 32 → outputs ntk ≠ [] →
  ∃ s m lv mx, network_balancing ntk ps = Some s ∧ balancing ntk (topo_gates ntk) s m lv ∧
    Forall2 (output_ok ntk ps mx s lv m) (outputs s) (outputs ntk).
Proof.
  intros Hsize Hpos.
  assert (∀ o, o ∈ outputs ntk → 0 <= level ntk o < 2 ^ 32) as Hlv.
  { intros o Ho. pose proof (wf_outputs _ Hntk o Ho). destruct (level_bounds ntk Hntk o) as [? ?]; [done| |lia].
    intros _. exists o. split; [done|constructor]. }
  assert (get_po_levels ntk = level ntk <$> outputs ntk) as Hpl.
  { apply list_fmap_ext. intros i o Ho%list_elem_of_lookup_2. by apply wrap_small, Hlv. }
  destruct (max_element_spec (get_po_levels ntk)) as (mx & Emx & Hmx & Hmax).
  { rewrite Hpl. by destruct (outputs ntk). }
  rewrite Hpl in Hmx, Hmax. apply list_elem_of_fmap in Hmx as (om & -> & Hom).
  assert (∀ o, o ∈ outputs ntk → 0 <= level ntk o <= level ntk om) as Hmax'.
  { intros o Ho. split; [by apply Hlv|]. apply Hmax. by apply list_elem_of_fmap_2. }
  destruct (balance_gates_inv ntk Hntk Hsize (topo_gates ntk) [] _ _ _ eq_refl (initial_balancing ntk Hntk))
    as (s1 & m & lv1 & E1 & Hba1 & Ho1).
  destruct (balance_outputs_inv ntk Hntk Hsize ps (level ntk om) Hmax' ltac:(by apply Hlv) (outputs ntk) s1 m lv1 [] 0)
    as (s & lv & E2 & Hba & Hout).
  { done. }
  { rewrite Ho1. destruct (initial_only_inputs ntk) as [_ _ _ -> _]. constructor. }
  { intros j o Ho. split; [by eapply list_elem_of_lookup_2|]. simpl. by rewrite Hpl, list_lookup_fmap, Ho. }
  exists s, m, lv, (level ntk om). split_and!; [|done|done].
  unfold network_balancing, run. rewrite E1. cbn [mbind option_bind]. rewrite Emx. cbn [mbind option_bind].
  by rewrite E2.
Qed.

(** C10: Network balancing of a network with an output always succeeds and returns a well-formed
    network with as many inputs, whose outputs compute the same Boolean functions, and which passes
    the check of [is_balanced] with the same parameters: each fanin of a gate but constants is at the
    level before it, and with [unify_outputs] all outputs are at the same level. *)
Theorem balancing_correct (ps : network_balancing_params)
    (Hsize : num_nodes ntk < 2 ^ 32) (Hpos : outputs ntk ≠ []) :
  ∃ s, network_balancing ntk ps = Some s ∧ network_wf s ∧ length (inputs s) = length (inputs ntk) ∧
    (∀ ins, simulate s ins = simulate ntk ins) ∧ is_balanced s ps = true.
Proof.
  destruct (run_balancing ps Hsize Hpos) as (s & m & lv & mx & E & Hba & Hout).
  exists s. pose proof (cp_wf _ _ _ _ (ba_copied _ _ _ _ _ Hba)) as Hs.
  assert (∀ o, o ∈ outputs ntk → ∃ o', o' ∈ outputs s ∧ rtc (fanin_edge s) o' (copy_of m o)) as Hpaths.
  { intros o [i Ho]%list_elem_of_lookup. destruct (Forall2_lookup_r _ _ _ _ _ Hout Ho) as (o' & Ho' & Hok).
    exists o'. split; [by eapply list_elem_of_lookup_2|apply Hok]. }
  split_and!; [done|done|..].
  - rewrite (cp_inputs _ _ _ _ (ba_copied _ _ _ _ _ Hba)), length_seqZ. lia.
  - intros ins. unfold simulate. clear -Hout. induction Hout as [|o p os pos [_ Hv _ _] _ IH]; [done|].
    by rewrite !fmap_cons, Hv, IH.
  - unfold is_balanced. rewrite (result_fanins_balanced s m lv Hba Hpaths). simpl. apply negb_true_iff.
    destruct (unify_outputs ps) eqn:Eu; [simpl|done]. apply (adjacent_same (wrap 32 mx)).
    intros x (o & -> & Ho)%list_elem_of_fmap. rewrite (result_level s m lv Hba Hpaths) by (by apply (wf_outputs _ Hs)).
    apply list_elem_of_lookup in Ho as [i Ho].
    destruct (Forall2_lookup_l _ _ _ _ _ Hout Ho) as (p & _ & [_ _ _ ->]). unfold out_level. by rewrite Eu.
Qed.
End Result.
