(* ===== verification/TransformationExamples.v ===== *)
(** * Examples of network transformations

    A check of [network_wf] by evaluation, and concrete networks: the witnesses of the theorems on
    fanout substitution and network balancing, and what fanout substitution does outside of their
    hypotheses. *)

From S2P Require Import Prelude.
From S2P Require Import GateLevelLayout.
From S2P Require Import MockturtleModel.
From S2P Require Import TechnologyNetwork.
From S2P Require Import TechnologyInvariant.
From S2P Require Import KlutModel.
From S2P Require Import FanoutSubstitution.
From S2P Require Import FanoutTrees.
From S2P Require Import FanoutProperties.
From S2P Require Import NetworkBalancing.
From S2P Require Import BalancingProperties.
#[local] Open Scope Z_scope.
Import Technology.

(** ** A check of well-formedness *)

Definition node_check (s : list_network) (i : Z) : bool :=
  forallb (λ c, (0 <=? c) && (c <? i)) (foreach_fanin s i) &&
  (fanout_size s i =? wrap 31 (uses s i)) &&
  (negb (gate_b s i) ||
   (negb (bool_decide (foreach_fanin s i = [])) &&
    match vec_at (nodes s) i with
    | Some d => (0 <=? GateLevel.literal d) && (GateLevel.literal d / 2 <? cache_size (cache s))
    | None => false
    end)).

Definition network_check (s : list_network) : bool :=
  (2 <=? num_nodes s) && forallb (λ n, (2 <=? n) && (n <? num_nodes s)) (inputs s) &&
  bool_decide (NoDup (inputs s)) && forallb (node_check s) (seqZ 0 (num_nodes s)) &&
  forallb (λ o, (0 <=? o) && (o <? num_nodes s)) (outputs s) &&
  bool_decide (NoDup (cache s : list (list bool))) &&
  forallb (λ f, negb (normalize f).2) (cache s : list (list bool)) &&
  (1 <? cache_size (cache s)) && bool_decide (GateLevel.cache_at (cache s) 2 = (buffer_table : list bool)).

Lemma forallb_elem {A} (f : A → bool) v : forallb f v = true ↔ ∀ x, x ∈ v → f x = true.
Proof. rewrite forallb_forall. setoid_rewrite list_elem_of_In. done. Qed.

Lemma node_check_spec s i :
  node_check s i = true →
  (∀ c, c ∈ foreach_fanin s i → 0 <= c < i) ∧ fanout_size s i = wrap 31 (uses s i) ∧
  (gate_node s i → foreach_fanin s i ≠ []) ∧
  (∀ d, vec_at (nodes s) i = Some d → gate_node s i → valid_literal (cache s) (GateLevel.literal d)).
Proof.
  unfold node_check. intros ([Hf Hu%Z.eqb_eq]%andb_true_iff & Hg)%andb_true_iff.
  rewrite forallb_elem in Hf. split_and!.
  - intros c Hc%Hf. lia.
  - done.
  - intros Hgate%gate_b_spec. rewrite Hgate in Hg. apply andb_true_iff in Hg as [Hg _].
    by apply negb_true_iff, bool_decide_eq_false in Hg.
  - intros d Hd Hgate%gate_b_spec. rewrite Hgate, Hd in Hg. apply andb_true_iff in Hg as [_ Hg].
    unfold valid_literal. lia.
Qed.

Lemma network_check_wf s : network_check s = true → network_wf s.
Proof.
  unfold network_check. rewrite !andb_true_iff.
  intros ((((((((H2 & Hi) & Hnd) & Hn) & Ho) & Hcn) & Hcf) & Hcs) & Hb).
  rewrite forallb_elem in Hi, Hn, Ho.
  pose proof (proj1 (forallb_elem (A := list bool) _ _) Hcf) as Hcf'. apply bool_decide_eq_true in Hnd, Hcn, Hb.
  assert (∀ i, 0 <= i < num_nodes s → node_check s i = true) as Hnode.
  { intros i Hr. apply Hn. apply elem_of_seqZ. lia. }
  split.
  - lia.
  - intros n Hin%Hi. lia.
  - done.
  - intros i c Hr. by apply node_check_spec, Hnode.
  - intros i Hg. apply node_check_spec; [apply Hnode; destruct Hg; lia|done].
  - intros o Hin%Ho. lia.
  - intros n Hr. by apply node_check_spec, Hnode.
  - intros i d Hd Hg. apply (node_check_spec s i); [apply Hnode; destruct Hg; lia|done..].
  - apply list_cache_ok. split; [done|]. apply Forall_forall. intros f Hf%Hcf'.
    unfold normal. destruct f as [|[] f]; done.
  - split; [lia|done].
Qed.

Lemma occurrences_le_length x v : occurrences x v <= Z.of_nat (length v).
Proof. unfold occurrences. apply Nat2Z.inj_le, length_filter. Qed.

(** No gate has a node at two fanins, by evaluation. *)
Lemma distinct_fanins_check (s : list_network) :
  forallb (λ g, negb (gate_b s g) || bool_decide (NoDup (filter (λ f, 2 <= f) (foreach_fanin s g))))
    (seqZ 0 (num_nodes s)) = true → distinct_fanins s.
Proof.
  rewrite forallb_elem. intros Hc g Hg. specialize (Hc g). rewrite (proj2 (gate_b_spec s g) Hg) in Hc.
  eapply bool_decide_eq_true. apply Hc. apply elem_of_seqZ. destruct Hg. lia.
Qed.

(** ** Examples *)

Definition add_gates (s : list_network) (gates : list (list Z * Z)) : list_network :=
  foldl (λ s g, from_option fst s (create_node_from_literal s g.1 g.2)) s gates.
Definition build (pis : nat) (gates : list (list Z * Z)) (pos : list Z) : list_network :=
  foldl create_po (add_gates (Nat.iter pis (λ s, (create_pi s).1) make) gates) pos.

(** Inputs 2 and 3, a conjunction 4, a disjunction 5, an inverter 6, and outputs. *)
Definition example : list_network := build 2 [([2; 3], 4); ([2; 4], 6); ([4], 3); ([6; 5], 12)] [4; 7; 1; 4].

Lemma transformed_example_wf : network_wf example.
Proof. apply network_check_wf. by vm_compute. Qed.

Lemma example_uses n : uses example n <= 20.
Proof. etrans; [apply occurrences_le_length|]. by vm_compute. Qed.

Lemma substitution_equivalent_witness :
  ∃ s, FanoutSubstitution.fanout_substitution example (FanoutSubstitution.Params FanoutSubstitution.DEPTH 3 1) = Some s ∧ network_wf s ∧
    length (inputs s) = length (inputs example) ∧ ∀ ins, simulate s ins = simulate example ins.
Proof.
  apply (substitution_equivalent example (FanoutSubstitution.Params FanoutSubstitution.DEPTH 3 1)).
  - exact transformed_example_wf.
  - simpl. lia.
  - simpl. lia.
  - intros n. pose proof (example_uses n). simpl. lia.
Defined.

Lemma substitution_bounds_fanouts_witness :
  ∃ s, FanoutSubstitution.fanout_substitution example FanoutSubstitution.default_params = Some s ∧
    FanoutSubstitution.is_fanout_substituted s FanoutSubstitution.default_params = Some true.
Proof.
  apply (substitution_bounds_fanouts example FanoutSubstitution.default_params).
  - exact transformed_example_wf.
  - simpl. lia.
  - simpl. lia.
  - intros n. pose proof (example_uses n). simpl. lia.
  - apply distinct_fanins_check. by vm_compute.
Defined.

Lemma balancing_correct_witness :
  ∃ s, NetworkBalancing.network_balancing example (NetworkBalancing.Params true) = Some s ∧ network_wf s ∧
    length (inputs s) = length (inputs example) ∧ (∀ ins, simulate s ins = simulate example ins) ∧
    NetworkBalancing.is_balanced s (NetworkBalancing.Params true) = true.
Proof.
  apply (balancing_correct example transformed_example_wf (NetworkBalancing.Params true)).
  - by vm_compute.
  - by vm_compute.
Defined.

(** ** Outside of the hypotheses *)

(** With a degree of 1, the queue of fanout nodes becomes empty. *)
Theorem degree_one_runs_out :
  FanoutSubstitution.fanout_substitution example
    (FanoutSubstitution.Params FanoutSubstitution.BREADTH 1 1) = None.
Proof. by vm_compute. Qed.

(** A gate with one node at both fanins gets the same fanout node twice: 3 outputs for degree 2. *)
Definition repeated_fanin : list_network := build 1 [([2; 2], 4); ([2], 3)] [3; 4].

Theorem repeated_fanin_exceeds_degree :
  network_wf repeated_fanin ∧
  (FanoutSubstitution.fanout_substitution repeated_fanin FanoutSubstitution.default_params ≫=
   λ s, FanoutSubstitution.is_fanout_substituted s FanoutSubstitution.default_params) = Some false.
Proof. split; [apply network_check_wf|]; by vm_compute. Qed.

(** Without outputs, balancing dereferences the end of the vector of levels. *)
Theorem balancing_without_outputs :
  NetworkBalancing.network_balancing (build 1 [] []) (NetworkBalancing.Params false) = None.
Proof. by vm_compute. Qed.

(** One primary input 2, one register output 3, the primary output 2 and the register input 3. *)
Definition one_register : Sequential.sequential :=
  let q := (Sequential.create_ro (Sequential.create_pi Sequential.make).1).1 in
  Sequential.create_ri (Sequential.create_po q 2) 3.

(** [ro_to_ri] subtracts the number of inputs twice: the answer is the primary output, not the register
    input that [foreach_register] pairs with the register output. *)
Theorem ro_to_ri_subtracts_twice :
  Sequential.foreach_register one_register = Some [(3, 3)] ∧
  Sequential.ro_to_ri one_register 3 = Some 2 ∧ Sequential.ri_to_ro one_register 3 = Some 3.
Proof. by vm_compute. Qed.
