(* ===== verification/DesignRuleViolations.v ===== *)
(** * Design rule checks
      (include/fiction/algorithms/verification/design_rule_violations.hpp)

    Module [DesignRules] has [gate_level_drvs_impl]: every check, the statistics, the report and the
    lines that [run] prints, over the members that the layouts add to [CoordinateLayout] (class
    [CheckedLayout]). Colors and the lines that the checks print to the standard output for
    debugging are left out. *)

From S2P Require Import Prelude.
From S2P Require Import Coordinates.
From S2P Require Import CoordinateLayout.
From S2P Require Import CartesianLayout.
From S2P Require Import HexagonalLayout.
From S2P Require Import ClockingScheme.
From S2P Require Import ClockedLayout.
From S2P Require Import GateLevelLayout.
#[local] Open Scope Z_scope.
Import Offset.

(** What the checks call of a layout beyond [CoordinateLayout]. [foreach_coordinate] has the coordinates
    that the loop over the layout visits, and [None] when these are more than its first argument. *)
Class CheckedLayout (L : Type) `{CoordinateLayout L} := {
  foreach_coordinate : nat → L → option (list ucoord_t);
  is_adjacent_elevation_of : L → ucoord_t → ucoord_t → option bool;
  is_at_any_border : L → ucoord_t → bool;
  is_crossing_layer : L → ucoord_t → bool;
}.

#[export] Instance cartesian_checked : CheckedLayout Cartesian.cartesian_layout := {
  foreach_coordinate tiles l := Cartesian.visited tiles (Cartesian.coordinates l ucoord_default ucoord_default);
  is_adjacent_elevation_of l c1 c2 := Some (Cartesian.is_adjacent_elevation_of l c1 c2);
  is_at_any_border := Cartesian.is_at_any_border;
  is_crossing_layer := Cartesian.is_crossing_layer;
}.

Module DesignRules.

(** [gate_level_drv_params] without the stream. *)
Record gate_level_drv_params := Params {
  unplaced_nodes : bool;
  placed_dead_nodes : bool;
  non_adjacent_connections : bool;
  missing_connections : bool;
  crossing_gates : bool;
  clocked_data_flow : bool;
  has_io : bool;
  empty_io : bool;
  io_pins : bool;
  border_io : bool;
}.

Definition default_params : gate_level_drv_params :=
  Params true true true true true true true true true true.

(** The values in the report: null, a number, a string, an array and an object, with its entries in the
    order of their keys. *)
Inductive json :=
| Null
| Number (n : Z)
| Text (s : string)
| Array (v : list json)
| Object (m : list (string * json)).

(** [report[key] = value] for a string. *)
Fixpoint object_insert (key : string) (value : json) (m : list (string * json)) : list (string * json) :=
  match m with
  | [] => [(key, value)]
  | (k, v) :: m' =>
      if bool_decide (k = key) then (key, value) :: m'
      else if String.ltb key k then (key, value) :: m
      else (k, v) :: object_insert key value m'
  end.
Definition set_key (report : json) (key : string) (value : json) : json :=
  match report with
  | Object m => Object (object_insert key value m)
  | _ => Object [(key, value)]
  end.

(** [report[n] = value] for an index: the array grows with nulls. *)
Definition set_index (report : json) (n : Z) (value : json) : json :=
  let v := match report with Array v => v | _ => [] end in
  let v := v ++ replicate (Z.to_nat n + 1 - length v) Null in
  Array (<[Z.to_nat n := value]> v).

(** [gate_level_drv_stats]; the counts have type [size_t]. *)
Record gate_level_drv_stats := Stats { report : json; drvs : Z; warnings : Z }.
Definition new_stats : gate_level_drv_stats := Stats Null 0 0.

(** What is printed: headlines, the summary of a check, and the counts. *)
Inductive line :=
| Headline (s : string)
| Summary (mark : string) (s : string)
| Counts (drvs warnings : Z).

Definition summary (msg : string) (chk brk : bool) : line :=
  Summary (if chk then "CHECK_PASSED" else if brk then "CHECK_FAILED" else "WARNING")
    ((if chk then "" else "not ") +:+ msg).

Section DesignRules.
Context {L : Type} `{HL : CoordinateLayout L} `{CL : !CheckedLayout L} `{MT : GateLevel.Mockturtle}.
Context (lyt : GateLevel.gate_level_layout L).
#[local] Notation strg := (GateLevel.strg lyt).
#[local] Notation cl := (GateLevel.clocked lyt).
#[local] Notation base := (Clocked.coordinate_layout (GateLevel.clocked lyt)).

(** ** The report *)

(** [t.str()]. *)
Definition str (t : ucoord_t) : string :=
  "(" +:+ pretty (ux t) +:+ "," +:+ pretty (uy t) +:+ "," +:+ pretty (uz t) +:+ ")".

Definition letter (b : bool) (s : string) : string := if b then s else "".

(** [log_tile], for layouts without synchronization elements. *)
Definition log_tile (t : ucoord_t) (report : json) : option json :=
  let s := if GateLevel.is_empty_tile strg t then "empty"
           else "node: " +:+ pretty (GateLevel.node_to_index (GateLevel.get_node_at strg t)) in
  let clk := Clocked.get_clock_number cl t in
  n ← GateLevel.has_northern_incoming_signal lyt t;
  e ← GateLevel.has_eastern_incoming_signal lyt t;
  s' ← GateLevel.has_southern_incoming_signal lyt t;
  w ← GateLevel.has_western_incoming_signal lyt t;
  let inp := letter n "N" +:+ letter e "E" +:+ letter s' "S" +:+ letter w "W" in
  n ← GateLevel.has_northern_outgoing_signal lyt t;
  e ← GateLevel.has_eastern_outgoing_signal lyt t;
  s' ← GateLevel.has_southern_outgoing_signal lyt t;
  w ← GateLevel.has_western_outgoing_signal lyt t;
  let out := letter n "N" +:+ letter e "E" +:+ letter s' "S" +:+ letter w "W" in
  pi ← GateLevel.is_pi_tile lyt t;
  po ← GateLevel.is_po_tile lyt t;
  Some (set_key report (str t)
    (Text (s +:+ ", clk: " +:+ pretty clk +:+ ", se: 0, inp: " +:+ inp +:+ ", out: " +:+ out +:+
           letter pi ", PI" +:+ letter po ", PO"))).

Definition log_node (n : Z) (report : json) : json :=
  set_index report n (Number (GateLevel.node_to_index n)).

(** ** The loops of the checks *)

(** The local variables of a check, the flag and its report, and the number of increments of the
    counter in the statistics. *)
Record check_state := CheckState { passed : bool; check_report : json; issues : Z }.
Definition initial_check : check_state := CheckState true Null 0.

(** [flag = false; log...; ++pst.drvs;] *)
Definition violation (log : json → option json) (s : check_state) : option check_state :=
  r ← log (check_report s); Some (CheckState false r (issues s + 1)).

(** A loop whose functor is [f]. *)
Fixpoint loop {A} (f : A → check_state → option check_state) (v : list A) (s : check_state) : option check_state :=
  match v with
  | [] => Some s
  | a :: v' => s ← f a s; loop f v' s
  end.

(** The end of a check: the counter, the report and the summary. *)
Definition add_warnings (key msg : string) (s : check_state) (st : gate_level_drv_stats) :
    gate_level_drv_stats * line :=
  (Stats (set_key (report st) key (check_report s)) (drvs st) (wrap 64 (warnings st + issues s)),
   summary msg (passed s) false).
Definition add_drvs (key msg : string) (s : check_state) (st : gate_level_drv_stats) :
    gate_level_drv_stats * line :=
  (Stats (set_key (report st) key (check_report s)) (wrap 64 (drvs st + issues s)) (warnings st),
   summary msg (passed s) true).

(** ** The checks *)

Definition check_unplaced (n : Z) (s : check_state) : option check_state :=
  if GateLevel.is_constant n then Some s
  else if is_dead (GateLevel.get_tile strg n) then violation (λ r, Some (log_node n r)) s
  else Some s.

Definition unplaced_nodes_check (st : gate_level_drv_stats) : option (gate_level_drv_stats * line) :=
  ns ← GateLevel.foreach_node lyt;
  s ← loop check_unplaced ns initial_check;
  Some (add_warnings "Unplaced nodes" "all nodes are properly placed" s st).

Definition check_placed_dead (t : ucoord_t) (s : check_state) : option check_state :=
  if GateLevel.is_empty_tile strg t then Some s
  else
    b ← GateLevel.is_dead_node strg (GateLevel.get_node_at strg t);
    if (b : bool) then violation (log_tile t) s else Some s.

(** [foreach_tile] is [foreach_coordinate] of the coordinate layout; [tiles] bounds the steps of its loop. *)
Definition placed_dead_nodes_check (tiles : nat) (st : gate_level_drv_stats) :
    option (gate_level_drv_stats * line) :=
  ts ← foreach_coordinate tiles base;
  s ← loop check_placed_dead ts initial_check;
  Some (add_warnings "Dead placed nodes" "all placed nodes are alive" s st).

(** The loop over the children of [n] in two checks; [ok t ct] is the tested condition. *)
Definition check_child (ok : ucoord_t → ucoord_t → option bool) (t : ucoord_t) (child : Z) (s : check_state) :
    option check_state :=
  let ct := GateLevel.get_tile strg (GateLevel.get_node strg child) in
  b ← ok t ct;
  if (b : bool) then Some s else violation (λ r, r ← log_tile ct r; log_tile t r) s.

Definition check_children (ok : ucoord_t → ucoord_t → option bool) (n : Z) (s : check_state) :
    option check_state :=
  if GateLevel.is_constant n then Some s
  else
    let t := GateLevel.get_tile strg n in
    d ← vec_at (GateLevel.nodes strg) n;
    loop (check_child ok t) (GateLevel.children d) s.

Definition non_adjacent_connections_check (st : gate_level_drv_stats) : option (gate_level_drv_stats * line) :=
  ns ← GateLevel.foreach_node lyt;
  s ← loop (check_children (is_adjacent_elevation_of base)) ns initial_check;
  Some (add_drvs "Non adjacent connections" "all tiles are adjacently connected" s st).

Definition clocked_data_flow_check (st : gate_level_drv_stats) : option (gate_level_drv_stats * line) :=
  ns ← GateLevel.foreach_node lyt;
  s ← loop (check_children (λ t ct, Some (Clocked.is_incoming_clocked cl t ct))) ns initial_check;
  Some (add_drvs "Improperly clocked tiles" "all connected tiles are properly clocked" s st).

(** [a && b], where [b] is evaluated if [a] holds, and [!b]. *)
Definition opt_and (a b : option bool) : option bool := x ← a; if (x : bool) then b else Some false.
Definition opt_not (a : option bool) : option bool := negb <$> a.

Definition dangling_inp_connection (t : ucoord_t) : option bool :=
  opt_and (opt_and (GateLevel.is_nil <$> GateLevel.incoming_data_flow lyt t)
    (opt_not (GateLevel.is_pi_tile lyt t))) (opt_not (GateLevel.is_ro_tile lyt t)).
Definition dangling_out_connection (t r_t : ucoord_t) : option bool :=
  opt_and (opt_and (opt_and (GateLevel.is_nil <$> GateLevel.outgoing_data_flow lyt t)
    (opt_not (GateLevel.is_po_tile lyt t))) (opt_not (GateLevel.is_ri_tile lyt t)))
    (opt_not (GateLevel.is_ro_tile lyt r_t)).

(** [++r_t.x] increments the bit field. *)
Definition check_missing (n : Z) (s : check_state) : option check_state :=
  if GateLevel.is_constant n then Some s
  else
    let t := GateLevel.get_tile strg n in
    let r_t := incr_x (GateLevel.get_tile strg n) in
    inp ← dangling_inp_connection t;
    out ← dangling_out_connection t r_t;
    if (out : bool) || (inp : bool) then violation (log_tile t) s else Some s.

Definition missing_connections_check (st : gate_level_drv_stats) : option (gate_level_drv_stats * line) :=
  ns ← GateLevel.foreach_node lyt;
  s ← loop check_missing ns initial_check;
  Some (add_drvs "Missing connections" "all occupied tiles are properly connected" s st).

Definition check_crossing (w : Z) (s : check_state) : option check_state :=
  let t := GateLevel.get_tile strg w in
  if is_crossing_layer base t then
    b ← GateLevel.is_wire_tile lyt (below base t);
    if (b : bool) then Some s else violation (log_tile t) s
  else Some s.

Definition crossing_gates_check (st : gate_level_drv_stats) : option (gate_level_drv_stats * line) :=
  ws ← GateLevel.foreach_wire lyt;
  s ← loop check_crossing ws initial_check;
  Some (add_drvs "Wires crossing gates" "all wire crossings cross over other wires only" s st).

(** [num_pis() != num_io || num_pis() == 0 || num_io == 0]; the numbers have type [uint32_t]. *)
Definition io_missing (specified counted : Z) : bool :=
  negb (specified =? counted) || (specified =? 0) || (counted =? 0).

Definition has_io_check (st : gate_level_drv_stats) : option (gate_level_drv_stats * line) :=
  pis ← GateLevel.foreach_pi lyt;
  pos ← GateLevel.foreach_po lyt;
  let counted_pis := wrap 32 (Z.of_nat (length pis)) in
  let counted_pos := wrap 32 (Z.of_nat (length pos)) in
  let r := set_key Null "Specified PIs" (Number (GateLevel.num_pis lyt)) in
  let r := set_key r "Counted PIs" (Number counted_pis) in
  let r := set_key r "Specified POs" (Number (GateLevel.num_pos lyt)) in
  let r := set_key r "Counted POs" (Number counted_pos) in
  let no_pis := io_missing (GateLevel.num_pis lyt) counted_pis in
  let no_pos := io_missing (GateLevel.num_pos lyt) counted_pos in
  let s := CheckState (negb (no_pis || no_pos)) r (Z.b2z no_pis + Z.b2z no_pos) in
  Some (add_drvs "I/O counts" "all I/O are properly specified" s st).

(** The nodes that the other I/O checks visit: inputs, then the nodes of outputs. *)
Definition io_nodes : option (list Z) :=
  pis ← GateLevel.foreach_pi lyt;
  pos ← GateLevel.foreach_po lyt;
  Some (pis ++ (GateLevel.get_node strg <$> pos)).

Definition check_empty_io (io : Z) (s : check_state) : option check_state :=
  let iot := GateLevel.get_tile strg io in
  if GateLevel.is_empty_tile strg iot then violation (log_tile iot) s else Some s.

Definition empty_io_check (st : gate_level_drv_stats) : option (gate_level_drv_stats * line) :=
  ios ← io_nodes;
  s ← loop check_empty_io ios initial_check;
  Some (add_drvs "Empty I/O ports" "all I/O ports are assigned to a non-empty tile" s st).

Definition check_io_pin (io : Z) (s : check_state) : option check_state :=
  let iot := GateLevel.get_tile strg io in
  b ← GateLevel.is_buf strg io;
  if (b : bool) then Some s else violation (log_tile iot) s.

Definition io_pin_check (st : gate_level_drv_stats) : option (gate_level_drv_stats * line) :=
  ios ← io_nodes;
  s ← loop check_io_pin ios initial_check;
  Some (add_warnings "Gate I/O ports" "all I/O ports are realized by designated pins" s st).

Definition check_border_io (io : Z) (s : check_state) : option check_state :=
  let iot := GateLevel.get_tile strg io in
  if is_at_any_border base iot then Some s else violation (log_tile iot) s.

Definition border_io_check (st : gate_level_drv_stats) : option (gate_level_drv_stats * line) :=
  ios ← io_nodes;
  s ← loop check_border_io ios initial_check;
  Some (add_warnings "Border I/O ports" "all I/O ports are located at the layout's borders" s st).

(** ** The run *)

(** [if (enabled) *ps.out << check();], on the statistics and the lines printed. *)
Definition run_check (enabled : bool) (check : gate_level_drv_stats → option (gate_level_drv_stats * line))
    (r : gate_level_drv_stats * list line) : option (gate_level_drv_stats * list line) :=
  if enabled then '(st, l) ← check r.1; Some (st, r.2 ++ [l]) else Some r.

Definition print (l : line) (r : gate_level_drv_stats * list line) : gate_level_drv_stats * list line :=
  (r.1, r.2 ++ [l]).

Definition run (tiles : nat) (ps : gate_level_drv_params) :
    option (gate_level_drv_stats * list line) :=
  let r := print (Headline "Topology:") (new_stats, []) in
  r ← run_check (unplaced_nodes ps) unplaced_nodes_check r;
  r ← run_check (placed_dead_nodes ps) (placed_dead_nodes_check tiles) r;
  r ← run_check (non_adjacent_connections ps) non_adjacent_connections_check r;
  r ← run_check (missing_connections ps) missing_connections_check r;
  r ← run_check (crossing_gates ps) crossing_gates_check r;
  let r := print (Headline "Clocking:") r in
  r ← run_check (clocked_data_flow ps) clocked_data_flow_check r;
  let r := print (Headline "I/O ports:") r in
  r ← run_check (has_io ps) has_io_check r;
  r ← run_check (empty_io ps) empty_io_check r;
  r ← run_check (io_pins ps) io_pin_check r;
  r ← run_check (border_io ps) border_io_check r;
  let st := r.1 in
  let r := print (Counts (drvs st) (warnings st)) r in
  Some (Stats (set_key (set_key (report st) "DRVs" (Number (drvs st))) "Warnings" (Number (warnings st)))
          (drvs st) (warnings st), r.2).

Definition gate_level_drvs (tiles : nat) (ps : gate_level_drv_params) := run tiles ps.
End DesignRules.
End DesignRules.
