(* ===== verification/DesignRuleProperties.v ===== *)
(** * Properties of the design rule checks

    On Cartesian layouts, as soon as the loop over all tiles ends, so does the run, with counts that are
    exactly the numbers of violations ([run_counted]). A layout without violations has lost no
    connection: all children of a node are visited as its fanins ([clean_layouts_connected]). *)

From S2P Require Import Prelude.
From S2P Require Import Coordinates.
From S2P Require Import CoordinateLayout.
From S2P Require Import CartesianLayout.
From S2P Require Import ClockingScheme.
From S2P Require Import ClockedLayout.
From S2P Require Import GateLevelLayout.
From S2P Require Import GateLevelInvariant.
From S2P Require Import GateLevelDataFlow.
From S2P Require Import MockturtleModel.
From S2P Require Import GateLevelProperties.
From S2P Require Import DesignRuleViolations.
#[local] Open Scope Z_scope.
Import Offset Clocked GateLevel DesignRules.

(** ** Counting *)

Definition number {A} (p : A → bool) (v : list A) : Z := Z.of_nat (length (filter (λ a, p a = true) v)).

Lemma number_of_cons {A} (p : A → bool) a v : number p (a :: v) = Z.b2z (p a) + number p v.
Proof. unfold number. rewrite filter_cons. case_decide; destruct (p a); simpl; done || lia. Qed.

Lemma number_nonneg {A} (p : A → bool) v : 0 <= number p v.
Proof. unfold number. lia. Qed.

Lemma number_length {A} (p : A → bool) v : number p v <= Z.of_nat (length v).
Proof. unfold number. apply Nat2Z.inj_le, length_filter. Qed.

Lemma number_0 {A} (p : A → bool) v : number p v = 0 → ∀ a, a ∈ v → p a = false.
Proof.
  induction v as [|b v IH]; intros Hn a Ha; [by apply not_elem_of_nil in Ha|].
  rewrite number_of_cons in Hn. pose proof (number_nonneg p v). destruct (p b) eqn:E; simpl in Hn; [lia|].
  apply elem_of_cons in Ha as [->|Ha]; [done|]. apply IH; [lia|done].
Qed.

(** Sums over lists. *)
Definition total {A} (k : A → Z) (v : list A) : Z := foldr (λ a n, k a + n) 0 v.

Lemma total_number {A} (p : A → bool) v : total (λ a, Z.b2z (p a)) v = number p v.
Proof. induction v as [|a v IH]; [done|]. rewrite number_of_cons, <-IH. done. Qed.

Lemma sum_nonneg {A} (k : A → Z) v : (∀ a, a ∈ v → 0 <= k a) → 0 <= total k v.
Proof.
  induction v as [|a v IH]; intros Hk; [done|]. simpl. pose proof (Hk a ltac:(left)).
  pose proof (IH ltac:(intros; apply Hk; by right)). lia.
Qed.

Lemma total_le {A} (k k' : A → Z) v : (∀ a, a ∈ v → k a <= k' a) → total k v <= total k' v.
Proof.
  induction v as [|a v IH]; intros Hk; [done|]. simpl. pose proof (Hk a ltac:(left)).
  pose proof (IH ltac:(intros; apply Hk; by right)). lia.
Qed.

Lemma total_0 {A} (k : A → Z) v : (∀ a, a ∈ v → 0 <= k a) → total k v = 0 → ∀ a, a ∈ v → k a = 0.
Proof.
  induction v as [|b v IH]; intros Hk Ht a Ha; [by apply not_elem_of_nil in Ha|]. simpl in Ht.
  pose proof (Hk b ltac:(left)). assert (∀ c, c ∈ v → 0 <= k c) as Hv by (intros; apply Hk; by right).
  pose proof (sum_nonneg k v Hv). apply elem_of_cons in Ha as [->|Ha]; [lia|]. apply IH; [done|lia|done].
Qed.

(** A step that finds [k a] issues. *)
Definition finds {A} (f : A → check_state → option check_state) (k : A → Z) (v : list A) : Prop :=
  ∀ a, a ∈ v → 0 <= k a ∧ ∀ s, ∃ r, f a s = Some (CheckState (passed s && (k a =? 0)) r (issues s + k a)).

Lemma loop_finds {A} (f : A → check_state → option check_state) k v s :
  finds f k v → ∃ r, loop f v s = Some (CheckState (passed s && (total k v =? 0)) r (issues s + total k v)).
Proof.
  revert s. induction v as [|a v IH]; intros s Hf; simpl.
  { exists (check_report s). rewrite andb_true_r, Z.add_0_r. by destruct s. }
  destruct (Hf a ltac:(left)) as [Ha Hs]. destruct (Hs s) as (r & ->). cbn [mbind option_bind].
  assert (finds f k v) as Hv by (intros b Hb; apply Hf; by right).
  destruct (IH (CheckState (passed s && (k a =? 0)) r (issues s + k a)) Hv) as (r' & ->). exists r'. cbn [passed issues]. f_equal. f_equal; [|lia].
  pose proof (sum_nonneg k v (λ b Hb, proj1 (Hv b Hb))). rewrite <-andb_assoc. f_equal.
  destruct (Z.eqb_spec (k a) 0), (Z.eqb_spec (total k v) 0), (Z.eqb_spec (k a + total k v) 0); done || lia.
Qed.

(** A functor that tests for a violation and logs it. *)
Lemma violation_finds {A} (p : A → bool) (log : A → json → option json) v :
  (∀ a r, a ∈ v → is_Some (log a r)) →
  finds (λ a s, if p a then violation (log a) s else Some s) (λ a, Z.b2z (p a)) v.
Proof.
  intros Hlog a Ha. split; [by destruct (p a)|]. intros s. destruct (p a).
  - destruct (Hlog a (check_report s) Ha) as [r E]. exists r. unfold violation. rewrite E. simpl.
    by rewrite andb_false_r.
  - exists (check_report s). simpl. rewrite andb_true_r, Z.add_0_r. by destruct s.
Qed.

Lemma finds_ext {A} (f g : A → check_state → option check_state) k v :
  (∀ a s, a ∈ v → f a s = g a s) → finds g k v → finds f k v.
Proof.
  intros Hfg Hg a Ha. destruct (Hg a Ha) as [Hk Hs]. split; [done|]. intros s. by rewrite Hfg.
Qed.

(** ** The checks of a layout *)

Section Checks.
Context `{MT : Mockturtle} (l : gate_level_layout Cartesian.cartesian_layout).
Context (Hl : layout_wf l) (Hsize : Z.of_nat (length (nodes (strg l))) < 2 ^ 32).
Context (Hris : inf_num_pos (sequential_inf l) + num_ris l <= num_cos l).
#[local] Notation base := (coordinate_layout (clocked l)).

Definition holds (b : option bool) : bool := default false b.

Lemma holds_total b : is_Some b → b = Some (holds b).
Proof. by intros [x ->]. Qed.

Lemma pi_tile_total t : is_Some (is_pi_tile l t).
Proof.
  unfold is_pi_tile, is_pi. destruct (lw_pis _ Hl) as [? E]. unfold num_ros, num_cis in E.
  rewrite vec_range_prefix by lia. by eexists.
Qed.
Lemma ro_tile_total t : is_Some (is_ro_tile l t).
Proof.
  unfold is_ro_tile, is_ro. destruct (lw_pis _ Hl) as [? E]. pose proof E as E'. unfold num_cis in E'.
  assert (0 <= num_ros l) by (unfold num_ros; lia). rewrite vec_range_suffix by lia. by eexists.
Qed.
Lemma po_tile_total t : is_Some (is_po_tile l t).
Proof.
  unfold is_po_tile, is_po. pose proof (lw_pos _ Hl) as E. unfold num_cos in E.
  rewrite vec_range_prefix by lia. by eexists.
Qed.
Lemma ri_tile_total t : is_Some (is_ri_tile l t).
Proof.
  unfold is_ri_tile, is_ri, vec_range. pose proof (lw_pos _ Hl) as E. pose proof Hris as H. unfold num_cos in *.
  assert (0 <= num_ris l) by (unfold num_ris; lia). rewrite decide_True by lia. by eexists.
Qed.
Lemma incoming_total t : is_Some (incoming_data_flow l t).
Proof. apply (data_flow_total l (lw_storage _ Hl)). Qed.
Lemma outgoing_total t : is_Some (outgoing_data_flow l t).
Proof. apply (data_flow_total l (lw_storage _ Hl)). Qed.

Lemma log_tile_total t r : is_Some (log_tile l t r).
Proof.
  unfold log_tile, has_northern_incoming_signal, has_eastern_incoming_signal, has_southern_incoming_signal,
    has_western_incoming_signal, has_northern_outgoing_signal, has_eastern_outgoing_signal,
    has_southern_outgoing_signal, has_western_outgoing_signal, is_incoming_signal, is_outgoing_signal.
  destruct (incoming_total t) as [vi ->], (outgoing_total t) as [vo ->].
  destruct (pi_tile_total t) as [bi ->], (po_tile_total t) as [bo ->]. simpl. by eexists.
Qed.

Lemma node_total n : 0 <= n < Z.of_nat (length (nodes (strg l))) → ∃ d, vec_at (nodes (strg l)) n = Some d.
Proof. intros (d & Hd & _)%vec_at_lookup. eauto. Qed.

Lemma literal_total n k : 0 <= n < Z.of_nat (length (nodes (strg l))) → is_Some (has_literal (strg l) n k).
Proof. intros [d Hd]%node_total. unfold has_literal. rewrite Hd. by eexists. Qed.

(** *** What counts as a violation *)

Definition children_of (n : Z) : list Z := from_option children [] (vec_at (nodes (strg l)) n).

(** The children of [n] for whose tiles the condition does not hold. *)
Definition bad_children (ok : ucoord_t → ucoord_t → bool) (n : Z) : Z :=
  if is_constant n then 0
  else number (λ c, negb (ok (get_tile (strg l) n) (get_tile (strg l) (get_node (strg l) c)))) (children_of n).

Definition adjacent_tiles : ucoord_t → ucoord_t → bool := Cartesian.is_adjacent_elevation_of base.
Definition clocked_tiles : ucoord_t → ucoord_t → bool := is_incoming_clocked (clocked l).

Definition unplaced (n : Z) : bool := negb (is_constant n) && is_dead (get_tile (strg l) n).
Definition dead_placed (t : ucoord_t) : bool :=
  negb (is_empty_tile (strg l) t) && holds (is_dead_node (strg l) (get_node_at (strg l) t)).
Definition no_source (t : ucoord_t) : bool :=
  holds (is_nil <$> incoming_data_flow l t) && negb (holds (is_pi_tile l t)) && negb (holds (is_ro_tile l t)).
Definition no_target (t : ucoord_t) : bool :=
  holds (is_nil <$> outgoing_data_flow l t) && negb (holds (is_po_tile l t)) && negb (holds (is_ri_tile l t)) &&
  negb (holds (is_ro_tile l (incr_x t))).
Definition missing (n : Z) : bool :=
  negb (is_constant n) && (no_target (get_tile (strg l) n) || no_source (get_tile (strg l) n)).
Definition crosses_gate (w : Z) : bool :=
  let t := get_tile (strg l) w in
  Cartesian.is_crossing_layer base t && negb (holds (is_wire_tile l (Cartesian.below base t))).
Definition on_empty_tile (io : Z) : bool := is_empty_tile (strg l) (get_tile (strg l) io).
Definition not_pin (io : Z) : bool := negb (holds (is_buf (strg l) io)).
Definition off_border (io : Z) : bool := negb (Cartesian.is_at_any_border base (get_tile (strg l) io)).

(** *** What the functors find *)

Lemma check_unplaced_finds v : finds (check_unplaced l) (λ n, Z.b2z (unplaced n)) v.
Proof.
  apply (finds_ext _ (λ n s, if unplaced n then violation (λ r, Some (log_node n r)) s else Some s)).
  - intros n s _. unfold check_unplaced, unplaced. by destruct (is_constant n), (is_dead _).
  - apply violation_finds. by eexists.
Qed.

Lemma check_placed_dead_finds v : finds (check_placed_dead l) (λ t, Z.b2z (dead_placed t)) v.
Proof.
  apply (finds_ext _ (λ t s, if dead_placed t then violation (log_tile l t) s else Some s)).
  - intros t s _. unfold check_placed_dead, dead_placed. destruct (is_empty_tile _ t); [done|].
    destruct (node_total (get_node_at (strg l) t)) as [d Hd]; [apply get_node_range, Hl|].
    unfold is_dead_node. rewrite Hd. done.
  - apply violation_finds. intros t r _. apply log_tile_total.
Qed.

Lemma check_children_finds (f : ucoord_t → ucoord_t → option bool) ok v :
  (∀ t ct, f t ct = Some (ok t ct)) → (∀ n, n ∈ v → 0 <= n < Z.of_nat (length (nodes (strg l)))) →
  finds (check_children l f) (bad_children ok) v.
Proof.
  intros Hf Hv n Hn. unfold bad_children, children_of, check_children. destruct (is_constant n).
  { split; [done|]. intros s. exists (check_report s). rewrite andb_true_r, Z.add_0_r. by destruct s. }
  split; [apply number_nonneg|]. intros s. destruct (node_total n (Hv n Hn)) as [d ->].
  cbn [mbind option_bind from_option]. set (t := get_tile (strg l) n).
  rewrite <-total_number. apply loop_finds.
  apply (finds_ext _ (λ c s, if negb (ok t (get_tile (strg l) (get_node (strg l) c)))
    then violation (λ r, r ← log_tile l (get_tile (strg l) (get_node (strg l) c)) r; log_tile l t r) s else Some s)).
  - intros c s' _. unfold check_child. rewrite Hf. simpl. by destruct (ok _ _).
  - apply violation_finds. intros c r _.
    destruct (log_tile_total (get_tile (strg l) (get_node (strg l) c)) r) as [r' ->]. apply log_tile_total.
Qed.

Lemma check_missing_finds v : finds (check_missing l) (λ n, Z.b2z (missing n)) v.
Proof.
  apply (finds_ext _ (λ n s, if missing n then violation (log_tile l (get_tile (strg l) n)) s else Some s)).
  - intros n s _. unfold check_missing, missing. destruct (is_constant n); [done|]. cbn [negb andb].
    set (t := get_tile (strg l) n). unfold no_source, no_target, dangling_inp_connection, dangling_out_connection.
    destruct (incoming_total t) as [vi ->], (outgoing_total t) as [vo ->].
    destruct (pi_tile_total t) as [b1 ->], (po_tile_total t) as [b2 ->], (ro_tile_total t) as [b3 ->].
    destruct (ri_tile_total t) as [b4 ->], (ro_tile_total (incr_x t)) as [b5 ->].
    unfold opt_and, opt_not, holds. simpl. by destruct (is_nil vi), (is_nil vo), b1, b2, b3, b4, b5.
  - apply violation_finds. intros n r _. apply log_tile_total.
Qed.

Lemma check_crossing_finds v : finds (check_crossing l) (λ w, Z.b2z (crosses_gate w)) v.
Proof.
  apply (finds_ext _ (λ w s, if crosses_gate w then violation (log_tile l (get_tile (strg l) w)) s else Some s)).
  - intros w s _. unfold check_crossing, crosses_gate, is_crossing_layer, cartesian_checked.
    set (t := get_tile (strg l) w). change (below base t) with (Cartesian.below base t).
    destruct (Cartesian.is_crossing_layer base t); [|done].
    unfold is_wire_tile, is_wire, is_buf.
    destruct (literal_total (get_node_at (strg l) (Cartesian.below base t)) 2) as [b ->];
      [apply get_node_range, Hl|]. by destruct b.
  - apply violation_finds. intros w r _. apply log_tile_total.
Qed.

Lemma check_empty_io_finds v : finds (check_empty_io l) (λ n, Z.b2z (on_empty_tile n)) v.
Proof. apply (violation_finds on_empty_tile (λ io, log_tile l (get_tile (strg l) io))). intros. apply log_tile_total. Qed.

Lemma check_io_pin_finds v :
  (∀ n, n ∈ v → 0 <= n < Z.of_nat (length (nodes (strg l)))) →
  finds (check_io_pin l) (λ n, Z.b2z (not_pin n)) v.
Proof.
  intros Hv. apply (finds_ext _ (λ n s, if not_pin n then violation (log_tile l (get_tile (strg l) n)) s else Some s)).
  - intros n s Hn. unfold check_io_pin, not_pin, is_buf. destruct (literal_total n 2 (Hv n Hn)) as [b ->].
    by destruct b.
  - apply violation_finds. intros. apply log_tile_total.
Qed.

Lemma check_border_io_finds v : finds (check_border_io l) (λ n, Z.b2z (off_border n)) v.
Proof.
  apply (finds_ext _ (λ n s, if off_border n then violation (log_tile l (get_tile (strg l) n)) s else Some s)).
  - intros n s _. unfold check_border_io, off_border, is_at_any_border, cartesian_checked.
    by destruct (Cartesian.is_at_any_border _ _).
  - apply violation_finds. intros. apply log_tile_total.
Qed.

(** *** The whole run *)

Definition io_issues (pis pos : list Z) : Z :=
  Z.b2z (io_missing (num_pis l) (wrap 32 (Z.of_nat (length pis)))) +
  Z.b2z (io_missing (num_pos l) (wrap 32 (Z.of_nat (length pos)))).

Definition drv_count (ns ws pis pos : list Z) : Z :=
  total (bad_children adjacent_tiles) ns + number missing ns + number crosses_gate ws +
  total (bad_children clocked_tiles) ns + io_issues pis pos +
  number on_empty_tile (pis ++ (get_node (strg l) <$> pos)).

Definition warning_count (ns : list Z) (tiles : list ucoord_t) (pis pos : list Z) : Z :=
  number unplaced ns + number dead_placed tiles + number not_pin (pis ++ (get_node (strg l) <$> pos)) +
  number off_border (pis ++ (get_node (strg l) <$> pos)).

Lemma wires_total :
  ∃ ws, foreach_wire l = Some ws ∧ NoDup ws ∧
    ∀ w, w ∈ ws ↔ 2 <= w < Z.of_nat (length (nodes (strg l))) ∧
      is_wire (strg l) w = Some true ∧ is_dead_node (strg l) w = Some false.
Proof.
  unfold foreach_wire. rewrite size_length by (done || apply Hl).
  pose proof (wf_size _ (lw_storage _ Hl)) as Hn.
  destruct (select_nodes_spec (λ n, and_alive (strg l) (is_wire (strg l) n) n)
    (seqZ 2 (Z.of_nat (length (nodes (strg l))) - 2))) as (ws & -> & Hnd & Hin); [apply NoDup_seqZ| |].
  - intros n Hr%elem_of_seqZ. destruct (node_total n) as [d Hd]; [lia|].
    unfold and_alive, is_wire, is_buf, has_literal, is_dead_node. rewrite Hd. simpl. by destruct (_ =? _).
  - exists ws. split_and!; [done|done|]. intros w. rewrite Hin, elem_of_seqZ. unfold and_alive.
    destruct (is_wire (strg l) w) as [[]|]; simpl; [|naive_solver..].
    destruct (is_dead_node (strg l) w) as [[]|]; simpl; [naive_solver| |naive_solver].
    split; [intros [? _]|intros [? _]]; (split; [lia|done]).
Qed.

Lemma io_total :
  ∃ pis pos, foreach_pi l = Some pis ∧ foreach_po l = Some pos ∧
    (length pis <= length (inputs (strg l)))%nat ∧ (length pos <= length (outputs (strg l)))%nat ∧
    ∀ n, n ∈ pis ++ (get_node (strg l) <$> pos) → 0 <= n < Z.of_nat (length (nodes (strg l))).
Proof.
  unfold foreach_pi, foreach_po. destruct (lw_pis _ Hl) as [H0 E]. unfold num_ros, num_cis in E.
  pose proof (lw_pos _ Hl) as E'. unfold num_cos in E'. rewrite !vec_range_prefix by lia. simpl.
  eexists _, _. split_and!; [done|done|rewrite length_fmap, length_take; lia|rewrite length_take; lia|].
  intros n [Hn|Hn]%elem_of_app.
  - apply list_elem_of_fmap in Hn as (m & -> & Hm).
    pose proof (Forall_take _ (Z.to_nat (inf_num_pis (sequential_inf l))) _ (lw_inputs _ Hl)) as Hi.
    rewrite Forall_forall in Hi. specialize (Hi m Hm).
    rewrite wrap_small by (unfold in_width; lia). lia.
  - apply list_elem_of_fmap in Hn as (m & -> & _). apply get_node_range, Hl.
Qed.

Lemma alive_nodes :
  ∃ ns, foreach_node l = Some ns ∧ NoDup ns ∧ ∀ n, n ∈ ns ↔
    0 <= n < Z.of_nat (length (nodes (strg l))) ∧ is_dead_node (strg l) n = Some false.
Proof. apply foreach_node_spec; [apply Hl|done]. Qed.

Lemma wrap_add_l w a b : wrap w (wrap w a + b) = wrap w (a + b).
Proof. unfold wrap. by rewrite Zplus_mod_idemp_l. Qed.

(** A check that counts [dk] violations and [wk] warnings. *)
Definition counters_ok (st : gate_level_drv_stats) : Prop := in_width 64 (drvs st) ∧ in_width 64 (warnings st).
Definition reports (check : gate_level_drv_stats → option (gate_level_drv_stats * line)) (dk wk : Z) : Prop :=
  ∀ st, counters_ok st → ∃ st' ln, check st = Some (st', ln) ∧
    drvs st' = wrap 64 (drvs st + dk) ∧ warnings st' = wrap 64 (warnings st + wk).

Lemma loop_issues {A} (f : A → check_state → option check_state) k v :
  finds f k v → ∃ r, loop f v initial_check = Some (CheckState (total k v =? 0) r (total k v)).
Proof. intros Hf. destruct (loop_finds f k v initial_check Hf) as (r & ->). by exists r. Qed.

Lemma loop_drvs {A B} (vs : option A) (v : A) (w : A → list B) f k key msg :
  vs = Some v → finds f k (w v) →
  reports (λ st, v ← vs; s ← loop f (w v) initial_check; Some (add_drvs key msg s st)) (total k (w v)) 0.
Proof.
  intros -> Hf st [_ Hw]. cbn [mbind option_bind]. destruct (loop_issues f k (w v) Hf) as (r & ->).
  cbn [mbind option_bind]. eexists _, _. split; [done|]. split; [done|]. by rewrite Z.add_0_r, (wrap_small _ (warnings st)).
Qed.

Lemma loop_warnings {A B} (vs : option A) (v : A) (w : A → list B) f k key msg :
  vs = Some v → finds f k (w v) →
  reports (λ st, v ← vs; s ← loop f (w v) initial_check; Some (add_warnings key msg s st)) 0 (total k (w v)).
Proof.
  intros -> Hf st [Hd _]. cbn [mbind option_bind]. destruct (loop_issues f k (w v) Hf) as (r & ->).
  cbn [mbind option_bind]. eexists _, _. split; [done|]. split; [|done]. by rewrite Z.add_0_r, (wrap_small _ (drvs st)).
Qed.

(** The statistics after checks that count [d] violations and [w] warnings. *)
Definition counted (r : option (gate_level_drv_stats * list line)) (d w : Z) : Prop :=
  ∃ st out, r = Some (st, out) ∧ drvs st = wrap 64 d ∧ warnings st = wrap 64 w.

Lemma run_check_counted check dk wk r d w :
  reports check dk wk → counted (Some r) d w → counted (run_check true check r) (d + dk) (w + wk).
Proof.
  intros Hc (st & out & [= ->] & Hd & Hw).
  destruct (Hc st) as (st' & ln & E & Hd' & Hw'); [|].
  { unfold counters_ok. rewrite Hd, Hw. by split; apply wrap_width. }
  unfold run_check. cbn [fst snd]. rewrite E. cbn [mbind option_bind].
  exists st', (out ++ [ln]). rewrite Hd', Hd, Hw', Hw, !wrap_add_l. done.
Qed.

Lemma counted_bind r f d w d' w' :
  counted r d w → (∀ r', counted (Some r') d w → counted (f r') d' w') → counted (r ≫= f) d' w'.
Proof. intros (st & out & -> & Hd & Hw) Hf. simpl. apply Hf. by exists st, out. Qed.

Lemma counted_print ln r d w : counted (Some r) d w → counted (Some (print ln r)) d w.
Proof. intros (st & out & [= ->] & Hd & Hw). by exists st, (out ++ [ln]). Qed.

Lemma run_counted tiles ts ns ws pis pos :
  foreach_coordinate tiles base = Some ts →
  foreach_node l = Some ns → foreach_wire l = Some ws → foreach_pi l = Some pis → foreach_po l = Some pos →
  (∀ n, n ∈ ns → 0 <= n < Z.of_nat (length (nodes (strg l)))) →
  (∀ n, n ∈ pis ++ (get_node (strg l) <$> pos) → 0 <= n < Z.of_nat (length (nodes (strg l)))) →
  counted (gate_level_drvs l tiles default_params) (drv_count ns ws pis pos) (warning_count ns ts pis pos).
Proof.
  intros Ets Ens Ews Epi Epo Hns Hios. set (ios := pis ++ (get_node (strg l) <$> pos)) in *.
  assert (io_nodes l = Some ios) as Eio by (unfold io_nodes; by rewrite Epi, Epo).
  pose proof (loop_warnings _ ns id _ _ "Unplaced nodes" "all nodes are properly placed" Ens (check_unplaced_finds ns)) as C1.
  pose proof (loop_warnings _ ts id _ _ "Dead placed nodes" "all placed nodes are alive" Ets
    (check_placed_dead_finds ts)) as C2.
  pose proof (loop_drvs _ ns id _ _ "Non adjacent connections" "all tiles are adjacently connected" Ens
    (check_children_finds (is_adjacent_elevation_of base) adjacent_tiles ns ltac:(done) Hns)) as C3.
  pose proof (loop_drvs _ ns id _ _ "Missing connections" "all occupied tiles are properly connected" Ens
    (check_missing_finds ns)) as C4.
  pose proof (loop_drvs _ ws id _ _ "Wires crossing gates" "all wire crossings cross over other wires only" Ews
    (check_crossing_finds ws)) as C5.
  pose proof (loop_drvs _ ns id _ _ "Improperly clocked tiles" "all connected tiles are properly clocked" Ens
    (check_children_finds (λ t ct, Some (is_incoming_clocked (clocked l) t ct)) clocked_tiles ns ltac:(done) Hns)) as C6.
  assert (reports (has_io_check l) (io_issues pis pos) 0) as C7.
  { intros st [_ Hw]. unfold has_io_check. rewrite Epi, Epo. cbn [mbind option_bind]. eexists _, _.
    split; [done|]. split; [done|]. by rewrite Z.add_0_r, (wrap_small _ (warnings st)). }
  pose proof (loop_drvs _ ios id _ _ "Empty I/O ports" "all I/O ports are assigned to a non-empty tile" Eio
    (check_empty_io_finds ios)) as C8.
  pose proof (loop_warnings _ ios id _ _ "Gate I/O ports" "all I/O ports are realized by designated pins" Eio
    (check_io_pin_finds ios Hios)) as C9.
  pose proof (loop_warnings _ ios id _ _ "Border I/O ports" "all I/O ports are located at the layout's borders" Eio
    (check_border_io_finds ios)) as C10.
  cbn [id] in *. rewrite total_number in C1; rewrite total_number in C2; rewrite total_number in C4, C5, C8, C9, C10.
  unfold gate_level_drvs, DesignRules.run, default_params.
  cbn [unplaced_nodes placed_dead_nodes non_adjacent_connections missing_connections crossing_gates
       clocked_data_flow has_io empty_io io_pins border_io].
  eapply counted_bind.
  { apply run_check_counted; [exact C1|]. apply (counted_print _ (new_stats, []) 0 0). by exists new_stats, []. }
  intros r1 H1. eapply counted_bind; [by apply run_check_counted; [exact C2|exact H1]|].
  intros r2 H2. eapply counted_bind; [by apply run_check_counted; [exact C3|exact H2]|].
  intros r3 H3. eapply counted_bind; [by apply run_check_counted; [exact C4|exact H3]|].
  intros r4 H4. eapply counted_bind; [by apply run_check_counted; [exact C5|exact H4]|].
  intros r5 H5. eapply counted_bind; [by apply run_check_counted; [exact C6|apply counted_print, H5]|].
  intros r6 H6. eapply counted_bind; [by apply run_check_counted; [exact C7|apply counted_print, H6]|].
  intros r7 H7. eapply counted_bind; [by apply run_check_counted; [exact C8|exact H7]|].
  intros r8 H8. eapply counted_bind; [by apply run_check_counted; [exact C9|exact H8]|].
  intros r9 H9. eapply counted_bind; [by apply run_check_counted; [exact C10|exact H9]|].
  intros r (st & out & [= ->] & Hd & Hw). eexists _, _. split; [reflexivity|]. cbn [drvs warnings fst].
  rewrite Hd, Hw. unfold drv_count, warning_count, io_issues. fold ios. split; f_equal; lia.
Qed.

(** The run ends only where the loop over all tiles does. *)
Lemma run_visits tiles st out :
  gate_level_drvs l tiles default_params = Some (st, out) → ∃ ts, foreach_coordinate tiles base = Some ts.
Proof.
  unfold gate_level_drvs, DesignRules.run, default_params. cbn [unplaced_nodes placed_dead_nodes].
  destruct (run_check true (unplaced_nodes_check l) _) as [r|]; [|done]. cbn [mbind option_bind].
  unfold run_check at 9, placed_dead_nodes_check. destruct (foreach_coordinate tiles base) as [ts|]; [by eexists|done].
Qed.

(** *** A bound on the counts *)

Lemma alive_count ns :
  NoDup ns → (∀ n, n ∈ ns → 0 <= n < Z.of_nat (length (nodes (strg l)))) → Z.of_nat (length ns) < 2 ^ 32.
Proof.
  intros Hnd Hns. assert (length ns <= length (seqZ 0 (Z.of_nat (length (nodes (strg l))))))%nat as H.
  { apply submseteq_length, NoDup_submseteq; [done|]. intros n Hn. apply elem_of_seqZ. specialize (Hns n Hn). lia. }
  rewrite length_seqZ in H. lia.
Qed.

Lemma total_bad_children ok ns :
  Forall (λ d, Z.of_nat (length (children d)) < 2 ^ 30) (nodes (strg l)) → Z.of_nat (length ns) < 2 ^ 32 →
  0 <= total (bad_children ok) ns < 2 ^ 62.
Proof.
  intros Hd Hns. assert (∀ n, n ∈ ns → 0 <= bad_children ok n) as Hpos.
  { intros n _. unfold bad_children. destruct (is_constant n); [lia|apply number_nonneg]. }
  split; [by apply sum_nonneg|]. apply Z.le_lt_trans with (total (λ _ : Z, 2 ^ 30) ns).
  - apply total_le. intros n _. unfold bad_children, children_of. destruct (is_constant n); [lia|].
    etrans; [apply number_length|]. destruct (vec_at (nodes (strg l)) n) as [d|] eqn:E; simpl; [|lia].
    unfold vec_at in E. destruct (decide (0 <= n)); [|done]. rewrite Forall_lookup in Hd. specialize (Hd _ _ E). simpl in Hd. lia.
  - clear -Hns. assert (total (λ _ : Z, 2 ^ 30) ns = 2 ^ 30 * Z.of_nat (length ns)) as ->; [|lia].
    induction ns as [|n ns IH]; [done|]. simpl length. change (total _ (n :: ns)) with (2 ^ 30 + total (λ _ : Z, 2 ^ 30) ns).
    rewrite IH by (simpl in Hns; lia). lia.
Qed.
End Checks.

(** ** Adjacent tiles *)

Lemma adjacent_of_elem b t ct :
  representable b → Cartesian.is_adjacent_of b t ct = true → ct ∈ Cartesian.adjacent_coordinates b t.
Proof.
  unfold Cartesian.is_adjacent_of, Cartesian.is_north_of, Cartesian.is_east_of, Cartesian.is_south_of,
    Cartesian.is_west_of. rewrite !orb_true_iff, !andb_true_iff, !neqb_true, !eqb_spec, !bool_decide_eq_true.
  intros Hb Ht. apply Cartesian.elem_of_adjacent; [done|].
  destruct Ht as [[[[? <-]|[? <-]]|[? <-]]|[? <-]]; (split; [tauto|congruence]).
Qed.

(** A tile that is adjacent at some elevation lies on, above or below a neighbor. *)
Lemma adjacent_elevation_elem b t ct :
  representable b → inside (Cartesian.dimension b) t → Cartesian.is_adjacent_elevation_of b t ct = true →
  inside (Cartesian.dimension b) ct ∧ set_z ct (uz t) ∈ Cartesian.adjacent_coordinates b t.
Proof.
  intros Hb Ht Had. unfold Cartesian.is_adjacent_elevation_of in Had.
  assert (∃ t', inside (Cartesian.dimension b) t' ∧ set_z t' (uz t) = t ∧
    ct ∈ Cartesian.adjacent_coordinates b t') as (t' & Ht' & Hz & Hct).
  { assert (∀ k, set_z (set_z t k) (uz t) = t) as Hset.
    { intros k. destruct t as [td tz ty tx]. unfold set_z, inside in *. simpl in *.
      pose proof (proper_dimension_bounds _ Hb). f_equal. apply wrap_small. unfold in_width. simpl in *. lia. }
    rewrite !orb_true_iff in Had. destruct Had as [[Had|Had]|Had]; apply (adjacent_of_elem _ _ _ Hb) in Had;
      eexists; (split; [|split; [|exact Had]]).
    - done.
    - exact (Hset 0).
    - change (inside (CoordinateLayout.dimension b) (above b t)). rewrite above_spec by done.
      destruct (_ <? _) eqn:E; [|done]. apply Cartesian.inside_set_z; [done|done|].
      change (Cartesian.z b) with (uz (CoordinateLayout.dimension b)). destruct Ht. lia.
    - change (set_z (above b t) (uz t) = t). rewrite above_spec by done. destruct (_ <? _); [apply Hset|].
      exact (Hset 0).
    - change (inside (CoordinateLayout.dimension b) (below b t)). rewrite below_spec by done.
      destruct (_ =? _) eqn:E; [done|]. apply Cartesian.inside_set_z; [done|done|].
      change (Cartesian.z b) with (uz (Cartesian.dimension b)). destruct Ht. lia.
    - change (set_z (below b t) (uz t) = t). rewrite below_spec by done. destruct (_ =? _); [|apply Hset].
      exact (Hset 0). }
  split; [exact (proj1 (adjacent_inside b t' ct Hb Ht' Hct))|].
  pose proof (adjacent_lift b t' ct (uz t) Hb Ht') as Hlift. rewrite Hz in Hlift. exact (Hlift Ht Hct).
Qed.

(** ** Layouts without violations *)

Section Clean.
Context `{MT : Mockturtle} (l : gate_level_layout cartesian).
Context (Hl : layout_wf l) (Hsize : Z.of_nat (length (nodes (strg l))) < 2 ^ 32).
#[local] Notation base := (coordinate_layout (clocked l)).
Context (Hbase : representable base) (Hscheme : scheme_wf (clocking (clocked l))).
Context (Hlayers : layer_invariant (clocked l)).

(** With fewer than 2^30 children per node the counter does not wrap around. *)
Lemma clean_counts ns ws pis pos :
  Forall (λ d, Z.of_nat (length (children d)) < 2 ^ 30) (nodes (strg l)) →
  foreach_node l = Some ns → foreach_wire l = Some ws → foreach_pi l = Some pis → foreach_po l = Some pos →
  wrap 64 (drv_count l ns ws pis pos) = 0 →
  (∀ n, n ∈ ns → bad_children l (adjacent_tiles l) n = 0 ∧ bad_children l (clocked_tiles l) n = 0 ∧
                 missing l n = false) ∧
  (∀ w, w ∈ ws → crosses_gate l w = false) ∧ io_issues l pis pos = 0 ∧
  (∀ io, io ∈ pis ++ (get_node (strg l) <$> pos) → on_empty_tile l io = false).
Proof.
  intros Hch Ens Ews Epi Epo Hz.
  destruct (alive_nodes l Hl Hsize) as (ns' & Ens' & Hnd & Hns). destruct (wires_total l Hl Hsize) as (ws' & Ews' & Hwnd & Hws).
  destruct (io_total l Hl Hsize) as (pis' & pos' & Epi' & Epo' & Hpi & Hpo & _). simplify_eq.
  pose proof (alive_count l Hsize ns Hnd (λ n Hn, proj1 (proj1 (Hns n) Hn))) as Hk.
  assert (Z.of_nat (length ws) < 2 ^ 32) as Hw by (apply (alive_count l Hsize ws Hwnd); intros w Hw%Hws; lia).
  pose proof (total_bad_children l (adjacent_tiles l) ns Hch Hk) as B1.
  pose proof (total_bad_children l (clocked_tiles l) ns Hch Hk) as B2.
  pose proof (number_nonneg (missing l) ns) as N1. pose proof (number_length (missing l) ns) as L1.
  pose proof (number_nonneg (crosses_gate l) ws) as N2. pose proof (number_length (crosses_gate l) ws) as L2.
  set (ios := pis ++ (get_node (strg l) <$> pos)) in *.
  pose proof (number_nonneg (on_empty_tile l) ios) as N3. pose proof (number_length (on_empty_tile l) ios) as L3.
  assert (Z.of_nat (length ios) < 2 ^ 32) as Hios.
  { unfold ios. rewrite length_app, length_fmap. pose proof (lw_io _ Hl) as Hio. unfold num_cis, num_cos in Hio. lia. }
  assert (0 <= io_issues l pis pos <= 2) as N4 by (unfold io_issues; destruct (io_missing _ _), (io_missing _ _); simpl; lia).
  unfold drv_count in Hz. fold ios in Hz. rewrite wrap_small in Hz by (unfold in_width; lia).
  split_and!; [|by apply number_0; lia|lia|by apply number_0; lia].
  assert (∀ ok n, 0 <= bad_children l ok n) as Hb.
  { intros ok n. unfold bad_children. destruct (is_constant n); [lia|apply number_nonneg]. }
  intros n Hn. split_and!; [by apply (total_0 _ ns); [done|lia|]..|].
  apply (number_0 _ ns); [lia|done].
Qed.

(** The children of a node without violations are its incoming data flow. *)
Lemma clean_fanin n d :
  2 <= n → nodes (strg l) !! Z.to_nat n = Some d → inside (Cartesian.dimension base) (get_tile (strg l) n) →
  bad_children l (adjacent_tiles l) n = 0 → bad_children l (clocked_tiles l) n = 0 →
  ∃ v, incoming_data_flow l (get_tile (strg l) n) = Some v ∧ ∀ c, c ∈ children d → c ∈ to_uint64 <$> v.
Proof.
  intros Hn Hd Hb Ha Hc. pose proof (lw_storage _ Hl) as Hst. set (b := get_tile (strg l) n) in *.
  destruct (incoming_data_flow_spec l Hst Hbase Hscheme b Hb) as (v & Ev & _ & Hv). exists v. split; [done|].
  intros c Hcd. unfold bad_children, children_of in Ha, Hc. assert (is_constant n = false) as E by (unfold is_constant; lia).
  rewrite E in Ha, Hc. assert (vec_at (nodes (strg l)) n = Some d) as Ed by (unfold vec_at; by rewrite decide_True by lia).
  rewrite Ed in Ha, Hc. simpl in Ha, Hc. set (a := get_tile (strg l) (get_node (strg l) c)).
  pose proof (number_0 _ _ Ha c Hcd) as Had. pose proof (number_0 _ _ Hc c Hcd) as Hck.
  apply negb_false_iff in Had, Hck. fold b a in Had, Hck.
  apply adjacent_elevation_elem in Had as [Hin Hadj]; [|done|done].
  assert (node_tile_map (strg l) !! get_node (strg l) c = Some c) as Hac.
  { unfold get_node in *. destruct (tile_node_map (strg l) !! c) as [m|] eqn:Em; simpl in *; [by apply wf_inverse|].
    exfalso. destruct Hin as [Hdead _]. unfold a, get_tile in Hdead.
    destruct (node_tile_map (strg l) !! 0) as [t|] eqn:Et; simpl in Hdead; [|done].
    pose proof (wf_dead _ Hst _ _ Et) as Hd0. change (ud (of_uint64 t) = 0) in Hdead.
    unfold is_dead in Hd0. by rewrite Hdead in Hd0. }
  rewrite (get_tile_signal _ _ _ Hst Hac). fold a. apply list_elem_of_fmap. exists a. split; [done|].
  apply Hv; [done|]. split_and!; [|done|].
  - exists d. split; [|by unfold a; rewrite <-(get_tile_signal _ _ _ Hst Hac)].
    assert (get_node_at (strg l) b = n) as ->; [|done].
    apply get_node_tiles; [done|lia|]. rewrite tiles_lookup by done.
    assert (is_dead b = false) as Hlive by (unfold is_dead; by destruct Hb as [-> _]).
    apply placed_live in Hlive as [u Hu]; [|done..]. rewrite Hu. f_equal. by apply get_tile_signal.
  - unfold clocked_tiles in Hck. rewrite incoming_outgoing_dual in Hck.
    apply is_outgoing_clocked_spec in Hck as [_ Hck]; [|done]. by rewrite Hlayers.
Qed.
End Clean.

(** ** Properties *)

(** C14: a layout in which the checks find no violation has lost no connection, whatever its warnings:
    [foreach_fanin] of every node on a tile of the layout visits all children of the node, a node
    without incoming data flow is an input or a register output, wires cross only wires, and there
    are inputs and outputs. The count is exact where nodes have fewer than 2^30 children. *)
Theorem clean_layouts_connected `{Mockturtle} (l : gate_level_layout cartesian) (tiles : nat) st out :
  layout_wf l → Z.of_nat (length (nodes (strg l))) < 2 ^ 32 →
  inf_num_pos (sequential_inf l) + num_ris l <= num_cos l →
  representable (coordinate_layout (clocked l)) → scheme_wf (clocking (clocked l)) → layer_invariant (clocked l) →
  Forall (λ d, Z.of_nat (length (children d)) < 2 ^ 30) (nodes (strg l)) →
  gate_level_drvs l tiles default_params = Some (st, out) → drvs st = 0 →
  (∀ n d, 2 <= n → nodes (strg l) !! Z.to_nat n = Some d → is_dead_node (strg l) n = Some false →
     inside (Cartesian.dimension (coordinate_layout (clocked l))) (get_tile (strg l) n) →
     ∃ sigs, foreach_fanin l n = Some sigs ∧ (∀ c, c ∈ children d → c ∈ sigs) ∧
       (sigs = [] → is_pi_tile l (get_tile (strg l) n) = Some true ∨
                    is_ro_tile l (get_tile (strg l) n) = Some true)) ∧
  (∀ w, 2 <= w < Z.of_nat (length (nodes (strg l))) → is_wire (strg l) w = Some true →
     is_dead_node (strg l) w = Some false → 0 < uz (get_tile (strg l) w) →
     is_wire_tile l (Cartesian.below (coordinate_layout (clocked l)) (get_tile (strg l) w)) = Some true) ∧
  num_pis l ≠ 0 ∧ num_pos l ≠ 0.
Proof.
  intros Hl Hsize Hris Hbase Hs Hinv Hch Hrun Hz. destruct (alive_nodes l Hl Hsize) as (ns & Ens & _ & Hns).
  destruct (wires_total l Hl Hsize) as (ws & Ews & _ & Hws).
  destruct (io_total l Hl Hsize) as (pis & pos & Epi & Epo & _ & _ & Hio).
  destruct (run_visits l tiles st out Hrun) as [ts Ets].
  destruct (run_counted l Hl Hris tiles ts ns ws pis pos Ets Ens Ews Epi Epo (λ n Hn, proj1 (proj1 (Hns n) Hn)) Hio)
    as (st' & out' & E & Hd & _).
  rewrite Hrun in E. injection E as <- <-. rewrite Hz in Hd.
  destruct (clean_counts l Hl Hsize ns ws pis pos Hch Ens Ews Epi Epo (eq_sym Hd)) as (Hn & Hw & Hi & _). split_and!.
  - intros n d Hn2 En Halive Hin. pose proof (lookup_lt_Some _ _ _ En) as Hlt.
    destruct (Hn n) as (Ha & Hc & Hm); [by apply Hns; split; [lia|]|].
    destruct (clean_fanin l Hl Hbase Hs Hinv n d Hn2 En Hin Ha Hc) as (v & Ev & Hv).
    exists (to_uint64 <$> v). unfold foreach_fanin. rewrite (proj2 (Z.leb_gt n 1)) by lia. rewrite Ev.
    split_and!; [done|done|]. intros Hnil%fmap_nil_inv. unfold missing, no_source in Hm. rewrite Ev, Hnil in Hm.
    destruct (pi_tile_total l Hl (get_tile (strg l) n)) as [b1 E1], (ro_tile_total l Hl (get_tile (strg l) n)) as [b2 E2].
    rewrite E1, E2 in *. assert (is_constant n = false) as Ec by (unfold is_constant; lia). rewrite Ec in Hm.
    simpl in Hm. apply orb_false_iff in Hm as [_ Hm]. destruct b1, b2; first [by left|by right|done].
  - intros w Hr Hwire Halive Hz1. specialize (Hw w ltac:(by apply Hws)). unfold crosses_gate, Cartesian.is_crossing_layer in Hw.
    rewrite (proj2 (Z.ltb_lt _ _) Hz1) in Hw. simpl in Hw. apply negb_false_iff in Hw.
    unfold holds in Hw. destruct (is_wire_tile l _) as [[]|]; done.
  - intros E. unfold io_issues, io_missing in Hi. rewrite E, !orb_true_r in Hi. simpl in Hi. destruct (_ || _); simpl in Hi; lia.
  - intros E. unfold io_issues, io_missing in Hi. rewrite E, !orb_true_r in Hi. simpl in Hi. destruct (_ || _); simpl in Hi; lia.
Qed.

Lemma clean_layouts_connected_witness : ∃ st out,
  gate_level_drvs example 33 default_params = Some (st, out) ∧ drvs st = 0 ∧
  (∀ n d, 2 <= n → nodes (strg example) !! Z.to_nat n = Some d → is_dead_node (strg example) n = Some false →
     inside (Cartesian.dimension (coordinate_layout (clocked example))) (get_tile (strg example) n) →
     ∃ sigs, foreach_fanin example n = Some sigs ∧ (∀ c, c ∈ children d → c ∈ sigs) ∧
       (sigs = [] → is_pi_tile example (get_tile (strg example) n) = Some true ∨
                    is_ro_tile example (get_tile (strg example) n) = Some true)).
Proof.
  assert (clocked example = example_clocked) as Hc by apply example_spec.
  destruct (gate_level_drvs example 33 default_params) as [[st out]|] eqn:E; [|by vm_compute in E].
  assert (drvs st = 0) as Hz by (vm_compute in E; by injection E as <- _).
  exists st, out. split_and!; [done|done|].
  refine (proj1 (clean_layouts_connected example 33 st out example_wf _ _ _ _ _ _ E Hz));
    [by vm_compute..| | | |apply (bool_decide_unpack _); by vm_compute];
    rewrite Hc; [apply example_proper|apply example_scheme_wf|apply example_layer_invariant].
Defined.
