(* ===== verification/DesignRuleVerdict.v ===== *)
(** * The verdict of the design rule checks

    What it means for a Cartesian layout to have no design rule violation and to give no reason for a
    warning, in terms of positions, clock numbers and data flow, and that the run of
    [DesignRuleViolations.v] counts no violations, and no warnings, exactly for these layouts. *)

From S2P Require Import Prelude.
From S2P Require Import Coordinates.
From S2P Require Import CoordinateLayout.
From S2P Require Import CartesianLayout.
From S2P Require Import ClockingScheme.
From S2P Require Import ClockedLayout.
From S2P Require Import GateLevelLayout.
From S2P Require Import GateLevelInvariant.
From S2P Require Import GateLevelDataFlow.
From S2P Require Import MockturtleModel.
From S2P Require Import GateLevelProperties.
From S2P Require Import DesignRuleViolations.
From S2P Require Import DesignRuleProperties.
#[local] Open Scope Z_scope.
Import Offset Clocked GateLevel DesignRules.

Module Verdict.

Lemma number_all_0 {A} (p : A → bool) v : number p v = 0 ↔ ∀ a, a ∈ v → p a = false.
Proof.
  split; [apply number_0|]. induction v as [|a v IH]; intros Hp; [done|].
  rewrite number_of_cons, (Hp a), IH by (set_solver || (intros; apply Hp; by right)). done.
Qed.

Lemma total_all_0 {A} (k : A → Z) v :
  (∀ a, a ∈ v → 0 <= k a) → total k v = 0 ↔ ∀ a, a ∈ v → k a = 0.
Proof.
  intros Hk. split; [by apply total_0|]. clear Hk. induction v as [|a v IH]; intros Hz; [done|]. simpl.
  rewrite (Hz a), IH by (left || (intros; apply Hz; by right)). done.
Qed.

Section Verdict.
Context `{MT : Mockturtle} (l : gate_level_layout cartesian).
#[local] Notation base := (coordinate_layout (clocked l)).
#[local] Notation dim := (Cartesian.dimension base).

(** A node that is no constant and alive. *)
Definition gate (n : Z) : Prop :=
  2 <= n < Z.of_nat (length (nodes (strg l))) ∧ is_dead_node (strg l) n = Some false.

(** The tiles lie next to each other, in any layers. *)
Definition near (a b : ucoord_t) : Prop :=
  inside dim a ∧ Z.abs (ux a - ux b) + Z.abs (uy a - uy b) = 1.

(** The clock number of [b] follows that of [a]. *)
Definition clocked_next (a b : ucoord_t) : Prop :=
  (get_clock_number (clocked l) a + 1) mod num_clocks (clocked l) = get_clock_number (clocked l) b.

(** The node on [b] has the signal of [a] as a child, and gets it. *)
Definition flows (a b : ucoord_t) : Prop := has_child (strg l) b a ∧ near a b ∧ clocked_next a b.

(** The nodes of inputs and outputs. *)
Definition ports (io : Z) : Prop :=
  ∃ pis pos, foreach_pi l = Some pis ∧ foreach_po l = Some pos ∧ (io ∈ pis ∨ ∃ o, o ∈ pos ∧ io = get_node (strg l) o).

Record no_violation : Prop := {
  all_connected n d c : gate n → nodes (strg l) !! Z.to_nat n = Some d → c ∈ children d →
    let a := get_tile (strg l) (get_node (strg l) c) in
    near a (get_tile (strg l) n) ∧ clocked_next a (get_tile (strg l) n);
  all_driven n : gate n → let t := get_tile (strg l) n in
    (∃ a, inside dim a ∧ flows a t) ∨ is_pi_tile l t = Some true ∨ is_ro_tile l t = Some true;
  all_used n : gate n → let t := get_tile (strg l) n in
    (∃ b, inside dim b ∧ has_child (strg l) b t ∧ near b t ∧ clocked_next t b) ∨ is_po_tile l t = Some true ∨
    is_ri_tile l t = Some true ∨ is_ro_tile l (incr_x t) = Some true;
  all_crossings w : gate w → is_wire (strg l) w = Some true → let t := get_tile (strg l) w in
    0 < uz t → is_wire_tile l (set_z t (uz t - 1)) = Some true;
  some_io : num_pis l ≠ 0 ∧ num_pos l ≠ 0;
  io_placed io : ports io → io ≠ 0 ∧ is_Some (node_tile_map (strg l) !! io);
}.

Record no_warning : Prop := {
  all_placed n : gate n → is_Some (node_tile_map (strg l) !! n);
  none_dead n t : 2 <= n → is_dead_node (strg l) n = Some true → inside dim t →
    node_tile_map (strg l) !! n ≠ Some (to_uint64 t);
  all_pins io : ports io → ∃ d, nodes (strg l) !! Z.to_nat io = Some d ∧ literal d = 2;
  all_at_border io : ports io → let t := get_tile (strg l) io in
    ux t = 0 ∨ uy t = 0 ∨ ux t = ux dim ∨ uy t = uy dim;
}.

Context (Hl : layout_wf l) (Hsize : Z.of_nat (length (nodes (strg l))) < 2 ^ 32).
Context (Hris : inf_num_pos (sequential_inf l) + num_ris l <= num_cos l).

(** ** Connections *)

Section Connections.
Context (Hbase : representable base) (Hscheme : scheme_wf (clocking (clocked l))).
Context (Hlayers : layer_invariant (clocked l)).

Lemma adjacent_of_spec t ct :
  Cartesian.is_adjacent_of base t ct = true ↔ ct ∈ Cartesian.adjacent_coordinates base t.
Proof.
  split; [by apply adjacent_of_elem|]. intros [Hct Hne]%Cartesian.elem_of_adjacent; [|done].
  unfold Cartesian.is_adjacent_of, Cartesian.is_north_of, Cartesian.is_east_of, Cartesian.is_south_of,
    Cartesian.is_west_of. rewrite !orb_true_iff, !andb_true_iff, !neqb_true, !eqb_spec, !bool_decide_eq_true.
  destruct Hct as [->|[->|[->| ->]]]; naive_solver.
Qed.

Lemma adjacent_tiles_spec t ct :
  inside dim t → adjacent_tiles l t ct = true ↔ near ct t.
Proof.
  intros Ht. unfold adjacent_tiles. split.
  - intros (Hin & Hadj)%adjacent_elevation_elem; [|done|done]. split; [done|].
    apply Cartesian.elem_of_adjacent_inside in Hadj as (_ & _ & Hd); done.
  - intros [Hin Hd]. unfold Cartesian.is_adjacent_elevation_of. rewrite !orb_true_iff, !adjacent_of_spec.
    pose proof (proper_dimension_bounds _ Hbase). pose proof Ht as (_ & Hz & _). pose proof Hin as (_ & Hz' & _).
    rewrite (Cartesian.elem_of_adjacent_inside _ Hbase t) by done.
    destruct (decide (uz ct = uz t)) as [Ez|Ez]; [by left; left|].
    destruct (decide (uz ct = uz t + 1)) as [Eu|Eu].
    + left. right. rewrite Cartesian.above_eq, (proj2 (Z.ltb_lt _ _)) by (done || lia).
      rewrite Cartesian.elem_of_adjacent_inside; [|done|apply Cartesian.inside_set_z; [done|done|unfold Cartesian.z; lia]].
      split; [done|]. unfold set_z; cbn. rewrite wrap_small by (unfold in_width; lia). split; [lia|done].
    + right. assert (Cartesian.below base t = set_z t (uz t - 1)) as ->.
      { unfold Cartesian.below. by rewrite (proj2 (Z.eqb_neq _ _)) by lia. }
      rewrite Cartesian.elem_of_adjacent_inside; [|done|apply Cartesian.inside_set_z; [done|done|unfold Cartesian.z; lia]].
      split; [done|]. unfold set_z; cbn. rewrite wrap_small by (unfold in_width; lia). split; [lia|done].
Qed.

Lemma clocked_tiles_spec t ct : near ct t → clocked_tiles l t ct = true ↔ clocked_next ct t.
Proof.
  intros [_ Hd]. unfold clocked_tiles. rewrite incoming_outgoing_dual, is_outgoing_clocked_spec by done.
  unfold clocked_next. split; [tauto|]. intros Hc. split; [|done]. intros ->. lia.
Qed.

(** All children of a node are fine. *)
Lemma bad_children_spec n d :
  2 <= n → nodes (strg l) !! Z.to_nat n = Some d → inside dim (get_tile (strg l) n) →
  (bad_children l (adjacent_tiles l) n = 0 ∧ bad_children l (clocked_tiles l) n = 0) ↔
  ∀ c, c ∈ children d → let a := get_tile (strg l) (get_node (strg l) c) in
    near a (get_tile (strg l) n) ∧ clocked_next a (get_tile (strg l) n).
Proof.
  intros Hn Hd Ht.
  assert (∀ ok, bad_children l ok n = 0 ↔ ∀ c, c ∈ children d →
    ok (get_tile (strg l) n) (get_tile (strg l) (get_node (strg l) c)) = true) as Hb.
  { intros ok. unfold bad_children, children_of. assert (is_constant n = false) as -> by (unfold is_constant; lia).
    unfold vec_at. rewrite decide_True, Hd by lia. cbn [from_option]. rewrite number_all_0.
    by setoid_rewrite negb_false_iff. }
  rewrite !Hb. split.
  - intros [H1 H2] c Hc a. specialize (H1 c Hc). specialize (H2 c Hc). fold a in H1, H2.
    apply adjacent_tiles_spec in H1; [|done]. split; [done|]. by apply clocked_tiles_spec.
  - intros Hall. split; intros c Hc; destruct (Hall c Hc) as [H1 H2].
    + by apply adjacent_tiles_spec.
    + by apply clocked_tiles_spec.
Qed.

(** Tiles that signals reach, and that signals leave. *)
Lemma no_source_spec t :
  inside dim t → no_source l t = false ↔
  (∃ a, inside dim a ∧ flows a t) ∨ is_pi_tile l t = Some true ∨ is_ro_tile l t = Some true.
Proof.
  intros Ht. unfold no_source. destruct (pi_tile_total l Hl t) as [b1 ->], (ro_tile_total l Hl t) as [b2 ->].
  destruct (incoming_data_flow_spec l (lw_storage _ Hl) Hbase Hscheme t Ht) as (v & -> & Hins & Hv). simpl.
  assert (is_nil v = false ↔ ∃ a, inside dim a ∧ flows a t) as <-.
  { assert (∀ a, inside dim a → a ∈ v ↔ flows a t) as Hf.
    { intros a Ha. rewrite Hv by done. unfold flows, clocked_next, near. rewrite Hlayers.
      rewrite Cartesian.elem_of_adjacent_inside by done.
      pose proof (layer_inside_of _ _ _ Hbase Ha Ht) as Hz. pose proof (proper_dimension_bounds _ Hbase).
      assert (uz (set_z a (uz t)) = uz t) by (unfold set_z; cbn; apply wrap_small; unfold in_width; unfold inside in Ht; lia).
      naive_solver. }
    destruct v as [|a v]; simpl.
    - split; [done|]. intros (a & Ha & Hf'). apply Hf in Hf'; [|done]. by apply not_elem_of_nil in Hf'.
    - split; [|done]. intros _. apply Forall_cons in Hins as [Ha _]. exists a. split; [done|]. apply Hf; [done|by left]. }
  destruct (is_nil v), b1, b2; naive_solver.
Qed.

Lemma no_target_spec t :
  inside dim t → no_target l t = false ↔
  (∃ b, inside dim b ∧ has_child (strg l) b t ∧ near b t ∧ clocked_next t b) ∨ is_po_tile l t = Some true ∨
  is_ri_tile l t = Some true ∨ is_ro_tile l (incr_x t) = Some true.
Proof.
  intros Ht. unfold no_target. destruct (po_tile_total l Hl t) as [b1 ->], (ri_tile_total l Hl Hris t) as [b2 ->].
  destruct (ro_tile_total l Hl (incr_x t)) as [b3 ->].
  destruct (outgoing_data_flow_spec l (lw_storage _ Hl) Hbase Hscheme t Ht) as (v & -> & Hins & Hv). simpl.
  assert (is_nil v = false ↔ ∃ b, inside dim b ∧ has_child (strg l) b t ∧ near b t ∧ clocked_next t b) as <-.
  { assert (∀ b, inside dim b → b ∈ v ↔ has_child (strg l) b t ∧ near b t ∧ clocked_next t b) as Hf.
    { intros b Hb. rewrite Hv by done. unfold clocked_next, near. rewrite Hlayers.
      rewrite Cartesian.elem_of_adjacent_inside by done.
      pose proof (layer_inside_of _ _ _ Hbase Hb Ht) as Hz. pose proof (proper_dimension_bounds _ Hbase).
      assert (uz (set_z b (uz t)) = uz t) by (unfold set_z; cbn; apply wrap_small; unfold in_width; unfold inside in Ht; lia).
      naive_solver. }
    destruct v as [|b v]; simpl.
    - split; [done|]. intros (b & Hb & Hf'). apply Hf in Hf'; [|done]. by apply not_elem_of_nil in Hf'.
    - split; [|done]. intros _. apply Forall_cons in Hins as [Hb _]. exists b. split; [done|]. apply Hf; [done|by left]. }
  destruct (is_nil v), b1, b2, b3; naive_solver.
Qed.

(** ** Both verdicts *)

Lemma ports_spec pis pos io :
  foreach_pi l = Some pis → foreach_po l = Some pos → ports io ↔ io ∈ pis ++ (get_node (strg l) <$> pos).
Proof.
  intros Ei Eo. unfold ports. rewrite elem_of_app, list_elem_of_fmap. split.
  - intros (pis' & pos' & Ei' & Eo' & Hio). simplify_eq. naive_solver.
  - intros Hio. exists pis, pos. naive_solver.
Qed.

Lemma crosses_gate_spec w :
  crosses_gate l w = false ↔
  (0 < uz (get_tile (strg l) w) →
   is_wire_tile l (set_z (get_tile (strg l) w) (uz (get_tile (strg l) w) - 1)) = Some true).
Proof.
  unfold crosses_gate, Cartesian.is_crossing_layer. set (t := get_tile (strg l) w).
  destruct (Z.ltb_spec 0 (uz t)) as [Hz|Hz]; simpl; [|split; [lia|done]].
  assert (Cartesian.below base t = set_z t (uz t - 1)) as ->
    by (unfold Cartesian.below; by rewrite (proj2 (Z.eqb_neq _ _)) by lia).
  rewrite negb_false_iff. unfold is_wire_tile, is_wire, is_buf.
  destruct (literal_total l (get_node_at (strg l) (set_z t (uz t - 1))) 2) as [b ->]; [apply get_node_range, Hl|].
  simpl. split; [by intros ->|intros E; injection (E Hz); done].
Qed.

Lemma on_empty_tile_spec io :
  get_node_at (strg l) ucoord_default = 0 → 0 <= io →
  on_empty_tile l io = false ↔ io ≠ 0 ∧ is_Some (node_tile_map (strg l) !! io).
Proof.
  intros Hdef Hio. pose proof (lw_storage _ Hl) as Hst. unfold on_empty_tile, is_empty_tile. rewrite Z.eqb_neq.
  destruct (node_tile_map (strg l) !! io) as [t|] eqn:E.
  - assert (get_node_at (strg l) (get_tile (strg l) io) = io) as ->.
    { unfold get_node_at. rewrite <-(get_tile_signal _ _ _ Hst E). unfold get_node.
      by rewrite (proj2 (wf_inverse _ Hst t io) E). }
    split; [by eauto|tauto].
  - unfold get_tile. rewrite E, Hdef. split; [done|]. by intros [_ []].
Qed.

Lemma io_issues_spec pis pos :
  foreach_pi l = Some pis → foreach_po l = Some pos → io_issues l pis pos = 0 ↔ num_pis l ≠ 0 ∧ num_pos l ≠ 0.
Proof.
  unfold foreach_pi, foreach_po, io_issues, num_pis, num_pos. destruct (lw_pis _ Hl) as [H0 E].
  pose proof (lw_pos _ Hl) as E'. pose proof (lw_io _ Hl) as Hio. assert (0 <= num_ros l) by (unfold num_ros; lia).
  unfold num_cis, num_cos in *. rewrite !vec_range_prefix by lia. intros [= <-] [= <-].
  rewrite length_fmap, !length_take. unfold io_missing.
  rewrite !wrap_small by (unfold in_width; lia).
  rewrite !Nat.min_l, !Z2Nat.id, !Z.eqb_refl by lia. simpl.
  destruct (Z.eqb_spec (inf_num_pis (sequential_inf l)) 0), (Z.eqb_spec (inf_num_pos (sequential_inf l)) 0); simpl; lia.
Qed.

(** No violation is counted exactly if there is none. *)
Lemma drv_count_spec ns ws pis pos :
  Forall (λ d, Z.of_nat (length (children d)) < 2 ^ 30) (nodes (strg l)) →
  get_node_at (strg l) ucoord_default = 0 → (∀ n, gate n → inside dim (get_tile (strg l) n)) →
  foreach_node l = Some ns → foreach_wire l = Some ws → foreach_pi l = Some pis → foreach_po l = Some pos →
  wrap 64 (drv_count l ns ws pis pos) = 0 ↔ no_violation.
Proof.
  intros Hch Hdef Hplaced Ens Ews Epi Epo.
  destruct (alive_nodes l Hl Hsize) as (ns' & Ens' & _ & Hns). destruct (wires_total l Hl Hsize) as (ws' & Ews' & _ & Hws).
  destruct (io_total l Hl Hsize) as (pis' & pos' & Epi' & Epo' & _ & _ & Hio). simplify_eq.
  assert (∀ n, missing l n = false ↔ is_constant n = true ∨
    no_target l (get_tile (strg l) n) = false ∧ no_source l (get_tile (strg l) n) = false) as Hmissing.
  { intros n. unfold missing. destruct (is_constant n), (no_target _ _), (no_source _ _); naive_solver. }
  split.
  - intros Hz. destruct (clean_counts l Hl Hsize ns ws pis pos Hch Ens Ews Epi Epo Hz) as (Hn & Hw & Hi & He).
    assert (∀ n, gate n → bad_children l (adjacent_tiles l) n = 0 ∧ bad_children l (clocked_tiles l) n = 0 ∧
      no_target l (get_tile (strg l) n) = false ∧ no_source l (get_tile (strg l) n) = false) as Hg.
    { intros n Hgate. destruct (Hn n) as (H1 & H2 & H3); [apply Hns; unfold gate in Hgate; intuition lia|].
      apply Hmissing in H3 as [H3|H3]; [unfold is_constant, gate in *; lia|done]. }
    split.
    + intros n d c Hgate Hd Hc. destruct (Hg n Hgate) as (H1 & H2 & _). revert c Hc.
      apply bad_children_spec; [by apply Hgate|done|by apply Hplaced|done].
    + intros n Hgate t. apply no_source_spec; [by apply Hplaced|by apply Hg].
    + intros n Hgate t. apply no_target_spec; [by apply Hplaced|by apply Hg].
    + intros w Hgate Hwire. apply crosses_gate_spec, Hw, Hws. destruct Hgate. done.
    + by apply (io_issues_spec pis pos).
    + intros io Hp. apply (ports_spec pis pos) in Hp; [|done..]. apply on_empty_tile_spec; [done|by apply Hio|by apply He].
  - intros [Hc Hd Hu Hx Hs Hp]. enough (drv_count l ns ws pis pos = 0) as -> by done. unfold drv_count.
    assert (∀ ok, ∀ n, n ∈ ns → 0 <= bad_children l ok n) as Hpos.
    { intros ok n _. unfold bad_children. destruct (is_constant n); [lia|apply number_nonneg]. }
    assert (∀ n, n ∈ ns → is_constant n = true ∨ gate n) as Hcase.
    { intros n Hn. apply Hns in Hn as [Hr Ha]. destruct (decide (2 <= n)) as [H2|H2]; [right; by split; [lia|]|left].
      unfold is_constant. lia. }
    assert (∀ n, n ∈ ns → bad_children l (adjacent_tiles l) n = 0 ∧ bad_children l (clocked_tiles l) n = 0) as Hb.
    { intros n Hn. destruct (Hcase n Hn) as [Hcst|Hgate]; [unfold bad_children; by rewrite Hcst|].
      destruct (node_total l n) as [d Hdn]; [destruct Hgate; lia|]. unfold vec_at in Hdn. case_decide; [|done].
      apply (bad_children_spec n d); [by apply Hgate|done|by apply Hplaced|]. intros c Hcd. by apply (Hc n d). }
    rewrite (proj2 (total_all_0 _ ns (Hpos (adjacent_tiles l))) (λ n Hn, proj1 (Hb n Hn))).
    rewrite (proj2 (total_all_0 _ ns (Hpos (clocked_tiles l))) (λ n Hn, proj2 (Hb n Hn))).
    rewrite (proj2 (io_issues_spec pis pos Epi Epo) Hs).
    rewrite !(proj2 (number_all_0 _ _)); [done| | |].
    + intros io Hin. apply on_empty_tile_spec; [done|by apply Hio|]. apply Hp. by apply (ports_spec pis pos).
    + intros w (Hr & Hwire & Ha)%Hws. apply crosses_gate_spec. by apply Hx.
    + intros n Hn. apply Hmissing. destruct (Hcase n Hn) as [Hcst|Hgate]; [by left|right]. split.
      * apply no_target_spec; [by apply Hplaced|by apply Hu].
      * apply no_source_spec; [by apply Hplaced|by apply Hd].
Qed.
End Connections.

Lemma warning_count_spec ts ns pis pos :
  representable base → ts = nested_loops dim → 
  foreach_node l = Some ns → foreach_pi l = Some pis → foreach_po l = Some pos →
  wrap 64 (warning_count l ns ts pis pos) = 0 ↔ no_warning.
Proof.
  intros Hbase -> Ens Epi Epo. pose proof (lw_storage _ Hl) as Hst.
  destruct (alive_nodes l Hl Hsize) as (ns' & Ens' & Hnd & Hns).
  destruct (io_total l Hl Hsize) as (pis' & pos' & Epi' & Epo' & Hli & Hlo & Hio). simplify_eq.
  unfold warning_count. set (ios := pis ++ (get_node (strg l) <$> pos)) in *.
  pose proof (number_nonneg (unplaced l) ns) as N1. pose proof (number_length (unplaced l) ns) as L1.
  pose proof (number_nonneg (dead_placed l) (nested_loops dim)) as N2.
  pose proof (number_length (dead_placed l) (nested_loops dim)) as L2.
  pose proof (number_nonneg (not_pin l) ios) as N3. pose proof (number_length (not_pin l) ios) as L3.
  pose proof (number_nonneg (off_border l) ios) as N4. pose proof (number_length (off_border l) ios) as L4.
  pose proof (alive_count l Hsize ns Hnd (λ n Hn, proj1 (proj1 (Hns n) Hn))) as Hk.
  assert (Z.of_nat (length ios) < 2 ^ 32) as Hios.
  { unfold ios. rewrite length_app, length_fmap. pose proof (lw_io _ Hl) as H. unfold num_cis, num_cos in H. lia. }
  pose proof (proj1 Hbase) as Hwf. pose proof (volume_nested_loops _ Hwf) as Hvol.
  destruct (size_exact _ Hwf) as (_ & _ & _ & Hv).
  rewrite wrap_small by (unfold in_width; lia).
  assert (number (unplaced l) ns = 0 ↔ ∀ n, gate n → is_Some (node_tile_map (strg l) !! n)) as H1.
  { rewrite number_all_0. split.
    - intros Hu n [Hr Ha]. apply placed_live; [done|lia|]. specialize (Hu n ltac:(apply Hns; split; [lia|done])).
      unfold unplaced in Hu. assert (is_constant n = false) as E by (unfold is_constant; lia). by rewrite E in Hu.
    - intros Hp n [Hr Ha]%Hns. unfold unplaced, is_constant. destruct (Z.leb_spec n 1); [done|]. simpl.
      apply placed_live; [done|lia|]. apply Hp. by split; [lia|]. }
  assert (number (dead_placed l) (nested_loops dim) = 0 ↔
    ∀ n t, 2 <= n → is_dead_node (strg l) n = Some true → inside dim t → node_tile_map (strg l) !! n ≠ Some (to_uint64 t)) as H2.
  { rewrite number_all_0. setoid_rewrite (elem_of_nested_loops dim _ Hwf). unfold dead_placed, is_empty_tile. split.
    - intros Hd n t Hn Hdead Ht E. specialize (Hd t Ht). apply wf_inverse in E; [|done].
      unfold get_node_at, get_node in Hd. rewrite E in Hd. cbn in Hd. rewrite Hdead, (proj2 (Z.eqb_neq n 0)) in Hd by lia. done.
    - intros Hd t Ht. destruct (Z.eqb_spec (get_node_at (strg l) t) 0) as [E0|E0]; [done|]. simpl.
      destruct (is_dead_node (strg l) (get_node_at (strg l) t)) as [[]|] eqn:Ed; [|done..]. exfalso.
      unfold get_node_at, get_node in *. destruct (tile_node_map (strg l) !! to_uint64 t) as [n|] eqn:E; [|done].
      cbn in *. apply wf_inverse in E; [|done]. pose proof (wf_dead _ Hst _ _ E) as Hlive.
      rewrite of_to_uint64 in Hlive by (by eapply inside_coordinate_wf). unfold is_dead in Hlive.
      rewrite (proj1 Ht) in Hlive. apply (Hd n t); [|done..]. symmetry in Hlive. apply Z.leb_gt in Hlive. lia. }
  assert (number (not_pin l) ios = 0 ↔ ∀ io, ports io → ∃ d, nodes (strg l) !! Z.to_nat io = Some d ∧ literal d = 2) as H3.
  { rewrite number_all_0. setoid_rewrite (ports_spec pis pos _ Epi Epo). fold ios.
    assert (∀ io, io ∈ ios → not_pin l io = false ↔ ∃ d, nodes (strg l) !! Z.to_nat io = Some d ∧ literal d = 2) as Hpin.
    { intros io Hin. specialize (Hio io Hin). unfold not_pin, is_buf, has_literal, vec_at. rewrite decide_True by lia.
      destruct (nodes (strg l) !! Z.to_nat io) as [d|]; simpl; [|naive_solver].
      rewrite negb_false_iff, Z.eqb_eq. naive_solver. }
    split; intros Hp io Hin; by apply Hpin, Hp. }
  assert (number (off_border l) ios = 0 ↔ ∀ io, ports io → let t := get_tile (strg l) io in
    ux t = 0 ∨ uy t = 0 ∨ ux t = ux dim ∨ uy t = uy dim) as H4.
  { rewrite number_all_0. setoid_rewrite (ports_spec pis pos _ Epi Epo). fold ios. unfold off_border, Cartesian.is_at_any_border,
      Cartesian.is_at_northern_border, Cartesian.is_at_eastern_border, Cartesian.is_at_southern_border,
      Cartesian.is_at_western_border, Cartesian.x, Cartesian.y. cbn zeta.
    setoid_rewrite negb_false_iff. setoid_rewrite orb_true_iff. setoid_rewrite orb_true_iff. setoid_rewrite orb_true_iff.
    setoid_rewrite Z.eqb_eq. split; intros Hp io Hin; specialize (Hp io Hin); tauto. }
  split.
  - intros Hz. split; [apply H1; lia|apply H2; lia|apply H3; lia|apply H4; lia].
  - intros [P1 P2 P3 P4]. apply H1 in P1. apply H2 in P2. apply H3 in P3. apply H4 in P4. lia.
Qed.
End Verdict.



End Verdict.
