(* ===== verification/EquivalenceChecking.v ===== *)
(** * Equivalence checking
      (include/fiction/algorithms/verification/equivalence_checking.hpp)

    The check of a specification against an implementation, which are logic networks or gate-level
    layouts: class [Design] is what the template finds out about its arguments, with instances for
    layouts ([layout_design]) and networks. The miter and the SAT check belong to mockturtle: class
    [Verifier] has their functions, [VerifierLaws] what their documentation promises. The theorems
    characterize the answer; [agreeing_throughputs_are_strong] shows where it differs from its
    description. *)

From S2P Require Import Prelude.
From S2P Require Import Coordinates.
From S2P Require Import CoordinateLayout.
From S2P Require Import CartesianLayout.
From S2P Require Import ClockedLayout.
From S2P Require Import GateLevelLayout.
From S2P Require Import GateLevelInvariant.
From S2P Require Import MockturtleModel.
From S2P Require Import GateLevelProperties.
From S2P Require Import CriticalPath.
From S2P Require Import DesignRuleViolations.
From S2P Require Import DesignRuleProperties.
#[local] Open Scope Z_scope.
Import Offset GateLevel.

(** [if constexpr (is_gate_level_layout_v<D>)], the statistics of the design rule checks and the
    throughput; [None] where the computation does not end. *)
Class Design (D : Type) := {
  is_gate_level_layout : bool;
  design_drvs : D → option DesignRules.gate_level_drv_stats;
  design_throughput : D → option Z;
}.

(** [mockturtle::miter], [None] when the interfaces differ, and [mockturtle::equivalence_checking] on
    the miter with the counter example in its statistics; [None] when the limit is exceeded. *)
Class Verifier (Spec Impl Miter : Type) := {
  miter : Spec → Impl → option Miter;
  check_miter : Miter → option bool * list bool;
}.

(** The numbers of inputs and outputs of a design, and the function from values of the inputs to values
    of the outputs that it computes. *)
Class Function (D : Type) := {
  inputs_of : D → nat;
  outputs_of : D → nat;
  evaluate : D → list bool → list bool;
}.

Class VerifierLaws (Spec Impl Miter : Type) `{Verifier Spec Impl Miter} `{Function Spec} `{Function Impl} := {
  miter_interface s i :
    is_Some (miter s i) ↔ inputs_of s = inputs_of i ∧ outputs_of s = outputs_of i;
  check_miter_equivalent s i m cex :
    miter s i = Some m → check_miter m = (Some true, cex) →
    ∀ a, length a = inputs_of s → evaluate s a = evaluate i a;
  check_miter_different s i m cex :
    miter s i = Some m → check_miter m = (Some false, cex) →
    length cex = inputs_of s ∧ evaluate s cex ≠ evaluate i cex;
}.

Module EquivalenceChecking.

Inductive eq_type := NO | WEAK | STRONG.

#[export] Instance eq_type_dec : EqDecision eq_type.
Proof. solve_decision. Defined.

(** [equivalence_checking_stats] without the runtime. *)
Record equivalence_checking_stats := Stats {
  eq : eq_type;
  tp_spec : Z;
  tp_impl : Z;
  tp_diff : Z;
  counter_example : list bool;
  spec_drv_stats : DesignRules.gate_level_drv_stats;
  impl_drv_stats : DesignRules.gate_level_drv_stats;
}.

Definition new_stats : equivalence_checking_stats :=
  Stats NO 1 1 0 [] DesignRules.new_stats DesignRules.new_stats.

(** What is printed. *)
Inductive message :=
| ResourceLimitExceeded
| DifferentInterfaces.

(** [static_cast<int64_t>(v)] of a [uint64_t]. *)
Definition to_int64 (v : Z) : Z := if v <? 2 ^ 63 then v else v - 2 ^ 64.

(** [std::abs(a - b)]; a result beyond the type is undefined. *)
Definition abs_diff (a b : Z) : option Z :=
  if decide (- 2 ^ 63 < a - b < 2 ^ 63) then Some (Z.abs (a - b)) else None.

Section Checking.
Context {Spec Impl Miter : Type} `{DS : Design Spec} `{DI : Design Impl} `{V : !Verifier Spec Impl Miter}.

Definition set_drv_stats (a b : DesignRules.gate_level_drv_stats) (st : equivalence_checking_stats) :=
  Stats (eq st) (tp_spec st) (tp_impl st) (tp_diff st) (counter_example st) a b.

(** [has_drvs] on a layout, with the statistics that it fills; nothing for a network. *)
Definition has_drvs {D} `{Design D} (d : D) (st : DesignRules.gate_level_drv_stats) :
    option (bool * DesignRules.gate_level_drv_stats) :=
  if is_gate_level_layout (D := D) then
    st ← design_drvs d; Some (negb (DesignRules.drvs st =? 0), st)
  else Some (false, st).

(** The throughput of a layout, converted; the initial value for a network. *)
Definition throughput_of {D} `{Design D} (d : D) (tp : Z) : option Z :=
  if is_gate_level_layout (D := D) then to_int64 <$> design_throughput d else Some tp.

(** The branch for equivalent designs. *)
Definition compare_throughput (s : Spec) (i : Impl) (st : equivalence_checking_stats) :
    option equivalence_checking_stats :=
  ts ← throughput_of s (tp_spec st);
  ti ← throughput_of i (tp_impl st);
  d ← abs_diff ts ti;
  Some (Stats (if negb (d =? 0) then WEAK else STRONG) ts ti d (counter_example st)
          (spec_drv_stats st) (impl_drv_stats st)).

Definition run (s : Spec) (i : Impl) : option (equivalence_checking_stats * option message) :=
  let st := new_stats in
  '(bad, ds) ← has_drvs s (spec_drv_stats st);
  let st := set_drv_stats ds (impl_drv_stats st) st in
  if (bad : bool) then Some (st, None)
  else
    '(bad, di) ← has_drvs i (impl_drv_stats st);
    let st := set_drv_stats (spec_drv_stats st) di st in
    if (bad : bool) then Some (st, None)
    else
      match miter s i with
      | None => Some (st, Some DifferentInterfaces)
      | Some m =>
          match check_miter m with
          | (None, _) => Some (st, Some ResourceLimitExceeded)
          | (Some true, _) => (λ st, (st, None)) <$> compare_throughput s i st
          | (Some false, cex) =>
              Some (Stats NO (tp_spec st) (tp_impl st) (tp_diff st) cex
                      (spec_drv_stats st) (impl_drv_stats st), None)
          end
      end.

Definition equivalence_checking (s : Spec) (i : Impl) : option (equivalence_checking_stats * option message) :=
  run s i.
End Checking.
End EquivalenceChecking.
Import EquivalenceChecking.

(** ** Designs *)

(** A layout with bounds on the steps of the loop over its tiles and on the nesting of the calls that
    compute its critical path. *)
Record layout_design (L : Type) := LayoutDesign {
  design_layout : gate_level_layout L;
  design_tiles : nat;
  design_depth : nat;
}.
Arguments LayoutDesign {_} _ _ _.
Arguments design_layout {_} _.
Arguments design_tiles {_} _.
Arguments design_depth {_} _.

#[export] Instance layout_is_design `{Mockturtle} `{CheckedLayout L} `{CriticalPath.PathSort} :
    Design (layout_design L) := {
  is_gate_level_layout := true;
  design_drvs d :=
    fst <$> DesignRules.gate_level_drvs (design_layout d) (design_tiles d) DesignRules.default_params;
  design_throughput d :=
    CriticalPath.throughput <$> CriticalPath.critical_path_length_and_throughput (design_depth d) (design_layout d);
}.

(** Logic networks are neither checked nor timed. *)
Record network_design (N : Type) := NetworkDesign { network : N }.
Arguments NetworkDesign {_} _.
Arguments network {_} _.

#[export] Instance network_is_design N : Design (network_design N) := {
  is_gate_level_layout := false;
  design_drvs _ := None;
  design_throughput _ := None;
}.

(** ** A verifier that tries all valuations *)

Fixpoint valuations (n : nat) : list (list bool) :=
  match n with
  | O => [[]]
  | S n' => a ← valuations n'; [false :: a; true :: a]
  end.

Lemma elem_of_valuations n a : a ∈ valuations n ↔ length a = n.
Proof.
  revert a. induction n as [|n IH]; intros a; simpl.
  - rewrite list_elem_of_singleton. destruct a; naive_solver.
  - rewrite list_elem_of_bind. split.
    + intros (b & Hb & Ha). apply IH in Ha. repeat (apply elem_of_cons in Hb as [->|Hb]; [simpl; by rewrite Ha|]).
      by apply not_elem_of_nil in Hb.
    + destruct a as [|[] a]; intros Ha; [done|..]; exists a; rewrite IH; (split; [|by injection Ha]);
        rewrite !elem_of_cons; auto.
Qed.

Section Exhaustive.
Context {Spec Impl : Type} `{FS : Function Spec} `{FI : Function Impl}.

Definition differs (s : Spec) (i : Impl) (a : list bool) : Prop := evaluate s a ≠ evaluate i a.

#[export] Instance exhaustive_verifier : Verifier Spec Impl (Spec * Impl) := {
  miter s i := if decide (inputs_of s = inputs_of i ∧ outputs_of s = outputs_of i) then Some (s, i) else None;
  check_miter m :=
    match filter (differs m.1 m.2) (valuations (inputs_of m.1)) with
    | [] => (Some true, [])
    | a :: _ => (Some false, a)
    end;
}.

#[export] Instance exhaustive_verifier_laws : VerifierLaws Spec Impl (Spec * Impl).
Proof.
  split; unfold miter, check_miter, exhaustive_verifier.
  - intros s i. case_decide; split; [done|by eexists|by intros []|done].
  - intros s i m cex. case_decide; [|done]. intros [= <-] E a Ha. cbn [fst snd] in E.
    destruct (filter _ _) as [|b v] eqn:Ef; [|done]. destruct (decide (differs s i a)) as [Hd|Hd].
    + assert (a ∈ filter (differs s i) (valuations (inputs_of s))) as Hin
        by (apply list_elem_of_filter; split; [done|by apply elem_of_valuations]).
      rewrite Ef in Hin. by apply not_elem_of_nil in Hin.
    + unfold differs in Hd. by destruct (decide (evaluate s a = evaluate i a)).
  - intros s i m cex. case_decide; [|done]. intros [= <-] E. cbn [fst snd] in E.
    destruct (filter _ _) as [|b v] eqn:Ef; [done|]. injection E as ->.
    assert (cex ∈ filter (differs s i) (valuations (inputs_of s))) as Hin by (rewrite Ef; left).
    apply list_elem_of_filter in Hin as [Hd Hin]. split; [by apply elem_of_valuations|done].
Qed.
End Exhaustive.

(** ** The answer *)

Section Answer.
Context {Spec Impl Miter : Type} `{DS : Design Spec} `{DI : Design Impl}.
Context `{V : !Verifier Spec Impl Miter} `{FS : Function Spec} `{FI : Function Impl} `{VL : !VerifierLaws Spec Impl Miter}.

(** The computations on a layout end, with a throughput whose differences are representable. *)
Definition ready {D} `{Design D} (d : D) : Prop :=
  is_gate_level_layout (D := D) = true →
  is_Some (design_drvs d) ∧ ∃ tp, design_throughput d = Some tp ∧ 0 <= tp < 2 ^ 62.

(** No design rule is violated. *)
Definition clean {D} `{Design D} (d : D) : Prop :=
  is_gate_level_layout (D := D) = true → ∃ st, design_drvs d = Some st ∧ DesignRules.drvs st = 0.

(** The x of the throughput 1/x; a network has 1/1. *)
Definition period {D} `{Design D} (d : D) : Z :=
  if is_gate_level_layout (D := D) then default 1 (design_throughput d) else 1.

(** The described type of designs that are logically equivalent: strong if all involved layouts have the
    throughput 1/1, weak if one of them has the throughput 1/x with x > 1. *)
Definition described_type (s : Spec) (i : Impl) : eq_type :=
  if decide (period s = 1 ∧ period i = 1) then STRONG else WEAK.

(** Both have the same throughput, but not 1/1. *)
Definition agreeing_but_slow (s : Spec) (i : Impl) : Prop := period s = period i ∧ period s ≠ 1.

Lemma has_drvs_ready {D} `{Design D} (d : D) st :
  ready d → ∃ b st', has_drvs d st = Some (b, st') ∧ (b = false ↔ clean d).
Proof.
  unfold ready, has_drvs, clean. destruct is_gate_level_layout eqn:E.
  - intros Hr. destruct (Hr eq_refl) as [[st' ->] _]. simpl. eexists _, _. split; [done|].
    rewrite negb_false_iff, Z.eqb_eq. split; [intros Hz _; by exists st'|].
    intros Hc. by destruct (Hc eq_refl) as (? & [= ->] & ?).
  - intros _. eexists false, _. by split.
Qed.

Lemma throughput_ready {D} `{Design D} (d : D) :
  ready d → throughput_of d 1 = Some (period d) ∧ 0 <= period d < 2 ^ 62.
Proof.
  unfold ready, throughput_of, period. destruct is_gate_level_layout eqn:E; [|done].
  intros Hr. destruct (Hr eq_refl) as [_ (tp & -> & Htp)]. simpl. unfold to_int64. split; [|done].
  by rewrite (proj2 (Z.ltb_lt tp (2 ^ 63))) by lia.
Qed.

Lemma compare_throughput_ready (s : Spec) (i : Impl) st :
  ready s → ready i → tp_spec st = 1 → tp_impl st = 1 →
  compare_throughput s i st =
    Some (Stats (if decide (period s = period i) then STRONG else WEAK) (period s) (period i)
            (Z.abs (period s - period i)) (counter_example st) (spec_drv_stats st) (impl_drv_stats st)).
Proof.
  intros [Es ?]%throughput_ready [Ei ?]%throughput_ready Hts Hti. unfold compare_throughput.
  rewrite Hts, Hti, Es, Ei. simpl. unfold abs_diff. rewrite decide_True by lia. simpl. do 2 f_equal.
  destruct (decide (period s = period i)); destruct (Z.eqb_spec (Z.abs (period s - period i)) 0); done || lia.
Qed.
End Answer.

(** C16: the check of designs whose own checks end always ends. It answers NO unless no design has design
    rule violations and the SAT check finds them equivalent, and then they have the same interface and
    the same function. The type of the equivalence is the described one, strong for throughputs of 1/1
    and weak otherwise, with one exception: designs that agree in a throughput of 1/x with x > 1 are
    called strongly equivalent. A counter example is a valuation of the inputs on which the outputs
    differ; and of designs without violations, those whose interfaces differ are reported. *)
Theorem equivalence_checking_correct {Spec Impl Miter : Type} `{DS : Design Spec} `{DI : Design Impl}
    `{V : !Verifier Spec Impl Miter} `{FS : Function Spec} `{FI : Function Impl} `{VL : !VerifierLaws Spec Impl Miter}
    (s : Spec) (i : Impl) :
  ready s → ready i →
  ∃ st msg, equivalence_checking s i = Some (st, msg) ∧
    (eq st ≠ NO ↔ clean s ∧ clean i ∧ ∃ m, miter s i = Some m ∧ fst (check_miter m) = Some true) ∧
    (eq st ≠ NO → inputs_of s = inputs_of i ∧ outputs_of s = outputs_of i ∧
       ∀ a, length a = inputs_of s → evaluate s a = evaluate i a) ∧
    (eq st ≠ NO → ¬ agreeing_but_slow s i → eq st = described_type s i) ∧
    (eq st ≠ NO → agreeing_but_slow s i → eq st = STRONG ∧ described_type s i = WEAK) ∧
    (counter_example st ≠ [] → eq st = NO ∧ evaluate s (counter_example st) ≠ evaluate i (counter_example st)) ∧
    (msg = Some DifferentInterfaces ↔
       clean s ∧ clean i ∧ ¬ (inputs_of s = inputs_of i ∧ outputs_of s = outputs_of i)).
Proof.
  intros Hs Hi. unfold equivalence_checking, run.
  destruct (has_drvs_ready s (spec_drv_stats new_stats) Hs) as (bs & ds & -> & Hbs). cbn [mbind option_bind].
  destruct bs. { eexists _, _. split; [done|]. naive_solver. }
  destruct (has_drvs_ready i (impl_drv_stats (set_drv_stats ds (impl_drv_stats new_stats) new_stats)) Hi)
    as (bi & di & -> & Hbi). cbn [mbind option_bind].
  destruct bi. { eexists _, _. split; [done|]. naive_solver. }
  assert (clean s ∧ clean i) as [Hcs Hci] by (split; [by apply Hbs|by apply Hbi]). clear Hbs Hbi.
  pose proof (miter_interface s i) as Hm. destruct (miter s i) as [m|] eqn:Em.
  2:{ eexists _, _. split; [done|]. cbn. split_and!; naive_solver. }
  assert (inputs_of s = inputs_of i ∧ outputs_of s = outputs_of i) as Hio by (apply Hm; by eexists).
  destruct (check_miter m) as [[[]|] cex] eqn:Ec.
  - rewrite compare_throughput_ready by done. eexists _, _. split; [done|]. cbn [eq counter_example].
    pose proof (check_miter_equivalent s i m cex Em Ec) as He.
    assert (∃ m', Some m = Some m' ∧ (check_miter m').1 = Some true) as Hsat by (exists m; by rewrite Ec).
    cbn. unfold agreeing_but_slow, described_type. split_and!; [|naive_solver| | |done|naive_solver].
    + by destruct (decide _).
    + intros _ Hslow. destruct (decide (period s = period i)), (decide (period s = 1 ∧ period i = 1)); done || lia.
    + intros _ [Hp Hs1]. rewrite decide_True by done. split; [done|]. by rewrite decide_False by tauto.
  - pose proof (check_miter_different s i m cex Em Ec) as [_ Hd].
    assert (¬ ∃ m', Some m = Some m' ∧ (check_miter m').1 = Some true) as Hsat by (intros (? & [= <-] & E); by rewrite Ec in E).
    eexists _, _. split; [done|]. cbn. split_and!; naive_solver.
  - assert (¬ ∃ m', Some m = Some m' ∧ (check_miter m').1 = Some true) as Hsat by (intros (? & [= <-] & E); by rewrite Ec in E).
    eexists _, _. split; [done|]. cbn. split_and!; naive_solver.
Qed.

(** *** Witnesses *)

Import PathSortModel.

(** Layouts with the functions that they realize. *)
Record labeled_layout := LabeledLayout {
  labeled_design : layout_design Cartesian.cartesian_layout;
  realized : list bool → list bool;
}.

#[export] Instance labeled_is_design : Design labeled_layout := {
  is_gate_level_layout := true;
  design_drvs d := design_drvs (labeled_design d);
  design_throughput d := design_throughput (labeled_design d);
}.

#[export] Instance labeled_function : Function labeled_layout := {
  inputs_of d := Z.to_nat (num_pis (design_layout (labeled_design d)));
  outputs_of d := Z.to_nat (num_pos (design_layout (labeled_design d)));
  evaluate d := realized d;
}.

(** A network of one input, which is the output. *)
#[export] Instance buffer_function : Function (network_design unit) := {
  inputs_of _ := 1%nat;
  outputs_of _ := 1%nat;
  evaluate _ a := a;
}.

Definition wire_layout : labeled_layout := LabeledLayout (LayoutDesign example 33 7) id.
Definition and_layout : labeled_layout :=
  LabeledLayout (LayoutDesign unbalanced 33 7) (λ a, [forallb id a]).

Definition buffer_network : network_design unit := NetworkDesign ().

Lemma equivalence_checking_correct_witness :
  ∃ st msg, equivalence_checking buffer_network wire_layout = Some (st, msg) ∧
    (eq st ≠ NO ↔ clean buffer_network ∧ clean wire_layout ∧
       ∃ m, miter buffer_network wire_layout = Some m ∧ fst (check_miter m) = Some true) ∧
    (eq st ≠ NO → inputs_of buffer_network = inputs_of wire_layout ∧
       outputs_of buffer_network = outputs_of wire_layout ∧
       ∀ a, length a = inputs_of buffer_network → evaluate buffer_network a = evaluate wire_layout a) ∧
    (eq st ≠ NO → ¬ agreeing_but_slow buffer_network wire_layout → eq st = described_type buffer_network wire_layout) ∧
    (eq st ≠ NO → agreeing_but_slow buffer_network wire_layout →
       eq st = STRONG ∧ described_type buffer_network wire_layout = WEAK) ∧
    (counter_example st ≠ [] →
       eq st = NO ∧ evaluate buffer_network (counter_example st) ≠ evaluate wire_layout (counter_example st)) ∧
    (msg = Some DifferentInterfaces ↔ clean buffer_network ∧ clean wire_layout ∧
       ¬ (inputs_of buffer_network = inputs_of wire_layout ∧ outputs_of buffer_network = outputs_of wire_layout)).
Proof.
  apply (equivalence_checking_correct buffer_network wire_layout); [done|].
  intros _. split.
  - destruct (design_drvs wire_layout) as [st|] eqn:E; [by eexists|]. by vm_compute in E.
  - exists 1. split; [by vm_compute|done].
Defined.

(** Two layouts with the throughput 1/2 are called strongly equivalent; described is a weak equivalence. *)
Lemma agreeing_throughputs_are_strong :
  described_type and_layout and_layout = WEAK ∧
  ∃ st, equivalence_checking and_layout and_layout = Some (st, None) ∧
    eq st = STRONG ∧ tp_spec st = 2 ∧ tp_impl st = 2.
Proof.
  split; [by vm_compute|]. destruct (equivalence_checking and_layout and_layout) as [[st [msg|]]|] eqn:E; [by vm_compute in E| |by vm_compute in E].
  exists st. split; [done|]. vm_compute in E. by injection E as <-.
Qed.
