(* ===== verification/FqcaFormat.v ===== *)
(** * The file format of QCA-STACK (include/fiction/io/write_fqca_layout.hpp and read_fqca_layout.hpp)

    Module [Fqca] has the writer with its designators for named cells and the reader with its
    state, over cell-level QCA layouts on Cartesian layouts. Text is a list of characters. The regular
    expressions are the functions that decide them, in the "C" locale; a character beyond ASCII is a
    negative [char], for which [std::isspace] and its relatives are undefined. *)

From Stdlib Require Import Ascii.
From S2P Require Import Prelude.
From S2P Require Import Coordinates.
From S2P Require Import CoordinateLayout.
From S2P Require Import CartesianLayout.
From S2P Require Import ClockingScheme.
From S2P Require Import ClockedLayout.
From S2P Require Import CellTechnology.
From S2P Require Import CellLevelLayout.
#[local] Open Scope Z_scope.
Import Offset CellLevel.

Module Fqca.

Abbreviation text := (list ascii).
Abbreviation cartesian := Cartesian.cartesian_layout.
Abbreviation qca_layout := (@cell_level_layout cartesian Qca.qca_technology).

(** A string literal as text. *)
Definition lit (s : string) : text := String.list_ascii_of_string s.
Definition of_text (t : text) : string := String.string_of_list_ascii t.

Definition newline : ascii := "010"%char.
Definition quote : ascii := "034"%char.

(** The results of writing and reading: a value, an exception or undefined behaviour. *)
Inductive exception :=
| OutOfCellNames
| UnsupportedCharacter (c : ascii)
| UndefinedCellLabel (l : ascii)
| UnrecognizedCellDefinition (line : Z).
Inductive io (A : Type) :=
| Done (a : A)
| Thrown (e : exception)
| Undefined.
Arguments Done {_} _.
Arguments Thrown {_} _.
Arguments Undefined {_}.

#[export] Instance io_bind : MBind io := λ A B f m,
  match m with Done a => f a | Thrown e => Thrown e | Undefined => Undefined end.
Definition of_option {A} (m : option A) : io A := from_option Done Undefined m.

(** A loop [for (a : v) s = f(a, s);]. *)
Fixpoint for_each {A S} (f : A → S → io S) (v : list A) (s : S) : io S :=
  match v with
  | [] => Done s
  | a :: v' => s ← f a s; for_each f v' s
  end.

(** ** Writing *)

Record write_fqca_layout_params := Params { create_inter_layer_via_cells : bool }.
Definition default_params : write_fqca_layout_params := Params false.

Definition ALPHABET : text := lit "abcdefghijklmnopqrstuvwxyzABCDEFGHIJKLMNOPQRSTUVWXYZ".

(** The members of [write_fqca_layout_impl] that change. *)
Record writer := Writer {
  os : text;
  alphabet_iterator : text;
  labeled_cells : list (ucoord_t * ascii);
}.

Definition put (t : text) (w : writer) : writer := Writer (os w ++ t) (alphabet_iterator w) (labeled_cells w).

Definition next_cell_designator (w : writer) : io (ascii * writer) :=
  match alphabet_iterator w with
  | designator :: rest => Done (designator, Writer (os w) rest (labeled_cells w))
  | [] => Thrown OutOfCellNames
  end.

Section Writing.
Context (version repo : string) (lyt : qca_layout) (ps : write_fqca_layout_params).
#[local] Notation strg := (strg lyt).
#[local] Notation dim := (Cartesian.dimension (Clocked.coordinate_layout (clocked lyt))).

Definition header : text :=
  let layout_name := get_layout_name strg in
  lit "[ " ++ (if bool_decide (layout_name = "") then [] else lit layout_name ++ lit " - ") ++
  lit "generated by " ++ lit version ++ lit " (" ++ lit repo ++ lit ") ]" ++ [newline; newline].

(** The loop from 0 to [x()]. *)
Definition write_layer_separator : text := concat (replicate (Z.to_nat (ux dim + 1)) (lit "= ")) ++ [newline].

(** [std::to_string(lyt.get_clock_number(c))]. *)
Definition clock_text (c : ucoord_t) : io text :=
  k ← of_option (get_clock_number lyt c); Done (lit (pretty k)).

Definition is_labeled (c : ucoord_t) : bool :=
  negb (bool_decide (get_cell_name strg c = "")) || is_pi strg c || is_po strg c.

Definition write_cell (c : ucoord_t) (w : writer) : io writer :=
  w ← (if is_empty_cell strg c then Done (put (lit " ") w)
       else if is_labeled c then
         '(cell_designator, w) ← next_cell_designator w;
         let w := Writer (os w) (alphabet_iterator w) (labeled_cells w ++ [(c, cell_designator)]) in
         Done (put [cell_designator] w)
       else if Qca.is_const_0_cell (get_cell_type strg c) then Done (put (lit "-") w)
       else if Qca.is_const_1_cell (get_cell_type strg c) then Done (put (lit "+") w)
       else t ← clock_text c; Done (put t w));
  Done (put (lit " ") w).

Definition write_via_cell (c : ucoord_t) (via_stream : text) : io text :=
  t ← (if Qca.is_vertical_cell_mode (get_cell_mode strg c) then clock_text c else Done (lit " "));
  Done (via_stream ++ t ++ lit " ").

Definition with_vias (z : Z) : bool := create_inter_layer_via_cells ps && negb (z =? uz dim).

(** The loops over the columns, the rows and the layers. *)
Definition write_position (z y x : Z) (s : writer * text) : io (writer * text) :=
  let c := ucoord3 x y z in
  w ← write_cell c s.1;
  via ← (if with_vias z then write_via_cell c s.2 else Done s.2);
  Done (w, via).

Definition write_row (z y : Z) (s : writer * text) : io (writer * text) :=
  s ← for_each (write_position z y) (seqZ 0 (ux dim + 1)) s;
  Done (put [newline] s.1, if with_vias z then s.2 ++ [newline] else s.2).

Definition write_layer (z : Z) (w : writer) : io writer :=
  s ← for_each (write_row z) (seqZ 0 (uy dim + 1)) (put write_layer_separator w, []);
  Done (if with_vias z then put s.2 (put write_layer_separator s.1) else s.1).

Definition write_layout_definition (w : writer) : io writer :=
  w ← for_each write_layer (seqZ 0 (uz dim + 1)) w;
  Done (put write_layer_separator w).

Definition write_labeled_cell (lc : ucoord_t * ascii) (w : writer) : io writer :=
  let '(c, designator) := lc in
  let w := put ([designator] ++ lit ":" ++ [newline]) w in
  let w := if is_pi strg c then put (lit "- input" ++ [newline]) w else w in
  let w := if is_po strg c then put (lit "- output" ++ [newline]) w else w in
  let cell_name := get_cell_name strg c in
  let w := if bool_decide (cell_name = "") then w
           else put (lit "- label = " ++ [quote] ++ lit cell_name ++ [quote; newline]) w in
  t ← clock_text c;
  Done (put [newline] (put (lit "- clock = " ++ t ++ [newline]) w)).

Definition write_cell_definition (w : writer) : io writer := for_each write_labeled_cell (labeled_cells w) w.

Definition SECTION_SEPARATOR : text := [newline; newline] ++ lit "$" ++ [newline; newline].

Definition write_fqca_layout : io text :=
  let w := put header (Writer [] ALPHABET []) in
  w ← write_layout_definition w;
  let w := put SECTION_SEPARATOR w in
  w ← write_cell_definition w;
  Done (os w).
End Writing.

(** ** Characters and lines *)

Definition is_ascii (c : ascii) : bool := code c <? 128.
Definition isspace (c : ascii) : bool := (code c =? 32) || ((9 <=? code c) && (code c <=? 13)).
Definition isdigit (c : ascii) : bool := (48 <=? code c) && (code c <=? 57).
Definition isalpha (c : ascii) : bool :=
  ((65 <=? code c) && (code c <=? 90)) || ((97 <=? code c) && (code c <=? 122)).

(** [std::getline] until the end of the stream. *)
Fixpoint getlines (s : text) : list text :=
  match s with
  | [] => []
  | c :: s' =>
      if bool_decide (c = newline) then [] :: getlines s'
      else match getlines s' with
           | [] => [[c]]
           | l :: ls => (c :: l) :: ls
           end
  end.

(** [std::regex_replace(line, RE_WHITE_SPACE, ...)] with the empty string. *)
Definition strip (line : text) : text := filter (λ c, isspace c = false) line.

(** The rest of a text behind a prefix. *)
Fixpoint after (p t : text) : option text :=
  match p, t with
  | [], _ => Some t
  | a :: p', b :: t' => if bool_decide (a = b) then after p' t' else None
  | _, _ => None
  end.

(** A text without its last character, which is [c]. *)
Definition before_last (c : ascii) (t : text) : option text :=
  match rev t with
  | b :: t' => if bool_decide (b = c) then Some (rev t') else None
  | [] => None
  end.

(** [RE_COMMENT], text in brackets, and [RE_LAYER_SEPARATOR], one or more equality signs. *)
Definition is_comment (t : text) : bool :=
  match after (lit "[") t with
  | Some t' => bool_decide (is_Some (before_last "]"%char t'))
  | None => false
  end.
Definition is_layer_separator (t : text) : bool :=
  negb (bool_decide (t = [])) && forallb (λ c, bool_decide (c = "="%char)) t.

(** The first groups of [RE_CELL_DEFINITION_ID], a word character before a colon, of
    [RE_CELL_DEFINITION_LABEL], text between quotes, and of [RE_CELL_DEFINITION_CLOCK] and
    [RE_CELL_DEFINITION_NUMBER], a digit behind the key. *)
Definition cell_definition_id (t : text) : option ascii :=
  match t with
  | [c; d] => if (isalpha c || isdigit c || bool_decide (c = "_"%char)) && bool_decide (d = ":"%char)
              then Some c else None
  | _ => None
  end.
Definition cell_definition_label (t : text) : option text :=
  t ← after (lit "-label=" ++ [quote]) t; before_last quote t.
Definition cell_definition_digit (key : string) (t : text) : option ascii :=
  t ← after (lit key) t;
  match t with [c] => if isdigit c then Some c else None | _ => None end.

(** A number of [RE_CELL_DEFINITION_OFFSET], an optional sign, digits, and an optional fraction: the rest
    behind the longest match. *)
Fixpoint skip_digits (t : text) : text :=
  match t with c :: t' => if isdigit c then skip_digits t' else t | [] => [] end.
Definition skip_number (t : text) : text :=
  let t := skip_digits (default t (after (lit "-") t)) in
  match after (lit ".") t with
  | Some (c :: t') => if isdigit c then skip_digits t' else t
  | _ => t
  end.
Definition is_offset (t : text) : bool :=
  bool_decide ((t ← after (lit "-offset=(") t;
                t ← after (lit ",") (skip_number t);
                t ← after (lit ",") (skip_number t);
                after (lit ")") (skip_number t)) = Some []).

(** ** Reading *)

Inductive fqca_section := LAYOUT_DEFINITION | CELL_DEFINITION.

(** The members of [read_fqca_layout_impl]; layers and rows have type [uint64_t]. *)
Record reader := Reader {
  lyt : qca_layout;
  parsing_status : fqca_section;
  next_cell_layer : Z;
  current_cell_row : Z;
  max_cell_pos : ucoord_t;
  current_labeled_cell : ucoord_t;
  cell_label_map : gmap ascii ucoord_t;
}.

Definition initial_reader (name : string) : reader :=
  Reader (make (Clocked.make_open Cartesian.make ucoord_default) name 1 1)
    LAYOUT_DEFINITION 0 0 ucoord_default ucoord_default ∅.

Definition set_lyt (l : qca_layout) (r : reader) : reader :=
  Reader l (parsing_status r) (next_cell_layer r) (current_cell_row r) (max_cell_pos r)
    (current_labeled_cell r) (cell_label_map r).
Definition set_label_map (m : gmap ascii ucoord_t) (r : reader) : reader :=
  Reader (lyt r) (parsing_status r) (next_cell_layer r) (current_cell_row r) (max_cell_pos r)
    (current_labeled_cell r) m.

(** The operations on the layout. *)
Definition on_cells (f : cell_level_layout_storage → cell_level_layout_storage) (r : reader) : reader :=
  set_lyt (CellLevelLayout (clocked (lyt r)) (f (strg (lyt r)))) r.
Definition on_clocks (f : Clocked.clocked_layout cartesian → Clocked.clocked_layout cartesian) (r : reader) :
    reader :=
  set_lyt (CellLevelLayout (f (clocked (lyt r))) (strg (lyt r))) r.
Definition assign_type (c : ucoord_t) (ct : Z) : reader → reader := on_cells (λ s, assign_cell_type s c ct).
Definition assign_mode (c : ucoord_t) (m : Qca.cell_mode) : reader → reader := on_cells (λ s, assign_cell_mode s c m).
Definition assign_name (c : ucoord_t) (n : string) : reader → reader := on_cells (λ s, assign_cell_name s c n).
Definition assign_clock (c : ucoord_t) (k : Z) : reader → reader := on_clocks (λ l, Clocked.assign_clock_number l c k).

(** The character is converted to [uint8_t]. *)
Definition to_clock_number (c : ascii) (r : reader) : Z := code c mod Clocked.num_clocks (clocked (lyt r)).

(** The last statements of [parse_cell]: the mode and the bounding box. *)
Definition finish_cell (cell : ucoord_t) (r : reader) : reader :=
  let r := if uz cell =? 0 then r
           else if uz cell mod 2 =? 0 then assign_mode cell Qca.MODE_CROSSOVER r
           else assign_mode cell Qca.MODE_VERTICAL r in
  let p := max_cell_pos r in
  let p := if ux p <? ux cell then set_x p (ux cell) else p in
  let p := if uy p <? uy cell then set_y p (uy cell) else p in
  let p := if uz p <? uz cell then set_z p (uz cell) else p in
  Reader (lyt r) (parsing_status r) (next_cell_layer r) (current_cell_row r) p
    (current_labeled_cell r) (cell_label_map r).

Definition parse_cell (c : ascii) (cell : ucoord_t) (r : reader) : io reader :=
  if negb (is_ascii c) then Undefined
  else if isspace c then Done r
  else if isdigit c then
    let r := assign_type cell Qca.NORMAL r in
    Done (finish_cell cell (assign_clock cell (to_clock_number c r) r))
  else if isalpha c then
    let r := assign_type cell Qca.NORMAL r in
    Done (finish_cell cell (set_label_map (<[c := cell]> (cell_label_map r)) r))
  else if bool_decide (c = "-"%char) then Done (finish_cell cell (assign_type cell Qca.CONST_0 r))
  else if bool_decide (c = "+"%char) then Done (finish_cell cell (assign_type cell Qca.CONST_1 r))
  else Thrown (UnsupportedCharacter c).

(** The loop over every other character of a line. *)
Fixpoint parse_row (line : text) (column : Z) (r : reader) : io reader :=
  match line with
  | [] => Done r
  | c :: line' =>
      r ← parse_cell c (ucoord3 column (current_cell_row r) (wrap 64 (next_cell_layer r - 1))) r;
      match line' with
      | [] => Done r
      | _ :: line'' => parse_row line'' (column + 1) r
      end
  end.

Definition read_layout_line (line substituted_line : text) (r : reader) : io reader :=
  if is_comment substituted_line then Done r
  else if is_layer_separator substituted_line then
    Done (Reader (lyt r) (parsing_status r) (wrap 64 (next_cell_layer r + 1)) 0 (max_cell_pos r)
            (current_labeled_cell r) (cell_label_map r))
  else if bool_decide (substituted_line = lit "$") then
    Done (Reader (lyt r) CELL_DEFINITION (next_cell_layer r) (current_cell_row r) (max_cell_pos r)
            (current_labeled_cell r) (cell_label_map r))
  else
    r ← parse_row line 0 r;
    Done (Reader (lyt r) (parsing_status r) (next_cell_layer r) (wrap 64 (current_cell_row r + 1))
            (max_cell_pos r) (current_labeled_cell r) (cell_label_map r)).

Definition read_definition_line (line_number : Z) (substituted_line : text) (r : reader) : io reader :=
  let c := current_labeled_cell r in
  if bool_decide (substituted_line = []) then Done r
  else
    match cell_definition_id substituted_line with
    | Some cell_id =>
        match cell_label_map r !! cell_id with
        | Some cell => Done (Reader (lyt r) (parsing_status r) (next_cell_layer r) (current_cell_row r)
                               (max_cell_pos r) cell (cell_label_map r))
        | None => Thrown (UndefinedCellLabel cell_id)
        end
    | None =>
        if bool_decide (substituted_line = lit "-input") then Done (assign_type c Qca.INPUT r)
        else if bool_decide (substituted_line = lit "-output") then Done (assign_type c Qca.OUTPUT r)
        else
          match cell_definition_label substituted_line with
          | Some cell_label => Done (assign_name c (of_text cell_label) r)
          | None =>
              match cell_definition_digit "-clock=" substituted_line with
              | Some k => Done (assign_clock c (to_clock_number k r) r)
              | None =>
                  if bool_decide (substituted_line = lit "-propagate") then Done r
                  else if bool_decide (is_Some (cell_definition_digit "-number=" substituted_line)) then Done r
                  else if is_offset substituted_line then Done r
                  else Thrown (UnrecognizedCellDefinition line_number)
              end
          end
    end.

Definition read_line (line_number : Z) (line : text) (r : reader) : io reader :=
  let substituted_line := strip line in
  if bool_decide (line = []) then Done r
  else match parsing_status r with
       | LAYOUT_DEFINITION => read_layout_line line substituted_line r
       | CELL_DEFINITION => read_definition_line line_number substituted_line r
       end.

Fixpoint read_lines (line_number : Z) (lines : list text) (r : reader) : io reader :=
  match lines with
  | [] => Done r
  | line :: lines' => r ← read_line line_number line r; read_lines (wrap 64 (line_number + 1)) lines' r
  end.

(** [lyt.resize(max_cell_pos)]. *)
Definition resized (r : reader) : qca_layout :=
  let cl := clocked (lyt r) in
  CellLevelLayout
    (Clocked.ClockedLayout (Cartesian.resize (Clocked.coordinate_layout cl) (max_cell_pos r)) (Clocked.clocking cl))
    (strg (lyt r)).

Definition read_fqca_layout (is_ : text) (name : string) : io qca_layout :=
  r ← read_lines 1 (getlines is_) (initial_reader name);
  Done (resized r).
End Fqca.
