(* ===== verification/FqcaRoundtrip.v ===== *)
(** * Writing and reading QCA-STACK files

    What the writer writes, line by line ([write_lines]), what the reader makes of such lines
    ([read_written]), and the round trip: a layout that is written and read has the same cells
    ([fqca_round_trip]), with the exceptions found. *)

From Stdlib Require Import Ascii.
From S2P Require Import Prelude.
From S2P Require Import Coordinates.
From S2P Require Import CoordinateLayout.
From S2P Require Import CartesianLayout.
From S2P Require Import ClockingScheme.
From S2P Require Import ClockedLayout.
From S2P Require Import CellTechnology.
From S2P Require Import CellLevelLayout.
From S2P Require Import FqcaFormat.
#[local] Open Scope Z_scope.
Import Offset CellLevel Fqca.
#[local] Existing Instance Qca.qca_technology.

(** ** Lines *)

Definition unlines (ls : list text) : text := l ← ls; l ++ [newline].

Lemma unlines_app ls ls' : unlines (ls ++ ls') = unlines ls ++ unlines ls'.
Proof. apply bind_app. Qed.

Lemma unlines_single l : unlines [l] = l ++ [newline].
Proof. unfold unlines. simpl. apply app_nil_r. Qed.

Lemma getlines_line l s : newline ∉ l → getlines (l ++ newline :: s) = l :: getlines s.
Proof.
  induction l as [|c l IH]; intros Hl; simpl; [done|].
  apply not_elem_of_cons in Hl as [Hc Hl]. rewrite bool_decide_eq_false_2 by done. by rewrite IH.
Qed.

Lemma getlines_unlines ls : Forall (λ l, newline ∉ l) ls → getlines (unlines ls) = ls.
Proof.
  induction ls as [|l ls IH]; [done|]. intros [Hl Hls]%Forall_cons.
  change (unlines (l :: ls)) with ((l ++ [newline]) ++ unlines ls). rewrite <-app_assoc.
  change ([newline] ++ unlines ls) with (newline :: unlines ls). by rewrite (getlines_line l), IH.
Qed.

Lemma lit_app s t : lit (s +:+ t) = lit s ++ lit t.
Proof. unfold lit. induction s as [|c s IH]; [done|]. simpl. by rewrite IH. Qed.

Lemma of_text_lit s : of_text (lit s) = s.
Proof. apply String.string_of_list_ascii_of_string. Qed.

(** Text without white space. *)
Definition solid (t : text) : Prop := Forall (λ c, isspace c = false) t.

Lemma strip_solid t : solid t → strip t = t.
Proof. induction 1 as [|c t Hc Ht IH]; [done|]. unfold strip in *. rewrite filter_cons_True by done. by rewrite IH. Qed.

Lemma strip_app s t : strip (s ++ t) = strip s ++ strip t.
Proof. apply filter_app. Qed.

Lemma solid_newline t : solid t → newline ∉ t.
Proof. intros Ht Hn. unfold solid in Ht. rewrite Forall_forall in Ht. by specialize (Ht _ Hn). Qed.

Lemma strip_is_solid t : solid (strip t).
Proof. apply Forall_forall. intros c [Hc _]%list_elem_of_filter. done. Qed.

Lemma after_app p t : after p (p ++ t) = Some t.
Proof. induction p as [|a p IH]; [done|]. simpl. by rewrite bool_decide_eq_true_2. Qed.

Lemma before_last_app c t : before_last c (t ++ [c]) = Some t.
Proof. unfold before_last. rewrite rev_app_distr. simpl. by rewrite bool_decide_eq_true_2, rev_involutive. Qed.

(** ** Loops *)

Lemma for_each_app {A S} (f : A → S → io S) v w s : for_each f (v ++ w) s = (s ← for_each f v s; for_each f w s).
Proof. revert s. induction v as [|a v IH]; intros s; simpl; [done|]. destruct (f a s); simpl; [apply IH|done|done]. Qed.

(** An invariant of a loop that visits the elements [v] one after the other. *)
Lemma for_each_inv {A S} (f : A → S → io S) (I : list A → S → Prop) v s :
  (∀ v1 a v2 s, v = v1 ++ a :: v2 → I v1 s → ∃ s', f a s = Done s' ∧ I (v1 ++ [a]) s') →
  I [] s → ∃ s', for_each f v s = Done s' ∧ I v s'.
Proof.
  intros Hf. cut (∀ v2 v1 s, v = v1 ++ v2 → I v1 s → ∃ s', for_each f v2 s = Done s' ∧ I v s').
  { intros H Hs. by apply (H v []). }
  clear s. induction v2 as [|a v2 IH]; intros v1 s E Hs; simpl.
  { exists s. rewrite app_nil_r in E. by subst. }
  destruct (Hf v1 a v2 s E Hs) as (s' & -> & Hs'). cbn [mbind io_bind].
  apply (IH (v1 ++ [a])); [by rewrite <-app_assoc|done].
Qed.

(** A loop whose steps change what is seen at one place each, while an invariant holds. *)
Lemma foldl_view_inv {S I P V} `{EqDecision P} (Inv : S → Prop) (view : S → P → V) (step : S → I → S) (pos : I → P)
    (new : I → V → V) (idx : list I) (s : S) :
  (∀ s i, i ∈ idx → Inv s → Inv (step s i) ∧
     ∀ p, view (step s i) p = if decide (p = pos i) then new i (view s p) else view s p) →
  NoDup (pos <$> idx) → Inv s →
  (∀ i, i ∈ idx → view (foldl step s idx) (pos i) = new i (view s (pos i))) ∧
  (∀ p, p ∉ pos <$> idx → view (foldl step s idx) p = view s p).
Proof.
  revert s. induction idx as [|i idx IH]; intros s Hstep Hnd Hs; simpl.
  { split; [by intros i ?%elem_of_nil|done]. }
  apply NoDup_cons in Hnd as [Hi Hnd]. destruct (Hstep s i ltac:(left) Hs) as [Hs' Hv].
  destruct (IH (step s i)) as [Hin Hout]; [intros; apply Hstep; [by right|done]|done|done|]. split.
  - intros j [->|Hj]%elem_of_cons.
    + rewrite Hout by done. by rewrite Hv, decide_True.
    + rewrite Hin by done. rewrite Hv, decide_False; [done|].
      intros E. apply Hi. rewrite <-E. by apply list_elem_of_fmap_2.
  - intros p [Hp Hps]%not_elem_of_cons. rewrite Hout by done. by rewrite Hv, decide_False.
Qed.

(** ** Layouts that can be written *)

#[local] Notation dimension_of l := (Cartesian.dimension (Clocked.coordinate_layout (clocked l))).

(** The types of cells agree with the inputs and outputs, names are those of normal cells, inputs and
    outputs, and are text without white space, and there are enough designators. *)
Definition shown (l : qca_layout) (c : ucoord_t) : bool :=
  negb (is_empty_cell (strg l) c) && is_labeled l c.
Definition row (l : qca_layout) (z y : Z) : list ucoord_t :=
  (λ x, UCoord 0 z y x) <$> seqZ 0 (ux (dimension_of l) + 1).
Definition layer (l : qca_layout) (z : Z) : list ucoord_t :=
  y ← seqZ 0 (uy (dimension_of l) + 1); row l z y.
Definition cells (l : qca_layout) : list ucoord_t := z ← seqZ 0 (uz (dimension_of l) + 1); layer l z.
Definition labeled (l : qca_layout) : list ucoord_t := filter (λ c, shown l c = true) (cells l).

Record writable (l : qca_layout) : Prop := {
  writable_dimension : proper_dimension (dimension_of l);
  writable_tiles : tile_size_x (strg l) ≠ 0 ∧ tile_size_y (strg l) ≠ 0;
  writable_scheme : scheme_wf (Clocked.clocking (clocked l));
  writable_clocks : Clocked.num_clocks (clocked l) <= 4;
  writable_types c : get_cell_type (strg l) c ∈
    [Qca.EMPTY; Qca.NORMAL; Qca.INPUT; Qca.OUTPUT; Qca.CONST_0; Qca.CONST_1];
  writable_inputs c : is_pi (strg l) c = true ↔ get_cell_type (strg l) c = Qca.INPUT;
  writable_outputs c : is_po (strg l) c = true ↔ get_cell_type (strg l) c = Qca.OUTPUT;
  writable_named c : get_cell_name (strg l) c ≠ "" →
    get_cell_type (strg l) c ∈ [Qca.NORMAL; Qca.INPUT; Qca.OUTPUT];
  writable_names c : solid (lit (get_cell_name (strg l) c));
  writable_layout_name : newline ∉ lit (get_layout_name (strg l));
  writable_labels : (length (labeled l) <= length ALPHABET)%nat;
}.

Lemma cells_nested_loops l : cells l = nested_loops (dimension_of l).
Proof.
  unfold cells, nested_loops, layer, row. apply list_bind_ext; [intros z|done]. apply list_bind_ext; [intros y|done].
  generalize (seqZ 0 (ux (dimension_of l) + 1)). intros xs. induction xs as [|x xs IH]; [done|].
  simpl. f_equal.
Qed.

Section Written.
Context (version repo : string) (l : qca_layout) (Hl : writable l).
Context (Hversion : newline ∉ lit version) (Hrepo : newline ∉ lit repo).
#[local] Notation s := (strg l).
#[local] Notation dim := (dimension_of l).

Lemma dimension_wf : wf dim.
Proof. exact (proj1 (writable_dimension _ Hl)). Qed.

Lemma elem_of_cells c : c ∈ cells l ↔ inside dim c.
Proof. rewrite cells_nested_loops. apply elem_of_nested_loops, dimension_wf. Qed.

Lemma cell_wf c : inside dim c → wf c.
Proof.
  intros (Hd & Hz & Hy & Hx). pose proof (proper_dimension_bounds _ (writable_dimension _ Hl)).
  unfold wf, in_width. rewrite Hd. lia.
Qed.

Lemma cells_NoDup : NoDup (cells l).
Proof. rewrite cells_nested_loops. apply nested_loops_NoDup, dimension_wf. Qed.

Lemma labeled_NoDup : NoDup (labeled l).
Proof. apply NoDup_filter, cells_NoDup. Qed.

Lemma elem_of_labeled c : c ∈ labeled l ↔ inside dim c ∧ shown l c = true.
Proof. unfold labeled. rewrite list_elem_of_filter, elem_of_cells. tauto. Qed.

(** The designator of each labeled cell. *)
Definition labels : list (ucoord_t * ascii) := zip (labeled l) ALPHABET.
Definition designators : gmap ucoord_t ascii := list_to_map labels.

Lemma labels_cells : labels.*1 = labeled l.
Proof. apply fst_zip, Hl. Qed.

Lemma elem_of_labels c d :
  (c, d) ∈ labels ↔ ∃ i, labeled l !! i = Some c ∧ ALPHABET !! i = Some d.
Proof.
  unfold labels. rewrite list_elem_of_lookup. setoid_rewrite lookup_zip_with_Some.
  split; [intros (i & c' & d' & [= -> ->] & ? & ?); eauto|intros (i & ? & ?); exists i, c, d; done].
Qed.

Lemma designators_spec c d : designators !! c = Some d ↔ (c, d) ∈ labels.
Proof. unfold designators. symmetry. apply elem_of_list_to_map. rewrite labels_cells. apply labeled_NoDup. Qed.

Lemma alphabet_NoDup : NoDup ALPHABET.
Proof. apply (bool_decide_unpack _). by vm_compute. Qed.

Lemma designators_inj c c' d : designators !! c = Some d → designators !! c' = Some d → c = c'.
Proof.
  rewrite !designators_spec, !elem_of_labels. intros (i & Hc & Hd) (j & Hc' & Hd').
  assert (i = j) as <- by (eapply NoDup_lookup; [apply alphabet_NoDup|done..]). congruence.
Qed.

Lemma designators_shown c : is_Some (designators !! c) ↔ inside dim c ∧ shown l c = true.
Proof.
  rewrite <-elem_of_labeled. split.
  - intros [d Hd]. apply designators_spec, elem_of_labels in Hd as (i & Hi & _). by eapply list_elem_of_lookup_2.
  - intros [i Hi]%list_elem_of_lookup. pose proof (lookup_lt_Some _ _ _ Hi). pose proof (writable_labels _ Hl).
    destruct (lookup_lt_is_Some_2 ALPHABET i) as [d Hd]; [lia|]. exists d.
    apply designators_spec, elem_of_labels. eauto.
Qed.

Lemma designator_letter c d : designators !! c = Some d →
  isspace d = false ∧ isdigit d = false ∧ isalpha d = true ∧ is_ascii d = true.
Proof.
  intros Hd. apply designators_spec, elem_of_labels in Hd as (i & _ & Hd).
  assert (Forall (λ d, isspace d = false ∧ isdigit d = false ∧ isalpha d = true ∧ is_ascii d = true) ALPHABET) as H
    by (apply (bool_decide_unpack _); by vm_compute).
  rewrite Forall_lookup in H. by eapply H.
Qed.

(** The clock number of a cell and its digit. *)
Definition clock_of (c : ucoord_t) : Z := default 0 (get_clock_number l c).
Definition digit (k : Z) : ascii := Ascii.ascii_of_N (Z.to_N (48 + k)).

Lemma clock_known c : get_clock_number l c = Some (clock_of c) ∧ 0 <= clock_of c < Clocked.num_clocks (clocked l).
Proof.
  unfold clock_of, get_clock_number. pose proof (writable_tiles _ Hl). rewrite decide_False by tauto. simpl.
  split; [done|]. apply clock_number_bound, Hl.
Qed.

Lemma clock_cases c : clock_of c = 0 ∨ clock_of c = 1 ∨ clock_of c = 2 ∨ clock_of c = 3.
Proof. pose proof (clock_known c). pose proof (writable_clocks _ Hl). lia. Qed.

Lemma clock_text_digit c : clock_text l c = Done [digit (clock_of c)].
Proof.
  unfold clock_text. destruct (clock_known c) as [-> _]. simpl. f_equal.
  by destruct (clock_cases c) as [-> |[-> |[-> | ->]]].
Qed.

(** The character of a cell. *)
Definition cell_char (c : ucoord_t) : ascii :=
  if is_empty_cell s c then " "%char
  else match designators !! c with
       | Some d => d
       | None =>
           if Qca.is_const_0_cell (get_cell_type s c) then "-"%char
           else if Qca.is_const_1_cell (get_cell_type s c) then "+"%char
           else digit (clock_of c)
       end.
Definition row_text (cs : list ucoord_t) : text := c ← cs; [cell_char c; " "%char].

(** *** What the writer writes *)

(** The writer has written the text [t] for the cells [P]. *)
Record writer_ok (P : list ucoord_t) (t : text) (w : writer) : Prop := {
  writer_os : os w = t;
  writer_alphabet : alphabet_iterator w = drop (length (filter (λ c, shown l c = true) P)) ALPHABET;
  writer_labels : labeled_cells w = zip (filter (λ c, shown l c = true) P) ALPHABET;
}.

Lemma put_ok P t t' w : writer_ok P t w → writer_ok P (t ++ t') (put t' w).
Proof. intros [<- Ha Hc]. by split. Qed.

Lemma zip_snoc {A B} (v : list A) (u : list B) a b : u !! length v = Some b → zip (v ++ [a]) u = zip v u ++ [(a, b)].
Proof.
  revert u. induction v as [|c v IH]; intros [|d u] Hu; simpl in *; simplify_eq; [by destruct u|].
  by rewrite IH.
Qed.

Lemma write_cell_ok P c Q t w :
  cells l = P ++ c :: Q → writer_ok P t w →
  ∃ w', write_cell l c w = Done w' ∧ writer_ok (P ++ [c]) (t ++ [cell_char c; " "%char]) w'.
Proof.
  intros HC Hw. unfold write_cell, cell_char.
  assert (∀ ch, shown l c = false → ∃ w',
    Done (put (lit " ") (put [ch] w)) = Done w' ∧ writer_ok (P ++ [c]) (t ++ [ch; " "%char]) w') as Hplain.
  { intros ch Hs. eexists. split; [done|]. change [ch; " "%char] with ([ch] ++ lit " "). rewrite app_assoc.
    do 2 apply put_ok. destruct Hw as [Ho Ha Hc].
    assert (filter (λ c, shown l c = true) (P ++ [c]) = filter (λ c, shown l c = true) P) as E.
    { rewrite filter_app, filter_cons_False by (by rewrite Hs). apply app_nil_r. }
    by split; rewrite ?E. }
  pose proof (designators_shown c) as Hd. assert (inside dim c) as Hin by (apply elem_of_cells; rewrite HC; set_solver).
  destruct (shown l c) eqn:Hs.
  - clear Hplain. destruct Hd as [_ Hd]. destruct Hd as [d Hd]; [done|]. rewrite Hd.
    apply andb_true_iff in Hs as Hs'. destruct Hs' as [He%negb_true_iff El]. rewrite He, El.
    set (F := filter (λ c, shown l c = true) P).
    assert (filter (λ c, shown l c = true) (P ++ [c]) = F ++ [c]) as EF.
    { rewrite filter_app. f_equal. by rewrite filter_cons_True. }
    assert (ALPHABET !! length F = Some d) as Hnext.
    { apply designators_spec, elem_of_labels in Hd as (i & Hi & Hd).
      assert (labeled l !! length F = Some c) as Hc.
      { unfold labeled. rewrite HC, filter_app, filter_cons_True by done. by apply list_lookup_middle. }
      by rewrite (NoDup_lookup _ _ _ _ labeled_NoDup Hc Hi). }
    destruct Hw as [Ho Ha Hc]. fold F in Ha, Hc. unfold next_cell_designator. rewrite Ha, (drop_S _ _ _ Hnext).
    cbn [mbind io_bind]. eexists. split; [done|]. change [d; " "%char] with ([d] ++ lit " "). rewrite app_assoc.
    do 2 apply put_ok. split; [done|..]; rewrite EF; simpl.
    + by rewrite length_app, Nat.add_1_r.
    + rewrite Hc. symmetry. by apply zip_snoc.
  - assert (designators !! c = None) as ->.
    { destruct (designators !! c); [|done]. destruct Hd as [Hd _]. destruct Hd as [_ Hd]; [by eexists|done]. }
    destruct (is_empty_cell s c) eqn:He; [by apply Hplain|]. unfold shown in Hs. rewrite He in Hs. simpl in Hs. rewrite Hs.
    destruct (Qca.is_const_0_cell _); [by apply Hplain|]. destruct (Qca.is_const_1_cell _); [by apply Hplain|].
    rewrite clock_text_digit. by apply Hplain.
Qed.

Lemma row_split v1 x v2 z y : (λ x, UCoord 0 z y x) <$> (v1 ++ x :: v2) =
  ((λ x, UCoord 0 z y x) <$> v1) ++ UCoord 0 z y x :: ((λ x, UCoord 0 z y x) <$> v2).
Proof. by rewrite fmap_app. Qed.

Lemma ucoord3_inside z y x : inside dim (UCoord 0 z y x) → ucoord3 x y z = UCoord 0 z y x.
Proof.
  intros (_ & Hz & Hy & Hx). simpl in *. pose proof (proper_dimension_bounds _ (writable_dimension _ Hl)).
  unfold ucoord3. rewrite !wrap_small by (unfold in_width; lia). done.
Qed.

Lemma write_row_ok P z y Q t w via :
  cells l = P ++ row l z y ++ Q → writer_ok P t w →
  ∃ w', write_row l default_params z y (w, via) = Done (w', via) ∧
    writer_ok (P ++ row l z y) (t ++ row_text (row l z y) ++ [newline]) w'.
Proof.
  intros HC Hw. unfold write_row. set (xs := seqZ 0 (ux dim + 1)).
  destruct (for_each_inv (write_position l default_params z y)
    (λ v '(w, via'), via' = via ∧
       writer_ok (P ++ ((λ x, UCoord 0 z y x) <$> v)) (t ++ row_text ((λ x, UCoord 0 z y x) <$> v)) w) xs (w, via))
    as ([w' via'] & E & -> & Hw').
  - intros v1 x v2 [w1 via1] Hv [-> Hw1]. unfold row in HC. fold xs in HC. rewrite Hv, row_split, <-app_assoc in HC.
    rewrite <-app_comm_cons, app_assoc in HC.
    assert (inside dim (UCoord 0 z y x)) as Hin by (apply elem_of_cells; rewrite HC; set_solver).
    destruct (write_cell_ok _ _ _ _ _ HC Hw1) as (w2 & E & Hw2).
    unfold write_position. rewrite ucoord3_inside by done. cbn [fst snd]. rewrite E. cbn [mbind io_bind].
    exists (w2, via). split; [done|]. split; [done|]. rewrite fmap_app. unfold row_text. rewrite bind_app, !app_assoc.
    unfold row_text in Hw2. done.
  - split; [done|]. by rewrite !app_nil_r.
  - rewrite E. cbn [mbind io_bind fst snd]. exists (put [newline] w'). split; [done|].
    rewrite app_assoc. by apply put_ok.
Qed.

(** The lines of a layer. *)
Definition separator_line : text := concat (replicate (Z.to_nat (ux dim + 1)) (lit "= ")).
Definition layer_lines (z : Z) : list text := separator_line :: ((λ y, row_text (row l z y)) <$> seqZ 0 (uy dim + 1)).

Lemma separator_unlines : write_layer_separator l = unlines [separator_line].
Proof. unfold unlines. simpl. by rewrite app_nil_r. Qed.

Lemma write_layer_ok P z Q t w :
  cells l = P ++ layer l z ++ Q → writer_ok P t w →
  ∃ w', write_layer l default_params z w = Done w' ∧ writer_ok (P ++ layer l z) (t ++ unlines (layer_lines z)) w'.
Proof.
  intros HC Hw. unfold write_layer, layer_lines. set (ys := seqZ 0 (uy dim + 1)).
  apply (put_ok _ _ (write_layer_separator l)) in Hw. rewrite separator_unlines in Hw.
  change (separator_line :: ?u) with ([separator_line] ++ u). rewrite unlines_app, app_assoc.
  destruct (for_each_inv (write_row l default_params z)
    (λ v '(w, via'), via' = [] ∧
       writer_ok (P ++ (y ← v; row l z y)) ((t ++ unlines [separator_line]) ++ unlines ((λ y, row_text (row l z y)) <$> v)) w)
    ys (put (write_layer_separator l) w, [])) as ([w' via'] & E & -> & Hw').
  - intros v1 y v2 [w1 via1] Hv [-> Hw1]. unfold layer in HC. fold ys in HC.
    rewrite Hv, bind_app, bind_cons, <-!app_assoc, (app_assoc P) in HC.
    destruct (write_row_ok _ _ _ _ _ _ [] HC Hw1) as (w2 & -> & Hw2). exists (w2, []). split; [done|]. split; [done|].
    rewrite bind_app, fmap_app, unlines_app, (app_assoc P), (app_assoc (t ++ _)).
    cbn [fmap list_fmap]. rewrite !unlines_single in Hw2. rewrite !unlines_single. change ([y] ≫= ?f) with (f y ++ []). by rewrite app_nil_r.
  - split; [done|]. rewrite separator_unlines. cbn [mbind list_bind fmap list_fmap]. by rewrite !app_nil_r.
  - rewrite E. cbn [mbind io_bind fst snd]. exists w'. split; [done|done].
Qed.

(** The definition of a labeled cell. *)
Definition definition_lines (lc : ucoord_t * ascii) : list text :=
  let '(c, d) := lc in
  [d; ":"%char] ::
  (if is_pi s c then [lit "- input"] else []) ++
  (if is_po s c then [lit "- output"] else []) ++
  (if bool_decide (get_cell_name s c = "") then [] else [lit "- label = " ++ [quote] ++ lit (get_cell_name s c) ++ [quote]]) ++
  [lit "- clock = " ++ [digit (clock_of c)]; []].

Definition header_line : text :=
  lit "[ " ++ (if bool_decide (get_layout_name s = "") then [] else lit (get_layout_name s) ++ lit " - ") ++
  lit "generated by " ++ lit version ++ lit " (" ++ lit repo ++ lit ") ]".

Definition layout_lines : list text := (z ← seqZ 0 (uz dim + 1); layer_lines z) ++ [separator_line].

Definition all_lines : list text :=
  [header_line; []] ++ layout_lines ++ [[]; []; lit "$"; []] ++ (lc ← labels; definition_lines lc).

Lemma unlines_cons t ts : unlines (t :: ts) = t ++ [newline] ++ unlines ts.
Proof. change (unlines (t :: ts)) with ((t ++ [newline]) ++ unlines ts). by rewrite <-app_assoc. Qed.

Lemma write_labeled_cell_ok lc w :
  ∃ w', write_labeled_cell l lc w = Done w' ∧ os w' = os w ++ unlines (definition_lines lc).
Proof.
  destruct lc as [c d]. unfold write_labeled_cell, definition_lines. rewrite clock_text_digit. cbn [mbind io_bind].
  eexists. split; [done|].
  change (lit ":") with [":"%char].
  destruct (is_pi s c), (is_po s c), (bool_decide _); unfold put; cbn [os app]; rewrite !unlines_cons;
    repeat (rewrite <-!app_assoc; cbn [app]); done.
Qed.

Lemma write_definitions_ok lcs w :
  ∃ w', for_each (write_labeled_cell l) lcs w = Done w' ∧ os w' = os w ++ unlines (lc ← lcs; definition_lines lc).
Proof.
  revert w. induction lcs as [|lc lcs IH]; intros w; simpl; [exists w; by rewrite app_nil_r|].
  destruct (write_labeled_cell_ok lc w) as (w1 & -> & E1). cbn [mbind io_bind].
  destruct (IH w1) as (w2 & -> & E2). exists w2. split; [done|].
  change (list_bind _ _ _ lcs) with (lcs ≫= definition_lines). by rewrite E2, E1, unlines_app, app_assoc.
Qed.

Lemma header_unlines : header version repo l = unlines [header_line; []].
Proof.
  unfold header, header_line. rewrite !unlines_cons. change (unlines []) with (@nil ascii).
  destruct (bool_decide _); repeat (rewrite <-!app_assoc; cbn [app]); done.
Qed.

Lemma write_lines : write_fqca_layout version repo l default_params = Done (unlines all_lines).
Proof.
  unfold write_fqca_layout, write_layout_definition.
  destruct (for_each_inv (write_layer l default_params)
    (λ v w, writer_ok (z ← v; layer l z) (header version repo l ++ unlines (z ← v; layer_lines z)) w)
    (seqZ 0 (uz dim + 1)) (put (header version repo l) (Writer [] ALPHABET []))) as (w & -> & Hw).
  - intros v1 z v2 w Hv Hw. assert (cells l = (z ← v1; layer l z) ++ layer l z ++ (z ← v2; layer l z)) as HC.
    { unfold cells. by rewrite Hv, bind_app, bind_cons. }
    destruct (write_layer_ok _ _ _ _ _ HC Hw) as (w' & -> & Hw'). exists w'. split; [done|].
    rewrite !bind_app, unlines_app, app_assoc. change ([z] ≫= ?f) with (f z ++ []). by rewrite !app_nil_r.
  - split; [|done..]. cbn [mbind list_bind]. by rewrite app_nil_r.
  - cbn [mbind io_bind]. apply (put_ok _ _ (write_layer_separator l)), (put_ok _ _ SECTION_SEPARATOR) in Hw.
    destruct Hw as [Ho Ha Hc]. unfold write_cell_definition. fold (cells l) (labeled l) labels in Hc.
    rewrite Hc. destruct (write_definitions_ok labels (put SECTION_SEPARATOR (put (write_layer_separator l) w))) as (w' & -> & Ho').
    cbn [mbind io_bind]. rewrite Ho', Ho. f_equal. unfold all_lines, layout_lines. rewrite !unlines_app, separator_unlines.
    rewrite !app_assoc. rewrite header_unlines.
    by change SECTION_SEPARATOR with (unlines [[]; []; lit "$"; []]).
Qed.

(** *** What the reader makes of it *)

(** The reader after a cell. *)
Definition scan_cell (r : reader) (c : ucoord_t) : reader :=
  if is_empty_cell s c then r
  else finish_cell c
    match designators !! c with
    | Some d => set_label_map (<[d := c]> (cell_label_map r)) (assign_type c Qca.NORMAL r)
    | None =>
        if Qca.is_const_0_cell (get_cell_type s c) then assign_type c Qca.CONST_0 r
        else if Qca.is_const_1_cell (get_cell_type s c) then assign_type c Qca.CONST_1 r
        else assign_clock c (clock_of c) (assign_type c Qca.NORMAL r)
    end.

Definition reader_clocks (r : reader) : Prop := Clocked.num_clocks (clocked (lyt r)) = 4.

Lemma digit_facts c r : reader_clocks r →
  let d := digit (clock_of c) in
  is_ascii d = true ∧ isspace d = false ∧ isdigit d = true ∧ to_clock_number d r = clock_of c.
Proof.
  unfold reader_clocks, to_clock_number. intros ->. by destruct (clock_cases c) as [-> |[-> |[-> | ->]]].
Qed.

Lemma parse_cell_char c r : reader_clocks r → parse_cell (cell_char c) c r = Done (scan_cell r c).
Proof.
  intros Hr. unfold cell_char, scan_cell, parse_cell. destruct (is_empty_cell s c); [done|].
  destruct (designators !! c) as [d|] eqn:Ed.
  { destruct (designator_letter _ _ Ed) as (-> & -> & -> & ->). done. }
  destruct (Qca.is_const_0_cell _); [done|]. destruct (Qca.is_const_1_cell _); [done|].
  destruct (digit_facts c r Hr) as (-> & -> & -> & Hk). by rewrite <-Hk at 2.
Qed.

(** The position of the reader in the file, and that the cells do not depend on it. *)
Definition at_position (n y : Z) (r : reader) : reader :=
  Reader (lyt r) (parsing_status r) n y (max_cell_pos r) (current_labeled_cell r) (cell_label_map r).

Definition scanning (r : reader) : Prop := parsing_status r = LAYOUT_DEFINITION ∧ reader_clocks r.

Lemma finish_cell_position n y c r : finish_cell c (at_position n y r) = at_position n y (finish_cell c r).
Proof. unfold finish_cell. by destruct (uz c =? 0), (uz c mod 2 =? 0). Qed.

Lemma finish_cell_scanning c r : scanning r → scanning (finish_cell c r).
Proof. unfold finish_cell. by destruct (uz c =? 0), (uz c mod 2 =? 0). Qed.

Lemma scan_cell_position n y r c : scan_cell (at_position n y r) c = at_position n y (scan_cell r c).
Proof.
  unfold scan_cell. destruct (is_empty_cell s c); [done|]. rewrite <-finish_cell_position. f_equal.
  by repeat case_match.
Qed.

Lemma scan_cell_scanning r c : scanning r → scanning (scan_cell r c).
Proof.
  intros Hr. unfold scan_cell. destruct (is_empty_cell s c); [done|]. apply finish_cell_scanning.
  by repeat case_match.
Qed.

Lemma scan_cells_scanning r cs : scanning r → scanning (foldl scan_cell r cs).
Proof. apply foldl_preserves. intros. by apply scan_cell_scanning. Qed.

Lemma scan_cells_position n y r cs : foldl scan_cell (at_position n y r) cs = at_position n y (foldl scan_cell r cs).
Proof. revert r. induction cs as [|c cs IH]; intros r; [done|]. simpl. by rewrite scan_cell_position, IH. Qed.

(** The lines [ls] turn the reader [r] into [r']. *)
Definition reads (ls : list text) (r r' : reader) : Prop :=
  ∀ n rest, ∃ n', read_lines n (ls ++ rest) r = read_lines n' rest r'.

Lemma reads_app ls ls' r r' r'' : reads ls r r' → reads ls' r' r'' → reads (ls ++ ls') r r''.
Proof.
  intros H H' n rest. destruct (H n (ls' ++ rest)) as (n1 & E). destruct (H' n1 rest) as (n2 & E').
  exists n2. by rewrite <-app_assoc, E, E'.
Qed.

Lemma reads_nil r : reads [] r r.
Proof. intros n rest. by exists n. Qed.

Lemma reads_line t r r' : (∀ n, read_line n t r = Done r') → reads [t] r r'.
Proof. intros H n rest. exists (wrap 64 (n + 1)). simpl. by rewrite H. Qed.

Lemma reads_empty r : reads [[]] r r.
Proof. apply reads_line. done. Qed.

(** *** Rows and layers *)

Lemma parse_row_cells z y x0 k r :
  scanning r → (∀ x, x0 <= x < x0 + Z.of_nat k → inside dim (UCoord 0 z y x)) →
  parse_row (row_text ((λ x, UCoord 0 z y x) <$> seqZ x0 (Z.of_nat k))) x0 (at_position (z + 1) y r) =
  Done (at_position (z + 1) y (foldl scan_cell r ((λ x, UCoord 0 z y x) <$> seqZ x0 (Z.of_nat k)))).
Proof.
  revert x0 r. induction k as [|k IH]; intros x0 r Hr Hin; [done|].
  rewrite seqZ_cons by lia. replace (Z.pred (Z.of_nat (S k))) with (Z.of_nat k) by lia.
  assert (inside dim (UCoord 0 z y x0)) as Hc by (apply Hin; lia).
  pose proof (proper_dimension_bounds _ (writable_dimension _ Hl)) as Hdim. pose proof Hc as (_ & Hz & Hy & Hx). simpl in Hz, Hy, Hx.
  cbn [fmap list_fmap]. unfold row_text. rewrite bind_cons. cbn [app parse_row next_cell_layer current_cell_row at_position].
  rewrite (wrap_small 64) by (unfold in_width; lia). replace (z + 1 - 1) with z by lia.
  rewrite ucoord3_inside by (apply Hin; lia). fold (at_position (z + 1) y r).
  rewrite parse_cell_char by apply Hr. cbn [mbind io_bind]. rewrite scan_cell_position.
  cbn [foldl]. apply IH; [by apply scan_cell_scanning|]. intros x Hx'. apply Hin. lia.
Qed.

(** The characters of rows are none of those that other lines begin with. *)
Lemma strip_row_text cs : Forall (λ a, a ≠ "["%char ∧ a ≠ "="%char ∧ a ≠ "$"%char) (strip (row_text cs)).
Proof.
  apply Forall_forall. intros a [Ha Hin]%list_elem_of_filter. unfold row_text in Hin.
  apply list_elem_of_bind in Hin as (c & Hac & _).
  repeat (apply elem_of_cons in Hac as [->|Hac]); [|done|by apply not_elem_of_nil in Hac].
  unfold cell_char in *. destruct (is_empty_cell s c); [done|]. destruct (designators !! c) as [d|] eqn:Ed.
  - destruct (designator_letter _ _ Ed) as (_ & _ & Hd & _). by split_and!; intros ->.
  - destruct (Qca.is_const_0_cell _); [done|]. destruct (Qca.is_const_1_cell _); [done|].
    by destruct (clock_cases c) as [-> |[-> |[-> | ->]]].
Qed.

Lemma read_row z y r :
  scanning r → (∀ x, 0 <= x < ux dim + 1 → inside dim (UCoord 0 z y x)) → 0 <= y <= uy dim →
  reads [row_text (row l z y)] (at_position (z + 1) y r) (at_position (z + 1) (y + 1) (foldl scan_cell r (row l z y))).
Proof.
  intros Hr Hin Hy. apply reads_line. intros n. pose proof (proper_dimension_bounds _ (writable_dimension _ Hl)) as Hdim.
  unfold read_line. rewrite bool_decide_eq_false_2.
  2:{ unfold row. rewrite seqZ_cons by lia. done. }
  destruct Hr as [Hst Hk]. cbn [parsing_status at_position]. rewrite Hst. unfold read_layout_line.
  pose proof (strip_row_text (row l z y)) as Hf. set (t := strip (row_text (row l z y))) in *.
  assert (is_comment t = false) as ->.
  { unfold is_comment. destruct t as [|a t]; [done|]. apply Forall_cons in Hf as [Ha _]. simpl.
    rewrite bool_decide_eq_false_2; [done|]. intros <-. by destruct Ha as (? & ? & ?). }
  assert (is_layer_separator t = false) as ->.
  { unfold is_layer_separator. destruct t as [|a t]; [done|]. apply Forall_cons in Hf as [Ha _]. simpl.
    rewrite bool_decide_eq_false_2; [done|]. apply Ha. }
  rewrite bool_decide_eq_false_2.
  2:{ intros ->. apply Forall_cons in Hf as [Ha _]. by destruct Ha as (? & ? & ?). }
  unfold row. pose proof (parse_row_cells z y 0 (Z.to_nat (ux dim + 1)) r (conj Hst Hk)) as Hp.
  rewrite Z2Nat.id in Hp by lia. rewrite Hp; [|done]. cbn [mbind io_bind].
  cbn [at_position lyt parsing_status next_cell_layer current_cell_row max_cell_pos current_labeled_cell cell_label_map].
  by rewrite wrap_small by (unfold in_width; lia).
Qed.

Lemma read_rows z y0 k r :
  scanning r → 0 <= y0 → y0 + Z.of_nat k <= uy dim + 1 → 0 <= z <= uz dim →
  reads ((λ y, row_text (row l z y)) <$> seqZ y0 (Z.of_nat k)) (at_position (z + 1) y0 r)
    (at_position (z + 1) (y0 + Z.of_nat k) (foldl scan_cell r (y ← seqZ y0 (Z.of_nat k); row l z y))).
Proof.
  revert y0 r. induction k as [|k IH]; intros y0 r Hr Hy0 Hk Hz.
  { rewrite Z.add_0_r. apply reads_nil. }
  rewrite seqZ_cons by lia. replace (Z.pred (Z.of_nat (S k))) with (Z.of_nat k) by lia.
  rewrite bind_cons, foldl_app. cbn [fmap list_fmap].
  change (row_text ?a :: ?b) with ([row_text a] ++ b). eapply reads_app.
  - apply (read_row z y0 r Hr); [|lia]. intros x Hx. unfold inside. simpl. lia.
  - replace (y0 + Z.of_nat (S k)) with (Z.succ y0 + Z.of_nat k) by lia.
    apply IH; [by apply scan_cells_scanning|lia..].
Qed.

Lemma strip_separator : ∃ k, strip separator_line = "="%char :: replicate k "="%char.
Proof.
  pose proof (proper_dimension_bounds _ (writable_dimension _ Hl)) as Hdim.
  exists (Z.to_nat (ux dim)). change ("="%char :: ?u) with (replicate (S (Z.to_nat (ux dim))) "="%char).
  unfold separator_line. replace (S (Z.to_nat (ux dim))) with (Z.to_nat (ux dim + 1)) by lia.
  induction (Z.to_nat (ux dim + 1)) as [|k IH]; [done|]. cbn [replicate concat]. by rewrite strip_app, IH.
Qed.

Lemma read_separator n y r :
  scanning r → 0 <= n < 2 ^ 32 → reads [separator_line] (at_position n y r) (at_position (n + 1) 0 r).
Proof.
  intros [Hst Hk] Hn. apply reads_line. intros i. unfold read_line. destruct strip_separator as [k Hs]. rewrite Hs.
  rewrite bool_decide_eq_false_2 by (intros E; by rewrite E in Hs). cbn [parsing_status at_position]. rewrite Hst.
  unfold read_layout_line. change (is_comment _) with false. cbv iota.
  assert (is_layer_separator ("="%char :: replicate k "="%char) = true) as ->.
  { unfold is_layer_separator. simpl. clear Hs. induction k as [|k IH]; [done|]. simpl. apply IH. }
  unfold at_position. cbn [lyt next_cell_layer max_cell_pos current_labeled_cell cell_label_map parsing_status].
  by rewrite wrap_small, Hst by (unfold in_width; lia).
Qed.

Lemma read_layers z0 k y r :
  scanning r → 0 <= z0 → z0 + Z.of_nat k <= uz dim + 1 →
  ∃ y', reads (z ← seqZ z0 (Z.of_nat k); layer_lines z) (at_position z0 y r)
    (at_position (z0 + Z.of_nat k) y' (foldl scan_cell r (z ← seqZ z0 (Z.of_nat k); layer l z))).
Proof.
  pose proof (proper_dimension_bounds _ (writable_dimension _ Hl)) as Hdim.
  revert z0 y r. induction k as [|k IH]; intros z0 y r Hr Hz0 Hk.
  { exists y. rewrite Z.add_0_r. apply reads_nil. }
  rewrite seqZ_cons by lia. replace (Z.pred (Z.of_nat (S k))) with (Z.of_nat k) by lia.
  destruct (IH (Z.succ z0) (uy dim + 1) (foldl scan_cell r (layer l z0))) as [y' Hy']; [by apply scan_cells_scanning|lia..|].
  exists y'. rewrite !bind_cons, foldl_app. replace (z0 + Z.of_nat (S k)) with (Z.succ z0 + Z.of_nat k) by lia.
  eapply reads_app; [|exact Hy']. unfold layer_lines. change (?a :: ?b) with ([a] ++ b).
  eapply reads_app; [apply read_separator; [done|lia]|].
  pose proof (read_rows z0 0 (Z.to_nat (uy dim + 1)) r Hr) as Hrows. rewrite Z2Nat.id in Hrows by lia.
  apply Hrows; lia.
Qed.

Lemma read_header name : reads [header_line; []] (initial_reader name) (initial_reader name).
Proof.
  change [header_line; []] with ([header_line] ++ [[]]). eapply reads_app; [|apply reads_empty].
  apply reads_line. intros n. unfold read_line, read_layout_line. rewrite bool_decide_eq_false_2 by done.
  cbn [parsing_status initial_reader].
  assert (is_comment (strip header_line) = true) as ->; [|done].
  assert (∃ t, header_line = ["["%char] ++ t ++ ["]"%char]) as [t ->].
  { exists (lit " " ++ ((if bool_decide (get_layout_name s = "") then [] else lit (get_layout_name s) ++ lit " - ") ++
      lit "generated by " ++ lit version ++ lit " (" ++ lit repo ++ lit ") ")).
    unfold header_line. change (lit "[ ") with (["["%char] ++ lit " "). change (lit ") ]") with (lit ") " ++ ["]"%char]).
    by rewrite <-!app_assoc. }
  rewrite !strip_app. change (strip ["["%char]) with ["["%char]. change (strip ["]"%char]) with ["]"%char].
  unfold is_comment. change (lit "[") with ["["%char]. rewrite after_app, before_last_app. by apply bool_decide_eq_true_2.
Qed.

(** *** Definitions of cells *)

Definition set_current (c : ucoord_t) (r : reader) : reader :=
  Reader (lyt r) (parsing_status r) (next_cell_layer r) (current_cell_row r) (max_cell_pos r) c (cell_label_map r).
Definition define_cell (r : reader) (lc : ucoord_t * ascii) : reader :=
  let c := lc.1 in
  let r := set_current c r in
  let r := if is_pi s c then assign_type c Qca.INPUT r else r in
  let r := if is_po s c then assign_type c Qca.OUTPUT r else r in
  let r := if bool_decide (get_cell_name s c = "") then r else assign_name c (get_cell_name s c) r in
  assign_clock c (clock_of c) r.

Record defining (r : reader) : Prop := {
  defining_status : parsing_status r = CELL_DEFINITION;
  defining_clocks : reader_clocks r;
  defining_labels c d : (c, d) ∈ labels → cell_label_map r !! d = Some c;
}.

Lemma define_cell_defining r lc : defining r → defining (define_cell r lc).
Proof.
  intros [Hs Hk Hm]. unfold define_cell. destruct (is_pi s _), (is_po s _), (bool_decide _); by split.
Qed.

(** One line of a definition. *)
Lemma read_definition t t' r r' :
  parsing_status r = CELL_DEFINITION → strip t = t' → t' ≠ [] →
  (∀ n, read_definition_line n t' r = Done r') → reads [t] r r'.
Proof.
  intros Hs Ht Hne Hr. apply reads_line. intros n. unfold read_line. rewrite bool_decide_eq_false_2, Hs, Ht.
  - apply Hr.
  - intros ->. by rewrite <-Ht in Hne.
Qed.

Lemma reads_if (b : bool) t r r' : (b = true → reads [t] r r') → reads (if b then [t] else []) r (if b then r' else r).
Proof. destruct b; intros H; [by apply H|apply reads_nil]. Qed.

Lemma read_labeled_cell lc r : defining r → lc ∈ labels → reads (definition_lines lc) r (define_cell r lc).
Proof.
  destruct lc as [c d]. intros [Hs Hk Hm] Hin. unfold definition_lines, define_cell. cbn [fst].
  change ([d; ":"%char] :: ?u) with ([[d; ":"%char]] ++ u).
  destruct (designator_letter c d) as (Hd1 & Hd2 & Hd3 & _); [by apply designators_spec|].
  set (r1 := set_current c r).
  set (r2 := if is_pi s c then assign_type c Qca.INPUT r1 else r1).
  set (r3 := if is_po s c then assign_type c Qca.OUTPUT r2 else r2).
  set (r4 := if bool_decide (get_cell_name s c = "") then r3 else assign_name c (get_cell_name s c) r3).
  assert (parsing_status r1 = CELL_DEFINITION ∧ current_labeled_cell r1 = c ∧ reader_clocks r1) as H1 by done.
  assert (parsing_status r2 = CELL_DEFINITION ∧ current_labeled_cell r2 = c ∧ reader_clocks r2) as H2
    by (unfold r2; by destruct (is_pi s c)).
  assert (parsing_status r3 = CELL_DEFINITION ∧ current_labeled_cell r3 = c ∧ reader_clocks r3) as H3
    by (unfold r3; by destruct (is_po s c)).
  assert (parsing_status r4 = CELL_DEFINITION ∧ current_labeled_cell r4 = c ∧ reader_clocks r4) as H4
    by (unfold r4; by destruct (bool_decide _)).
  apply (reads_app _ _ _ r1); [|apply (reads_app _ _ _ r2); [|apply (reads_app _ _ _ r3); [|apply (reads_app _ _ _ r4)]]].
  - apply (read_definition _ [d; ":"%char] r r1); [done| |done|].
    + unfold strip. rewrite filter_cons_True by done. done.
    + intros n. unfold read_definition_line. rewrite bool_decide_eq_false_2 by done.
      unfold cell_definition_id. rewrite Hd3. simpl. by rewrite (Hm c d).
  - apply reads_if. intros _. apply (read_definition _ (lit "-input")); [apply H1|done|done|].
    intros n. unfold read_definition_line. by destruct H1 as (_ & -> & _).
  - apply reads_if. intros _. apply (read_definition _ (lit "-output")); [apply H2|done|done|].
    intros n. unfold read_definition_line. by destruct H2 as (_ & -> & _).
  - unfold r4. destruct (bool_decide _) eqn:En; [apply reads_nil|].
    apply (read_definition _ (lit "-label=" ++ [quote] ++ lit (get_cell_name s c) ++ [quote])); [apply H3| |done|].
    + rewrite !strip_app, (strip_solid (lit (get_cell_name s c))); [done|apply Hl].
    + intros n. unfold read_definition_line. destruct H3 as (_ & -> & _).
      set (nm := lit (get_cell_name s c)).
      assert (cell_definition_label (lit "-label=" ++ [quote] ++ nm ++ [quote]) = Some nm) as ->.
      { unfold cell_definition_label. rewrite app_assoc, after_app. apply before_last_app. }
      simpl. unfold nm. by rewrite of_text_lit.
  - change [?a; []] with ([a] ++ [[]]). eapply reads_app; [|apply reads_empty].
    apply (read_definition _ (lit "-clock=" ++ [digit (clock_of c)])); [apply H4| |done|].
    + by destruct (clock_cases c) as [-> |[-> |[-> | ->]]].
    + intros n. unfold read_definition_line. destruct H4 as (_ & Hc & Hk4). rewrite Hc.
      destruct (digit_facts c r4 Hk4) as (_ & _ & Hd & Hdk).
      assert (cell_definition_digit "-clock=" (lit "-clock=" ++ [digit (clock_of c)]) = Some (digit (clock_of c))) as E.
      { unfold cell_definition_digit. rewrite after_app. simpl. by rewrite Hd. }
      rewrite E. simpl. by rewrite Hdk.
Qed.

(** *** The whole file *)

Lemma finish_cell_labels c r : cell_label_map (finish_cell c r) = cell_label_map r.
Proof. unfold finish_cell. by destruct (uz c =? 0), (uz c mod 2 =? 0). Qed.

Lemma scan_cell_labels r c d : cell_label_map (scan_cell r c) !! d =
  if decide (designators !! c = Some d) then Some c else cell_label_map r !! d.
Proof.
  unfold scan_cell. pose proof (designators_shown c) as Hs. unfold shown in Hs.
  destruct (is_empty_cell s c).
  { rewrite decide_False; [done|]. intros Hd. destruct Hs as [Hs _]. destruct Hs as [_ Hs]; [by eexists|done]. }
  rewrite finish_cell_labels. destruct (designators !! c) as [e|].
  - cbn [set_label_map cell_label_map]. destruct (decide (Some e = Some d)) as [[= ->]|Hne]; [by rewrite lookup_insert_eq|].
    rewrite lookup_insert_ne; [done|]. congruence.
  - rewrite decide_False by done. by repeat case_match.
Qed.

Lemma scan_cells_labels P r c d :
  c ∈ P → designators !! c = Some d → cell_label_map (foldl scan_cell r P) !! d = Some c.
Proof.
  intros Hc Hd. induction P as [|e P IH] using rev_ind; [by apply not_elem_of_nil in Hc|].
  rewrite foldl_snoc, scan_cell_labels. destruct (decide (designators !! e = Some d)) as [He|He].
  - f_equal. by eapply designators_inj.
  - apply IH. apply elem_of_app in Hc as [Hc| ->%list_elem_of_singleton]; [done|done].
Qed.

Lemma cell_char_not_newline c : cell_char c ≠ newline.
Proof.
  unfold cell_char. destruct (is_empty_cell s c); [done|]. destruct (designators !! c) as [d|] eqn:Ed.
  { destruct (designator_letter _ _ Ed) as (Hd & _). by intros ->. }
  destruct (Qca.is_const_0_cell _); [done|]. destruct (Qca.is_const_1_cell _); [done|].
  by destruct (clock_cases c) as [-> |[-> |[-> | ->]]].
Qed.

Lemma no_newline_in (ch : ascii) (t : text) : (newline ∉ t) → newline ≠ ch → newline ∉ ch :: t.
Proof. intros Ht Hc. apply not_elem_of_cons. by split. Qed.

Lemma newline_not_in_const t : bool_decide (newline ∈ lit t) = false → newline ∉ lit t.
Proof. apply bool_decide_eq_false. Qed.

Lemma no_newlines : Forall (λ t, newline ∉ t) all_lines.
Proof.
  assert (newline ∉ separator_line) as Hsep.
  { unfold separator_line. induction (Z.to_nat (ux dim + 1)) as [|k IH]; [apply not_elem_of_nil|].
    cbn [replicate concat]. rewrite not_elem_of_app. split; [by apply newline_not_in_const|done]. }
  unfold all_lines, layout_lines. rewrite !Forall_app. split_and!.
  - repeat constructor; [|apply not_elem_of_nil]. unfold header_line. rewrite !not_elem_of_app.
    split_and!; try done; try by apply newline_not_in_const.
    destruct (bool_decide _); [apply not_elem_of_nil|]. rewrite not_elem_of_app.
    split; [apply Hl|by apply newline_not_in_const].
  - apply Forall_forall. intros t (z & [->|Ht]%elem_of_cons & _)%list_elem_of_bind; [done|].
    apply list_elem_of_fmap in Ht as (y & -> & _). intros (c & Hc & _)%list_elem_of_bind.
    repeat (apply elem_of_cons in Hc as [Hc|Hc]); [by eapply cell_char_not_newline|done|by apply not_elem_of_nil in Hc].
  - by repeat constructor.
  - repeat constructor; try apply not_elem_of_nil. by apply newline_not_in_const.
  - apply Forall_forall. intros t ([c d] & Ht & Hin)%list_elem_of_bind.
    apply designators_spec in Hin. destruct (designator_letter _ _ Hin) as (Hd & _).
    unfold definition_lines in Ht. apply elem_of_cons in Ht as [->|Ht].
    { rewrite !not_elem_of_cons. split_and!; [by intros <-|done|apply not_elem_of_nil]. }
    rewrite !elem_of_app in Ht. destruct Ht as [Ht|[Ht|[Ht|Ht]]].
    + destruct (is_pi s c); [|by apply not_elem_of_nil in Ht]. apply list_elem_of_singleton in Ht as ->. by apply newline_not_in_const.
    + destruct (is_po s c); [|by apply not_elem_of_nil in Ht]. apply list_elem_of_singleton in Ht as ->. by apply newline_not_in_const.
    + destruct (bool_decide _); [by apply not_elem_of_nil in Ht|]. apply list_elem_of_singleton in Ht as ->.
      rewrite !not_elem_of_app. split_and!; [by apply newline_not_in_const|by intros ?%list_elem_of_singleton| |by intros ?%list_elem_of_singleton].
      apply solid_newline, Hl.
    + apply elem_of_cons in Ht as [->|Ht]; [|apply list_elem_of_singleton in Ht as ->; apply not_elem_of_nil].
      rewrite not_elem_of_app. split; [by apply newline_not_in_const|]. intros Hn%list_elem_of_singleton.
      by destruct (clock_cases c) as [E|[E|[E|E]]]; rewrite E in Hn.
Qed.

(** The reader behind the section separator. *)
Definition enter (n y : Z) (r : reader) : reader :=
  Reader (lyt r) CELL_DEFINITION n y (max_cell_pos r) (current_labeled_cell r) (cell_label_map r).
Definition scanned (name : string) : reader := foldl scan_cell (initial_reader name) (cells l).

Lemma read_written name :
  ∃ n y, read_fqca_layout (unlines all_lines) name =
    Done (resized (foldl define_cell (enter n y (scanned name)) labels)).
Proof.
  pose proof (proper_dimension_bounds _ (writable_dimension _ Hl)) as Hdim.
  unfold read_fqca_layout. rewrite getlines_unlines by apply no_newlines.
  assert (scanning (initial_reader name)) as H0 by done.
  destruct (read_layers 0 (Z.to_nat (uz dim + 1)) 0 (initial_reader name) H0) as [y Hy]; [lia..|].
  rewrite Z2Nat.id, Z.add_0_l in Hy by lia. change (at_position 0 0 (initial_reader name)) with (initial_reader name) in Hy.
  fold (cells l) (scanned name) in Hy. set (r1 := scanned name) in *.
  assert (scanning r1) as [Hs1 Hk1] by by apply scan_cells_scanning.
  exists (uz dim + 2), 0. set (r2 := enter (uz dim + 2) 0 r1).
  assert (reads [lit "$"] (at_position (uz dim + 2) 0 r1) r2) as Hdollar.
  { apply reads_line. intros n. unfold read_line. cbn [parsing_status at_position]. rewrite Hs1. done. }
  assert (defining r2) as Hr2.
  { split; [done|done|]. intros c d Hcd. apply designators_spec in Hcd as Hd. apply scan_cells_labels; [|done].
    apply elem_of_cells. by apply designators_shown. }
  assert (∀ lcs r, (∀ lc, lc ∈ lcs → lc ∈ labels) → defining r →
    reads (lc ← lcs; definition_lines lc) r (foldl define_cell r lcs)) as Hdefs.
  { induction lcs as [|lc lcs IH]; intros r Hin Hr; [apply reads_nil|]. rewrite bind_cons.
    eapply reads_app; [apply read_labeled_cell; [done|apply Hin; by left]|]. apply IH; [|by apply define_cell_defining].
    intros lc' Hlc. apply Hin. by right. }
  assert (reads all_lines (initial_reader name) (foldl define_cell r2 labels)) as Hall.
  { unfold all_lines, layout_lines. eapply reads_app; [apply read_header|]. rewrite <-app_assoc.
    eapply reads_app; [exact Hy|]. eapply reads_app; [apply read_separator; [done|lia]|].
    replace (uz dim + 1 + 1) with (uz dim + 2) by lia.
    change ([[]; []; lit "$"; []] ++ ?u) with ([[]] ++ [[]] ++ [lit "$"] ++ [[]] ++ u).
    eapply reads_app; [apply reads_empty|]. eapply reads_app; [apply reads_empty|].
    eapply reads_app; [exact Hdollar|]. eapply reads_app; [apply reads_empty|]. by apply Hdefs. }
  destruct (Hall 1 []) as [n E]. rewrite app_nil_r in E. rewrite E. done.
Qed.

(** *** What is seen of a cell *)

Record cell_view := CellView {
  seen_type : option Z;
  seen_mode : option Qca.cell_mode;
  seen_name : option string;
  seen_input : bool;
  seen_output : bool;
  seen_clock : option Z;
}.
Definition view (r : reader) (c : ucoord_t) : cell_view :=
  let st := strg (lyt r) in
  CellView (cell_type_map st !! c) (cell_mode_map st !! c) (cell_name_map st !! c)
    (bool_decide (c ∈ inputs st)) (bool_decide (c ∈ outputs st))
    (override (Clocked.clocking (clocked (lyt r))) !! c).

(** What scanning and defining make of a cell. *)
Definition scanned_type (c : ucoord_t) : Z :=
  if decide (is_Some (designators !! c)) then Qca.NORMAL
  else if Qca.is_const_0_cell (get_cell_type s c) then Qca.CONST_0
  else if Qca.is_const_1_cell (get_cell_type s c) then Qca.CONST_1
  else Qca.NORMAL.
Definition scan_view (c : ucoord_t) (v : cell_view) : cell_view :=
  if is_empty_cell s c then v
  else CellView (Some (scanned_type c))
    (if uz c =? 0 then seen_mode v else if uz c mod 2 =? 0 then Some Qca.MODE_CROSSOVER else Some Qca.MODE_VERTICAL)
    (seen_name v) (seen_input v) (seen_output v)
    (if decide (is_Some (designators !! c)) then seen_clock v
     else if Qca.is_constant_cell (get_cell_type s c) then seen_clock v else Some (clock_of c)).

Lemma view_type c ct r p :
  Qca.is_empty_cell ct = false →
  view (assign_type c ct r) p =
    if decide (p = c)
    then CellView (Some ct) (seen_mode (view r p)) (seen_name (view r p))
      (Qca.is_input_cell ct || seen_input (view r p))
      ((negb (Qca.is_input_cell ct) && Qca.is_output_cell ct) || seen_output (view r p)) (seen_clock (view r p))
    else view r p.
Proof.
  intros He. unfold view, assign_type, on_cells, set_lyt, assign_cell_type.
  change (tech_is_empty_cell ct) with (Qca.is_empty_cell ct). change (tech_is_input_cell ct) with (Qca.is_input_cell ct).
  change (tech_is_output_cell ct) with (Qca.is_output_cell ct). rewrite He.
  cbn [lyt strg cell_type_map cell_mode_map cell_name_map inputs outputs clocked seen_mode seen_name seen_input seen_output seen_clock].
  destruct (decide (p = c)) as [->|Hne]; [rewrite lookup_insert_eq|rewrite lookup_insert_ne by done]; f_equal;
    destruct (Qca.is_input_cell ct), (Qca.is_output_cell ct); simpl; try done;
    (apply bool_decide_eq_true_2; set_solver) || (apply bool_decide_ext; set_solver).
Qed.

Lemma view_mode c m r p :
  m ≠ Qca.MODE_NORMAL →
  view (assign_mode c m r) p =
    if decide (p = c)
    then CellView (seen_type (view r p)) (Some m) (seen_name (view r p)) (seen_input (view r p))
      (seen_output (view r p)) (seen_clock (view r p))
    else view r p.
Proof.
  intros Hm. unfold view, assign_mode, on_cells, set_lyt, assign_cell_mode.
  assert (tech_is_normal_cell_mode m = false) as -> by (by apply bool_decide_eq_false_2).
  cbn. destruct (decide (p = c)) as [->|Hne]; [by rewrite lookup_insert_eq|by rewrite lookup_insert_ne].
Qed.

Lemma view_name c n r p :
  n ≠ "" →
  view (assign_name c n r) p =
    if decide (p = c)
    then CellView (seen_type (view r p)) (seen_mode (view r p)) (Some n) (seen_input (view r p))
      (seen_output (view r p)) (seen_clock (view r p))
    else view r p.
Proof.
  intros Hn. unfold view, assign_name, on_cells, set_lyt, assign_cell_name. rewrite decide_False by done.
  cbn. destruct (decide (p = c)) as [->|Hne]; [by rewrite lookup_insert_eq|by rewrite lookup_insert_ne].
Qed.

Lemma view_clock c r p :
  reader_clocks r →
  view (assign_clock c (clock_of c) r) p =
    if decide (p = c)
    then CellView (seen_type (view r p)) (seen_mode (view r p)) (seen_name (view r p)) (seen_input (view r p))
      (seen_output (view r p)) (Some (clock_of c))
    else view r p.
Proof.
  unfold reader_clocks, Clocked.num_clocks. intros Hr.
  unfold view, assign_clock, on_clocks, set_lyt, Clocked.assign_clock_number, override_clock_number.
  cbn. rewrite Hr, Z.mod_small by (destruct (clock_cases c) as [-> |[-> |[-> | ->]]]; lia).
  destruct (decide (p = c)) as [->|Hne]; [by rewrite lookup_insert_eq|by rewrite lookup_insert_ne].
Qed.

Lemma view_finish c r p :
  view (finish_cell c r) p =
    if decide (p = c)
    then CellView (seen_type (view r p))
      (if uz c =? 0 then seen_mode (view r p) else if uz c mod 2 =? 0 then Some Qca.MODE_CROSSOVER else Some Qca.MODE_VERTICAL)
      (seen_name (view r p)) (seen_input (view r p)) (seen_output (view r p)) (seen_clock (view r p))
    else view r p.
Proof.
  unfold finish_cell. set (r' := if uz c =? 0 then r else _). change (view (Reader _ _ _ _ _ _ _) p) with (view r' p).
  unfold r'. destruct (uz c =? 0); [by destruct (decide _)|]. destruct (uz c mod 2 =? 0); by rewrite view_mode.
Qed.

Lemma scan_cell_view r c p :
  reader_clocks r → view (scan_cell r c) p = if decide (p = c) then scan_view c (view r p) else view r p.
Proof.
  intros Hr. unfold scan_cell, scan_view, scanned_type, Qca.is_constant_cell.
  destruct (is_empty_cell s c); [by destruct (decide _)|]. rewrite view_finish.
  destruct (designators !! c) as [d|].
  - destruct (decide (is_Some (Some d))) as [_|Hn]; [|by destruct Hn]. change (view (set_label_map _ ?r) p) with (view r p).
    rewrite view_type by done. by destruct (decide (p = c)).
  - destruct (decide (is_Some None)) as [Hn|_]; [by destruct Hn|]. destruct (Qca.is_const_0_cell _), (Qca.is_const_1_cell _);
      rewrite ?view_clock, view_type by done; by destruct (decide (p = c)).
Qed.

Definition define_view (c : ucoord_t) (v : cell_view) : cell_view :=
  CellView (if is_po s c then Some Qca.OUTPUT else if is_pi s c then Some Qca.INPUT else seen_type v)
    (seen_mode v) (if bool_decide (get_cell_name s c = "") then seen_name v else Some (get_cell_name s c))
    (is_pi s c || seen_input v) (is_po s c || seen_output v) (Some (clock_of c)).

Lemma define_cell_view r lc p :
  reader_clocks r → view (define_cell r lc) p = if decide (p = lc.1) then define_view lc.1 (view r p) else view r p.
Proof.
  intros Hr. destruct lc as [c d]. unfold define_cell, define_view. cbn [fst].
  assert (∀ r', reader_clocks r' → view (if bool_decide (get_cell_name s c = "") then r' else assign_name c (get_cell_name s c) r') p =
    if decide (p = c) then CellView (seen_type (view r' p)) (seen_mode (view r' p))
      (if bool_decide (get_cell_name s c = "") then seen_name (view r' p) else Some (get_cell_name s c))
      (seen_input (view r' p)) (seen_output (view r' p)) (seen_clock (view r' p)) else view r' p) as Hname.
  { intros r' _. case_bool_decide; [by destruct (decide _)|by rewrite view_name]. }
  destruct (is_pi s c), (is_po s c); rewrite view_clock by (by destruct (bool_decide _)); rewrite Hname by done;
    rewrite ?view_type by done; change (view (set_current c r) p) with (view r p); by destruct (decide (p = c)).
Qed.

Definition blank_view : cell_view := CellView None None None false false None.

(** The view of a cell of the layout that is read. *)
Definition read_view (c : ucoord_t) : cell_view :=
  if decide (inside dim c) then
    if is_empty_cell s c then blank_view
    else if shown l c then define_view c (scan_view c blank_view)
    else scan_view c blank_view
  else blank_view.

Lemma read_view_spec name n y c : view (foldl define_cell (enter n y (scanned name)) labels) c = read_view c.
Proof.
  assert (∀ p, view (scanned name) p = if decide (inside dim p) then scan_view p blank_view else blank_view) as Hscan.
  { destruct (foldl_view_inv scanning view scan_cell id scan_view (cells l) (initial_reader name)) as [Hin Hout].
    - intros r i _ Hr. split; [by apply scan_cell_scanning|]. intros p. apply scan_cell_view, Hr.
    - rewrite list_fmap_id. apply cells_NoDup.
    - done.
    - rewrite list_fmap_id in Hout. intros p.
      destruct (decide (inside dim p)) as [Hp|Hp]; [by apply (Hin p), elem_of_cells|apply Hout; by rewrite elem_of_cells]. }
  destruct (foldl_view_inv reader_clocks view define_cell fst (λ lc v, define_view lc.1 v) labels (enter n y (scanned name)))
    as [Hin Hout].
  - intros r lc _ Hr. split; [|by intros p; apply define_cell_view].
    unfold define_cell. by destruct (is_pi s _), (is_po s _), (bool_decide _).
  - rewrite labels_cells. apply labeled_NoDup.
  - by apply scan_cells_scanning.
  - rewrite labels_cells in Hout. change (view (enter n y (scanned name))) with (view (scanned name)) in Hin, Hout.
    unfold read_view. pose proof (elem_of_labeled c) as Hlab. destruct (decide (c ∈ labeled l)) as [Hc|Hc].
    + apply Hlab in Hc as Hc'. destruct Hc' as [Hins Hsh]. rewrite <-labels_cells in Hc.
      apply list_elem_of_fmap in Hc as (lc & -> & Hlc). rewrite (Hin lc Hlc), Hscan, decide_True by done.
      rewrite Hsh. unfold shown in Hsh. destruct (is_empty_cell s lc.1); [done|]. by rewrite decide_True.
    + rewrite Hout by done. rewrite Hscan. destruct (decide (inside dim c)) as [Hins|]; [|done].
      unfold scan_view. destruct (is_empty_cell s c); [done|]. destruct (shown l c); [by destruct Hc; apply Hlab|done].
Qed.

(** The size of the layout that is read. *)
Lemma scan_cell_max r c : inside dim c →
  let m := max_cell_pos r in let m' := max_cell_pos (scan_cell r c) in
  if is_empty_cell s c then m' = m
  else ux m' = Z.max (ux m) (ux c) ∧ uy m' = Z.max (uy m) (uy c) ∧ uz m' = Z.max (uz m) (uz c).
Proof.
  intros (_ & Hz & Hy & Hx). pose proof (proper_dimension_bounds _ (writable_dimension _ Hl)) as Hdim.
  unfold scan_cell. destruct (is_empty_cell s c); [done|]. set (r1 := match designators !! c with Some _ => _ | None => _ end).
  assert (max_cell_pos r1 = max_cell_pos r) as E by (unfold r1; by repeat case_match).
  unfold finish_cell. set (r2 := if uz c =? 0 then r1 else _).
  assert (max_cell_pos r2 = max_cell_pos r) as E2 by (unfold r2; by repeat case_match).
  rewrite E2. cbn [max_cell_pos]. destruct (max_cell_pos r) as [md mz my mx]. simpl.
  destruct (Z.ltb_spec mx (ux c)); simpl; destruct (Z.ltb_spec my (uy c)); simpl; destruct (Z.ltb_spec mz (uz c)); simpl;
    rewrite ?wrap_small by (unfold in_width; lia); lia.
Qed.

(** What the reader does not change of its layout. *)
Definition base_ok (name : string) (r : reader) : Prop :=
  let sch := Clocked.clocking (clocked (lyt r)) in
  regular sch = false ∧ fn sch = (λ _, 0) ∧ layout_name (strg (lyt r)) = name ∧
  tile_size_x (strg (lyt r)) = 1 ∧ tile_size_y (strg (lyt r)) = 1.

Lemma assign_type_base name c ct r : base_ok name r → base_ok name (assign_type c ct r).
Proof. intros Hr. unfold base_ok, assign_type, on_cells, set_lyt, assign_cell_type. destruct (tech_is_empty_cell ct); exact Hr. Qed.

Lemma scan_cell_base name r c : base_ok name r → base_ok name (scan_cell r c).
Proof.
  intros Hr. unfold scan_cell. destruct (is_empty_cell s c); [done|].
  assert (∀ r', base_ok name r' → base_ok name (finish_cell c r')) as Hf.
  { intros r' Hr'. unfold finish_cell. destruct (uz c =? 0), (uz c mod 2 =? 0); exact Hr'. }
  apply Hf. repeat case_match; first [by apply assign_type_base|destruct (assign_type_base name c Qca.NORMAL r Hr) as (? & ? & ? & ? & ?); unfold base_ok; by split_and!].
Qed.

Lemma define_cell_base name r lc : base_ok name r → base_ok name (define_cell r lc).
Proof.
  intros Hr. unfold define_cell. set (r1 := set_current lc.1 r). assert (base_ok name r1) as H1 by done.
  set (r2 := if is_pi s lc.1 then _ else r1). assert (base_ok name r2) as H2 by (unfold r2; destruct (is_pi s _); [by apply assign_type_base|done]).
  set (r3 := if is_po s lc.1 then _ else r2). assert (base_ok name r3) as H3 by (unfold r3; destruct (is_po s _); [by apply assign_type_base|done]).
  case_bool_decide; destruct H3 as (? & ? & ? & ? & ?); unfold base_ok; by split_and!.
Qed.

Definition max_ok (m : ucoord_t) (P : list ucoord_t) : Prop :=
  (∀ c, c ∈ P → is_empty_cell s c = false → ux c <= ux m ∧ uy c <= uy m ∧ uz c <= uz m) ∧
  0 <= ux m <= ux dim ∧ 0 <= uy m <= uy dim ∧ 0 <= uz m <= uz dim.

Lemma scanned_max name : max_ok (max_cell_pos (scanned name)) (cells l).
Proof.
  pose proof (proper_dimension_bounds _ (writable_dimension _ Hl)) as Hdim. unfold scanned.
  assert (∀ P, (∀ c, c ∈ P → inside dim c) → max_ok (max_cell_pos (foldl scan_cell (initial_reader name) P)) P) as H.
  { induction P as [|c P IH] using rev_ind; intros HP.
    - split; [by intros c ?%not_elem_of_nil|]. simpl. lia.
    - rewrite foldl_snoc. pose proof (scan_cell_max (foldl scan_cell (initial_reader name) P) c (HP c ltac:(set_solver))) as Hm.
      destruct (HP c ltac:(set_solver)) as (_ & Hz & Hy & Hx). destruct IH as [IH (? & ? & ?)]; [intros; apply HP; set_solver|].
      split.
      + intros e He Hemp. destruct (is_empty_cell s c) eqn:Ec; cbn zeta in Hm.
        * apply elem_of_app in He as [He|He%list_elem_of_singleton]; [|congruence]. rewrite Hm. by apply IH.
        * destruct Hm as (-> & -> & ->). apply elem_of_app in He as [He| ->%list_elem_of_singleton]; [|lia].
          specialize (IH e He Hemp). lia.
      + destruct (is_empty_cell s c); cbn zeta in Hm; [by rewrite Hm|]. destruct Hm as (-> & -> & ->). lia. }
  apply H. intros c Hc. by apply elem_of_cells.
Qed.

Lemma define_cells_max lcs r : max_cell_pos (foldl define_cell r lcs) = max_cell_pos r.
Proof.
  revert r. induction lcs as [|lc lcs IH]; intros r; [done|]. simpl. rewrite IH.
  unfold define_cell. by destruct (is_pi s _), (is_po s _), (bool_decide _).
Qed.

(** The types of cells are those that are read back. *)
Lemma read_back c v : is_empty_cell s c = false →
  v = (if shown l c then define_view c (scan_view c blank_view) else scan_view c blank_view) → inside dim c →
  seen_type v = Some (get_cell_type s c) ∧ default "" (seen_name v) = get_cell_name s c ∧
  seen_input v = is_pi s c ∧ seen_output v = is_po s c ∧
  seen_clock v = (if Qca.is_constant_cell (get_cell_type s c) then None else Some (clock_of c)) ∧
  seen_mode v = (if uz c =? 0 then None else Some Qca.MODE_VERTICAL).
Proof.
  intros He -> Hin. pose proof (designators_shown c) as Hd. pose proof (writable_types _ Hl c) as Ht.
  pose proof (writable_inputs _ Hl c) as Hpi. pose proof (writable_outputs _ Hl c) as Hpo.
  pose proof (writable_named _ Hl c) as Hnm. set (T := get_cell_type s c) in *.
  assert (is_labeled l c = true → T = Qca.NORMAL ∨ T = Qca.INPUT ∨ T = Qca.OUTPUT) as Hlab.
  { unfold is_labeled. rewrite !orb_true_iff, negb_true_iff, bool_decide_eq_false.
    intros [[Hn|Hi%Hpi]|Ho%Hpo]; [|tauto..]. apply Hnm in Hn. set_solver. }
  assert (T = Qca.EMPTY → False) as Hne by (intros E; unfold is_empty_cell in He; fold T in He; by rewrite E in He).
  assert (∀ ct, Qca.is_constant_cell ct = true → ct = Qca.CONST_0 ∨ ct = Qca.CONST_1) as Hconst.
  { intros ct. unfold Qca.is_constant_cell, Qca.is_const_0_cell, Qca.is_const_1_cell. rewrite orb_true_iff, !Z.eqb_eq. tauto. }
  assert ((if uz c mod 2 =? 0 then Some Qca.MODE_CROSSOVER else Some Qca.MODE_VERTICAL) =
          (if uz c =? 0 then Some Qca.MODE_CROSSOVER else Some Qca.MODE_VERTICAL)) as Hmode.
  { destruct Hin as (_ & Hz & _). pose proof (proper_dimension_bounds _ (writable_dimension _ Hl)).
    assert (uz c = 0 ∨ uz c = 1) as [-> | ->] by lia; done. }
  unfold shown in *. rewrite He in *. cbn [negb andb] in *. destruct (is_labeled l c) eqn:El.
  - destruct Hd as [_ Hd]. specialize (Hd (conj Hin eq_refl)). specialize (Hlab eq_refl).
    unfold define_view, scan_view, scanned_type. rewrite He, Hmode. rewrite !(decide_True (P := is_Some _)) by done.
    cbn [blank_view seen_type seen_mode seen_name seen_input seen_output seen_clock].
    assert (Qca.is_constant_cell T = false) as ->.
    { destruct (Qca.is_constant_cell T) eqn:Ec; [|done]. apply Hconst in Ec. by destruct Hlab as [E|[E|E]], Ec as [E'|E']; rewrite E in E'. }
    rewrite !orb_false_r. split_and!; [|by case_bool_decide|done|done|done|by destruct (uz c =? 0)].
    destruct (is_po s c); [f_equal; symmetry; by apply Hpo|]. destruct (is_pi s c); [f_equal; symmetry; by apply Hpi|].
    destruct Hlab as [E|[E|E]]; [by rewrite E|by apply Hpi in E|by apply Hpo in E].
  - unfold is_labeled in El. apply orb_false_iff in El as [[Hn%negb_false_iff Epi]%orb_false_iff Epo].
    apply bool_decide_eq_true in Hn. unfold scan_view, scanned_type. rewrite He, Hmode, Epi, Epo, Hn.
    assert (¬ is_Some (designators !! c)) as Hnone by (intros [_ H]%Hd; done).
    rewrite !(decide_False (P := is_Some _)) by done. cbn [blank_view seen_type seen_mode seen_name seen_input seen_output seen_clock].
    split_and!; [|done..|by destruct (uz c =? 0)]. f_equal. fold T.
    assert (T ∈ [Qca.EMPTY; Qca.NORMAL; Qca.INPUT; Qca.OUTPUT; Qca.CONST_0; Qca.CONST_1]) as Hcases by done.
    rewrite !elem_of_cons, elem_of_nil in Hcases. destruct Hcases as [E|[E|[E|[E|[E|[E|[]]]]]]];
      first [by rewrite E|by destruct (Hne E)|by apply Hpi in E; rewrite E in Epi|by apply Hpo in E; rewrite E in Epo].
Qed.
End Written.

(** ** The round trip *)

(** The cells of the layout that is returned, in terms of their views. *)
Lemma resized_cells r c :
  get_cell_type (strg (resized r)) c = default Qca.EMPTY (seen_type (view r c)) ∧
  get_cell_name (strg (resized r)) c = default "" (seen_name (view r c)) ∧
  is_pi (strg (resized r)) c = seen_input (view r c) ∧ is_po (strg (resized r)) c = seen_output (view r c) ∧
  get_cell_mode (strg (resized r)) c = default Qca.MODE_NORMAL (seen_mode (view r c)).
Proof. done. Qed.

Lemma resized_clock name r c :
  base_ok name r → wf c → ud c = 0 → get_clock_number (resized r) c = Some (default 0 (seen_clock (view r c))).
Proof.
  intros (Hreg & Hfn & _ & Hsx & Hsy) (_ & Hz & Hy & Hx) Hd. unfold get_clock_number.
  change (strg (resized r)) with (strg (lyt r)). rewrite Hsx, Hsy, decide_False, !Z.div_1_r by lia.
  destruct c as [d z y x]. simpl in *. subst d. unfold ucoord3. rewrite !wrap_small by done.
  unfold Clocked.get_clock_number, clock_number_at. simpl. rewrite Hreg, Hfn. by destruct (override _ !! _).
Qed.

(** Empty cells have no roles and no names. *)
Lemma empty_cell_plain l c : writable l → is_empty_cell (strg l) c = true →
  get_cell_type (strg l) c = Qca.EMPTY ∧ get_cell_name (strg l) c = "" ∧
  is_pi (strg l) c = false ∧ is_po (strg l) c = false.
Proof.
  intros Hl He. assert (get_cell_type (strg l) c = Qca.EMPTY) as E by by apply Z.eqb_eq. split; [done|].
  pose proof (writable_inputs _ Hl c) as Hpi. pose proof (writable_outputs _ Hl c) as Hpo.
  pose proof (writable_named _ Hl c) as Hnm. rewrite E in Hpi, Hpo, Hnm. split_and!.
  - destruct (decide (get_cell_name (strg l) c = "")) as [->|Hne]; [done|]. apply Hnm in Hne.
    rewrite !elem_of_cons, elem_of_nil in Hne. by destruct Hne as [|[|[|]]].
  - destruct (is_pi (strg l) c); [by pose proof (proj1 Hpi eq_refl)|done].
  - destruct (is_po (strg l) c); [by pose proof (proj1 Hpo eq_refl)|done].
Qed.

(** C4: a QCA layout of at most two layers whose types, inputs, outputs and names agree is written without
    an exception, and the file is read back without one: every cell has its type, name and role again,
    every cell that is not constant has its clock number, constant cells have clock number 0, cells in
    the upper layer are vertical ones and all others normal ones, there are no further cells, and the
    size is the smallest that holds all cells. *)
Theorem fqca_round_trip (version repo name : string) (l : qca_layout) :
  writable l → newline ∉ lit version → newline ∉ lit repo →
  ∃ t l', write_fqca_layout version repo l default_params = Done t ∧
    read_fqca_layout t name = Done l' ∧ get_layout_name (strg l') = name ∧
    (∀ c, inside (dimension_of l) c →
       get_cell_type (strg l') c = get_cell_type (strg l) c ∧
       get_cell_name (strg l') c = get_cell_name (strg l) c ∧
       is_pi (strg l') c = is_pi (strg l) c ∧ is_po (strg l') c = is_po (strg l) c ∧
       get_clock_number l' c =
         (if is_empty_cell (strg l) c || Qca.is_constant_cell (get_cell_type (strg l) c) then Some 0
          else get_clock_number l c) ∧
       get_cell_mode (strg l') c =
         (if is_empty_cell (strg l) c || (uz c =? 0) then Qca.MODE_NORMAL else Qca.MODE_VERTICAL)) ∧
    (∀ c, ¬ inside (dimension_of l) c → get_cell_type (strg l') c = Qca.EMPTY) ∧
    max_ok l (dimension_of l') (cells l).
Proof.
  intros Hl Hversion Hrepo. destruct (read_written version repo l Hl Hversion Hrepo name) as (n & y & Hread).
  set (r := foldl (define_cell l) (enter n y (scanned l name)) (labels l)) in *.
  exists (unlines (all_lines version repo l)), (resized r).
  assert (base_ok name r) as Hbase.
  { apply (foldl_preserves (base_ok name) (define_cell l)); [intros; by apply define_cell_base|].
    change (base_ok name (scanned l name)).
    apply (foldl_preserves (base_ok name) (scan_cell l)); [intros; by apply scan_cell_base|done]. }
  pose proof (read_view_spec version repo l Hl Hversion Hrepo name n y) as Hview. fold r in Hview.
  split_and!; [by apply write_lines|done|apply Hbase| |..].
  - intros c Hin. specialize (Hview c). unfold read_view in Hview. rewrite decide_True in Hview by done.
    destruct (resized_cells r c) as (-> & -> & -> & -> & ->).
    rewrite (resized_clock name) by (done || by eapply cell_wf || apply Hin).
    destruct (is_empty_cell (strg l) c) eqn:He.
    + rewrite Hview. by destruct (empty_cell_plain l c Hl He) as (-> & -> & -> & ->).
    + destruct (read_back version repo l Hl Hversion Hrepo c (view r c) He Hview Hin) as (-> & -> & -> & -> & -> & ->).
      simpl. split_and!; [done..| |by destruct (uz c =? 0)].
      destruct (Qca.is_constant_cell _); [done|]. by destruct (clock_known l Hl c) as [-> _].
  - intros c Hout. specialize (Hview c). unfold read_view in Hview. rewrite decide_False in Hview by done.
    destruct (resized_cells r c) as (-> & _). by rewrite Hview.
  - change (dimension_of (resized r)) with (max_cell_pos r). unfold r. rewrite define_cells_max.
    apply (scanned_max version repo l Hl Hversion Hrepo name).
Qed.

(** ** Examples *)

(** The conditions on cells, on the maps of the layout. *)
Definition cells_consistent (s : cell_level_layout_storage) : Prop :=
  map_Forall (λ c ct, ct ∈ [Qca.NORMAL; Qca.INPUT; Qca.OUTPUT; Qca.CONST_0; Qca.CONST_1] ∧
    (ct = Qca.INPUT → c ∈ inputs s) ∧ (ct = Qca.OUTPUT → c ∈ outputs s)) (cell_type_map s) ∧
  set_Forall (λ c, get_cell_type s c = Qca.INPUT) (inputs s) ∧
  set_Forall (λ c, get_cell_type s c = Qca.OUTPUT) (outputs s) ∧
  map_Forall (λ c n, get_cell_type s c ∈ [Qca.NORMAL; Qca.INPUT; Qca.OUTPUT] ∧ Forall (λ a, isspace a = false) (lit n))
    (cell_name_map s).

#[local] Instance cells_consistent_dec s : Decision (cells_consistent s).
Proof. unfold cells_consistent. apply _. Defined.

Lemma writable_intro l :
  proper_dimension (dimension_of l) → tile_size_x (strg l) ≠ 0 ∧ tile_size_y (strg l) ≠ 0 →
  scheme_wf (Clocked.clocking (clocked l)) → Clocked.num_clocks (clocked l) <= 4 →
  cells_consistent (strg l) → newline ∉ lit (get_layout_name (strg l)) →
  (length (labeled l) <= length ALPHABET)%nat → writable l.
Proof.
  intros Hd Ht Hs Hc (Hty & Hin & Hout & Hnm) Hn Hlab.
  assert (∀ c, get_cell_type (strg l) c ∈ [Qca.EMPTY; Qca.NORMAL; Qca.INPUT; Qca.OUTPUT; Qca.CONST_0; Qca.CONST_1]) as Htypes.
  { intros c. unfold get_cell_type. destruct (_ !! c) as [ct|] eqn:E; [|left]. right. apply (Hty c ct E). }
  assert (∀ c n, cell_name_map (strg l) !! c = Some n → get_cell_name (strg l) c = n) as Hname.
  { intros c n E. unfold get_cell_name. by rewrite E. }
  split; try done.
  - intros c. unfold is_pi. rewrite bool_decide_eq_true. split; [apply Hin|]. unfold get_cell_type.
    destruct (_ !! c) as [ct|] eqn:E; [|done]. apply (Hty c ct E).
  - intros c. unfold is_po. rewrite bool_decide_eq_true. split; [apply Hout|]. unfold get_cell_type.
    destruct (_ !! c) as [ct|] eqn:E; [|done]. apply (Hty c ct E).
  - intros c. unfold get_cell_name. destruct (_ !! c) as [n|] eqn:E; [|done]. intros _. apply (Hnm c n E).
  - intros c. unfold get_cell_name. destruct (_ !! c) as [n|] eqn:E; [|by apply Forall_nil]. apply (Hnm c n E).
Qed.

(** Two layers: a constant, an input and a wire below an output. *)
Definition crossing_cells : cell_level_layout_storage :=
  let s := assign_cell_type (blank "gate" 1 1) (ucoord3 2 0 0) Qca.CONST_0 in
  let s := assign_cell_type s (ucoord3 2 1 0) Qca.NORMAL in
  let s := assign_cell_name (assign_cell_type s (ucoord3 0 2 0) Qca.INPUT) (ucoord3 0 2 0) "a" in
  let s := assign_cell_mode (assign_cell_type s (ucoord3 1 1 1) Qca.OUTPUT) (ucoord3 1 1 1) Qca.MODE_CROSSOVER in s.
Definition crossing_layout : qca_layout :=
  CellLevelLayout (Clocked.make Cartesian.make (ucoord3 4 4 1) (twoddwave_clocking 4 FOUR)) crossing_cells.

Lemma fqca_round_trip_witness :
  ∃ t l', write_fqca_layout "1" "url" crossing_layout default_params = Done t ∧
    read_fqca_layout t "copy" = Done l' ∧ get_layout_name (strg l') = "copy" ∧
    (∀ c, inside (dimension_of crossing_layout) c →
       get_cell_type (strg l') c = get_cell_type (strg crossing_layout) c ∧
       get_cell_name (strg l') c = get_cell_name (strg crossing_layout) c ∧
       is_pi (strg l') c = is_pi (strg crossing_layout) c ∧ is_po (strg l') c = is_po (strg crossing_layout) c ∧
       get_clock_number l' c =
         (if is_empty_cell (strg crossing_layout) c || Qca.is_constant_cell (get_cell_type (strg crossing_layout) c)
          then Some 0 else get_clock_number crossing_layout c) ∧
       get_cell_mode (strg l') c =
         (if is_empty_cell (strg crossing_layout) c || (uz c =? 0) then Qca.MODE_NORMAL else Qca.MODE_VERTICAL)) ∧
    (∀ c, ¬ inside (dimension_of crossing_layout) c → get_cell_type (strg l') c = Qca.EMPTY) ∧
    max_ok crossing_layout (dimension_of l') (cells crossing_layout).
Proof.
  apply (fqca_round_trip "1" "url" "copy" crossing_layout); [|apply (bool_decide_unpack _); by vm_compute..].
  apply writable_intro; [by vm_compute|by vm_compute| |by vm_compute|apply (bool_decide_unpack _); by vm_compute..| ].
  - apply (registered_wf 4 None "2DDWAVE"). repeat constructor.
  - vm_compute. lia.
Defined.

(** What is read back of a layout, at a cell. *)
Definition reread (ps : write_fqca_layout_params) (l : qca_layout) (c : ucoord_t) : option (Z * string * Qca.cell_mode * option Z) :=
  match write_fqca_layout "1" "url" l ps with
  | Done t =>
      match read_fqca_layout t "copy" with
      | Done l' => Some (get_cell_type (strg l') c, get_cell_name (strg l') c, get_cell_mode (strg l') c, get_clock_number l' c)
      | _ => None
      end
  | _ => None
  end.
Definition with_cells (s : cell_level_layout_storage) : qca_layout :=
  CellLevelLayout (clocked crossing_layout) s.

(** Written with layers of vias, the third layer of the file is read as the ground layer, whose
    coordinates have one bit for the layer. *)
Lemma via_layers_fold :
  get_cell_type crossing_cells (ucoord3 1 1 0) = Qca.EMPTY ∧
  reread (Params true) crossing_layout (ucoord3 1 1 0) = Some (Qca.OUTPUT, "", Qca.MODE_NORMAL, Some 2) ∧
  reread (Params true) crossing_layout (ucoord3 1 1 1) = Some (Qca.EMPTY, "", Qca.MODE_NORMAL, Some 0).
Proof. by vm_compute. Qed.

(** Crossover cells become vertical ones. *)
Lemma crossovers_become_vertical :
  get_cell_mode crossing_cells (ucoord3 1 1 1) = Qca.MODE_CROSSOVER ∧
  reread default_params crossing_layout (ucoord3 1 1 1) = Some (Qca.OUTPUT, "", Qca.MODE_VERTICAL, Some 2).
Proof. by vm_compute. Qed.

(** Constant cells lose their clock number, and with a name also their type; names lose white space. *)
Lemma constants_and_names_change :
  get_clock_number crossing_layout (ucoord3 2 0 0) = Some 2 ∧
  reread default_params crossing_layout (ucoord3 2 0 0) = Some (Qca.CONST_0, "", Qca.MODE_NORMAL, Some 0) ∧
  reread default_params (with_cells (assign_cell_name crossing_cells (ucoord3 2 0 0) "zero bit")) (ucoord3 2 0 0) =
    Some (Qca.NORMAL, "zerobit", Qca.MODE_NORMAL, Some 2).
Proof. by vm_compute. Qed.
