(* ===== verification/GateCreation.v ===== *)
(** * The gates of a technology network

    The functions of the nodes that [create_not], [create_and], [create_or], [create_xor], [create_maj]
    and the n-ary creations append ([makes]), from the truth tables that a new network has and the
    documented behaviour of [tree_reduce] (class [KlutGates]). *)

From S2P Require Import Prelude.
From S2P Require Import GateLevelLayout.
From S2P Require Import MockturtleModel.
From S2P Require Import TechnologyNetwork.
From S2P Require Import TechnologyInvariant.
From S2P Require Import NetworkCopy.
From S2P Require Import KlutModel.
#[local] Open Scope Z_scope.
Import Technology.

(** ** Functions *)

Definition negation (vs : list bool) : bool := match vs with [a] => negb a | _ => false end.
Definition conjunction (vs : list bool) : bool := foldr andb true vs.
Definition disjunction (vs : list bool) : bool := foldr orb false vs.
Definition parity (vs : list bool) : bool := foldr xorb false vs.
Definition majority (vs : list bool) : bool :=
  match vs with [a; b; c] => (a && b) || (a && c) || (b && c) | _ => false end.

(** The Boolean monoids. *)

#[export] Instance andb_is_assoc : Assoc eq andb.
Proof. by intros [] [] []. Qed.
#[export] Instance andb_is_comm : Comm eq andb.
Proof. by intros [] []. Qed.
#[export] Instance andb_left_id : LeftId eq true andb.
Proof. by intros []. Qed.
#[export] Instance orb_is_assoc : Assoc eq orb.
Proof. by intros [] [] []. Qed.
#[export] Instance orb_is_comm : Comm eq orb.
Proof. by intros [] []. Qed.
#[export] Instance orb_left_id : LeftId eq false orb.
Proof. by intros []. Qed.
#[export] Instance xorb_is_assoc : Assoc eq xorb.
Proof. by intros [] [] []. Qed.
#[export] Instance xorb_is_comm : Comm eq xorb.
Proof. by intros [] []. Qed.
#[export] Instance xorb_left_id : LeftId eq false xorb.
Proof. by intros []. Qed.

(** The literals of the truth tables by which gates are created: their arities and functions. *)
Definition gate_functions : list (Z * (nat * (list bool → bool))) :=
  [(3, (1%nat, negation)); (4, (2%nat, conjunction)); (6, (2%nat, disjunction)); (12, (2%nat, parity));
   (14, (3%nat, majority))].

(** A valid literal under which its truth table is found. *)
Definition canonical `{Klut} (c : truth_table_cache) (k : Z) : Prop :=
  valid_literal c k ∧ GateLevel.cache_insert c (GateLevel.cache_at c k) = (k, c).

(** The truth tables of a new network, and the cache: a truth table that was inserted is found again,
    also after others are inserted. [tree_reduce] combines signals pairwise: where the function
    combines two signals that represent elements of a commutative monoid, and keeps what the signals
    represent, the result represents the sum. *)
Class KlutGates `{MT : GateLevel.Mockturtle} `{K : !Klut} := {
  gate_table : Z → truth_table;
  klut_new_tables k n f :
    (k, (n, f)) ∈ gate_functions →
    canonical (cache klut_new) k ∧ GateLevel.cache_at (cache klut_new) k = gate_table k;
  eval_gate_table k n f vs :
    (k, (n, f)) ∈ gate_functions → length vs = n → eval_table (gate_table k) vs = f vs;
  klut_insert_again c f :
    GateLevel.cache_insert (GateLevel.cache_insert c f).2 f = GateLevel.cache_insert c f;
  klut_insert_stable c f g k :
    GateLevel.cache_insert c f = (k, c) →
    GateLevel.cache_insert (GateLevel.cache_insert c g).2 f = (k, (GateLevel.cache_insert c g).2);
  klut_tree_reduce (valid : network → Prop) (later : network → network → Prop)
      (represents : network → Z → bool → Prop) (op : bool → bool → bool) (e : bool)
      (init : Z) (f : network → Z → Z → option (network * Z)) (s : network) fs bs :
    PreOrder later → Assoc eq op → Comm eq op → LeftId eq e op →
    (∀ s s' x b, later s s' → represents s x b → represents s' x b) →
    (∀ s x y a b, valid s → represents s x a → represents s y b →
       ∃ s' z, f s x y = Some (s', z) ∧ valid s' ∧ later s s' ∧ represents s' z (op a b)) →
    valid s → represents s init e → Forall2 (represents s) fs bs →
    ∃ s' z, tree_reduce fs init f s = Some (s', z) ∧ valid s' ∧ later s s' ∧
      represents s' z (foldr op e bs);
}.

(** Relates lists of signals and functions element by element. *)
Ltac signals := repeat (apply Forall2_cons_2; [done|]); apply Forall2_nil_2.

Section Creation.
Context `{MT : GateLevel.Mockturtle} `{K : !Klut} `{ML : !GateLevel.MockturtleLaws} `{KL : !KlutLaws}.
Context `{KG : !KlutGates}.
Implicit Types (s : network) (ins : list bool) (cs : list Z).

(** The cache has the tables of the gates. *)
Definition gate_tables (c : truth_table_cache) : Prop :=
  ∀ k n f, (k, (n, f)) ∈ gate_functions → canonical c k ∧ GateLevel.cache_at c k = gate_table k.

(** A cache after further insertions. *)
Definition inserted (c c' : truth_table_cache) : Prop := ∃ f, c' = (GateLevel.cache_insert c f).2.

Lemma inserted_canonical c c' k :
  rtc inserted c c' → canonical c k → canonical c' k ∧ GateLevel.cache_at c' k = GateLevel.cache_at c k.
Proof.
  induction 1 as [|c c1 c' [f ->] _ IH]; [done|]. intros [Hk Hi].
  pose proof (cache_insert_keeps c f k Hk) as E. destruct IH as [Hc' E'].
  - split; [destruct Hk; split; [done|pose proof (cache_size_insert c f); lia]|].
    rewrite E. by apply klut_insert_stable.
  - split; [done|congruence].
Qed.

Lemma inserted_tables c c' : rtc inserted c c' → gate_tables c → gate_tables c'.
Proof.
  intros Hi Ht k n f Hk. destruct (Ht k n f Hk) as [Hc E].
  destruct (inserted_canonical c c' k Hi Hc) as [? ->]. done.
Qed.

Lemma cache_insert_canonical c f :
  canonical (GateLevel.cache_insert c f).2 (GateLevel.cache_insert c f).1.
Proof.
  split; [apply cache_insert_literal|]. rewrite GateLevel.cache_at_insert, klut_insert_again.
  apply surjective_pairing.
Qed.

(** A well-formed network with the tables of the gates. *)
Definition ready s : Prop := network_wf s ∧ gate_tables (cache s).

(** A network grows by gates. *)
Record grows s s' : Prop := {
  grows_extends : extends s s';
  grows_outputs : outputs s' = outputs s;
  grows_cache : rtc inserted (cache s) (cache s');
  grows_wf : network_wf s → network_wf s';
}.

Lemma grows_ready s s' : grows s s' → ready s → ready s'.
Proof. intros Hg [Hs Ht]. split; [by apply Hg|]. eapply inserted_tables, Ht. apply Hg. Qed.

#[export] Instance grows_preorder : PreOrder grows.
Proof.
  split.
  - intros s. by split.
  - intros a b c [] []. split; [by etrans|congruence|by etrans|eauto].
Qed.

(** The creation of a signal with a function of the inputs. *)
Definition is_signal s (v : list bool → bool) x : Prop :=
  0 <= x < num_nodes s ∧ ∀ ins, value s ins x = v ins.
Definition makes s (r : option (network * Z)) (v : list bool → bool) : Prop :=
  ∃ s' x, r = Some (s', x) ∧ grows s s' ∧ is_signal s' v x.

Lemma is_signal_grows s s' v x : ready s → grows s s' → is_signal s v x → is_signal s' v x.
Proof.
  intros Hs Hg [Hx Hv]. pose proof (extends_num_nodes _ _ (grows_extends _ _ Hg)). split; [lia|].
  intros ins. rewrite <-Hv. apply extends_value; [apply Hs|by apply (grows_ready _ _ Hg)|apply Hg|done].
Qed.

Lemma gate_added_grows s cs k s' : added s cs k s' → rtc inserted (cache s) (cache s') → grows s s'.
Proof. intros Ha Hc. split; [apply Ha|apply Ha|done|by intros _; apply Ha]. Qed.

Lemma create_node_cache s cs f s' x :
  cs ≠ [] → create_node s cs f = Some (s', x) → Forall (λ c, 0 <= c < num_nodes s) cs →
  cache s' = (GateLevel.cache_insert (cache s) f).2.
Proof.
  intros Hne E Hcs. destruct cs as [|c cs]; [done|]. unfold create_node in E.
  destruct (create_node_from_literal_appends (set_cache (GateLevel.cache_insert (cache s) f).2 s) (c :: cs)
    (GateLevel.cache_insert (cache s) f).1) as (s2 & E2 & Ha); [done|].
  assert (s2 = s') as -> by congruence. by destruct (app_rest _ _ _ _ Ha) as (_ & _ & ->).
Qed.

(** A new node on signals with known functions. *)
Lemma added_makes s cs k s' (vs : list (list bool → bool)) (f : list bool → bool) :
  ready s → added s cs k s' → rtc inserted (cache s) (cache s') → Forall2 (λ c v, is_signal s v c) cs vs →
  (∀ bs, length bs = length cs → eval_table (GateLevel.cache_at (cache s') k) bs = f bs) →
  makes s (Some (s', num_nodes s)) (λ ins, f ((λ v, v ins) <$> vs)).
Proof.
  intros Hs Ha Hi Hcs Hf. pose proof (gate_added_grows _ _ _ _ Ha Hi) as Hg.
  exists s', (num_nodes s). split_and!; [done|done|]. pose proof (added_num _ _ _ _ Ha).
  pose proof (wf_constants _ (proj1 Hs)). split; [lia|]. intros ins.
  rewrite (added_value s cs k) by (exact (proj1 Hs) || done). rewrite Hf by (by rewrite length_fmap). f_equal.
  clear -Hcs Hs Hg KL. induction Hcs as [|c v cs vs Hc _ IH]; [done|]. rewrite !fmap_cons, IH. f_equal.
  by apply (is_signal_grows _ _ _ _ Hs Hg Hc).
Qed.

Lemma signals_range s cs vs :
  Forall2 (λ c v, is_signal s v c) cs vs → Forall (λ c, 0 <= c < num_nodes s) cs.
Proof. induction 1 as [|c v cs vs [Hc _] _ IH]; by constructor. Qed.

Lemma create_gate_makes s cs k n f vs :
  ready s → (k, (n, f)) ∈ gate_functions → n ≠ O → length cs = n →
  Forall2 (λ c v, is_signal s v c) cs vs →
  makes s (create_node_from_literal s cs k) (λ ins, f ((λ v, v ins) <$> vs)).
Proof.
  intros Hs Hk Hn Hl Hcs. destruct (proj2 Hs k n f Hk) as [[Hv _] E].
  destruct (create_node_from_literal_spec s cs k) as (s' & -> & Ha & Hc); [apply Hs|..|done|].
  { by eapply signals_range. }
  { by intros ->. }
  apply (added_makes s cs k s' vs f Hs Ha); [by rewrite Hc|done|]. intros bs Hbs. rewrite Hc, E.
  eapply eval_gate_table; [done|congruence].
Qed.

Lemma two_signals s a b va vb :
  is_signal s va a → is_signal s vb b → Forall2 (λ c v, is_signal s v c) [a; b] [va; vb].
Proof. intros Ha Hb. signals. Qed.

Lemma create_and_makes s a b va vb :
  ready s → is_signal s va a → is_signal s vb b → makes s (create_and s a b) (λ ins, conjunction [va ins; vb ins]).
Proof.
  intros Hs Ha Hb. apply (create_gate_makes s [a; b] 4 2 conjunction [va; vb]); try done.
  - set_solver.
  - by apply two_signals.
Qed.
Lemma create_or_makes s a b va vb :
  ready s → is_signal s va a → is_signal s vb b → makes s (create_or s a b) (λ ins, disjunction [va ins; vb ins]).
Proof.
  intros Hs Ha Hb. apply (create_gate_makes s [a; b] 6 2 disjunction [va; vb]); try done.
  - set_solver.
  - by apply two_signals.
Qed.
Lemma create_xor_makes s a b va vb :
  ready s → is_signal s va a → is_signal s vb b → makes s (create_xor s a b) (λ ins, parity [va ins; vb ins]).
Proof.
  intros Hs Ha Hb. apply (create_gate_makes s [a; b] 12 2 parity [va; vb]); try done.
  - set_solver.
  - by apply two_signals.
Qed.
Lemma create_maj_makes s a b c va vb vc :
  ready s → is_signal s va a → is_signal s vb b → is_signal s vc c →
  makes s (create_maj s a b c) (λ ins, majority [va ins; vb ins; vc ins]).
Proof.
  intros Hs Ha Hb Hc. apply (create_gate_makes s [a; b; c] 14 3 majority [va; vb; vc]); try done.
  - set_solver.
  - signals.
Qed.

Lemma create_buf_makes s a v : ready s → is_signal s v a → makes s (create_buf s a) v.
Proof.
  intros Hs Ha. destruct (create_buf_spec s a) as (s' & -> & Had & Hc); [apply Hs|apply Ha|].
  exists s', (num_nodes s). pose proof (added_num _ _ _ _ Had). pose proof (wf_constants _ (proj1 Hs)).
  split_and!; [done|eapply gate_added_grows; [done|by rewrite Hc]|]. split; [lia|]. intros ins.
  rewrite (added_buf_value s a) by (exact (proj1 Hs) || exact (proj1 Ha) || done). exact (proj2 Ha ins).
Qed.

(** The negation of a constant is the other constant. *)
Lemma create_not_makes s a v : ready s → is_signal s v a → makes s (create_not s a) (λ ins, negb (v ins)).
Proof.
  intros Hs Ha. unfold create_not. rewrite klut_is_constant. case_bool_decide as Hc.
  - rewrite klut_constant_value, klut_get_constant. pose proof (wf_constants _ (proj1 Hs)).
    exists s, (Z.b2z (negb (a =? 1))). split_and!; [done|done|]. split; [destruct (a =? 1); simpl; lia|].
    intros ins. destruct Ha as [_ Ha]. rewrite <-Ha, !value_constant by (exact (proj1 Hs) || done || (destruct (a =? 1); auto)).
    by destruct (a =? 1).
  - assert (makes s (create_node_from_literal s [a] 3) (λ ins, negation ((λ w, w ins) <$> [v]))) as (s' & x & E & H); [|by exists s', x].
    apply (create_gate_makes s [a] 3 1 negation [v]); try done.
    + set_solver.
    + signals.
Qed.

(** *** n-ary gates *)

Lemma constant_signal s b : ready s → is_signal s (λ _, b) (get_constant b).
Proof.
  intros [Hs _]. pose proof (wf_constants _ Hs). rewrite klut_get_constant.
  split; [destruct b; simpl; lia|]. intros ins. rewrite value_constant by (done || destruct b; auto). by destruct b.
Qed.

Section Nary.
Context (op : bool → bool → bool) (e : bool) {A : Assoc eq op} {C : Comm eq op} {I : LeftId eq e op}.
Context (create : network → Z → Z → option (network * Z)).
Context (Hcreate : ∀ s a b va vb, ready s → is_signal s va a → is_signal s vb b →
  makes s (create s a b) (λ ins, foldr op e [va ins; vb ins])).

(** For fixed values of the inputs. *)
Lemma tree_reduce_at ins s cs (vs : list (list bool → bool)) :
  ready s → Forall2 (λ c v, is_signal s v c) cs vs →
  ∃ s' x, tree_reduce cs (get_constant e) create s = Some (s', x) ∧ grows s s' ∧
    0 <= x < num_nodes s' ∧ value s' ins x = foldr op e ((λ v, v ins) <$> vs).
Proof.
  intros Hs Hcs.
  set (rep := λ s x b, 0 <= x < num_nodes s ∧ value s ins x = b ∧ ready s).
  destruct (klut_tree_reduce ready grows rep op e (get_constant e) create s cs ((λ v, v ins) <$> vs))
    as (s' & x & E & Hs' & Hg & Hx & Hv & _); try apply _.
  - intros t t' x b Hg (Hx & Hv & Ht). destruct (is_signal_grows t t' (λ ins, value t ins x) x Ht Hg) as [Hx' Hv'].
    { by split. }
    split; [done|]. split; [by rewrite <-Hv; apply Hv'|by apply (grows_ready _ _ Hg)].
  - intros t x y a b Ht (Hx & Ha & _) (Hy & Hb & _).
    destruct (Hcreate t x y (λ ins, value t ins x) (λ ins, value t ins y)) as (t' & z & E & Hg & Hz & Hv); [done|by split|by split|].
    pose proof (grows_ready _ _ Hg Ht). exists t', z. split_and!; [done..|].
    split; [done|]. split; [|done]. rewrite Hv. simpl. rewrite Ha, Hb.
    by rewrite (comm_L op b e), (left_id_L e op b).
  - done.
  - destruct (constant_signal s e Hs) as [Hx Hv]. split; [done|]. by split.
  - clear -Hcs Hs KL. induction Hcs as [|c v cs vs [Hc Hv] _ IH]; [constructor|]. constructor; [|done].
    split; [done|]. by split.
  - eauto 10.
Qed.

Lemma tree_reduce_makes s cs vs :
  ready s → Forall2 (λ c v, is_signal s v c) cs vs →
  makes s (tree_reduce cs (get_constant e) create s) (λ ins, foldr op e ((λ v, v ins) <$> vs)).
Proof.
  intros Hs Hcs. destruct (tree_reduce_at [] s cs vs Hs Hcs) as (s' & x & E & Hg & Hx & _).
  exists s', x. split_and!; [done|done|]. split; [done|]. intros ins.
  destruct (tree_reduce_at ins s cs vs Hs Hcs) as (s2 & x2 & E2 & _ & _ & Hv). congruence.
Qed.
End Nary.

Lemma create_nary_and_makes s cs vs :
  ready s → Forall2 (λ c v, is_signal s v c) cs vs →
  makes s (create_nary_and s cs) (λ ins, conjunction ((λ v, v ins) <$> vs)).
Proof.
  apply (tree_reduce_makes andb true create_and), create_and_makes.
Qed.
Lemma create_nary_or_makes s cs vs :
  ready s → Forall2 (λ c v, is_signal s v c) cs vs →
  makes s (create_nary_or s cs) (λ ins, disjunction ((λ v, v ins) <$> vs)).
Proof.
  apply (tree_reduce_makes orb false create_or), create_or_makes.
Qed.
Lemma create_nary_xor_makes s cs vs :
  ready s → Forall2 (λ c v, is_signal s v c) cs vs →
  makes s (create_nary_xor s cs) (λ ins, parity ((λ v, v ins) <$> vs)).
Proof.
  apply (tree_reduce_makes xorb false create_xor), create_xor_makes.
Qed.

(** A node with a given function. *)
Lemma create_node_makes s cs f vs :
  ready s → cs ≠ [] → Forall2 (λ c v, is_signal s v c) cs vs →
  makes s (create_node s cs f) (λ ins, eval_table f ((λ v, v ins) <$> vs)).
Proof.
  intros Hs Hne Hcs. pose proof (signals_range s cs vs Hcs) as Hr.
  destruct (create_node_spec s cs f) as (s' & E & Ha & Hf); [apply Hs|done|done|].
  pose proof (create_node_cache s cs f s' _ Hne E Hr) as Hc. rewrite E.
  apply (added_makes s cs _ s' vs (eval_table f) Hs Ha); [|done|by intros bs _; rewrite Hf].
  rewrite Hc. apply rtc_once. by exists f.
Qed.

(** *** Initial networks and outputs *)

Lemma make_tables : gate_tables (cache make).
Proof.
  eapply inserted_tables; [|exact klut_new_tables]. unfold make, add_additional_functions.
  generalize [0x52; 0x80; 0x28; 0xa8; 0x16; 0x81; 0x6a]. generalize klut_new. intros s words. revert s.
  induction words as [|w words IH]; intros s; [done|]. simpl.
  eapply rtc_l; [by eexists|]. exact (IH (set_cache _ s)).
Qed.

(** A network of inputs only. *)
Lemma initial_ready (v : list Z) : ready (foldl (λ d _, (create_pi d).1) make v).
Proof.
  split; [apply foldl_only_inputs|]. pose proof make_tables as Hs. revert Hs. generalize make.
  induction v as [|i v IH]; intros s Hs; [done|]. simpl. apply IH.
  by destruct (klut_create_pi s) as (d & -> & _).
Qed.

Lemma create_po_cache s o : 0 <= o < num_nodes s → cache (create_po s o) = cache s.
Proof.
  intros Ho. destruct (incr_ref_some s o Ho) as (s1 & E & Hr). rewrite (klut_create_po _ _ _ E).
  cbn [set_outputs cache]. apply (ref_rest _ _ _ Hr).
Qed.

Lemma create_po_ready s o : ready s → 0 <= o < num_nodes s → ready (create_po s o).
Proof.
  intros [Hs Ht] Ho. split; [by apply create_po_spec|]. by rewrite create_po_cache.
Qed.
End Creation.

(** ** The instance *)

Lemma gate_functions_cases k n f :
  (k, (n, f)) ∈ gate_functions →
  (k = 3 ∧ n = 1%nat ∧ f = negation) ∨ (k = 4 ∧ n = 2%nat ∧ f = conjunction) ∨
  (k = 6 ∧ n = 2%nat ∧ f = disjunction) ∨ (k = 12 ∧ n = 2%nat ∧ f = parity) ∨
  (k = 14 ∧ n = 3%nat ∧ f = majority).
Proof.
  unfold gate_functions. rewrite !elem_of_cons. intros [[= -> -> ->]|Hk]; [by left|]. right.
  destruct Hk as [[= -> -> ->]|Hk]; [by left|]. right. destruct Hk as [[= -> -> ->]|Hk]; [by left|]. right.
  destruct Hk as [[= -> -> ->]|Hk]; [by left|]. right.
  destruct Hk as [[= -> -> ->]|Hk]; [done|]. by apply not_elem_of_nil in Hk.
Qed.

Lemma table_insert_found c f : f ∈ c → ∃ k, cache_index c f = (k, c) ∧ (k < length c)%nat ∧
  ∀ c', cache_index (c ++ c') f = (k, c ++ c').
Proof.
  induction c as [|g c IH]; intros Hf; [by apply not_elem_of_nil in Hf|]. simpl.
  case_decide as E; [exists O; split_and!; [done|lia|done]|].
  apply elem_of_cons in Hf as [?|Hf]; [congruence|]. destruct (IH Hf) as (k & -> & Hk & Happ).
  exists (S k). split_and!; [done|lia|]. intros c'. by rewrite Happ.
Qed.

Lemma cache_index_fresh c f : f ∉ c → cache_index c f = (length c, c ++ [f]).
Proof.
  intros Hf. destruct (cache_index_spec c f) as [(k & Hk & _)|[_ E]]; [|done].
  by apply list_elem_of_lookup_2 in Hk.
Qed.

Lemma cache_index_last c f : f ∉ c → cache_index (c ++ [f]) f = (length c, c ++ [f]).
Proof.
  induction c as [|g c IH]; intros Hf; simpl; [by rewrite decide_True|].
  apply not_elem_of_cons in Hf as [? Hf]. rewrite decide_False by done. by rewrite IH.
Qed.

Lemma list_insert_again c f : table_insert (table_insert c f).2 f = table_insert c f.
Proof.
  unfold table_insert. destruct (normalize f) as [g b]. cbn [fst snd].
  destruct (decide (g ∈ c)) as [(k & E & _)%table_insert_found|Hg]; [rewrite E; cbn [fst snd]; by rewrite E|].
  rewrite (cache_index_fresh c g Hg). cbn [fst snd]. by rewrite cache_index_last.
Qed.

Lemma list_insert_stable c f g k :
  table_insert c f = (k, c) → table_insert (table_insert c g).2 f = (k, (table_insert c g).2).
Proof.
  intros Hf. assert (∃ c', (table_insert c g).2 = c ++ c') as [c' ->].
  { destruct (table_insert_cases c g) as (? & ? & _ & [[-> _]|(h & _ & _ & -> & _)]); [|by eexists].
    exists []. by rewrite app_nil_r. }
  unfold table_insert in *. destruct (normalize f) as [h b]. cbn [fst snd] in *.
  destruct (decide (h ∈ c)) as [(i & E & _ & Happ)%table_insert_found|Hh].
  - rewrite E in Hf. rewrite Happ. cbn [fst snd] in *. congruence.
  - rewrite (cache_index_fresh c h Hh) in Hf. cbn [fst snd] in Hf. injection Hf as _ Hc.
    apply (f_equal length) in Hc. rewrite length_app in Hc. simpl in Hc. lia.
Qed.

#[export] Instance list_klut_gates : KlutGates (MT := table_mockturtle) (K := list_klut).
Proof.
  apply (Build_KlutGates _ _ (table_at list_tables : Z → @GateLevel.truth_table table_mockturtle)).
  - intros k n f Hk. apply gate_functions_cases in Hk.
    destruct Hk as [(-> & _)|[(-> & _)|[(-> & _)|[(-> & _)|(-> & _)]]]];
      (split; [split; [split|]|]); by vm_compute.
  - intros k n f vs Hk. apply gate_functions_cases in Hk.
    destruct Hk as [(-> & -> & ->)|[(-> & -> & ->)|[(-> & -> & ->)|[(-> & -> & ->)|(-> & -> & ->)]]]];
      destruct vs as [|[] [|[] [|[] [|]]]]; done.
  - exact list_insert_again.
  - exact list_insert_stable.
  - intros valid later rep op e init f s fs bs P A C I Hkeep Hf Hs Hinit Hfs. simpl.
    destruct Hfs as [|x b fs bs Hx Hfs]; [by exists s, init|]. simpl.
    enough (∀ s x b, valid s → rep s x b → Forall2 (rep s) fs bs →
      ∃ s' z, foldl (λ r y, r ← r; f r.1 r.2 y) (Some (s, x)) fs = Some (s', z) ∧ valid s' ∧ later s s' ∧
        rep s' z (op b (foldr op e bs))) as H by (by apply H).
    clear s x b Hs Hinit Hx Hfs. revert bs. induction fs as [|y fs IH]; intros bs s x b Hs Hx Hfs.
    + inversion_clear Hfs. exists s, x. split_and!; [done..|]. simpl. by rewrite (comm_L op), (left_id_L e op).
    + apply Forall2_cons_inv_l in Hfs as (a & bs' & Hy & Hfs & ->). cbn [foldl mbind option_bind].
      destruct (Hf s x y b a Hs Hx Hy) as (s1 & z1 & E1 & Hs1 & Hl1 & Hz1). cbn [fst snd]. rewrite E1.
      destruct (IH bs' s1 z1 (op b a) Hs1 Hz1) as (s2 & z2 & E2 & Hs2 & Hl2 & Hz2).
      { eapply Forall2_impl; [exact Hfs|]. intros i j. by apply Hkeep. }
      exists s2, z2. split_and!; [done|done|by etrans|]. simpl. by rewrite (assoc_L op).
Defined.
