(* ===== verification/NetworkConversion.v ===== *)
(** * Conversion of networks
      (include/fiction/algorithms/network_transformation/network_conversion.hpp)

    [convert_network] from a network of any type to a technology network, where the types differ: the
    source is given by class [Source], whose optional members are those that the code tests for at
    compile time. The networks are combinational and without names. *)

From S2P Require Import Prelude.
From S2P Require Import GateLevelLayout.
From S2P Require Import TechnologyNetwork.
From S2P Require Import TechnologyInvariant.
From S2P Require Import NetworkCopy.
From S2P Require Import GateCreation.
#[local] Open Scope Z_scope.
Import Technology.

(** ** The source network *)

(** The members of a network type. Signals are nodes with a complement. *)
Class Source `{GateLevel.Mockturtle} := {
  source : Type;
  source_signal : Type;
  src_get_node : source → source_signal → Z;
  src_is_complemented : source → source_signal → bool;
  src_foreach_pi : source → list Z;
  (** [foreach_gate] and [foreach_po] of [topo_view{ntk}]. *)
  src_foreach_gate : source → list Z;
  src_foreach_po : source → list source_signal;
  src_foreach_fanin : source → Z → list source_signal;
  src_initialize_copy_network : source → network * gmap Z Z;
  (** Members that the type may not have. *)
  src_is_and : option (source → Z → bool);
  src_is_or : option (source → Z → bool);
  src_is_xor : option (source → Z → bool);
  src_is_maj : option (source → Z → bool);
  src_is_nary_and : option (source → Z → bool);
  src_is_nary_or : option (source → Z → bool);
  src_is_nary_xor : option (source → Z → bool);
  src_is_buf : option (source → Z → bool);
  src_node_function : option (source → Z → truth_table);
}.

Section Conversion.
Context `{MT : GateLevel.Mockturtle} `{K : !Klut} `{S : !Source}.
Implicit Types (ntk : source) (ntk_dest : network) (old2new : gmap Z Z) (g n : Z).

(** A member that the type has holds. *)
Definition holds (member : option (source → Z → bool)) ntk g : bool :=
  match member with Some p => p ntk g | None => false end.

(** [old2new[n]] of a [node_map], whose entries are value-initialized. *)
Definition new_signal old2new n : Z := default 0 (old2new !! n).

Definition target_signal ntk ntk_dest old2new (f : source_signal) : option (network * Z) :=
  let tgt_signal := new_signal old2new (src_get_node ntk f) in
  if src_is_complemented ntk f then create_not ntk_dest tgt_signal else Some (ntk_dest, tgt_signal).

(** The functor [gather_fanin_signals]. *)
Fixpoint gather_signals ntk ntk_dest old2new (fs : list source_signal) : option (network * list Z) :=
  match fs with
  | [] => Some (ntk_dest, [])
  | f :: fs' =>
      '(ntk_dest, x) ← target_signal ntk ntk_dest old2new f;
      '(ntk_dest, children) ← gather_signals ntk ntk_dest old2new fs';
      Some (ntk_dest, x :: children)
  end.
Definition gather_fanin_signals ntk ntk_dest old2new n : option (network * list Z) :=
  gather_signals ntk ntk_dest old2new (src_foreach_fanin ntk n).

(** The gate that is created for [g], if one is. *)
Definition create_gate ntk ntk_dest (children : list Z) g : option (network * option Z) :=
  let created (r : option (network * Z)) : option (network * option Z) :=
    '(s, x) ← r; Some (s, Some x) in
  if holds src_is_and ntk g then
    a ← children !! 0%nat; b ← children !! 1%nat; created (create_and ntk_dest a b)
  else if holds src_is_or ntk g then
    a ← children !! 0%nat; b ← children !! 1%nat; created (create_or ntk_dest a b)
  else if holds src_is_xor ntk g then
    a ← children !! 0%nat; b ← children !! 1%nat; created (create_xor ntk_dest a b)
  else if holds src_is_maj ntk g then
    a ← children !! 0%nat; b ← children !! 1%nat; c ← children !! 2%nat;
    created (create_maj ntk_dest a b c)
  else if holds src_is_nary_and ntk g then created (create_nary_and ntk_dest children)
  else if holds src_is_nary_or ntk g then created (create_nary_or ntk_dest children)
  else if holds src_is_nary_xor ntk g then created (create_nary_xor ntk_dest children)
  else if holds src_is_buf ntk g then a ← children !! 0%nat; created (create_buf ntk_dest a)
  else match src_node_function with
       | Some node_function => created (create_node ntk_dest children (node_function ntk g))
       | None => Some (ntk_dest, None)
       end.

(** The functor of [foreach_gate]. *)
Definition convert_gate ntk (st : network * gmap Z Z) g : option (network * gmap Z Z) :=
  let '(ntk_dest, old2new) := st in
  '(ntk_dest, children) ← gather_fanin_signals ntk ntk_dest old2new g;
  '(ntk_dest, x) ← create_gate ntk ntk_dest children g;
  Some (ntk_dest, match x with Some x => <[g := x]> old2new | None => old2new end).

Fixpoint convert_gates ntk (st : network * gmap Z Z) (gs : list Z) : option (network * gmap Z Z) :=
  match gs with
  | [] => Some st
  | g :: gs' => st ← convert_gate ntk st g; convert_gates ntk st gs'
  end.

(** The functor of [foreach_po]. *)
Fixpoint convert_outputs ntk ntk_dest old2new (pos : list source_signal) : option network :=
  match pos with
  | [] => Some ntk_dest
  | po :: pos' =>
      '(ntk_dest, tgt_po) ← target_signal ntk ntk_dest old2new po;
      convert_outputs ntk (create_po ntk_dest tgt_po) old2new pos'
  end.

Definition convert_network ntk : option network :=
  '(ntk_dest, old2new) ← convert_gates ntk (src_initialize_copy_network ntk) (src_foreach_gate ntk);
  convert_outputs ntk ntk_dest old2new (src_foreach_po ntk).
End Conversion.

(** ** The functions of the source *)

(** The documented behaviour of the members on well-formed networks: the values of its nodes for
    values of the inputs, the order of its gates, the copy of its inputs, and what the kinds of gates
    compute. *)
Class SourceLaws `{MT : GateLevel.Mockturtle} `{K : !Klut} `{S : !Source} := {
  src_wf : source → Prop;
  src_value : source → list bool → Z → bool;
  src_signal_value ntk ins f :=
    xorb (src_is_complemented ntk f) (src_value ntk ins (src_get_node ntk f));
  src_fanin_values ntk ins g := src_signal_value ntk ins <$> src_foreach_fanin ntk g;
  src_copy_network ntk :
    src_wf ntk →
    (src_initialize_copy_network ntk).1 = foldl (λ d _, (create_pi d).1) make (src_foreach_pi ntk);
  src_copy_sources ntk n m :
    src_wf ntk → (src_initialize_copy_network ntk).2 !! n = Some m →
    (∃ b, m = get_constant b ∧ ∀ ins, src_value ntk ins n = b) ∨
    (∃ i, src_foreach_pi ntk !! i = Some n ∧ m = 2 + Z.of_nat i ∧
       ∀ ins, src_value ntk ins n = nth i ins false);
  src_order ntk pre g post f :
    src_wf ntk → src_foreach_gate ntk = pre ++ g :: post → f ∈ src_foreach_fanin ntk g →
    is_Some ((src_initialize_copy_network ntk).2 !! src_get_node ntk f) ∨ src_get_node ntk f ∈ pre;
  src_outputs ntk po :
    src_wf ntk → po ∈ src_foreach_po ntk →
    is_Some ((src_initialize_copy_network ntk).2 !! src_get_node ntk po) ∨
    src_get_node ntk po ∈ src_foreach_gate ntk;
  src_fanins ntk g : src_wf ntk → g ∈ src_foreach_gate ntk → src_foreach_fanin ntk g ≠ [];
  src_and ntk g :
    src_wf ntk → g ∈ src_foreach_gate ntk → holds src_is_and ntk g = true →
    length (src_foreach_fanin ntk g) = 2%nat ∧
    ∀ ins, src_value ntk ins g = conjunction (src_fanin_values ntk ins g);
  src_or ntk g :
    src_wf ntk → g ∈ src_foreach_gate ntk → holds src_is_or ntk g = true →
    length (src_foreach_fanin ntk g) = 2%nat ∧
    ∀ ins, src_value ntk ins g = disjunction (src_fanin_values ntk ins g);
  src_xor ntk g :
    src_wf ntk → g ∈ src_foreach_gate ntk → holds src_is_xor ntk g = true →
    length (src_foreach_fanin ntk g) = 2%nat ∧
    ∀ ins, src_value ntk ins g = parity (src_fanin_values ntk ins g);
  src_maj ntk g :
    src_wf ntk → g ∈ src_foreach_gate ntk → holds src_is_maj ntk g = true →
    length (src_foreach_fanin ntk g) = 3%nat ∧
    ∀ ins, src_value ntk ins g = majority (src_fanin_values ntk ins g);
  src_nary_and ntk g :
    src_wf ntk → g ∈ src_foreach_gate ntk → holds src_is_nary_and ntk g = true →
    ∀ ins, src_value ntk ins g = conjunction (src_fanin_values ntk ins g);
  src_nary_or ntk g :
    src_wf ntk → g ∈ src_foreach_gate ntk → holds src_is_nary_or ntk g = true →
    ∀ ins, src_value ntk ins g = disjunction (src_fanin_values ntk ins g);
  src_nary_xor ntk g :
    src_wf ntk → g ∈ src_foreach_gate ntk → holds src_is_nary_xor ntk g = true →
    ∀ ins, src_value ntk ins g = parity (src_fanin_values ntk ins g);
  src_buf ntk g :
    src_wf ntk → g ∈ src_foreach_gate ntk → holds src_is_buf ntk g = true →
    ∀ ins, src_fanin_values ntk ins g = [src_value ntk ins g];
  src_function ntk g node_function :
    src_wf ntk → g ∈ src_foreach_gate ntk → src_node_function = Some node_function →
    ∀ ins, src_value ntk ins g = eval_table (node_function ntk g) (src_fanin_values ntk ins g);
}.

(** The values of the outputs. *)
Definition src_simulate `{SourceLaws} (ntk : source) (ins : list bool) : list bool :=
  src_signal_value ntk ins <$> src_foreach_po ntk.

(** A gate that the conversion knows how to create. *)
Definition known_gate `{Source} (ntk : source) (g : Z) : bool :=
  holds src_is_and ntk g || holds src_is_or ntk g || holds src_is_xor ntk g || holds src_is_maj ntk g ||
  holds src_is_nary_and ntk g || holds src_is_nary_or ntk g || holds src_is_nary_xor ntk g ||
  holds src_is_buf ntk g || bool_decide (is_Some src_node_function).

(** ** Correctness *)

Section Correct.
Context `{MT : GateLevel.Mockturtle} `{K : !Klut} `{ML : !GateLevel.MockturtleLaws} `{KL : !KlutLaws}.
Context `{KG : !KlutGates} `{S : !Source} `{SL : !SourceLaws}.
Context (ntk : source) (Hntk : src_wf ntk).
Implicit Types (s : network) (old2new : gmap Z Z) (g n : Z) (ins : list bool).

(** The functions of nodes and signals of the source. *)
Definition node_fn n (ins : list bool) : bool := src_value ntk ins n.
Definition signal_fn (f : source_signal) (ins : list bool) : bool := src_signal_value ntk ins f.

(** The entries of the map have the functions of the nodes. *)
Definition represented s old2new : Prop := ∀ n m, old2new !! n = Some m → is_signal s (node_fn n) m.

Lemma represented_grows s s' old2new :
  ready s → grows s s' → represented s old2new → represented s' old2new.
Proof. intros Hs Hg Hr n m Hn. apply (is_signal_grows s); [done..|by apply Hr]. Qed.

Lemma target_signal_makes s old2new f :
  ready s → represented s old2new → is_Some (old2new !! src_get_node ntk f) →
  makes s (target_signal ntk s old2new f) (signal_fn f).
Proof.
  intros Hs Hr [m Hm]. specialize (Hr _ _ Hm). unfold target_signal, new_signal. rewrite Hm. cbn [default].
  unfold signal_fn, src_signal_value, node_fn in *. destruct (src_is_complemented ntk f).
  - by apply create_not_makes.
  - exists s, m. split; [done|]. split; [done|]. split; [apply Hr|]. intros ins. simpl.
    rewrite (proj2 Hr). by destruct (src_value _ _ _).
Qed.

Lemma gather_signals_makes old2new fs s :
  ready s → represented s old2new → (∀ f, f ∈ fs → is_Some (old2new !! src_get_node ntk f)) →
  ∃ s' cs, gather_signals ntk s old2new fs = Some (s', cs) ∧ grows s s' ∧
    Forall2 (λ c v, is_signal s' v c) cs (signal_fn <$> fs).
Proof.
  revert s. induction fs as [|f fs IH]; intros s Hs Hr Hin; [by exists s, []|]. simpl.
  destruct (target_signal_makes s old2new f Hs Hr) as (s1 & x & -> & Hg1 & Hx); [apply Hin; by left|].
  cbn [mbind option_bind]. pose proof (grows_ready _ _ Hg1 Hs) as Hs1.
  destruct (IH s1 Hs1 (represented_grows s s1 old2new Hs Hg1 Hr)) as (s2 & cs & -> & Hg2 & Hcs).
  { intros f' Hf. apply Hin. by right. }
  exists s2, (x :: cs). split_and!; [done|by etrans|]. constructor; [|done]. by apply (is_signal_grows s1).
Qed.

Lemma created_makes s r (v w : list bool → bool) :
  makes s r v → (∀ ins, v ins = w ins) →
  ∃ s' x, ('(s', x) ← r; Some (s', Some x)) = Some (s', Some x) ∧ grows s s' ∧ is_signal s' w x.
Proof.
  intros (s' & x & -> & Hg & Hx & Hv) E. exists s', x. split; [done|]. split; [done|].
  split; [done|]. intros ins. by rewrite Hv, E.
Qed.

Lemma fanin_values ins g : src_fanin_values ntk ins g = (λ v, v ins) <$> (signal_fn <$> src_foreach_fanin ntk g).
Proof. unfold src_fanin_values, signal_fn. by rewrite <-list_fmap_compose. Qed.

Lemma two_children s cs (vs : list (list bool → bool)) :
  length vs = 2%nat → Forall2 (λ c v, is_signal s v c) cs vs →
  ∃ a b va vb, cs = [a; b] ∧ vs = [va; vb] ∧ is_signal s va a ∧ is_signal s vb b.
Proof.
  intros Hl Hcs. destruct vs as [|va [|vb [|]]]; try done.
  apply Forall2_cons_inv_r in Hcs as (a & cs1 & Ha & Hcs & ->).
  apply Forall2_cons_inv_r in Hcs as (b & cs2 & Hb & Hcs & ->). apply Forall2_nil_inv_r in Hcs as ->. eauto 10.
Qed.

Lemma three_children s cs (vs : list (list bool → bool)) :
  length vs = 3%nat → Forall2 (λ c v, is_signal s v c) cs vs →
  ∃ a b c va vb vc, cs = [a; b; c] ∧ vs = [va; vb; vc] ∧ is_signal s va a ∧ is_signal s vb b ∧ is_signal s vc c.
Proof.
  intros Hl Hcs. destruct vs as [|va vs]; [done|]. apply Forall2_cons_inv_r in Hcs as (a & cs' & Ha & Hcs & ->).
  destruct (two_children s cs' vs) as (b & c & vb & vc & -> & -> & ? & ?); [by injection Hl|done|]. eauto 15.
Qed.

(** The gate has the function of the node. *)
Lemma create_gate_spec s cs g :
  ready s → g ∈ src_foreach_gate ntk → known_gate ntk g = true →
  Forall2 (λ c v, is_signal s v c) cs (signal_fn <$> src_foreach_fanin ntk g) →
  ∃ s' x, create_gate ntk s cs g = Some (s', Some x) ∧ grows s s' ∧ is_signal s' (node_fn g) x.
Proof.
  intros Hs Hg Hk Hcs. pose proof (λ ins, fanin_values ins g) as Hv.
  set (vs := signal_fn <$> src_foreach_fanin ntk g) in *.
  assert (length vs = length (src_foreach_fanin ntk g)) as Hl by apply length_fmap.
  unfold create_gate, known_gate in *.
  destruct (holds src_is_and ntk g) eqn:E1.
  { destruct (src_and ntk g Hntk Hg E1) as [Hn Hf]. setoid_rewrite Hv in Hf. clearbody vs.
    destruct (two_children s cs vs) as (a & b & va & vb & -> & -> & Ha & Hb); [congruence|done|]. simpl.
    eapply created_makes; [by apply create_and_makes|]. intros ins. symmetry. apply Hf. }
  destruct (holds src_is_or ntk g) eqn:E2.
  { destruct (src_or ntk g Hntk Hg E2) as [Hn Hf]. setoid_rewrite Hv in Hf. clearbody vs.
    destruct (two_children s cs vs) as (a & b & va & vb & -> & -> & Ha & Hb); [congruence|done|]. simpl.
    eapply created_makes; [by apply create_or_makes|]. intros ins. symmetry. apply Hf. }
  destruct (holds src_is_xor ntk g) eqn:E3.
  { destruct (src_xor ntk g Hntk Hg E3) as [Hn Hf]. setoid_rewrite Hv in Hf. clearbody vs.
    destruct (two_children s cs vs) as (a & b & va & vb & -> & -> & Ha & Hb); [congruence|done|]. simpl.
    eapply created_makes; [by apply create_xor_makes|]. intros ins. symmetry. apply Hf. }
  destruct (holds src_is_maj ntk g) eqn:E4.
  { destruct (src_maj ntk g Hntk Hg E4) as [Hn Hf]. setoid_rewrite Hv in Hf. clearbody vs.
    destruct (three_children s cs vs) as (a & b & c & va & vb & vc & -> & -> & Ha & Hb & Hc); [congruence|done|].
    simpl. eapply created_makes; [by apply create_maj_makes|]. intros ins. symmetry. apply Hf. }
  destruct (holds src_is_nary_and ntk g) eqn:E5.
  { eapply created_makes; [by apply create_nary_and_makes|]. intros ins. cbv beta. rewrite <-Hv. symmetry.
    by apply src_nary_and. }
  destruct (holds src_is_nary_or ntk g) eqn:E6.
  { eapply created_makes; [by apply create_nary_or_makes|]. intros ins. cbv beta. rewrite <-Hv. symmetry.
    by apply src_nary_or. }
  destruct (holds src_is_nary_xor ntk g) eqn:E7.
  { eapply created_makes; [by apply create_nary_xor_makes|]. intros ins. cbv beta. rewrite <-Hv. symmetry.
    by apply src_nary_xor. }
  destruct (holds src_is_buf ntk g) eqn:E8.
  { pose proof (src_buf ntk g Hntk Hg E8) as Hf. setoid_rewrite Hv in Hf. clearbody vs.
    pose proof (f_equal length (Hf [])) as Hl1. rewrite length_fmap in Hl1.
    destruct vs as [|v [|]]; try done. apply Forall2_cons_inv_r in Hcs as (a & cs' & Ha & _ & ->). simpl.
    eapply created_makes; [by apply create_buf_makes|]. intros ins. specialize (Hf ins). by injection Hf. }
  destruct src_node_function as [f|] eqn:E9; [|done].
  eapply created_makes; [apply create_node_makes; [done| |done]|].
  { intros ->. apply Forall2_nil_inv_l in Hcs. apply (src_fanins ntk g Hntk Hg).
    apply length_zero_iff_nil. by rewrite <-Hl, Hcs. }
  intros ins. cbv beta. rewrite <-Hv. symmetry. by apply src_function.
Qed.

(** ** The loop *)

Record converted (pre : list Z) s old2new : Prop := {
  cv_ready : ready s;
  cv_inputs : inputs s = seqZ 2 (Z.of_nat (length (src_foreach_pi ntk)));
  cv_outputs : outputs s = [];
  cv_represented : represented s old2new;
  cv_known n : is_Some ((src_initialize_copy_network ntk).2 !! n) ∨ n ∈ pre → is_Some (old2new !! n);
}.

Lemma initial_converted :
  converted [] (src_initialize_copy_network ntk).1 (src_initialize_copy_network ntk).2.
Proof.
  pose proof (foldl_only_inputs (src_foreach_pi ntk)) as Hoi. pose proof (initial_ready (src_foreach_pi ntk)) as Hr.
  rewrite <-(src_copy_network ntk Hntk) in Hoi, Hr. destruct Hoi as [Hs Hn Hi Ho _].
  split; try done.
  - intros n m Hm. destruct (src_copy_sources ntk n m Hntk Hm) as [(b & -> & Hb)|(i & Hp & -> & Hv)].
    + destruct (constant_signal _ b Hr) as [Hx Hv]. split; [done|]. intros ins. unfold node_fn. by rewrite Hv, Hb.
    + apply lookup_lt_Some in Hp. split; [lia|]. intros ins. unfold node_fn. rewrite Hv.
      apply value_input; [done|]. rewrite Hi, lookup_seqZ. lia.
  - intros n [?|Hn']; [done|]. by apply not_elem_of_nil in Hn'.
Qed.

Lemma convert_gate_converted pre g post s old2new :
  src_foreach_gate ntk = pre ++ g :: post → known_gate ntk g = true → converted pre s old2new →
  ∃ s' old2new', convert_gate ntk (s, old2new) g = Some (s', old2new') ∧ converted (pre ++ [g]) s' old2new'.
Proof.
  intros Ht Hk [Hs Hi Ho Hr Hn]. assert (g ∈ src_foreach_gate ntk) as Hg by (rewrite Ht; set_solver).
  destruct (gather_signals_makes old2new (src_foreach_fanin ntk g) s Hs Hr) as (s1 & cs & E1 & Hg1 & Hcs).
  { intros f Hf. apply Hn. by eapply src_order. }
  pose proof (grows_ready _ _ Hg1 Hs) as Hs1.
  destruct (create_gate_spec s1 cs g Hs1 Hg Hk Hcs) as (s2 & x & E2 & Hg2 & Hx).
  exists s2, (<[g := x]> old2new). split.
  { unfold convert_gate, gather_fanin_signals. rewrite E1. cbn [mbind option_bind]. by rewrite E2. }
  assert (grows s s2) as Hg12 by (by etrans). pose proof (grows_extends _ _ Hg12) as He. split.
  - by apply (grows_ready _ _ Hg12).
  - by rewrite (ext_inputs _ _ He).
  - by rewrite (grows_outputs _ _ Hg12).
  - intros n m [[<- <-]|[? Hm]]%lookup_insert_Some; [done|]. by apply (is_signal_grows s); [..|apply Hr].
  - intros n Hin. destruct (decide (n = g)) as [->|]; [by rewrite lookup_insert_eq|].
    rewrite lookup_insert_ne by done. apply Hn. set_solver.
Qed.

Lemma convert_gates_converted post pre s old2new :
  src_foreach_gate ntk = pre ++ post → Forall (λ g, known_gate ntk g = true) post → converted pre s old2new →
  ∃ s' old2new', convert_gates ntk (s, old2new) post = Some (s', old2new') ∧ converted (pre ++ post) s' old2new'.
Proof.
  revert pre s old2new. induction post as [|g post IH]; intros pre s old2new Ht Hk Hc.
  { exists s, old2new. by rewrite app_nil_r. }
  apply Forall_cons in Hk as [Hg Hk].
  destruct (convert_gate_converted pre g post s old2new Ht Hg Hc) as (s1 & o1 & E & Hc1).
  cbn [convert_gates]. rewrite E.
  cbn [mbind option_bind]. rewrite (app_assoc pre [g] post : pre ++ g :: post = _). apply IH; [|done|done]. by rewrite Ht, <-app_assoc.
Qed.

(** The outputs [pos] are created, after those with the functions [vs]. *)
Lemma convert_outputs_spec old2new pos s (vs : list (list bool → bool)) :
  ready s → represented s old2new → (∀ po, po ∈ pos → is_Some (old2new !! src_get_node ntk po)) →
  Forall2 (λ o v, is_signal s v o) (outputs s) vs →
  ∃ s', convert_outputs ntk s old2new pos = Some s' ∧ ready s' ∧ inputs s' = inputs s ∧
    Forall2 (λ o v, is_signal s' v o) (outputs s') (vs ++ (signal_fn <$> pos)).
Proof.
  revert s vs. induction pos as [|po pos IH]; intros s vs Hs Hr Hin Hvs.
  { exists s. by rewrite app_nil_r. }
  simpl. destruct (target_signal_makes s old2new po Hs Hr) as (s1 & x & -> & Hg & Hx); [apply Hin; by left|].
  cbn [mbind option_bind]. pose proof (grows_ready _ _ Hg Hs) as Hs1.
  pose proof (create_po_ready s1 x Hs1 (proj1 Hx)) as Hs2.
  destruct (create_po_spec s1 x (proj1 Hs1) (proj1 Hx)) as [Hw He Hn Ho _]. set (s2 := create_po s1 x) in *.
  assert (∀ v y, is_signal s1 v y → is_signal s2 v y) as H12.
  { intros v y [Hy Hv]. split; [lia|]. intros ins. rewrite <-Hv. apply extends_value; [apply Hs1|done..]. }
  destruct (IH s2 (vs ++ [signal_fn po])) as (s' & -> & Hs' & Hi' & Hos); [done|..|].
  - intros n m Hm. apply H12, (is_signal_grows s); [done|done|by apply Hr].
  - intros f Hf. apply Hin. by right.
  - rewrite Ho, (grows_outputs _ _ Hg). apply Forall2_app; [|by constructor; [apply H12|]].
    eapply Forall2_impl; [exact Hvs|]. intros o v Hov. by apply H12, (is_signal_grows s).
  - exists s'. split_and!; [done|done| |by rewrite <-app_assoc in Hos].
    by rewrite Hi', (ext_inputs _ _ He), (ext_inputs _ _ (grows_extends _ _ Hg)).
Qed.
End Correct.

(** C13: The conversion is correct: it succeeds on every well-formed source whose gates are of the kinds
    that the code creates, or that has [node_function], and its result is a well-formed technology
    network with the same inputs in the same order and outputs that compute the same functions;
    complemented signals have become inverters. *)
Theorem conversion_equivalent `{MT : GateLevel.Mockturtle} `{K : !Klut} `{ML : !GateLevel.MockturtleLaws}
    `{KL : !KlutLaws} `{KG : !KlutGates} `{S : !Source} `{SL : !SourceLaws} (ntk : source) :
  src_wf ntk → Forall (λ g, known_gate ntk g = true) (src_foreach_gate ntk) →
  ∃ ntk_dest, convert_network ntk = Some ntk_dest ∧ network_wf ntk_dest ∧
    inputs ntk_dest = seqZ 2 (Z.of_nat (length (src_foreach_pi ntk))) ∧
    ∀ ins, simulate ntk_dest ins = src_simulate ntk ins.
Proof.
  intros Hntk Hk. pose proof (initial_converted ntk Hntk) as Hi.
  destruct (convert_gates_converted ntk Hntk (src_foreach_gate ntk) [] _ _ eq_refl Hk Hi)
    as (s & old2new & E & [Hs Hin Ho Hr Hn]). unfold convert_network. rewrite <-surjective_pairing in E.
  rewrite E. cbn [mbind option_bind].
  destruct (convert_outputs_spec ntk old2new (src_foreach_po ntk) s []) as (s' & E' & Hs' & Hi' & Hos); [done|done|..].
  - intros po Hpo. apply Hn. by apply src_outputs.
  - by rewrite Ho.
  - exists s'. split_and!; [done|apply Hs'|by rewrite Hi'|]. intros ins. unfold simulate, src_simulate.
    rewrite app_nil_l in Hos. revert Hos. generalize (outputs s'). clear -SL.
    induction (src_foreach_po ntk) as [|po pos IH]; intros v Hv.
    + by apply Forall2_nil_inv_r in Hv as ->.
    + apply Forall2_cons_inv_r in Hv as (o & v' & [_ Ho] & Hv & ->). rewrite !fmap_cons, Ho. f_equal. by apply IH.
Qed.
