(* ===== verification/XagModel.v ===== *)
(** * A model of the class Source

    Networks of conjunctions and exclusive disjunctions with complemented signals, in the order of
    their nodes: an instance that satisfies [SourceLaws], with which the witness of the conversion
    evaluates. *)

From S2P Require Import Prelude.
From S2P Require Import GateLevelLayout.
From S2P Require Import MockturtleModel.
From S2P Require Import TechnologyNetwork.
From S2P Require Import TechnologyInvariant.
From S2P Require Import KlutModel.
From S2P Require Import GateCreation.
From S2P Require Import NetworkConversion.
#[local] Open Scope Z_scope.
Import Technology.

(** ** Networks *)

(** A node and whether it is complemented. *)
Abbreviation xag_signal := (Z * bool)%type.
Record xag_gate := XagGate { xor_gate : bool; fanin0 : xag_signal; fanin1 : xag_signal }.

(** Node 0 is the constant, the inputs and then the gates follow. *)
Record xag := Xag { num_pis : nat; gates : list xag_gate; pos : list xag_signal }.

Definition first_gate (x : xag) : Z := 1 + Z.of_nat (num_pis x).
Definition size (x : xag) : Z := first_gate x + Z.of_nat (length (gates x)).
Definition gate_at (x : xag) (n : Z) : option xag_gate :=
  if decide (n < first_gate x) then None else gates x !! Z.to_nat (n - first_gate x).

Definition xag_fanin (x : xag) (n : Z) : list xag_signal :=
  match gate_at x n with Some g => [fanin0 g; fanin1 g] | None => [] end.
Definition xag_kind (xor : bool) (x : xag) (n : Z) : bool :=
  match gate_at x n with Some g => eqb (xor_gate g) xor | None => false end.
Definition xag_copy_map (x : xag) : gmap Z Z :=
  list_to_map ((0, 0) :: ((λ i, (i, 1 + i)) <$> seqZ 1 (Z.of_nat (num_pis x)))).

#[export] Instance xag_source : Source (H := table_mockturtle) := {
  source := xag;
  source_signal := xag_signal;
  src_get_node _ f := f.1;
  src_is_complemented _ f := f.2;
  src_foreach_pi x := seqZ 1 (Z.of_nat (num_pis x));
  src_foreach_gate x := seqZ (first_gate x) (Z.of_nat (length (gates x)));
  src_foreach_po := pos;
  src_foreach_fanin := xag_fanin;
  src_initialize_copy_network x :=
    (foldl (λ d _, (create_pi d).1) make (seqZ 1 (Z.of_nat (num_pis x))), xag_copy_map x);
  src_is_and := Some (xag_kind false);
  src_is_or := None;
  src_is_xor := Some (xag_kind true);
  src_is_maj := None;
  src_is_nary_and := None;
  src_is_nary_or := None;
  src_is_nary_xor := None;
  src_is_buf := None;
  src_node_function := None;
}.

(** ** Values *)

Definition signal_in (vs : list bool) (f : xag_signal) : bool := xorb f.2 (nth (Z.to_nat f.1) vs false).
Definition gate_in (vs : list bool) (g : xag_gate) : bool :=
  (if xor_gate g then parity else conjunction) [signal_in vs (fanin0 g); signal_in vs (fanin1 g)].
Definition extend_values (vs : list bool) (g : xag_gate) : list bool := vs ++ [gate_in vs g].
Definition source_values (x : xag) (ins : list bool) : list bool :=
  false :: ((λ i, nth i ins false) <$> seq 0 (num_pis x)).
Definition xag_value (x : xag) (ins : list bool) (n : Z) : bool :=
  nth (Z.to_nat n) (foldl extend_values (source_values x ins) (gates x)) false.

Definition signal_check (x : xag) (bound : Z) (f : xag_signal) : bool := (0 <=? f.1) && (f.1 <? bound).

(** Gates are after their fanins, and outputs are nodes. *)
Definition xag_check (x : xag) : bool :=
  forallb (λ n, forallb (signal_check x n) (xag_fanin x n))
    (seqZ (first_gate x) (Z.of_nat (length (gates x)))) &&
  forallb (signal_check x (size x)) (pos x).

Lemma foldl_extend_values gs vs :
  length (foldl extend_values vs gs) = (length vs + length gs)%nat ∧
  ∀ j, (j < length vs)%nat → nth j (foldl extend_values vs gs) false = nth j vs false.
Proof.
  revert vs. induction gs as [|g gs IH]; intros vs; simpl; [split; [lia|done]|].
  destruct (IH (extend_values vs g)) as [Hl Hn]. unfold extend_values in *. rewrite length_app in *.
  simpl in *. split; [lia|]. intros j Hj. rewrite Hn by lia. by apply app_nth1.
Qed.

Lemma length_source_values x ins : length (source_values x ins) = S (num_pis x).
Proof. simpl. by rewrite length_fmap, length_seq. Qed.

Lemma signal_in_agree vs ws f bound :
  (∀ j, (j < bound)%nat → nth j vs false = nth j ws false) → (Z.to_nat f.1 < bound)%nat →
  signal_in vs f = signal_in ws f.
Proof. intros H Hf. unfold signal_in. by rewrite H. Qed.

Section Laws.
Context (x : xag) (Hx : xag_check x = true).

Lemma check_elem {A} (p : A → bool) v a : forallb p v = true → a ∈ v → p a = true.
Proof. rewrite forallb_forall. intros H Ha. by apply H, list_elem_of_In. Qed.

Lemma gate_at_elem n :
  n ∈ seqZ (first_gate x) (Z.of_nat (length (gates x))) →
  ∃ g, gate_at x n = Some g ∧ gates x !! Z.to_nat (n - first_gate x) = Some g ∧ first_gate x <= n ∧
    (0 <= (fanin0 g).1 < n) ∧ (0 <= (fanin1 g).1 < n).
Proof.
  intros Hn. pose proof Hn as Hr. rewrite elem_of_seqZ in Hr.
  destruct (lookup_lt_is_Some_2 (gates x) (Z.to_nat (n - first_gate x))) as [g Hg]; [lia|].
  assert (gate_at x n = Some g) as Hat by (unfold gate_at; rewrite decide_False by lia; done).
  exists g. pose proof Hx as [Hf _]%andb_true_iff. pose proof (check_elem _ _ n Hf Hn) as Hc.
  simpl in Hc. unfold xag_fanin in Hc. rewrite Hat in Hc. unfold signal_check in Hc. simpl in Hc.
  split_and!; try done; lia.
Qed.

(** The value of a gate, by those of its fanins. *)
Lemma xag_gate_value n g ins :
  n ∈ seqZ (first_gate x) (Z.of_nat (length (gates x))) → gate_at x n = Some g →
  xag_value x ins n =
    (if xor_gate g then parity else conjunction)
      ((λ f, xorb f.2 (xag_value x ins f.1)) <$> xag_fanin x n).
Proof.
  intros Hn Hg. destruct (gate_at_elem n Hn) as (g' & Hg' & Hi & Hle & H0 & H1). simplify_eq.
  unfold xag_fanin. rewrite Hg. cbn [fmap list_fmap].
  set (i := Z.to_nat (n - first_gate x)) in *.
  pose proof (take_drop_middle _ _ _ Hi) as E. unfold xag_value. rewrite <-E at 1. rewrite foldl_app. cbn [foldl].
  set (vs := foldl extend_values (source_values x ins) (take i (gates x))).
  assert (length vs = Z.to_nat n) as Hvs.
  { unfold vs. rewrite (proj1 (foldl_extend_values _ _)), length_source_values, length_take.
    apply lookup_lt_Some in Hi. unfold first_gate in *. lia. }
  rewrite (proj2 (foldl_extend_values _ _)) by (unfold extend_values; rewrite length_app; simpl; lia).
  unfold extend_values at 1. rewrite app_nth2, Hvs, Nat.sub_diag by lia. cbn [nth]. unfold gate_in.
  assert (∀ f, 0 <= f.1 < n → signal_in vs f =
    xorb f.2 (nth (Z.to_nat f.1) (foldl extend_values (source_values x ins) (gates x)) false)) as Hs.
  { intros f Hf. apply (signal_in_agree _ _ _ (Z.to_nat n)); [|lia]. intros j Hj. rewrite <-E, foldl_app.
    symmetry. apply (proj2 (foldl_extend_values _ _)). fold vs. lia. }
  by rewrite !Hs.
Qed.

Lemma xag_kind_value xor n :
  n ∈ seqZ (first_gate x) (Z.of_nat (length (gates x))) → xag_kind xor x n = true →
  length (xag_fanin x n) = 2%nat ∧
  ∀ ins, xag_value x ins n =
    (if xor then parity else conjunction) ((λ f, xorb f.2 (xag_value x ins f.1)) <$> xag_fanin x n).
Proof.
  intros Hn Hk. destruct (gate_at_elem n Hn) as (g & Hg & _). unfold xag_kind in Hk. rewrite Hg in Hk.
  apply eqb_prop in Hk as <-. split; [unfold xag_fanin; by rewrite Hg|]. intros ins. by apply xag_gate_value.
Qed.

Lemma xag_source_value ins :
  xag_value x ins 0 = false ∧
  ∀ i, (i < num_pis x)%nat → xag_value x ins (1 + Z.of_nat i) = nth i ins false.
Proof.
  unfold xag_value. split.
  - rewrite (proj2 (foldl_extend_values _ _)); [done|]. rewrite length_source_values. simpl. lia.
  - intros i Hi. rewrite (proj2 (foldl_extend_values _ _)) by (rewrite length_source_values; lia).
    replace (Z.to_nat (1 + Z.of_nat i)) with (S i) by lia. cbn [nth source_values].
    apply nth_lookup_Some. by rewrite list_lookup_fmap, lookup_seq_lt.
Qed.

Lemma xag_copy_map_spec n m :
  xag_copy_map x !! n = Some m ↔ (n = 0 ∧ m = 0) ∨ (1 <= n < first_gate x ∧ m = 1 + n).
Proof.
  unfold xag_copy_map. rewrite <-elem_of_list_to_map.
  - rewrite elem_of_cons, list_elem_of_fmap. setoid_rewrite elem_of_seqZ. unfold first_gate. split.
    + intros [[= -> ->]|(i & [= -> ->] & Hi)]; [by left|right; lia].
    + intros [[-> ->]|[Hn ->]]; [by left|]. right. exists n. split; [done|lia].
  - simpl. rewrite <-list_fmap_compose. rewrite (list_fmap_ext _ id _), list_fmap_id by done. constructor.
    + rewrite elem_of_seqZ. lia.
    + apply NoDup_seqZ.
Qed.

Lemma xag_node_known n :
  0 <= n < size x →
  is_Some (xag_copy_map x !! n) ∨ n ∈ seqZ (first_gate x) (Z.of_nat (length (gates x))).
Proof.
  intros Hn. rewrite elem_of_seqZ. unfold size, is_Some in *. setoid_rewrite xag_copy_map_spec.
  destruct (decide (n = 0)); [left; exists 0; tauto|].
  destruct (decide (n < first_gate x)); [left; exists (1 + n); right; lia|right; lia].
Qed.
End Laws.

#[export] Instance xag_source_laws : SourceLaws (S := xag_source).
Proof.
  unshelve econstructor.
  - exact (λ x, xag_check x = true).
  - exact xag_value.
  - done.
  - intros x n m _ Hm. apply xag_copy_map_spec in Hm as [[-> ->]|[Hn ->]].
    + left. exists false. split; [done|]. intros ins. apply (xag_source_value x ins).
    + right. exists (Z.to_nat (n - 1)). unfold first_gate in Hn. split_and!; [|lia|].
      * simpl. rewrite lookup_seqZ. lia.
      * intros ins. rewrite <-(proj2 (xag_source_value x ins)) by lia. f_equal. lia.
  - intros x pre g post f Hx Ht Hf.
    assert (g ∈ seqZ (first_gate x) (Z.of_nat (length (gates x)))) as Hg by (simpl in Ht; rewrite Ht; set_solver).
    destruct (gate_at_elem x Hx g Hg) as (gt & Hat & _ & _ & H0 & H1).
    assert (0 <= f.1 < g) as Hlt.
    { simpl in Hf. unfold xag_fanin in Hf. rewrite Hat in Hf. set_solver. }
    pose proof Hg as Hr. rewrite elem_of_seqZ in Hr.
    destruct (xag_node_known x f.1) as [?|Hin]; [unfold size; lia|by left|]. right. simpl in *.
    replace (Z.of_nat (length (gates x))) with ((g - first_gate x) + (1 + (first_gate x + Z.of_nat (length (gates x)) - g - 1)))
      in Ht by lia.
    assert (NoDup (pre ++ g :: post)) as Hnd by (rewrite <-Ht; apply NoDup_seqZ).
    rewrite !seqZ_app in Ht by lia. change (seqZ ?a 1) with [a] in Ht.
    replace (first_gate x + (g - first_gate x)) with g in Ht by lia.
    edestruct (not_elem_of_app_cons_inv_l g g) as (<- & _ & _); [| |exact Ht|].
    + apply NoDup_app in Hnd as (_ & Hd & _). intros Hp. apply (Hd g Hp). by left.
    + rewrite elem_of_seqZ. lia.
    + rewrite elem_of_seqZ in Hin. rewrite elem_of_seqZ. lia.
  - intros x po [_ Hp]%andb_true_iff Hpo. apply (xag_node_known x).
    pose proof (check_elem _ _ po Hp Hpo) as Hc. unfold signal_check in Hc. change (0 <= po.1 < size x). lia.
  - intros x g Hx Hg. destruct (gate_at_elem x Hx g Hg) as (gt & Hat & _). simpl. unfold xag_fanin. by rewrite Hat.
  - intros x g Hx. exact (xag_kind_value x Hx false g).
  - done.
  - intros x g Hx. exact (xag_kind_value x Hx true g).
  - done.
  - done.
  - done.
  - done.
  - done.
  - done.
Defined.

(** ** Examples *)

(** A full adder of two conjunctions and three exclusive disjunctions: the carry is a complemented
    conjunction of complemented signals. *)
Definition full_adder : @source _ xag_source :=
  Xag 3 [XagGate true (1, false) (2, false); XagGate true (4, false) (3, false);
         XagGate false (1, false) (2, false); XagGate false (4, false) (3, false);
         XagGate false (6, true) (7, true)]
    [(5, false); (8, true)].

Definition adder_inputs : list (list bool) :=
  [[false; false; false]; [true; false; false]; [false; true; false]; [true; true; false];
   [false; false; true]; [true; false; true]; [false; true; true]; [true; true; true]].

Lemma full_adder_functions :
  (λ ins, src_simulate full_adder ins) <$> adder_inputs =
  [[false; false]; [true; false]; [true; false]; [false; true];
   [true; false]; [false; true]; [false; true]; [true; true]].
Proof. by vm_compute. Qed.

(** The result has an inverter for each complemented signal. *)
Lemma full_adder_converted :
  (λ s : list_network, (length (nodes s), outputs s, list_fanin s 9, (λ ins, simulate s ins) <$> adder_inputs)) <$>
    convert_network full_adder =
  Some (13%nat, [6; 12], [7], (λ ins, src_simulate full_adder ins) <$> adder_inputs).
Proof. by vm_compute. Qed.

Lemma conversion_equivalent_witness :
  ∃ ntk_dest : list_network, convert_network full_adder = Some ntk_dest ∧ network_wf ntk_dest ∧
    inputs ntk_dest = seqZ 2 3 ∧ ∀ ins, simulate ntk_dest ins = src_simulate full_adder ins.
Proof.
  apply (conversion_equivalent full_adder).
  - by vm_compute.
  - apply (bool_decide_unpack _). by vm_compute.
Defined.
