(* ===== verification/InverterBalancing.v ===== *)
(** * Balancing of inverters
      (include/fiction/algorithms/network_transformation/fanout_inverter_balancing.hpp)

    [inverter_balancing] on combinational technology networks without names: a fanout node all of whose
    fanouts are inverters becomes an inverter itself, its first inverter a buffer and its second
    inverter is left out, until no such node remains. The lists [del_inv], [new_inv] and [blc_fos] have
    one entry per balanced fanout node. *)

From S2P Require Import Prelude.
From S2P Require Import GateLevelLayout.
From S2P Require Import TechnologyNetwork.
#[local] Open Scope Z_scope.
Import Technology.

Module InverterBalancing.

(** Inherited members: [foreach_fanout] of [fanout_view{topo_view{ntk}}] and of [fanout_view{ntk}], and
    the kinds of gates that a network type may not have. *)
Class FanoutView `{K : Klut} := {
  topo_foreach_fanout : network → Z → list Z;
  foreach_fanout : network → Z → list Z;
  is_nary_and : option (network → Z → bool);
  is_nary_or : option (network → Z → bool);
  is_nary_xor : option (network → Z → bool);
}.

Section InverterBalancing.
Context `{MT : GateLevel.Mockturtle} `{K : !Klut} `{V : !FanoutView}.
Implicit Types (ntk s : network) (n g : Z).

(** The members of [inverter_balancing_impl] and the local variables of [run]. *)
Record state := State {
  ntk_dest : network;
  old2new : gmap Z Z;
  del_inv : list Z;
  new_inv : list Z;
  blc_fos : list Z;
}.
Implicit Types st : state.

(** [std::all_of] of [is_inv]. *)
Fixpoint all_inverters ntk (ns : list Z) : option bool :=
  match ns with
  | [] => Some true
  | n :: ns' => b ← is_inv ntk n; if (b : bool) then all_inverters ntk ns' else Some false
  end.

(** [balance && fanout_inv.size() > 1]. *)
Definition balanceable_fanouts ntk (fanout_inv : list Z) : option bool :=
  balance ← all_inverters ntk fanout_inv; Some (balance && (1 <? Z.of_nat (length fanout_inv))).

(** The first part of [gather_fanin_signals]. *)
Definition collect ntk st n : option state :=
  b ← is_fanout ntk n;
  if (b : bool) then
    let fanout_inv := topo_foreach_fanout ntk n in
    balance ← balanceable_fanouts ntk fanout_inv;
    if (balance : bool) then
      i0 ← fanout_inv !! 0%nat; i1 ← fanout_inv !! 1%nat;
      Some (State (ntk_dest st) (old2new st) (del_inv st ++ [i1]) (new_inv st ++ [i0]) (blc_fos st ++ [n]))
    else Some st
  else Some st.

(** New fanins for nodes with deleted inverters as fanins. *)
Definition redirect st (fn : Z) : option Z :=
  foldl (λ fn i,
      fn ← fn; d ← del_inv st !! i; if d =? fn then new_inv st !! i else Some fn)
    (Some fn) (seq 0 (length (blc_fos st))).

Definition child_of st (f : Z) : option Z :=
  fn ← redirect st f; Some (default 0 (old2new st !! fn)).

Definition gather_fanin_signals ntk st n : option (state * list Z) :=
  st ← collect ntk st n; children ← mapM (child_of st) (foreach_fanin ntk n); Some (st, children).

Definition holds (member : option (network → Z → bool)) ntk g : bool :=
  match member with Some p => p ntk g | None => false end.

(** The gates that [foreach_gate] creates for the nodes that are not balanced. *)
Definition copy_gate ntk s (children : list Z) g : option (network * Z) :=
  b ← is_and ntk g;
  if (b : bool) then a ← children !! 0%nat; b ← children !! 1%nat; create_and s a b
  else
  b ← is_or ntk g;
  if (b : bool) then a ← children !! 0%nat; b ← children !! 1%nat; create_or s a b
  else
  b ← is_xor ntk g;
  if (b : bool) then a ← children !! 0%nat; b ← children !! 1%nat; create_xor s a b
  else
  b ← is_maj ntk g;
  if (b : bool) then
    a ← children !! 0%nat; b ← children !! 1%nat; c ← children !! 2%nat; create_maj s a b c
  else if holds is_nary_and ntk g then create_nary_and s children
  else if holds is_nary_or ntk g then create_nary_or s children
  else if holds is_nary_xor ntk g then create_nary_xor s children
  else f ← node_function ntk g; create_node s children f.

(** [old2new[g] = x] for a created signal. *)
Definition assign st g (r : option (network * Z)) : option state :=
  '(s, x) ← r; Some (State s (<[g := x]> (old2new st)) (del_inv st) (new_inv st) (blc_fos st)).

(** The functor of [foreach_gate]. *)
Definition balance_gate ntk st g : option state :=
  '(st, children) ← gather_fanin_signals ntk st g;
  inv ← is_inv ntk g;
  if inv && bool_decide (g ∈ new_inv st) then
    a ← children !! 0%nat; assign st g (create_buf (ntk_dest st) a)
  else if inv && bool_decide (g ∈ del_inv st) then Some st
  else
    buf ← is_buf ntk g;
    if buf && bool_decide (g ∈ blc_fos st) then
      a ← children !! 0%nat; assign st g (create_not (ntk_dest st) a)
    else assign st g (copy_gate ntk (ntk_dest st) children g).

Fixpoint balance_gates ntk st (gs : list Z) : option state :=
  match gs with
  | [] => Some st
  | g :: gs' => st ← balance_gate ntk st g; balance_gates ntk st gs'
  end.

(** The functor of [foreach_po]. *)
Definition balance_output st s (po : Z) : option network :=
  let tgt_signal := default 0 (old2new st !! po) in
  '(s, tgt_po) ← (if is_complemented po then create_not s tgt_signal else Some (s, tgt_signal));
  Some (create_po s tgt_po).

Definition run ntk : option network :=
  let init := initialize_copy_network ntk in
  st ← balance_gates ntk (State init.1 init.2 [] [] []) (topo_gates ntk);
  for_each (balance_output st) (ntk_dest st) (outputs ntk).

(** A node whose fanouts are all inverters is left. *)
Fixpoint any_balanceable ntk (gs : list Z) : option bool :=
  match gs with
  | [] => Some false
  | g :: gs' =>
      balance ← (if 2 <=? fanout_size ntk g then balanceable_fanouts ntk (foreach_fanout ntk g)
                 else Some false);
      b ← any_balanceable ntk gs';
      Some (balance || b)
  end.
Definition inverter_balancing_recursive ntk : option bool := any_balanceable ntk (foreach_gate ntk).

(** The loop [do ... while (rerun)]. *)
Fixpoint rerun (fuel : nat) ntk : option network :=
  match fuel with
  | O => None
  | S fuel' =>
      result ← run ntk;
      rerun_ ← inverter_balancing_recursive result;
      if (rerun_ : bool) then rerun fuel' result else Some result
  end.

Definition inverter_balancing (fuel : nat) ntk : option network :=
  result ← run ntk;
  _ ← inverter_balancing_recursive result;
  rerun fuel result.
End InverterBalancing.
End InverterBalancing.
