(* ===== verification/InverterPairs.v ===== *)
(** * Pairs of inverters

    The networks on which [inverter_balancing] is correct ([balanceable]), and the fanout nodes that a
    run balances with their two inverters ([pair_of]). *)

From S2P Require Import Prelude.
From S2P Require Import GateLevelLayout.
From S2P Require Import TechnologyNetwork.
From S2P Require Import TechnologyInvariant.
From S2P Require Import NetworkCopy.
From S2P Require Import GateCreation.
From S2P Require Import InverterBalancing.
#[local] Open Scope Z_scope.
Import Technology.
Import InverterBalancing.

(** [fanout_view] lists the gates that a node drives in the order of [foreach_gate], each once; the gates
    of a k-LUT network are not n-ary gates. *)
Class FanoutViewLaws `{K : Klut} `{V : !FanoutView} := {
  fv_topo_foreach_fanout s n :
    topo_foreach_fanout s n = filter (λ g, n ∈ foreach_fanin s g) (topo_gates s);
  fv_foreach_fanout s n :
    foreach_fanout s n = filter (λ g, n ∈ foreach_fanin s g) (foreach_gate s);
  fv_nary s g :
    holds is_nary_and s g = false ∧ holds is_nary_or s g = false ∧ holds is_nary_xor s g = false;
}.

(** The literals of buffers, inverters and the gates that are created by literal, with their arities. *)
Definition arities : list (Z * nat) := [(2, 1%nat); (3, 1%nat); (4, 2%nat); (6, 2%nat); (12, 2%nat); (14, 3%nat)].

Section Networks.
Context `{MT : GateLevel.Mockturtle} `{K : !Klut} `{ML : !GateLevel.MockturtleLaws} `{KL : !KlutLaws}.
Context `{KG : !KlutGates}.
Implicit Types (s : network) (n g k c : Z) (ins : list bool).

Definition literal_is s g k : Prop := has_literal s g k = Some true.
#[export] Instance literal_is_dec s g k : Decision (literal_is s g k) := decide (has_literal s g k = Some true).

(** Fanout-substituted networks: buffers drive at most two nodes or outputs and other gates at most one,
    buffers have no constant fanin, and no output is driven by an inverter. The gates that are known by
    their literals have the right numbers of fanins, and no literal is an alias of another. *)
Record balanceable s : Prop := {
  bal_ready : ready s;
  bal_canonical g d : gate_node s g → vec_at (nodes s) g = Some d → canonical (cache s) (GateLevel.literal d);
  bal_arity g k (a : nat) :
    gate_node s g → (k, a) ∈ arities → literal_is s g k → length (foreach_fanin s g) = a;
  bal_uses g : gate_node s g → uses s g <= if decide (literal_is s g 2) then 2 else 1;
  bal_buffers g c : gate_node s g → literal_is s g 2 → c ∈ foreach_fanin s g → 2 <= c;
  bal_outputs o : o ∈ outputs s → gate_node s o → ¬ literal_is s o 3;
}.

(** *** Functions and literals *)

Definition fixed_table k : truth_table := if k =? 2 then buffer_table else gate_table k.
Definition gate_function s g : truth_table := default buffer_table (node_function s g).

Lemma fixed_literal s k a :
  ready s → (k, a) ∈ arities → canonical (cache s) k ∧ GateLevel.cache_at (cache s) k = fixed_table k.
Proof.
  intros [Hs Ht] Hk. unfold arities in Hk. rewrite !elem_of_cons in Hk.
  destruct Hk as [[= -> ->]|Hk].
  { destruct (wf_buffer _ Hs) as [Hc E]. split; [|done]. split; [split; [done|exact Hc]|].
    apply (wf_cache _ Hs 1). lia. }
  assert (∃ (ar : nat) fn, (k, (ar, fn)) ∈ gate_functions ∧ k ≠ 2) as (ar & fn & Hk' & Hne).
  { destruct Hk as [[= -> ->]|[[= -> ->]|[[= -> ->]|[[= -> ->]|[[= -> ->]|Hk]]]]];
      [exists 1%nat, negation|exists 2%nat, conjunction|exists 2%nat, disjunction|exists 2%nat, parity
      |exists 3%nat, majority|by apply not_elem_of_nil in Hk]; (split; [set_solver|done]). }
  unfold fixed_table. destruct (Z.eqb_spec k 2); [done|]. by eapply Ht.
Qed.

(** A gate with a fixed function has its literal. *)
Lemma literal_function s g d k a :
  ready s → vec_at (nodes s) g = Some d → canonical (cache s) (GateLevel.literal d) → (k, a) ∈ arities →
  literal_is s g k ↔ GateLevel.cache_at (cache s) (GateLevel.literal d) = fixed_table k.
Proof.
  intros Hs Hd [_ Hc] Hk. destruct (fixed_literal s k a Hs Hk) as [[_ Hk'] E]. unfold literal_is, has_literal.
  rewrite Hd. cbn [mbind option_bind]. split.
  - intros [= ->%Z.eqb_eq]. done.
  - intros Ef. rewrite Ef, <-E, Hk' in Hc. injection Hc as <-. by rewrite Z.eqb_refl.
Qed.

Lemma fixed_table_inj s k a k' a' :
  ready s → (k, a) ∈ arities → (k', a') ∈ arities → fixed_table k = fixed_table k' → k = k'.
Proof.
  intros Hs Hk Hk' E. destruct (fixed_literal s k a Hs Hk) as [[_ H1] E1].
  destruct (fixed_literal s k' a' Hs Hk') as [[_ H2] E2]. congruence.
Qed.

Lemma gate_function_at s g d :
  vec_at (nodes s) g = Some d → gate_function s g = GateLevel.cache_at (cache s) (GateLevel.literal d).
Proof. intros Hd. unfold gate_function, node_function. by rewrite Hd. Qed.

Lemma balanceable_literal s g k a :
  balanceable s → gate_node s g → (k, a) ∈ arities → literal_is s g k ↔ gate_function s g = fixed_table k.
Proof.
  intros Hs Hg Hk. destruct (node_at s g) as [d Hd]; [destruct Hg; lia|].
  rewrite (gate_function_at s g d) by done. eapply literal_function; [apply Hs|done|by apply (bal_canonical _ Hs g)|done].
Qed.

Lemma literal_unique s g k k' : literal_is s g k → literal_is s g k' → k = k'.
Proof. intros (d & Hd & <-)%has_literal_node (d' & Hd' & <-)%has_literal_node. congruence. Qed.

Lemma has_literal_gate s g k :
  gate_node s g → has_literal s g k = Some (bool_decide (literal_is s g k)).
Proof.
  intros [Hg _]. assert (is_Some (has_literal s g k)) as [b E].
  { destruct (node_at s g) as [d Hd]; [lia|]. unfold has_literal. rewrite Hd. by eexists. }
  rewrite E. f_equal. symmetry. destruct b; [by apply bool_decide_true|]. apply bool_decide_false.
  unfold literal_is. by rewrite E.
Qed.

Lemma value_gate_function s ins g :
  network_wf s → gate_node s g →
  value s ins g = eval_table (gate_function s g) (value s ins <$> foreach_fanin s g).
Proof.
  intros Hs Hg. destruct (node_at s g) as [d Hd]; [destruct Hg; lia|].
  rewrite (value_gate s ins g d) by done. by rewrite (gate_function_at s g d).
Qed.

Lemma eval_negation b : eval_table (fixed_table 3) [b] = negb b.
Proof. apply (eval_gate_table 3 1 negation); [set_solver|done]. Qed.
Lemma eval_identity b : eval_table (fixed_table 2) [b] = b.
Proof. apply eval_buffer. Qed.

(** *** Users of nodes *)

Lemma occurrences_bind_submseteq n (f : Z → list Z) (v w : list Z) :
  v ⊆+ w → occurrences n (v ≫= f) <= occurrences n (w ≫= f).
Proof.
  induction 1 as [|x v w _ IH|x y v|x v w _ IH|v1 v2 v3 _ IH1 _ IH2]; rewrite ?bind_cons, ?occurrences_app;
    try pose proof (occurrences_nonneg n (f x)); lia.
Qed.

Lemma users_sum s n (v : list Z) :
  NoDup v → (∀ g, g ∈ v → 0 <= g < num_nodes s) →
  occurrences n (outputs s) + occurrences n (v ≫= foreach_fanin s) <= uses s n.
Proof.
  intros Hv Hg. unfold uses. rewrite occurrences_app.
  assert (v ⊆+ seqZ 0 (num_nodes s)) as Hsub.
  { apply NoDup_submseteq; [done|]. intros g Hin. apply elem_of_seqZ. specialize (Hg g Hin). lia. }
  pose proof (occurrences_bind_submseteq n (foreach_fanin s) _ _ Hsub). lia.
Qed.

Lemma occurrences_users s n (v : list Z) :
  (∀ g, g ∈ v → n ∈ foreach_fanin s g) → Z.of_nat (length v) <= occurrences n (v ≫= foreach_fanin s).
Proof.
  induction v as [|g v IH]; intros Hv; [done|]. rewrite bind_cons, occurrences_app.
  pose proof (occurrences_elem n (foreach_fanin s g) (Hv g (list_elem_of_here _ _))).
  specialize (IH (λ h Hh, Hv h (list_elem_of_further _ _ _ Hh))). simpl. lia.
Qed.

Lemma fanin_node s g c : 0 <= g < num_nodes s → c ∈ foreach_fanin s g → gate_node s g.
Proof.
  intros Hg Hc. destruct (node_at s g Hg) as [d Hd]. rewrite (foreach_fanin_eq s g d Hd) in Hc.
  case_decide as Hn; [by apply not_elem_of_nil in Hc|]. split; [lia|tauto].
Qed.

Lemma fanins_earlier s : network_wf s → ∀ i c, gate_node s i → c ∈ foreach_fanin s i → 0 <= c < i.
Proof. intros Hs i c [? _] ?. apply (wf_fanins _ Hs); [lia|done]. Qed.

(** Gates in the transitive fanin of the outputs are visited. *)
Lemma reachable_topo s g :
  network_wf s → reachable s g → 0 <= g < num_nodes s ∧ (gate_node s g → g ∈ topo_gates s).
Proof.
  intros Hs (o & Ho & Hr). pose proof (fanins_earlier s Hs) as Hb.
  pattern g. eapply rtc_ind_r; [| |exact Hr].
  - split; [by apply (wf_outputs _ Hs)|]. intros Hg. by apply topo_gates_outputs.
  - intros a b _ Hab [Ha IH]. pose proof (fanin_node s a b Ha Hab) as Hga.
    pose proof (wf_fanins _ Hs a b Ha Hab). split; [lia|]. intros Hgb.
    apply IH in Hga as (pre & post & Ht)%list_elem_of_split.
    pose proof (topo_gates_order s pre a post b Hb Ht Hab Hgb). rewrite Ht. set_solver.
Qed.

Lemma topo_gate s g : network_wf s → g ∈ topo_gates s → gate_node s g.
Proof. intros Hs. apply topo_gates_nodes. by apply fanins_earlier. Qed.
End Networks.

(** ** Balanced fanout nodes *)

Section Pairs.
Context `{MT : GateLevel.Mockturtle} `{K : !Klut} `{ML : !GateLevel.MockturtleLaws} `{KL : !KlutLaws}.
Context `{KG : !KlutGates} `{V : !FanoutView} `{VL : !FanoutViewLaws}.
Context (ntk : network) (Hntk : balanceable ntk).
Implicit Types (s : network) (n g c : Z).
#[local] Notation G := (topo_gates ntk).

(** The first two fanouts of a node that is balanced. *)
Definition pair_of n : option (Z * Z) :=
  if bool_decide (n ∈ G ∧ literal_is ntk n 2 ∧ Forall (λ g, literal_is ntk g 3) (topo_foreach_fanout ntk n))
  then match topo_foreach_fanout ntk n with i0 :: i1 :: _ => Some (i0, i1) | _ => None end
  else None.

Let Hwf : network_wf ntk.
Proof. apply (bal_ready _ Hntk). Qed.

Lemma fanout_elem n g : g ∈ topo_foreach_fanout ntk n ↔ n ∈ foreach_fanin ntk g ∧ g ∈ G.
Proof. by rewrite fv_topo_foreach_fanout, list_elem_of_filter. Qed.

Lemma fanout_NoDup n : NoDup (topo_foreach_fanout ntk n).
Proof. rewrite fv_topo_foreach_fanout. apply NoDup_filter, topo_gates_NoDup, fanins_earlier, Hwf. Qed.

Lemma literal_fanins g k (a : nat) :
  gate_node ntk g → (k, a) ∈ arities → literal_is ntk g k → length (foreach_fanin ntk g) = a.
Proof. apply (bal_arity _ Hntk). Qed.

Lemma unary_fanin g k c :
  gate_node ntk g → literal_is ntk g k → (k, 1%nat) ∈ arities → c ∈ foreach_fanin ntk g →
  foreach_fanin ntk g = [c].
Proof.
  intros Hg Hl Hk Hc. pose proof (literal_fanins g k 1 Hg Hk Hl) as Hlen.
  destruct (foreach_fanin ntk g) as [|x [|]]; try done. by apply list_elem_of_singleton in Hc as ->.
Qed.

(** A buffer with gates [v] as fanouts drives no more than these, if they are two. *)
Lemma no_other_users n g i0 i1 :
  gate_node ntk n → literal_is ntk n 2 → topo_foreach_fanout ntk n = [i0; i1] →
  n ∉ outputs ntk ∧ (gate_node ntk g → n ∈ foreach_fanin ntk g → g = i0 ∨ g = i1).
Proof.
  intros Hn Hl Hf. pose proof (bal_uses _ Hntk n Hn) as Hu. rewrite decide_True in Hu by done.
  assert (∀ h, h ∈ [i0; i1] → gate_node ntk h ∧ n ∈ foreach_fanin ntk h) as Hpair.
  { intros h Hh. rewrite <-Hf in Hh. apply fanout_elem in Hh as [? ?%(topo_gate ntk _ Hwf)]. done. }
  assert (∀ v, NoDup v → (∀ h, h ∈ v → gate_node ntk h ∧ n ∈ foreach_fanin ntk h) →
    occurrences n (outputs ntk) + Z.of_nat (length v) <= 2) as Hv.
  { intros v Hnd Hin. pose proof (users_sum ntk n v Hnd) as Hs.
    pose proof (occurrences_users ntk n v (λ h Hh, proj2 (Hin h Hh))).
    enough (occurrences n (outputs ntk) + occurrences n (v ≫= foreach_fanin ntk) <= uses ntk n) by lia.
    apply Hs. intros h [[? _] _]%Hin. lia. }
  pose proof (fanout_NoDup n) as Hnd. rewrite Hf in Hnd. split.
  - intros Ho%occurrences_elem. specialize (Hv [i0; i1] Hnd Hpair). simpl in Hv. lia.
  - intros Hg Hin. destruct (decide (g ∈ [i0; i1])) as [Hgi|Hgi]; [set_solver|].
    specialize (Hv (g :: [i0; i1])). pose proof (occurrences_nonneg n (outputs ntk)).
    enough (occurrences n (outputs ntk) + 3 <= 2) by lia. apply Hv; [by constructor|].
    intros h [->|Hh]%elem_of_cons; [done|by apply Hpair].
Qed.

Record pair n i0 i1 : Prop := {
  pair_gate : n ∈ G;
  pair_buffer : literal_is ntk n 2;
  pair_fanouts : topo_foreach_fanout ntk n = [i0; i1];
  pair_ne : i0 ≠ i1;
  pair_output : n ∉ outputs ntk;
  pair_inverter i : i = i0 ∨ i = i1 → i ∈ G ∧ literal_is ntk i 3 ∧ foreach_fanin ntk i = [n];
  pair_users g : gate_node ntk g → n ∈ foreach_fanin ntk g → g = i0 ∨ g = i1;
}.

Lemma pair_of_spec n i0 i1 : pair_of n = Some (i0, i1) ↔ pair n i0 i1.
Proof.
  unfold pair_of. split.
  - case_bool_decide as Hb; [|done]. destruct Hb as (Hn & Hl & Hinv). intros Hp.
    pose proof (topo_gate ntk n Hwf Hn) as Hgn.
    assert (topo_foreach_fanout ntk n = [i0; i1]) as Hf.
    { pose proof (fanout_NoDup n) as Hnd. pose proof (fanout_elem n) as He.
      destruct (topo_foreach_fanout ntk n) as [|a [|b v]]; try done. injection Hp as <- <-.
      pose proof (occurrences_users ntk n (a :: b :: v) (λ h Hh, proj1 (proj1 (He h) Hh))) as Hu.
      pose proof (bal_uses _ Hntk n Hgn) as Hb. rewrite decide_True in Hb by done.
      pose proof (users_sum ntk n (a :: b :: v) Hnd) as Hs. pose proof (occurrences_nonneg n (outputs ntk)).
      assert (∀ h, h ∈ a :: b :: v → 0 <= h < num_nodes ntk) as Hr.
      { intros h [_ [? _]%(topo_gate ntk _ Hwf)]%He. lia. }
      specialize (Hs Hr). destruct v; [done|]. cbn [length] in Hu. lia. }
    assert (∀ i, i = i0 ∨ i = i1 → i ∈ G ∧ literal_is ntk i 3 ∧ foreach_fanin ntk i = [n]) as Hi.
    { intros i Hi. assert (i ∈ topo_foreach_fanout ntk n) as Hin by (rewrite Hf; set_solver).
      rewrite Forall_forall in Hinv. pose proof (Hinv i Hin) as H3. apply fanout_elem in Hin as [Hc Hin].
      split_and!; [done|done|]. apply (unary_fanin i 3); [by apply topo_gate|done|set_solver|done]. }
    split; try done.
    + pose proof (fanout_NoDup n) as Hnd. rewrite Hf in Hnd. apply NoDup_cons in Hnd as [Hnd _]. set_solver.
    + by eapply (no_other_users n n).
    + intros g. by apply no_other_users.
  - intros [Hn Hl Hf _ _ Hi _]. rewrite bool_decide_true, Hf; [done|]. split_and!; [done|done|].
    rewrite Hf. repeat constructor; apply Hi; auto.
Qed.

(** Inverters have one fanin, so that pairs are disjoint. *)
Lemma pair_inverter_unique n n' i0 i1 i0' i1' i :
  pair n i0 i1 → pair n' i0' i1' → i = i0 ∨ i = i1 → i = i0' ∨ i = i1' → n = n'.
Proof.
  intros Hp Hp' Hi Hi'. apply (pair_inverter _ _ _ Hp) in Hi as (_ & _ & E).
  apply (pair_inverter _ _ _ Hp') in Hi' as (_ & _ & E'). congruence.
Qed.

(** ** The replacement of nodes *)

(** The node that stands for a node: the second inverter of a pair is replaced by the first. *)
Definition stand_in n : Z :=
  match foreach_fanin ntk n with
  | [f] => match pair_of f with
           | Some (i0, i1) => if decide (i1 = n) then i0 else n
           | None => n
           end
  | _ => n
  end.
(** The first inverters of pairs. *)
Definition is_new n : bool :=
  match foreach_fanin ntk n with
  | [f] => match pair_of f with Some (i0, _) => bool_decide (i0 = n) | None => false end
  | _ => false
  end.
Definition is_balanced n : bool := bool_decide (is_Some (pair_of n)).

Lemma stand_in_pair n i0 i1 : pair n i0 i1 → stand_in i1 = i0 ∧ stand_in i0 = i0 ∧ is_new i0 = true.
Proof.
  intros Hp. pose proof (proj2 (pair_of_spec _ _ _) Hp) as E. unfold stand_in, is_new.
  destruct (pair_inverter _ _ _ Hp i0) as (_ & _ & ->); [by left|].
  destruct (pair_inverter _ _ _ Hp i1) as (_ & _ & ->); [by right|]. rewrite E.
  split_and!; [by rewrite decide_True|by case_decide|by apply bool_decide_eq_true].
Qed.

Lemma stand_in_cases n : stand_in n = n ∨ ∃ f i0, pair f i0 n ∧ stand_in n = i0 ∧ i0 ≠ n.
Proof.
  unfold stand_in. destruct (foreach_fanin ntk n) as [|f [|]]; try (by left).
  destruct (pair_of f) as [[i0 i1]|] eqn:E; [|by left]. apply pair_of_spec in E. case_decide; [|by left].
  subst i1. right. exists f, i0. split_and!; [done|done|apply (pair_ne _ _ _ E)].
Qed.

Lemma stand_in_idemp n : stand_in (stand_in n) = stand_in n.
Proof.
  destruct (stand_in_cases n) as [E|(f & i0 & Hp & -> & _)]; [by rewrite !E|]. by apply stand_in_pair in Hp as (_ & ? & _).
Qed.

Lemma is_new_spec n : is_new n = true ↔ ∃ f i1, pair f n i1.
Proof.
  unfold is_new. split.
  - destruct (foreach_fanin ntk n) as [|f [|]]; try done. destruct (pair_of f) as [[i0 i1]|] eqn:E; [|done].
    intros ->%bool_decide_eq_true. exists f, i1. by apply pair_of_spec.
  - intros (f & i1 & Hp). by apply stand_in_pair in Hp as (_ & _ & ?).
Qed.

Lemma is_balanced_spec n : is_balanced n = true ↔ ∃ i0 i1, pair n i0 i1.
Proof.
  unfold is_balanced. rewrite bool_decide_eq_true. split.
  - intros [[i0 i1] E]. exists i0, i1. by apply pair_of_spec.
  - intros (i0 & i1 & Hp). exists (i0, i1). by apply pair_of_spec.
Qed.

(** The users of balanced nodes. *)
Lemma user_of_balanced g c :
  gate_node ntk g → c ∈ foreach_fanin ntk g → is_balanced c = true →
  is_new g = true ∨ stand_in g ≠ g.
Proof.
  intros Hg Hc (i0 & i1 & Hp)%is_balanced_spec. destruct (pair_users _ _ _ Hp g Hg Hc) as [-> | ->].
  - left. apply is_new_spec. eauto.
  - right. destruct (stand_in_pair _ _ _ Hp) as (-> & _). apply (pair_ne _ _ _ Hp).
Qed.

Lemma inverter_not_balanced n : literal_is ntk n 3 → is_balanced n = false.
Proof.
  intros H3. destruct (is_balanced n) eqn:E; [|done]. apply is_balanced_spec in E as (i0 & i1 & Hp).
  pose proof (literal_unique ntk n 2 3 (pair_buffer _ _ _ Hp) H3). lia.
Qed.

Lemma stand_in_balanced n : is_balanced (stand_in n) = is_balanced n.
Proof.
  destruct (stand_in_cases n) as [->|(f & i0 & Hp & -> & _)]; [done|].
  rewrite !inverter_not_balanced; [done|apply (pair_inverter _ _ _ Hp); auto..].
Qed.

Lemma balanced_stand_in n : is_balanced n = true → stand_in n = n ∧ is_new n = false.
Proof.
  intros Hb. split.
  - destruct (stand_in_cases n) as [?|(f & i0 & Hp & _)]; [done|].
    rewrite (inverter_not_balanced n) in Hb; [done|]. apply (pair_inverter _ _ _ Hp). by right.
  - destruct (is_new n) eqn:E; [|done]. apply is_new_spec in E as (f & i1 & Hp).
    rewrite (inverter_not_balanced n) in Hb; [done|]. apply (pair_inverter _ _ _ Hp). by left.
Qed.

(** Both inverters of a pair have the same value. *)
Lemma stand_in_value ins n : value ntk ins (stand_in n) = value ntk ins n.
Proof.
  destruct (stand_in_cases n) as [->|(f & i0 & Hp & -> & _)]; [done|].
  assert (∀ i, i = i0 ∨ i = n → value ntk ins i = negb (value ntk ins f)) as Hv.
  { intros i (Hi & H3 & Hf)%(pair_inverter _ _ _ Hp). pose proof (topo_gate ntk i Hwf Hi) as Hg.
    rewrite value_gate_function, Hf by done. cbn [fmap list_fmap].
    rewrite (proj1 (balanceable_literal ntk i 3 1 Hntk Hg ltac:(set_solver)) H3). apply eval_negation. }
  by rewrite (Hv i0), (Hv n) by auto.
Qed.
End Pairs.
