(* ===== verification/InverterRun.v ===== *)
(** * A run of the balancing of inverters

    What [run] builds from a balanceable network: a network with a gate for each gate of the source but
    the second inverters of the pairs ([rebuilt]), with the functions and fanins of [InverterPairs.v]. *)

From S2P Require Import Prelude.
From S2P Require Import GateLevelLayout.
From S2P Require Import TechnologyNetwork.
From S2P Require Import TechnologyInvariant.
From S2P Require Import NetworkCopy.
From S2P Require Import GateCreation.
From S2P Require Import InverterBalancing.
From S2P Require Import InverterPairs.
#[local] Open Scope Z_scope.
Import Technology.
Import InverterBalancing.

(** The loop of [redirect] over the pairs of first and second inverters. *)
Definition redirected (ps : list (Z * Z)) (x : Z) : Z :=
  foldl (λ x p, if p.2 =? x then p.1 else x) x ps.

Lemma redirect_loop (pre ps : list (Z * Z)) x :
  foldl (λ r i, x ← r; d ← (pre ++ ps).*2 !! i; if d =? x then (pre ++ ps).*1 !! i else Some x)
    (Some x) (seq (length pre) (length ps)) = Some (redirected ps x).
Proof.
  revert pre x. induction ps as [|p ps IH]; intros pre x; [done|]. cbn [length seq foldl mbind option_bind].
  assert ((pre ++ p :: ps) !! length pre = Some p) as Hp by (by rewrite list_lookup_middle).
  rewrite !list_lookup_fmap, Hp. cbn [fmap option_fmap option_map mbind option_bind].
  assert (length (pre ++ [p]) = S (length pre)) as Hl by (rewrite length_app; simpl; lia).
  specialize (IH (pre ++ [p])). rewrite Hl, <-app_assoc in IH. cbn [app] in IH.
  unfold redirected. cbn [foldl]. destruct (p.2 =? x); apply IH.
Qed.

Section Run.
Context `{MT : GateLevel.Mockturtle} `{K : !Klut} `{ML : !GateLevel.MockturtleLaws} `{KL : !KlutLaws}.
Context `{KG : !KlutGates} `{V : !FanoutView} `{VL : !FanoutViewLaws}.
Context (ntk : network) (Hntk : balanceable ntk).
Implicit Types (s : network) (n g c m : Z) (pre post : list Z) (st : state).
#[local] Notation G := (topo_gates ntk).
#[local] Notation pair := (pair ntk).
#[local] Notation stand_in := (stand_in ntk).
#[local] Notation is_new := (is_new ntk).
#[local] Notation is_balanced := (is_balanced ntk).

Let Hwf : network_wf ntk.
Proof. apply (bal_ready _ Hntk). Qed.

(** ** The lists *)

(** The balanced nodes in [pre] with their inverters. *)
Definition balanced_in pre : list (Z * (Z * Z)) := pre ≫= λ n, from_option (λ p, [(n, p)]) [] (pair_of ntk n).

Lemma balanced_in_app pre post : balanced_in (pre ++ post) = balanced_in pre ++ balanced_in post.
Proof. apply bind_app. Qed.

Lemma balanced_in_elem pre n i0 i1 : (n, (i0, i1)) ∈ balanced_in pre ↔ n ∈ pre ∧ pair n i0 i1.
Proof.
  unfold balanced_in. rewrite list_elem_of_bind, <-(pair_of_spec ntk Hntk). split.
  - intros (k & Hin & Hk). destruct (pair_of ntk k) as [p|] eqn:E; simpl in Hin.
    + apply list_elem_of_singleton in Hin as [= -> <-]. done.
    + by apply not_elem_of_nil in Hin.
  - intros [Hn E]. exists n. rewrite E. split; [by left|done].
Qed.

(** The lists of a state when the nodes [pre] are collected. *)
Record lists pre st : Prop := {
  li_blc : blc_fos st = (balanced_in pre).*1;
  li_pairs : ∃ ps, ps = (balanced_in pre).*2 ∧ new_inv st = ps.*1 ∧ del_inv st = ps.*2;
}.

Lemma all_inverters_spec (v : list Z) :
  Forall (gate_node ntk) v →
  all_inverters ntk v = Some (bool_decide (Forall (λ g, literal_is ntk g 3) v)).
Proof.
  induction 1 as [|g v Hg _ IH]; [done|]. simpl. unfold is_inv. rewrite has_literal_gate by done.
  cbn [mbind option_bind]. rewrite IH. destruct (decide (literal_is ntk g 3)) as [H3|H3].
  - rewrite (bool_decide_true (literal_is ntk g 3)) by done. f_equal. apply bool_decide_ext. rewrite Forall_cons. tauto.
  - rewrite (bool_decide_false (literal_is ntk g 3)) by done. f_equal. symmetry.
    apply bool_decide_false. rewrite Forall_cons. tauto.
Qed.

Lemma balanceable_fanouts_spec (v : list Z) :
  Forall (gate_node ntk) v →
  balanceable_fanouts ntk v = Some (bool_decide (Forall (λ g, literal_is ntk g 3) v ∧ (1 < length v)%nat)).
Proof.
  intros Hv. unfold balanceable_fanouts. rewrite all_inverters_spec by done. cbn [mbind option_bind]. f_equal.
  rewrite bool_decide_and. f_equal.
  destruct (Z.ltb_spec 1 (Z.of_nat (length v))); symmetry; [apply bool_decide_true|apply bool_decide_false]; lia.
Qed.

Lemma is_buf_spec g : gate_node ntk g → is_buf ntk g = Some (bool_decide (literal_is ntk g 2)).
Proof.
  intros Hg. unfold is_buf. rewrite has_literal_gate, klut_is_pi by done. cbn [fmap option_fmap option_map].
  rewrite (bool_decide_false (g ∈ inputs ntk)) by apply Hg. by rewrite andb_true_r.
Qed.

(** At least two nodes use the node. *)
Lemma fanouts_fanout_size g (v : list Z) :
  gate_node ntk g → literal_is ntk g 2 → NoDup v → (∀ h, h ∈ v → gate_node ntk h ∧ g ∈ foreach_fanin ntk h) →
  (1 < length v)%nat → 1 < fanout_size ntk g.
Proof.
  intros Hg Hl Hnd Hv Hlen. pose proof (bal_uses _ Hntk g Hg) as Hu. rewrite decide_True in Hu by done.
  pose proof (users_sum ntk g v Hnd) as Hs. pose proof (occurrences_nonneg g (outputs ntk)).
  pose proof (occurrences_users ntk g v (λ h Hh, proj2 (Hv h Hh))).
  assert (∀ h, h ∈ v → 0 <= h < num_nodes ntk) as Hr by (intros h [[? _] _]%Hv; lia). specialize (Hs Hr).
  rewrite (wf_uses _ Hwf) by (destruct Hg; lia). unfold wrap. rewrite Z.mod_small; lia.
Qed.

Lemma fanout_gates n : Forall (gate_node ntk) (topo_foreach_fanout ntk n).
Proof. apply Forall_forall. intros g [_ Hg]%(fanout_elem ntk). by apply topo_gate. Qed.

Lemma collect_spec pre st g :
  g ∈ G → lists pre st →
  ∃ st', collect ntk st g = Some st' ∧ lists (pre ++ [g]) st' ∧
    ntk_dest st' = ntk_dest st ∧ old2new st' = old2new st.
Proof.
  intros Hg [Hb (ps & Hps & Hn & Hd)]. pose proof (topo_gate ntk g Hwf Hg) as Hgg.
  unfold collect, is_fanout. rewrite is_buf_spec by done. cbn [mbind option_bind].
  assert (pair_of ntk g = None → lists (pre ++ [g]) st) as Hnone.
  { intros E. assert (balanced_in (pre ++ [g]) = balanced_in pre) as E'.
    { rewrite balanced_in_app. unfold balanced_in at 2. simpl. rewrite E. apply app_nil_r. }
    split; rewrite E'; [done|]. by exists ps. }
  rewrite balanceable_fanouts_spec by apply fanout_gates. cbn [mbind option_bind].
  case_bool_decide as Hl; cbn [andb].
  2: { exists st. split_and!; [done| |done..]. apply Hnone. unfold pair_of. rewrite bool_decide_false; [done|]. tauto. }
  case_bool_decide as Hf.
  - destruct Hf as [Hinv Hlen]. rewrite (proj2 (Z.ltb_lt _ _)).
    2: { apply (fanouts_fanout_size g (topo_foreach_fanout ntk g)); try done; [by apply fanout_NoDup|].
         intros h [? ?]%(fanout_elem ntk). split; [by apply topo_gate|done]. }
    assert (∃ i0 i1, topo_foreach_fanout ntk g !! 0%nat = Some i0 ∧ topo_foreach_fanout ntk g !! 1%nat = Some i1 ∧
      pair_of ntk g = Some (i0, i1)) as (i0 & i1 & E0 & E1 & E).
    { unfold pair_of. rewrite bool_decide_true by done.
      destruct (topo_foreach_fanout ntk g) as [|i0 [|i1 v]]; simpl in Hlen; try lia. by exists i0, i1. }
    rewrite E0, E1. cbn [mbind option_bind]. eexists. split; [done|]. split; [|done].
    assert (balanced_in (pre ++ [g]) = balanced_in pre ++ [(g, (i0, i1))]) as E'.
    { rewrite balanced_in_app. unfold balanced_in at 2. simpl. by rewrite E. }
    split; cbn [blc_fos new_inv del_inv]; rewrite E', fmap_app; [by rewrite Hb|].
    exists (ps ++ [(i0, i1)]). rewrite Hps, Hn, Hd, Hps, !fmap_app. done.
  - assert (pair_of ntk g = None) as E.
    { unfold pair_of. case_bool_decide as Hp; [|done]. destruct Hp as (_ & _ & Hinv).
      destruct (topo_foreach_fanout ntk g) as [|i0 [|i1 v]]; try done. destruct Hf. split; [done|simpl; lia]. }
    exists st. split_and!; [|by apply Hnone|done..]. by destruct (1 <? fanout_size ntk g).
Qed.

(** The nodes in the lists. *)
Section Lists.
Context pre st (Hl : lists pre st).

Lemma new_inv_elem g : g ∈ new_inv st ↔ ∃ n i1, n ∈ pre ∧ pair n g i1.
Proof.
  destruct (li_pairs _ _ Hl) as (ps & -> & -> & _). rewrite <-list_fmap_compose, list_elem_of_fmap. split.
  - intros ([n [i0 i1]] & -> & [? ?]%balanced_in_elem). by exists n, i1.
  - intros (n & i1 & ? & ?). exists (n, (g, i1)). split; [done|]. by apply balanced_in_elem.
Qed.
Lemma del_inv_elem g : g ∈ del_inv st ↔ ∃ n i0, n ∈ pre ∧ pair n i0 g.
Proof.
  destruct (li_pairs _ _ Hl) as (ps & -> & _ & ->). rewrite <-list_fmap_compose, list_elem_of_fmap. split.
  - intros ([n [i0 i1]] & -> & [? ?]%balanced_in_elem). by exists n, i0.
  - intros (n & i0 & ? & ?). exists (n, (i0, g)). split; [done|]. by apply balanced_in_elem.
Qed.
Lemma blc_fos_elem g : g ∈ blc_fos st ↔ g ∈ pre ∧ is_balanced g = true.
Proof.
  rewrite (li_blc _ _ Hl), list_elem_of_fmap, is_balanced_spec by done. split.
  - intros ([n [i0 i1]] & -> & [? ?]%balanced_in_elem). split; [done|]. by exists i0, i1.
  - intros (? & i0 & i1 & ?). exists (g, (i0, i1)). split; [done|]. by apply balanced_in_elem.
Qed.

(** A node is replaced when its fanin is in the lists. *)
Lemma redirected_fixed (ps : list (Z * Z)) x :
  (∀ p, p ∈ ps → stand_in p.2 = p.1 ∧ p.1 ≠ p.2) → stand_in x = x → redirected ps x = x.
Proof.
  intros Hps Hx. unfold redirected. induction ps as [|p ps IH]; [done|]. simpl.
  destruct (Z.eqb_spec p.2 x) as [E|].
  - destruct (Hps p (list_elem_of_here _ _)) as [E' Hne]. rewrite E, Hx in E'. congruence.
  - apply IH. intros q Hq. apply Hps. by right.
Qed.

Lemma redirected_spec (ps : list (Z * Z)) x :
  (∀ p, p ∈ ps → stand_in p.2 = p.1 ∧ p.1 ≠ p.2) → (stand_in x ≠ x → x ∈ ps.*2) → redirected ps x = stand_in x.
Proof.
  intros Hps Hx. destruct (decide (stand_in x = x)) as [E|Hne]; [by rewrite redirected_fixed|].
  specialize (Hx Hne). induction ps as [|p ps IH]; [by apply not_elem_of_nil in Hx|]. unfold redirected. simpl.
  destruct (Z.eqb_spec p.2 x) as [E|].
  - destruct (Hps p (list_elem_of_here _ _)) as [E' _]. rewrite E in E'. rewrite <-E'. apply redirected_fixed.
    + intros q Hq. apply Hps. by right.
    + by apply stand_in_idemp.
  - apply IH; [intros q Hq; apply Hps; by right|]. simpl in Hx. set_solver.
Qed.

Lemma redirect_spec x : (∀ n i0, pair n i0 x → n ∈ pre) → redirect st x = Some (stand_in x).
Proof.
  intros Hx. unfold redirect. pose proof (li_pairs _ _ Hl) as (ps & Hps & -> & ->).
  assert (length (blc_fos st) = length ps) as -> by (rewrite (li_blc _ _ Hl), Hps; by rewrite !length_fmap).
  etrans; [exact (redirect_loop [] ps x)|]. f_equal. subst ps. apply redirected_spec.
  - intros [i0 i1] Hp. apply list_elem_of_fmap in Hp as ([n p] & E & Hp). simpl in E. subst p.
    apply balanced_in_elem in Hp as [_ Hp]. split; [by apply (stand_in_pair ntk Hntk n)|apply (pair_ne _ _ _ _ Hp)].
  - intros Hne. destruct (stand_in_cases ntk Hntk x) as [?|(n & i0 & Hp & _)]; [done|].
    rewrite <-list_fmap_compose, list_elem_of_fmap. exists (n, (i0, x)). split; [done|].
    apply balanced_in_elem. split; [by eapply Hx|done].
Qed.
End Lists.

(** ** The gates of the result *)

(** The function of the gate for a node. *)
Definition new_function n : truth_table :=
  if is_balanced n then fixed_table 3 else if is_new n then fixed_table 2 else gate_function ntk n.

(** A gate with function [f] and fanins [cs] is added. *)
Record gate_added s cs (f : truth_table) s' : Prop := {
  ga_literal : ∃ k, added s cs k s' ∧ canonical (cache s') k ∧ GateLevel.cache_at (cache s') k = f;
  ga_cache : rtc inserted (cache s) (cache s');
}.

Lemma create_fixed s cs k (a : nat) :
  ready s → (k, a) ∈ arities → Forall (λ c, 0 <= c < num_nodes s) cs → cs ≠ [] →
  ∃ s', create_node_from_literal s cs k = Some (s', num_nodes s) ∧ gate_added s cs (fixed_table k) s'.
Proof.
  intros Hs Hk Hcs Hne. destruct (fixed_literal s k a Hs Hk) as [Hc E].
  destruct (create_node_from_literal_spec s cs k) as (s' & -> & Ha & Ec); [apply Hs|done|done|apply Hc|].
  exists s'. split; [done|]. split; [|by rewrite Ec]. exists k. by rewrite Ec.
Qed.

Lemma create_function s cs f :
  ready s → Forall (λ c, 0 <= c < num_nodes s) cs → cs ≠ [] →
  ∃ s', create_node s cs f = Some (s', num_nodes s) ∧ gate_added s cs f s'.
Proof.
  intros Hs Hcs Hne. destruct (create_node_spec s cs f) as (s' & E & Ha & Hf); [apply Hs|done|done|].
  pose proof (create_node_cache s cs f s' _ Hne E Hcs) as Hc. exists s'. split; [done|]. split.
  - exists (GateLevel.cache_insert (cache s) f).1. split_and!; [done| |done]. rewrite Hc. apply cache_insert_canonical.
  - rewrite Hc. apply rtc_once. by exists f.
Qed.

(** A literal that [copy_gate] tests for. *)
Lemma copy_literal s cs g k (a : nat) :
  ready s → gate_node ntk g → (k, a) ∈ arities → literal_is ntk g k →
  Forall (λ c, 0 <= c < num_nodes s) cs → cs ≠ [] →
  ∃ s', create_node_from_literal s cs k = Some (s', num_nodes s) ∧ gate_added s cs (gate_function ntk g) s'.
Proof.
  intros Hs Hg Hk Hl Hcs Hne. rewrite (proj1 (balanceable_literal ntk g k a Hntk Hg Hk) Hl). by eapply create_fixed.
Qed.

Lemma copy_gate_spec s cs g :
  ready s → gate_node ntk g → length cs = length (foreach_fanin ntk g) →
  Forall (λ c, 0 <= c < num_nodes s) cs →
  ∃ s', copy_gate ntk s cs g = Some (s', num_nodes s) ∧ gate_added s cs (gate_function ntk g) s'.
Proof.
  intros Hs Hg Hlen Hcs. assert (cs ≠ []) as Hne.
  { intros ->. apply (wf_gates _ Hwf g Hg). by destruct (foreach_fanin ntk g). }
  assert (∀ k (a : nat), (k, a) ∈ arities → literal_is ntk g k → length cs = a) as Har.
  { intros k a Hk Hl. rewrite Hlen. by apply (bal_arity _ Hntk g k). }
  unfold copy_gate, is_and, is_or, is_xor, is_maj. rewrite !has_literal_gate by done. cbn [mbind option_bind].
  destruct (bool_decide (literal_is ntk g 4)) eqn:E4.
  { apply bool_decide_eq_true in E4. pose proof (Har 4 2%nat ltac:(set_solver) E4) as Hn.
    destruct cs as [|a [|b [|]]]; try done. apply (copy_literal s [a; b] g 4 2); done || set_solver. }
  destruct (bool_decide (literal_is ntk g 6)) eqn:E6.
  { apply bool_decide_eq_true in E6. pose proof (Har 6 2%nat ltac:(set_solver) E6) as Hn.
    destruct cs as [|a [|b [|]]]; try done. apply (copy_literal s [a; b] g 6 2); done || set_solver. }
  destruct (bool_decide (literal_is ntk g 12)) eqn:E12.
  { apply bool_decide_eq_true in E12. pose proof (Har 12 2%nat ltac:(set_solver) E12) as Hn.
    destruct cs as [|a [|b [|]]]; try done. apply (copy_literal s [a; b] g 12 2); done || set_solver. }
  destruct (bool_decide (literal_is ntk g 14)) eqn:E14.
  { apply bool_decide_eq_true in E14. pose proof (Har 14 3%nat ltac:(set_solver) E14) as Hn.
    destruct cs as [|a [|b [|c [|]]]]; try done. apply (copy_literal s [a; b; c] g 14 3); done || set_solver. }
  destruct (fv_nary ntk g) as (-> & -> & ->).
  destruct (node_at ntk g) as [d Hd]; [destruct Hg; lia|]. rewrite (gate_function_at ntk g d Hd).
  unfold node_function. rewrite Hd. by apply create_function.
Qed.

(** ** The invariant of the loop *)

(** The gate [m] of [s] stands for the gate [n]. *)
Record image s (img : gmap Z Z) n m : Prop := {
  im_gate : gate_node s m;
  im_function : ∃ d, vec_at (nodes s) m = Some d ∧ canonical (cache s) (GateLevel.literal d) ∧
    GateLevel.cache_at (cache s) (GateLevel.literal d) = new_function n;
  im_fanins : Forall2 (λ c f, img !! stand_in f = Some c) (foreach_fanin s m) (foreach_fanin ntk n);
}.

(** The network [s] has copies of the nodes in [pre]; [img] maps nodes to their copies. *)
Record copies pre s (img : gmap Z Z) : Prop := {
  cp_ready : ready s;
  cp_inputs : inputs s = seqZ 2 (Z.of_nat (length (inputs ntk)));
  cp_keys n m : img !! n = Some m → copied_node ntk pre n ∧ stand_in n = n;
  cp_node n : copied_node ntk pre n → stand_in n = n → ∃ m, img !! n = Some m ∧ 0 <= m < num_nodes s ∧
    (n = 0 ∨ n = 1 → m = n) ∧ ∀ i, inputs ntk !! i = Some n → m = 2 + Z.of_nat i;
  cp_gate n m : n ∈ pre → img !! n = Some m → image s img n m;
  cp_image m : gate_node s m → ∃ n, n ∈ pre ∧ img !! n = Some m;
  cp_inj n1 n2 m : n1 ∈ pre → n2 ∈ pre → img !! n1 = Some m → img !! n2 = Some m → n1 = n2;
}.

Lemma stand_in_source n : ¬ gate_node ntk n → stand_in n = n.
Proof.
  intros Hn. destruct (stand_in_cases ntk Hntk n) as [?|(f & i0 & Hp & _)]; [done|]. destruct Hn.
  apply topo_gate; [done|]. apply (pair_inverter _ _ _ _ Hp). by right.
Qed.

Lemma copied_cases pre n :
  copied_node ntk pre n → (n = 0 ∨ n = 1) ∨ (∃ i, inputs ntk !! i = Some n) ∨ n ∈ pre.
Proof. intros [?|[?|[Hn|?]]]; [tauto..| |tauto]. apply list_elem_of_lookup in Hn. tauto. Qed.

Lemma source_not_gate n : (n = 0 ∨ n = 1) ∨ (∃ i, inputs ntk !! i = Some n) → ¬ gate_node ntk n.
Proof. intros [?|[i Hi%list_elem_of_lookup_2]] [? ?]; [lia|done]. Qed.

(** Copies are at least 2 if the nodes are. *)
Lemma copies_ge pre s img n m : copies pre s img → img !! n = Some m → 2 <= n → 2 <= m.
Proof.
  intros Hc Hm Hn. destruct (cp_keys _ _ _ Hc n m Hm) as [Hcp Hs].
  destruct (cp_node _ _ _ Hc n Hcp Hs) as (m' & Hm' & _ & _ & Hi). simplify_eq.
  destruct (copied_cases pre n Hcp) as [?|[[i E]|Hp]]; [lia|rewrite (Hi i E); lia|].
  apply (cp_gate _ _ _ Hc n m Hp Hm).
Qed.

Lemma image_grows s s' img img' n m :
  grows s s' → img ⊆ img' → image s img n m → image s' img' n m.
Proof.
  intros Hg Hsub [Hm (d & Hd & Hc & Hf) Hfs]. pose proof (grows_extends _ _ Hg) as He.
  pose proof (extends_num_nodes _ _ He). split.
  - destruct Hm. split; [lia|by rewrite (ext_inputs _ _ He)].
  - destruct (ext_nodes _ _ He m d Hd) as (d' & Hd' & _ & El). exists d'. rewrite El.
    destruct (inserted_canonical _ _ _ (grows_cache _ _ Hg) Hc) as [? ->]. done.
  - rewrite (extends_fanin s s') by (done || (destruct Hm; lia)). eapply Forall2_impl; [exact Hfs|].
    intros c f Hcf. exact (lookup_weaken _ _ _ _ Hcf Hsub).
Qed.

(** *** The order of the gates *)

Lemma fanin_before pre g post f :
  G = pre ++ g :: post → f ∈ foreach_fanin ntk g → copied_node ntk pre f.
Proof. apply fanin_copied. done. Qed.

Lemma gate_before pre g post f :
  G = pre ++ g :: post → f ∈ foreach_fanin ntk g → gate_node ntk f → f ∈ pre.
Proof. intros Ht Hf Hg. by eapply topo_gates_order; [apply fanins_earlier|..]. Qed.

(** The balanced node and the first inverter are before the second inverter. *)
Lemma pair_before pre post n i0 i1 : G = pre ++ i1 :: post → pair n i0 i1 → n ∈ pre ∧ i0 ∈ pre.
Proof.
  intros Ht Hp. destruct (pair_inverter _ _ _ _ Hp i1) as (_ & _ & Hf); [by right|]. split.
  - apply (gate_before pre i1 post); [done|rewrite Hf; by left|]. by apply topo_gate, (pair_gate _ _ _ _ Hp).
  - pose proof (pair_fanouts _ _ _ _ Hp) as E. rewrite fv_topo_foreach_fanout, Ht, filter_app, filter_cons in E.
    rewrite decide_True in E by (rewrite Hf; by left).
    destruct (filter _ pre) as [|x v] eqn:Ex; injection E as E1 E2.
    + by destruct (pair_ne _ _ _ _ Hp).
    + assert (x ∈ filter (λ g, n ∈ foreach_fanin ntk g) pre) as Hx by (rewrite Ex; by left).
      apply list_elem_of_filter in Hx as [_ ?]. by subst.
Qed.

Lemma elem_before pre g post f : G = pre ++ g :: post → f ∈ pre → ∃ p q, G = p ++ f :: q ∧ p ⊆ pre.
Proof.
  intros Ht (p & q & ->)%list_elem_of_split. exists p, (q ++ g :: post). rewrite Ht, <-app_assoc.
  split; [done|]. intros x Hx. set_solver.
Qed.

(** The fanins of the next gate have copies. *)
Lemma child_copied pre g post f :
  G = pre ++ g :: post → f ∈ foreach_fanin ntk g → copied_node ntk pre (stand_in f).
Proof.
  intros Ht Hf. destruct (stand_in_cases ntk Hntk f) as [->|(n & i0 & Hp & -> & _)]; [by eapply fanin_before|].
  assert (f ∈ pre) as Hin.
  { apply (gate_before pre g post); [done|done|]. apply topo_gate; [done|]. apply (pair_inverter _ _ _ _ Hp). by right. }
  destruct (elem_before pre g post f Ht Hin) as (p & q & Hpq & Hsub).
  right. right. right. apply Hsub. by apply (pair_before p q n i0 f).
Qed.

Lemma pair_child_before pre g post f n i0 :
  G = pre ++ g :: post → f ∈ foreach_fanin ntk g → pair n i0 f → n ∈ pre.
Proof.
  intros Ht Hf Hp. assert (f ∈ pre) as Hin.
  { apply (gate_before pre g post); [done|done|]. apply topo_gate; [done|]. apply (pair_inverter _ _ _ _ Hp). by right. }
  destruct (elem_before pre g post f Ht Hin) as (p & q & Hpq & Hsub). apply Hsub. by apply (pair_before p q n i0 f).
Qed.

Lemma gather_children_spec pre g post st :
  G = pre ++ g :: post → lists pre st → copies pre (ntk_dest st) (old2new st) →
  ∃ st' cs, gather_fanin_signals ntk st g = Some (st', cs) ∧ lists (pre ++ [g]) st' ∧
    ntk_dest st' = ntk_dest st ∧ old2new st' = old2new st ∧
    Forall2 (λ c f, old2new st !! stand_in f = Some c) cs (foreach_fanin ntk g).
Proof.
  intros Ht Hl Hc. assert (g ∈ G) as Hg by (rewrite Ht; set_solver).
  destruct (collect_spec pre st g Hg Hl) as (st' & E & Hl' & Ed & Eo). unfold gather_fanin_signals. rewrite E.
  cbn [mbind option_bind].
  assert (∃ cs, Forall2 (λ f c, old2new st !! stand_in f = Some c) (foreach_fanin ntk g) cs) as [cs Hcs].
  { apply Forall_exists_Forall2_l, Forall_forall. intros f Hf.
    destruct (cp_node _ _ _ Hc (stand_in f)) as (c & ? & _); [by eapply child_copied|by apply stand_in_idemp|eauto]. }
  assert (mapM (child_of st') (foreach_fanin ntk g) = Some cs) as ->.
  { apply mapM_Some. assert (∀ f, f ∈ foreach_fanin ntk g → redirect st' f = Some (stand_in f)) as Hr.
    { intros f Hf. apply (redirect_spec (pre ++ [g])); [done|]. intros n i0 Hp. apply elem_of_app. left.
      by eapply pair_child_before. }
    clear -Hcs Hr Eo. induction Hcs as [|f c fs cs Hc _ IH]; [constructor|]. constructor.
    - unfold child_of. rewrite Hr by (by left). cbn [mbind option_bind]. by rewrite Eo, Hc.
    - apply IH. intros x Hx. apply Hr. by right. }
  exists st', cs. cbn [mbind option_bind]. split_and!; try done. by apply Forall2_flip.
Qed.

(** ** A step of the loop *)

Section Step.
Context pre g post st (Ht : G = pre ++ g :: post) (Hl : lists pre st).
Context (Hc : copies pre (ntk_dest st) (old2new st)).
#[local] Notation s := (ntk_dest st).

Let Hg : g ∈ G.
Proof. rewrite Ht. set_solver. Qed.
Let Hgate : gate_node ntk g.
Proof. by apply topo_gate. Qed.

Lemma step_fresh : g ∉ pre ∧ old2new st !! g = None.
Proof.
  assert (g ∉ pre) as Hn.
  { pose proof (topo_gates_NoDup ntk (fanins_earlier ntk Hwf)) as Hnd. rewrite Ht in Hnd.
    apply NoDup_app in Hnd as (_ & Hd & _). intros Hin. by apply (Hd g Hin), list_elem_of_here. }
  split; [done|]. destruct (old2new st !! g) as [m|] eqn:E; [|done].
  destruct (cp_keys _ _ _ Hc g m E) as [Hcp _]. destruct (copied_cases pre g Hcp) as [Hs|[Hs|?]]; [..|done];
    exfalso; apply (source_not_gate g); auto.
Qed.

Lemma child_copies_range cs :
  Forall2 (λ c f, old2new st !! stand_in f = Some c) cs (foreach_fanin ntk g) →
  Forall (λ c, 0 <= c < num_nodes s) cs.
Proof.
  induction 1 as [|c f cs fs Hcf _ IH]; [constructor|]. constructor; [|done].
  destruct (cp_keys _ _ _ Hc _ _ Hcf) as [Hcp Hs]. destruct (cp_node _ _ _ Hc _ Hcp Hs) as (m & Hm & Hr & _).
  by simplify_eq.
Qed.

(** The conditions of the branches. *)
Lemma new_condition st' :
  lists (pre ++ [g]) st' →
  bool_decide (literal_is ntk g 3) && bool_decide (g ∈ new_inv st') = is_new g.
Proof.
  intros Hl'. destruct (is_new g) eqn:E.
  - apply is_new_spec in E as (f & i1 & Hp); [|done]. destruct (pair_inverter _ _ _ _ Hp g) as (_ & H3 & Hf); [by left|].
    rewrite !bool_decide_true; [done| |done]. apply (new_inv_elem (pre ++ [g]) st' Hl'). exists f, i1.
    split; [|done]. apply elem_of_app. left. apply (gate_before pre g post); [done|rewrite Hf; by left|].
    by apply topo_gate, (pair_gate _ _ _ _ Hp).
  - apply andb_false_iff. right. apply bool_decide_false. intros (f & i1 & _ & Hp)%(new_inv_elem (pre ++ [g]) st' Hl').
    assert (is_new g = true) by (apply is_new_spec; eauto). congruence.
Qed.

Lemma deleted_condition st' :
  lists (pre ++ [g]) st' →
  bool_decide (literal_is ntk g 3) && bool_decide (g ∈ del_inv st') = bool_decide (stand_in g ≠ g).
Proof.
  intros Hl'. destruct (decide (stand_in g = g)) as [E|Hne].
  - rewrite (bool_decide_false (stand_in g ≠ g)) by tauto. apply andb_false_iff. right. apply bool_decide_false.
    intros (f & i0 & _ & Hp)%(del_inv_elem (pre ++ [g]) st' Hl').
    destruct (stand_in_pair ntk Hntk _ _ _ Hp) as (E' & _). pose proof (pair_ne _ _ _ _ Hp). congruence.
  - rewrite (bool_decide_true (stand_in g ≠ g)) by done.
    destruct (stand_in_cases ntk Hntk g) as [?|(f & i0 & Hp & _)]; [done|].
    destruct (pair_inverter _ _ _ _ Hp g) as (_ & H3 & Hf); [by right|].
    rewrite !bool_decide_true; [done| |done]. apply (del_inv_elem (pre ++ [g]) st' Hl'). exists f, i0.
    split; [|done]. apply elem_of_app. left. by apply (pair_before pre post f i0 g).
Qed.

Lemma balanced_condition st' :
  lists (pre ++ [g]) st' →
  bool_decide (literal_is ntk g 2) && bool_decide (g ∈ blc_fos st') = is_balanced g.
Proof.
  intros Hl'. pose proof (blc_fos_elem (pre ++ [g]) st' Hl' g) as Hb. destruct (is_balanced g) eqn:E.
  - pose proof E as (i0 & i1 & Hp)%is_balanced_spec; [|done]. rewrite !bool_decide_true; [done| |].
    + apply Hb. set_solver.
    + apply (pair_buffer _ _ _ _ Hp).
  - apply andb_false_iff. right. apply bool_decide_false. rewrite Hb. naive_solver.
Qed.

Lemma unary_children cs c :
  Forall2 (λ c f, old2new st !! stand_in f = Some c) cs (foreach_fanin ntk g) →
  foreach_fanin ntk g = [c] → ∃ a, cs = [a] ∧ old2new st !! stand_in c = Some a.
Proof.
  intros Hcs E. rewrite E in Hcs. apply Forall2_cons_inv_r in Hcs as (a & cs' & Ha & Hcs & ->).
  apply Forall2_nil_inv_r in Hcs as ->. eauto.
Qed.

(** The gate that is created for [g]. *)
Lemma create_spec st' cs :
  ntk_dest st' = s → old2new st' = old2new st → lists (pre ++ [g]) st' →
  Forall2 (λ c f, old2new st !! stand_in f = Some c) cs (foreach_fanin ntk g) → stand_in g = g →
  ∃ s', (if is_new g then a ← cs !! 0%nat; assign st' g (create_buf (ntk_dest st') a)
         else if is_balanced g then a ← cs !! 0%nat; assign st' g (create_not (ntk_dest st') a)
         else assign st' g (copy_gate ntk (ntk_dest st') cs g)) =
        Some (State s' (<[g := num_nodes s]> (old2new st)) (del_inv st') (new_inv st') (blc_fos st')) ∧
    gate_added s cs (new_function g) s'.
Proof.
  intros Ed Eo Hl' Hcs Hs. rewrite Ed. unfold assign. rewrite Eo. pose proof (child_copies_range cs Hcs) as Hr.
  pose proof (cp_ready _ _ _ Hc) as Hrd. unfold new_function. destruct (is_new g) eqn:En.
  - apply is_new_spec in En as (f & i1 & Hp); [|done]. destruct (pair_inverter _ _ _ _ Hp g) as (_ & H3 & Hf); [by left|].
    rewrite (inverter_not_balanced ntk Hntk g H3). destruct (unary_children cs f Hcs Hf) as (a & -> & _). simpl.
    destruct (create_fixed s [a] 2 1 Hrd) as (s' & E & Ha); [set_solver|done|done|]. unfold create_buf.
    rewrite E. by exists s'.
  - destruct (is_balanced g) eqn:Eb.
    + apply is_balanced_spec in Eb as (i0 & i1 & Hp); [|done]. pose proof (pair_buffer _ _ _ _ Hp) as H2.
      pose proof (bal_arity _ Hntk g 2 1 Hgate ltac:(set_solver) H2) as Hlen.
      destruct (foreach_fanin ntk g) as [|f [|]] eqn:Ef; try done. rewrite <-Ef in Hcs.
      destruct (unary_children cs f Hcs Ef) as (a & -> & Ha). simpl.
      assert (2 <= a) as Ha2.
      { apply (copies_ge pre s (old2new st) (stand_in f)); [done|done|].
        destruct (stand_in_cases ntk Hntk f) as [->|(n & i & Hpn & -> & _)].
        - apply (bal_buffers _ Hntk g f Hgate H2). rewrite Ef. by left.
        - destruct (pair_inverter _ _ _ _ Hpn i) as (Hi & _); [by left|].
          apply topo_gate in Hi; [|done]. destruct Hi. lia. }
      unfold create_not. rewrite klut_is_constant, bool_decide_false by lia.
      destruct (create_fixed s [a] 3 1 Hrd) as (s' & E & Hga); [set_solver|done|done|]. rewrite E. by exists s'.
    + destruct (copy_gate_spec s cs g Hrd Hgate) as (s' & E & Ha); [by eapply Forall2_length|done|].
      rewrite E. by exists s'.
Qed.

(** The next state. *)
Lemma balance_gate_spec :
  ∃ st', balance_gate ntk st g = Some st' ∧ lists (pre ++ [g]) st' ∧
    if decide (stand_in g = g) then
      old2new st' = <[g := num_nodes s]> (old2new st) ∧
      ∃ cs, gate_added s cs (new_function g) (ntk_dest st') ∧
        Forall2 (λ c f, old2new st !! stand_in f = Some c) cs (foreach_fanin ntk g)
    else ntk_dest st' = s ∧ old2new st' = old2new st.
Proof.
  destruct (gather_children_spec pre g post st Ht Hl Hc) as (st1 & cs & E & Hl1 & Ed & Eo & Hcs).
  unfold balance_gate. rewrite E. cbn [mbind option_bind]. unfold is_inv.
  rewrite has_literal_gate by done. cbn [mbind option_bind].
  rewrite (new_condition st1 Hl1), (deleted_condition st1 Hl1). rewrite is_buf_spec by done. cbn [mbind option_bind].
  rewrite (balanced_condition st1 Hl1). destruct (decide (stand_in g = g)) as [Hs|Hne].
  - destruct (create_spec st1 cs Ed Eo Hl1 Hcs Hs) as (s' & Es & Ha).
    rewrite (bool_decide_false (stand_in g ≠ g)) by tauto. eexists. split; [exact Es|]. split; [|split; [done|]].
    + destruct Hl1 as [? ?]. by split.
    + by exists cs.
  - rewrite (bool_decide_true (stand_in g ≠ g)) by done. destruct (is_new g) eqn:En.
    { apply is_new_spec in En as (f & i1 & Hp); [|done]. by destruct (stand_in_pair ntk Hntk _ _ _ Hp) as (_ & ? & _). }
    by exists st1.
Qed.

Lemma balance_gate_copies st' :
  balance_gate ntk st g = Some st' → copies (pre ++ [g]) (ntk_dest st') (old2new st') ∧
    grows s (ntk_dest st').
Proof.
  destruct balance_gate_spec as (st2 & E & Hl2 & Hst). rewrite E. intros [= <-]. destruct step_fresh as [Hni Hno].
  case_decide as Hs.
  2: { destruct Hst as [-> ->]. split; [|done]. destruct Hc as [Hr Hi Hk Hn Hgt Him Hinj].
    assert (∀ n m, n ∈ pre ++ [g] → old2new st !! n = Some m → n ∈ pre) as Hin.
    { intros n m [?| ->%list_elem_of_singleton]%elem_of_app Hm; [done|congruence]. }
    split; try done.
    - intros n m Hm. destruct (Hk n m Hm) as [Hcp ?]. split; [|done]. unfold copied_node in *. set_solver.
    - intros n Hcp Hsn. apply Hn; [|done]. unfold copied_node in *. set_solver.
    - intros n m Hnp Hm. apply Hgt; [by eapply Hin|done].
    - intros m (n & ? & ?)%Him. exists n. set_solver.
    - intros n1 n2 m H1 H2 E1 E2. apply (Hinj n1 n2 m); eauto. }
  destruct Hst as (-> & cs & [(k & Ha & Hk & Hf) Hca] & Hcs). set (s' := ntk_dest st2) in *.
  pose proof (gate_added_grows _ _ _ _ Ha Hca) as Hgr. split; [|done].
  pose proof (added_num _ _ _ _ Ha) as Hnum. pose proof (grows_extends _ _ Hgr) as He.
  destruct Hc as [Hr Hi Hkeys Hn Hgt Him Hinj].
  pose proof (wf_constants _ (proj1 Hr)) as H2. assert (old2new st ⊆ <[g := num_nodes s]> (old2new st)) as Hsub
    by (by apply insert_subseteq).
  assert (∀ n, n ∈ pre → n ≠ g) as Hng by (intros n Hnp ->; done).
  assert (∀ n m, n ∈ pre → old2new st !! n = Some m → m < num_nodes s) as Hlt.
  { intros n m Hnp Hm. destruct (Hgt n m Hnp Hm) as [[? _] _ _]. lia. }
  split.
  - by apply (grows_ready _ _ Hgr).
  - by rewrite (ext_inputs _ _ He).
  - intros n m [[<- <-]|[? Hm]]%lookup_insert_Some.
    + split; [|done]. unfold copied_node. set_solver.
    + destruct (Hkeys n m Hm) as [Hcp ?]. split; [|done]. unfold copied_node in *. set_solver.
  - intros n Hcp Hsn. destruct (decide (n = g)) as [->|].
    + exists (num_nodes s). rewrite lookup_insert_eq. split_and!; [done|lia|lia|destruct Hgate; lia|].
      intros i Hin%list_elem_of_lookup_2. by destruct Hgate.
    + rewrite lookup_insert_ne by done. destruct (Hn n) as (m & ? & ? & ? & ?); [|done|].
      * unfold copied_node in *. set_solver.
      * exists m. split_and!; [done|lia|lia|done|done].
  - intros n m [Hnp| ->%list_elem_of_singleton]%elem_of_app Hm.
    + rewrite lookup_insert_ne in Hm by (symmetry; by apply Hng).
      apply (image_grows s s' (old2new st)); [done|done|by apply Hgt].
    + rewrite lookup_insert_eq in Hm. injection Hm as <-. split.
      * exact (added_gate s cs k s' (proj1 Hr) Ha).
      * destruct (has_literal_node _ _ _ (added_literal _ _ _ _ Ha)) as (d & Hd & E'). exists d. rewrite E'. done.
      * rewrite (added_fanin _ _ _ _ Ha). eapply Forall2_impl; [exact Hcs|].
        intros c f Hcf. exact (lookup_weaken _ _ _ _ Hcf Hsub).
  - intros m [Hm1 Hm2]. destruct (decide (m = num_nodes s)) as [->|].
    + exists g. rewrite lookup_insert_eq. split; [set_solver|done].
    + assert (gate_node s m) as Hm by (split; [lia|by rewrite <-(ext_inputs _ _ He)]).
      apply Him in Hm as (x & Hnp & Hm). exists x. rewrite lookup_insert_ne by (symmetry; by apply Hng).
      split; [set_solver|done].
  - intros n1 n2 m [Hp1| ->%list_elem_of_singleton]%elem_of_app [Hp2| ->%list_elem_of_singleton]%elem_of_app.
    + rewrite !lookup_insert_ne by (symmetry; by apply Hng). by apply Hinj.
    + rewrite lookup_insert_eq, lookup_insert_ne by (symmetry; by apply Hng). intros H1 [= <-].
      specialize (Hlt n1 _ Hp1 H1). lia.
    + rewrite lookup_insert_eq, lookup_insert_ne by (symmetry; by apply Hng). intros [= <-] H1.
      specialize (Hlt n2 _ Hp2 H1). lia.
    + done.
Qed.
End Step.

(** ** The result *)

Lemma initial_copies :
  copies [] (initialize_copy_network ntk).1 (initialize_copy_network ntk).2 ∧
  outputs (initialize_copy_network ntk).1 = [] ∧
  lists [] (State (initialize_copy_network ntk).1 (initialize_copy_network ntk).2 [] [] []).
Proof.
  pose proof (initial_only_inputs ntk) as [Hs Hn Hi Ho _].
  destruct (klut_initialize_copy_network ntk) as (E & Hconst & Hpi & Hkeys).
  pose proof (initial_ready (inputs ntk)) as Hr. rewrite <-E in Hr.
  split; [|by split; [|split; [|by exists []]]]. split; try done.
  - intros n m Hm. assert (is_constant ntk n = true ∨ n ∈ inputs ntk) as Hk by (apply Hkeys; congruence).
    rewrite klut_is_constant, bool_decide_eq_true in Hk. split; [unfold copied_node; tauto|].
    apply stand_in_source. intros [? ?]. destruct Hk as [?|?]; [lia|done].
  - intros n Hcp _. destruct (copied_cases [] n Hcp) as [Hc|[[i Hin]|Hin]]; [..|by apply not_elem_of_nil in Hin].
    + exists n. split_and!; [|lia..|done|].
      * apply Hconst. rewrite klut_is_constant. by apply bool_decide_true.
      * intros i Hin%list_elem_of_lookup_2%(wf_inputs _ Hwf). lia.
    + pose proof (wf_inputs _ Hwf n (list_elem_of_lookup_2 _ _ _ Hin)) as H2.
      pose proof (lookup_lt_Some _ _ _ Hin). exists (2 + Z.of_nat i). split_and!; [|lia..|].
      * apply Hpi; [apply Hwf|done|lia].
      * intros j Hj. by rewrite (NoDup_lookup _ _ _ _ (wf_inputs_NoDup _ Hwf) Hin Hj).
  - intros n m Hin. by apply not_elem_of_nil in Hin.
  - intros m [Hm1 Hm2]. destruct Hm2. rewrite Hi, elem_of_seqZ. lia.
  - intros n1 n2 m Hin. by apply not_elem_of_nil in Hin.
Qed.

Lemma balance_gates_copies post pre st :
  G = pre ++ post → lists pre st → copies pre (ntk_dest st) (old2new st) →
  ∃ st', balance_gates ntk st post = Some st' ∧ copies G (ntk_dest st') (old2new st') ∧
    grows (ntk_dest st) (ntk_dest st').
Proof.
  revert pre st. induction post as [|g post IH]; intros pre st Ht Hl Hc.
  { exists st. rewrite app_nil_r in Ht. by rewrite Ht. }
  destruct (balance_gate_spec pre g post st Ht Hl Hc) as (st1 & E & Hl1 & _).
  destruct (balance_gate_copies pre g post st Ht Hl Hc st1 E) as [Hc1 Hg1].
  cbn [balance_gates]. rewrite E. cbn [mbind option_bind].
  destruct (IH (pre ++ [g]) st1) as (st' & E' & Hc' & Hg'); [by rewrite Ht, <-app_assoc|done|done|].
  exists st'. split_and!; [done|done|by etrans].
Qed.

(** Outputs do not change the copies. *)
Lemma copies_output s s' o img :
  copies G s img → output_added s o s' → cache s' = cache s → copies G s' img.
Proof.
  intros [Hr Hi Hk Hn Hg Him Hinj] [Hw He Hnum Ho _] Hca.
  assert (∀ m, gate_node s' m ↔ gate_node s m) as Hgn.
  { intros m. unfold gate_node. by rewrite Hnum, (ext_inputs _ _ He). }
  split; try done.
  - split; [done|]. rewrite Hca. apply Hr.
  - by rewrite (ext_inputs _ _ He).
  - intros n Hcp Hs. rewrite Hnum. by apply Hn.
  - intros n m Hin Hm. destruct (Hg n m Hin Hm) as [Hgm (d & Hd & Hcn & Hf) Hfs]. split.
    + by apply Hgn.
    + destruct (ext_nodes _ _ He m d Hd) as (d' & Hd' & _ & El). exists d'. by rewrite El, Hca.
    + rewrite (extends_fanin s s') by (done || (destruct Hgm; lia)). done.
  - intros m Hm. by apply Him, Hgn.
Qed.

Lemma output_stand_in o : o ∈ outputs ntk → stand_in o = o.
Proof.
  intros Ho. destruct (stand_in_cases ntk Hntk o) as [?|(f & i0 & Hp & _)]; [done|].
  destruct (pair_inverter _ _ _ _ Hp o) as (Hin & H3 & _); [by right|].
  by destruct (bal_outputs _ Hntk o Ho (topo_gate ntk o Hwf Hin)).
Qed.

Lemma balance_outputs_copies st v s w :
  (∀ o, o ∈ v → o ∈ outputs ntk) → copies G s (old2new st) →
  Forall2 (λ c o, old2new st !! o = Some c) (outputs s) w →
  ∃ s', for_each (balance_output st) s v = Some s' ∧ copies G s' (old2new st) ∧
    Forall2 (λ c o, old2new st !! o = Some c) (outputs s') (w ++ v).
Proof.
  revert s w. induction v as [|o v IH]; intros s w Hv Hc Hw.
  { exists s. by rewrite app_nil_r. }
  assert (o ∈ outputs ntk) as Ho by (apply Hv; by left).
  destruct (cp_node _ _ _ Hc o) as (m & Hm & Hr & _); [by apply output_copied|by apply output_stand_in|].
  assert (balance_output st s o = Some (create_po s m)) as E.
  { unfold balance_output. by rewrite klut_is_complemented, Hm. }
  cbn [for_each]. rewrite E. cbn [mbind option_bind]. clear E.
  pose proof (create_po_spec s m (proj1 (cp_ready _ _ _ Hc)) Hr) as Hpo.
  pose proof (create_po_cache s m Hr) as Hca.
  destruct (IH (create_po s m) (w ++ [o])) as (s' & E & Hc' & Hos).
  - intros x Hx. apply Hv. by right.
  - by eapply copies_output.
  - rewrite (po_outputs _ _ _ Hpo). apply Forall2_app; [done|]. by constructor.
  - exists s'. rewrite <-app_assoc in Hos. done.
Qed.

Record rebuilt s (img : gmap Z Z) : Prop := {
  rb_copies : copies G s img;
  rb_outputs : Forall2 (λ c o, img !! o = Some c) (outputs s) (outputs ntk);
}.

(** A run succeeds. *)
Lemma run_rebuilt : ∃ s img, run ntk = Some s ∧ rebuilt s img.
Proof.
  destruct initial_copies as (Hc & Ho & Hl). unfold run.
  destruct (balance_gates_copies G [] (State (initialize_copy_network ntk).1 (initialize_copy_network ntk).2 [] [] []))
    as (st & -> & Hst & Hg); [done|done|done|]. cbn [mbind option_bind].
  destruct (balance_outputs_copies st (outputs ntk) (ntk_dest st) []) as (s & E & Hs & Hos); [done|done|..].
  - rewrite (grows_outputs _ _ Hg). cbn [ntk_dest]. by rewrite Ho.
  - by exists s, (old2new st).
Qed.
End Run.
