(* ===== verification/InverterProperties.v ===== *)
(** * Correctness of the balancing of inverters

    A run keeps the functions of the network and that it is balanceable, and every run on a network with
    balanced fanout nodes has fewer inverters: the loop of [inverter_balancing] ends. *)

From S2P Require Import Prelude.
From S2P Require Import GateLevelLayout.
From S2P Require Import TechnologyNetwork.
From S2P Require Import TechnologyInvariant.
From S2P Require Import NetworkCopy.
From S2P Require Import GateCreation.
From S2P Require Import InverterBalancing.
From S2P Require Import InverterPairs.
From S2P Require Import InverterRun.
#[local] Open Scope Z_scope.
Import Technology.
Import InverterBalancing.

(** ** Occurrences in related lists *)

Lemma occurrences_permutation n (v w : list Z) : v ≡ₚ w → occurrences n v = occurrences n w.
Proof. intros Hp. unfold occurrences. f_equal. apply Permutation_length. by rewrite Hp. Qed.

Lemma occurrences_related (R : Z → Z → Prop) m n (v w : list Z) :
  Forall2 R v w → (∀ c f, R c f → c = m ↔ f = n) → occurrences m v = occurrences n w.
Proof.
  intros Hvw HR. induction Hvw as [|c f v w Hcf _ IH]; [done|]. rewrite !occurrences_cons, IH.
  specialize (HR c f Hcf). repeat case_decide; tauto || lia.
Qed.

Lemma bind_filter (f : Z → list Z) (P : Z → Prop) `{!∀ x, Decision (P x)} (v : list Z) :
  (∀ x, x ∈ v → ¬ P x → f x = []) → v ≫= f = filter P v ≫= f.
Proof.
  induction v as [|x v IH]; intros Hf; [done|]. rewrite filter_cons, bind_cons, IH by (intros; apply Hf; [by right|done]).
  case_decide as HP; [by rewrite bind_cons|]. rewrite (Hf x) by (by left || done). done.
Qed.

Section Properties.
Context `{MT : GateLevel.Mockturtle} `{K : !Klut} `{ML : !GateLevel.MockturtleLaws} `{KL : !KlutLaws}.
Context `{KG : !KlutGates} `{V : !FanoutView} `{VL : !FanoutViewLaws}.
Implicit Types (s : network) (n g c m : Z) (ins : list bool).

(** The number of inverters. *)
Definition inverters s : nat := length (filter (λ g, literal_is s g 3) (foreach_gate s)).

Lemma foreach_gate_elem s g : network_wf s → g ∈ foreach_gate s ↔ gate_node s g.
Proof.
  intros Hs. rewrite klut_foreach_gate, list_elem_of_filter, elem_of_seqZ. unfold gate_node.
  split; [intros [? ?]; split; [lia|tauto]|intros [? ?]; split; [split; [lia|done]|lia]].
Qed.
Lemma foreach_gate_NoDup s : NoDup (foreach_gate s).
Proof. rewrite klut_foreach_gate. apply NoDup_filter, NoDup_seqZ. Qed.

Section Rebuilt.
Context (ntk : network) (Hntk : balanceable ntk) (s : network) (img : gmap Z Z) (Hrb : rebuilt ntk s img).
#[local] Notation G := (topo_gates ntk).
#[local] Notation pair := (pair ntk).
#[local] Notation stand_in := (stand_in ntk).
#[local] Notation is_new := (is_new ntk).
#[local] Notation is_balanced := (is_balanced ntk).
#[local] Notation new_function := (new_function ntk).

Let Hwf : network_wf ntk.
Proof. apply (bal_ready _ Hntk). Qed.
Let Hc : copies ntk G s img.
Proof. apply Hrb. Qed.
Let Hs : network_wf s.
Proof. apply (cp_ready _ _ _ _ Hc). Qed.

(** ** Gates and their copies *)

Lemma copy_gate_in m n : gate_node s m → img !! n = Some m → n ∈ G ∧ stand_in n = n ∧ image ntk s img n m.
Proof.
  intros Hm Hn. destruct (cp_keys _ _ _ _ Hc n m Hn) as [Hcp Hsn].
  destruct (cp_node _ _ _ _ Hc n Hcp Hsn) as (m' & Hm' & _ & Hconst & Hin). simplify_eq.
  destruct (copied_cases ntk G n Hcp) as [Hn0|[[i Hi]|Hg]].
  - rewrite (Hconst Hn0) in Hm. destruct Hm. lia.
  - specialize (Hin i Hi). destruct Hm as [_ Hm]. destruct Hm. rewrite (cp_inputs _ _ _ _ Hc), elem_of_seqZ.
    apply lookup_lt_Some in Hi. lia.
  - split_and!; [done|done|by apply (cp_gate _ _ _ _ Hc)].
Qed.

Lemma copy_of m : gate_node s m → ∃ n, img !! n = Some m ∧ n ∈ G ∧ gate_node ntk n ∧ stand_in n = n ∧ image ntk s img n m.
Proof.
  intros Hm. destruct (cp_image _ _ _ _ Hc m Hm) as (n & Hn & Hi).
  destruct (copy_gate_in m n Hm Hi) as (? & ? & ?). exists n. split_and!; try done. by apply topo_gate.
Qed.

Lemma copy_unique m n n' : gate_node s m → img !! n = Some m → img !! n' = Some m → n = n'.
Proof.
  intros Hm Hn Hn'. destruct (copy_gate_in m n Hm Hn) as (? & _), (copy_gate_in m n' Hm Hn') as (? & _).
  by apply (cp_inj _ _ _ _ Hc n n' m).
Qed.

Lemma copy_literal_is m n k (a : nat) :
  image ntk s img n m → (k, a) ∈ arities → literal_is s m k ↔ new_function n = fixed_table k.
Proof.
  intros [_ (d & Hd & Hcn & <-) _] Hk. eapply literal_function; [apply (cp_ready _ _ _ _ Hc)|done..].
Qed.

Lemma gate_literal_is n k (a : nat) :
  gate_node ntk n → (k, a) ∈ arities → literal_is ntk n k ↔ gate_function ntk n = fixed_table k.
Proof. by apply balanceable_literal. Qed.

(** The fixed functions of a new gate. *)
Lemma new_function_fixed n k (a : nat) :
  gate_node ntk n → (k, a) ∈ arities → new_function n = fixed_table k →
  (is_balanced n = true ∧ k = 3) ∨ (is_balanced n = false ∧ is_new n = true ∧ k = 2) ∨
  (is_balanced n = false ∧ is_new n = false ∧ literal_is ntk n k).
Proof.
  intros Hn Hk Hf. unfold InverterRun.new_function in Hf. destruct (is_balanced n).
  - left. split; [done|]. symmetry. by apply (fixed_table_inj ntk 3 1 k a (bal_ready _ Hntk)); [set_solver|..].
  - right. destruct (is_new n).
    + left. split_and!; try done. symmetry. by apply (fixed_table_inj ntk 2 1 k a (bal_ready _ Hntk)); [set_solver|..].
    + right. split_and!; try done. by apply (gate_literal_is n k a).
Qed.

(** ** Values *)

Lemma unbalanced_fanins n c :
  n ∈ G → stand_in n = n → is_new n = false → c ∈ foreach_fanin ntk n → is_balanced c = false.
Proof.
  intros Hn Hsn Hnew Hcn. destruct (is_balanced c) eqn:E; [|done].
  destruct (user_of_balanced ntk Hntk n c) as [?|?]; [by apply topo_gate|done|done|congruence|done].
Qed.

(** Copies of balanced nodes have the complements as values. *)
Lemma copy_value m n ins : img !! n = Some m → value s ins m = xorb (is_balanced n) (value ntk ins n).
Proof.
  revert n. assert (∀ k : nat, ∀ m n, m < Z.of_nat k → img !! n = Some m →
    value s ins m = xorb (is_balanced n) (value ntk ins n)) as Hk; [|intros n; apply (Hk (Z.to_nat (m + 1))); lia].
  induction k as [|k IH]; intros m' n Hlt Hn.
  { destruct (cp_keys _ _ _ _ Hc n m' Hn) as [Hcp Hsn].
    destruct (cp_node _ _ _ _ Hc n Hcp Hsn) as (? & ? & ? & _). simplify_eq. lia. }
  destruct (cp_keys _ _ _ _ Hc n m' Hn) as [Hcp Hsn].
  destruct (cp_node _ _ _ _ Hc n Hcp Hsn) as (m2 & Hm2 & Hr & Hconst & Hin). simplify_eq.
  assert (¬ gate_node ntk n → is_balanced n = false) as Hnb.
  { intros Hng. destruct (is_balanced n) eqn:E; [|done]. apply is_balanced_spec in E as (i0 & i1 & Hp); [|done].
    destruct Hng. by apply topo_gate, (pair_gate _ _ _ _ Hp). }
  destruct (copied_cases ntk G n Hcp) as [Hn0|[[i Hi]|Hg]].
  - rewrite (Hconst Hn0), Hnb by (apply source_not_gate; auto). by rewrite !value_constant.
  - rewrite Hnb by (apply source_not_gate; eauto). rewrite (value_input ntk ins i n Hwf Hi).
    rewrite (value_input s ins i m' Hs); [by destruct (nth _ _ _)|].
    rewrite (cp_inputs _ _ _ _ Hc), (Hin i Hi), lookup_seqZ. apply lookup_lt_Some in Hi. lia.
  - destruct (cp_gate _ _ _ _ Hc n m' Hg Hn) as [Hgm (d & Hd & _ & Hf) Hfs].
    assert (value s ins <$> foreach_fanin s m' = (λ c, xorb (is_balanced c) (value ntk ins c)) <$> foreach_fanin ntk n) as Hv.
    { assert (∀ c, c ∈ foreach_fanin s m' → c < Z.of_nat k) as Hlt'.
      { intros c Hcm. pose proof (fanins_earlier s Hs m' c Hgm Hcm). lia. }
      clear -Hfs Hlt' IH Hntk ML KL KG VL. induction Hfs as [|c f cs fs Hcf _ IHf]; [done|]. rewrite !fmap_cons. f_equal.
      - rewrite (IH c _ (Hlt' c (list_elem_of_here _ _)) Hcf). by rewrite stand_in_balanced, stand_in_value.
      - apply IHf. intros x Hx. apply Hlt'. by right. }
    rewrite (value_gate s ins m' d) by done. rewrite Hf, Hv. pose proof (topo_gate ntk n Hwf Hg) as Hgn.
    rewrite (value_gate_function ntk ins n Hwf Hgn). unfold InverterRun.new_function.
    destruct (is_balanced n) eqn:Eb.
    + apply is_balanced_spec in Eb as (i0 & i1 & Hp); [|done]. pose proof (pair_buffer _ _ _ _ Hp) as H2.
      destruct (balanced_stand_in ntk Hntk n) as [_ Hnew]; [apply is_balanced_spec; eauto|].
      pose proof (bal_arity _ Hntk n 2 1 Hgn ltac:(set_solver) H2) as Hl.
      destruct (foreach_fanin ntk n) as [|f [|]] eqn:Ef; try done. cbn [fmap list_fmap].
      rewrite (unbalanced_fanins n f) by (done || (rewrite Ef; by left)).
      rewrite (proj1 (gate_literal_is n 2 1 Hgn ltac:(set_solver)) H2), eval_negation, eval_identity.
      by destruct (value ntk ins f).
    + destruct (is_new n) eqn:En.
      * apply is_new_spec in En as (f & i1 & Hp); [|done]. destruct (pair_inverter _ _ _ _ Hp n) as (_ & H3 & Hff); [by left|].
        rewrite Hff. cbn [fmap list_fmap]. rewrite (proj2 (is_balanced_spec ntk Hntk f)) by eauto.
        rewrite (proj1 (gate_literal_is n 3 1 Hgn ltac:(set_solver)) H3), eval_negation, eval_identity.
        by destruct (value ntk ins f).
      * rewrite xorb_false_l. f_equal. apply list_fmap_ext. intros j c Hcn%list_elem_of_lookup_2.
        by rewrite (unbalanced_fanins n c), xorb_false_l.
Qed.

Lemma rebuilt_simulate ins : simulate s ins = simulate ntk ins.
Proof.
  unfold simulate. pose proof (rb_outputs _ _ _ Hrb) as Ho.
  assert (∀ o, o ∈ outputs ntk → is_balanced o = false) as Hb.
  { intros o Hin. destruct (is_balanced o) eqn:E; [|done]. apply is_balanced_spec in E as (i0 & i1 & Hp); [|done].
    by destruct (pair_output _ _ _ _ Hp). }
  assert (∀ m n, img !! n = Some m → value s ins m = xorb (is_balanced n) (value ntk ins n)) as Hv
    by (intros; by apply copy_value).
  clear -Ho Hb Hv ML KL KG VL. induction Ho as [|m o v w Hmo _ IH]; [done|]. rewrite !fmap_cons. f_equal.
  - rewrite (Hv m o Hmo), Hb by (by left). by destruct (value ntk ins o).
  - apply IH. intros x Hx. apply Hb. by right.
Qed.

(** ** Uses *)

(** The gates that have copies. *)
Definition kept : list Z := filter (λ n, stand_in n = n) G.
Definition copy n : Z := default 0 (img !! n).

Lemma kept_elem n : n ∈ kept ↔ n ∈ G ∧ stand_in n = n.
Proof. unfold kept. rewrite list_elem_of_filter. tauto. Qed.

Lemma kept_copy n : n ∈ kept → img !! n = Some (copy n) ∧ image ntk s img n (copy n).
Proof.
  intros [Hn Hsn]%kept_elem. destruct (cp_node _ _ _ _ Hc n) as (m & Hm & _); [unfold copied_node; tauto|done|].
  unfold copy. rewrite Hm. split; [done|]. by apply (cp_gate _ _ _ _ Hc).
Qed.

Lemma kept_NoDup : NoDup kept.
Proof. apply NoDup_filter, topo_gates_NoDup, fanins_earlier, Hwf. Qed.

(** The gates of the result are the copies. *)
Lemma gates_permutation : foreach_gate s ≡ₚ copy <$> kept.
Proof.
  apply NoDup_Permutation; [apply foreach_gate_NoDup| |].
  - apply NoDup_fmap_2_strong; [|apply kept_NoDup]. intros n n' Hn Hn' E.
    apply kept_copy in Hn as [Hn Him], Hn' as [Hn' _]. rewrite <-E in Hn'.
    by apply (copy_unique (copy n)); [apply Him|..].
  - intros m. rewrite (foreach_gate_elem s m Hs), list_elem_of_fmap. split.
    + intros (n & Hn & Hg & _ & Hsn & _)%copy_of. exists n. unfold copy. rewrite Hn.
      split; [done|]. by apply kept_elem.
    + intros (n & -> & [_ Him]%kept_copy). apply Him.
Qed.

(** The uses of a copy: those of the nodes that it stands for. *)
Lemma copy_uses m n :
  gate_node s m → img !! n = Some m →
  uses s m = occurrences n (outputs ntk) + occurrences n (kept ≫= λ g, stand_in <$> foreach_fanin ntk g).
Proof.
  intros Hm Hn. unfold uses. rewrite occurrences_app. f_equal.
  - apply (occurrences_related _ m n _ _ (rb_outputs _ _ _ Hrb)). intros c o Hco. split; [intros ->|intros ->].
    + by apply (copy_unique m).
    + congruence.
  - assert (seqZ 0 (num_nodes s) ≫= foreach_fanin s = foreach_gate s ≫= foreach_fanin s) as ->.
    { rewrite klut_foreach_gate. apply bind_filter. intros x Hx Hng. apply elem_of_seqZ in Hx.
      destruct (node_at s x) as [d Hd]; [lia|]. rewrite (foreach_fanin_eq s x d Hd), decide_True; [done|].
      destruct (decide (x ∈ inputs s)); [tauto|]. assert (¬ 2 <= x) by tauto. lia. }
    rewrite (occurrences_permutation m _ ((copy <$> kept) ≫= foreach_fanin s)) by (by rewrite gates_permutation).
    assert (∀ g, g ∈ kept → image ntk s img g (copy g)) as Him by (intros g Hg; by apply kept_copy).
    revert Him. induction kept as [|g v IH]; intros Him; [done|].
    rewrite fmap_cons, !bind_cons, !occurrences_app, IH by (intros; apply Him; by right). f_equal.
    destruct (Him g (list_elem_of_here _ _)) as [_ _ Hfs].
    assert (Forall2 (λ c f, img !! f = Some c) (foreach_fanin s (copy g)) (stand_in <$> foreach_fanin ntk g)) as Hfs'
      by (by apply Forall2_fmap_r).
    apply (occurrences_related _ m n _ _ Hfs'). intros c f Hcf. split; [intros ->|intros ->].
    + by apply (copy_unique m).
    + congruence.
Qed.

Lemma gates_in_range (v : list Z) : v ⊆ G → ∀ g, g ∈ v → 0 <= g < num_nodes ntk.
Proof. intros Hv g [? _]%Hv%(topo_gate ntk _ Hwf). lia. Qed.

Lemma kept_subset : kept ⊆ G.
Proof. intros n [? _]%kept_elem. done. Qed.

(** A node that stands for itself alone. *)
Lemma own_occurrences n (v : list Z) :
  stand_in n = n → is_new n = false → occurrences n (stand_in <$> v) = occurrences n v.
Proof.
  intros Hsn Hnew. induction v as [|f v IH]; [done|]. rewrite fmap_cons, !occurrences_cons, IH. f_equal.
  destruct (stand_in_cases ntk Hntk f) as [->|(g & i0 & Hp & E & Hne)]; [done|]. rewrite E.
  destruct (decide (i0 = n)) as [->|].
  - exfalso. assert (is_new n = true) by (apply is_new_spec; eauto). congruence.
  - rewrite decide_False; [done|]. intros ->. congruence.
Qed.

(** The first inverter stands for both. *)
Lemma pair_occurrences f i0 i1 (v : list Z) :
  pair f i0 i1 → occurrences i0 (stand_in <$> v) = occurrences i0 v + occurrences i1 v.
Proof.
  intros Hp. induction v as [|x v IH]; [done|]. rewrite fmap_cons, !occurrences_cons, IH.
  destruct (stand_in_pair ntk Hntk f i0 i1 Hp) as (E1 & E0 & _). pose proof (pair_ne _ _ _ _ Hp) as Hne.
  destruct (decide (x = i1)) as [->|Hx1].
  { rewrite E1, (decide_True _ _ (eq_refl i0)), (decide_False (P := i1 = i0)) by done. lia. }
  destruct (decide (stand_in x = i0)) as [Ex|Ex]; case_decide as Ei0; try lia.
  - exfalso. destruct (stand_in_cases ntk Hntk x) as [?|(g & j & Hq & Ej & _)]; [congruence|].
    assert (g = f) as -> by (apply (pair_inverter_unique ntk g f j x i0 i1 i0); [done|done|left; congruence|by left]).
    pose proof (pair_fanouts _ _ _ _ Hp). pose proof (pair_fanouts _ _ _ _ Hq). congruence.
  - exfalso. congruence.
Qed.

Lemma occurrences_bind_fmap n (f : Z → Z) (h : Z → list Z) (v : list Z) :
  occurrences n (v ≫= λ g, f <$> h g) = occurrences n (f <$> (v ≫= h)).
Proof.
  induction v as [|g v IH]; [done|]. rewrite !bind_cons, fmap_app, !occurrences_app. by rewrite IH.
Qed.

Lemma copy_uses_bound m n :
  gate_node s m → img !! n = Some m → uses s m <= if decide (literal_is s m 2) then 2 else 1.
Proof.
  intros Hm Hn. destruct (copy_gate_in m n Hm Hn) as (Hg & Hsn & Him). pose proof (topo_gate ntk n Hwf Hg) as Hgn.
  rewrite (copy_uses m n Hm Hn), occurrences_bind_fmap.
  pose proof (users_sum ntk) as Hsum. destruct (is_new n) eqn:En.
  - rewrite decide_True.
    2: { apply (copy_literal_is m n 2 1 Him ltac:(set_solver)). unfold InverterRun.new_function. rewrite En.
         destruct (is_balanced n) eqn:Eb; [|done]. by destruct (balanced_stand_in ntk Hntk n Eb) as [_ ?]; congruence. }
    apply is_new_spec in En as (f & i1 & Hp); [|done]. rewrite (pair_occurrences f n i1) by done.
    assert (∀ i, i = n ∨ i = i1 → uses ntk i <= 1) as Hi.
    { intros i (Hi & H3 & _)%(pair_inverter _ _ _ _ Hp). pose proof (bal_uses _ Hntk i (topo_gate ntk i Hwf Hi)) as Hu.
      rewrite decide_False in Hu; [done|]. intros H2. pose proof (literal_unique ntk i 2 3 H2 H3). lia. }
    pose proof (Hsum n kept kept_NoDup (gates_in_range _ kept_subset)).
    pose proof (Hsum i1 kept kept_NoDup (gates_in_range _ kept_subset)).
    pose proof (Hi n (or_introl eq_refl)). pose proof (Hi i1 (or_intror eq_refl)).
    pose proof (occurrences_nonneg i1 (outputs ntk)). lia.
  - rewrite own_occurrences by done. pose proof (bal_uses _ Hntk n Hgn) as Hu.
    destruct (is_balanced n) eqn:Eb.
    + pose proof Eb as (i0 & i1 & Hp)%is_balanced_spec; [|done]. rewrite decide_True in Hu by apply (pair_buffer _ _ _ _ Hp).
      destruct (pair_inverter _ _ _ _ Hp i1) as (Hi1 & _ & Hf1); [by right|].
      destruct (stand_in_pair ntk Hntk _ _ _ Hp) as (E1 & _). pose proof (pair_ne _ _ _ _ Hp) as Hne.
      assert (NoDup (i1 :: kept)) as Hnd.
      { constructor; [|apply kept_NoDup]. intros [_ E]%kept_elem. congruence. }
      pose proof (Hsum n (i1 :: kept) Hnd) as Hk. rewrite bind_cons, occurrences_app, Hf1 in Hk.
      rewrite (occurrences_cons n n), decide_True in Hk by done. change (occurrences n []) with 0 in Hk.
      assert (occurrences n (outputs ntk) + (1 + 0 + occurrences n (kept ≫= foreach_fanin ntk)) <= uses ntk n).
      { apply Hk. apply gates_in_range. intros x [->|[? _]%kept_elem]%elem_of_cons; done. }
      case_decide; lia.
    + pose proof (Hsum n kept kept_NoDup (gates_in_range _ kept_subset)).
      assert (literal_is s m 2 ↔ literal_is ntk n 2) as Hiff.
      { rewrite (copy_literal_is m n 2 1 Him), (gate_literal_is n 2 1 Hgn) by set_solver.
        unfold InverterRun.new_function. by rewrite Eb, En. }
      destruct (decide (literal_is s m 2)), (decide (literal_is ntk n 2)); tauto || lia.
Qed.

(** The result can be balanced again. *)
Lemma rebuilt_balanceable : balanceable s.
Proof.
  split.
  - apply (cp_ready _ _ _ _ Hc).
  - intros m d Hm Hd. destruct (copy_of m Hm) as (n & _ & _ & _ & _ & [_ (d' & Hd' & Hcn & _) _]). by simplify_eq.
  - intros m k a Hm Hk Hl. destruct (copy_of m Hm) as (n & _ & Hg & Hgn & _ & Him).
    rewrite (Forall2_length _ _ _ (im_fanins _ _ _ _ _ Him)).
    apply (copy_literal_is m n k a Him Hk) in Hl.
    destruct (new_function_fixed n k a Hgn Hk Hl) as [[Hb ->]|[(_ & Hnew & ->)|(_ & _ & Hl')]].
    + apply is_balanced_spec in Hb as (i0 & i1 & Hp); [|done].
      rewrite (bal_arity _ Hntk n 2 1 Hgn ltac:(set_solver) (pair_buffer _ _ _ _ Hp)). set_solver.
    + apply is_new_spec in Hnew as (f & i1 & Hp); [|done]. destruct (pair_inverter _ _ _ _ Hp n) as (_ & _ & ->); [by left|].
      set_solver.
    + by apply (bal_arity _ Hntk n k).
  - intros m Hm. destruct (copy_of m Hm) as (n & Hn & _). by apply (copy_uses_bound m n).
  - intros m c Hm Hl Hcm. destruct (copy_of m Hm) as (n & _ & Hg & Hgn & _ & Him).
    apply (copy_literal_is m n 2 1 Him ltac:(set_solver)) in Hl.
    assert (∀ f, f ∈ foreach_fanin ntk n → 2 <= stand_in f) as Hf.
    { intros f Hf. destruct (new_function_fixed n 2 1 Hgn ltac:(set_solver) Hl) as [[_ ?]|[(_ & Hnew & _)|(_ & _ & Hl')]]; [done|..].
      - apply is_new_spec in Hnew as (x & i1 & Hp); [|done]. destruct (pair_inverter _ _ _ _ Hp n) as (_ & _ & E); [by left|].
        rewrite E in Hf. apply list_elem_of_singleton in Hf as ->.
        destruct (balanced_stand_in ntk Hntk x) as [-> _]; [apply is_balanced_spec; eauto|].
        pose proof (topo_gate ntk x Hwf (pair_gate _ _ _ _ Hp)) as [? _]. lia.
      - destruct (stand_in_cases ntk Hntk f) as [->|(x & i0 & Hp & -> & _)]; [by apply (bal_buffers _ Hntk n)|].
        destruct (pair_inverter _ _ _ _ Hp i0) as (Hi & _); [by left|]. apply topo_gate in Hi as [? _]; [lia|done]. }
    pose proof (im_fanins _ _ _ _ _ Him) as Hfs. apply list_elem_of_lookup in Hcm as [j Hj].
    destruct (Forall2_lookup_l _ _ _ _ _ Hfs Hj) as (f & Hfj & Hcf).
    eapply copies_ge; [exact Hc|exact Hcf|]. apply Hf. by eapply list_elem_of_lookup_2.
  - intros m Ho Hm Hl. destruct (copy_of m Hm) as (n & Hn & _ & Hgn & _ & Him).
    apply list_elem_of_lookup in Ho as [j Hj].
    destruct (Forall2_lookup_l _ _ _ _ _ (rb_outputs _ _ _ Hrb) Hj) as (o & Hoj & Hmo).
    assert (n = o) as -> by (by apply (copy_unique m)). apply list_elem_of_lookup_2 in Hoj.
    apply (copy_literal_is m o 3 1 Him ltac:(set_solver)) in Hl.
    destruct (new_function_fixed o 3 1 Hgn ltac:(set_solver) Hl) as [[Hb _]|[(_ & _ & ?)|(_ & _ & Hl')]]; [|done|].
    + apply is_balanced_spec in Hb as (i0 & i1 & Hp); [|done]. by destruct (pair_output _ _ _ _ Hp).
    + by destruct (bal_outputs _ Hntk o Hoj Hgn).
Qed.
End Rebuilt.
End Properties.
