(* ===== verification/InverterTermination.v ===== *)
(** * Termination of the balancing of inverters

    All gates of a rebuilt network are in the transitive fanin of the outputs, so that the test of the
    loop finds the nodes that the next run balances; every such run removes an inverter. *)

From S2P Require Import Prelude.
From S2P Require Import GateLevelLayout.
From S2P Require Import TechnologyNetwork.
From S2P Require Import TechnologyInvariant.
From S2P Require Import NetworkCopy.
From S2P Require Import GateCreation.
From S2P Require Import InverterBalancing.
From S2P Require Import InverterPairs.
From S2P Require Import InverterRun.
From S2P Require Import InverterProperties.
#[local] Open Scope Z_scope.
Import Technology.
Import InverterBalancing.

Section Rebuilt.
Context `{MT : GateLevel.Mockturtle} `{K : !Klut} `{ML : !GateLevel.MockturtleLaws} `{KL : !KlutLaws}.
Context `{KG : !KlutGates} `{V : !FanoutView} `{VL : !FanoutViewLaws}.
Context (ntk : network) (Hntk : balanceable ntk) (s : network) (img : gmap Z Z) (Hrb : rebuilt ntk s img).
Implicit Types (n g c m : Z).
#[local] Notation G := (topo_gates ntk).
#[local] Notation pair := (pair ntk).
#[local] Notation stand_in := (stand_in ntk).
#[local] Notation is_new := (is_new ntk).
#[local] Notation is_balanced := (is_balanced ntk).
#[local] Notation kept := (kept ntk).
#[local] Notation copy := (copy img).

Let Hwf : network_wf ntk.
Proof. apply (bal_ready _ Hntk). Qed.
Let Hc : copies ntk G s img.
Proof. apply Hrb. Qed.
Let Hs : network_wf s.
Proof. apply (cp_ready _ _ _ _ Hc). Qed.

(** ** Reachability *)

(** Copies of reachable nodes are reachable. *)
Lemma copy_reachable n m : reachable ntk n → img !! stand_in n = Some m → reachable s m.
Proof.
  intros (o & Ho & Hr). revert m. pattern n. eapply rtc_ind_r; [| |exact Hr].
  - intros m. rewrite (output_stand_in ntk Hntk) by done. intros Hm. apply list_elem_of_lookup in Ho as [j Hj].
    destruct (Forall2_lookup_r _ _ _ _ _ (rb_outputs _ _ _ Hrb) Hj) as (m' & Hmj & Hm'). simplify_eq.
    exists m. split; [by eapply list_elem_of_lookup_2|done].
  - intros a b Hoa Hab IH m Hm. assert (reachable ntk a) as Ha by (by exists o).
    destruct (reachable_topo ntk a Hwf Ha) as [Har Hat]. pose proof (fanin_node ntk a b Har Hab) as Hga.
    specialize (Hat Hga).
    assert (stand_in a ∈ G ∧ b ∈ foreach_fanin ntk (stand_in a)) as [Hsa Hb].
    { destruct (stand_in_cases ntk Hntk a) as [->|(f & i0 & Hp & -> & _)]; [done|].
      destruct (pair_inverter _ _ _ _ Hp a) as (_ & _ & Ea); [by right|].
      destruct (pair_inverter _ _ _ _ Hp i0) as (? & _ & Ei); [by left|]. split; [done|]. by rewrite Ei, <-Ea. }
    destruct (cp_node _ _ _ _ Hc (stand_in a)) as (ma & Hma & _); [unfold copied_node; tauto|by apply stand_in_idemp|].
    destruct (IH ma Hma) as (p & Hp & Hrp). exists p. split; [done|]. eapply rtc_r; [exact Hrp|].
    destruct (cp_gate _ _ _ _ Hc _ ma Hsa Hma) as [_ _ Hfs]. apply list_elem_of_lookup in Hb as [j Hj].
    destruct (Forall2_lookup_r _ _ _ _ _ Hfs Hj) as (c & Hcj & Hcb). simplify_eq.
    by eapply list_elem_of_lookup_2.
Qed.

Lemma gates_visited m : gate_node s m → m ∈ topo_gates s.
Proof.
  intros Hm. destruct (copy_of ntk Hntk s img Hrb m Hm) as (n & Hn & Hg & _ & Hsn & _).
  apply (reachable_topo s m Hs); [|done]. apply (copy_reachable n); [|by rewrite Hsn].
  apply topo_gates_reachable; [by apply fanins_earlier|done].
Qed.

(** ** The number of inverters *)

(** An inverter of the source for each inverter of the result: the first of the pair for a balanced node. *)
Definition source_inverter n : Z := match pair_of ntk n with Some (i0, _) => i0 | None => n end.

Lemma kept_inverter n :
  n ∈ kept → literal_is s (copy n) 3 →
  (∃ i1, pair n (source_inverter n) i1) ∨
  (source_inverter n = n ∧ is_new n = false ∧ literal_is ntk n 3).
Proof.
  intros Hn Hl. pose proof (kept_copy ntk s img Hrb n Hn) as [_ Him]. apply kept_elem in Hn as [Hg _].
  pose proof (topo_gate ntk n Hwf Hg) as Hgn.
  apply (copy_literal_is ntk s img Hrb _ n 3 1 Him ltac:(set_solver)) in Hl.
  destruct (new_function_fixed ntk Hntk s img Hrb n 3 1 Hgn ltac:(set_solver) Hl) as [[Hb _]|[(_ & _ & ?)|(Hb & Hnew & H3)]]; [|done|].
  - left. apply is_balanced_spec in Hb as (i0 & i1 & Hp); [|done]. exists i1. unfold source_inverter.
    by rewrite (proj2 (pair_of_spec ntk Hntk n i0 i1) Hp).
  - right. split; [|done]. unfold source_inverter. destruct (pair_of ntk n) as [[i0 i1]|] eqn:E; [|done].
    apply pair_of_spec in E; [|done]. assert (is_balanced n = true) by (apply is_balanced_spec; eauto). congruence.
Qed.

Definition new_inverters : list Z := filter (λ n, literal_is s (copy n) 3) kept.

Lemma source_inverter_spec n :
  n ∈ new_inverters →
  source_inverter n ∈ foreach_gate ntk ∧ literal_is ntk (source_inverter n) 3 ∧
  stand_in (source_inverter n) = source_inverter n.
Proof.
  unfold new_inverters. rewrite list_elem_of_filter. intros [Hl Hn]. rewrite (foreach_gate_elem ntk _ Hwf).
  destruct (kept_inverter n Hn Hl) as [[i1 Hp]|(-> & _ & H3)].
  - destruct (pair_inverter _ _ _ _ Hp (source_inverter n)) as (Hi & H3 & _); [by left|].
    split_and!; [by apply topo_gate|done|by apply (stand_in_pair ntk Hntk n _ i1)].
  - apply kept_elem in Hn as [Hg Hsn]. split_and!; [by apply topo_gate|done|done].
Qed.

Lemma source_inverter_inj n n' :
  n ∈ new_inverters → n' ∈ new_inverters → source_inverter n = source_inverter n' → n = n'.
Proof.
  unfold new_inverters. rewrite !list_elem_of_filter. intros [Hl Hn] [Hl' Hn'] E.
  destruct (kept_inverter n Hn Hl) as [[i1 Hp]|(Ei & Hnew & _)], (kept_inverter n' Hn' Hl') as [[i1' Hp']|(Ei' & Hnew' & _)].
  - apply (pair_inverter_unique ntk n n' _ i1 _ i1' (source_inverter n) Hp Hp'); [by left|left; congruence].
  - assert (is_new n' = true) by (apply is_new_spec; [done|]; exists n, i1; congruence). congruence.
  - assert (is_new n = true) by (apply is_new_spec; [done|]; exists n', i1'; congruence). congruence.
  - congruence.
Qed.

Lemma inverters_permutation : inverters s = length (source_inverter <$> new_inverters).
Proof.
  unfold inverters. rewrite length_fmap. rewrite (gates_permutation ntk Hntk s img Hrb).
  unfold new_inverters. induction kept as [|n v IH]; [done|]. rewrite fmap_cons, !filter_cons.
  case_decide; simpl; by rewrite IH.
Qed.

Lemma new_inverters_NoDup : NoDup (source_inverter <$> new_inverters).
Proof.
  apply NoDup_fmap_2_strong; [|by apply NoDup_filter, kept_NoDup]. intros n n' Hn Hn'. by apply source_inverter_inj.
Qed.

(** Inverters of a network, as a bound for lists of them. *)
Lemma inverters_bound (v : list Z) :
  NoDup v → (∀ n, n ∈ v → n ∈ foreach_gate ntk ∧ literal_is ntk n 3) → (length v <= inverters ntk)%nat.
Proof.
  intros Hv Hin. apply submseteq_length, NoDup_submseteq; [done|]. intros n [? ?]%Hin. by apply list_elem_of_filter.
Qed.

(** Balanced nodes are inverted once instead of twice. *)
Lemma rebuilt_inverters :
  (inverters s <= inverters ntk)%nat ∧
  ((∃ n, is_balanced n = true) → (inverters s < inverters ntk)%nat).
Proof.
  rewrite inverters_permutation.
  assert (∀ n, n ∈ source_inverter <$> new_inverters →
    n ∈ foreach_gate ntk ∧ literal_is ntk n 3 ∧ stand_in n = n) as Hin.
  { intros n (x & -> & Hx)%list_elem_of_fmap. by apply source_inverter_spec. }
  split.
  - apply inverters_bound; [apply new_inverters_NoDup|]. intros n (? & ? & _)%Hin. done.
  - intros (n & (i0 & i1 & Hp)%is_balanced_spec); [|done].
    apply (inverters_bound (i1 :: (source_inverter <$> new_inverters))).
    + constructor; [|apply new_inverters_NoDup]. intros (_ & _ & E)%Hin.
      destruct (stand_in_pair ntk Hntk _ _ _ Hp) as (E1 & _). pose proof (pair_ne _ _ _ _ Hp). congruence.
    + destruct (pair_inverter _ _ _ _ Hp i1) as (Hi & H3 & _); [by right|].
      intros x [->|(? & ? & _)%Hin]%elem_of_cons; [|done]. split; [|done].
      apply (foreach_gate_elem ntk _ Hwf). by apply topo_gate.
Qed.
End Rebuilt.

Section Loop.
Context `{MT : GateLevel.Mockturtle} `{K : !Klut} `{ML : !GateLevel.MockturtleLaws} `{KL : !KlutLaws}.
Context `{KG : !KlutGates} `{V : !FanoutView} `{VL : !FanoutViewLaws}.
Implicit Types (s ntk : network) (n g c m : Z).

(** A network that a run has built. *)
Record clean s : Prop := {
  clean_balanceable : balanceable s;
  clean_visited g : gate_node s g → g ∈ topo_gates s;
}.

Record improves ntk s : Prop := {
  imp_clean : clean s;
  imp_inputs : length (inputs s) = length (inputs ntk);
  imp_simulate ins : simulate s ins = simulate ntk ins;
  imp_inverters : (inverters s <= inverters ntk)%nat;
  imp_progress : (∃ n, is_balanced ntk n = true) → (inverters s < inverters ntk)%nat;
}.

Lemma run_improves ntk : balanceable ntk → ∃ s, run ntk = Some s ∧ improves ntk s.
Proof.
  intros Hntk. destruct (run_rebuilt ntk Hntk) as (s & img & E & Hrb). exists s. split; [done|]. split.
  - split; [by apply (rebuilt_balanceable ntk Hntk s img)|by apply (gates_visited ntk Hntk s img)].
  - rewrite (cp_inputs _ _ _ _ (rb_copies _ _ _ Hrb)), length_seqZ. lia.
  - intros ins. by apply (rebuilt_simulate ntk Hntk s img).
  - by apply (rebuilt_inverters ntk Hntk s img).
  - by apply (rebuilt_inverters ntk Hntk s img).
Qed.

(** ** The test of the loop *)

Lemma view_fanouts_permutation s n : clean s → foreach_fanout s n ≡ₚ topo_foreach_fanout s n.
Proof.
  intros [Hb Hv]. pose proof (proj1 (bal_ready _ Hb)) as Hs. rewrite fv_foreach_fanout, fv_topo_foreach_fanout.
  apply NoDup_Permutation.
  - apply NoDup_filter, foreach_gate_NoDup.
  - apply NoDup_filter, topo_gates_NoDup. by apply fanins_earlier.
  - intros g. rewrite !list_elem_of_filter, (foreach_gate_elem s g Hs). split.
    + intros [? ?]. split; [done|by apply Hv].
    + intros [? ?]. split; [done|by apply topo_gate].
Qed.

(** The test on a gate finds the nodes that a run balances. *)
Lemma test_gate_spec s g :
  clean s → gate_node s g →
  (if 2 <=? fanout_size s g then balanceable_fanouts s (foreach_fanout s g) else Some false) =
    Some (is_balanced s g).
Proof.
  intros Hcl Hg. pose proof Hcl as [Hb Hv]. pose proof (proj1 (bal_ready _ Hb)) as Hs.
  pose proof (view_fanouts_permutation s g Hcl) as Hperm.
  assert (Forall (gate_node s) (foreach_fanout s g)) as Hall by (rewrite Hperm; by apply fanout_gates).
  assert (balanceable_fanouts s (foreach_fanout s g) = Some (bool_decide
    (Forall (λ h, literal_is s h 3) (topo_foreach_fanout s g) ∧ (1 < length (topo_foreach_fanout s g))%nat))) as ->.
  { rewrite (balanceable_fanouts_spec s _ Hall). f_equal. apply bool_decide_ext. by rewrite Hperm. }
  destruct (is_balanced s g) eqn:E.
  - apply is_balanced_spec in E as (i0 & i1 & Hp); [|done].
    assert (1 < fanout_size s g).
    { apply (fanouts_fanout_size s Hb g [i0; i1]); [done|apply (pair_buffer _ _ _ _ Hp)|..|simpl; lia].
      - rewrite <-(pair_fanouts _ _ _ _ Hp). by apply fanout_NoDup.
      - intros h Hh. destruct (pair_inverter _ _ _ _ Hp h) as (? & _ & ->); [set_solver|]. split; [by apply topo_gate|by left]. }
    rewrite (proj2 (Z.leb_le 2 _)) by lia. f_equal. apply bool_decide_eq_true. rewrite (pair_fanouts _ _ _ _ Hp).
    split; [|simpl; lia]. repeat constructor; apply (pair_inverter _ _ _ _ Hp); auto.
  - destruct (Z.leb_spec 2 (fanout_size s g)) as [H2|]; [|done]. f_equal. apply bool_decide_eq_false. intros [Hinv Hlen].
    assert (literal_is s g 2) as Hl.
    { destruct (decide (literal_is s g 2)) as [|Hl]; [done|]. pose proof (bal_uses _ Hb g Hg) as Hu.
      rewrite decide_False in Hu by done. rewrite (wf_uses _ Hs) in H2 by (destruct Hg; lia).
      pose proof (uses_nonneg s g). unfold wrap in H2. rewrite Z.mod_small in H2; lia. }
    assert (is_balanced s g = true); [|congruence]. unfold is_balanced. apply bool_decide_eq_true. unfold pair_of.
    rewrite bool_decide_true by (split_and!; [by apply Hv|done|done]).
    destruct (topo_foreach_fanout s g) as [|i0 [|i1 v]]; simpl in Hlen; [lia|lia|done].
Qed.

Lemma any_balanceable_spec s (v : list Z) :
  clean s → (∀ g, g ∈ v → gate_node s g) → any_balanceable s v = Some (existsb (is_balanced s) v).
Proof.
  intros Hcl. induction v as [|g v IH]; intros Hv; [done|]. cbn [any_balanceable].
  rewrite (test_gate_spec s g) by (done || (apply Hv; by left)). cbn [mbind option_bind].
  by rewrite IH by (intros; apply Hv; by right).
Qed.

Lemma test_spec s :
  clean s → ∃ b, inverter_balancing_recursive s = Some b ∧ (b = true ↔ ∃ n, is_balanced s n = true).
Proof.
  intros Hcl. pose proof Hcl as [Hb Hv]. pose proof (proj1 (bal_ready _ Hb)) as Hs.
  unfold inverter_balancing_recursive. eexists. split.
  { apply any_balanceable_spec; [done|]. intros g Hg. by apply foreach_gate_elem. }
  rewrite existsb_exists. split; [intros (n & _ & ?); eauto|]. intros [n Hn]. exists n. split; [|done].
  apply list_elem_of_In. apply (foreach_gate_elem s n Hs). apply is_balanced_spec in Hn as (i0 & i1 & Hp); [|done].
  by apply topo_gate, (pair_gate _ _ _ _ Hp).
Qed.

(** ** The loop *)

Lemma improves_trans (x y z : network) : improves x y → improves y z → improves x z.
Proof.
  intros [Ha1 Ha2 Ha3 Ha4 Ha5] [Hb1 Hb2 Hb3 Hb4 Hb5]. split; [done|congruence|congruence|lia|].
  intros Hn. specialize (Ha5 Hn). lia.
Qed.

(** Enough rounds for the inverters. *)
Lemma rerun_improves fuel ntk :
  clean ntk → (inverters ntk <= fuel)%nat → (∃ n, is_balanced ntk n = true) ∨ (inverters ntk < fuel)%nat →
  ∃ s, rerun fuel ntk = Some s ∧ improves ntk s ∧ inverter_balancing_recursive s = Some false.
Proof.
  revert ntk. induction fuel as [|fuel IH]; intros ntk Hcl Hle Hor.
  { destruct Hor as [Hn|?]; [|lia]. destruct (run_improves ntk (clean_balanceable _ Hcl)) as (s & _ & Himp).
    pose proof (imp_progress _ _ Himp Hn). lia. }
  destruct (run_improves ntk (clean_balanceable _ Hcl)) as (s & E & Himp).
  destruct (test_spec s (imp_clean _ _ Himp)) as (b & Et & Hb). cbn [rerun]. rewrite E. cbn [mbind option_bind].
  rewrite Et. cbn [mbind option_bind]. destruct b; [|by exists s].
  destruct (IH s) as (s' & E' & Himp' & Hend).
  - apply (imp_clean _ _ Himp).
  - pose proof (imp_inverters _ _ Himp). destruct Hor as [Hn|?]; [|lia]. pose proof (imp_progress _ _ Himp Hn). lia.
  - left. by apply Hb.
  - exists s'. split_and!; [done|by eapply improves_trans|done].
Qed.
End Loop.

(** C11: The balancing of inverters terminates and is correct: on a network with more rounds than inverters
    it returns a network with the same number of inputs and the same functions, at most as many
    inverters and no fanout node left whose fanouts are all inverters, to which it can be applied again. *)
Theorem inverter_balancing_correct `{MT : GateLevel.Mockturtle} `{K : !Klut} `{ML : !GateLevel.MockturtleLaws}
    `{KL : !KlutLaws} `{KG : !KlutGates} `{V : !FanoutView} `{VL : !FanoutViewLaws} (ntk : network) (fuel : nat) :
  balanceable ntk → (inverters ntk < fuel)%nat →
  ∃ s, inverter_balancing fuel ntk = Some s ∧ balanceable s ∧ length (inputs s) = length (inputs ntk) ∧
    (∀ ins, simulate s ins = simulate ntk ins) ∧ (inverters s <= inverters ntk)%nat ∧
    inverter_balancing_recursive s = Some false.
Proof.
  intros Hntk Hf. destruct (run_improves ntk Hntk) as (s1 & E1 & H1).
  destruct (test_spec s1 (imp_clean _ _ H1)) as (b & Et & _). pose proof (imp_inverters _ _ H1).
  destruct (rerun_improves fuel s1 (imp_clean _ _ H1)) as (s & E & H2 & Hend); [lia|right; lia|].
  pose proof (improves_trans _ _ _ H1 H2) as [Hcl Hi Hv Hinv _]. exists s. unfold inverter_balancing. rewrite E1.
  cbn [mbind option_bind]. rewrite Et. split_and!; [done|apply Hcl|done..].
Qed.
