(* ===== verification/InverterExamples.v ===== *)
(** * Examples of the balancing of inverters

    An instance of [FanoutView] that satisfies its laws, a check of [balanceable] by evaluation for the
    witness, and what [inverter_balancing] does to networks that are not balanceable: it changes their
    functions, or does not end. *)

From S2P Require Import Prelude.
From S2P Require Import GateLevelLayout.
From S2P Require Import MockturtleModel.
From S2P Require Import TechnologyNetwork.
From S2P Require Import TechnologyInvariant.
From S2P Require Import KlutModel.
From S2P Require Import GateCreation.
From S2P Require Import TransformationExamples.
From S2P Require Import InverterBalancing.
From S2P Require Import InverterPairs.
From S2P Require Import InverterProperties.
From S2P Require Import InverterTermination.
#[local] Open Scope Z_scope.
Import Technology.
Import InverterBalancing.

#[export] Instance list_fanout_view : FanoutView (K := list_klut) := {
  topo_foreach_fanout s n := filter (λ g, n ∈ list_fanin s g) (list_topo s);
  foreach_fanout s n := filter (λ g, n ∈ list_fanin s g) (Technology.foreach_gate s);
  is_nary_and := None;
  is_nary_or := None;
  is_nary_xor := None;
}.

#[export] Instance list_fanout_view_laws : FanoutViewLaws.
Proof. by split. Qed.

(** ** A check of the hypotheses *)

Definition table := list bool.

Definition canonical_check (c : list table) (k : Z) : bool :=
  (0 <=? k) && (k / 2 <? Z.of_nat (length c)) && bool_decide (table_insert c (table_at c k) = (k, c)).

Definition gate_check (s : list_network) (g : Z) : bool :=
  negb (gate_b s g) ||
  (match vec_at (nodes s) g with Some d => canonical_check (cache s) (GateLevel.literal d) | None => false end &&
   forallb (λ t, negb (bool_decide (literal_is s g t.1)) || (length (list_fanin s g) =? t.2)%nat) arities &&
   (uses s g <=? if decide (literal_is s g 2) then 2 else 1) &&
   (negb (bool_decide (literal_is s g 2)) || forallb (λ c, 2 <=? c) (list_fanin s g))).

Definition balance_check (s : list_network) : bool :=
  network_check s &&
  forallb (λ t, canonical_check (cache s) t.1 &&
                bool_decide (table_at (cache s) t.1 = table_at list_tables t.1)) gate_functions &&
  forallb (gate_check s) (seqZ 0 (num_nodes s)) &&
  forallb (λ o, negb (gate_b s o && bool_decide (literal_is s o 3))) (outputs s).

Lemma canonical_check_spec (s : list_network) k : canonical_check (cache s) k = true → canonical (cache s) k.
Proof.
  unfold canonical_check. rewrite !andb_true_iff. intros [[H0%Z.leb_le Hk%Z.ltb_lt] E%bool_decide_eq_true].
  split; [|exact E]. by split.
Qed.

Lemma gate_check_spec (s : list_network) g :
  gate_check s g = true → gate_node s g →
  (∀ d, vec_at (nodes s) g = Some d → canonical (cache s) (GateLevel.literal d)) ∧
  (∀ k (a : nat), (k, a) ∈ arities → literal_is s g k → length (foreach_fanin s g) = a) ∧
  (uses s g <= if decide (literal_is s g 2) then 2 else 1) ∧
  (∀ c, literal_is s g 2 → c ∈ foreach_fanin s g → 2 <= c).
Proof.
  unfold gate_check. intros Hc Hg. rewrite (proj2 (gate_b_spec s g) Hg) in Hc. cbn [negb orb] in Hc.
  rewrite !andb_true_iff in Hc. destruct Hc as [[[Hcn Har] Hu] Hb]. split_and!.
  - intros d Hd. rewrite Hd in Hcn. by apply canonical_check_spec.
  - intros k a Hk Hl. rewrite forallb_elem in Har. specialize (Har _ Hk). cbn [fst snd] in Har.
    rewrite bool_decide_true in Har by done. cbn [negb orb] in Har. by apply Nat.eqb_eq.
  - by apply Z.leb_le.
  - intros c Hl Hin. rewrite bool_decide_true in Hb by done. cbn [negb orb] in Hb. rewrite forallb_elem in Hb.
    apply Z.leb_le. by apply Hb.
Qed.

Lemma balance_check_spec (s : list_network) : balance_check s = true → balanceable s.
Proof.
  unfold balance_check. rewrite !andb_true_iff. intros [[[Hw Ht] Hg] Ho]. apply network_check_wf in Hw.
  rewrite forallb_elem in Ht. rewrite forallb_elem in Hg. rewrite forallb_elem in Ho.
  assert (∀ g, gate_node s g → gate_check s g = true) as Hgc.
  { intros g [? _]. apply Hg. apply elem_of_seqZ. lia. }
  split.
  - split; [done|]. intros k n f Hk. specialize (Ht _ Hk). cbn [fst] in Ht.
    apply andb_true_iff in Ht as [Ht E%bool_decide_eq_true]. split; [by apply canonical_check_spec|exact E].
  - intros g d Hgn Hd. by apply (gate_check_spec s g); [apply Hgc|..].
  - intros g k a Hgn Hk Hl. by apply (proj1 (proj2 (gate_check_spec s g (Hgc g Hgn) Hgn)) k).
  - intros g Hgn. apply (gate_check_spec s g (Hgc g Hgn) Hgn).
  - intros g c Hgn Hl Hc. by apply (gate_check_spec s g (Hgc g Hgn) Hgn).
  - intros o Hin Hgn Hl. specialize (Ho o Hin). rewrite (proj2 (gate_b_spec s o) Hgn), bool_decide_true in Ho by done.
    done.
Qed.

(** ** An example *)

(** The fanout node 4 drives the inverters 5 and 6 of a conjunction 7 and a disjunction 8. *)
Definition two_inverters : list_network :=
  build 2 [([2], 2); ([4], 3); ([4], 3); ([5; 3], 4); ([6; 3], 6)] [8; 7].

(** The gates of the result: an inverter, a buffer and the two gates. *)
Lemma two_inverters_balanced :
  (λ s : list_network, ((λ g, (list_fanin s g, GateLevel.literal <$> vec_at (nodes s) g)) <$> Technology.foreach_gate s, outputs s)) <$>
    inverter_balancing 3 two_inverters =
  Some ([([2], Some 3); ([4], Some 2); ([5; 3], Some 4); ([5; 3], Some 6)], [7; 6]).
Proof. by vm_compute. Qed.

Lemma inverter_balancing_correct_witness :
  ∃ s, inverter_balancing 3 two_inverters = Some s ∧ balanceable s ∧
    length (inputs s) = length (inputs two_inverters) ∧
    (∀ ins, simulate s ins = simulate two_inverters ins) ∧ (inverters s <= inverters two_inverters)%nat ∧
    inverter_balancing_recursive s = Some false.
Proof.
  apply (inverter_balancing_correct two_inverters 3).
  - apply balance_check_spec. by vm_compute.
  - apply (bool_decide_unpack _). by vm_compute.
Defined.

(** ** Outside of the hypotheses *)

Definition all_inputs : list (list bool) := [[false; false]; [false; true]; [true; false]; [true; true]].
Definition functions (s : list_network) : list (list bool) := simulate s <$> all_inputs.

(** Two outputs are driven by inverters of the same fanout node, as fanout substitution builds it: the
    second inverter is deleted and the second output becomes constant. *)
Definition inverted_outputs : list_network := build 2 [([2; 3], 4); ([4], 2); ([5], 3); ([5], 3)] [6; 7].

Lemma inverted_output_lost :
  network_wf inverted_outputs ∧
  functions inverted_outputs = [[true; true]; [true; true]; [true; true]; [false; false]] ∧
  functions <$> inverter_balancing 9 inverted_outputs =
    Some [[true; false]; [true; false]; [true; false]; [false; false]].
Proof. split; [apply network_check_wf|]; by vm_compute. Qed.

(** Of three inverters, only two are replaced. *)
Definition three_inverters : list_network :=
  build 2 [([2], 2); ([4], 3); ([4], 3); ([4], 3); ([5; 3], 4); ([6; 3], 4); ([7; 3], 4)] [8; 9; 10].

Lemma third_inverter_stays :
  network_wf three_inverters ∧
  functions three_inverters =
    [[false; false; false]; [true; true; true]; [false; false; false]; [false; false; false]] ∧
  functions <$> inverter_balancing 9 three_inverters =
    Some [[false; false; false]; [true; true; false]; [false; false; false]; [false; false; true]].
Proof. split; [apply network_check_wf|]; by vm_compute. Qed.

(** An output of the balanced fanout node is inverted. *)
Definition fanout_output : list_network :=
  build 2 [([2], 2); ([4], 3); ([4], 3); ([5; 3], 4); ([6; 3], 4)] [4; 7; 8].

Lemma fanout_output_inverted :
  network_wf fanout_output ∧
  functions fanout_output =
    [[false; false; false]; [false; true; true]; [true; false; false]; [true; false; false]] ∧
  functions <$> inverter_balancing 9 fanout_output =
    Some [[true; false; false]; [true; true; true]; [false; false; false]; [false; false; false]].
Proof. split; [apply network_check_wf|]; by vm_compute. Qed.

(** A conjunction, not a fanout node, drives two inverters: no run changes the network, but the test of
    the loop holds for every gate. *)
Definition unsubstituted : list_network :=
  build 2 [([2; 3], 4); ([4], 3); ([4], 3); ([5; 3], 4); ([6; 3], 4)] [7; 8].

Lemma rerun_diverges (s : list_network) fuel :
  run s = Some s → inverter_balancing_recursive s = Some true → rerun fuel s = None.
Proof.
  intros Hr Ht. induction fuel as [|fuel IH]; [done|]. cbn [rerun]. rewrite Hr. cbn [mbind option_bind].
  by rewrite Ht.
Qed.

Lemma unsubstituted_diverges fuel :
  network_wf unsubstituted ∧ inverter_balancing fuel unsubstituted = None.
Proof.
  split; [apply network_check_wf; by vm_compute|].
  destruct (run unsubstituted) as [s|] eqn:E; [|unfold inverter_balancing; by rewrite E].
  unfold inverter_balancing. rewrite E. cbn [mbind option_bind].
  assert (run s = Some s ∧ inverter_balancing_recursive s = Some true) as [Hr Ht].
  { vm_compute in E. injection E as <-. by split; vm_compute. }
  rewrite Ht. cbn [mbind option_bind]. by apply rerun_diverges.
Qed.
