(* ===== verification/TopoViewInputSort.v ===== *)
(** * Topological order with sorted inputs
      (include/fiction/networks/views/topo_view_input_sort.hpp and reverse_view.hpp)

    [topo_view_input_sort] lists the constants of a network, its inputs ranked by how the gates behind
    them connect them with other inputs, and then the nodes in the cone of the outputs in depth-first
    order. [reverse_view] lists the nodes of a network backwards. [NDEBUG] says whether assertions are
    left out. Not here: [create_rest_topo] and [get_fo_network], which nothing calls, and the local
    variables [all_inputs] and [first_PI], which are not read. *)

From S2P Require Import Prelude.
From S2P Require Import GateLevelLayout.
From S2P Require Import Networks.
From S2P Require Import PlacementUtils.
#[local] Open Scope Z_scope.
Import Networks.
Import Placement.

Module TopoView.

(** What the view calls of the network beyond the classes [Network] and [GateNetwork]. *)
Class SequentialNetwork (Ntk : Type) := {
  get_constant : Ntk → bool → Z;
  foreach_ci : Ntk → list Z;
  foreach_co : Ntk → list Z;
  is_ci : Ntk → Z → bool;
  is_ro : Ntk → Z → bool;
  is_fanout : Ntk → Z → bool;
  num_pis : Ntk → Z;
  num_registers : Ntk → Z;
}.

(** A loop over [l] whose body [f] may fail. *)
Definition iterate {S A} (f : S → A → option S) (s : S) (l : list A) : option S :=
  foldl (λ s a, s ← s; f s a) (Some s) l.

(** ** State *)

(** The traversal marks in the storage of the network, and the vectors of nodes. *)
Record queues := Queues {
  marks : gmap Z Z;
  trav_id : Z;
  topo_order : list Z;
  wait : list Z;
  second_wait : list Z;
  third_wait : list Z;
}.

(** The other members that [input_sort] writes. *)
Record flags := Flags {
  output_node : list Z;
  high_fan_out_node : list Z;
  fo_inv_flag : bool;
  fo_inv_flag_num : Z;
}.

Record view := View {
  start_signal : option Z;
  num_p : Z;
  num_c : Z;
  num_r : Z;
  lists : queues;
  notes : flags;
}.

Definition visited (q : queues) (n : Z) : Z := default 0 (marks q !! n).

Definition set_visited (n v : Z) (q : queues) : queues :=
  Queues (<[n := v]> (marks q)) (trav_id q) (topo_order q) (wait q) (second_wait q) (third_wait q).

Definition incr_trav_id (q : queues) : queues :=
  Queues (marks q) (wrap 32 (trav_id q + 1)) (topo_order q) (wait q) (second_wait q) (third_wait q).

Definition set_topo_order (v : list Z) (q : queues) : queues :=
  Queues (marks q) (trav_id q) v (wait q) (second_wait q) (third_wait q).
Definition set_wait (v : list Z) (q : queues) : queues :=
  Queues (marks q) (trav_id q) (topo_order q) v (second_wait q) (third_wait q).
Definition set_second_wait (v : list Z) (q : queues) : queues :=
  Queues (marks q) (trav_id q) (topo_order q) (wait q) v (third_wait q).
Definition set_third_wait (v : list Z) (q : queues) : queues :=
  Queues (marks q) (trav_id q) (topo_order q) (wait q) (second_wait q) v.

Definition push_topo (n : Z) (q : queues) : queues := set_topo_order (topo_order q ++ [n]) q.
Definition push_wait (n : Z) (q : queues) : queues := set_wait (wait q ++ [n]) q.
Definition push_second (n : Z) (q : queues) : queues := set_second_wait (second_wait q ++ [n]) q.
Definition push_third (n : Z) (q : queues) : queues := set_third_wait (third_wait q ++ [n]) q.

Definition marked (q : queues) (n : Z) : bool := visited q n =? trav_id q.

(** [push_back(n)] and [set_visited(n, trav_id())]. *)
Definition push_marked (push : Z → queues → queues) (n : Z) (q : queues) : queues :=
  set_visited n (trav_id q) (push n q).

(** The same where [n] has not been visited. *)
Definition push_once (push : Z → queues → queues) (n : Z) (q : queues) : queues :=
  if marked q n then q else push_marked push n q.

Section TopoView.
Context `{MT : GateLevel.Mockturtle} `{HN : Network Ntk} `{HG : !GateNetwork Ntk}.
Context `{HS : !SequentialNetwork Ntk}.
Context (NDEBUG : bool).
Implicit Types (ntk : Ntk) (q : queues) (n fon fi : Z).

(** [assert(b)]. *)
Definition assertion (b : bool) q : option queues := if b || NDEBUG then Some q else None.

(** ** [input_sort] *)

(** [*(wait.end() - 2)] is removed: [None] where there is no such element. *)
Definition erase_last_but_one q : option (Z * queues) :=
  let k := Z.of_nat (length (wait q)) - 2 in
  check_n ← vec_at (wait q) k;
  Some (check_n, set_wait (take (Z.to_nat k) (wait q) ++ drop (Z.to_nat (k + 1)) (wait q)) q).

(** The fanout node has two inputs as partners. *)
Definition second_partner n fin_inp q : option queues :=
  '(check_n, q) ← erase_last_but_one q;
  q ← (if check_n =? n then Some (push_marked push_topo n q) else assertion false q);
  Some (push_once push_topo fin_inp q).

(** Inverters are ignored; [None] for an inverter without proper fanins. *)
Definition input_behind ntk fi : option Z :=
  let fin_inp := get_node ntk fi in
  if is_inv ntk fin_inp then container_nodes (fanins ntk fin_inp) !! 0%nat else Some fin_inp.

(** The functor of the inner [foreach_fanin]; the flag is [already_one_PI]. *)
Definition rank_fanin ntk n fon (is_fan_out : bool) (r : queues * bool) fi : option (queues * bool) :=
  let '(q, already_one_PI) := r in
  fin_inp ← input_behind ntk fi;
  if fin_inp =? n then Some (q, already_one_PI)
  else if is_maj ntk fon && (2 <? Z.of_nat (length (container_nodes (fanins ntk fon))))
  then Some (push_once push_third n q, already_one_PI)
  else if is_ci ntk fin_inp then
    if is_fan_out then
      if (already_one_PI : bool)
      then q ← second_partner n fin_inp q; Some (q, false)
      else Some (push_once push_wait fin_inp (push_once push_wait n q), true)
    else Some (push_once push_second fin_inp (push_once push_second n q), already_one_PI)
  else Some (q, already_one_PI).

(** [output_node[0]] for the fanout [fon]: behind an inverter, its last fanout. *)
Definition first_output ntk fon (f : flags) : flags :=
  if is_inv ntk fon
  then Flags [foldl (λ _ fon_inv, fon_inv) fon (foreach_fanout ntk fon)] (high_fan_out_node f)
         true (fo_inv_flag_num f + 1)
  else Flags [fon] (high_fan_out_node f) (fo_inv_flag f) (fo_inv_flag_num f).

(** The nodes behind a fanout node, those behind its inverters in front, without fanout nodes. *)
Definition outputs_behind ntk (safe_node : Z) : list Z :=
  foldl (λ out fon,
      if is_fanout ntk fon then out
      else if is_inv ntk fon then foldl (λ out fon_inv, fon_inv :: out) out (foreach_fanout ntk fon)
      else out ++ [fon])
    [] (foreach_fanout ntk safe_node).

(** The functor of the outer [foreach_fanout]. *)
Definition rank_fanout ntk n (r : queues * flags) fon : option (queues * flags) :=
  let f := first_output ntk fon r.2 in
  out ← output_node f !! 0%nat;
  let is_fan_out := is_fanout ntk out in
  let outs := if is_fan_out then outputs_behind ntk out else [out] in
  '(q, _) ← iterate (rank_fanin ntk n fon is_fan_out) (r.1, false) (outs ≫= foreach_fanin ntk);
  Some (q, Flags outs [out] (fo_inv_flag f) (fo_inv_flag_num f)).

Definition input_sort ntk (r : queues * flags) n : option (queues * flags) :=
  iterate (rank_fanout ntk n) r (foreach_fanout ntk n).

(** ** [create_topo_rec] *)

(** [fuel] bounds the depth of the recursion. *)
Fixpoint create_topo_rec (fuel : nat) ntk q n : option queues :=
  match fuel with
  | O => None
  | S fuel =>
      if marked q n then Some q
      else
        q ← assertion (negb (visited q n =? wrap 32 (trav_id q - 1))) q;
        let q := set_visited n (wrap 32 (trav_id q - 1)) q in
        q ← iterate (λ q f, create_topo_rec fuel ntk q (get_node ntk f)) q (foreach_fanin ntk n);
        Some (push_topo n (set_visited n (trav_id q) q))
  end.

(** ** [update_topo] *)

Definition constant_nodes ntk : list Z :=
  let c0 := get_node ntk (get_constant ntk false) in
  let c1 := get_node ntk (get_constant ntk true) in
  if c1 =? c0 then [c0] else [c0; c1].

(** The two constants; also by how much [num_c] grows. *)
Definition push_constants ntk q : queues * Z :=
  let q := incr_trav_id (incr_trav_id (set_topo_order [] q)) in
  let q := push_marked push_topo (get_node ntk (get_constant ntk false)) q in
  let c1 := get_node ntk (get_constant ntk true) in
  if marked q c1 then (q, 1) else (push_marked push_topo c1 q, 2).

(** The first [foreach_ci]. *)
Definition sort_inputs ntk (r : queues * flags) : option (queues * flags) :=
  iterate (λ r n, if marked r.1 n then Some r else input_sort ntk r n) r (foreach_ci ntk).

(** The waiting inputs, in their ranking, and those that are left. *)
Definition push_inputs ntk q : queues :=
  let q := foldl (λ q n, push_marked push_topo n q) q (wait q) in
  let q := foldl (λ q n, push_marked push_topo n q) q (second_wait q) in
  let q := foldl (λ q n, push_marked push_topo n q) q (third_wait q) in
  foldl (λ q n, push_once push_topo n q) q (foreach_ci ntk).

Definition roots ntk (start : option Z) : list Z :=
  get_node ntk <$> match start with Some s => [s] | None => foreach_co ntk end.

Definition push_cone (fuel : nat) ntk (start : option Z) q : option queues :=
  iterate (λ q n, if marked q n then Some q else create_topo_rec fuel ntk q n) q (roots ntk start).

Definition update_topo (fuel : nat) ntk (v : view) : option view :=
  let '(q, c) := push_constants ntk (lists v) in
  '(q, f) ← sort_inputs ntk (q, notes v);
  q ← push_cone fuel ntk (start_signal v) (push_inputs ntk q);
  Some (View (start_signal v) (num_p v) (wrap 32 (num_c v + c)) (num_r v) q f).

(** The constructors: the view of the whole network, and of the cone of a signal, for which [num_r]
    keeps its default. The storage comes with its marks [m] and its traversal index [t]. *)
Definition initial_view ntk (start : option Z) (m : gmap Z Z) (t : Z) : view :=
  View start (num_pis ntk) 0 (match start with None => num_registers ntk | Some _ => 0 end)
    (Queues m t [] [] [] []) (Flags [] [] false 0).

Definition make_view (fuel : nat) ntk (start : option Z) (m : gmap Z Z) (t : Z) : option view :=
  update_topo fuel ntk (initial_view ntk start m t).
End TopoView.

(** ** Queries *)

Section Queries.
Context `{HN : Network Ntk} `{HS : !SequentialNetwork Ntk}.
Implicit Types (ntk : Ntk) (v : view).

Definition order v : list Z := topo_order (lists v).

Definition size v : Z := wrap 32 (Z.of_nat (length (order v))).

(** The constants and the primary inputs. *)
Definition offset ntk : Z :=
  wrap 32 (1 + num_pis ntk +
    Z.b2z (negb (get_node ntk (get_constant ntk true) =? get_node ntk (get_constant ntk false)))).

Definition num_gates ntk v : Z := wrap 32 (Z.of_nat (length (order v)) - offset ntk).

(** [std::find]: the length where there is no such node. *)
Definition find_index (l : list Z) (n : Z) : Z :=
  match list_find (λ m, m = n) l with Some (i, _) => Z.of_nat i | None => Z.of_nat (length l) end.

Definition node_to_index v n : Z := wrap 32 (find_index (order v) n).
Definition index_to_node v (index : Z) : option Z := vec_at (order v) index.

Definition foreach_node v : list Z := order v.

Definition foreach_gate ntk v : option (list Z) :=
  vec_range (order v) 0 (Z.of_nat (length (order v)) - offset ntk).

Definition inputs_if (p : Z → bool) v : option (list Z) :=
  ns ← vec_range (order v) (num_c v) (num_c v + num_p v + num_r v); Some (filter (λ n, p n = true) ns).

Definition foreach_pi ntk v : option (list Z) := inputs_if (is_pi ntk) v.
Definition foreach_ro ntk v : option (list Z) := inputs_if (is_ro ntk) v.

Definition ro_at ntk v (index : Z) : option Z := ros ← foreach_ro ntk v; vec_at ros index.

Definition foreach_po ntk v : list Z :=
  match start_signal v with Some s => [s] | None => Networks.foreach_po ntk end.
Definition num_pos ntk v : Z :=
  match start_signal v with Some _ => 1 | None => Z.of_nat (length (Networks.foreach_po ntk)) end.

Definition isFo_inv_flag v : bool := fo_inv_flag (notes v).
Definition isFo_inv_flag_num v : Z := fo_inv_flag_num (notes v).
End Queries.

(** ** [reverse_view] *)

Section ReverseView.
Context `{HN : Network Ntk} `{HS : !SequentialNetwork Ntk}.
Implicit Types (ntk : Ntk).

(** [copy_and_sort] for the nodes [ns] of the underlying network. *)
Definition reverse_order (ns : list Z) : list Z := reverse ns.

Definition reverse_foreach_node (ns : list Z) : list Z := reverse_order ns.

Definition reverse_foreach_gate ntk (ns : list Z) : option (list Z) :=
  vec_range (reverse_order ns) 0 (Z.of_nat (length (reverse_order ns)) - offset ntk).

Definition reverse_node_to_index (ns : list Z) n : Z := wrap 32 (find_index (reverse_order ns) n).
Definition reverse_index_to_node (ns : list Z) (index : Z) : option Z := vec_at (reverse_order ns) index.
End ReverseView.

End TopoView.
