(* ===== verification/TopoViewProperties.v ===== *)
(** * Theorems on the topological order with sorted inputs

    [update_topo] lists each node in the cone of the outputs, every input and the constants once and
    behind its fanins. Invariant [ranked] describes the ranking of the inputs, [settled] the
    depth-first search. *)

From S2P Require Import Prelude.
From S2P Require Import GateLevelLayout.
From S2P Require Import MockturtleModel.
From S2P Require Import Networks.
From S2P Require Import PlacementUtils.
From S2P Require Import NetworkModel.
From S2P Require Import TopoViewInputSort.
#[local] Open Scope Z_scope.
Import Networks.
Import Placement.
Import TopoView.

(** What the view relies on: the network is acyclic, its inputs are the primary inputs and the register
    outputs, and neither they nor the constants have fanins. *)
Class SequentialLaws `{HN : Network Ntk} `{HS : !SequentialNetwork Ntk} (ntk : Ntk) := {
  node_depth : Z → nat;
  fanin_depth n u : u ∈ fanin_nodes ntk n → (node_depth u < node_depth n)%nat;
  ci_NoDup : NoDup (foreach_ci ntk);
  elem_of_ci n : n ∈ foreach_ci ntk ↔ is_ci ntk n = true;
  ci_pi_or_ro n : is_ci ntk n = is_pi ntk n || is_ro ntk n;
  ci_without_fanin n : is_ci ntk n = true → fanin_nodes ntk n = [];
  constants_without_fanin n : n ∈ constant_nodes ntk → fanin_nodes ntk n = [];
  constant_not_ci n : n ∈ constant_nodes ntk → is_ci ntk n = false;
  num_pis_filter : num_pis ntk = Z.of_nat (length (filter (λ n, is_pi ntk n = true) (foreach_ci ntk)));
  num_cis : Z.of_nat (length (foreach_ci ntk)) = num_pis ntk + num_registers ntk;
  num_pis_width : num_pis ntk + 2 < 2 ^ 32;
}.

(** ** Loops *)

Lemma iterate_cons {S A} (f : S → A → option S) s a l :
  iterate f s (a :: l) = s' ← f s a; iterate f s' l.
Proof.
  unfold iterate. simpl. destruct (f s a) as [s'|]; [done|]. simpl. by induction l.
Qed.

Lemma iterate_preserves {S A} (P : S → Prop) (f : S → A → option S) l s s' :
  (∀ s a s', a ∈ l → P s → f s a = Some s' → P s') → P s → iterate f s l = Some s' → P s'.
Proof.
  revert s. induction l as [|a l IH]; intros s Hf Hs; [by intros [= <-]|].
  rewrite iterate_cons. destruct (f s a) as [s1|] eqn:E; [|done]. simpl. apply IH.
  - intros. eapply Hf; [by right|done|done].
  - eapply Hf; [by left|done|done].
Qed.

(** A loop whose body succeeds more often. *)
Lemma iterate_mono {S A} (f g : S → A → option S) l s s' :
  (∀ s a s', f s a = Some s' → g s a = Some s') → iterate f s l = Some s' → iterate g s l = Some s'.
Proof.
  intros Hf. revert s. induction l as [|a l IH]; intros s; [done|]. rewrite !iterate_cons.
  destruct (f s a) as [s1|] eqn:E; [|done]. rewrite (Hf _ _ _ E). apply IH.
Qed.

Section TopoViewProperties.
Context `{MT : GateLevel.Mockturtle} `{HN : Network Ntk} `{HG : !GateNetwork Ntk}.
Context `{HS : !SequentialNetwork Ntk} (ntk : Ntk) `{HL : !SequentialLaws ntk}.
Context (T : Z) (HT : 1 < T ∧ T < 2 ^ 32).
Implicit Types (q : queues) (n u : Z).

Lemma temporary_mark : wrap 32 (T - 1) = T - 1.
Proof. apply wrap_small. split; lia. Qed.

(** ** Marks *)

Lemma visited_set n v q u : visited (set_visited n v q) u = if decide (u = n) then v else visited q u.
Proof.
  unfold visited, set_visited. simpl. case_decide as E; [subst; by rewrite lookup_insert_eq|].
  by rewrite lookup_insert_ne by done.
Qed.

Lemma marked_spec q n : marked q n = true ↔ visited q n = trav_id q.
Proof. apply Z.eqb_eq. Qed.

Definition queued q : list Z := topo_order q ++ wait q ++ second_wait q ++ third_wait q.

(** The four ways to push. *)
Record pushes (push : Z → queues → queues) : Prop := {
  push_marks n q : marks (push n q) = marks q;
  push_trav n q : trav_id (push n q) = trav_id q;
  push_queued n q : queued (push n q) ≡ₚ n :: queued q;
  push_order n q : ∃ l, topo_order (push n q) = topo_order q ++ l;
}.

Lemma push_topo_pushes : pushes push_topo.
Proof.
  split; intros n q; [done|done| |by exists [n]]. unfold queued, push_topo. simpl. solve_Permutation.
Qed.
Lemma push_wait_pushes : pushes push_wait.
Proof.
  split; intros n q; [done|done| |exists []; by rewrite app_nil_r]. unfold queued, push_wait. simpl.
  solve_Permutation.
Qed.
Lemma push_second_pushes : pushes push_second.
Proof.
  split; intros n q; [done|done| |exists []; by rewrite app_nil_r]. unfold queued, push_second. simpl.
  solve_Permutation.
Qed.
Lemma push_third_pushes : pushes push_third.
Proof.
  split; intros n q; [done|done| |exists []; by rewrite app_nil_r]. unfold queued, push_third. simpl.
  solve_Permutation.
Qed.

(** ** The ranking of the inputs *)

(** The marked nodes are in the vectors, each once; they are the constants, which come first, and
    inputs. *)
Record ranked q : Prop := {
  rk_trav : trav_id q = T;
  rk_NoDup : NoDup (queued q);
  rk_marked n : visited q n = T ↔ n ∈ queued q;
  rk_temporary n : visited q n ≠ wrap 32 (T - 1);
  rk_constants : ∃ l, topo_order q = constant_nodes ntk ++ l;
  rk_inputs n : n ∈ queued q → n ∈ constant_nodes ntk ∨ is_ci ntk n = true;
}.

Lemma push_once_ranked push n q :
  pushes push → is_ci ntk n = true → ranked q → ranked (push_once push n q).
Proof.
  intros Hp Hn [Ht Hnd Hm Htmp [l Hl] Hin]. unfold push_once, push_marked.
  destruct (marked q n) eqn:Hmn; [by split; eauto|].
  apply not_true_iff_false in Hmn. rewrite marked_spec, Ht, Hm in Hmn.
  pose proof (push_queued _ Hp n q) as HQ.
  assert (queued (set_visited n (trav_id q) (push n q)) = queued (push n q)) as EQ by done.
  split; rewrite ?EQ.
  - simpl. by rewrite (push_trav _ Hp).
  - rewrite HQ. by constructor.
  - intros u. rewrite visited_set, HQ, elem_of_cons. unfold visited at 1. rewrite (push_marks _ Hp).
    case_decide; [rewrite Ht; tauto|]. change (default 0 (marks q !! u)) with (visited q u).
    rewrite Hm. tauto.
  - intros u. rewrite visited_set. case_decide; [rewrite temporary_mark; lia|].
    unfold visited. rewrite (push_marks _ Hp). apply Htmp.
  - destruct (push_order _ Hp n q) as [l' Hl']. exists (l ++ l'). simpl. by rewrite Hl', Hl, app_assoc.
  - intros u. rewrite HQ, elem_of_cons. intros [->|Hu]; auto.
Qed.

Lemma erase_last_but_one_spec q c q' :
  erase_last_but_one q = Some (c, q') →
  ∃ l x, wait q = l ++ [c; x] ∧ q' = set_wait (l ++ [x]) q.
Proof.
  unfold erase_last_but_one, vec_at. set (k := Z.of_nat (length (wait q)) - 2).
  case_decide as Hk; [|done]. destruct (wait q !! Z.to_nat k) as [a|] eqn:Ea; [|done].
  simpl. intros [= -> <-]. pose proof (take_drop_middle _ _ _ Ea) as E.
  replace (Z.to_nat (k + 1)) with (S (Z.to_nat k)) by lia.
  pose proof (length_drop (wait q) (S (Z.to_nat k))) as Hlen.
  destruct (drop (S (Z.to_nat k)) (wait q)) as [|x [|y r]]; simpl in Hlen; try lia.
  by exists (take (Z.to_nat k) (wait q)), x.
Qed.

Lemma second_partner_ranked n u q q' :
  is_ci ntk u = true → ranked q → second_partner false n u q = Some q' → ranked q'.
Proof.
  intros Hu Hq. unfold second_partner. destruct (erase_last_but_one q) as [[c q1]|] eqn:E; [|done].
  simpl. apply erase_last_but_one_spec in E as (l & x & Hw & ->).
  destruct (Z.eqb_spec c n) as [->|]; [|done]. simpl. intros [= <-].
  apply push_once_ranked; [apply push_topo_pushes|done|]. destruct Hq as [Ht Hnd Hm Htmp [p Hp] Hin].
  set (q1 := push_marked _ _ _).
  assert (queued q1 ≡ₚ queued q) as HQ.
  { unfold queued. rewrite Hw. subst q1. simpl. solve_Permutation. }
  assert (n ∈ queued q) as Hn by (unfold queued; rewrite Hw; set_solver).
  assert (∀ y, visited q1 y = visited q y) as HV.
  { intros y. subst q1. unfold push_marked. rewrite visited_set. case_decide as Ey; [|done].
    subst y. simpl. rewrite Ht. symmetry. by apply Hm. }
  split; [done|by rewrite HQ| | | |].
  - intros y. by rewrite HV, HQ, Hm.
  - intros y. rewrite HV. apply Htmp.
  - exists (p ++ [n]). subst q1. simpl. by rewrite Hp, app_assoc.
  - intros y. rewrite HQ. apply Hin.
Qed.

Lemma rank_fanin_ranked n fon b r fi r' :
  is_ci ntk n = true → ranked r.1 → rank_fanin false ntk n fon b r fi = Some r' → ranked r'.1.
Proof.
  intros Hn Hq. destruct r as [q a]. unfold rank_fanin. simpl in Hq.
  destruct (input_behind ntk fi) as [x|]; [|done]. simpl.
  destruct (x =? n); [by intros [= <-]|].
  destruct (_ && _); [intros [= <-]; by apply push_once_ranked; [apply push_third_pushes|..]|].
  destruct (is_ci ntk x) eqn:Hx; [|by intros [= <-]].
  destruct b; [destruct a|].
  - destruct (second_partner false n x q) as [q'|] eqn:E; [|done]. intros [= <-].
    by eapply second_partner_ranked.
  - intros [= <-]. simpl. do 2 (apply push_once_ranked; [apply push_wait_pushes|done|]). done.
  - intros [= <-]. simpl. do 2 (apply push_once_ranked; [apply push_second_pushes|done|]). done.
Qed.

Lemma input_sort_ranked n r r' :
  is_ci ntk n = true → ranked r.1 → input_sort false ntk r n = Some r' → ranked r'.1.
Proof.
  intros Hn Hr. unfold input_sort. apply (iterate_preserves (λ r, ranked r.1)); [|done].
  clear r r' Hr. intros r fon r' _ Hr. unfold rank_fanout.
  destruct (output_node _ !! 0%nat) as [out|]; [|done]. simpl.
  destruct (iterate _ _ _) as [[q a]|] eqn:E; [|done]. intros [= <-]. simpl.
  apply (iterate_preserves (λ r, ranked r.1)) in E; [done| |done].
  intros. by eapply rank_fanin_ranked.
Qed.

Lemma sort_inputs_ranked r r' :
  ranked r.1 → sort_inputs false ntk r = Some r' → ranked r'.1.
Proof.
  intros Hr. unfold sort_inputs. apply (iterate_preserves (λ r, ranked r.1)); [|done].
  intros s n s' Hn Hs. destruct (marked s.1 n); [by intros [= <-]|].
  apply input_sort_ranked; [|done]. by apply elem_of_ci.
Qed.

(** Where the assertions hold, builds without them do the same. *)
Lemma sort_inputs_release NDEBUG r r' :
  sort_inputs false ntk r = Some r' → sort_inputs NDEBUG ntk r = Some r'.
Proof.
  apply iterate_mono. intros s n s'. destruct (marked s.1 n); [done|].
  apply iterate_mono. clear s s'. intros s fon s'. unfold rank_fanout.
  destruct (output_node _ !! 0%nat) as [out|]; [|done]. simpl.
  destruct (iterate (rank_fanin false _ _ _ _) _ _) as [[q a]|] eqn:E; [|done].
  eapply iterate_mono in E as ->; [done|]. clear. intros [q a] fi s'. unfold rank_fanin.
  destruct (input_behind ntk fi) as [x|]; [|done]. simpl.
  destruct (x =? n); [done|]. destruct (_ && _); [done|].
  destruct (is_ci ntk x); [|done]. destruct (is_fanout _ _); [|done]. destruct a; [|done].
  unfold second_partner. destruct (erase_last_but_one q) as [[c q1]|]; [|done]. simpl.
  by destruct (c =? n).
Qed.

(** ** The depth-first search *)

(** Each node comes behind its fanins. *)
Definition topological (l : list Z) : Prop :=
  ∀ pre n post u, l = pre ++ n :: post → u ∈ fanin_nodes ntk n → u ∈ pre.

Lemma topological_snoc l n :
  topological l → (∀ u, u ∈ fanin_nodes ntk n → u ∈ l) → topological (l ++ [n]).
Proof.
  intros Hl Hn pre m post u E Hu.
  destruct post as [|p post _] using rev_ind; [apply app_inj_tail in E as [<- <-]; by apply Hn|].
  rewrite app_comm_cons, app_assoc in E. apply app_inj_tail in E as [E _]. by eapply Hl.
Qed.

Lemma topological_terminals l :
  (∀ n, n ∈ l → fanin_nodes ntk n = []) → topological l.
Proof.
  intros Hl pre n post u E. rewrite Hl; [|rewrite E; set_solver]. intros Hu. by apply not_elem_of_nil in Hu.
Qed.

Lemma topological_closed l n u : topological l → n ∈ l → u ∈ fanin_nodes ntk n → u ∈ l.
Proof.
  intros Hl (pre & post & ->)%list_elem_of_split Hu. apply elem_of_app. left. by eapply Hl.
Qed.

(** The permanently marked nodes are those in the order. *)
Record settled q : Prop := {
  sd_trav : trav_id q = T;
  sd_NoDup : NoDup (topo_order q);
  sd_marked n : visited q n = T ↔ n ∈ topo_order q;
  sd_topological : topological (topo_order q);
}.

(** The order grows by nodes in [P]; the temporary marks are as before. *)
Record grown (P : Z → Prop) q q' : Prop := {
  gr_order : ∃ l, topo_order q' = topo_order q ++ l ∧ Forall P l;
  gr_temporary n : visited q' n = T - 1 ↔ visited q n = T - 1;
}.

Lemma grown_refl P q : grown P q q.
Proof. split; [|done]. exists []. by rewrite app_nil_r. Qed.

Lemma grown_trans (P P' Q : Z → Prop) q q' q'' :
  (∀ n, P n → Q n) → (∀ n, P' n → Q n) → grown P q q' → grown P' q' q'' → grown Q q q''.
Proof.
  intros HP HP' [(l & E & Hl) H1] [(l' & E' & Hl') H2].
  split; [|intros n; by rewrite H2, H1]. exists (l ++ l').
  rewrite E', E, app_assoc. split; [done|]. apply Forall_app. split; by eapply Forall_impl.
Qed.

Lemma grown_elem P q q' n : grown P q q' → n ∈ topo_order q → n ∈ topo_order q'.
Proof. intros [(l & -> & _) _]. set_solver. Qed.

(** The nodes in the cone of [n]. *)
Definition cone n u : Prop := rtc (λ a b, b ∈ fanin_nodes ntk a) n u.

(** A loop that visits the nodes [us]. *)
Lemma visit_all (f : queues → Z → option queues) (us : list Z) q :
  (∀ u q, u ∈ us → settled q → (∀ x, visited q x = T - 1 → (node_depth u < node_depth x)%nat) →
     ∃ q', f q u = Some q' ∧ settled q' ∧ grown (cone u) q q' ∧ u ∈ topo_order q') →
  settled q → (∀ u x, u ∈ us → visited q x = T - 1 → (node_depth u < node_depth x)%nat) →
  ∃ q', iterate f q us = Some q' ∧ settled q' ∧ grown (λ x, ∃ u, u ∈ us ∧ cone u x) q q' ∧
    ∀ u, u ∈ us → u ∈ topo_order q'.
Proof.
  revert q. induction us as [|u us IH]; intros q Hf Hq Ht.
  { exists q. split_and!; [done|done|apply grown_refl|]. intros u Hu. by apply not_elem_of_nil in Hu. }
  rewrite iterate_cons. destruct (Hf u q) as (q1 & -> & Hq1 & Hg1 & Hu1); [by left|done|by intros; apply Ht; [left|]|].
  simpl. destruct (IH q1) as (q2 & -> & Hq2 & Hg2 & Hu2); [by intros; apply Hf; [right|..]|done| |].
  { intros v x Hv Hx. apply Ht; [by right|]. by apply (gr_temporary _ _ _ Hg1). }
  exists q2. split_and!; [done|done| |].
  - eapply grown_trans; [| |exact Hg1|exact Hg2]; simpl; [set_solver|].
    intros n (v & Hv & Hn). exists v. split; [by right|done].
  - intros v [->|Hv]%elem_of_cons; [by eapply grown_elem|by apply Hu2].
Qed.

Lemma iterate_fmap {S A B} (f : S → B → option S) (g : A → B) l s :
  iterate (λ s a, f s (g a)) s l = iterate f s (g <$> l).
Proof. unfold iterate. generalize (Some s). induction l as [|a l IH]; intros r; [done|]. simpl. apply IH. Qed.

(** Visiting [n] ends with [n] and new nodes of its cone in the order. *)
Lemma create_topo_rec_spec NDEBUG fuel q n :
  (node_depth n < fuel)%nat → settled q →
  (∀ x, visited q x = T - 1 → (node_depth n < node_depth x)%nat) →
  ∃ q', create_topo_rec NDEBUG fuel ntk q n = Some q' ∧ settled q' ∧ grown (cone n) q q' ∧
    n ∈ topo_order q'.
Proof.
  revert q n. induction fuel as [|fuel IH]; intros q n Hfuel Hq Ht; [lia|]. simpl.
  destruct (marked q n) eqn:Hm.
  { apply marked_spec in Hm. rewrite (sd_trav _ Hq), (sd_marked _ Hq) in Hm. exists q.
    split_and!; [done|done|apply grown_refl|done]. }
  apply not_true_iff_false in Hm. rewrite marked_spec, (sd_trav _ Hq) in Hm.
  rewrite (sd_trav _ Hq), temporary_mark by done.
  destruct (Z.eqb_spec (visited q n) (T - 1)) as [Hn|Hn]; [apply Ht in Hn; lia|]. simpl.
  rewrite (sd_trav _ Hq), temporary_mark by done.
  rewrite (iterate_fmap (create_topo_rec NDEBUG fuel ntk)).
  change (get_node ntk <$> foreach_fanin ntk n) with (fanin_nodes ntk n).
  set (q1 := set_visited n (T - 1) q).
  assert (∀ x, visited q1 x = if decide (x = n) then T - 1 else visited q x) as HV.
  { intros x. apply visited_set. }
  assert (settled q1) as Hq1.
  { destruct Hq as [H1 H2 H3 H4]. split; [done|done| |done]. intros x. rewrite HV. rewrite H3 in Hm.
    change (topo_order q1) with (topo_order q). case_decide; [|apply H3]. subst x. split; [lia|done]. }
  destruct (visit_all (create_topo_rec NDEBUG fuel ntk) (fanin_nodes ntk n) q1) as (q2 & -> & Hq2 & Hg & Hu).
  { intros u q' Hu Hq' Ht'. pose proof (fanin_depth n u Hu). apply IH; [lia|done|done]. }
  { done. }
  { intros u x Hu. pose proof (fanin_depth n u Hu) as Hd. rewrite HV. case_decide; [by subst|].
    intros Hx%Ht. lia. }
  simpl. rewrite (sd_trav _ Hq2). eexists. split; [done|].
  destruct Hg as [(l & El & Hl) Hg].
  assert (visited q2 n = T - 1) as Hn2 by (apply Hg; rewrite HV; by rewrite decide_True).
  assert (n ∉ topo_order q2) as Hnew.
  { intros Hin. apply (sd_marked _ Hq2) in Hin. lia. }
  destruct Hq2 as [H1 H2 H3 H4].
  assert (∀ x, visited (push_topo n (set_visited n T q2)) x = if decide (x = n) then T else visited q2 x) as HV2.
  { intros x. apply visited_set. }
  split_and!.
  - split; cbn; [done| | |by apply topological_snoc].
    + apply NoDup_app. split_and!; [done| |apply NoDup_singleton]. by intros x Hx ->%list_elem_of_singleton.
    + intros x. rewrite HV2, elem_of_app, list_elem_of_singleton, <-H3. case_decide; tauto.
  - split.
    + exists (l ++ [n]). cbn. rewrite El, <-app_assoc. split; [done|]. apply Forall_app. split.
      * eapply Forall_impl; [exact Hl|]. intros x (u & Hux & Hx). by eapply rtc_l.
      * repeat constructor.
    + intros x. rewrite HV2. case_decide; [subst x; lia|]. rewrite Hg, HV. by rewrite decide_False.
  - cbn. set_solver.
Qed.

(** ** The inputs in the order *)

Record pushed_all (l : list Z) q q' : Prop := {
  pa_trav : trav_id q' = trav_id q;
  pa_order : topo_order q' = topo_order q ++ l;
  pa_second : second_wait q' = second_wait q;
  pa_third : third_wait q' = third_wait q;
  pa_visited n : visited q' n = if decide (n ∈ l) then trav_id q else visited q n;
}.

Lemma push_marked_all l q : pushed_all l q (foldl (λ q n, push_marked push_topo n q) q l).
Proof.
  revert q. induction l as [|n l IH]; intros q; simpl.
  { split; [done|by rewrite app_nil_r|done|done|]. intros n. by rewrite decide_False by apply not_elem_of_nil. }
  destruct (IH (push_marked push_topo n q)) as [H1 H2 H3 H4 H5].
  split; [done|rewrite H2; simpl; by rewrite <-app_assoc|done|done|]. intros u. rewrite H5.
  unfold push_marked. rewrite visited_set. simpl. repeat case_decide; set_solver.
Qed.

(** Inputs that are left. *)
Lemma push_rest l q :
  (∀ n, n ∈ l → fanin_nodes ntk n = []) → settled q → (∀ n, visited q n ≠ T - 1) →
  let q' := foldl (λ q n, push_once push_topo n q) q l in
  settled q' ∧ (∀ n, visited q' n ≠ T - 1) ∧
  (∃ r, topo_order q' = topo_order q ++ r ∧ ∀ n, n ∈ r → n ∈ l) ∧ ∀ n, n ∈ l → n ∈ topo_order q'.
Proof.
  revert q. induction l as [|n l IH]; intros q Hl Hq Ht; simpl.
  { split_and!; [done|done| |intros n Hn; by apply not_elem_of_nil in Hn]. exists []. by rewrite app_nil_r. }
  set (q1 := push_once push_topo n q).
  assert (settled q1 ∧ (∀ u, visited q1 u ≠ T - 1) ∧ n ∈ topo_order q1 ∧
    ∃ r, topo_order q1 = topo_order q ++ r ∧ ∀ u, u ∈ r → u = n) as (Hq1 & Ht1 & Hn & r1 & Er1 & Hr1).
  { subst q1. unfold push_once. destruct Hq as [H1 H2 H3 H4]. destruct (marked q n) eqn:Hm.
    - apply marked_spec in Hm. rewrite H1, H3 in Hm. split_and!; [by split|done|done|].
      exists []. rewrite app_nil_r. split; [done|]. intros u Hu. by apply not_elem_of_nil in Hu.
    - apply not_true_iff_false in Hm. rewrite marked_spec, H1 in Hm. pose proof Hm as Hnew. rewrite H3 in Hnew.
      unfold push_marked. rewrite H1.
      assert (∀ u, visited (set_visited n T (push_topo n q)) u = if decide (u = n) then T else visited q u) as HV
        by (intros u; exact (visited_set n T (push_topo n q) u)).
      split_and!; [| | |by exists [n]; split; [|intros u ->%list_elem_of_singleton]].
      + split; cbn; [done| | |apply topological_snoc; [done|]].
        * apply NoDup_app. split_and!; [done| |apply NoDup_singleton]. by intros x Hx ->%list_elem_of_singleton.
        * intros x. rewrite HV, elem_of_app, list_elem_of_singleton, <-H3. case_decide; tauto.
        * rewrite Hl by (by left). intros u Hu. by apply not_elem_of_nil in Hu.
      + intros u. rewrite HV. case_decide; [lia|apply Ht].
      + cbn. set_solver. }
  destruct (IH q1) as (Hq2 & Ht2 & (r & Er & Hr) & Hl2); [by intros; apply Hl; right|done|done|].
  split_and!; [done|done| |].
  - exists (r1 ++ r). rewrite Er, Er1, <-app_assoc. split; [done|]. intros u. rewrite elem_of_app.
    intros [->%Hr1|Hu%Hr]; [by left|by right].
  - intros u [->|Hu]%elem_of_cons; [|by apply Hl2]. rewrite Er. set_solver.
Qed.

Lemma ranked_terminal q n : ranked q → n ∈ queued q → fanin_nodes ntk n = [].
Proof. intros Hq [?|?]%(rk_inputs _ Hq); [by apply constants_without_fanin|by apply ci_without_fanin]. Qed.

Lemma push_inputs_spec q :
  ranked q →
  let q' := push_inputs ntk q in
  settled q' ∧ (∀ n, visited q' n ≠ T - 1) ∧
  ∃ cis, topo_order q' = constant_nodes ntk ++ cis ∧ cis ≡ₚ foreach_ci ntk.
Proof.
  intros Hq. unfold push_inputs.
  pose proof (push_marked_all (wait q) q) as [A1 A2 A3 A4 A5].
  set (q1 := foldl _ q (wait q)) in *.
  pose proof (push_marked_all (second_wait q1) q1) as [B1 B2 B3 B4 B5].
  set (q2 := foldl _ q1 (second_wait q1)) in *.
  pose proof (push_marked_all (third_wait q2) q2) as [C1 C2 C3 C4 C5].
  set (q3 := foldl _ q2 (third_wait q2)) in *.
  rewrite B4, A4 in *. rewrite A3 in *. pose proof Hq as [Ht Hnd Hm Htmp [l Hl] Hin].
  assert (topo_order q3 = queued q) as EO by (unfold queued; by rewrite C2, B2, A2, <-!app_assoc).
  assert (∀ n, visited q3 n = visited q n) as EV.
  { intros n. rewrite C5, B5, A5, B1, A1, Ht.
    repeat case_decide; try done; symmetry; apply Hm; unfold queued; set_solver. }
  assert (settled q3) as H3.
  { split; [congruence|by rewrite EO| |].
    - intros n. by rewrite EV, EO, Hm.
    - rewrite EO. apply topological_terminals. intros n. by apply ranked_terminal. }
  assert (∀ n, visited q3 n ≠ T - 1) as H3t.
  { intros n. rewrite EV, <-temporary_mark by done. apply Htmp. }
  destruct (push_rest (foreach_ci ntk) q3) as (H4 & H4t & (r & Er & Hr) & Hci); [|done|done|].
  { intros n Hn. apply ci_without_fanin. by apply elem_of_ci. }
  split_and!; [done|done|]. set (q4 := foldl _ q3 _) in *.
  exists (l ++ wait q ++ second_wait q ++ third_wait q ++ r).
  assert (topo_order q4 = constant_nodes ntk ++ l ++ wait q ++ second_wait q ++ third_wait q ++ r) as E4.
  { rewrite Er, EO. unfold queued. by rewrite Hl, <-!app_assoc. }
  split; [done|]. pose proof (sd_NoDup _ H4) as Hnd4. rewrite E4 in Hnd4.
  apply NoDup_app in Hnd4 as (_ & Hdis & Hnd4). apply NoDup_Permutation; [done|apply ci_NoDup|]. intros n. split.
  - intros Hn. assert (n ∈ queued q ∨ n ∈ r) as [Hnq|Hnr] by (unfold queued; rewrite Hl; set_solver).
    + apply Hin in Hnq as [Hc|Hc]; [by destruct (Hdis n Hc)|by apply elem_of_ci].
    + by apply Hr.
  - intros Hn. pose proof (Hci n Hn) as Hin4. rewrite E4 in Hin4. apply elem_of_app in Hin4 as [Hc|?]; [|done].
    apply elem_of_ci in Hn. rewrite constant_not_ci in Hn by done. done.
Qed.

(** ** The constants *)

(** No node of the storage has one of the marks of the next traversals. *)
Definition fresh_marks (m : gmap Z Z) (t : Z) : Prop :=
  0 <= t ∧ t + 2 < 2 ^ 32 ∧ ∀ n, default 0 (m !! n) <= t.

Lemma constant_nodes_NoDup : NoDup (constant_nodes ntk).
Proof.
  unfold constant_nodes. destruct (Z.eqb_spec (get_node ntk (get_constant ntk true))
    (get_node ntk (get_constant ntk false))); repeat constructor; set_solver.
Qed.

Lemma push_constants_spec m t :
  fresh_marks m t → t + 2 = T →
  let r := push_constants ntk (Queues m t [] [] [] []) in
  ranked r.1 ∧ r.2 = Z.of_nat (length (constant_nodes ntk)).
Proof.
  intros (Ht & Hw & Hm) HtT.
  assert (wrap 32 (wrap 32 (t + 1) + 1) = T) as EW by (rewrite (wrap_small 32 (t + 1)), wrap_small by (split; lia); lia).
  assert (∀ n, default 0 (m !! n) ≠ T ∧ default 0 (m !! n) ≠ T - 1) as Hf by (intros n; specialize (Hm n); lia).
  pose proof constant_nodes_NoDup as Hnd. unfold push_constants. cbn zeta.
  unfold incr_trav_id, set_topo_order. cbn [marks trav_id topo_order wait second_wait third_wait].
  rewrite EW. set (q := push_marked push_topo _ _).
  assert (∀ n, visited q n = if decide (n = get_node ntk (get_constant ntk false)) then T else default 0 (m !! n))
    as HV by (intros n; exact (visited_set _ _ _ _)).
  unfold constant_nodes in *. destruct (Z.eqb_spec (get_node ntk (get_constant ntk true))
    (get_node ntk (get_constant ntk false))) as [E|E].
  - assert (marked q (get_node ntk (get_constant ntk true)) = true) as -> by
      (apply marked_spec; rewrite HV; by rewrite decide_True).
    split; [|done]. split; [done|done| | |by exists []; rewrite app_nil_r; unfold constant_nodes;
      rewrite (proj2 (Z.eqb_eq _ _) E)|].
    + intros n. rewrite HV. cbn. rewrite list_elem_of_singleton. specialize (Hf n). case_decide; naive_solver.
    + intros n. rewrite temporary_mark, HV by done. specialize (Hf n). case_decide; [lia|tauto].
    + intros n Hn. left. unfold constant_nodes. by rewrite (proj2 (Z.eqb_eq _ _) E).
  - assert (marked q (get_node ntk (get_constant ntk true)) = false) as ->.
    { apply not_true_iff_false. rewrite marked_spec, HV. rewrite decide_False by done. apply Hf. }
    split; [|done].
    assert (∀ n, visited (push_marked push_topo (get_node ntk (get_constant ntk true)) q) n =
      if decide (n = get_node ntk (get_constant ntk true)) then T else visited q n) as HV1
      by (intros n; exact (visited_set _ _ _ _)).
    assert (constant_nodes ntk = [get_node ntk (get_constant ntk false); get_node ntk (get_constant ntk true)])
      as EC by (unfold constant_nodes; by rewrite (proj2 (Z.eqb_neq _ _) E)).
    split; [done|done| | |exists []; by rewrite app_nil_r, EC|].
    + intros n. rewrite HV1, HV. cbn. rewrite !elem_of_cons, elem_of_nil. specialize (Hf n).
      repeat case_decide; naive_solver.
    + intros n. rewrite temporary_mark, HV1, HV by done. specialize (Hf n). repeat case_decide; lia.
    + intros n Hn. left. by rewrite EC.
Qed.

(** ** The whole order *)

Definition in_cone (start : option Z) g : Prop := ∃ r, r ∈ roots ntk start ∧ cone r g.

Lemma push_cone_spec NDEBUG fuel start q :
  settled q → (∀ n, visited q n ≠ T - 1) → (∀ r, r ∈ roots ntk start → (node_depth r < fuel)%nat) →
  ∃ q' gates, push_cone NDEBUG fuel ntk start q = Some q' ∧ settled q' ∧
    topo_order q' = topo_order q ++ gates ∧
    (∀ g, g ∈ gates ↔ in_cone start g ∧ g ∉ topo_order q).
Proof.
  intros Hq Ht Hfuel. unfold push_cone.
  edestruct (visit_all (λ q n, if marked q n then Some q else create_topo_rec NDEBUG fuel ntk q n)
    (roots ntk start) q) as (q' & E & Hq' & [(gates & Eg & Hg) _] & Hr); [|done|by intros u x _ ?%Ht|].
  - intros u q1 Hu Hq1 Ht1. destruct (create_topo_rec_spec NDEBUG fuel q1 u) as (q2 & Hrec & Hq2); [by apply Hfuel|done..|].
    exists q2. split; [|done]. destruct (marked q1 u) eqn:Hm; [|done].
    rewrite <-Hrec. specialize (Hfuel u Hu). destruct fuel; [lia|]. simpl. by rewrite Hm.
  - exists q', gates. split_and!; [done|done|done|]. intros g. pose proof (sd_NoDup _ Hq') as Hnd.
    rewrite Eg in Hnd. apply NoDup_app in Hnd as (_ & Hdis & _). split.
    + intros Hin. split; [|by intros ?%Hdis]. rewrite Forall_forall in Hg. by apply Hg.
    + intros [(r & Hroot & Hc) Hnew]. assert (g ∈ topo_order q') as Hin.
      { apply Hr in Hroot. clear - Hroot Hc Hq'. induction Hc as [|a b c Hab _ IH]; [done|].
        apply IH. by eapply topological_closed; [apply (sd_topological _ Hq')|..]. }
      rewrite Eg in Hin. apply elem_of_app in Hin as [?|?]; done.
Qed.
End TopoViewProperties.

Section Theorems.
Context `{MT : GateLevel.Mockturtle} `{HN : Network Ntk} `{HG : !GateNetwork Ntk}.
Context `{HS : !SequentialNetwork Ntk}.
Implicit Types (ntk : Ntk) (v : view).

Lemma offset_length ntk `{!SequentialLaws ntk} :
  offset ntk = num_pis ntk + Z.of_nat (length (constant_nodes ntk)).
Proof.
  unfold offset, constant_nodes. pose proof num_pis_width. pose proof num_pis_filter.
  destruct (_ =? _); simpl; rewrite wrap_small by (split; lia); lia.
Qed.

(** The members of the view that the order is read from. *)
Record ordered ntk start v (cis gates : list Z) : Prop := {
  ordered_list : order v = constant_nodes ntk ++ cis ++ gates;
  ordered_cis : cis ≡ₚ foreach_ci ntk;
  ordered_NoDup : NoDup (order v);
  ordered_gates g : g ∈ gates ↔ in_cone ntk start g ∧ g ∉ constant_nodes ntk ∧ is_ci ntk g = false;
  ordered_topological : topological ntk (order v);
  ordered_num_c : num_c v = Z.of_nat (length (constant_nodes ntk));
  ordered_num_p : num_p v = num_pis ntk;
  ordered_num_r : start = None → num_r v = num_registers ntk;
}.

Lemma make_view_ordered ntk `{!SequentialLaws ntk} NDEBUG fuel start m t r :
  fresh_marks m t →
  sort_inputs false ntk ((push_constants ntk (Queues m t [] [] [] [])).1, Flags [] [] false 0) = Some r →
  (∀ o, o ∈ roots ntk start → (node_depth o < fuel)%nat) →
  ∃ v cis gates, make_view NDEBUG fuel ntk start m t = Some v ∧ ordered ntk start v cis gates.
Proof.
  intros Hm Hs Hfuel. assert (1 < t + 2 ∧ t + 2 < 2 ^ 32) as HT by (destruct Hm as (? & ? & _); lia).
  destruct (push_constants_spec ntk (t + 2) HT m t Hm eq_refl) as [Hk Hc].
  unfold make_view, update_topo, initial_view. cbn [lists notes].
  destruct (push_constants ntk _) as [q0 c]. simpl in Hs, Hk, Hc. subst c.
  pose proof (sort_inputs_ranked ntk (t + 2) HT (_, _) _ Hk Hs) as Hk'.
  rewrite (sort_inputs_release _ NDEBUG _ _ Hs). destruct r as [q f]. simpl in Hk'. simpl.
  destruct (push_inputs_spec ntk (t + 2) HT q Hk') as (Hq & Ht & cis & Ecis & Pcis).
  destruct (push_cone_spec ntk (t + 2) HT NDEBUG fuel start _ Hq Ht Hfuel) as (q' & gates & -> & Hq' & Eg & Hg).
  eexists _, cis, gates. split; [done|]. rewrite Ecis, <-app_assoc in Eg.
  split; cbn; [done|done|apply (sd_NoDup _ _ _ Hq')| |apply (sd_topological _ _ _ Hq')| |done|by intros ->].
  - intros g. rewrite Hg, Ecis, not_elem_of_app, Pcis, elem_of_ci, not_true_iff_false. tauto.
  - apply wrap_small. unfold constant_nodes. destruct (_ =? _); cbn [length]; split; lia.
Qed.

(** The inputs stand where [foreach_pi] and [foreach_ro] look for them. *)
Lemma inputs_if_filter ntk `{!SequentialLaws ntk} v cis gates p :
  ordered ntk None v cis gates → inputs_if p v = Some (filter (λ n, p n = true) cis).
Proof.
  intros H. unfold inputs_if, vec_range.
  assert (num_p v + num_r v = Z.of_nat (length cis)) as El.
  { rewrite (ordered_num_p _ _ _ _ _ H), (ordered_num_r _ _ _ _ _ H), <-num_cis by done.
    by rewrite (ordered_cis _ _ _ _ _ H). }
  rewrite (ordered_num_c _ _ _ _ _ H), (ordered_list _ _ _ _ _ H).
  rewrite decide_True by (rewrite !length_app; lia). simpl. f_equal. f_equal.
  rewrite Nat2Z.id, drop_app_length.
  replace (Z.to_nat _) with (length cis) by lia. apply take_app_length.
Qed.

(** [reverse_view] runs from the last node of the order to the first one that is not counted as an
    input. *)
Lemma reverse_gates ntk `{!SequentialLaws ntk} start v cis gates :
  ordered ntk start v cis gates →
  reverse_foreach_gate ntk (foreach_node v) =
    Some (reverse gates ++ reverse (drop (Z.to_nat (num_pis ntk)) cis)).
Proof.
  intros H. unfold reverse_foreach_gate, reverse_order, foreach_node, vec_range.
  rewrite length_reverse, offset_length by done. rewrite (ordered_list _ _ _ _ _ H), !length_app.
  assert (0 <= num_pis ntk <= Z.of_nat (length cis)) as Hp.
  { rewrite (ordered_cis _ _ _ _ _ H), num_pis_filter. pose proof (length_filter (λ n, is_pi ntk n = true) (foreach_ci ntk)). lia. }
  rewrite decide_True by lia. f_equal. change (Z.to_nat 0) with O. rewrite drop_0, !reverse_app, <-app_assoc.
  rewrite <-(take_drop (Z.to_nat (num_pis ntk)) cis) at 2. rewrite reverse_app, <-app_assoc, app_assoc.
  apply take_app_length'. rewrite length_app, !length_reverse, length_drop. lia.
Qed.

(** C12: [topo_view_input_sort]: where the ranking of the inputs succeeds, updating the order terminates
    with the depth of the cone as fuel, without violating an assertion; the order has the constants,
    then every input and then the other nodes in the cone of the outputs, each once and behind its
    fanins. On the view of a whole network, [foreach_pi] and [foreach_ro] visit the primary inputs and
    the register outputs, and [foreach_gate] of its [reverse_view] visits the gates, users first, and
    behind them the inputs that are not counted as primary. *)
Theorem topo_view_correct ntk `{!SequentialLaws ntk} NDEBUG fuel start m t :
  fresh_marks m t →
  is_Some (sort_inputs false ntk ((push_constants ntk (Queues m t [] [] [] [])).1, Flags [] [] false 0)) →
  (∀ o, o ∈ roots ntk start → (node_depth o < fuel)%nat) →
  ∃ v cis gates, make_view NDEBUG fuel ntk start m t = Some v ∧ ordered ntk start v cis gates ∧
    (start = None → ∃ pis ros, foreach_pi ntk v = Some pis ∧ foreach_ro ntk v = Some ros ∧
      pis ≡ₚ filter (λ n, is_pi ntk n = true) (foreach_ci ntk) ∧
      ros ≡ₚ filter (λ n, is_ro ntk n = true) (foreach_ci ntk)) ∧
    reverse_foreach_gate ntk (foreach_node v) =
      Some (reverse gates ++ reverse (drop (Z.to_nat (num_pis ntk)) cis)).
Proof.
  intros Hm [r Hr] Hfuel.
  destruct (make_view_ordered ntk NDEBUG fuel start m t r Hm Hr Hfuel) as (v & cis & gates & Hv & Ho).
  exists v, cis, gates. split_and!; [done|done| |by eapply reverse_gates].
  intros ->. eexists _, _. split_and!; [by eapply inputs_if_filter|by eapply inputs_if_filter|..];
    by rewrite (ordered_cis _ _ _ _ _ Ho).
Qed.

(** ** When the ranking succeeds *)

(** The inputs that meet [n] at the nodes behind a fanout node. *)
Definition partners ntk n (outs : list Z) : list Z :=
  filter (λ x, x ≠ n ∧ is_ci ntk x = true) (omap (input_behind ntk) (outs ≫= foreach_fanin ntk)).

(** No inverter of a constant, and at most one partner behind the fanout nodes of [n]. *)
Definition few_partners ntk n : Prop :=
  ∀ fon, fon ∈ foreach_fanout ntk n →
    ∀ out, output_node (first_output ntk fon (Flags [] [] false 0)) = [out] →
    let outs := if is_fanout ntk out then outputs_behind ntk out else [out] in
    (∀ fi, fi ∈ outs ≫= foreach_fanin ntk → is_Some (input_behind ntk fi)) ∧
    (is_fanout ntk out = true → (length (partners ntk n outs) <= 1)%nat).

Lemma iterate_total {S A} (f : S → A → option S) l s :
  (∀ s a, a ∈ l → is_Some (f s a)) → is_Some (iterate f s l).
Proof.
  revert s. induction l as [|a l IH]; intros s Hf; [by eexists|]. rewrite iterate_cons.
  destruct (Hf s a) as [s' ->]; [by left|]. apply IH. intros. apply Hf. by right.
Qed.

(** With one partner left at most, and none once one has been met. *)
Lemma rank_fanins_total NDEBUG ntk n fon b q (met : bool) fis :
  (∀ fi, fi ∈ fis → is_Some (input_behind ntk fi)) →
  (b = true → (length (filter (λ x, x ≠ n ∧ is_ci ntk x = true) (omap (input_behind ntk) fis)) +
     (if met then 1 else 0) <= 1)%nat) →
  is_Some (iterate (rank_fanin NDEBUG ntk n fon b) (q, met) fis).
Proof.
  revert q met. induction fis as [|fi fis IH]; intros q met Hfi Hb; [by eexists|].
  rewrite iterate_cons. destruct (Hfi fi) as [x Hx]; [by left|].
  change (omap (input_behind ntk) (fi :: fis)) with
    (match input_behind ntk fi with Some x => x :: omap (input_behind ntk) fis
     | None => omap (input_behind ntk) fis end) in Hb.
  rewrite Hx, filter_cons in Hb.
  assert (∃ q' met', rank_fanin NDEBUG ntk n fon b (q, met) fi = Some (q', met') ∧
    (b = true → (length (filter (λ x, x ≠ n ∧ is_ci ntk x = true) (omap (input_behind ntk) fis)) +
       (if met' then 1 else 0) <= 1)%nat)) as (q' & met' & -> & Hb').
  { unfold rank_fanin. rewrite Hx. simpl.
    destruct (Z.eqb_spec x n) as [->|Hxn]; [rewrite decide_False in Hb by naive_solver; eauto|].
    destruct (_ && _); [eexists _, _; split; [done|]; intros Eb; specialize (Hb Eb); case_decide; simpl in Hb; lia|].
    destruct (is_ci ntk x) eqn:Hc; [|rewrite decide_False in Hb by naive_solver; eauto].
    rewrite decide_True in Hb by done. destruct b; [|by eexists _, _].
    specialize (Hb eq_refl). destruct met; cbn [length] in Hb; [lia|]. eexists _, _. split; [done|]. intros _. cbn [length]. lia. }
  apply IH; [by intros; apply Hfi; right|done].
Qed.

Lemma few_partners_sorted NDEBUG ntk r :
  (∀ n, n ∈ foreach_ci ntk → few_partners ntk n) → is_Some (sort_inputs NDEBUG ntk r).
Proof.
  intros Hf. apply iterate_total. intros s n Hn. destruct (marked s.1 n); [by eexists|].
  apply iterate_total. clear s. intros s fon Hfon. specialize (Hf n Hn fon Hfon). unfold rank_fanout.
  assert (∃ out f, first_output ntk fon s.2 = Flags [out] f.1.1 f.1.2 f.2 ∧
    output_node (first_output ntk fon (Flags [] [] false 0)) = [out]) as (out & f & -> & Hout).
  { unfold first_output. destruct (is_inv ntk fon); eexists _, (_, _, _); done. }
  simpl. destruct (Hf out Hout) as [H1 H2]. set (outs := if is_fanout ntk out then _ else _) in *.
  destruct (rank_fanins_total NDEBUG ntk n fon (is_fanout ntk out) s.1 false (outs ≫= foreach_fanin ntk))
    as [[q a] ->]; [done| |by eexists].
  intros Eb. specialize (H2 Eb). unfold partners in H2. lia.
Qed.
End Theorems.
