(* ===== verification/TopoViewModel.v ===== *)
(** * Topological orders of netlists

    The netlists of [NetworkModel.v] as networks with sorted inputs: a multiplexer on which the theorem
    of [TopoViewProperties.v] is applied, and networks on which the ranking of the inputs fails. *)

From S2P Require Import Prelude.
From S2P Require Import GateLevelLayout.
From S2P Require Import MockturtleModel.
From S2P Require Import Networks.
From S2P Require Import PlacementUtils.
From S2P Require Import NetworkModel.
From S2P Require Import TopoViewInputSort.
From S2P Require Import TopoViewProperties.
#[local] Open Scope Z_scope.
Import Networks.
Import Netlists.
Import TopoView.

Module SortedNetlists.

(** Combinational networks: the inputs are the primary inputs. *)
#[export] Instance netlist_sequential : SequentialNetwork netlist := {
  get_constant _ b := Z.b2z b;
  foreach_ci := Networks.foreach_pi;
  foreach_co := Networks.foreach_po;
  is_ci := Networks.is_pi;
  is_ro _ _ := false;
  is_fanout ntk n := has_kind ntk n Buf && (1 <? Z.of_nat (length (Networks.foreach_fanout ntk n)));
  num_pis ntk := Z.of_nat (num_inputs ntk);
  num_registers _ := 0;
}.

Lemma fanin_smaller ntk n u :
  valid_netlist ntk = true → u ∈ fanin_nodes ntk n → 0 <= u < n.
Proof.
  intros Hv. unfold fanin_nodes. cbn. rewrite list_fmap_id. intros Hu. apply valid_fanin with ntk; [done| |done].
  unfold node_fanins, gate_at, vec_at in Hu. case_decide as Hn; [|by apply not_elem_of_nil in Hu].
  destruct (gates ntk !! _) as [g|] eqn:E; [|by apply not_elem_of_nil in Hu].
  apply lookup_lt_Some in E. apply elem_of_node_list. unfold num_nodes, first_gate in *. lia.
Qed.

Lemma elem_of_inputs ntk n : n ∈ foreach_ci ntk ↔ is_ci ntk n = true.
Proof. cbn. rewrite elem_of_seqZ, andb_true_iff. unfold first_gate. lia. Qed.

Lemma filter_holds {A} (P : A → Prop) `{∀ x, Decision (P x)} (l : list A) :
  (∀ x, x ∈ l → P x) → filter P l = l.
Proof.
  induction l as [|a l IH]; intros Hl; [done|]. rewrite filter_cons, decide_True by (apply Hl; by left).
  f_equal. apply IH. intros. apply Hl. by right.
Qed.

Lemma netlist_sequential_laws ntk :
  valid_netlist ntk = true → Z.of_nat (num_inputs ntk) + 2 < 2 ^ 32 → SequentialLaws ntk.
Proof.
  intros Hv Hw. split with Z.to_nat.
  - intros n u Hu. apply fanin_smaller in Hu; [lia|done].
  - apply NoDup_seqZ.
  - apply elem_of_inputs.
  - intros n. by rewrite orb_false_r.
  - intros n Hn. unfold fanin_nodes. cbn in *. rewrite node_fanins_below; [done|]. lia.
  - intros n Hn. unfold fanin_nodes. cbn. rewrite node_fanins_below; [done|].
    unfold first_gate. cbn in Hn. set_unfold in Hn. lia.
  - intros n Hn. cbn in *. set_unfold in Hn. lia.
  - cbn. rewrite filter_holds; [by rewrite length_seqZ, Nat2Z.id|].
    intros n Hn%elem_of_inputs. done.
  - cbn. rewrite length_seqZ. lia.
  - done.
Defined.

(** ** A multiplexer *)

(** The select input 3 has a fanout node, which reaches an AND gate through an inverter. *)
Definition mux : netlist :=
  Netlist 3 [(Buf, [3]); (Inv, [5]); (And, [2; 6]); (And, [5; 4]); (Or, [7; 8])] [9] [] [].

(** The select input has two partners, so that it comes first, with the second one. *)
Example mux_order :
  order <$> make_view false 10 mux None ∅ 0 = Some [0; 1; 3; 4; 2; 5; 6; 7; 8; 9].
Proof. vm_compute. reflexivity. Qed.

Lemma topo_view_correct_witness :
  is_Some (sort_inputs false mux ((push_constants mux (Queues ∅ 0 [] [] [] [])).1, Flags [] [] false 0)) ∧
  ∃ v cis gates, make_view true 10 mux None ∅ 0 = Some v ∧ ordered mux None v cis gates ∧
    (@None Z = None → ∃ pis ros, foreach_pi mux v = Some pis ∧ foreach_ro mux v = Some ros ∧
      pis ≡ₚ filter (λ n, is_pi mux n = true) (foreach_ci mux) ∧
      ros ≡ₚ filter (λ n, is_ro mux n = true) (foreach_ci mux)) ∧
    reverse_foreach_gate mux (foreach_node v) =
      Some (reverse gates ++ reverse (drop (Z.to_nat (num_pis mux)) cis)).
Proof.
  assert (is_Some (sort_inputs false mux
    ((push_constants mux (Queues ∅ 0 [] [] [] [])).1, Flags [] [] false 0))) as Hs by (vm_compute; eauto).
  split; [exact Hs|].
  eapply (topo_view_correct mux (SequentialLaws0 := netlist_sequential_laws mux eq_refl ltac:(cbn; lia))).
  - split_and!; [lia|lia|]. intros n. by rewrite lookup_empty.
  - exact Hs.
  - intros o Ho. vm_compute in Ho. apply list_elem_of_singleton in Ho as ->. cbn. lia.
Defined.

(** [foreach_gate] of the view itself stops before the last nodes, as if the inputs came last. *)
Example gates_are_inputs :
  (v ← make_view false 10 mux None ∅ 0; foreach_gate mux v) = Some [0; 1; 3; 4; 2].
Proof. vm_compute. reflexivity. Qed.

(** A second [update_topo] keeps the waiting inputs and counts the constants again. *)
Example updated_twice :
  (λ v, (order v, num_c v)) <$> (v ← make_view false 10 mux None ∅ 0; update_topo false 10 mux v) =
    Some ([0; 1; 3; 4; 2; 2; 5; 6; 7; 8; 9], 4).
Proof. vm_compute. reflexivity. Qed.

(** ** Rankings that fail *)

(** Input 3 reaches two gates through an inverter; one of them has the fanout node of input 4 as its
    other fanin. When the inputs behind this fanout node are ranked, input 3 does not wait behind
    input 4, so that the second partner finds a vector of one element. *)
Definition shared_inverter : netlist :=
  Netlist 4 [(Inv, [3]); (Buf, [4]); (And, [2; 6]); (And, [7; 6]); (And, [7; 5])] [8; 9; 10] [] [].

Definition initial_sorting (ntk : netlist) : queues * flags :=
  ((push_constants ntk (Queues ∅ 0 [] [] [] [])).1, Flags [] [] false 0).

Example ranking_out_of_range : sort_inputs true shared_inverter (initial_sorting shared_inverter) = None.
Proof. vm_compute. reflexivity. Qed.

(** The same behind a pair of waiting inputs, 3 and 2. *)
Definition lost_input : netlist :=
  Netlist 6 [(Buf, [3]); (And, [8; 2]); (Or, [8; 9]); (Inv, [5]); (Buf, [6]); (And, [4; 11]);
             (And, [12; 11]); (And, [12; 7])] [10; 13; 14; 15] [] [].

(** The assertion fails; without assertions, the waiting input 2 is removed instead of input 6, and is
    missing in the order. *)
Example ranking_loses_input :
  sort_inputs false lost_input (initial_sorting lost_input) = None ∧
  order <$> make_view true 16 lost_input None ∅ 0 =
    Some [0; 1; 7; 3; 6; 4; 5; 8; 9; 10; 11; 13; 12; 14; 15].
Proof. split; vm_compute; reflexivity. Qed.

End SortedNetlists.
