(* ===== verification/InputSortView.v ===== *)
(** * Nodes with sorted inputs
      (include/fiction/networks/views/input_sort_view.hpp)

    [input_sort_view] lists the constants of a network, the inputs that a fanout node or another input
    calls for, and the other nodes. The order it computes misses inputs: each lemma at the end gives a
    reason. Not here: the local variable [all_inputs], which is not read. *)

From S2P Require Import Prelude.
From S2P Require Import GateLevelLayout.
From S2P Require Import MockturtleModel.
From S2P Require Import Networks.
From S2P Require Import PlacementUtils.
From S2P Require Import NetworkModel.
From S2P Require Import TopoViewInputSort.
From S2P Require Import TopoViewProperties.
From S2P Require Import TopoViewModel.
#[local] Open Scope Z_scope.
Import Networks.
Import Placement.
Import TopoView.
Import Netlists.
Import SortedNetlists.

Module InputSort.

(** The members of the view; [pushed_pis] is a local variable of [copy_and_sort]. *)
Record state := State {
  lists : queues;
  sorted_num_c : Z;
  sorted_fo_inv_flag : bool;
  pushed_pis : bool;
}.

Section InputSort.
Context `{MT : GateLevel.Mockturtle} `{HN : Network Ntk} `{HG : !GateNetwork Ntk}.
Context `{HS : !SequentialNetwork Ntk}.
Context (fanout_size : Ntk → Z → Z).
Implicit Types (ntk : Ntk) (q : queues) (n nd fon fi : Z) (s : state).

(** [!this->visited(n) == this->trav_id()]: the negation is taken first. *)
Definition not_visited q n : bool := Z.b2z (visited q n =? 0) =? trav_id q.

Definition wait_once (push : Z → queues → queues) n q : queues :=
  if not_visited q n then push_marked push n q else q.

Definition push_front n q : queues := set_wait (n :: wait q) q.

(** The innermost [foreach_fanin] only looks for the inputs behind inverters. *)
Definition second_fanins ntk n : option unit :=
  _ ← mapM (input_behind ntk) (foreach_fanin ntk n); Some ().

(** The functor of [foreach_fanin]. *)
Definition sort_fanin ntk nd (is_fan_out : bool) q fi : option queues :=
  fin_inp ← input_behind ntk fi;
  if 2 <=? fanout_size ntk fin_inp then _ ← second_fanins ntk fin_inp; Some q
  else if is_ci ntk fin_inp && negb (fin_inp =? nd) then
    if is_fan_out then Some (wait_once push_front fin_inp q)
    else Some (wait_once push_wait fin_inp (wait_once push_wait nd q))
  else Some q.

(** The nodes behind a fanout node, those behind its inverters in front. *)
Definition nodes_behind ntk (safe_node : Z) : list Z :=
  foldl (λ out fon,
      if is_inv ntk fon then foldl (λ out fon_inv, fon_inv :: out) out (foreach_fanout ntk fon)
      else out ++ [fon])
    [] (foreach_fanout ntk safe_node).

(** The functor of [foreach_fanout]. *)
Definition sort_fanout ntk nd (r : queues * bool) fon : option (queues * bool) :=
  let '(q, flag) := r in
  let flag := flag || is_inv ntk fon in
  let out := if is_inv ntk fon then foldl (λ _ fon_inv, fon_inv) fon (foreach_fanout ntk fon) else fon in
  let is_fan_out := is_fanout ntk out in
  let q := if is_fan_out then push_topo nd q else q in
  let outs := if is_fan_out then nodes_behind ntk out else [out] in
  q ← iterate (sort_fanin ntk nd is_fan_out) q (outs ≫= foreach_fanin ntk);
  Some (q, flag).

(** The functor of [foreach_node]. *)
Definition sort_node ntk s nd : option state :=
  let q := lists s in
  if is_constant ntk nd then
    Some (State (push_marked push_topo nd q) (wrap 32 (sorted_num_c s + 1)) (sorted_fo_inv_flag s) (pushed_pis s))
  else if is_ci ntk nd then
    if not_visited q nd then
      '(q, flag) ← iterate (sort_fanout ntk nd) (q, sorted_fo_inv_flag s) (foreach_fanout ntk nd);
      Some (State q (sorted_num_c s) flag (pushed_pis s))
    else Some s
  else
    let q := if pushed_pis s then q else foldl (λ q n, push_topo n q) q (wait q) in
    Some (State (push_topo nd q) (sorted_num_c s) (sorted_fo_inv_flag s) true).

(** The view of a network whose storage has the marks [m] and the traversal index [t]. *)
Definition copy_and_sort ntk (m : gmap Z Z) (t : Z) : option state :=
  iterate (sort_node ntk) (State (incr_trav_id (Queues m t [] [] [] [])) 0 false false)
    (Networks.foreach_node ntk).

Definition sorted_order s : list Z := topo_order (lists s).

Definition sorted_node_to_index s n : Z := wrap 32 (find_index (sorted_order s) n).
Definition sorted_index_to_node s (index : Z) : option Z := vec_at (sorted_order s) index.
Definition sorted_foreach_node s : list Z := sorted_order s.

(** [foreach_ci] and [foreach_pi]. *)
Definition sorted_foreach_ci ntk s : option (list Z) :=
  vec_range (sorted_order s) (sorted_num_c s) (sorted_num_c s + num_pis ntk).

(** ** Missing inputs *)

(** Nothing counts as not visited when the index of the traversal is neither 0 nor 1. *)
Lemma later_traversals_visit q n : 1 < trav_id q → not_visited q n = false.
Proof. intros Hq. unfold not_visited. apply Z.eqb_neq. destruct (visited q n =? 0); cbn; lia. Qed.

(** On a network that has been traversed before, the view has no input. *)
Lemma stale_traversal_drops_inputs ntk m t :
  0 < t → t + 1 < 2 ^ 32 →
  sorted_order <$> copy_and_sort ntk m t =
    Some (filter (λ n, is_constant ntk n = true ∨ is_ci ntk n = false) (Networks.foreach_node ntk)).
Proof.
  intros Ht Hw. unfold copy_and_sort.
  assert (∀ ns s, 1 < trav_id (lists s) → wait (lists s) = [] →
    sorted_order <$> iterate (sort_node ntk) s ns =
      Some (sorted_order s ++ filter (λ n, is_constant ntk n = true ∨ is_ci ntk n = false) ns)) as Hl.
  { induction ns as [|n ns IH]; intros s Hs He; [by rewrite app_nil_r|]. rewrite iterate_cons, filter_cons.
    unfold sort_node. rewrite He, later_traversals_visit by done. simpl.
    destruct (is_constant ntk n); [|destruct (is_ci ntk n)]; simpl.
    - rewrite IH by done. cbn. by rewrite <-app_assoc.
    - by rewrite IH.
    - rewrite IH by (destruct (pushed_pis s); done). destruct (pushed_pis s); cbn; by rewrite <-app_assoc. }
  rewrite Hl; cbn; [done| |done]. rewrite wrap_small; [lia|split; lia].
Qed.
End InputSort.

(** ** Examples *)

Definition netlist_fanout_size (ntk : netlist) (n : Z) : Z :=
  Z.of_nat (length (Networks.foreach_fanout ntk n)).

(** On a storage that has not been traversed, two inputs of a gate are found, *)
Definition conjunction : netlist := Netlist 2 [(And, [2; 3])] [4] [] [].

Example partners_sorted :
  sorted_order <$> copy_and_sort netlist_fanout_size conjunction ∅ 0 = Some [0; 1; 2; 3; 4].
Proof. vm_compute. reflexivity. Qed.

(** but not an input that no fanout node and no other input calls for, *)
Definition inverter : netlist := Netlist 1 [(Inv, [2]); (Inv, [3])] [4] [] [].

Example lonely_input_missing :
  sorted_order <$> copy_and_sort netlist_fanout_size inverter ∅ 0 = Some [0; 1; 3; 4] ∧
  (s ← copy_and_sort netlist_fanout_size inverter ∅ 0; sorted_foreach_ci inverter s) = Some [3].
Proof. split; vm_compute; reflexivity. Qed.

(** and an input is listed once for each fanout node, and again where it is the partner of another one. *)
Example input_listed_twice :
  sorted_order <$> copy_and_sort netlist_fanout_size
    (Netlist 1 [(Buf, [2]); (Buf, [2]); (And, [3; 4]); (And, [3; 4])] [5; 6] [] []) ∅ 0 =
    Some [0; 1; 2; 2; 3; 4; 5; 6].
Proof. vm_compute. reflexivity. Qed.

Example partner_listed_twice :
  sorted_order <$> copy_and_sort netlist_fanout_size
    (Netlist 2 [(Inv, [2]); (Buf, [3]); (And, [5; 4]); (Buf, [4]); (And, [5; 7]); (Or, [7; 6])] [8; 9] [] []) ∅ 0 =
    Some [0; 1; 2; 3; 2; 4; 5; 6; 7; 8; 9].
Proof. vm_compute. reflexivity. Qed.

End InputSort.
