(* ===== verification/NewColoring.v ===== *)
(** * The conditional coloring and the delays of majority gates
      (include/fiction/algorithms/physical_design/ortho_new.hpp)

    [new_east_south_edge_coloring] first colors the nodes behind the inputs, by the other inputs that
    they meet, and then the rest as [east_south_edge_coloring] does, in the order of [reverse_view].
    [majority_buffer] computes how many delays each fanin of a node needs for all of them to have passed
    the same number of majority gates. Variables that are not read are left out. *)

From S2P Require Import Prelude.
From S2P Require Import GateLevelLayout.
From S2P Require Import Networks.
From S2P Require Import PlacementUtils.
From S2P Require Import EdgeColoring.
From S2P Require Import TopoViewInputSort.
#[local] Open Scope Z_scope.
Import Networks.
Import Placement.
Import EdgeColoring.
Import TopoView.

Module NewColoring.

Section Coloring.
Context `{MT : GateLevel.Mockturtle} `{HC : ColorView}.
Context `{HN : Network Ntk} `{HG : !GateNetwork Ntk} `{HS : !SequentialNetwork Ntk}.
Context (fanout_size : Ntk → Z → Z).
Implicit Types (ntk : Ntk) (ctn : coloring_container) (n fi : Z).

(** ** Painting *)

Definition paint_edge_if ctn (e : edge) (clr : Z) : coloring_container :=
  if edge_color (color_ntk ctn) e =? color_null
  then set_color_ntk (paint_edge (color_ntk ctn) e clr) ctn else ctn.

Definition paint_if ctn n (clr : Z) : coloring_container :=
  if node_color (color_ntk ctn) n =? color_null
  then set_color_ntk (paint (color_ntk ctn) n clr) ctn else ctn.

Definition paint_fanins ntk ctn n (clr : Z) : coloring_container :=
  foldl (λ ctn fe, paint_edge_if ctn fe clr) ctn (fanin_edges ntk n).

(** The fanin edges of a node, and the node. *)
Definition paint_output ntk ctn n (clr : Z) : coloring_container :=
  paint_if (paint_fanins ntk ctn n clr) n clr.

(** ** The nodes behind an input *)

(** The variables that are set for a fanout of an input: [new_output_node], [fo_node], [inv_flag] and
    [po_flag]. *)
Record outputs := Outputs {
  new_output_node : list Z;
  fo_node : bool;
  inv_flag : bool;
  po_flag : bool;
}.

(** The functor of [foreach_fanout(safe_node)]. *)
Definition collect_output ntk (o : outputs) fon : outputs :=
  if is_inv ntk fon
  then Outputs (foldl (λ out fon_inv, fon_inv :: out) (new_output_node o) (foreach_fanout ntk fon))
         (fo_node o) true (po_flag o || is_po ntk fon)
  else Outputs (new_output_node o ++ [fon]) (fo_node o) (inv_flag o) (po_flag o || is_po ntk fon).

(** The first inverter is painted once for each of its fanouts. *)
Definition collect_outputs ntk ctn fon : coloring_container * outputs :=
  let '(ctn, out) :=
    if is_inv ntk fon
    then foldl (λ r fon_inv, (paint_fanins ntk r.1 fon (color_east r.1), fon_inv)) (ctn, fon)
           (foreach_fanout ntk fon)
    else (ctn, fon) in
  if is_fanout ntk out && (2 <=? fanout_size ntk out)
  then (paint_fanins ntk ctn out (color_east ctn),
        foldl (collect_output ntk) (Outputs [] true false false) (foreach_fanout ntk out))
  else (ctn, Outputs [out] false false false).

(** The variables that the loop over the outputs changes. *)
Record loop_state := LoopState {
  ctn : coloring_container;
  index : Z;
  already_painted : bool;
}.

(** [paint_if(ctn, new_output_node[i], color)] with the fanin edges. *)
Definition paint_at ntk (outs : list Z) (c : coloring_container) (i clr : Z) : option coloring_container :=
  out ← vec_at outs i; Some (paint_output ntk c out clr).

(** The output [i] in one color and the other one in another color. *)
Definition paint_both ntk (outs : list Z) (s : loop_state) (clr clr' : Z) : option loop_state :=
  c ← paint_at ntk outs (ctn s) (index s) clr;
  let i := 1 - index s in
  c ← paint_at ntk outs c i clr';
  Some (LoopState c i true).

(** The innermost functor: an input behind the fanout node [fin_inp]. *)
Definition paint_second ntk (o : outputs) nd (s : loop_state) fin : option loop_state :=
  fin_inp_sec ← input_behind ntk fin;
  if is_ci ntk fin_inp_sec && negb (fin_inp_sec =? nd) && (fo_node o && negb (already_painted s)) then
    paint_both ntk (new_output_node o) s
      (if inv_flag o then color_south (ctn s) else color_east (ctn s)) (color_south (ctn s))
  else Some s.

(** An input that an output of [nd] meets. *)
Definition paint_partner ntk (o : outputs) (s : loop_state) : option loop_state :=
  let outs := new_output_node o in
  if fo_node o then
    if already_painted s then Some s
    else if inv_flag o then
      c ← paint_at ntk outs (ctn s) (index s) (color_south (ctn s));
      c ← paint_at ntk outs c (index s + 1) (color_south c);
      Some (LoopState c (index s) true)
    else paint_both ntk outs s (color_south (ctn s)) (color_east (ctn s))
  else
    c ← paint_at ntk outs (ctn s) (index s) (color_east (ctn s));
    Some (LoopState c (index s) (already_painted s)).

(** The functor of [foreach_fanin]. *)
Definition paint_fanin ntk (o : outputs) nd (s : loop_state) fi : option loop_state :=
  let fin_inp := get_node ntk fi in
  let s := if is_inv ntk fin_inp
           then LoopState (paint_output ntk (ctn s) fin_inp (color_east (ctn s))) (index s) (already_painted s)
           else s in
  fin_inp ← input_behind ntk fi;
  if (2 <=? fanout_size ntk fin_inp) && is_fanout ntk fin_inp && negb (po_flag o)
  then iterate (paint_second ntk o nd) s (foreach_fanin ntk fin_inp)
  else if is_ci ntk fin_inp && negb (fin_inp =? nd) then paint_partner ntk o s
  else if is_maj ntk fin_inp then
    c ← paint_at ntk (new_output_node o) (ctn s) (index s) (color_east (ctn s));
    Some (LoopState c (index s) (already_painted s))
  else Some s.

(** The loop over the outputs; its index is changed in the body, but at most once. [None] when the loop
    takes more than [steps] steps, [Some None] for an access out of range. *)
Fixpoint paint_outputs (steps : nat) ntk (o : outputs) nd (s : loop_state) : option (option loop_state) :=
  match steps with
  | O => None
  | S steps =>
      if index s <? Z.of_nat (length (new_output_node o)) then
        match (out ← vec_at (new_output_node o) (index s);
               iterate (paint_fanin ntk o nd) s (foreach_fanin ntk out)) with
        | Some s => paint_outputs steps ntk o nd (LoopState (ctn s) (index s + 1) (already_painted s))
        | None => Some None
        end
      else Some (Some s)
  end.

(** The steps of the loop that are enough. *)
Definition output_steps (o : outputs) : nat := length (new_output_node o) + 2.

(** The functor of [foreach_fanout(nd)]. *)
Definition color_fanout ntk nd (c : coloring_container) fon : option coloring_container :=
  let '(c, o) := collect_outputs ntk c fon in
  s ← mjoin (paint_outputs (output_steps o) ntk o nd (LoopState c 0 false)); Some (ctn s).

(** The first loop over the inputs. *)
Definition color_fanouts ntk (c : coloring_container) : option coloring_container :=
  iterate (λ c nd, iterate (color_fanout ntk nd) c (foreach_fanout ntk nd)) c (foreach_ci ntk).

(** Both loops over the inputs. *)
Definition color_inputs ntk (c : coloring_container) : option coloring_container :=
  c ← color_fanouts ntk c;
  Some (foldl (λ c nd, foldl (λ c fon, paint_output ntk c fon (color_east c)) c (foreach_fanout ntk nd))
          c (foreach_ci ntk)).

(** [fuel] bounds the depth of [recursively_paint_edges]. *)
Definition new_east_south_edge_coloring (fuel : nat) ntk : option coloring_container :=
  c ← color_inputs ntk new_coloring_container;
  gs ← reverse_foreach_gate ntk (Networks.foreach_node ntk);
  iterate (color_gate fuel ntk) c gs.

(** ** [majority_buffer] *)

(** The majority gates with three proper fanins on a path. *)
Definition path_delay ntk (p : list edge) : Z :=
  foldl (λ d e,
      if is_maj ntk e.2 && (2 <? Z.of_nat (length (container_nodes (fanins ntk e.2)))) then d + 1 else d) 0 p.

(** The functor of [foreach_incoming_edge], with [delays] and [iterator]. *)
Definition delay_edge (fuel : nat) ntk (r : list Z * Z) (e : edge) : option (list Z * Z) :=
  let '(delays, iterator) := r in
  if is_constant ntk e.1 then Some r
  else
    node_paths ← all_incoming_edge_paths fuel ntk e.1;
    delays ← iterate (λ delays p,
        d ← vec_at delays iterator;
        if d <? path_delay ntk p then vec_update delays iterator (λ _, path_delay ntk p) else Some delays)
      delays node_paths;
    Some (delays, iterator + 1).

(** [std::max_element]. *)
Definition max_element (l : list Z) : Z := match l with [] => 0 | d :: l => foldl Z.max d l end.

Definition majority_buffer (fuel : nat) ntk n : option (list Z) :=
  let size := length (container_nodes (fanins ntk n)) in
  if (size =? 0)%nat then Some []
  else
    r ← iterate (delay_edge fuel ntk) (replicate size 0, 0) (foreach_incoming_edge ntk n);
    Some ((λ d, max_element r.1 - d) <$> r.1).
End Coloring.
End NewColoring.
