(* ===== verification/NewColoringProperties.v ===== *)
(** * Theorems on the conditional coloring and the delays of majority gates

    The first phase of the coloring paints with the two colors of the container and, on networks whose
    inputs are ready, ends within its vectors; what the two phases paint is in NewColoringPhases.v. The
    delays of majority gates balance the fanins of a node. *)

From S2P Require Import Prelude.
From S2P Require Import GateLevelLayout.
From S2P Require Import MockturtleModel.
From S2P Require Import Networks.
From S2P Require Import PlacementUtils.
From S2P Require Import NetworkModel.
From S2P Require Import EdgeColoring.
From S2P Require Import EdgeColoringProperties.
From S2P Require Import TopoViewInputSort.
From S2P Require Import TopoViewProperties.
From S2P Require Import TopoViewModel.
From S2P Require Import NewColoring.
#[local] Open Scope Z_scope.
Import Networks.
Import Placement.
Import EdgeColoring.
Import Painting.
Import TopoView.
Import NewColoring.

(** A loop whose body keeps [P] and is defined. *)
Lemma iterate_spec {S A} (P : S → Prop) (R : A → S → Prop) (f : S → A → option S) l s :
  (∀ s a, a ∈ l → P s → ∃ s', f s a = Some s' ∧ P s' ∧ R a s' ∧ ∀ b, R b s → R b s') → P s →
  ∃ s', iterate f s l = Some s' ∧ P s' ∧ (∀ a, a ∈ l → R a s') ∧ ∀ b, R b s → R b s'.
Proof.
  revert s. induction l as [|a l IH]; intros s Hf Hs.
  { exists s. split_and!; try done. intros a Ha. by apply not_elem_of_nil in Ha. }
  rewrite iterate_cons. destruct (Hf s a) as (s1 & -> & H1 & HR & Hk); [by left|done|]. simpl.
  destruct (IH s1) as (s2 & -> & H2 & Hall & Hk2); [by intros; apply Hf; [right|]|done|].
  exists s2. split_and!; [done|done| |by eauto]. intros b [->|Hb]%elem_of_cons; auto.
Qed.

Section Coloring.
Context `{MT : GateLevel.Mockturtle} `{HC : ColorView} `{HCL : !ColorViewLaws}.
Context `{HN : Network Ntk} `{HG : !GateNetwork Ntk} `{HS : !SequentialNetwork Ntk}.
Context (ntk : Ntk) `{HL : !NetworkLaws ntk} (fanout_size : Ntk → Z → Z).
Implicit Types (c : coloring_container) (n : Z) (e : edge).

(** ** States of the container *)

(** Edges and nodes have no color or one of the two of the container. *)
Record tidy c : Prop := {
  tidy_ok : container_ok c;
  tidy_edges e : painted c e → valid_color c (ecolor c e);
  tidy_nodes n : ncolor c n = color_null ∨ valid_color c (ncolor c n);
}.

(** Painted edges keep their colors, and the container its two colors. *)
Record keeps c c' : Prop := {
  keeps_east : color_east c' = color_east c;
  keeps_south : color_south c' = color_south c;
  keeps_edges e : painted c e → ecolor c' e = ecolor c e;
}.

#[export] Instance keeps_preorder : PreOrder keeps.
Proof.
  split; [by split|]. intros c1 c2 c3 [E1 S1 K1] [E2 S2 K2]. split; [congruence|congruence|].
  intros e He. rewrite K2; [auto|]. unfold painted. by rewrite K1.
Qed.

Lemma keeps_painted c c' e : keeps c c' → painted c e → painted c' e.
Proof. intros Hk He. unfold painted. by rewrite (keeps_edges _ _ Hk). Qed.

Lemma keeps_valid c c' clr : keeps c c' → valid_color c' clr ↔ valid_color c clr.
Proof. intros Hk. unfold valid_color. by rewrite (keeps_east _ _ Hk), (keeps_south _ _ Hk). Qed.

Definition advances c c' : Prop := tidy c' ∧ keeps c c'.

Lemma advances_trans c1 c2 c3 : advances c1 c2 → advances c2 c3 → advances c1 c3.
Proof. intros [_ K1] [T2 K2]. split; [done|by etrans]. Qed.

Lemma advances_refl c : tidy c → advances c c.
Proof. by split. Qed.

Lemma paint_edge_if_advances c e clr : tidy c → valid_color c clr → advances c (paint_edge_if c e clr).
Proof.
  intros Hc Hv. unfold paint_edge_if. destruct (Z.eqb_spec (edge_color (color_ntk c) e) color_null) as [E|];
    [|by apply advances_refl].
  change (set_color_ntk _ _) with (paint_one c e clr). destruct Hc as [[] Hed Hnd].
  split; [split; [by split| |exact Hnd]|split; [done|done|]].
  - intros f. unfold painted. rewrite ecolor_paint_one. case_decide; [done|apply Hed].
  - intros f Hf. rewrite ecolor_paint_one, decide_False; [done|]. by intros <-.
Qed.

Lemma paint_if_advances c n clr : tidy c → valid_color c clr → advances c (paint_if c n clr).
Proof.
  intros Hc Hv. unfold paint_if. destruct (_ =? _); [|by apply advances_refl].
  destruct Hc as [[] Hed Hnd]. split; [split; [by split|exact Hed|]|by split].
  intros m. unfold ncolor, node_color. cbn. rewrite color_paint. case_decide; [by right|apply Hnd].
Qed.

Lemma paint_fanins_advances c n clr : tidy c → valid_color c clr → advances c (paint_fanins ntk c n clr).
Proof.
  intros Hc Hv. unfold paint_fanins. generalize (fanin_edges ntk n) as es. intros es.
  revert c Hc Hv. induction es as [|e es IH]; intros c Hc Hv; simpl; [by apply advances_refl|].
  pose proof (paint_edge_if_advances c e clr Hc Hv) as H1. eapply advances_trans; [exact H1|].
  destruct H1 as [H1 K1]. apply IH; [done|by rewrite keeps_valid].
Qed.

Lemma paint_output_advances c n clr : tidy c → valid_color c clr → advances c (paint_output ntk c n clr).
Proof.
  intros Hc Hv. pose proof (paint_fanins_advances c n clr Hc Hv) as H1.
  eapply advances_trans; [exact H1|]. destruct H1 as [H1 K1]. apply paint_if_advances; [done|by rewrite keeps_valid].
Qed.

Lemma east_valid c : valid_color c (color_east c).
Proof. by left. Qed.
Lemma south_valid c : valid_color c (color_south c).
Proof. by right. Qed.
#[local] Hint Resolve east_valid south_valid : core.

(** ** The first phase *)

Lemma collect_outputs_advances c fon : tidy c → advances c (collect_outputs fanout_size ntk c fon).1.
Proof.
  intros Hc. unfold collect_outputs.
  assert (∀ l out, advances c (foldl (λ (r : coloring_container * Z) fon_inv, (paint_fanins ntk r.1 fon (color_east r.1), fon_inv)) (c, out) l).1)
    as Hl.
  { intros l out. induction l as [|x l IH] using rev_ind; [by apply advances_refl|]. rewrite foldl_snoc. simpl.
    eapply advances_trans; [exact IH|]. destruct IH. by apply paint_fanins_advances. }
  assert (advances c (if is_inv ntk fon
    then foldl (λ r fon_inv, (paint_fanins ntk r.1 fon (color_east r.1), fon_inv)) (c, fon) (foreach_fanout ntk fon)
    else (c, fon)).1) as H1 by (destruct (is_inv ntk fon); [apply Hl|by apply advances_refl]).
  destruct (if is_inv ntk fon then _ else _) as [c1 out]. simpl in *.
  destruct (_ && _); [|done]. simpl. eapply advances_trans; [exact H1|]. destruct H1.
  by apply paint_fanins_advances.
Qed.

Lemma paint_at_advances outs c i clr c' :
  tidy c → valid_color c clr → paint_at ntk outs c i clr = Some c' → advances c c'.
Proof.
  intros Hc Hv. unfold paint_at. destruct (vec_at outs i); [|done]. intros [= <-].
  by apply paint_output_advances.
Qed.

Lemma paint_both_advances outs s clr clr' s' :
  tidy (ctn s) → valid_color (ctn s) clr → valid_color (ctn s) clr' →
  paint_both ntk outs s clr clr' = Some s' → advances (ctn s) (ctn s').
Proof.
  intros Hc H1 H2. unfold paint_both. destruct (paint_at ntk outs (ctn s) _ clr) as [c1|] eqn:E1; [|done]. simpl.
  destruct (paint_at ntk outs c1 _ clr') as [c2|] eqn:E2; [|done]. simpl. intros [= <-].
  apply paint_at_advances in E1; [|done..]. eapply advances_trans; [exact E1|]. destruct E1 as [T1 K1].
  eapply paint_at_advances; [done| |exact E2]. by rewrite keeps_valid.
Qed.

Lemma paint_partner_advances o s s' :
  tidy (ctn s) → paint_partner ntk o s = Some s' → advances (ctn s) (ctn s').
Proof.
  intros Hc. unfold paint_partner. destruct (fo_node o).
  - destruct (already_painted s); [intros [= <-]; by apply advances_refl|]. destruct (inv_flag o).
    + destruct (paint_at ntk _ (ctn s) _ _) as [c1|] eqn:E1; [|done]. simpl.
      destruct (paint_at ntk _ c1 _ _) as [c2|] eqn:E2; [|done]. simpl. intros [= <-].
      apply paint_at_advances in E1; [|done..]. eapply advances_trans; [exact E1|]. destruct E1.
      by eapply paint_at_advances; [..|exact E2].
    + by apply paint_both_advances.
  - destruct (paint_at ntk _ (ctn s) _ _) as [c1|] eqn:E1; [|done]. simpl. intros [= <-].
    by eapply paint_at_advances; [..|exact E1].
Qed.

Lemma advancing_loop {A} (f : loop_state → A → option loop_state) l s s' :
  (∀ s a s', a ∈ l → tidy (ctn s) → f s a = Some s' → advances (ctn s) (ctn s')) →
  tidy (ctn s) → iterate f s l = Some s' → advances (ctn s) (ctn s').
Proof.
  intros Hf Hs. apply (iterate_preserves (λ s', advances (ctn s) (ctn s'))); [|by apply advances_refl].
  intros s1 a s2 Ha H1 E. eapply advances_trans; [exact H1|]. destruct H1. by eapply Hf.
Qed.

Lemma paint_fanin_advances o nd s fi s' :
  tidy (ctn s) → paint_fanin fanout_size ntk o nd s fi = Some s' → advances (ctn s) (ctn s').
Proof.
  intros Hc. unfold paint_fanin. set (s1 := if is_inv ntk _ then _ else s).
  assert (advances (ctn s) (ctn s1)) as H1.
  { unfold s1. destruct (is_inv ntk _); [by apply paint_output_advances|by apply advances_refl]. }
  destruct (input_behind ntk fi) as [x|]; [|done]. simpl.
  intros E. eapply advances_trans; [exact H1|]. destruct H1 as [T1 _]. revert E. generalize dependent s1. clear s Hc.
  intros s T1. destruct (_ && _); [|destruct (_ && _)].
  - apply advancing_loop; [|done]. clear s s' T1. intros s fin s' _ Hc. unfold paint_second.
    destruct (input_behind ntk fin) as [y|]; [|done]. simpl.
    destruct (_ && _); [|intros [= <-]; by apply advances_refl].
    apply paint_both_advances; [done| |done]. by destruct (inv_flag o).
  - by apply paint_partner_advances.
  - destruct (is_maj ntk x); [|intros [= <-]; by apply advances_refl].
    destruct (paint_at ntk _ (ctn s) _ _) as [c1|] eqn:E1; [|done]. simpl. intros [= <-].
    by eapply paint_at_advances; [..|exact E1].
Qed.

Lemma paint_outputs_advances steps o nd s s' :
  tidy (ctn s) → paint_outputs fanout_size steps ntk o nd s = Some (Some s') → advances (ctn s) (ctn s').
Proof.
  revert s. induction steps as [|steps IH]; intros s Hc; simpl; [done|].
  destruct (_ <? _); [|intros [= <-]; by apply advances_refl].
  destruct (vec_at _ _) as [out|]; [|done]. cbn [mbind option_bind].
  destruct (iterate _ s _) as [s1|] eqn:E1; [|done].
  apply advancing_loop in E1; [|by intros; eapply paint_fanin_advances|done].
  intros E. eapply advances_trans; [exact E1|]. destruct E1.
  change (ctn s1) with (ctn (LoopState (ctn s1) (index s1 + 1) (already_painted s1))). by apply IH.
Qed.

Lemma color_fanout_advances nd c fon c' :
  tidy c → color_fanout fanout_size ntk nd c fon = Some c' → advances c c'.
Proof.
  intros Hc E. unfold color_fanout in E. pose proof (collect_outputs_advances c fon Hc) as H2.
  destruct (collect_outputs _ ntk c fon) as [c3 o]. simpl in *.
  destruct (paint_outputs _ _ _ _ _ _) as [[s|]|] eqn:E'; [|done..]. simpl in E. injection E as <-.
  eapply advances_trans; [exact H2|]. destruct H2 as [T2 _].
  by apply paint_outputs_advances in E'.
Qed.

Lemma color_fanouts_advances c c' :
  tidy c → color_fanouts fanout_size ntk c = Some c' → advances c c'.
Proof.
  intros Hc. unfold color_fanouts. apply (iterate_preserves (advances c)); [|by apply advances_refl].
  intros c1 nd c2 _ H1. apply (iterate_preserves (advances c)); [|done].
  clear c1 c2 H1. intros c1 fon c2 _ H1 E. eapply advances_trans; [exact H1|]. destruct H1 as [T1 _].
  by eapply color_fanout_advances.
Qed.

Lemma color_inputs_advances c c' :
  tidy c → color_inputs fanout_size ntk c = Some c' → advances c c'.
Proof.
  intros Hc. unfold color_inputs. destruct (color_fanouts _ ntk c) as [c1|] eqn:E1; [|done]. simpl. intros [= <-].
  apply color_fanouts_advances in E1; [|done].
  apply foldl_preserves; [|done]. intros c2 nd H1. apply foldl_preserves; [|done].
  clear c2 H1. intros c2 fon H1. eapply advances_trans; [exact H1|]. destruct H1. by apply paint_output_advances.
Qed.

(** The index of the loop over the outputs is set back at most once: two more steps than outputs are
    enough. *)
Definition steps_left (o : outputs) (s : loop_state) : nat :=
  (Z.to_nat (Z.of_nat (length (new_output_node o)) - index s) + (if already_painted s then 0 else 1))%nat.

(** The index stays where it is, or is switched between 0 and 1 for the first time. *)
Definition switched (s s' : loop_state) : Prop :=
  (index s' = index s ∧ (already_painted s = true → already_painted s' = true)) ∨
  (already_painted s = false ∧ already_painted s' = true ∧ 0 <= index s' ∧ index s <= 1).

Lemma switched_trans s1 s2 s3 : switched s1 s2 → switched s2 s3 → switched s1 s3.
Proof.
  unfold switched. intros [[E1 A1]|(A1 & A1' & I1 & I1')] [[E2 A2]|(A2 & A2' & I2 & I2')].
  - left. split; [congruence|auto].
  - right. split_and!; [|done|done|lia]. destruct (already_painted s1); [by rewrite A1 in A2|done].
  - right. split_and!; [done|auto|lia|lia].
  - congruence.
Qed.

Lemma paint_at_index outs c i clr c' : paint_at ntk outs c i clr = Some c' → 0 <= i.
Proof. unfold paint_at, vec_at. case_decide; [done|]. done. Qed.

Lemma paint_both_switched outs s clr clr' s' :
  already_painted s = false → paint_both ntk outs s clr clr' = Some s' → switched s s'.
Proof.
  intros Ha. unfold paint_both. destruct (paint_at ntk outs (ctn s) _ clr) as [c1|] eqn:E1; [|done]. simpl.
  destruct (paint_at ntk outs c1 _ clr') as [c2|] eqn:E2; [|done]. simpl. intros [= <-].
  apply paint_at_index in E1. apply paint_at_index in E2. right. simpl. split_and!; [done|done|lia|lia].
Qed.

Lemma paint_fanin_switched o nd s fi s' :
  paint_fanin fanout_size ntk o nd s fi = Some s' → switched s s'.
Proof.
  unfold paint_fanin. set (s1 := if is_inv ntk _ then _ else s).
  assert (index s1 = index s ∧ already_painted s1 = already_painted s) as [Ei Ea]
    by (unfold s1; by destruct (is_inv ntk _)).
  assert (switched s1 s' → switched s s') as Hs by (unfold switched; by rewrite Ei, Ea).
  destruct (input_behind ntk fi) as [x|]; [|done]. simpl. intros E. apply Hs. clear Ei Ea Hs. revert E.
  generalize dependent s1. clear s. intros s.
  destruct (_ && _); [|destruct (_ && _)].
  - apply (iterate_preserves (switched s)); [|by left]. intros s1 fin s2 _ H1 E.
    eapply switched_trans; [exact H1|]. revert E. unfold paint_second.
    destruct (input_behind ntk fin); [|done]. simpl.
    destruct (already_painted s1) eqn:Ea; [rewrite !andb_false_r; intros [= <-]; by left|].
    destruct (_ && _); [by apply paint_both_switched|intros [= <-]; by left].
  - unfold paint_partner. destruct (fo_node o).
    + destruct (already_painted s) eqn:Ea; [intros [= <-]; by left|].
      destruct (inv_flag o); [|by apply paint_both_switched].
      destruct (paint_at ntk _ (ctn s) _ _); [|done]. simpl.
      destruct (paint_at ntk _ _ _ _); [|done]. simpl. intros [= <-]. by left.
    + destruct (paint_at ntk _ (ctn s) _ _); [|done]. simpl. intros [= <-]. by left.
  - destruct (is_maj ntk x); [|intros [= <-]; by left].
    destruct (paint_at ntk _ (ctn s) _ _); [|done]. simpl. intros [= <-]. by left.
Qed.

Lemma paint_outputs_steps o nd steps s :
  (steps_left o s < steps)%nat → paint_outputs fanout_size steps ntk o nd s ≠ None.
Proof.
  revert s. induction steps as [|steps IH]; intros s Hlt; [lia|]. simpl.
  destruct (Z.ltb_spec (index s) (Z.of_nat (length (new_output_node o)))) as [Hi|]; [|done].
  unfold vec_at. case_decide as H0; [|done].
  destruct (new_output_node o !! Z.to_nat (index s)) as [out|]; [|done]. cbn [mbind option_bind].
  destruct (iterate (paint_fanin fanout_size ntk o nd) s _) as [s1|] eqn:E; [|done]. apply IH.
  apply (iterate_preserves (switched s)) in E; [| |by left].
  2: { intros s2 fi s3 _ H2 E3. eapply switched_trans; [exact H2|]. by eapply paint_fanin_switched. }
  unfold steps_left in *. simpl. destruct E as [[-> Ha]|(Ha & -> & Hi1 & Hi2)].
  - destruct (already_painted s); [rewrite Ha by done; lia|]. destruct (already_painted s1); lia.
  - rewrite Ha in Hlt. lia.
Qed.

Lemma paint_outputs_terminates o nd c :
  paint_outputs fanout_size (output_steps o) ntk o nd (LoopState c 0 false) ≠ None.
Proof. apply paint_outputs_steps. unfold steps_left, output_steps. simpl. lia. Qed.

(** ** Where the first phase stays within its vectors *)

(** The fanin [fi] leads to another input than [nd]. *)
Definition meets_input (nd fi : Z) : bool :=
  match input_behind ntk fi with Some x => is_ci ntk x && negb (x =? nd) | None => false end.

(** Behind a fanout node there are two outputs, and where one of them is behind an inverter, the second
    one does not meet another input directly. *)
Definition outputs_ready (nd : Z) (o : outputs) : Prop :=
  fo_node o = true →
  ∃ a b, new_output_node o = [a; b] ∧
    (inv_flag o = true → ∀ fi, fi ∈ foreach_fanin ntk b → meets_input nd fi = false).

(** Inverters have a fanin, and the outputs behind the inputs are ready. *)
Definition inputs_ready : Prop :=
  (∀ n, n ∈ Networks.foreach_node ntk → is_inv ntk n = true → container_nodes (fanins ntk n) ≠ []) ∧
  (∀ nd fon, nd ∈ foreach_ci ntk → fon ∈ foreach_fanout ntk nd →
     outputs_ready nd (collect_outputs fanout_size ntk new_coloring_container fon).2).

(** [inputs_ready] by evaluation. *)
Definition checks_ready : bool :=
  forallb (λ n, implb (is_inv ntk n) (match container_nodes (fanins ntk n) with [] => false | _ => true end))
    (Networks.foreach_node ntk) &&
  forallb (λ nd, forallb (λ fon,
    let o := (collect_outputs fanout_size ntk new_coloring_container fon).2 in
    implb (fo_node o)
      match new_output_node o with
      | [_; b] => implb (inv_flag o) (forallb (λ fi, negb (meets_input nd fi)) (foreach_fanin ntk b))
      | _ => false
      end) (foreach_fanout ntk nd)) (foreach_ci ntk).

Lemma inputs_ready_by : checks_ready = true → inputs_ready.
Proof.
  unfold checks_ready. rewrite andb_true_iff, !forallb_forall. setoid_rewrite <-list_elem_of_In. intros [H1 H2]. split.
  - intros n Hn Hi E. specialize (H1 n Hn). by rewrite Hi, E in H1.
  - intros nd fon Hnd Hfon Hfo. specialize (H2 nd Hnd). rewrite forallb_forall in H2.
    apply list_elem_of_In in Hfon. specialize (H2 fon Hfon). cbn zeta in H2. rewrite Hfo in H2. cbn in H2.
    destruct (new_output_node _) as [|a [|b [|]]]; try done. exists a, b. split; [done|]. intros Hi fi Hfi.
    rewrite Hi in H2. cbn in H2. rewrite forallb_forall in H2. apply list_elem_of_In in Hfi. specialize (H2 fi Hfi).
    by apply negb_true_iff in H2.
Qed.

(** The loop over the fanins of the output [i]: until the two outputs are painted, the index stays. *)
Definition in_range (o : outputs) (i : Z) (s : loop_state) : Prop :=
  0 <= index s < Z.of_nat (length (new_output_node o)) ∧ (already_painted s = false → index s = i).

Lemma paint_at_defined outs c i clr :
  0 <= i < Z.of_nat (length outs) → ∃ c', paint_at ntk outs c i clr = Some c'.
Proof.
  intros Hi. unfold paint_at, vec_at. rewrite decide_True by lia.
  destruct (lookup_lt_is_Some_2 outs (Z.to_nat i)) as [out ->]; [lia|]. by eexists.
Qed.

Lemma paint_both_defined o i s clr clr' :
  length (new_output_node o) = 2%nat → in_range o i s →
  ∃ s', paint_both ntk (new_output_node o) s clr clr' = Some s' ∧ in_range o i s'.
Proof.
  intros Hlen [Hi _]. unfold paint_both.
  destruct (paint_at_defined (new_output_node o) (ctn s) (index s) clr) as [c1 ->]; [lia|]. cbn [mbind option_bind].
  destruct (paint_at_defined (new_output_node o) c1 (1 - index s) clr') as [c2 ->]; [lia|]. cbn [mbind option_bind].
  eexists. split; [done|]. split; [simpl; lia|done].
Qed.

Lemma input_behind_defined n fi :
  inputs_ready → n ∈ Networks.foreach_node ntk → fi ∈ foreach_fanin ntk n →
  ∃ x, input_behind ntk fi = Some x ∧ x ∈ Networks.foreach_node ntk.
Proof.
  intros [Hinv _] Hn Hfi. unfold input_behind.
  assert (get_node ntk fi ∈ Networks.foreach_node ntk) as Hin.
  { apply (fanin_in_network ntk n); [done|]. unfold fanin_nodes. apply list_elem_of_fmap. by exists fi. }
  destruct (is_inv ntk (get_node ntk fi)) eqn:Ei; [|by eexists].
  specialize (Hinv _ Hin Ei). rewrite container_nodes_fanins in *.
  destruct (proper_fanins ntk (get_node ntk fi)) as [|x xs] eqn:Ex; [done|]. exists x. split; [done|].
  apply (fanin_in_network ntk (get_node ntk fi)); [done|]. apply elem_of_proper_fanins. rewrite Ex. by left.
Qed.

(** The outputs do not depend on the colors, and are nodes of the network. *)
Lemma collect_outputs_same c c' fon :
  (collect_outputs fanout_size ntk c fon).2 = (collect_outputs fanout_size ntk c' fon).2.
Proof.
  unfold collect_outputs.
  assert (∀ l out, (foldl (λ (r : coloring_container * Z) fon_inv, (paint_fanins ntk r.1 fon (color_east r.1), fon_inv)) (c, out) l).2
    = (foldl (λ (r : coloring_container * Z) fon_inv, (paint_fanins ntk r.1 fon (color_east r.1), fon_inv)) (c', out) l).2) as Hl.
  { intros l out. induction l as [|x l IH] using rev_ind; [done|]. by rewrite !foldl_snoc. }
  specialize (Hl (foreach_fanout ntk fon) fon). destruct (is_inv ntk fon).
  - destruct (foldl _ (c, fon) _) as [c1 o1], (foldl _ (c', fon) _) as [c2 o2]. cbn [snd] in Hl. subst o2.
    by destruct (_ && _).
  - by destruct (_ && _).
Qed.

Lemma collected_in_network out l o :
  (∀ n, n ∈ new_output_node o → n ∈ Networks.foreach_node ntk) →
  (∀ n, n ∈ l → n ∈ foreach_fanout ntk out) →
  ∀ n, n ∈ new_output_node (foldl (collect_output ntk) o l) → n ∈ Networks.foreach_node ntk.
Proof.
  assert (∀ a b, b ∈ foreach_fanout ntk a → b ∈ Networks.foreach_node ntk) as Hfo
    by (intros a b [Hb _]%foreach_fanout_converse; exact Hb).
  intros Ho. induction l as [|x l IH] using rev_ind; intros Hl; [exact Ho|]. rewrite foldl_snoc. intros n.
  set (o1 := foldl _ o l) in *. assert (∀ n, n ∈ new_output_node o1 → n ∈ Networks.foreach_node ntk) as H1
    by (apply IH; intros m Hm; apply Hl; set_solver).
  unfold collect_output. destruct (is_inv ntk x); cbn [new_output_node].
  - intros Hn. assert (n ∈ new_output_node o1 ∨ n ∈ foreach_fanout ntk x) as [|]; [|by auto|by eapply Hfo].
    revert Hn. generalize (foreach_fanout ntk x) as v. intros v. induction v as [|y v IHv] using rev_ind; [by left|].
    rewrite foldl_snoc. set_solver.
  - intros [Hn| ->%list_elem_of_singleton]%elem_of_app; [auto|]. apply (Hfo out), Hl. set_solver.
Qed.

Lemma outputs_in_network c fon n :
  fon ∈ Networks.foreach_node ntk →
  n ∈ new_output_node (collect_outputs fanout_size ntk c fon).2 → n ∈ Networks.foreach_node ntk.
Proof.
  assert (∀ a b, b ∈ foreach_fanout ntk a → b ∈ Networks.foreach_node ntk) as Hfo
    by (intros a b [Hb _]%foreach_fanout_converse; exact Hb).
  intros Hfon. unfold collect_outputs.
  set (r := if is_inv ntk fon then _ else _).
  assert (r.2 ∈ Networks.foreach_node ntk) as Hr.
  { unfold r. destruct (is_inv ntk fon); [|done].
    assert (∀ l, (∀ m, m ∈ l → m ∈ Networks.foreach_node ntk) →
      (foldl (λ (r : coloring_container * Z) fon_inv, (paint_fanins ntk r.1 fon (color_east r.1), fon_inv)) (c, fon) l).2
        ∈ Networks.foreach_node ntk) as Hl.
    { induction l as [|x l IH] using rev_ind; [done|]. intros Hm. rewrite foldl_snoc. apply Hm. set_solver. }
    apply Hl. intros m. apply Hfo. }
  destruct r as [c1 out]. cbn [snd] in Hr. destruct (_ && _); cbn [snd].
  - apply (collected_in_network out); [|done]. intros m Hm. by apply not_elem_of_nil in Hm.
  - by intros ->%list_elem_of_singleton.
Qed.

(** Without a fanout node there is one output. *)
Lemma single_output c fon :
  let o := (collect_outputs fanout_size ntk c fon).2 in
  fo_node o = false → length (new_output_node o) = 1%nat.
Proof.
  unfold collect_outputs. destruct (if is_inv ntk fon then _ else _) as [c1 out].
  destruct (_ && _); cbn [snd]; [|done].
  assert (∀ l o, fo_node (foldl (collect_output ntk) o l) = fo_node o) as Hl.
  { intros l o. induction l as [|x l IH] using rev_ind; [done|]. rewrite foldl_snoc, <-IH.
    unfold collect_output. by destruct (is_inv ntk x). }
  rewrite Hl. done.
Qed.

(** A fanin of the output [i]. *)
Lemma paint_fanin_defined o nd i out s fi :
  inputs_ready → outputs_ready nd o → (fo_node o = false → length (new_output_node o) = 1%nat) →
  vec_at (new_output_node o) i = Some out → out ∈ Networks.foreach_node ntk → fi ∈ foreach_fanin ntk out →
  in_range o i s → ∃ s', paint_fanin fanout_size ntk o nd s fi = Some s' ∧ in_range o i s'.
Proof.
  intros Hin Hready Hone Hout Hnode Hfi Hs. unfold paint_fanin.
  set (s1 := if is_inv ntk _ then _ else s).
  assert (in_range o i s1) as Hs1 by (unfold s1; by destruct (is_inv ntk _)). clearbody s1. clear Hs s.
  destruct (input_behind_defined out fi Hin Hnode Hfi) as (x & Ex & Hx). rewrite Ex. cbn [mbind option_bind].
  assert (fo_node o = true → length (new_output_node o) = 2%nat) as Htwo
    by (intros Hf; by destruct (Hready Hf) as (a & b & -> & _)).
  assert (∀ s clr, in_range o i s → ∃ s',
    (c ← paint_at ntk (new_output_node o) (ctn s) (index s) clr; Some (LoopState c (index s) (already_painted s)))
      = Some s' ∧ in_range o i s') as Hat.
  { intros s clr [Hi Ha]. destruct (paint_at_defined (new_output_node o) (ctn s) (index s) clr Hi) as [c1 ->].
    eexists. split; [done|]. by split. }
  destruct (_ && _) eqn:Efan.
  - clear Efan.
    assert (∀ v, (∀ fin, fin ∈ v → fin ∈ foreach_fanin ntk x) → ∀ s, in_range o i s →
      ∃ s', iterate (paint_second ntk o nd) s v = Some s' ∧ in_range o i s') as Hv; [|by apply Hv].
    induction v as [|fin v IH]; intros Hv s Hs; [by exists s|]. rewrite iterate_cons.
    assert (∃ s2, paint_second ntk o nd s fin = Some s2 ∧ in_range o i s2) as (s2 & -> & Hs2).
    { unfold paint_second.
      destruct (input_behind_defined x fin Hin Hx) as (y & -> & _); [apply Hv; by left|]. cbn [mbind option_bind].
      destruct (_ && _) eqn:Eb; [|by exists s].
      apply andb_true_iff in Eb as [_ [Hf _]%andb_true_iff]. apply paint_both_defined; auto. }
    cbn [mbind option_bind]. apply IH; [intros; apply Hv; by right|done].
  - destruct (is_ci ntk x && negb (x =? nd)) eqn:Emeets.
    + unfold paint_partner. destruct (fo_node o) eqn:Ef; [|by apply Hat].
      destruct (already_painted s1) eqn:Ea; [by exists s1|].
      destruct (inv_flag o) eqn:Einv; [|by apply paint_both_defined; auto].
      destruct (Hready Ef) as (a & b & Eab & Hb). destruct Hs1 as [Hi Hai]. rewrite Eab in *. simpl in Hi.
      assert (index s1 = 0) as Hi0.
      { rewrite (Hai Ea) in *. destruct (decide (i = 0)) as [|Hne]; [done|]. assert (i = 1) as -> by lia.
        injection Hout as <-. specialize (Hb Einv fi Hfi). unfold meets_input in Hb. rewrite Ex in Hb. congruence. }
      destruct (paint_at_defined [a; b] (ctn s1) (index s1) (color_south (ctn s1))) as [c1 ->]; [simpl; lia|].
      cbn [mbind option_bind].
      destruct (paint_at_defined [a; b] c1 (index s1 + 1) (color_south c1)) as [c2 ->]; [simpl; lia|].
      cbn [mbind option_bind]. eexists. split; [done|]. split; [by rewrite Eab|done].
    + destruct (is_maj ntk x); [by apply Hat|by exists s1].
Qed.

Lemma paint_outputs_defined steps o nd : ∀ s,
  inputs_ready → outputs_ready nd o → (fo_node o = false → length (new_output_node o) = 1%nat) →
  (∀ n, n ∈ new_output_node o → n ∈ Networks.foreach_node ntk) → 0 <= index s →
  paint_outputs fanout_size steps ntk o nd s ≠ Some None.
Proof.
  induction steps as [|steps IH]; intros s Hin Hready Hone Hnodes H0; [done|]. simpl.
  destruct (Z.ltb_spec (index s) (Z.of_nat (length (new_output_node o)))) as [Hi|]; [|done].
  destruct (lookup_lt_is_Some_2 (new_output_node o) (Z.to_nat (index s))) as [out Eout]; [lia|].
  assert (vec_at (new_output_node o) (index s) = Some out) as Hout by (unfold vec_at; by rewrite decide_True).
  rewrite Hout. cbn [mbind option_bind].
  assert (out ∈ Networks.foreach_node ntk) as Hnode by (apply Hnodes; by eapply list_elem_of_lookup_2).
  assert (∀ v, (∀ fi, fi ∈ v → fi ∈ foreach_fanin ntk out) → ∀ s1, in_range o (index s) s1 →
    ∃ s', iterate (paint_fanin fanout_size ntk o nd) s1 v = Some s' ∧ in_range o (index s) s') as Hv.
  { induction v as [|fi v IHv]; intros Hv s1 Hs1; [by exists s1|]. rewrite iterate_cons.
    destruct (paint_fanin_defined o nd (index s) out s1 fi) as (s2 & -> & Hs2); try done; [apply Hv; by left|].
    cbn [mbind option_bind]. apply IHv; [intros; apply Hv; by right|done]. }
  destruct (Hv (foreach_fanin ntk out) (λ fi H, H) s) as (s2 & -> & [[Hi2 _] _]); [by split; [lia|]|].
  apply IH; try done. simpl. lia.
Qed.

(** The first phase is defined on every network with ready inputs. *)
Lemma color_fanout_defined nd fon c :
  inputs_ready → nd ∈ foreach_ci ntk → fon ∈ foreach_fanout ntk nd →
  ∃ c', color_fanout fanout_size ntk nd c fon = Some c'.
Proof.
  intros Hin Hnd Hfon. unfold color_fanout.
  pose proof (proj2 Hin nd fon Hnd Hfon) as Hready. rewrite (collect_outputs_same _ c) in Hready.
  pose proof (single_output c fon) as Hsingle.
  assert (fon ∈ Networks.foreach_node ntk) as Hf by (by apply foreach_fanout_converse in Hfon as [? _]).
  pose proof (λ n, outputs_in_network c fon n Hf) as Hnodes.
  destruct (collect_outputs fanout_size ntk c fon) as [c1 o]. cbn [snd] in *.
  pose proof (paint_outputs_terminates o nd c1) as Ht.
  pose proof (paint_outputs_defined (output_steps o) o nd (LoopState c1 0 false) Hin Hready Hsingle Hnodes
    ltac:(simpl; lia)) as Hd.
  destruct (paint_outputs _ _ _ _ _ _) as [[s|]|]; [|done..]. by eexists.
Qed.

Lemma color_inputs_defined c : inputs_ready → ∃ c', color_inputs fanout_size ntk c = Some c'.
Proof.
  intros Hin. unfold color_inputs, color_fanouts.
  enough (∃ c1, iterate (λ c nd, iterate (color_fanout fanout_size ntk nd) c (foreach_fanout ntk nd)) c
    (foreach_ci ntk) = Some c1) as [c1 ->] by by eexists.
  assert (∀ ns, (∀ nd, nd ∈ ns → nd ∈ foreach_ci ntk) → ∀ c,
    ∃ c1, iterate (λ c nd, iterate (color_fanout fanout_size ntk nd) c (foreach_fanout ntk nd)) c ns = Some c1) as Hns;
    [|by apply Hns].
  induction ns as [|nd ns IH]; intros Hns c0; [by eexists|]. rewrite iterate_cons.
  assert (∀ fons, (∀ fon, fon ∈ fons → fon ∈ foreach_fanout ntk nd) → ∀ c,
    ∃ c1, iterate (color_fanout fanout_size ntk nd) c fons = Some c1) as Hfons.
  { induction fons as [|fon fons IHf]; intros Hf c2; [by eexists|]. rewrite iterate_cons.
    destruct (color_fanout_defined nd fon c2) as [c3 ->]; [done|apply Hns; by left|apply Hf; by left|]. cbn [mbind option_bind].
    apply IHf. intros; apply Hf; by right. }
  destruct (Hfons (foreach_fanout ntk nd) (λ fon H, H) c0) as [c2 ->]. cbn [mbind option_bind].
  apply IH. intros; apply Hns; by right.
Qed.

(** ** The second phase *)

Lemma advances_extends_edges c c' e : advances c c' → painted c e → valid_color c' (ecolor c' e).
Proof. intros [T K] He. apply (tidy_edges _ T). by eapply keeps_painted. Qed.

Lemma paint_recursively fuel c e clr :
  tidy c → e ∈ all_edges ntk → valid_color c clr → (base.size (all_edges ntk) < fuel)%nat →
  ∃ c', recursively_paint_edges fuel ntk c e clr = Some c' ∧ advances c c' ∧ painted c' e ∧
    ∀ n, ncolor c' n = ncolor c n.
Proof.
  intros Hc He Hv Hfuel.
  destruct (paint_correct_all ntk (λ _ clr, valid_color c clr) fuel c e clr) as (c' & E & [HE HS' Hn Hk Hnew _] & Hp);
    [apply Hc| |done..| |].
  - intros e' clr' f _ Hv' _ _ _. split; [|done]. intros _. apply opposite_color_valid.
  - enough (base.size (unpainted ntk c) <= base.size (all_edges ntk))%nat by lia.
    apply subseteq_size. intros f. unfold unpainted. rewrite elem_of_filter. tauto.
  - exists c'. split; [done|]. assert (∀ n, ncolor c' n = ncolor c n) as Hnode.
    { intros n. unfold ncolor, node_color. by rewrite Hn. }
    split_and!; [|done|done]. split; [|by split]. destruct Hc as [[] Hed Hnd]. split.
    + split; congruence.
    + intros f Hf. destruct (decide (painted c f)) as [Hpf|Hpf].
      * rewrite Hk by done. unfold valid_color. rewrite HE, HS'. by apply Hed.
      * unfold valid_color. rewrite HE, HS'. by apply Hnew.
    + intros n. rewrite Hnode. unfold valid_color. rewrite HE, HS'. apply Hnd.
Qed.

Lemma color_gate_advances fuel c n :
  tidy c → n ∈ Networks.foreach_node ntk → (base.size (all_edges ntk) < fuel)%nat →
  ∃ c', color_gate fuel ntk c n = Some c' ∧ advances c c' ∧ fanins_painted ntk c' n ∧
    ∀ m, ncolor c' m =
      if decide (m = n ∧ gate_color ntk c' n ≠ color_null) then gate_color ntk c' n else ncolor c m.
Proof.
  intros Hc Hn Hfuel. unfold color_gate. set (clr := if existsb _ _ then _ else _).
  assert (valid_color c clr) as Hv by (unfold clr; case_match; auto).
  assert (∀ es c1, advances c c1 → (∀ e, e ∈ es → e ∈ all_edges ntk) →
    ∃ c2, foldl (λ o fe, c ← o; recursively_paint_edges fuel ntk c fe clr) (Some c1) es = Some c2 ∧
      advances c1 c2 ∧ (∀ e, e ∈ es → painted c2 e) ∧ ∀ n, ncolor c2 n = ncolor c1 n) as Hl.
  { induction es as [|e es IH]; intros c1 H1 Hes; simpl.
    { exists c1. split_and!; [done|apply advances_refl, H1| |done]. intros e He. by apply not_elem_of_nil in He. }
    destruct (paint_recursively fuel c1 e clr) as (c2 & -> & H2 & Hp2 & Hn2);
      [apply H1|apply Hes; by left|by rewrite (keeps_valid c c1) by apply H1|done|].
    destruct (IH c2) as (c3 & -> & H3 & Hp3 & Hn3); [by eapply advances_trans|intros; apply Hes; by right|].
    exists c3. split_and!; [done|by eapply advances_trans| |intros m; by rewrite Hn3].
    intros f [->|Hf]%elem_of_cons; [|by apply Hp3]. eapply keeps_painted; [apply H3|done]. }
  destruct (Hl (fanin_edges ntk n) c) as (c1 & -> & [T1 K1] & Hp1 & Hn1);
    [by apply advances_refl|intros e He; by eapply fanin_edges_all|]. simpl. clear Hl.
  change (λ fe, edge_color (color_ntk c1) fe =? ?c) with (λ fe, ecolor c1 fe =? c).
  set (c2 := if forallb _ _ then _ else _). exists c2.
  assert (advances c1 c2 ∧ ecolor c2 = ecolor c1 ∧ color_east c2 = color_east c1 ∧ color_south c2 = color_south c1 ∧
    ∀ m, ncolor c2 m = if decide (m = n ∧ gate_color ntk c1 n ≠ color_null) then gate_color ntk c1 n else ncolor c1 m)
    as (H2 & Ee & EE & ES & H2n).
  { assert (∀ clr, valid_color c1 clr → advances c1 (set_color_ntk (paint (color_ntk c1) n clr) c1) ∧
      ∀ m, ncolor (set_color_ntk (paint (color_ntk c1) n clr) c1) m = if decide (m = n) then clr else ncolor c1 m)
      as Hpaint.
    { intros clr' Hv'. destruct T1 as [[] Hed Hnd].
      assert (∀ m, ncolor (set_color_ntk (paint (color_ntk c1) n clr') c1) m =
        if decide (m = n) then clr' else ncolor c1 m) as HN1.
      { intros m. unfold ncolor, node_color. cbn. rewrite color_paint. repeat case_decide; congruence. }
      split; [|done]. split; [split; [by split|exact Hed|]|by split].
      intros m. rewrite HN1. case_decide; [by right|apply Hnd]. }
    pose proof (tidy_ok _ T1) as [He1 Hs1 _]. unfold c2, gate_color.
    destruct (forallb (λ fe, ecolor c1 fe =? color_east c1) (fanin_edges ntk n));
      [|destruct (forallb (λ fe, ecolor c1 fe =? color_south c1) (fanin_edges ntk n))].
    - destruct (Hpaint (color_east c1)) as [Ha Hm]; [done|]. split_and!; [done..|]. intros m. rewrite Hm.
      repeat case_decide; naive_solver.
    - destruct (Hpaint (color_south c1)) as [Ha Hm]; [done|]. split_and!; [done..|]. intros m. rewrite Hm.
      repeat case_decide; naive_solver.
    - split_and!; [by apply advances_refl|done..|]. intros m. rewrite decide_False by naive_solver. done. }
  assert (gate_color ntk c2 n = gate_color ntk c1 n) as Eg by (unfold gate_color; by rewrite Ee, EE, ES).
  split_and!; [done|by eapply advances_trans| |].
  - intros e He. unfold painted. rewrite Ee. by apply Hp1.
  - intros m. rewrite H2n, Eg, Hn1. done.
Qed.

(** The state after the gates [gs] have been colored, in terms of the state [c] before. *)
Lemma color_gates_advances fuel gs c :
  tidy c → (∀ g, g ∈ gs → g ∈ Networks.foreach_node ntk) → (base.size (all_edges ntk) < fuel)%nat →
  ∃ c', iterate (color_gate fuel ntk) c gs = Some c' ∧ advances c c' ∧
    (∀ g, g ∈ gs → fanins_painted ntk c' g) ∧
    ∀ n, ncolor c' n =
      if decide (n ∈ gs ∧ gate_color ntk c' n ≠ color_null) then gate_color ntk c' n else ncolor c n.
Proof.
  intros Hc Hgs Hfuel. revert c Hc. induction gs as [|g gs IH]; intros c Hc.
  { exists c. split_and!; [done|by apply advances_refl| |].
    - intros g Hg. by apply not_elem_of_nil in Hg.
    - intros n. rewrite decide_False; [done|]. intros [Hn _]. by apply not_elem_of_nil in Hn. }
  rewrite iterate_cons. destruct (color_gate_advances fuel c g) as (c1 & -> & H1 & Hg & Hn1);
    [done|apply Hgs; by left|done|]. simpl.
  destruct (IH ltac:(intros; apply Hgs; by right) c1) as (c2 & -> & H2 & Hgs2 & Hn2); [apply H1|].
  exists c2. split_and!; [done|by eapply advances_trans| |].
  - intros m [->|Hm]%elem_of_cons; [|by apply Hgs2]. intros e He. eapply keeps_painted; [apply H2|by apply Hg].
  - intros n. rewrite Hn2, Hn1. destruct (decide (n = g)) as [->|Hne].
    + assert (gate_color ntk c2 g = gate_color ntk c1 g) as ->.
      { unfold gate_color. destruct H2 as [_ [HE HS' Hk]]. rewrite HE, HS'.
        assert (∀ clr, forallb (λ fe, ecolor c2 fe =? clr) (fanin_edges ntk g) =
          forallb (λ fe, ecolor c1 fe =? clr) (fanin_edges ntk g)) as Hall.
        { intros clr. apply forallb_ext_in. intros e He. by rewrite Hk by (by apply Hg). }
        by rewrite !Hall. }
      repeat case_decide; set_solver.
    + repeat case_decide; set_solver.
Qed.
End Coloring.

Section Theorems.
Context `{MT : GateLevel.Mockturtle} `{HC : ColorView} `{HCL : !ColorViewLaws}.
Context `{HN : Network Ntk} `{HG : !GateNetwork Ntk} `{HS : !SequentialNetwork Ntk}.
Context (ntk : Ntk) `{HL : !NetworkLaws ntk} (fanout_size : Ntk → Z → Z).
Implicit Types (c : coloring_container) (n : Z).

Lemma new_container_tidy : tidy new_coloring_container.
Proof.
  split; [apply new_container_ok| |].
  - intros e He. by apply nothing_painted in He.
  - intros n. left. unfold ncolor, node_color. cbn. by rewrite !new_color_colors, color_none.
Qed.

Lemma new_coloring_state fuel c gs :
  (base.size (all_edges ntk) < fuel)%nat →
  color_inputs fanout_size ntk new_coloring_container = Some c →
  reverse_foreach_gate ntk (Networks.foreach_node ntk) = Some gs →
  ∃ c', new_east_south_edge_coloring fanout_size fuel ntk = Some c' ∧ tidy c' ∧ keeps c c' ∧
    (∀ g, g ∈ gs → fanins_painted ntk c' g) ∧
    (∀ n, ncolor c' n =
       if decide (n ∈ gs ∧ gate_color ntk c' n ≠ color_null) then gate_color ntk c' n else ncolor c n).
Proof.
  intros Hfuel Hc Hgs. unfold new_east_south_edge_coloring. rewrite Hc, Hgs. simpl.
  apply color_inputs_advances in Hc as [Tc Kc]; [|apply new_container_tidy].
  destruct (color_gates_advances ntk fanout_size fuel gs c Tc) as (c' & -> & [T K] & Hp & Hn); [|done|].
  - intros g Hg. unfold reverse_foreach_gate, vec_range, reverse_order in Hgs. case_decide; [|done].
    injection Hgs as <-. apply elem_of_take in Hg as (i & Hi & _). rewrite drop_0 in Hi.
    apply elem_of_reverse. by eapply list_elem_of_lookup_2.
  - by exists c'.
Qed.

(** A visited gate with a single proper fanin has a color. *)
Lemma new_coloring_single fuel c gs c' g u :
  (base.size (all_edges ntk) < fuel)%nat →
  color_inputs fanout_size ntk new_coloring_container = Some c →
  reverse_foreach_gate ntk (Networks.foreach_node ntk) = Some gs →
  new_east_south_edge_coloring fanout_size fuel ntk = Some c' →
  g ∈ gs → container_nodes (fanins ntk g) = [u] → ncolor c' g ≠ color_null.
Proof.
  intros Hfuel Hc Hgs E Hg Hu. destruct (new_coloring_state fuel c gs) as (c1 & E1 & T & _ & Hp & Hn); [done..|].
  rewrite E1 in E. injection E as <-. rewrite container_nodes_fanins in Hu.
  assert (fanin_edges ntk g = [(u, g)]) as He by (by rewrite fanin_edges_spec, Hu).
  assert (valid_color c1 (ecolor c1 (u, g))) as Hv
    by (apply (tidy_edges _ T), (Hp g Hg); rewrite He; by left).
  assert (gate_color ntk c1 g = ecolor c1 (u, g)) as Eg.
  { unfold gate_color. rewrite He. simpl. rewrite !andb_true_r.
    destruct Hv as [Hv|Hv]; rewrite Hv, Z.eqb_refl; [done|]. case_match; [|done]. lia. }
  assert (gate_color ntk c1 g ≠ color_null) as Hne.
  { rewrite Eg. destruct (tidy_ok _ T) as [He' Hs' _]. by destruct Hv as [->| ->]. }
  rewrite Hn, decide_True by done. done.
Qed.
End Theorems.

(** ** [majority_buffer] *)

Section Delays.
Context `{MT : GateLevel.Mockturtle} `{HC : ColorView}.
Context `{HN : Network Ntk} `{HG : !GateNetwork Ntk} (ntk : Ntk) `{HL : !NetworkLaws ntk}.
Implicit Types (n : Z).

Lemma path_delay_nonneg p : 0 <= path_delay ntk p.
Proof.
  unfold path_delay. induction p as [|e p IH] using rev_ind; [done|]. rewrite foldl_snoc. case_match; lia.
Qed.

(** [d] is the greatest delay of the paths [ps], or 0. *)
Definition greatest_delay (P : list edge → Prop) (d : Z) : Prop :=
  (∀ p, P p → path_delay ntk p <= d) ∧ (d = 0 ∨ ∃ p, P p ∧ path_delay ntk p = d).

(** The loop over the paths of one fanin. *)
Lemma delay_paths ps delays i d :
  vec_at delays i = Some d →
  ∃ d', iterate (λ delays p,
      d ← vec_at delays i;
      if d <? path_delay ntk p then vec_update delays i (λ _, path_delay ntk p) else Some delays)
    delays ps = Some (<[Z.to_nat i := d']> delays) ∧
    d <= d' ∧ (∀ p, p ∈ ps → path_delay ntk p <= d') ∧ (d' = d ∨ ∃ p, p ∈ ps ∧ path_delay ntk p = d').
Proof.
  intros Hd. assert (delays !! Z.to_nat i = Some d ∧ 0 <= i) as [Hl Hi].
  { unfold vec_at in Hd. case_decide; done. }
  induction ps as [|p ps IH] using rev_ind.
  { exists d. rewrite list_insert_id by done. split_and!; [done|done| |by left].
    intros p Hp. by apply not_elem_of_nil in Hp. }
  destruct IH as (d' & E & Hle & Hall & Hor). unfold iterate in *. rewrite foldl_snoc, E. simpl.
  assert (vec_at (<[Z.to_nat i:=d']> delays) i = Some d') as E1.
  { unfold vec_at. rewrite decide_True by done. apply list_lookup_insert_eq. by eapply lookup_lt_Some. }
  rewrite E1. simpl. destruct (Z.ltb_spec d' (path_delay ntk p)) as [Hlt|Hge].
  - exists (path_delay ntk p). unfold vec_update. rewrite E1. simpl. rewrite list_insert_insert_eq.
    split_and!; [done|lia| |right; set_solver].
    intros p' [Hp'| ->%list_elem_of_singleton]%elem_of_app; [|lia]. specialize (Hall p' Hp'). lia.
  - exists d'. split_and!; [done|done| |set_solver].
    intros p' [Hp'| ->%list_elem_of_singleton]%elem_of_app; [auto|lia].
Qed.

Lemma greatest_element l : l ≠ [] → max_element l ∈ l ∧ ∀ d, d ∈ l → d <= max_element l.
Proof.
  destruct l as [|d l]; [done|]. intros _. simpl.
  enough (foldl Z.max d l ∈ d :: l ∧ ∀ e, e ∈ d :: l → e <= foldl Z.max d l) by done.
  induction l as [|e l IH] using rev_ind; simpl.
  { split; [by left|]. intros e He%list_elem_of_singleton. lia. }
  rewrite foldl_snoc. destruct IH as [H1 H2]. split.
  - destruct (Z.max_spec (foldl Z.max d l) e) as [[_ ->]|[_ ->]]; set_solver.
  - intros f Hf. assert (f ∈ d :: l ∨ f = e) as [Hf'| ->] by set_solver; [|lia]. specialize (H2 f Hf'). lia.
Qed.

(** The delays of the fanins [us], followed by zeros. *)
Lemma delay_edges n fuel (us : list Z) rest :
  (∀ u, u ∈ us → is_constant ntk u = false → ∃ ps, all_incoming_edge_paths fuel ntk u = Some ps ∧
    ∀ p, p ∈ ps ↔ incoming_path ntk u p) →
  let proper := filter (λ u, is_constant ntk u = false) us in
  (length proper <= rest)%nat →
  ∃ ds, iterate (delay_edge fuel ntk) (replicate rest 0, 0) ((λ u, (u, n)) <$> us) =
      Some (ds ++ replicate (rest - length proper) 0, Z.of_nat (length proper)) ∧
    Forall2 (λ u d, greatest_delay (incoming_path ntk u) d) proper ds.
Proof.
  induction us as [|u us IH] using rev_ind; intros Hus proper Hlen; unfold proper in *; clear proper.
  { exists []. simpl. rewrite Nat.sub_0_r. split; [done|constructor]. }
  rewrite filter_app, length_app, filter_cons, filter_nil in *.
  destruct IH as (ds & E & Hds); [intros; apply Hus; [set_solver|done]|destruct (decide _); simpl in *; lia|].
  pose proof (Forall2_length _ _ _ Hds) as Hl.
  rewrite fmap_app. unfold iterate in *. rewrite foldl_app, E. simpl.
  destruct (is_constant ntk u) eqn:Hc.
  - rewrite decide_False by done. rewrite app_nil_r, Nat.add_0_r. by exists ds.
  - rewrite decide_True in * by done. simpl in *.
    destruct (Hus u) as (ps & -> & Hps); [set_solver|done|]. simpl.
    set (k := length (filter (λ u, is_constant ntk u = false) us)) in *.
    assert (vec_at (ds ++ replicate (rest - k) 0) (Z.of_nat k) = Some 0) as E0.
    { unfold vec_at. rewrite decide_True, Nat2Z.id, lookup_app_r, <-Hl, Nat.sub_diag by lia.
      destruct (rest - k)%nat eqn:Er; [lia|done]. }
    destruct (delay_paths ps _ _ _ E0) as (d & Ed & _ & Hmax & Hd). rewrite Ed. simpl.
    exists (ds ++ [d]). split.
    + f_equal. f_equal; [|lia]. rewrite Nat2Z.id, insert_app_r_alt, <-Hl, Nat.sub_diag, <-app_assoc by lia.
      destruct (rest - k)%nat eqn:Er; [lia|]. simpl. f_equal. f_equal. f_equal. lia.
    + apply Forall2_app; [done|]. constructor; [|done]. split; [intros p Hp; by apply Hmax, Hps|].
      destruct Hd as [->|(p & Hp & <-)]; [by left|right]. exists p. by rewrite <-Hps.
Qed.

(** C20: [majority_buffer] terminates on every node of an acyclic network, with the number of nodes as
    fuel, and returns a delay for each fanin that is no constant; with it, the greatest number of
    majority gates on the paths to the fanin is the same for all of them, and one needs none. *)
Theorem majority_buffer_balances n :
  n ∈ Networks.foreach_node ntk →
  ∃ delays, majority_buffer (length (Networks.foreach_node ntk)) ntk n = Some delays ∧
    ∃ ds m, Forall2 (λ u d, greatest_delay (incoming_path ntk u) d) (container_nodes (fanins ntk n)) ds ∧
      Forall2 (λ d k, 0 <= k ∧ d + k = m) ds delays ∧ (delays ≠ [] → 0 ∈ delays).
Proof.
  intros Hn. unfold majority_buffer. rewrite container_nodes_fanins.
  destruct (Nat.eqb_spec (length (proper_fanins ntk n)) 0) as [E0|Hne].
  { apply length_zero_iff_nil in E0. exists []. split; [done|]. exists [], 0. rewrite E0. by split_and!. }
  change (foreach_incoming_edge ntk n) with ((λ fi, (get_node ntk fi, n)) <$> foreach_fanin ntk n).
  assert ((λ fi, (get_node ntk fi, n)) <$> foreach_fanin ntk n = (λ u, (u, n)) <$> fanin_nodes ntk n) as ->
    by (unfold fanin_nodes; by rewrite <-list_fmap_compose).
  destruct (delay_edges n (length (Networks.foreach_node ntk)) (fanin_nodes ntk n) (length (proper_fanins ntk n)))
    as (ds & E & Hds); [|done|].
  { intros u Hu _. pose proof (fanin_in_network ntk n u Hn Hu) as [i Hi]%list_elem_of_lookup.
    apply (all_incoming_edge_paths_at _ _ _ i); [done|by eapply lookup_lt_Some]. }
  rewrite E. simpl. change (filter _ (fanin_nodes ntk n)) with (proper_fanins ntk n) in *.
  rewrite Nat.sub_diag, app_nil_r. eexists. split; [done|]. exists ds, (max_element ds).
  assert (ds ≠ []) as Hnil by (intros ->; apply Forall2_length in Hds; simpl in Hds; lia).
  destruct (greatest_element ds Hnil) as [Hin Hle]. split_and!; [done| |].
  - apply Forall2_fmap_r, Forall_Forall2_diag, Forall_forall. intros d Hd. specialize (Hle d Hd). simpl. lia.
  - intros _. apply list_elem_of_fmap. exists (max_element ds). split; [lia|done].
Qed.
End Delays.
