(* ===== verification/NewColoringPhases.v ===== *)
(** * The two phases of the conditional coloring

    What [NewColoring.v] paints behind the inputs: the two outputs of a fanout node get opposite colors
    where one of them meets another input. What it paints for each gate afterwards: the edges that are
    connected to the first uncolored fanin edge through uncolored edges, in alternating colors. *)

From S2P Require Import Prelude.
From S2P Require Import GateLevelLayout.
From S2P Require Import MockturtleModel.
From S2P Require Import Networks.
From S2P Require Import PlacementUtils.
From S2P Require Import NetworkModel.
From S2P Require Import EdgeColoring.
From S2P Require Import EdgeColoringProperties.
From S2P Require Import TopoViewInputSort.
From S2P Require Import TopoViewProperties.
From S2P Require Import TopoViewModel.
From S2P Require Import NewColoring.
From S2P Require Import NewColoringProperties.
#[local] Open Scope Z_scope.
Import Networks.
Import Placement.
Import EdgeColoring.
Import Painting.
Import TopoView.
Import NewColoring.

Module Phases.

Section Phases.
Context `{MT : GateLevel.Mockturtle} `{HC : ColorView} `{HCL : !ColorViewLaws}.
Context `{HN : Network Ntk} `{HG : !GateNetwork Ntk} `{HS : !SequentialNetwork Ntk}.
Context (ntk : Ntk) `{HL : !NetworkLaws ntk} (fanout_size : Ntk → Z → Z).
Implicit Types (c : coloring_container) (n : Z) (e f g : edge).

(** ** The first phase *)

(** What a fanin of an output leads to: another input than [nd], at once or through its fanout node. *)
Inductive meeting := WithInput | WithFork.

Definition meets (nd fi : Z) : option meeting :=
  x ← input_behind ntk fi;
  if (2 <=? fanout_size ntk x) && is_fanout ntk x
  then if existsb (meets_input ntk nd) (foreach_fanin ntk x) then Some WithFork else None
  else if is_ci ntk x && negb (x =? nd) then Some WithInput else None.

Definition first_meeting (nd n : Z) : option meeting := head (omap (meets nd) (foreach_fanin ntk n)).

(** A fanout node with two outputs [a] and [b], which are no inverters and no outputs of the network, and
    have no majority gate as fanin. *)
Record fork (fon a b : Z) : Prop := {
  fork_node : is_inv ntk fon = false ∧ is_fanout ntk fon = true ∧ 2 <= fanout_size ntk fon;
  fork_outputs : foreach_fanout ntk fon = [a; b];
  fork_distinct : a ≠ b;
  fork_plain n : n = a ∨ n = b → is_inv ntk n = false ∧ is_po ntk n = false ∧
    ∀ fi x, fi ∈ foreach_fanin ntk n → input_behind ntk fi = Some x → is_maj ntk x = false;
}.

(** The colors of the output that meets an input and of the other one. *)
Definition meeting_colors c (m : meeting) : Z * Z :=
  match m with
  | WithFork => (color_east c, color_south c)
  | WithInput => (color_south c, color_east c)
  end.

(** The colors of [a] and [b]. *)
Definition fork_colors c (nd a b : Z) : option (Z * Z) :=
  match first_meeting nd a, first_meeting nd b with
  | Some m, _ => Some (meeting_colors c m)
  | None, Some m => Some ((meeting_colors c m).2, (meeting_colors c m).1)
  | None, None => None
  end.

Lemma ecolor_paint_edge_if c e clr f :
  ecolor (paint_edge_if c e clr) f = if decide (e = f ∧ ¬ painted c e) then clr else ecolor c f.
Proof.
  unfold paint_edge_if, painted. change (edge_color (color_ntk c) e) with (ecolor c e).
  destruct (Z.eqb_spec (ecolor c e) color_null) as [He|He].
  - change (set_color_ntk _ _) with (paint_one c e clr). rewrite ecolor_paint_one. repeat case_decide; naive_solver.
  - rewrite decide_False by tauto. done.
Qed.

Lemma ecolor_paint_fanins c n clr f :
  clr ≠ color_null →
  ecolor (paint_fanins ntk c n clr) f =
    if decide (f ∈ fanin_edges ntk n ∧ ¬ painted c f) then clr else ecolor c f.
Proof.
  intros Hclr. unfold paint_fanins. generalize (fanin_edges ntk n) as es. intros es.
  induction es as [|e es IH] using rev_ind; [by rewrite decide_False by set_solver|].
  rewrite foldl_snoc, ecolor_paint_edge_if. set (c1 := foldl _ c es) in *.
  destruct (decide (f ∈ es ∧ ¬ painted c f)) as [H1|H1].
  { rewrite IH, (decide_True (P := f ∈ es ++ [e] ∧ _)) by set_solver. by destruct (decide _). }
  destruct (decide (e = f)) as [->|Hne].
  - assert (painted c1 f ↔ painted c f) as Hp by (unfold painted; by rewrite IH).
    destruct (decide (painted c f)).
    + rewrite decide_False by tauto. by rewrite decide_False by tauto.
    + rewrite decide_True by (split; [done|tauto]). by rewrite decide_True by (split; [set_solver|tauto]).
  - rewrite decide_False by tauto. rewrite IH, decide_False; [done|].
    intros [[Hf|Hf%list_elem_of_singleton]%elem_of_app Hp]; [tauto|congruence].
Qed.

Lemma ecolor_paint_output c n clr f :
  clr ≠ color_null →
  ecolor (paint_output ntk c n clr) f =
    if decide (f ∈ fanin_edges ntk n ∧ ¬ painted c f) then clr else ecolor c f.
Proof.
  intros Hclr. rewrite <-ecolor_paint_fanins by done. unfold paint_output, paint_if. by case_match.
Qed.

Lemma ncolor_paint_output c n clr m :
  ncolor (paint_output ntk c n clr) m =
    if decide (n = m ∧ ncolor c n = color_null) then clr else ncolor c m.
Proof.
  assert (∀ m, ncolor (paint_fanins ntk c n clr) m = ncolor c m) as Hf.
  { intros k. unfold paint_fanins. generalize (fanin_edges ntk n) as es. intros es.
    induction es as [|e es IH] using rev_ind; [done|]. rewrite foldl_snoc, <-IH. unfold paint_edge_if. by case_match. }
  unfold paint_output, paint_if. change (node_color (color_ntk ?c) ?n) with (ncolor c n). rewrite Hf.
  destruct (Z.eqb_spec (ncolor c n) color_null) as [E|E].
  - rewrite <-(Hf m). unfold ncolor, node_color at 1. cbn. rewrite color_paint. repeat case_decide; naive_solver.
  - rewrite decide_False by tauto. apply Hf.
Qed.

(** The fanouts of the inputs. *)
Definition input_fanouts : list Z := foreach_ci ntk ≫= foreach_fanout ntk.

(** The second loop paints what is uncolored there. *)
Lemma east_loop ns c :
  color_east c ≠ color_null →
  let c' := foldl (λ c fon, paint_output ntk c fon (color_east c)) c ns in
  color_east c' = color_east c ∧
  (∀ e, ecolor c' e = if decide (¬ painted c e ∧ Exists (λ n, e ∈ fanin_edges ntk n) ns) then color_east c else ecolor c e) ∧
  ∀ n, ncolor c' n = if decide (ncolor c n = color_null ∧ n ∈ ns) then color_east c else ncolor c n.
Proof.
  intros Hne. induction ns as [|m ns IH] using rev_ind.
  { split_and!; [done|..]; intros; rewrite decide_False; try done; intros [_ H]; [by apply Exists_nil in H|].
    by apply not_elem_of_nil in H. }
  rewrite foldl_snoc. cbn zeta in *. set (c1 := foldl _ c ns) in *. destruct IH as (EE & He & Hn).
  assert (color_east (paint_output ntk c1 m (color_east c1)) = color_east c1) as EE'.
  { unfold paint_output, paint_if. assert (∀ es, color_east (foldl (λ c fe, paint_edge_if c fe (color_east c1)) c1 es)
      = color_east c1) as Hes.
    { induction es as [|e es IHe] using rev_ind; [done|]. rewrite foldl_snoc, <-IHe at 1. unfold paint_edge_if. by case_match. }
    specialize (Hes (fanin_edges ntk m)). case_match; exact Hes. }
  split_and!; [congruence| |].
  - intros e. rewrite ecolor_paint_output by congruence. rewrite EE.
    destruct (decide (¬ painted c e ∧ Exists (λ n, e ∈ fanin_edges ntk n) ns)) as [[H1 H2]|H1].
    + rewrite decide_False by (unfold painted; rewrite He, decide_True by done; tauto).
      rewrite He, decide_True by done. rewrite decide_True; [done|]. rewrite Exists_app. tauto.
    + assert (ecolor c1 e = ecolor c e) as E1 by (by rewrite He, decide_False).
      assert (painted c1 e ↔ painted c e) as Hp by (unfold painted; by rewrite E1).
      destruct (decide (e ∈ fanin_edges ntk m ∧ ¬ painted c1 e)) as [H2|H2].
      * rewrite decide_True; [done|]. rewrite Exists_app, Exists_cons. tauto.
      * rewrite decide_False; [done|]. rewrite Exists_app, Exists_cons, Exists_nil. tauto.
  - intros n. rewrite ncolor_paint_output, EE.
    destruct (decide (ncolor c n = color_null ∧ n ∈ ns)) as [[H1 H2]|H1].
    + assert (ncolor c1 n = color_east c) as E1 by (by rewrite Hn, decide_True).
      rewrite decide_False by (intros [-> ?]; congruence). rewrite E1, decide_True; [done|]. set_solver.
    + assert (ncolor c1 n = ncolor c n) as E1 by (by rewrite Hn, decide_False).
      destruct (decide (m = n ∧ ncolor c1 m = color_null)) as [[-> H2]|H2].
      * rewrite decide_True; [done|]. split; [congruence|set_solver].
      * rewrite E1, decide_False; [done|]. intros [H3 [H4|H4%list_elem_of_singleton]%elem_of_app]; [tauto|].
        subst. apply H2. split; [done|congruence].
Qed.

Lemma second_loop c c' c'' :
  color_east c ≠ color_null → color_fanouts fanout_size ntk c' = Some c → color_inputs fanout_size ntk c' = Some c'' →
  (∀ e, ecolor c'' e =
     if decide (¬ painted c e ∧ Exists (λ n, e ∈ fanin_edges ntk n) input_fanouts) then color_east c else ecolor c e) ∧
  ∀ n, ncolor c'' n = if decide (ncolor c n = color_null ∧ n ∈ input_fanouts) then color_east c else ncolor c n.
Proof.
  intros Hne E. unfold color_inputs. rewrite E. cbn. intros [= <-].
  assert (∀ l c, foldl (λ c nd, foldl (λ c fon, paint_output ntk c fon (color_east c)) c (foreach_fanout ntk nd)) c l
    = foldl (λ c fon, paint_output ntk c fon (color_east c)) c (l ≫= foreach_fanout ntk)) as Hl.
  { induction l as [|nd l IH]; intros c0; [done|]. cbn [foldl]. rewrite IH. cbn. by rewrite foldl_app. }
  rewrite Hl. apply (east_loop input_fanouts c Hne).
Qed.

(** *** The outputs of a fork *)

Section Fork.
Context (nd fon a b : Z) (Hfork : fork fon a b).

Definition fork_outs : outputs := Outputs [a; b] true false false.

Lemma collect_fork c : collect_outputs fanout_size ntk c fon = (paint_fanins ntk c fon (color_east c), fork_outs).
Proof.
  destruct Hfork as [(Ei & Ef & Es) Eo _ Hp]. unfold collect_outputs. rewrite Ei, Ef, (proj2 (Z.leb_le _ _) Es).
  cbn [andb]. rewrite Eo. unfold collect_output. cbn [foldl].
  destruct (Hp a) as (Ia & Pa & _), (Hp b) as (Ib & Pb & _); [auto..|]. by rewrite Ia, Ib, Pa, Pb.
Qed.

(** The edge is a fanin edge of an output. *)
Definition outer e : Prop := e ∈ fanin_edges ntk a ∨ e ∈ fanin_edges ntk b.

Lemma other_target n e : n ≠ a → n ≠ b → outer e → e ∉ fanin_edges ntk n.
Proof.
  intros Ha Hb He [Hn _]%elem_of_fanin_edges.
  destruct He as [[He _]%elem_of_fanin_edges|[He _]%elem_of_fanin_edges]; congruence.
Qed.

(** Before and after the outputs have been painted, [i] being the output that meets an input first. *)
Definition waiting (i : Z) (s : loop_state) : Prop :=
  tidy (ctn s) ∧ index s = i ∧ already_painted s = false ∧ ∀ e, outer e → ¬ painted (ctn s) e.

Definition colored_as (i : Z) (colors : Z * Z) c : Prop :=
  (∀ e, e ∈ fanin_edges ntk (if i =? 0 then a else b) → ecolor c e = colors.1) ∧
  (∀ e, e ∈ fanin_edges ntk (if i =? 0 then b else a) → ecolor c e = colors.2).

Definition decided (j i : Z) (m : meeting) (s : loop_state) : Prop :=
  tidy (ctn s) ∧ index s = j ∧ already_painted s = true ∧ colored_as i (meeting_colors (ctn s) m) (ctn s).

Lemma meeting_valid c m :
  tidy c → valid_color c (meeting_colors c m).1 ∧ valid_color c (meeting_colors c m).2 ∧
  (meeting_colors c m).1 ≠ color_null ∧ (meeting_colors c m).2 ≠ color_null.
Proof. intros [[] _ _]. destruct m; unfold valid_color; auto. Qed.

Lemma edge_of_one e n m : n ≠ m → e ∈ fanin_edges ntk n → e ∉ fanin_edges ntk m.
Proof. intros Hne [Hn _]%elem_of_fanin_edges [Hm _]%elem_of_fanin_edges. congruence. Qed.

Lemma paint_both_decides i m s s' :
  (i = 0 ∨ i = 1) → waiting i s →
  paint_both ntk [a; b] s (meeting_colors (ctn s) m).1 (meeting_colors (ctn s) m).2 = Some s' → decided (1 - i) i m s'.
Proof.
  intros Hi (T & Ei & Ea & Hnp) E. pose proof (meeting_valid (ctn s) m T) as (V1 & V2 & N1 & N2).
  pose proof (paint_both_advances ntk _ _ _ _ _ T V1 V2 E) as [T' [KE KS _]].
  assert (meeting_colors (ctn s') m = meeting_colors (ctn s) m) as Em by (unfold meeting_colors; by rewrite KE, KS).
  split; [done|]. unfold colored_as. rewrite Em. unfold paint_both in E. rewrite Ei in E.
  set (col := meeting_colors (ctn s) m) in *. pose proof (fork_distinct _ _ _ Hfork) as Hab.
  assert (∃ n1 n2, n1 ≠ n2 ∧ (∀ e, e ∈ fanin_edges ntk n1 ∨ e ∈ fanin_edges ntk n2 → outer e) ∧
    (if i =? 0 then a else b) = n1 ∧ (if i =? 0 then b else a) = n2 ∧
    vec_at [a; b] i = Some n1 ∧ vec_at [a; b] (1 - i) = Some n2) as (n1 & n2 & H12 & Hout & -> & -> & E1 & E2)
    by (unfold outer; destruct Hi as [->| ->]; [exists a, b|exists b, a]; split_and!; naive_solver).
  unfold paint_at in E. rewrite E1, E2 in E. cbn [mbind option_bind] in E. injection E as <-. cbn.
  split_and!; [done|done| |]; intros e He; rewrite ecolor_paint_output by done.
  - rewrite decide_False by (intros [He' _]; by apply (edge_of_one e n1 n2)).
    rewrite ecolor_paint_output, decide_True; [done| |done]. split; [done|]. apply Hnp, Hout. by left.
  - assert (¬ painted (paint_output ntk (ctn s) n1 col.1) e) as Hnp'.
    { unfold painted. rewrite ecolor_paint_output, decide_False; [apply Hnp, Hout; by right| |done].
      intros [He' _]. by apply (edge_of_one e n1 n2). }
    by rewrite decide_True.
Qed.
Lemma colored_keeps i m c c' :
  tidy c → keeps c c' → colored_as i (meeting_colors c m) c → colored_as i (meeting_colors c' m) c'.
Proof.
  intros T [KE KS K] [H1 H2]. destruct (meeting_valid c m T) as (_ & _ & N1 & N2).
  assert (meeting_colors c' m = meeting_colors c m) as Em by (unfold meeting_colors; by rewrite KE, KS).
  unfold colored_as. rewrite Em.
  split; intros e He; rewrite K; [auto| |auto|]; unfold painted; [by rewrite (H1 e He)|by rewrite (H2 e He)].
Qed.

(** Of the functors of the fanins, nothing repaints the outputs. *)
Lemma decided_fanin j i m s fi s' :
  decided j i m s → paint_fanin fanout_size ntk fork_outs nd s fi = Some s' → decided j i m s'.
Proof.
  intros (T & Ei & Ea & Hc) E. pose proof (paint_fanin_advances ntk fanout_size _ _ _ _ _ T E) as [T' K].
  pose proof (paint_fanin_switched ntk fanout_size _ _ _ _ _ E) as [[Ei' Ha']|(Ha' & _)]; [|congruence].
  split; [done|split; [congruence|split; [auto|]]]. by apply (colored_keeps i m (ctn s)).
Qed.

Lemma decided_second j i m s l s' :
  decided j i m s → iterate (paint_second ntk fork_outs nd) s l = Some s' → s' = s.
Proof.
  intros (_ & _ & Ea & _). revert s Ea. induction l as [|fin l IH]; intros s Ea; [by intros [= <-]|].
  rewrite iterate_cons. destruct (paint_second ntk fork_outs nd s fin) as [s1|] eqn:E1; [|done].
  cbn [mbind option_bind]. intros E. assert (s1 = s) as ->; [|by apply IH]. revert E1. unfold paint_second.
  destruct (input_behind ntk fin); [|done]. rewrite Ea. cbn. rewrite !andb_false_r. by intros [= <-].
Qed.

(** The loop over the fanins of a fanout node that the output [i] meets. *)
Lemma waiting_second i s l s' :
  (i = 0 ∨ i = 1) → waiting i s → iterate (paint_second ntk fork_outs nd) s l = Some s' →
  if existsb (meets_input ntk nd) l then decided (1 - i) i WithFork s' else waiting i s'.
Proof.
  intros Hi. revert s. induction l as [|fin l IH]; intros s Hs; [by intros [= <-]|].
  rewrite iterate_cons. destruct (paint_second ntk fork_outs nd s fin) as [s1|] eqn:E1; [|done].
  cbn [mbind option_bind existsb]. intros E. unfold paint_second in E1. unfold meets_input at 1.
  destruct (input_behind ntk fin) as [x|]; [|done]. cbn [mbind option_bind] in E1.
  pose proof Hs as (_ & _ & Ea & _). rewrite Ea in E1. simpl in E1. rewrite andb_true_r in E1.
  destruct (is_ci ntk x && negb (x =? nd)); simpl.
  - apply (paint_both_decides i WithFork) in E1; [|done..]. by rewrite (decided_second _ _ _ _ _ _ E1 E).
  - injection E1 as <-. by apply (IH s).
Qed.

Lemma waiting_fanin i n s fi s' :
  (i = 0 ∨ i = 1) → vec_at [a; b] i = Some n → fi ∈ foreach_fanin ntk n → waiting i s →
  paint_fanin fanout_size ntk fork_outs nd s fi = Some s' →
  match meets nd fi with None => waiting i s' | Some m => decided (1 - i) i m s' end.
Proof.
  intros Hi Hn Hfi Hs. unfold paint_fanin. set (s1 := if is_inv ntk _ then _ else s).
  assert (n = a ∨ n = b) as Hnab by (destruct Hi as [->| ->]; injection Hn as <-; auto).
  assert (waiting i s1) as Hs1.
  { unfold s1. destruct (is_inv ntk (get_node ntk fi)) eqn:Einv; [|done]. destruct Hs as (T & Ei & Ea & Hnp).
    pose proof (paint_output_advances ntk (ctn s) (get_node ntk fi) (color_east (ctn s)) T (or_introl eq_refl)) as [T' _].
    split_and!; [done|done|done|]. intros e He. cbn. unfold painted.
    rewrite ecolor_paint_output by apply T. rewrite decide_False; [by apply Hnp|]. intros [He' _]. revert He'.
    apply other_target; [| |done]; intros <-;
      [destruct (fork_plain _ _ _ Hfork a) as (? & _)|destruct (fork_plain _ _ _ Hfork b) as (? & _)]; auto; congruence. }
  clearbody s1. clear Hs s. unfold meets. destruct (input_behind ntk fi) as [x|] eqn:Ex; [|done].
  cbn [mbind option_bind]. simpl (negb (po_flag _)). rewrite andb_true_r.
  destruct (_ && _); [|destruct (_ && _)].
  - intros E. apply (waiting_second i) in E; [|done..]. by destruct (existsb _ _).
  - unfold paint_partner. simpl. pose proof Hs1 as (_ & _ & Ea & _). rewrite Ea.
    by apply (paint_both_decides i WithInput).
  - destruct (fork_plain _ _ _ Hfork n Hnab) as (_ & _ & Hm). rewrite (Hm fi x Hfi Ex). by intros [= <-].
Qed.

(** The loop over the fanins of the output [i]. *)
Lemma waiting_fanins i n s l s' :
  (i = 0 ∨ i = 1) → vec_at [a; b] i = Some n → (∀ fi, fi ∈ l → fi ∈ foreach_fanin ntk n) → waiting i s →
  iterate (paint_fanin fanout_size ntk fork_outs nd) s l = Some s' →
  match head (omap (meets nd) l) with None => waiting i s' | Some m => decided (1 - i) i m s' end.
Proof.
  intros Hi Hn. revert s. induction l as [|fi l IH]; intros s Hl Hs; [by intros [= <-]|].
  rewrite iterate_cons. destruct (paint_fanin _ ntk fork_outs nd s fi) as [s1|] eqn:E1; [|done].
  cbn [mbind option_bind]. apply (waiting_fanin i n) in E1; [|done|done|apply Hl; by left|done].
  simpl. destruct (meets nd fi) as [m|]; simpl.
  - apply (iterate_preserves (decided (1 - i) i m)); [|done]. intros ????. by apply decided_fanin.
  - apply IH; [intros; apply Hl; by right|done].
Qed.

Lemma decided_fanins j i m s l s' :
  decided j i m s → iterate (paint_fanin fanout_size ntk fork_outs nd) s l = Some s' → decided j i m s'.
Proof. intros Hs. apply (iterate_preserves (decided j i m)); [|done]. intros ????. by apply decided_fanin. Qed.

Lemma no_self_loop n : n ∈ Networks.foreach_node ntk → n ∉ fanin_nodes ntk n.
Proof.
  intros (l1 & l2 & E & Hn)%list_elem_of_split_l Hin. by apply (foreach_node_topological l1 n l2) in Hin.
Qed.

Lemma fork_starts c :
  tidy c → (∀ e, outer e → ¬ painted c e) → waiting 0 (LoopState (paint_fanins ntk c fon (color_east c)) 0 false).
Proof.
  intros T Hnp. pose proof (paint_fanins_advances ntk c fon (color_east c) T (or_introl eq_refl)) as [T' _].
  split; [done|split; [done|split; [done|]]]. intros e He. unfold painted. cbn [ctn].
  rewrite ecolor_paint_fanins by apply T. rewrite decide_False; [by apply Hnp|]. intros [He' _]. revert He'.
  assert (∀ n, n = a ∨ n = b → fon ≠ n) as Hne.
  { intros n Hn ->. assert (n ∈ foreach_fanout ntk n) as Hin by (rewrite (fork_outputs _ _ _ Hfork); set_solver).
    apply foreach_fanout_converse in Hin as [H1 H2]. by apply (no_self_loop n). }
  apply other_target; auto.
Qed.

Lemma decided_outputs steps j i m s s' :
  decided j i m s → paint_outputs fanout_size steps ntk fork_outs nd s = Some (Some s') →
  tidy (ctn s') ∧ colored_as i (meeting_colors (ctn s') m) (ctn s').
Proof.
  revert j s. induction steps as [|steps IH]; intros j s Hs; [done|]. simpl.
  destruct (_ <? _); [|intros [= <-]; split; apply Hs].
  destruct (vec_at _ _) as [out|]; [|done]. cbn [mbind option_bind].
  destruct (iterate _ s _) as [s1|] eqn:E1; [|done]. apply (decided_fanins j i m) in E1; [|done].
  apply (IH (j + 1)). destruct E1 as (T & E & Ea & Hc). split; [done|split; [|done]]. cbn. by rewrite E.
Qed.

(** One output. *)
Lemma paint_outputs_at i n steps s s' :
  (i = 0 ∨ i = 1) → vec_at [a; b] i = Some n → waiting i s →
  paint_outputs fanout_size (S steps) ntk fork_outs nd s = Some (Some s') →
  match first_meeting nd n with
  | Some m => tidy (ctn s') ∧ colored_as i (meeting_colors (ctn s') m) (ctn s')
  | None => ∃ s1, waiting (i + 1) s1 ∧ paint_outputs fanout_size steps ntk fork_outs nd s1 = Some (Some s')
  end.
Proof.
  intros Hi Hn Hs. pose proof Hs as (_ & Ei & _). cbn [paint_outputs fork_outs new_output_node]. rewrite Ei, Hn.
  rewrite (proj2 (Z.ltb_lt _ _)) by (simpl; lia). cbn [mbind option_bind].
  destruct (iterate _ s _) as [s1|] eqn:E1; [|done]. apply (waiting_fanins i n) in E1; [|done..].
  unfold first_meeting. destruct (head _) as [m|].
  - apply (decided_outputs _ (1 - i + 1)). destruct E1 as (T & E & Ea & Hc). split; [done|split; [|done]].
    cbn. by rewrite E.
  - intros E. eexists. split; [|exact E]. destruct E1 as (T & E1 & Ea & Hc). split; [done|split; [|done]]. cbn. by rewrite E1.
Qed.

(** The fanin edges of the outputs of the fork after it has been processed. *)
Lemma color_fork c c' :
  tidy c → (∀ e, outer e → ¬ painted c e) → color_fanout fanout_size ntk nd c fon = Some c' →
  match fork_colors c nd a b with
  | Some colors =>
      (∀ e, e ∈ fanin_edges ntk a → ecolor c' e = colors.1) ∧ (∀ e, e ∈ fanin_edges ntk b → ecolor c' e = colors.2)
  | None => ∀ e, outer e → ¬ painted c' e
  end.
Proof.
  intros T Hnp. unfold color_fanout. rewrite collect_fork. pose proof (fork_starts c T Hnp) as Hs.
  set (c1 := paint_fanins ntk c fon (color_east c)) in *.
  pose proof (paint_fanins_advances ntk c fon (color_east c) T (or_introl eq_refl)) as [_ [KE KS _]].
  change (output_steps fork_outs) with 4%nat.
  destruct (paint_outputs fanout_size 4 ntk fork_outs nd (LoopState c1 0 false)) as [[s|]|] eqn:E; [|done..].
  cbn. intros [= <-].
  pose proof (paint_outputs_advances ntk fanout_size _ _ _ _ _ (proj1 Hs) E) as [_ [KE' KS' _]].
  assert (∀ m, meeting_colors (ctn s) m = meeting_colors c m) as Em
    by (intros m; unfold meeting_colors; by rewrite KE', KS', <-KE, <-KS).
  apply (paint_outputs_at 0 a) in E; [|by auto|done|done]. unfold fork_colors.
  destruct (first_meeting nd a) as [m|]; [rewrite <-Em; apply E|].
  destruct E as (s1 & Hs1 & E). apply (paint_outputs_at 1 b) in E; [|by auto|done|done].
  destruct (first_meeting nd b) as [m|]; [rewrite <-Em; destruct E as [_ [H1 H2]]; by split|].
  destruct E as (s2 & Hs2 & E). cbn [paint_outputs] in E. destruct Hs2 as (_ & Ei & _ & Hnp2). rewrite Ei in E. cbn in E.
  injection E as <-. exact Hnp2.
Qed.
End Fork.

(** ** The second phase *)

(** The edges that are connected to [e] through uncolored edges. *)
Definition region c e : edge → Prop := rtc (λ f g, adjacent ntk f g ∧ ¬ painted c g) e.

(** [k] is proper on the region of [e]: opposite for common sources, equal for common targets. *)
Definition proper_on_region c e (k : edge → Z) : Prop :=
  ∀ f g, region c e f → adjacent ntk f g → ¬ painted c g → compatible c k f g.

Lemma region_unpainted c e f : ¬ painted c e → region c e f → ¬ painted c f.
Proof. intros He Hf. apply rtc_inv_r in Hf as [<-|(g & _ & _ & ?)]; done. Qed.

Lemma loop_preserves (P : coloring_container → Prop) fuel e clr es c c' :
  (∀ c e clr c', P c → recursively_paint_edges fuel ntk c e clr = Some c' → P c') → P c →
  paint_loop ntk fuel e clr es (Some c) = Some c' → P c'.
Proof.
  intros Hp. revert c. induction es as [|f es IH]; intros c Hc; simpl; [by intros [= <-]|].
  destruct (edge_neqb f e); [|by apply IH].
  destruct (recursively_paint_edges fuel ntk c f clr) as [c1|] eqn:E; [by eapply IH, Hp|].
  intros E'. exfalso. revert E'. clear. unfold paint_loop. induction es as [|f' es IH]; [done|exact IH].
Qed.

(** Painting recursively keeps the colors there are. *)
Lemma recursion_keeps fuel clr f :
  clr ≠ color_null → ∀ c e clr' c', ecolor c f = clr →
  recursively_paint_edges fuel ntk c e clr' = Some c' → ecolor c' f = clr.
Proof.
  intros Hclr. induction fuel as [|fuel IH]; intros c e clr' c' Hf; [done|].
  destruct (decide (painted c e)) as [He|He]; [rewrite paint_painted by done; by intros [= <-]|].
  rewrite paint_unfold by done. destruct (paint_loop ntk fuel e _ _ _) as [c1|] eqn:E1; [|done]. simpl. intros E.
  apply (loop_preserves (λ c, ecolor c f = clr)) in E; [done|exact IH|].
  apply (loop_preserves (λ c, ecolor c f = clr)) in E1; [done|exact IH|].
  rewrite ecolor_paint_one. case_decide as Hef; [|done]. subst e. destruct He. unfold painted. congruence.
Qed.

Lemma recursion_paints fuel c e clr c' :
  ¬ painted c e → clr ≠ color_null → recursively_paint_edges fuel ntk c e clr = Some c' → ecolor c' e = clr.
Proof.
  intros He Hclr. destruct fuel as [|fuel]; [done|]. rewrite paint_unfold by done.
  destruct (paint_loop ntk fuel e _ _ _) as [c1|] eqn:E1; [|done]. simpl. intros E.
  apply (loop_preserves (λ c, ecolor c e = clr)) in E; [done|by apply recursion_keeps|].
  apply (loop_preserves (λ c, ecolor c e = clr)) in E1; [done|by apply recursion_keeps|].
  by rewrite ecolor_paint_one, decide_True.
Qed.

Lemma paint_region fuel c e clr :
  tidy c → e ∈ all_edges ntk → ¬ painted c e → valid_color c clr → (base.size (all_edges ntk) < fuel)%nat →
  ∃ c', recursively_paint_edges fuel ntk c e clr = Some c' ∧ advances c c' ∧
    (∀ n, ncolor c' n = ncolor c n) ∧
    (∀ f, painted c' f ↔ painted c f ∨ region c e f) ∧
    ecolor c' e = clr ∧
    ∀ k, proper_on_region c e k → k e = clr → ∀ f, region c e f → ecolor c' f = k f.
Proof.
  intros Hc He Hne Hv Hfuel.
  set (Q := λ f clr', painted c f ∨ (region c e f ∧ ∀ k, proper_on_region c e k → k e = clr → clr' = k f)).
  destruct (paint_recursively ntk fanout_size fuel c e clr) as (c1 & E & Ha & _ & Hn); [done..|].
  destruct (paint_correct_all ntk Q fuel c e clr) as (c2 & E2 & [_ _ _ _ Hnew Hclosed] & Hpe);
    [apply Hc| |done|done|right; split; [apply rtc_refl|done]| |].
  - intros f clr' g Hf [Hf'|[Hreg Hk]] Hfe Hge Hfg; [done|]. unfold Q.
    destruct (decide (painted c g)) as [Hg|Hg]; [split; intros _; by left|].
    assert (∀ P : Prop, (g.1 = f.1 ∨ g.2 = f.2) → (adjacent ntk f g → P) → P) as Hadj
      by (intros P ? HP; by apply HP).
    split; intros Eg.
    + apply Hadj; [by left|]. intros Hfg'. right. split; [by eapply rtc_r|]. intros k Hp Hke.
      rewrite (Hk k Hp Hke). symmetry. by apply (Hp f g).
    + apply Hadj; [by right|]. intros Hfg'. right. split; [by eapply rtc_r|]. intros k Hp Hke.
      rewrite (Hk k Hp Hke). symmetry. by apply (Hp f g).
  - enough (base.size (unpainted ntk c) <= base.size (all_edges ntk))%nat by lia.
    apply subseteq_size. intros f. unfold unpainted. rewrite elem_of_filter. tauto.
  - assert (c2 = c1) as -> by congruence. clear E2. exists c1. split_and!; [done..| | |].
    + intros f. split.
      * intros Hf. destruct (decide (painted c f)) as [|Hnf]; [by left|].
        destruct (Hnew f Hf Hnf) as [_ [?|[? _]]]; auto.
      * intros [Hf|Hf]; [by eapply keeps_painted; [apply Ha|]|].
        assert (¬ painted c f ∧ painted c1 f) as [_ ?]; [|done]. revert Hf. unfold region.
        revert f. refine (rtc_ind_r (λ f, ¬ painted c f ∧ painted c1 f) e _ _); [done|].
        intros f g _ [Hfg Hg] [Hf1 Hf2]. split; [done|]. by eapply Hclosed.
    + eapply recursion_paints; [done|by eapply valid_painted; [apply Hc|]|done].
    + intros k Hp Hke f Hf. pose proof (region_unpainted c e f Hne Hf) as Hnf.
      assert (painted c1 f) as Hf1.
      { revert Hf. clear -Hne Hpe Hclosed. revert f.
        enough (∀ f, region c e f → ¬ painted c f ∧ painted c1 f) as Hi by (intros f Hf; by apply Hi).
        refine (rtc_ind_r (λ f, ¬ painted c f ∧ painted c1 f) e _ _); [done|].
        intros f g _ [Hfg Hg] [Hf1 Hf2]. split; [done|]. by eapply Hclosed. }
      destruct (Hnew f Hf1 Hnf) as [_ [?|[_ Hk]]]; [done|]. by apply Hk.
Qed.

(** The color for the uncolored fanin edges of a gate: east where a fanin edge is east. *)
Definition gate_choice c n : Z :=
  if decide (Exists (λ e, ecolor c e = color_east c) (fanin_edges ntk n)) then color_east c else color_south c.

Definition first_unpainted c (es : list edge) : option edge := head (filter (λ e, ecolor c e = color_null) es).

(** What coloring the gate [n] does: the region of its first uncolored fanin edge is colored, from the
    chosen color, and properly where that is possible; the gate gets the common color of its fanin edges. *)
Record gate_step c n c' : Prop := {
  step_keeps : keeps c c';
  step_region :
    match first_unpainted c (fanin_edges ntk n) with
    | None => ∀ f, ecolor c' f = ecolor c f
    | Some e =>
        (∀ f, painted c' f ↔ painted c f ∨ region c e f) ∧ ecolor c' e = gate_choice c n ∧
        ∀ k, proper_on_region c e k → k e = gate_choice c n → ∀ f, region c e f → ecolor c' f = k f
    end;
  step_fanins : fanins_painted ntk c' n;
  step_node m : ncolor c' m =
    if decide (m = n ∧ gate_color ntk c' n ≠ color_null) then gate_color ntk c' n else ncolor c m;
}.

Inductive gate_steps : list Z → coloring_container → coloring_container → Prop :=
  | no_steps c : gate_steps [] c c
  | next_step n ns c1 c2 c3 : gate_step c1 n c2 → gate_steps ns c2 c3 → gate_steps (n :: ns) c1 c3.

Lemma painted_loop fuel clr es c :
  (0 < fuel)%nat → (∀ e, e ∈ es → painted c e) →
  foldl (λ o fe, c ← o; recursively_paint_edges fuel ntk c fe clr) (Some c) es = Some c.
Proof.
  destruct fuel as [|fuel]; [lia|]. intros _. induction es as [|e es IH]; intros Hes; [done|].
  cbn [foldl mbind option_bind]. rewrite paint_painted by (apply Hes; by left). apply IH. intros f Hf. apply Hes. by right.
Qed.

Lemma gate_choice_code c n :
  (if existsb (λ fe, edge_color (color_ntk c) fe =? color_east c) (fanin_edges ntk n)
   then color_east c else color_south c) = gate_choice c n.
Proof.
  unfold gate_choice. destruct (existsb _ _) eqn:E; case_decide as Hex; try done; exfalso.
  - apply Hex, Exists_exists. apply existsb_exists in E as (e & He & Ee%Z.eqb_eq). exists e. split; [|done].
    by apply list_elem_of_In.
  - apply Exists_exists in Hex as (e & He & Ee). apply not_true_iff_false in E. apply E, existsb_exists.
    exists e. split; [by apply list_elem_of_In|by apply Z.eqb_eq].
Qed.

Lemma first_unpainted_split c es :
  match first_unpainted c es with
  | None => ∀ e, e ∈ es → painted c e
  | Some e => ∃ es1 es2, es = es1 ++ e :: es2 ∧ (∀ f, f ∈ es1 → painted c f) ∧ ¬ painted c e
  end.
Proof.
  unfold first_unpainted. induction es as [|e es IH]; simpl; [intros e He; by apply not_elem_of_nil in He|].
  rewrite filter_cons. case_decide as He; simpl.
  - exists [], es. split_and!; [done| |by unfold painted; intros ?]. intros f Hf. by apply not_elem_of_nil in Hf.
  - destruct (head _) as [e1|].
    + destruct IH as (es1 & es2 & -> & H1 & H2). exists (e :: es1), es2. split_and!; [done| |done].
      intros f [->|Hf]%elem_of_cons; auto.
    + intros f [->|Hf]%elem_of_cons; auto.
Qed.

Lemma color_gate_step fuel c n :
  tidy c → n ∈ Networks.foreach_node ntk → (base.size (all_edges ntk) < fuel)%nat →
  ∃ c', color_gate fuel ntk c n = Some c' ∧ tidy c' ∧ gate_step c n c'.
Proof.
  intros Hc Hn Hfuel.
  destruct (color_gate_advances ntk fanout_size fuel c n) as (c' & E & [T K] & Hp & Hnode); [done..|].
  exists c'. split_and!; [done..|]. split; [done| |done|done].
  unfold color_gate in E. rewrite gate_choice_code in E. set (clr := gate_choice c n) in *.
  assert (valid_color c clr) as Hv by (unfold clr, gate_choice; destruct (decide _); [by left|by right]).
  destruct (foldl _ _ _) as [c1|] eqn:E1; [|done]. simpl in E.
  assert (∀ f, ecolor c' f = ecolor c1 f) as Hsame by (injection E as <-; intros f; repeat case_match; done).
  clear E. pose proof (first_unpainted_split c (fanin_edges ntk n)) as Hfirst.
  destruct (first_unpainted c (fanin_edges ntk n)) as [e|].
  2: { rewrite painted_loop in E1; [by injection E1 as <-|lia|done]. }
  destruct Hfirst as (es1 & es2 & Ees & H1 & He).
  assert (∀ f, f ∈ fanin_edges ntk n → f ∈ all_edges ntk ∧ f.2 = n) as Hedges.
  { intros f Hf. split; [by eapply fanin_edges_all|]. by apply elem_of_fanin_edges in Hf as [? _]. }
  rewrite Ees in E1, Hedges. rewrite foldl_app, (painted_loop fuel clr es1 c ltac:(lia) H1) in E1. cbn [foldl mbind option_bind] in E1.
  destruct (paint_region fuel c e clr) as (c2 & E2 & [T2 K2] & _ & Hp2 & He2 & Hk); [done|set_solver|done..|].
  rewrite E2 in E1. rewrite painted_loop in E1; [injection E1 as <-|lia|].
  - split_and!; [|by rewrite Hsame|]; intros; unfold painted; rewrite Hsame; [apply Hp2|by apply Hk].
  - intros f Hf. apply Hp2. destruct (decide (painted c f)) as [|Hnf]; [by left|right].
    destruct (decide (e = f)) as [<-|Hne]; [apply rtc_refl|]. apply rtc_once. split; [|done].
    split; [done|]. destruct (Hedges e) as [_ E2e]; [set_solver|]. destruct (Hedges f) as [Hf1 Ef]; [set_solver|].
    split; [done|]. right. congruence.
Qed.

Lemma color_gates_steps fuel gs c :
  tidy c → (∀ n, n ∈ gs → n ∈ Networks.foreach_node ntk) → (base.size (all_edges ntk) < fuel)%nat →
  ∃ c', iterate (color_gate fuel ntk) c gs = Some c' ∧ gate_steps gs c c'.
Proof.
  intros Hc Hgs Hfuel. revert c Hc. induction gs as [|n gs IH]; intros c Hc; [exists c; split; [done|constructor]|].
  rewrite iterate_cons. destruct (color_gate_step fuel c n) as (c1 & -> & T & Hs); [done|apply Hgs; by left|done|].
  cbn [mbind option_bind]. destruct (IH ltac:(intros; apply Hgs; by right) c1 T) as (c2 & -> & H2).
  exists c2. split; [done|by econstructor].
Qed.
(** ** Both phases *)

(** The gates of the second phase: all nodes but the first ones, in reverse order. *)
Definition reversed_gates : list Z := reverse (drop (Z.to_nat (offset ntk)) (Networks.foreach_node ntk)).

Lemma reversed_gates_defined :
  offset ntk <= Z.of_nat (length (Networks.foreach_node ntk)) →
  reverse_foreach_gate ntk (Networks.foreach_node ntk) = Some reversed_gates.
Proof.
  intros Ho. assert (0 <= offset ntk) by (apply (wrap_width 32); lia).
  unfold reverse_foreach_gate, reverse_order, vec_range. rewrite length_reverse, decide_True by lia.
  f_equal. unfold reversed_gates. rewrite drop_0, reverse_drop. f_equal. lia.
Qed.

Lemma steps_keep gs c c' : gate_steps gs c c' → keeps c c'.
Proof. induction 1 as [|n ns c1 c2 c3 Hs _ IH]; [by split|]. etrans; [apply (step_keeps _ _ _ Hs)|done]. Qed.

End Phases.
End Phases.
