(* ===== verification/NewColoringExamples.v ===== *)
(** * The conditional coloring on netlists

    A multiplexer, a fork and majority gates, on which the theorems of [NewColoringProperties.v] and
    [NewColoringPhases.v] are applied, and a network on which the coloring behind the inputs leaves a vector. *)

From S2P Require Import Prelude.
From S2P Require Import GateLevelLayout.
From S2P Require Import MockturtleModel.
From S2P Require Import Networks.
From S2P Require Import PlacementUtils.
From S2P Require Import NetworkModel.
From S2P Require Import EdgeColoring.
From S2P Require Import EdgeColoringProperties.
From S2P Require Import TopoViewInputSort.
From S2P Require Import TopoViewModel.
From S2P Require Import InputSortView.
From S2P Require Import NewColoring.
From S2P Require Import NewColoringProperties.
From S2P Require Import NewColoringPhases.
#[local] Open Scope Z_scope.
Import Networks EdgeColoring Painting Netlists MapColors TopoView SortedNetlists InputSort NewColoring Phases.

Module ColoredNetlists.

#[local] Instance mux_laws : NetworkLaws mux.
Proof. by apply netlist_laws. Qed.

Definition mux_inputs : coloring_container :=
  default new_coloring_container (color_inputs netlist_fanout_size mux new_coloring_container).

(** The gates behind the fanout node of the select input are painted first (color 1 is east). *)
Example mux_colors :
  ncolor mux_inputs <$> [5; 6; 7; 8; 9] = [1; 1; 2; 2; 0] ∧
  (λ c, ncolor c <$> [5; 6; 7; 8; 9]) <$> new_east_south_edge_coloring netlist_fanout_size 9 mux =
    Some [1; 1; 2; 2; 2].
Proof. split; vm_compute; reflexivity. Qed.

(** The first input forks into two AND gates, which meet the other inputs. *)
Definition forked : netlist := Netlist 3 [(Buf, [2]); (And, [5; 3]); (And, [5; 4]); (Or, [6; 7])] [8] [] [].

#[local] Instance forked_laws : NetworkLaws forked.
Proof. by apply netlist_laws. Qed.

Lemma forked_ready : inputs_ready forked netlist_fanout_size.
Proof. apply inputs_ready_by. vm_compute. reflexivity. Qed.

Lemma forked_fork : fork forked netlist_fanout_size 5 6 7.
Proof.
  split; [vm_compute; repeat split; discriminate|reflexivity|discriminate|].
  intros n Hn. split; [by destruct Hn as [->| ->]|]. split; [by destruct Hn as [->| ->]|]. intros fi x Hfi Hx.
  assert (fi ∈ [5; 3; 4]) as Hin by (destruct Hn as [->| ->]; change (fi ∈ [5; 3]) in Hfi || change (fi ∈ [5; 4]) in Hfi; set_solver).
  repeat (apply elem_of_cons in Hin as [->|Hin]; [by injection Hx as <-|]). by apply not_elem_of_nil in Hin.
Qed.

Lemma forked_size : (base.size (all_edges forked) < 9)%nat.
Proof. vm_compute. lia. Qed.


(** An input meets the output 6 of the fanout node 4, whose other output is an inverter without fanouts:
    the loop reads the vector of one output at index 1. *)
Definition inverted_output : netlist := Netlist 2 [(Buf, [2]); (Inv, [4]); (And, [4; 3])] [5; 6] [] [].

Example missing_output :
  color_inputs netlist_fanout_size inverted_output new_coloring_container = None.
Proof. vm_compute. reflexivity. Qed.

(** ** Delays *)

(** The fanins of gate 8 are behind one, one and no majority gate. *)
Definition majorities : netlist := Netlist 4 [(Maj, [2; 3; 4]); (And, [6; 5]); (Maj, [6; 7; 2])] [8] [] [].

#[local] Instance majorities_laws : NetworkLaws majorities.
Proof. by apply netlist_laws. Qed.

Example majority_delays :
  majority_buffer 9 majorities 7 = Some [0; 1] ∧ majority_buffer 9 majorities 8 = Some [0; 0; 1].
Proof. split; vm_compute; reflexivity. Qed.

Lemma majority_buffer_balances_witness :
  ∃ delays, majority_buffer 9 majorities 8 = Some delays ∧ length delays = 3%nat ∧ 0 ∈ delays.
Proof.
  destruct (majority_buffer_balances majorities 8) as (ks & E & ds & m & Hds & Hks & H0).
  - apply list_elem_of_In. vm_compute. auto 12.
  - exists ks. split; [exact E|]. apply Forall2_length in Hds, Hks.
    change (length (container_nodes (fanins majorities 8))) with 3%nat in Hds. rewrite <-Hks, <-Hds.
    split; [reflexivity|]. apply H0. intros ->. simpl in Hks. congruence.
Defined.

End ColoredNetlists.
