(* ===== verification/OrderingNetwork.v ===== *)
(** * Orthogonal physical design with ordered inputs
      (include/fiction/algorithms/physical_design/ortho_ordering_network.hpp)

    The run of [orthogonal_ordering_network_impl] on a network in the order of [topo_view_input_sort]:
    the conditional coloring ([NewColoring.v]), the two loops that repair it, the placement of the nodes
    on a layout that grows, and the outputs at its eastern border. Signals of the network are its nodes, as
    they are in technology networks. The statistics, variables that are not read and assertions are left
    out. *)

From S2P Require Import Prelude.
From S2P Require Import Coordinates.
From S2P Require Import CoordinateLayout.
From S2P Require Import CartesianLayout.
From S2P Require Import ClockingScheme.
From S2P Require Import ClockedLayout.
From S2P Require Import GateLevelLayout.
From S2P Require Import Networks.
From S2P Require Import EdgeColoring.
From S2P Require Import PlacementUtils.
From S2P Require Import Orthogonal.
From S2P Require Import TopoViewInputSort.
From S2P Require Import NewColoring.
#[local] Open Scope Z_scope.
Import Offset.
Import Networks EdgeColoring Placement TopoView NewColoring.
Import Orthogonal(base, next_column, next_row, wire_east, wire_south, connect_and_place_1,
  connect_and_place_2, next_output_name, design_result, Designed, HighDegreeFanin).

Module OrderingNetwork.

Section Ordering.
Context `{MT : GateLevel.Mockturtle} `{HC : ColorView}.
Context `{HN : Network Ntk} `{HG : !GateNetwork Ntk} `{HS : !SequentialNetwork Ntk}.
(** The size of fanouts, and the members of the topological view. *)
Context (fanout_size : Ntk → Z → Z) (isFo_inv_flag : Ntk → bool) (isFo_inv_flag_num : Ntk → Z).

Abbreviation layout := (GateLevel.gate_level_layout Cartesian.cartesian_layout).
Implicit Types (ntk : Ntk) (ctn : coloring_container) (n : Z) (l : layout).

Definition contains (ns : list Z) n : bool := existsb (Z.eqb n) ns.

(** [foreach_po]: the nodes that have been there before. *)
Definition multi_out_nodes ntk : list Z :=
  (foldl (λ '(my_out_nodes, multi) po,
      (my_out_nodes ++ [po], if contains my_out_nodes po then multi ++ [po] else multi))
    ([], []) (Networks.foreach_po ntk)).2.

(** ** Recoloring *)

Definition repaint ctn n (clr : Z) : coloring_container := set_color_ntk (paint (color_ntk ctn) n clr) ctn.

(** [std::all_of] and [std::any_of] over the fanouts. *)
Definition all_colored ctn (fos : list Z) (clr : Z) : bool :=
  forallb (λ fo, node_color (color_ntk ctn) fo =? clr) fos.
Definition any_colored ctn (fos : list Z) (clr : Z) : bool :=
  existsb (λ fo, node_color (color_ntk ctn) fo =? clr) fos.

(** The second fanout of a fanout node, where there are two. *)
Definition second_fanout ntk pre : option Z :=
  match fanouts ntk pre with
  | _ :: fo :: _ => if is_fanout ntk pre then Some fo else None
  | _ => None
  end.

(** Where all fanouts have the same color, the second one gets the other color, or none if it has been
    recolored before. The container and [recolored_fanouts]. *)
Definition recolor_fanout ntk pre1 (r : coloring_container * list Z) pre : coloring_container * list Z :=
  match second_fanout ntk pre with
  | None => r
  | Some fo =>
      let fos := fanouts ntk pre in
      let '(ctn, recolored) :=
        let '(ctn, recolored) := r in
        if all_colored ctn fos (color_south ctn) then
          if contains recolored fo then (repaint ctn fo color_null, recolored)
          else (repaint ctn fo (color_east ctn), recolored ++ [fo])
        else r in
      if all_colored ctn fos (color_east ctn) then
        if negb (contains recolored fo) && negb (is_ci ntk pre1)
        then (repaint ctn fo (color_south ctn), recolored ++ [fo])
        else (repaint ctn fo color_null, recolored)
      else (ctn, recolored)
  end.

(** Where they still have the same color, the second one gets none. *)
Definition clear_fanout ntk ctn pre : coloring_container :=
  match second_fanout ntk pre with
  | None => ctn
  | Some fo =>
      let fos := fanouts ntk pre in
      let ctn := if all_colored ctn fos (color_south ctn) then repaint ctn fo color_null else ctn in
      if all_colored ctn fos (color_east ctn) then repaint ctn fo color_null else ctn
  end.

(** The first loop over the nodes. *)
Definition recolor_node ntk (r : coloring_container * list Z) n : coloring_container * list Z :=
  match container_nodes (fanins ntk n) with
  | [pre1; pre2] =>
      let r := recolor_fanout ntk pre1 (recolor_fanout ntk pre1 r pre1) pre2 in
      (clear_fanout ntk (clear_fanout ntk r.1 pre1) pre2, r.2)
  | _ => r
  end.

(** The second loop: a node with one fanin and without color takes the color of its sibling. *)
Definition switch_colors ntk ctn n : option coloring_container :=
  match container_nodes (fanins ntk n) with
  | [fanout_node] =>
      if node_color (color_ntk ctn) n =? color_null then
        let fos := fanouts ntk fanout_node in
        fo_0 ← vec_at fos 0;
        fo_1 ← vec_at fos 1;
        let clr_fo_0 := node_color (color_ntk ctn) fo_0 in
        let clr_fo_1 := node_color (color_ntk ctn) fo_1 in
        let ctn := if clr_fo_0 =? color_null
                   then repaint (repaint ctn fo_1 color_null) fo_0 clr_fo_1 else ctn in
        Some (if clr_fo_1 =? color_null
              then repaint (repaint ctn fo_0 color_null) fo_1 clr_fo_0 else ctn)
      else Some ctn
  | _ => Some ctn
  end.

Definition recolor ntk ctn : option coloring_container :=
  iterate (switch_colors ntk) (foldl (recolor_node ntk) (ctn, []) (Networks.foreach_node ntk)).1
    (Networks.foreach_node ntk).

(** ** Placement *)

(** The variables of the loop over the nodes. *)
Record ordering_state := OrderingState {
  lyt : layout;
  node2pos : gmap Z Z;
  latest_pos : ucoord_t;
  latest_pos_inputs : ucoord_t;
  insert_position_inv : Z;
}.

(** [node2pos[n]], as a tile. *)
Definition position (s : ordering_state) n : ucoord_t := of_uint64 (map_at (node2pos s) n).

Definition placed (s : ordering_state) n (r : layout * Z) (p : ucoord_t) : ordering_state :=
  OrderingState r.1 (<[n := r.2]> (node2pos s)) p (latest_pos_inputs s) (insert_position_inv s).

(** An input is moved to the next row of the first column. *)
Definition place_input (pi2node : gmap Z Z) (s : ordering_state) n : option ordering_state :=
  '(l, sig) ← GateLevel.move_node (lyt s) (map_at pi2node n) (latest_pos_inputs s) [];
  Some (OrderingState l (<[n := sig]> (node2pos s)) (latest_pos s) (next_row (latest_pos_inputs s))
          (insert_position_inv s)).

(** The column of a gate with one fanin: inverters behind inputs have columns of their own, for which
    [latest_pos] has been moved in advance. *)
Definition insert_column ntk (s : ordering_state) n pre : Z * ordering_state :=
  let p := latest_pos s in
  if isFo_inv_flag ntk && is_inv ntk n && is_pi ntk pre
  then (insert_position_inv s,
        OrderingState (lyt s) (node2pos s) (set_x p (ux p - 1)) (latest_pos_inputs s)
          (insert_position_inv s + 1))
  else (ux p, s).

(** A gate with one fanin. *)
Definition place_single ntk ctn (s : ordering_state) n pre : option ordering_state :=
  let pre_t := position s pre in
  let clr := node_color (color_ntk ctn) n in
  if clr =? color_east ctn then
    let '(insert_position, s) := insert_column ntk s n pre in
    let p := if is_fanout ntk n && is_pi ntk pre then next_row (latest_pos s) else latest_pos s in
    r ← connect_and_place_1 (lyt s) (ucoord2 insert_position (uy pre_t)) ntk n pre_t;
    Some (placed s n r (next_column p))
  else if clr =? color_south ctn then
    let p := latest_pos s in
    let '(t, p) :=
      if (is_inv ntk n || is_fanout ntk n) && (uy p <? uy (latest_pos_inputs s))
      then let t := ucoord2 (ux pre_t) (uy (latest_pos_inputs s)) in (t, set_y p (uy t + 1))
      else (ucoord2 (ux pre_t) (uy p), next_row p) in
    r ← connect_and_place_1 (lyt s) t ntk n pre_t;
    Some (placed s n r p)
  else Some s.

(** A gate with two fanins that is colored east. *)
Definition place_east ntk (s : ordering_state) n (pre1_t pre2_t : ucoord_t) (c : option bool) :
    option ordering_state :=
  let p := latest_pos s in
  let '(pre1_t, pre2_t) := if uy pre2_t <? uy pre1_t then (pre2_t, pre1_t) else (pre1_t, pre2_t) in
  let t := ucoord2 (ux p) (uy pre2_t) in
  '(l, a) ← wire_east (lyt s) pre1_t (ucoord2 (ux t + 1) (uy pre1_t));
  let p := next_column p in
  let p := if uy p <? uy (latest_pos_inputs s) then set_y p (uy t + 1) else p in
  r ← connect_and_place_2 l t ntk n (of_uint64 a) pre2_t c;
  Some (placed s n r p).

(** A wire from an input to a new column. *)
Definition lead_east (lead : bool) l (pre_t p : ucoord_t) : option (layout * ucoord_t * ucoord_t) :=
  if lead then
    '(l, a) ← wire_east l pre_t (ucoord2 (ux p + 1) (uy pre_t)); Some (l, of_uint64 a, next_column p)
  else Some (l, pre_t, p).

(** [pre1_t], [pre2_t] and [pre_fo]; [pre2_t] is to be the westwards tile. *)
Definition westwards_last pre1 (r : ucoord_t * ucoord_t * Z) : ucoord_t * ucoord_t * Z :=
  let '(pre1_t, pre2_t, pre_fo) := r in
  if ux pre1_t <? ux pre2_t then (pre2_t, pre1_t, pre1) else r.

(** [new_south]. *)
Definition wires_south ntk (r : ucoord_t * ucoord_t * Z) : bool :=
  let '(pre1_t, pre2_t, pre_fo) := r in (uy pre1_t <? uy pre2_t) && negb (is_fanout ntk pre_fo).

(** A gate with two fanins that is colored south: in the row of [pre2_t] where this is possible. *)
Definition place_south ntk (s : ordering_state) n pre1 pre2 (c : option bool) : option ordering_state :=
  let '(pre1_t, pre2_t, pre_fo) := westwards_last pre1 (position s pre1, position s pre2, pre2) in
  let new_south := wires_south ntk (pre1_t, pre2_t, pre_fo) in
  '(l, pre2_t, p) ← lead_east (is_pi ntk pre2 && negb new_south) (lyt s) pre2_t (latest_pos s);
  '(l, pre1_t, p) ← lead_east (is_pi ntk pre1 && negb new_south) l pre1_t p;
  let '(pre1_t, pre2_t, pre_fo) := westwards_last pre1 (pre1_t, pre2_t, pre_fo) in
  if wires_south ntk (pre1_t, pre2_t, pre_fo) then
    let '(t, p) := if ux pre2_t =? ux pre1_t then (ucoord2 (ux p) (uy pre2_t), next_column p)
                   else (ucoord2 (ux pre1_t) (uy pre2_t), p) in
    let p := if uy p <? uy pre2_t + 1 then set_y p (uy pre2_t + 1) else p in
    r ← connect_and_place_2 l t ntk n pre1_t pre2_t c;
    Some (placed s n r p)
  else
    let '(t, p) :=
      if uy p <? uy (latest_pos_inputs s)
      then let t := ucoord2 (ux pre1_t) (uy (latest_pos_inputs s)) in (t, set_y p (uy t + 1))
      else (ucoord2 (ux pre1_t) (uy p), next_row p) in
    '(l, a) ← wire_south l pre2_t (ucoord2 (ux pre2_t) (uy t + 1));
    r ← connect_and_place_2 l t ntk n pre1_t (of_uint64 a) c;
    Some (placed s n r p).

(** A gate with two fanins without color: both wires are bent. *)
Definition place_null ntk ctn (s : ordering_state) n pre1 pre2 (c : option bool) : option ordering_state :=
  let pre1_t := position s pre1 in
  let pre2_t := position s pre2 in
  let t := latest_pos s in
  let color_pre pre :=
    if any_colored ctn (fanouts ntk pre) (color_east ctn) then color_south ctn else color_east ctn in
  '(l, a1, a2) ←
    (if (color_pre pre1 =? color_east ctn) && (color_pre pre2 =? color_south ctn) then
       '(l, a1) ← wire_east (lyt s) pre1_t (ucoord2 (ux t + 1) (uy pre1_t));
       '(l, a2) ← wire_south l pre2_t (ucoord2 (ux pre2_t) (uy t + 1)); Some (l, a1, a2)
     else
       '(l, a1) ← wire_south (lyt s) pre1_t (ucoord2 (ux pre1_t) (uy t + 1));
       '(l, a2) ← wire_east l pre2_t (ucoord2 (ux t + 1) (uy pre2_t)); Some (l, a1, a2));
  r ← connect_and_place_2 l t ntk n (of_uint64 a1) (of_uint64 a2) c;
  Some (placed s n r (next_row (next_column t))).

(** A gate with two fanins, or with three of which one is constant. *)
Definition place_double ntk ctn (s : ordering_state) n pre1 pre2 (c : option bool) :
    option ordering_state :=
  let clr := node_color (color_ntk ctn) n in
  if clr =? color_east ctn then place_east ntk s n (position s pre1) (position s pre2) c
  else if clr =? color_south ctn then place_south ntk s n pre1 pre2 c
  else place_null ntk ctn s n pre1 pre2 c.

(** A row for an output that cannot be placed to the east. *)
Definition reserve_row ntk ctn (s : ordering_state) n : ordering_state :=
  if is_po ntk n &&
     (negb (is_eastern_po_orientation_available ntk ctn n) || contains (multi_out_nodes ntk) n)
  then OrderingState (lyt s) (node2pos s) (next_row (latest_pos s)) (latest_pos_inputs s)
         (insert_position_inv s)
  else s.

(** The functor of the third loop. *)
Definition place_node ntk ctn (pi2node : gmap Z Z) (s : ordering_state) n : option ordering_state :=
  if is_constant ntk n then Some s
  else
    s ← (if is_pi ntk n then place_input pi2node s n
         else
           let fc := fanins ntk n in
           match container_nodes fc with
           | [pre] => place_single ntk ctn s n pre
           | pre1 :: pre2 :: _ => place_double ntk ctn s n pre1 pre2 (constant_fanin fc)
           | [] => None
           end);
    Some (reserve_row ntk ctn s n).

(** ** Outputs *)

(** [layout.resize]. *)
Definition resize l (ar : ucoord_t) : layout :=
  let cl := GateLevel.clocked l in
  GateLevel.GateLevelLayout
    (Clocked.ClockedLayout (Cartesian.resize (Clocked.coordinate_layout cl) ar) (Clocked.clocking cl))
    (GateLevel.strg l) (GateLevel.sequential_inf l).

(** The variables of the loop over the outputs. *)
Record output_state := OutputState {
  out_lyt : layout;
  out_nodes : list Z;
  multi_out_node : bool;
  po_counter : Z;
}.

(** An output east of its node, or at the eastern border of that row or of the row below. *)
Definition place_output ntk ctn (s : ordering_state) (o : output_state) po : option output_state :=
  let n_s := map_at (node2pos s) po in
  let multi := contains (out_nodes o) po || multi_out_node o in
  '(l, a) ←
    (if is_eastern_po_orientation_available ntk ctn po && negb multi then Some (out_lyt o, n_s)
     else
       let po_tile := of_uint64 n_s in
       wire_south (out_lyt o) po_tile (ucoord2 (ux po_tile) (uy po_tile + 2)));
  let po_tile := of_uint64 a in
  let l := resize l (ucoord3 (ux (latest_pos s)) (uy (latest_pos s) - 1) 1) in
  let name := next_output_name ntk (po_counter o) in
  let result l multi := OutputState l (out_nodes o ++ [po]) multi (wrap 32 (po_counter o + 1)) in
  if Cartesian.is_at_eastern_border (base l) (ucoord2 (ux po_tile + 1) (uy po_tile)) && negb multi then
    '(l, _) ← GateLevel.create_po l n_s name (set_x po_tile (ux po_tile + 1));
    Some (result l multi)
  else
    let border := Cartesian.eastern_border_of (base l) po_tile in
    '(l, a) ← wire_east l po_tile border;
    '(l, _) ← GateLevel.create_po l a name border;
    Some (result l false).

(** ** [run] *)

(** The layout with its reserved inputs, and the state before the loop. *)
Definition initial_state ntk (phases : num_clks) : option (ordering_state * gmap Z Z) :=
  l ← GateLevel.make
        (Clocked.make Cartesian.make (ucoord3 1 1 1) (twoddwave_clocking Cartesian.max_fanin_size phases)) "";
  '(l, pi2node) ← reserve_input_nodes l ntk;
  let p := ucoord2 1 0 in
  let p := if isFo_inv_flag ntk then set_x p (ux p + isFo_inv_flag_num ntk) else p in
  Some (OrderingState l ∅ p (ucoord2 0 0) 1, pi2node).

(** The layout that [run] makes of the network [ntk], the ordered one. *)
Definition design (fuel : nat) ntk (phases : num_clks) : option layout :=
  ctn ← new_east_south_edge_coloring fanout_size fuel ntk;
  '(s, pi2node) ← initial_state ntk phases;
  ctn ← recolor ntk ctn;
  s ← iterate (place_node ntk ctn pi2node) s (Networks.foreach_node ntk);
  o ← iterate (place_output ntk ctn s) (OutputState (lyt s) [] false 0) (Networks.foreach_po ntk);
  restore_names ntk (out_lyt o) (node2pos s).

(** [crossing_count]: the wires in the upper layer, for at most [tiles] tiles. *)
Definition crossing_count (tiles : nat) l : option Z :=
  ts ← Cartesian.visited tiles (Cartesian.coordinates (base l) ucoord_default ucoord_default);
  iterate (λ count t,
      w ← GateLevel.is_wire (GateLevel.strg l) (GateLevel.get_node_at (GateLevel.strg l) t);
      Some (if (w : bool) && (uz t =? 1) then count + 1 else count)) 0 ts.

(** [run], which prints the number of crossings. *)
Definition run (tiles fuel : nat) ntk (phases : num_clks) : option layout :=
  l ← design fuel ntk phases;
  _ ← crossing_count tiles l;
  Some l.

(** [orthogonal_ordering_network]; [transform] stands for the fanout substitution, the balancing of
    inverters and the ordering of the inputs. *)
Definition orthogonal_ordering_network {Src} `{Network Src} (transform : Src → Ntk) (tiles fuel : nat)
    (src : Src) (phases : num_clks) : design_result :=
  if has_high_degree_fanin_nodes src 2 then HighDegreeFanin
  else Designed (run tiles fuel (transform src) phases).

End Ordering.
End OrderingNetwork.
