(* ===== verification/OrderingProperties.v ===== *)
(** * Theorems on orthogonal physical design with ordered inputs

    Module [Ordered] follows the run of [OrderingNetwork.v]: recoloring stays within its vectors, and
    every step of the placement moves the next free column and row by a bounded number, so that the
    tiles of all wires and gates are known to be representable before the layout has its size. *)

From S2P Require Import Prelude.
From S2P Require Import Coordinates.
From S2P Require Import CoordinateLayout.
From S2P Require Import CartesianLayout.
From S2P Require Import ClockingScheme.
From S2P Require Import ClockedLayout.
From S2P Require Import GateLevelLayout.
From S2P Require Import GateLevelInvariant.
From S2P Require Import Networks.
From S2P Require Import PlacementUtils.
From S2P Require Import EdgeColoring.
From S2P Require Import EdgeColoringProperties.
From S2P Require Import Orthogonal.
From S2P Require Import LayoutBuilding.
From S2P Require Import OrthogonalProperties.
From S2P Require Import TopoViewInputSort.
From S2P Require Import TopoViewProperties.
From S2P Require Import NewColoring.
From S2P Require Import NewColoringProperties.
From S2P Require Import NewColoringPhases.
From S2P Require Import OrderingNetwork.
#[local] Open Scope Z_scope.
Import Offset.

Module Ordered.
Import Building Names Routing Painting Design.
Import Networks EdgeColoring Placement Orthogonal TopoView NewColoring Phases OrderingNetwork.

Abbreviation layout := (GateLevel.gate_level_layout Cartesian.cartesian_layout).

(** ** Tiles with small coordinates *)

(** Both coordinates are at most [k]. *)
Abbreviation upto k := (within k k).
Abbreviation signal_upto k := (signal_within k k).

Lemma within_mono k k' t : k <= k' → upto k t → upto k' t.
Proof. intros Hk (Ht & ? & ?). split; [done|lia]. Qed.

Lemma signal_mono k k' a : k <= k' → signal_upto k a → signal_upto k' a.
Proof. apply within_mono. Qed.

Lemma next_column_upto k p :
  upto k p → k + 1 < 2 ^ 31 →
  upto (k + 1) (next_column p) ∧ ux (next_column p) = ux p + 1 ∧ uy (next_column p) = uy p.
Proof.
  intros [(Hd & Hz & Hy & Hx) ?] Hk. unfold in_width in *.
  assert (ux (next_column p) = ux p + 1) as E by (apply wrap_small; unfold in_width; lia).
  split_and!; [|done|done]. split; [|rewrite E; simpl; lia].
  split_and!; [done..|by apply wrap_width].
Qed.

Lemma next_row_upto k p :
  upto k p → k + 1 < 2 ^ 31 →
  upto (k + 1) (next_row p) ∧ ux (next_row p) = ux p ∧ uy (next_row p) = uy p + 1.
Proof.
  intros [(Hd & Hz & Hy & Hx) ?] Hk. unfold in_width in *.
  assert (uy (next_row p) = uy p + 1) as E by (apply wrap_small; unfold in_width; lia).
  split_and!; [|done|done]. split; [|rewrite E; simpl; lia].
  split_and!; [done..|by apply wrap_width|done].
Qed.

Lemma set_y_upto k p y :
  upto k p → 0 <= y <= k → k < 2 ^ 31 → upto k (set_y p y) ∧ ux (set_y p y) = ux p ∧ uy (set_y p y) = y.
Proof.
  intros [(Hd & Hz & Hy & Hx) ?] Hk Hlt. unfold in_width in *.
  assert (uy (set_y p y) = y) as E by (apply wrap_small; unfold in_width; lia).
  split_and!; [|done|done]. split; [|rewrite E; simpl; lia].
  split_and!; [done..|by apply wrap_width|done].
Qed.

(** ** Steps of the placement *)

Section Steps.
Context `{HM : GateLevel.MockturtleLaws} `{HC : ColorView}.
Context `{HN : Network Ntk} `{HG : !GateNetwork Ntk} `{HS : !SequentialNetwork Ntk} (ntk : Ntk).
Context (isFo_inv_flag : Ntk → bool).
Implicit Types (l : layout) (s : ordering_state) (p t : ucoord_t) (k : Z).

(** Everything has been placed in the columns and rows up to [k]. *)
Record ordering_ok k s : Prop := {
  ok_wf : layout_wf (lyt s);
  ok_latest : upto k (latest_pos s) ∧ 1 <= ux (latest_pos s);
  ok_inputs : upto k (latest_pos_inputs s) ∧ is_dead (latest_pos_inputs s) = false;
  ok_insert : 1 <= insert_position_inv s <= k;
  ok_positions n : signal_upto k (map_at (node2pos s) n);
}.

(** With at most [c] new nodes on the layout [l], the step leads to a state up to [k]. *)
Definition reaches c k l (r : option ordering_state) : Prop :=
  layout_wf l → num_nodes l + c <= 2 ^ 32 →
  ∃ s, r = Some s ∧ builds c 0 l (lyt s) ∧ ordering_ok k s.

Lemma ordering_ok_mono k k' s : k <= k' → ordering_ok k s → ordering_ok k' s.
Proof.
  intros Hk [Hw [Hp Hx] [Hi Hd] Hins Hpos]. split; [done| | |lia|].
  - split; [by apply (within_mono k)|done].
  - split; [by apply (within_mono k)|done].
  - intros n. by apply (signal_mono k).
Qed.

Lemma reaches_weaken c c' k l r : c <= c' → reaches c k l r → reaches c' k l r.
Proof.
  intros Hc Hr Hl Hsz. destruct Hr as (s & -> & Hb & Hs); [done|lia|]. exists s.
  split_and!; [done|by eapply builds_weaken|done].
Qed.

Lemma reaches_bind j c1 c2 k l m (f : layout * Z → option ordering_state) :
  makes j j c1 l m → (∀ l' a, signal_upto j a → reaches c2 k l' (f (l', a))) → 0 <= c2 →
  reaches (c1 + c2) k l (m ≫= f).
Proof.
  intros Hm Hf Hc Hl Hsz. destruct Hm as (l1 & a & -> & Hb1 & Ha); [done|lia|]. simpl.
  pose proof (builds_size _ _ _ _ Hb1). destruct (Hf l1 a Ha) as (s & -> & Hb & Hs); [apply Hb1|lia|].
  exists s. split_and!; [done| |done]. eapply builds_seq; [exact Hb1|exact Hb|lia].
Qed.

Lemma reaches_bind_2 j c1 c2 c3 k l m (g : layout → Z → option (layout * Z))
    (f : layout * Z * Z → option ordering_state) :
  makes j j c1 l m → (∀ l a, makes j j c2 l (g l a)) → 0 <= c2 → 0 <= c3 →
  (∀ l a b, signal_upto j a → signal_upto j b → reaches c3 k l (f (l, a, b))) →
  reaches (c1 + (c2 + c3)) k l (('(l, a) ← m; '(l, b) ← g l a; Some (l, a, b)) ≫= f).
Proof.
  intros Hm Hg Hc2 Hc3 Hf.
  assert (('(l, a) ← m; '(l, b) ← g l a; Some (l, a, b)) ≫= f =
    m ≫= λ r, g r.1 r.2 ≫= λ r', f (r'.1, r.2, r'.2)) as ->.
  { destruct m as [[l1 a]|]; [|done]. simpl. by destruct (g l1 a) as [[]|]. }
  apply reaches_bind with (j := j); [done| |lia]. intros l1 a Ha.
  apply reaches_bind with (j := j); [apply Hg| |done]. intros l2 b Hb. by apply Hf.
Qed.

(** A node that is placed. *)
Lemma reaches_placed j k c l r s n p :
  ordering_ok j s → j <= k → makes k k c l r → upto k p → 1 <= ux p →
  reaches c k l (r ← r; Some (placed s n r p)).
Proof.
  intros [Hw Hp Hi Hins Hpos] Hk Hr Hup Hx Hl Hsz. destruct Hr as (l1 & a & -> & Hb & Ha); [done|done|].
  simpl. eexists. split_and!; [done|done|]. split; simpl; [apply Hb|done| |lia|].
  - destruct Hi as [Hi Hd]. split; [by apply (within_mono j)|done].
  - intros m. rewrite map_at_insert. case_decide; [done|by apply (signal_mono j)].
Qed.

Lemma position_upto k s n : ordering_ok k s → upto k (position s n).
Proof. intros Hs. apply Hs. Qed.

Lemma coordinates_upto k t : upto k t → 0 <= ux t <= k ∧ 0 <= uy t <= k.
Proof. apply within_bounds. Qed.

Lemma upto_2 k x y : 0 <= x <= k → 0 <= y <= k → k < 2 ^ 31 - 1 → upto k (ucoord2 x y).
Proof. intros. apply within_2; lia. Qed.

(** *** Inputs *)

Lemma place_input_reaches k pi2node s n :
  ordering_ok k s → k + 1 < 2 ^ 31 → 2 <= map_at pi2node n < num_nodes (lyt s) →
  reaches 0 (k + 1) (lyt s) (place_input pi2node s n).
Proof.
  intros Hs Hk Hn Hl Hsz. unfold place_input. destruct Hs as [Hw [Hp Hx] [Hi Hd] Hins Hpos].
  destruct (move_node_builds (lyt s) (map_at pi2node n) (latest_pos_inputs s)) as (l & -> & Hb);
    [done|apply Hi|done|by rewrite Hd|]. simpl.
  eexists. split_and!; [done|done|]. destruct (next_row_upto k _ Hi Hk) as (Hi' & _ & _).
  split; simpl; [apply Hb| | |lia|].
  - split; [by apply (within_mono k); [lia|]|done].
  - done.
  - intros m. rewrite map_at_insert. case_decide; [apply tile_signal_within|apply (signal_mono k); [lia|done]].
    by apply (within_mono k); [lia|].
Qed.

(** *** One fanin *)

Lemma place_single_reaches k ctn s n pre :
  ordering_ok k s → k + 2 < 2 ^ 31 - 1 →
  reaches (2 * k + 7) (k + 2) (lyt s) (place_single isFo_inv_flag ntk ctn s n pre).
Proof.
  intros Hs Hk. pose proof (position_upto k s pre Hs) as Hpre. pose proof (coordinates_upto _ _ Hpre) as [Hpx Hpy].
  pose proof (ok_latest _ _ Hs) as [Hp Hx]. pose proof (coordinates_upto _ _ Hp).
  pose proof (ok_inputs _ _ Hs) as [Hi _]. pose proof (coordinates_upto _ _ Hi).
  pose proof (ok_insert _ _ Hs) as Hins.
  assert (upto (k + 2) (position s pre)) as Hpre' by (by apply (within_mono k); [lia|]).
  unfold place_single. destruct (_ =? color_east ctn); [|destruct (_ =? color_south ctn)].
  - assert (∃ c s', insert_column isFo_inv_flag ntk s n pre = (c, s') ∧ 0 <= c <= k ∧ lyt s' = lyt s ∧
      ordering_ok (k + 2) (OrderingState (lyt s') (node2pos s') (latest_pos s) (latest_pos_inputs s')
        (insert_position_inv s')) ∧ upto k (latest_pos s')) as (c & s' & -> & Hc & El & Hs' & Hp').
    { unfold insert_column. destruct (_ && _).
      - eexists _, _. split; [done|]. simpl. split; [lia|]. split; [done|]. split.
        + apply (ordering_ok_mono k) with (k' := k + 2) in Hs; [|lia]. destruct Hs. split; try done; simpl; lia.
        + destruct Hp as [(Hd & Hz & Hy & Hxw) ?]. unfold in_width in *.
          assert (ux (set_x (latest_pos s) (ux (latest_pos s) - 1)) = ux (latest_pos s) - 1) as E
            by (apply wrap_small; unfold in_width; lia).
          split; [by split_and!; [..|apply wrap_width]|rewrite E; simpl; lia].
      - eexists _, _. split; [done|]. split; [lia|]. split; [done|]. split; [|done].
        apply (ordering_ok_mono k) with (k' := k + 2) in Hs; [|lia]. by destruct Hs, s. }
    set (q := if _ && _ then _ else _).
    assert (upto (k + 1) q) as Hq.
    { unfold q. destruct (_ && _); [apply next_row_upto; [done|lia]|by apply (within_mono k); [lia|]]. }
    destruct (next_column_upto (k + 1) q Hq) as (Hq' & Hqx & _); [lia|].
    pose proof (coordinates_upto _ _ Hq). replace (k + 1 + 1) with (k + 2) in Hq' by lia.
    destruct s' as [l2 m2 p2 i2 c2].
    cbn [lyt node2pos latest_pos latest_pos_inputs insert_position_inv] in *. subst l2.
    apply (reaches_placed (k + 2) (k + 2) _ _ _ (OrderingState (lyt s) m2 (latest_pos s) i2 c2));
      [done|lia| |done|lia].
    eapply makes_weaken; [|apply connect_and_place_1_makes; [lia|lia|apply upto_2; lia|done]]. lia.
  - set (q := if _ && _ then _ else _).
    assert (upto (k + 2) q.1 ∧ upto (k + 2) q.2 ∧ 1 <= ux q.2) as (Ht & Hq & Hqx).
    { unfold q. destruct (_ && _); cbn [fst snd].
      - rewrite uy_ucoord2 by lia. destruct (set_y_upto (k + 2) (latest_pos s) (uy (latest_pos_inputs s) + 1))
          as (Hup & -> & _); [by apply (within_mono k); [lia|]|lia|lia|].
        split_and!; [apply upto_2; lia|done|done].
      - destruct (next_row_upto k (latest_pos s)) as (Hup & E & _); [done|lia|]. rewrite E.
        split_and!; [apply upto_2; lia|by apply (within_mono (k + 1)); [lia|]|done]. }
    destruct q as [t p]. cbn [fst snd] in *. apply (reaches_placed k); [done|lia| |done|done].
    eapply makes_weaken; [|apply connect_and_place_1_makes; [lia|lia|done|done]]. lia.
  - intros Hl Hsz. exists s. split_and!; [done|by apply (builds_weaken 0); [lia|apply builds_refl]|].
    by apply (ordering_ok_mono k); [lia|].
Qed.
(** *** Two fanins *)

Lemma connect_2_makes j k l t n pre1_t pre2_t c :
  j <= k → 0 <= k < 2 ^ 31 - 1 → upto j t → upto k pre1_t → upto k pre2_t → majority_with_constant ntk n c →
  makes k k (2 * k + 3) l (connect_and_place_2 l t ntk n pre1_t pre2_t c).
Proof.
  intros Hj Hk Ht H1 H2 Hc. eapply makes_weaken; [|apply connect_and_place_2_makes; try done].
  - lia.
  - by apply (within_mono j).
Qed.

Lemma bend_east k l src x :
  0 <= k < 2 ^ 31 - 1 → upto k src → 0 <= x <= k + 1 →
  makes k k (k + 1) l (wire_east l src (ucoord2 x (uy src))).
Proof.
  intros Hk Hsrc Hx. apply wire_east_makes; [lia|lia|done|]. rewrite ux_ucoord2; lia.
Qed.

Lemma bend_south k l src y :
  0 <= k < 2 ^ 31 - 1 → upto k src → 0 <= y <= k + 1 →
  makes k k (k + 1) l (wire_south l src (ucoord2 (ux src) y)).
Proof.
  intros Hk Hsrc Hy. apply wire_south_makes; [lia|lia|done|]. rewrite uy_ucoord2; lia.
Qed.

Lemma place_east_reaches k s n pre1_t pre2_t c :
  ordering_ok k s → k + 1 < 2 ^ 31 - 1 → upto k pre1_t → upto k pre2_t → majority_with_constant ntk n c →
  reaches (3 * k + 7) (k + 1) (lyt s) (place_east ntk s n pre1_t pre2_t c).
Proof.
  intros Hs Hk Hpre1 Hpre2 Hc. pose proof (ok_latest _ _ Hs) as [Hp Hx]. pose proof (coordinates_upto _ _ Hp).
  unfold place_east. destruct (if uy pre2_t <? uy pre1_t then _ else _) as [u v] eqn:E.
  assert (upto k u ∧ upto k v) as [Hu Hv] by (by case_match; simplify_eq).
  pose proof (coordinates_upto _ _ Hu). pose proof (coordinates_upto _ _ Hv). cbv zeta.
  rewrite ux_ucoord2, uy_ucoord2 by lia.
  apply (reaches_weaken ((k + 1 + 1) + (2 * (k + 1) + 3))); [lia|].
  apply reaches_bind with (j := k + 1); [apply bend_east; [lia|by apply (within_mono k); [lia|]|lia]| |lia].
  intros l a Ha. destruct (next_column_upto k _ Hp) as (Hp' & Ex & _); [lia|].
  apply (reaches_placed k); [done|lia| | |].
  - apply (connect_2_makes k); [lia|lia|apply upto_2; lia|done|by apply (within_mono k); [lia|]|done].
  - destruct (uy (next_column _) <? _); [|done]. apply set_y_upto; [done|lia|lia].
  - destruct (uy (next_column _) <? _); [|lia]. destruct (set_y_upto (k + 1) (next_column (latest_pos s)) (uy v + 1)) as (_ & -> & _);
      [done|lia..].
Qed.

(** A lead to the next column. *)
Lemma lead_east_reaches k c k' l b pre_t p (f : layout * ucoord_t * ucoord_t → option ordering_state) :
  0 <= k → k + 1 < 2 ^ 31 - 1 → upto k pre_t → upto k p → 1 <= ux p → 0 <= c →
  (∀ l' t p', upto k t → upto (k + 1) p' → 1 <= ux p' → uy p' = uy p → reaches c k' l' (f (l', t, p'))) →
  reaches (k + 1 + c) k' l (lead_east b l pre_t p ≫= f).
Proof.
  intros Hk0 Hk Ht Hp Hx Hc Hf. pose proof (coordinates_upto _ _ Hp). unfold lead_east. destruct b.
  - apply (reaches_weaken ((k + 1) + c)); [lia|].
    assert (('(l, a) ← wire_east l pre_t (ucoord2 (ux p + 1) (uy pre_t)); Some (l, of_uint64 a, next_column p))
      ≫= f = wire_east l pre_t (ucoord2 (ux p + 1) (uy pre_t)) ≫= λ r, f (r.1, of_uint64 r.2, next_column p)) as ->
      by (by destruct (wire_east _ _ _) as [[]|]).
    apply reaches_bind with (j := k); [apply bend_east; [lia|done|lia]| |done]. intros l' a Ha.
    destruct (next_column_upto k p) as (Hp' & Ex & Ey); [done|lia|]. apply Hf; [done|done|cbn [snd]; lia|done].
  - apply (reaches_weaken c); [lia|]. cbn [mbind option_bind].
    apply Hf; [done|by apply (within_mono k); [lia|]|done|done].
Qed.

Lemma westwards_last_upto k pre1 t u m t' u' m' :
  westwards_last pre1 (t, u, m) = (t', u', m') → upto k t → upto k u → upto k t' ∧ upto k u'.
Proof. unfold westwards_last. case_match; intros [= <- <- <-]; done. Qed.

Lemma place_south_reaches k s n pre1 pre2 c :
  ordering_ok k s → k + 3 < 2 ^ 31 - 1 → majority_with_constant ntk n c →
  reaches (5 * k + 16) (k + 3) (lyt s) (place_south ntk s n pre1 pre2 c).
Proof.
  intros Hs Hk Hc. pose proof (ok_latest _ _ Hs) as [Hp Hx]. pose proof (coordinates_upto _ _ Hp).
  pose proof (ok_inputs _ _ Hs) as [Hi _]. pose proof (coordinates_upto _ _ Hi).
  unfold place_south. destruct (westwards_last pre1 _) as [[t1 t2] m] eqn:E.
  apply (westwards_last_upto k) in E as [Ht1 Ht2]; [|by apply position_upto..]. cbv zeta.
  apply (reaches_weaken (k + 1 + ((k + 1) + 1 + ((k + 3 + 1) + (2 * (k + 3) + 3))))); [lia|].
  apply lead_east_reaches; [lia|lia|done|done|done|lia|]. intros l1 u2 p1 Hu2 Hp1 Hx1 Hy1. cbv iota.
  apply lead_east_reaches; [lia|lia|by apply (within_mono k); [lia|]|done|done|lia|].
  intros l2 u1 p2 Hu1 Hp2 Hx2 Hy2. cbv iota. replace (k + 1 + 1) with (k + 2) in Hp2 by lia.
  destruct (westwards_last pre1 _) as [[v1 v2] m'] eqn:E.
  apply (westwards_last_upto (k + 1)) in E as [Hv1 Hv2]; [|done|by apply (within_mono k); [lia|]].
  pose proof (coordinates_upto _ _ Hv1). pose proof (coordinates_upto _ _ Hv2). pose proof (coordinates_upto _ _ Hp2).
  assert (upto (k + 3) v1 ∧ upto (k + 3) v2 ∧ upto (k + 3) p2) as (Hv1' & Hv2' & Hp2').
  { split_and!; [apply (within_mono (k + 1))|apply (within_mono (k + 1))|apply (within_mono (k + 2))]; lia || done. }
  destruct (wires_south ntk _).
  - set (q := if ux v2 =? ux v1 then _ else _).
    assert (upto (k + 2) q.1 ∧ upto (k + 3) q.2 ∧ 1 <= ux q.2) as (Ht & Hq & Hqx).
    { unfold q. case_match; cbn [fst snd].
      - destruct (next_column_upto (k + 2) p2) as (Hup & Ex & _); [done|lia|].
        split_and!; [apply upto_2; lia|by apply (within_mono (k + 2 + 1)); [lia|]|lia].
      - split_and!; [apply upto_2; lia|done|done]. }
    destruct q as [t q]. cbn [fst snd] in *. apply (reaches_weaken (2 * (k + 3) + 3)); [lia|].
    apply (reaches_placed k); [done|lia|by apply (connect_2_makes (k + 2)); [lia|lia|..]| |].
    + case_match; [|done]. apply set_y_upto; [done|lia|lia].
    + case_match; [|done]. destruct (set_y_upto (k + 3) q (uy v2 + 1)) as (_ & -> & _); [done|lia|lia|done].
  - set (q := if uy p2 <? _ then _ else _).
    assert (upto (k + 2) q.1 ∧ 0 <= uy q.1 <= k + 2 ∧ upto (k + 3) q.2 ∧ 1 <= ux q.2) as (Ht & Hty & Hq & Hqx).
    { unfold q. case_match; cbn [fst snd].
      - rewrite uy_ucoord2 by lia. destruct (set_y_upto (k + 3) p2 (uy (latest_pos_inputs s) + 1)) as (Hup & -> & _);
          [done|lia|lia|]. split_and!; [apply upto_2; lia|lia|lia|done|done].
      - rewrite uy_ucoord2 by lia. destruct (next_row_upto (k + 2) p2) as (Hup & Ex & _); [done|lia|]. rewrite Ex.
        split_and!; [apply upto_2; lia|lia|lia|by apply (within_mono (k + 2 + 1)); [lia|]|done]. }
    destruct q as [t q]. cbn [fst snd] in *.
    apply reaches_bind with (j := k + 3); [by apply bend_south; [lia|done|lia]| |lia]. intros l3 a Ha. cbv iota.
    apply (reaches_placed k); [done|lia|by apply (connect_2_makes (k + 2)); [lia|lia|..]|done|done].
Qed.

Lemma place_null_reaches k ctn s n pre1 pre2 c :
  ordering_ok k s → k + 2 < 2 ^ 31 - 1 → majority_with_constant ntk n c →
  reaches (4 * k + 13) (k + 2) (lyt s) (place_null ntk ctn s n pre1 pre2 c).
Proof.
  intros Hs Hk Hc. pose proof (ok_latest _ _ Hs) as [Hp Hx]. pose proof (coordinates_upto _ _ Hp).
  assert (∀ m, upto (k + 2) (position s m)) as Hpos
    by (intros m; apply (within_mono k); [lia|by apply position_upto]).
  destruct (next_column_upto k (latest_pos s)) as (Hp1 & Ex & Ey); [done|lia|].
  destruct (next_row_upto (k + 1) (next_column (latest_pos s))) as (Hp2 & Ex2 & Ey2); [done|lia|].
  replace (k + 1 + 1) with (k + 2) in Hp2 by lia.
  assert (∀ l a b, signal_upto (k + 2) a → signal_upto (k + 2) b →
    reaches (2 * (k + 2) + 3) (k + 2) l
      (r ← connect_and_place_2 l (latest_pos s) ntk n (of_uint64 a) (of_uint64 b) c;
       Some (placed s n r (next_row (next_column (latest_pos s)))))) as Hlast.
  { intros l a b Ha Hb. apply (reaches_placed k); [done|lia|by apply (connect_2_makes k); [lia|lia|..]|done|lia]. }
  unfold place_null. cbv zeta.
  apply (reaches_weaken ((k + 2 + 1) + ((k + 2 + 1) + (2 * (k + 2) + 3)))); [lia|]. case_match.
  - apply reaches_bind_2 with (j := k + 2); [by apply bend_east; [lia|done|lia]| |lia|lia|done].
    intros l a. by apply bend_south; [lia|done|lia].
  - apply reaches_bind_2 with (j := k + 2); [by apply bend_south; [lia|done|lia]| |lia|lia|done].
    intros l a. by apply bend_east; [lia|done|lia].
Qed.
Lemma reaches_mono k k' c l r : k <= k' → reaches c k l r → reaches c k' l r.
Proof.
  intros Hk Hr Hl Hsz. destruct Hr as (s & -> & Hb & Hs); [done|done|]. exists s.
  split_and!; [done|done|by apply (ordering_ok_mono k)].
Qed.

Lemma place_double_reaches k ctn s n pre1 pre2 c :
  ordering_ok k s → k + 3 < 2 ^ 31 - 1 → majority_with_constant ntk n c →
  reaches (5 * k + 16) (k + 3) (lyt s) (place_double ntk ctn s n pre1 pre2 c).
Proof.
  intros Hs Hk Hc. pose proof (ok_insert _ _ Hs). unfold place_double.
  destruct (_ =? color_east ctn); [|destruct (_ =? color_south ctn)].
  - apply (reaches_weaken (3 * k + 7)), (reaches_mono (k + 1)); [lia|lia|].
    apply place_east_reaches; [done|lia|by apply position_upto..|done].
  - by apply place_south_reaches.
  - apply (reaches_weaken (4 * k + 13)), (reaches_mono (k + 2)); [lia|lia|].
    apply place_null_reaches; [done|lia|done].
Qed.

(** *** The loop *)

(** A gate has a fanin that is no constant, and a majority gate with several has a constant. *)
Definition supported n : Prop :=
  match container_nodes (fanins ntk n) with
  | [] => False
  | [_] => True
  | _ => majority_with_constant ntk n (constant_fanin (fanins ntk n))
  end.

(** A node takes at most four columns and rows. *)
Lemma place_node_reaches k ctn pi2node s n :
  ordering_ok k s → k + 4 < 2 ^ 31 - 1 →
  (is_pi ntk n = true → 2 <= map_at pi2node n < num_nodes (lyt s)) →
  (is_constant ntk n = false → is_pi ntk n = false → supported n) →
  reaches (5 * k + 16) (k + 4) (lyt s) (place_node isFo_inv_flag ntk ctn pi2node s n).
Proof.
  intros Hs Hk Hpi Hgate Hl Hsz. pose proof (ok_insert _ _ Hs). unfold place_node.
  destruct (is_constant ntk n).
  { exists s. split_and!; [done|by apply (builds_weaken 0); [lia|apply builds_refl]|].
    by apply (ordering_ok_mono k); [lia|]. }
  specialize (Hgate eq_refl). cbv zeta.
  set (r := if is_pi ntk n then place_input pi2node s n else _).
  assert (reaches (5 * k + 16) (k + 3) (lyt s) r) as Hr.
  { unfold r. destruct (is_pi ntk n).
    - apply (reaches_weaken 0), (reaches_mono (k + 1)); [lia|lia|].
      apply place_input_reaches; [done|lia|by apply Hpi].
    - specialize (Hgate eq_refl). unfold supported in Hgate.
      destruct (container_nodes (fanins ntk n)) as [|pre1 [|pre2 pres]]; [done| |].
      + apply (reaches_weaken (2 * k + 7)), (reaches_mono (k + 2)); [lia|lia|].
        apply place_single_reaches; [done|lia].
      + apply place_double_reaches; [done|lia|done]. }
  destruct Hr as (s1 & -> & Hb & Hs1); [done|done|]. cbn [mbind option_bind].
  eexists. split; [done|]. unfold reserve_row. destruct (_ && _); [|by split; [|apply (ordering_ok_mono (k + 3)); [lia|]]].
  split; [done|]. apply (ordering_ok_mono (k + 3) (k + 4)) in Hs1 as Hs2; [|lia].
  destruct Hs1 as [_ [Hp Hx] _ _ _], Hs2 as [Hw _ Hi Hins Hpos].
  destruct (next_row_upto (k + 3) _ Hp) as (Hp' & Ex & _); [lia|].
  replace (k + 3 + 1) with (k + 4) in Hp' by lia. by split.
Qed.

Lemma place_nodes_reach bound ctn pi2node ns : ∀ k s,
  ordering_ok k s → k + 4 * Z.of_nat (length ns) <= bound → bound < 2 ^ 31 - 1 →
  (∀ n, n ∈ ns → is_pi ntk n = true → 2 <= map_at pi2node n < num_nodes (lyt s)) →
  (∀ n, n ∈ ns → is_constant ntk n = false → is_pi ntk n = false → supported n) →
  reaches (Z.of_nat (length ns) * (5 * bound + 16)) bound (lyt s)
    (iterate (place_node isFo_inv_flag ntk ctn pi2node) s ns).
Proof.
  induction ns as [|n ns IH]; intros k s Hs Hk Hbound Hpi Hgate Hl Hsz.
  { exists s. split_and!; [done|by apply builds_refl|]. apply (ordering_ok_mono k); [cbn [length] in Hk; lia|done]. }
  cbn [length] in *. rewrite iterate_cons. pose proof (ok_insert _ _ Hs).
  destruct (place_node_reaches k ctn pi2node s n Hs) as (s1 & -> & Hb1 & Hs1);
    [lia|apply Hpi; by left|apply Hgate; by left|done|nia|]. cbn [mbind option_bind].
  pose proof (builds_size _ _ _ _ Hb1).
  destruct (IH (k + 4) s1 Hs1) as (s2 & -> & Hb2 & Hs2); [lia|done| | |apply Hb1|nia|].
  - intros m Hm Hp. destruct (Hpi m ltac:(by right) Hp). lia.
  - intros m Hm. apply Hgate. by right.
  - exists s2. split_and!; [done| |done]. eapply builds_seq; [exact Hb1|exact Hb2|nia].
Qed.
End Steps.

(** ** Outputs *)

Section Outputs.
Context `{HM : GateLevel.MockturtleLaws} `{HC : ColorView}.
Context `{HN : Network Ntk} `{HG : !GateNetwork Ntk} (ntk : Ntk).
Implicit Types (l : layout) (s : ordering_state) (t : ucoord_t) (k : Z).

Lemma create_buf_outputs l a t l' b :
  layout_wf l → wf t → num_nodes l < 2 ^ 32 → GateLevel.create_buf l a t = Some (l', b) →
  outputs_of l' = outputs_of l.
Proof.
  intros Hl Ht Hsz E. assert (allowed (CreateBuf a t) (abstract_layout l)) as Hal
    by (split; [done|by rewrite abstract_num_nodes]).
  destruct (exec_implements l (CreateBuf a t) Hl Hal) as (l1 & b1 & E1 & _ & Ha & _).
  simpl in E1. rewrite E in E1. simplify_eq. by apply (f_equal sp_outputs) in Ha.
Qed.

Lemma place_wires_outputs k ts : 0 <= k < 2 ^ 31 - 1 → ∀ l a l' b,
  layout_wf l → num_nodes l + Z.of_nat (length ts) <= 2 ^ 32 → Forall (upto k) ts → signal_upto k a →
  place_wires l a ts = Some (l', b) → outputs_of l' = outputs_of l.
Proof.
  intros Hk. induction ts as [|t ts IH]; intros l a l' b Hl Hsz Hts Ha; [by intros [= <- <-]|].
  apply Forall_cons in Hts as [Ht Hts]. rewrite place_wires_cons. cbn [length] in Hsz.
  assert (upto k (wire_tile l t)) as Hwt by (unfold wire_tile; case_match; [by apply above_within|done]).
  destruct (exec_makes k k Hk Hk (CreateBuf a (wire_tile l t)) (wire_tile l t) l) as (l1 & b1 & E & Hb & Hs1);
    [done|done|done|lia|]. simpl in E. change (place_wire l a t) with (GateLevel.create_buf l a (wire_tile l t)).
  rewrite E. cbn [mbind option_bind fst snd]. intros E2. pose proof (builds_size _ _ _ _ Hb).
  rewrite (IH l1 b1 l' b); [|apply Hb|lia|done|done|done].
  eapply create_buf_outputs; [done|apply Hwt|lia|done].
Qed.

(** Wires that leave the outputs as they are. *)
Lemma outputs_kept k m l r :
  makes k k m l r → (∀ l' b, layout_wf l → num_nodes l + m <= 2 ^ 32 → r = Some (l', b) → outputs_of l' = outputs_of l) →
  layout_wf l → num_nodes l + m <= 2 ^ 32 →
  ∃ l' b, r = Some (l', b) ∧ builds m 0 l l' ∧ signal_upto k b ∧ outputs_of l' = outputs_of l.
Proof.
  intros Hm Ho Hl Hsz. destruct (Hm Hl Hsz) as (l' & b & E & Hb & Ha). exists l', b. split_and!; [done..|by eapply Ho].
Qed.

Lemma wire_east_outputs k l src dest :
  0 <= k < 2 ^ 31 - 1 → upto k src → ux dest <= k + 1 → layout_wf l → num_nodes l + (k + 1) <= 2 ^ 32 →
  ∃ l' b, wire_east l src dest = Some (l', b) ∧ builds (k + 1) 0 l l' ∧ signal_upto k b ∧
    outputs_of l' = outputs_of l.
Proof.
  intros Hk Hsrc Hdest. apply outputs_kept; [by apply wire_east_makes|]. intros l' b Hl Hsz. unfold wire_east.
  pose proof (coordinates_upto _ _ Hsrc). apply (place_wires_outputs k); [done|done| | |by apply tile_signal_within].
  - unfold tiles_east. rewrite length_fmap, length_seqZ. lia.
  - apply Forall_fmap, Forall_forall. intros x Hx%elem_of_seqZ. apply within_2; lia.
Qed.

Lemma wire_south_outputs k l src dest :
  0 <= k < 2 ^ 31 - 1 → upto k src → uy dest <= k + 1 → layout_wf l → num_nodes l + (k + 1) <= 2 ^ 32 →
  ∃ l' b, wire_south l src dest = Some (l', b) ∧ builds (k + 1) 0 l l' ∧ signal_upto k b ∧
    outputs_of l' = outputs_of l.
Proof.
  intros Hk Hsrc Hdest. apply outputs_kept; [by apply wire_south_makes|]. intros l' b Hl Hsz. unfold wire_south.
  pose proof (coordinates_upto _ _ Hsrc). apply (place_wires_outputs k); [done|done| | |by apply tile_signal_within].
  - unfold tiles_south. rewrite length_fmap, length_seqZ. lia.
  - apply Forall_fmap, Forall_forall. intros y Hy%elem_of_seqZ. apply within_2; lia.
Qed.

Lemma create_po_outputs l a name t :
  layout_wf l → wf t → num_nodes l < 2 ^ 32 →
  ∃ l' b, GateLevel.create_po l a name t = Some (l', b) ∧ builds 1 1 l l' ∧
    ∀ o, o ∈ outputs_of l' → o ∈ outputs_of l ∨ o = to_uint64 t.
Proof.
  intros Hl Ht Hsz. destruct (create_po_builds l a name t) as (l' & b & E & Hb); [done..|].
  exists l', b. split_and!; [done|done|]. assert (allowed (CreatePo a name t) (abstract_layout l)) as Hal
    by (split; [done|by rewrite abstract_num_nodes]).
  destruct (exec_implements l (CreatePo a name t) Hl Hal) as (l1 & b1 & E1 & _ & Ha & _).
  simpl in E1. rewrite E in E1. simplify_eq. apply (f_equal sp_outputs) in Ha. cbn in Ha.
  unfold outputs_of. intros o. rewrite Ha, elem_of_app, elem_of_cons.
  pose proof (take_drop (Z.to_nat (GateLevel.inf_num_pos (GateLevel.sequential_inf l)))
    (GateLevel.outputs (GateLevel.strg l))) as Htd.
  intros Hin. rewrite <-Htd, elem_of_app. naive_solver.
Qed.

Lemma resize_wf l ar : layout_wf l → layout_wf (resize l ar).
Proof. intros []. by split. Qed.

(** The layout after [j] outputs, each of which takes at most [c] nodes. *)
Record outputs_ok c j s (o : output_state) : Prop := {
  oo_wf : layout_wf (out_lyt o);
  oo_size : num_nodes (lyt s) <= num_nodes (out_lyt o) <= num_nodes (lyt s) + j * c;
  oo_inputs : inputs_of (out_lyt o) = inputs_of (lyt s);
  oo_pis : GateLevel.num_pis (out_lyt o) = GateLevel.num_pis (lyt s);
  oo_pos : GateLevel.num_pos (out_lyt o) = GateLevel.num_pos (lyt s) + j;
  oo_clocking : Clocked.clocking (GateLevel.clocked (out_lyt o)) = Clocked.clocking (GateLevel.clocked (lyt s));
  oo_dimension : 0 < j → base (out_lyt o) =
    Cartesian.CartesianLayout (ucoord3 (ux (latest_pos s)) (uy (latest_pos s) - 1) 1);
  oo_border a : a ∈ outputs_of (out_lyt o) → ux (of_uint64 a) = ux (latest_pos s);
}.
(** An operation after the layout has its size. *)
Lemma outputs_ok_step c j s o l m po multi :
  outputs_ok c j s o → 0 <= j →
  (∃ l0, num_nodes (out_lyt o) <= num_nodes l0 <= num_nodes (out_lyt o) + m ∧ inputs_of l0 = inputs_of (out_lyt o) ∧
    GateLevel.num_pis l0 = GateLevel.num_pis (out_lyt o) ∧ GateLevel.num_pos l0 = GateLevel.num_pos (out_lyt o) ∧
    Clocked.clocking (GateLevel.clocked l0) = Clocked.clocking (GateLevel.clocked (out_lyt o)) ∧
    builds (c - m) 1 (resize l0 (ucoord3 (ux (latest_pos s)) (uy (latest_pos s) - 1) 1)) l) →
  (∀ a, a ∈ outputs_of l → ux (of_uint64 a) = ux (latest_pos s)) →
  outputs_ok c (j + 1) s (OutputState l (out_nodes o ++ [po]) multi (wrap 32 (po_counter o + 1))).
Proof.
  intros [Hw Hsz Hi Hpi Hpo Hc Hd Hb] Hj (l0 & Hn & Hi0 & Hpi0 & Hpo0 & Hc0 & [Hwf Hcl Hsz1 Hi1 Hpi1 Hpo1 _]) Hout.
  change (num_nodes (resize l0 _)) with (num_nodes l0) in Hsz1.
  change (inputs_of (resize l0 _)) with (inputs_of l0) in Hi1.
  change (GateLevel.num_pis (resize l0 _)) with (GateLevel.num_pis l0) in Hpi1.
  change (GateLevel.num_pos (resize l0 _)) with (GateLevel.num_pos l0) in Hpo1.
  split; cbn [out_lyt]; [done|lia|congruence|congruence|lia| | |done].
  - rewrite Hcl. cbn [resize GateLevel.clocked Clocked.clocking]. congruence.
  - intros _. unfold base. by rewrite Hcl.
Qed.

Lemma set_x_wf t v : wf t → wf (set_x t v).
Proof. intros (Hd & Hz & Hy & Hx). by split_and!; [..|apply wrap_width]. Qed.

(** The wire from a node to the row below, if there is one. *)
Lemma po_wire k l n_s (east : bool) :
  0 <= k → k + 2 < 2 ^ 31 - 1 → signal_upto k n_s → layout_wf l → num_nodes l + (k + 2) <= 2 ^ 32 →
  ∃ l' a, (if east then Some (l, n_s)
           else wire_south l (of_uint64 n_s) (ucoord2 (ux (of_uint64 n_s)) (uy (of_uint64 n_s) + 2))) = Some (l', a) ∧
    builds (k + 2) 0 l l' ∧ signal_upto (k + 1) a ∧ outputs_of l' = outputs_of l.
Proof.
  intros Hk0 Hk Hn Hl Hsz. pose proof (coordinates_upto _ _ Hn).
  apply (signal_mono k (k + 1)) in Hn; [|lia]. destruct east.
  - exists l, n_s. split_and!; [done|by apply (builds_weaken 0); [lia|apply builds_refl]|done|done].
  - destruct (wire_south_outputs (k + 1) l (of_uint64 n_s)
      (ucoord2 (ux (of_uint64 n_s)) (uy (of_uint64 n_s) + 2))) as (l' & a & E & Hb & Ha & Hout);
      [lia|done|rewrite uy_ucoord2; lia|done|lia|].
    exists l', a. split_and!; [done|by apply (builds_weaken (k + 1 + 1)); [lia|]|done|done].
Qed.

Lemma place_output_ok k ctn j s o po :
  ordering_ok k s → k + 2 < 2 ^ 31 - 1 → 0 <= j → outputs_ok (2 * k + 5) j s o →
  num_nodes (out_lyt o) + (2 * k + 5) <= 2 ^ 32 →
  ∃ o', place_output ntk ctn s o po = Some o' ∧ outputs_ok (2 * k + 5) (j + 1) s o'.
Proof.
  intros Hs Hk Hj Ho Hsz. pose proof (ok_latest _ _ Hs) as [Hp _]. pose proof (coordinates_upto _ _ Hp) as [Hpx _].
  pose proof (ok_positions _ _ Hs po) as Hn. pose proof (oo_wf _ _ _ _ Ho) as Hw.
  unfold place_output. cbv zeta. set (n_s := map_at (node2pos s) po) in *.
  set (multi := contains _ po || _).
  destruct (po_wire k (out_lyt o) n_s (is_eastern_po_orientation_available ntk ctn po && negb multi))
    as (l & a & -> & Hb & Ha & Hout); [lia|done|done|done|lia|].
  cbn [mbind option_bind]. set (D := ucoord3 _ _ 1). set (l1 := resize l D).
  pose proof Hb as [Hl Hcl Hlsz Hli Hlpi Hlpo _]. assert (layout_wf l1) as Hl1 by (by apply resize_wf).
  assert (Cartesian.x (base l1) = ux (latest_pos s)) as HX by (apply wrap_small; unfold in_width; lia).
  assert (num_nodes l1 = num_nodes l) as Hn1 by done.
  pose proof (coordinates_upto _ _ Ha) as Hac.
  assert (∀ l', builds (2 * k + 5 - (k + 2)) 1 l1 l' → ∃ l0,
    num_nodes (out_lyt o) <= num_nodes l0 <= num_nodes (out_lyt o) + (k + 2) ∧ inputs_of l0 = inputs_of (out_lyt o) ∧
    GateLevel.num_pis l0 = GateLevel.num_pis (out_lyt o) ∧ GateLevel.num_pos l0 = GateLevel.num_pos (out_lyt o) ∧
    Clocked.clocking (GateLevel.clocked l0) = Clocked.clocking (GateLevel.clocked (out_lyt o)) ∧
    builds (2 * k + 5 - (k + 2)) 1 (resize l0 D) l') as Hstep.
  { intros l' Hl'. exists l. split_and!; try done; [lia|lia|lia|by rewrite Hcl]. }
  destruct (_ && negb multi) eqn:Eb.
  - apply andb_true_iff in Eb as [Eb _]. apply Z.eqb_eq in Eb. rewrite HX in Eb.
    destruct (create_po_outputs l1 n_s (next_output_name ntk (po_counter o))
      (set_x (of_uint64 a) (ux (of_uint64 a) + 1))) as (l' & b & -> & Hb' & Ho'); [done|by apply set_x_wf, Ha|lia|].
    cbn [mbind option_bind]. eexists. split; [done|]. eapply outputs_ok_step; [done|done| |].
    + apply Hstep. eapply builds_weaken; [|done]. lia.
    + intros c [Hc| ->]%Ho'; [apply (oo_border _ _ _ _ Ho); by rewrite <-Hout|].
      rewrite of_to_uint64; [exact Eb|by apply set_x_wf, Ha].
  - set (border := Cartesian.eastern_border_of (base l1) (of_uint64 a)).
    assert (wf border ∧ ux border = ux (latest_pos s)) as [Hbw Hbx].
    { split; [by split_and!; try apply wrap_width|]. unfold border, Cartesian.eastern_border_of. cbn [ux ucoord3].
      rewrite HX. apply wrap_small. unfold in_width. lia. }
    destruct (wire_east_outputs (k + 1) l1 (of_uint64 a) border) as (l2 & b & -> & Hb2 & _ & Hout2);
      [lia|done|lia|done|lia|]. cbn [mbind option_bind]. pose proof (builds_size _ _ _ _ Hb2).
    destruct (create_po_outputs l2 b (next_output_name ntk (po_counter o)) border) as (l' & b' & -> & Hb' & Ho');
      [apply Hb2|done|lia|].
    cbn [mbind option_bind]. eexists. split; [done|]. eapply outputs_ok_step; [done|done| |].
    + apply Hstep. eapply builds_seq; [exact Hb2|exact Hb'|lia].
    + intros c [Hc| ->]%Ho'; [apply (oo_border _ _ _ _ Ho); rewrite <-Hout; by rewrite Hout2 in Hc|].
      by rewrite of_to_uint64.
Qed.

Lemma place_outputs_ok k ctn pos : ∀ j s o,
  ordering_ok k s → k + 2 < 2 ^ 31 - 1 → 0 <= j → outputs_ok (2 * k + 5) j s o →
  num_nodes (lyt s) + (j + Z.of_nat (length pos)) * (2 * k + 5) <= 2 ^ 32 →
  ∃ o', iterate (place_output ntk ctn s) o pos = Some o' ∧
    outputs_ok (2 * k + 5) (j + Z.of_nat (length pos)) s o'.
Proof.
  induction pos as [|po pos IH]; intros j s o Hs Hk Hj Ho Hsz.
  { exists o. split; [done|]. by rewrite Z.add_0_r. }
  rewrite iterate_cons. cbn [length] in *. pose proof (oo_size _ _ _ _ Ho). pose proof (ok_insert _ _ Hs).
  destruct (place_output_ok k ctn j s o po) as (o1 & -> & Ho1); [done..|nia|]. cbn [mbind option_bind].
  destruct (IH (j + 1) s o1) as (o2 & -> & Ho2); [done|done|lia|done|nia|].
  exists o2. split; [done|]. replace (j + Z.of_nat (S (length pos))) with (j + 1 + Z.of_nat (length pos)) by lia. done.
Qed.
End Outputs.

(** ** Recoloring *)

Section Recoloring.
Context `{MT : GateLevel.Mockturtle} `{HC : ColorView} `{HCL : !ColorViewLaws}.
Context `{HN : Network Ntk} `{HG : !GateNetwork Ntk} `{HS : !SequentialNetwork Ntk}.
Context (ntk : Ntk) `{HNL : !NetworkLaws ntk}.
Implicit Types (ctn : coloring_container) (n : Z).

(** A node without color and with one fanin has a sibling. *)
Definition siblings ctn : Prop :=
  ∀ n u, n ∈ Networks.foreach_node ntk → container_nodes (fanins ntk n) = [u] → ncolor ctn n = color_null →
    (2 <= length (fanouts ntk u))%nat.

Lemma repaint_siblings ctn pre fo clr :
  is_constant ntk pre = false → fo ∈ fanouts ntk pre → (2 <= length (fanouts ntk pre))%nat →
  siblings ctn → siblings (repaint ctn fo clr).
Proof.
  intros Hc Hfo H2 Hsib n u Hn Hu Hclr. destruct (decide (n = fo)) as [->|Hne].
  - apply foreach_fanout_converse in Hfo as [_ Hfo]. rewrite container_nodes_fanins in Hu.
    assert (pre ∈ proper_fanins ntk fo) as Hin by (by apply list_elem_of_filter).
    rewrite Hu in Hin. by apply list_elem_of_singleton in Hin as ->.
  - apply (Hsib n u); [done|done|]. revert Hclr. unfold ncolor, node_color, repaint. cbn.
    by rewrite color_paint, decide_False.
Qed.

Lemma second_fanout_spec pre fo :
  second_fanout ntk pre = Some fo → fo ∈ fanouts ntk pre ∧ (2 <= length (fanouts ntk pre))%nat.
Proof.
  unfold second_fanout. destruct (fanouts ntk pre) as [|fo0 [|fo1 fos]]; [done|done|].
  case_match; intros [= <-]; split; [set_solver|simpl; lia].
Qed.

Lemma recolor_fanout_siblings pre1 r pre :
  is_constant ntk pre = false → siblings r.1 → siblings (recolor_fanout ntk pre1 r pre).1.
Proof.
  intros Hc Hr. unfold recolor_fanout. destruct (second_fanout ntk pre) as [fo|] eqn:E; [|done].
  apply second_fanout_spec in E as [Hfo H2]. destruct r as [ctn recolored]. cbv zeta. cbn [fst] in Hr.
  set (q := if all_colored ctn _ (color_south ctn) then _ else _).
  assert (siblings q.1) as Hq.
  { unfold q. destruct (all_colored _ _ _); [destruct (contains _ _)|]; [by apply (repaint_siblings _ pre)..|done]. }
  destruct q as [ctn1 recolored1]. cbn [fst] in Hq.
  destruct (all_colored _ _ _); [destruct (_ && _)|]; [by apply (repaint_siblings _ pre)..|done].
Qed.

Lemma clear_fanout_siblings ctn pre :
  is_constant ntk pre = false → siblings ctn → siblings (clear_fanout ntk ctn pre).
Proof.
  intros Hc Hr. unfold clear_fanout. destruct (second_fanout ntk pre) as [fo|] eqn:E; [|done].
  apply second_fanout_spec in E as [Hfo H2]. cbv zeta. set (q := if all_colored _ _ _ then _ else ctn).
  assert (siblings q) as Hq by (unfold q; destruct (all_colored _ _ _); [by apply (repaint_siblings _ pre)|done]).
  clearbody q. destruct (all_colored _ _ _); [by apply (repaint_siblings _ pre)|done].
Qed.

Lemma recolor_node_siblings r n : siblings r.1 → siblings (recolor_node ntk r n).1.
Proof.
  intros Hr. unfold recolor_node. destruct (container_nodes (fanins ntk n)) as [|pre1 [|pre2 [|? ?]]] eqn:E; try done.
  rewrite container_nodes_fanins in E.
  assert (is_constant ntk pre1 = false ∧ is_constant ntk pre2 = false) as [H1 H2].
  { split; [assert (pre1 ∈ proper_fanins ntk n) as Hin by (rewrite E; set_solver)|
            assert (pre2 ∈ proper_fanins ntk n) as Hin by (rewrite E; set_solver)];
      by apply list_elem_of_filter in Hin as [? _]. }
  cbn [fst]. by repeat first [apply clear_fanout_siblings|apply recolor_fanout_siblings].
Qed.

Lemma switch_colors_siblings ctn n :
  n ∈ Networks.foreach_node ntk → siblings ctn → ∃ ctn', switch_colors ntk ctn n = Some ctn' ∧ siblings ctn'.
Proof.
  intros Hn Hsib. unfold switch_colors.
  destruct (container_nodes (fanins ntk n)) as [|u [|? ?]] eqn:E; [by exists ctn| |by exists ctn].
  destruct (Z.eqb_spec (node_color (color_ntk ctn) n) color_null) as [Hnull|]; [|by exists ctn].
  pose proof (Hsib n u Hn E Hnull) as H2. rewrite container_nodes_fanins in E.
  assert (is_constant ntk u = false) as Hu.
  { assert (u ∈ proper_fanins ntk n) as Hin by (rewrite E; set_solver). by apply list_elem_of_filter in Hin as [? _]. }
  destruct (fanouts ntk u) as [|fo0 [|fo1 fos]] eqn:Ef; [simpl in H2; lia..|]. cbv zeta.
  change (vec_at (fo0 :: fo1 :: fos) 0) with (Some fo0). change (vec_at (fo0 :: fo1 :: fos) 1) with (Some fo1).
  cbn [mbind option_bind]. eexists. split; [done|].
  assert (∀ c clr, siblings c → siblings (repaint c fo0 clr) ∧ siblings (repaint c fo1 clr)) as Hp.
  { intros c clr Hc. split; apply (repaint_siblings _ u); try done; rewrite Ef; [set_solver|done|set_solver|done]. }
  destruct (_ =? _), (_ =? _); repeat first [done|apply Hp].
Qed.

(** Both loops stay within the vectors of fanouts. *)
Lemma recolor_defined ctn : siblings ctn → ∃ ctn', recolor ntk ctn = Some ctn'.
Proof.
  intros Hsib. unfold recolor.
  assert (siblings (foldl (recolor_node ntk) (ctn, []) (Networks.foreach_node ntk)).1) as H1.
  { generalize (Networks.foreach_node ntk) as ns. intros ns. induction ns as [|n ns IH] using rev_ind; [done|].
    rewrite foldl_snoc. by apply recolor_node_siblings. }
  destruct (iterate_spec siblings (λ _ _, True) (switch_colors ntk) (Networks.foreach_node ntk)
    (foldl (recolor_node ntk) (ctn, []) (Networks.foreach_node ntk)).1) as (c & E & _); [|exact H1|by exists c].
  intros c n Hn Hc. destruct (switch_colors_siblings c n Hn Hc) as (c' & -> & Hc'). by exists c'.
Qed.
End Recoloring.

(** ** The whole run *)

Section Run.
Context `{HM : GateLevel.MockturtleLaws} `{HC : ColorView} `{HCL : !ColorViewLaws}.
Context `{HN : Network Ntk} `{HG : !GateNetwork Ntk} `{HS : !SequentialNetwork Ntk}.
Context (ntk : Ntk) `{HNL : !NetworkLaws ntk}.
Context (fanout_size : Ntk → Z → Z) (isFo_inv_flag : Ntk → bool) (isFo_inv_flag_num : Ntk → Z).
Context (fuel : nat) (phases : num_clks).

(** The columns for inverters and the first one for gates, and the last column or row that is needed. *)
Definition first_column : Z := 1 + (if isFo_inv_flag ntk then isFo_inv_flag_num ntk else 0).
Definition last_column : Z := first_column + 4 * Z.of_nat (length (Networks.foreach_node ntk)).

(** The coordinates are representable, and the storage has indices for all nodes. *)
Definition run_fits : Prop :=
  last_column + 2 < 2 ^ 31 - 1 ∧
  2 + num_inputs ntk + Z.of_nat (length (Networks.foreach_node ntk)) * (5 * last_column + 16) +
    Z.of_nat (length (Networks.foreach_po ntk)) * (2 * last_column + 5) <= 2 ^ 32.

Lemma first_state_ok :
  Networks.foreach_pi ntk ≠ [] → 1 <= first_column → run_fits →
  ∃ s pi2node, initial_state isFo_inv_flag isFo_inv_flag_num ntk phases = Some (s, pi2node) ∧
    ordering_ok first_column s ∧
    GateLevel.clocked (lyt s) =
      Clocked.make Cartesian.make (ucoord3 1 1 1) (twoddwave_clocking Cartesian.max_fanin_size phases) ∧
    num_nodes (lyt s) = 2 + num_inputs ntk ∧ inputs_of (lyt s) = seqZ 2 (num_inputs ntk) ∧
    GateLevel.num_pis (lyt s) = num_inputs ntk ∧ GateLevel.num_pos (lyt s) = 0 ∧ outputs_of (lyt s) = [] ∧
    ∀ n, n ∈ Networks.foreach_pi ntk → 2 <= map_at pi2node n < num_nodes (lyt s).
Proof.
  intros Hne Hcol (Hb & Hsz). unfold initial_state.
  set (cl := Clocked.make Cartesian.make _ _).
  destruct (make_spec cl "") as (l0 & -> & Hl0 & Hc0 & Ha0). cbn [mbind option_bind].
  pose proof (f_equal sp_outputs Ha0) as Ho. cbn in Ho.
  pose proof (f_equal sp_size Ha0) as Hn0. rewrite abstract_num_nodes in Hn0. change (num_nodes l0 = 2) in Hn0.
  assert (1 <= last_column) as Hlast by (unfold last_column in *; lia).
  assert (0 <= Z.of_nat (length (Networks.foreach_node ntk)) * (5 * last_column + 16)) as Hcost1
    by (apply Z.mul_nonneg_nonneg; lia).
  assert (0 <= Z.of_nat (length (Networks.foreach_po ntk)) * (2 * last_column + 5)) as Hcost2
    by (apply Z.mul_nonneg_nonneg; lia).
  destruct (reserve_input_nodes_spec ntk l0) as (l1 & m & E & Hl1 & Hc1 & Hn1 & Hi1 & Hp1 & Hq1 & Ho1 & Hm);
    [done|exact Ho|done|rewrite Hn0; fold (num_inputs ntk); lia|].
  rewrite E. cbn [mbind option_bind]. eexists _, _. split; [done|].
  pose proof (f_equal sp_inputs Ha0) as Hi0. pose proof (f_equal sp_pis Ha0) as Hp0.
  pose proof (f_equal sp_pos Ha0) as Hq0. cbn in Hi0, Hp0, Hq0.
  cbn [lyt]. split_and!; [|by rewrite Hc1, Hc0|by rewrite Hn1, Hn0|..].
  - unfold last_column, first_column in *.
    split; cbn [lyt latest_pos latest_pos_inputs insert_position_inv node2pos]; [done| | |lia|].
    + destruct (isFo_inv_flag ntk).
      * set (c := set_x _ _). assert (ux c = 1 + isFo_inv_flag_num ntk) as Ex
          by (apply wrap_small; unfold in_width; cbn; lia).
        split; [|lia]. split; [apply set_x_wf; by repeat split|]. split; [rewrite Ex; lia|]. change (uy c) with 0. lia.
      * split; [|done]. apply upto_2; lia.
    + split; [|done]. apply upto_2; lia.
    + intros n. apply (signal_mono 0); [lia|]. apply zero_within; lia.
  - rewrite Hi1, Hn0. unfold inputs_of. by rewrite Hi0.
  - rewrite Hp1. unfold GateLevel.num_pis. by rewrite Hp0.
  - rewrite Hq1. exact Hq0.
  - done.
  - exact Hm.
Qed.

Lemma coloring_siblings c gs ctn :
  (base.size (all_edges ntk) < fuel)%nat →
  color_inputs fanout_size ntk new_coloring_container = Some c →
  reverse_foreach_gate ntk (Networks.foreach_node ntk) = Some gs →
  (∀ g, g ∈ foreach_gate_reverse ntk → g ∈ gs) →
  new_east_south_edge_coloring fanout_size fuel ntk = Some ctn → siblings ntk ctn.
Proof.
  intros Hfuel Hc Hgs Hall E n u Hn Hu Hnull. exfalso. revert Hnull.
  apply (new_coloring_single ntk fanout_size fuel c gs ctn n u); try done.
  apply Hall, foreach_gate_reverse_gates. rewrite container_nodes_fanins in Hu.
  assert (u ∈ fanin_nodes ntk n) as Hin.
  { assert (u ∈ proper_fanins ntk n) as Hin by (rewrite Hu; set_solver). by apply list_elem_of_filter in Hin as [_ ?]. }
  split_and!; [done| |].
  - destruct (is_constant ntk n) eqn:Ec; [|done]. rewrite constant_without_fanin in Hin by done. set_solver.
  - destruct (is_pi ntk n) eqn:Ep; [|done]. rewrite pi_without_fanin in Hin by done. set_solver.
Qed.

(** Counting the crossings ends on a layout without a row behind the last one that can be numbered. *)
Lemma crossing_count_defined tiles l :
  layout_wf l → steppable (Cartesian.dimension (base l)) →
  Coordinates.volume (Cartesian.dimension (base l)) < Z.of_nat tiles → ∃ k, crossing_count tiles l = Some k.
Proof.
  intros Hl Hs Hv. unfold crossing_count. rewrite visited_all by done. cbn [mbind option_bind].
  destruct (iterate_spec (λ _, True) (λ _ _, True) (λ count t,
      w ← GateLevel.is_wire (GateLevel.strg l) (GateLevel.get_node_at (GateLevel.strg l) t);
      Some (if (w : bool) && (uz t =? 1) then count + 1 else count))
    (nested_loops (Cartesian.dimension (base l))) 0) as (k & E & _); [|done|by exists k].
  intros k t _ _. pose proof (get_node_range (GateLevel.strg l) (to_uint64 t) (lw_storage _ Hl)) as Hr.
  unfold GateLevel.is_wire, GateLevel.is_buf, GateLevel.has_literal, GateLevel.get_node_at.
  destruct (lookup_lt_is_Some_2 (GateLevel.nodes (GateLevel.strg l))
    (Z.to_nat (GateLevel.get_node (GateLevel.strg l) (to_uint64 t)))) as [d Hd]; [lia|].
  unfold vec_at. rewrite decide_True, Hd by lia. cbn [mbind option_bind fmap option_fmap option_map]. eauto.
Qed.

Lemma design_well_formed :
  (base.size (all_edges ntk) < fuel)%nat → inputs_ready ntk fanout_size →
  offset ntk <= Z.of_nat (length (Networks.foreach_node ntk)) →
  (∀ g, g ∈ foreach_gate_reverse ntk → g ∈ reversed_gates ntk) →
  Networks.foreach_pi ntk ≠ [] → supported_gates ntk → 1 <= first_column → run_fits →
  ∃ l, design fanout_size isFo_inv_flag isFo_inv_flag_num fuel ntk phases = Some l ∧ layout_wf l ∧
    Clocked.clocking (GateLevel.clocked l) = twoddwave_clocking Cartesian.max_fanin_size phases ∧
    inputs_of l = seqZ 2 (num_inputs ntk) ∧ GateLevel.num_pis l = num_inputs ntk ∧
    GateLevel.num_pos l = Z.of_nat (length (Networks.foreach_po ntk)) ∧
    (∀ a, a ∈ outputs_of l → Cartesian.is_at_eastern_border (base l) (of_uint64 a) = true) ∧
    (Cartesian.y (base l) ≠ 2 ^ 31 - 1 → steppable (Cartesian.dimension (base l))).
Proof.
  intros Hfuel Hready Hoff Hall Hne Hsup Hcol Hfits. unfold design.
  destruct (color_inputs_defined ntk fanout_size new_coloring_container Hready) as [c Hc].
  pose proof (reversed_gates_defined ntk Hoff) as Hgs. set (gs := reversed_gates ntk) in *.
  destruct (new_coloring_state ntk fanout_size fuel c gs) as (ctn & Ectn & _); [done..|]. rewrite Ectn. cbn [mbind option_bind].
  destruct (first_state_ok Hne Hcol Hfits) as (s0 & m & -> & Hs0 & Hk0 & Hn0 & Hi0 & Hp0 & Hq0 & Ho0 & Hpi).
  cbn [mbind option_bind].
  destruct (recolor_defined ntk ctn) as (ctn' & ->); [by eapply coloring_siblings|]. cbn [mbind option_bind].
  destruct Hfits as [Hb Hsz].
  destruct (place_nodes_reach ntk isFo_inv_flag last_column ctn' m (Networks.foreach_node ntk) first_column s0)
    as (s & -> & Hb1 & Hs); [done|unfold last_column; lia|lia| | |apply Hs0|unfold last_column in *; nia|].
  { intros n Hn Hp. apply Hpi. rewrite foreach_pi_nodes. by apply list_elem_of_filter. }
  { intros n Hn Hconst Hp. apply (Hsup n). by apply foreach_gate_reverse_gates. }
  cbn [mbind option_bind]. destruct Hb1 as [_ Hcb Hnb Hib Hpb Hqb Hob].
  destruct (place_outputs_ok ntk last_column ctn' (Networks.foreach_po ntk) 0 s (OutputState (lyt s) [] false 0))
    as (o & Eo & Ho); [done|lia|lia| |unfold last_column in *; nia|].
  { split; cbn [out_lyt]; try done; [apply Hs|lia|lia|].
    intros a. rewrite (Hob eq_refl Ho0). set_solver. }
  rewrite Eo. cbn [mbind option_bind]. destruct (restore_names_renames ntk (out_lyt o) (node2pos s)) as (l & -> & Hr);
    [apply Ho|]. exists l. destruct Hr as [Hrw Hrc Hra]. destruct Ho as [Hw Hno Hio Hpo Hqo Hko Hdo Hbo].
  rewrite Z.add_0_l in *. split_and!; [done|by apply Hrw|by rewrite Hrc, Hko, Hcb, Hk0| | | | |].
  - apply (f_equal sp_inputs) in Hra. unfold inputs_of in *. cbn in Hra. congruence.
  - apply (f_equal sp_pis) in Hra. unfold GateLevel.num_pis in *. cbn in Hra. congruence.
  - apply (f_equal sp_pos) in Hra. unfold GateLevel.num_pos in *. cbn in Hra. lia.
  - intros a Ha. apply (f_equal sp_outputs) in Hra. cbn in Hra. unfold outputs_of in Ha. rewrite Hra in Ha.
    unfold Cartesian.is_at_eastern_border, base. rewrite Hrc. fold (base (out_lyt o)).
    rewrite (Hbo a Ha). destruct (Networks.foreach_po ntk) as [|po pos].
    + injection Eo as <-. cbn in Ha. change (a ∈ outputs_of (lyt s)) in Ha. rewrite (Hob eq_refl Ho0) in Ha. set_solver.
    + rewrite Hdo by (cbn; lia). apply Z.eqb_eq. symmetry. apply wrap_small.
      pose proof (ok_latest _ _ Hs) as [Hp _]. pose proof (coordinates_upto _ _ Hp). unfold in_width. lia.
  - unfold base. rewrite Hrc. fold (base (out_lyt o)). destruct (Networks.foreach_po ntk) as [|po pos].
    + injection Eo as <-. cbn [out_lyt]. unfold base. rewrite Hcb, Hk0. done.
    + rewrite Hdo by (cbn; lia). cbn [Cartesian.dimension]. intros Hy.
      pose proof (ok_latest _ _ Hs) as [Hp _]. pose proof (coordinates_upto _ _ Hp).
      split; [by split_and!; try apply wrap_width|]. split; [done|]. split.
      * unfold ucoord3. cbn [ux]. rewrite wrap_small; [lia|unfold in_width; lia].
      * unfold Cartesian.y in Hy. cbn [Cartesian.dimension] in Hy.
        pose proof (wrap_width 31 (uy (latest_pos s) - 1)) as Hw'. unfold in_width in Hw'.
        unfold ucoord3 in *. cbn [uy] in *. lia.
Qed.

(** C7: orthogonal physical design with ordered inputs terminates without undefined behavior on every
    acyclic network with inputs whose gates have one or two fanins besides constants, and whose inputs
    are ready: every fanout node behind an input has two outputs, and where one of them is behind an
    inverter, the second one does not meet another input directly; as long as the gates are the nodes
    behind the constants and inputs, and coordinates and nodes are representable. The colors are
    repaired within the vectors of fanouts, and the result is a well-formed layout with the 2DDWave
    clocking, the inputs of the network in their order, and one output for each output of the network,
    all of them at its eastern border. The last step, counting the crossings, ends if the layout got a
    row for gates. *)
Theorem ordering_well_formed :
  (base.size (all_edges ntk) < fuel)%nat → inputs_ready ntk fanout_size →
  offset ntk <= Z.of_nat (length (Networks.foreach_node ntk)) →
  (∀ g, g ∈ foreach_gate_reverse ntk → g ∈ reversed_gates ntk) →
  Networks.foreach_pi ntk ≠ [] → supported_gates ntk → 1 <= first_column → run_fits →
  ∃ l, design fanout_size isFo_inv_flag isFo_inv_flag_num fuel ntk phases = Some l ∧ layout_wf l ∧
    Clocked.clocking (GateLevel.clocked l) = twoddwave_clocking Cartesian.max_fanin_size phases ∧
    inputs_of l = seqZ 2 (num_inputs ntk) ∧ GateLevel.num_pis l = num_inputs ntk ∧
    GateLevel.num_pos l = Z.of_nat (length (Networks.foreach_po ntk)) ∧
    (∀ a, a ∈ outputs_of l → Cartesian.is_at_eastern_border (base l) (of_uint64 a) = true) ∧
    ∀ tiles, Cartesian.y (base l) ≠ 2 ^ 31 - 1 →
      Coordinates.volume (Cartesian.dimension (base l)) < Z.of_nat tiles →
      run fanout_size isFo_inv_flag isFo_inv_flag_num tiles fuel ntk phases = Some l.
Proof.
  intros Hfuel Hready Hoff Hall Hne Hsup Hcol Hfits.
  destruct design_well_formed as (l & E & Hl & Hk & Hi & Hp & Hq & Ho & Hs); [done..|].
  exists l. split_and!; [done..|]. intros tiles Hy Hv. unfold run. rewrite E. cbn [mbind option_bind].
  by destruct (crossing_count_defined tiles l) as (k & ->); [done|apply Hs|done|].
Qed.
End Run.
End Ordered.
