(* ===== verification/OrderingExamples.v ===== *)
(** * Orthogonal physical design with ordered inputs on netlists

    A half adder on which the theorem of [OrderingProperties.v] is applied, and networks for which the
    result is wrong. The netlists are numbered in the order of their topological views, whose flags are
    given to the run. *)

From S2P Require Import Prelude.
From S2P Require Import Coordinates.
From S2P Require Import CoordinateLayout.
From S2P Require Import CartesianLayout.
From S2P Require Import ClockingScheme.
From S2P Require Import ClockedLayout.
From S2P Require Import GateLevelLayout.
From S2P Require Import GateLevelInvariant.
From S2P Require Import MockturtleModel.
From S2P Require Import Networks.
From S2P Require Import PlacementUtils.
From S2P Require Import NetworkModel.
From S2P Require Import EdgeColoring.
From S2P Require Import EdgeColoringProperties.
From S2P Require Import Orthogonal.
From S2P Require Import LayoutBuilding.
From S2P Require Import OrthogonalProperties.
From S2P Require Import TopoViewInputSort.
From S2P Require Import TopoViewModel.
From S2P Require Import InputSortView.
From S2P Require Import NewColoring.
From S2P Require Import NewColoringProperties.
From S2P Require Import OrderingNetwork.
From S2P Require Import OrderingProperties.
#[local] Open Scope Z_scope.
Import Offset.
Import Networks EdgeColoring Painting Design Netlists MapColors SortedNetlists InputSort NewColoring.

Module OrderedNetlists.
Import Building Placement Orthogonal TopoView OrderingNetwork Ordered.

Definition ordered_view (ntk : netlist) : option view := make_view false 10 ntk None ∅ 0.

(** The nodes of the view are those of the netlist, in the same order. *)
Definition in_order (ntk : netlist) : bool :=
  match ordered_view ntk with Some v => bool_decide (order v = Networks.foreach_node ntk) | None => false end.

Definition inv_flag (ntk : netlist) : bool :=
  match ordered_view ntk with Some v => isFo_inv_flag v | None => false end.
Definition inv_flag_num (ntk : netlist) : Z :=
  match ordered_view ntk with Some v => isFo_inv_flag_num v | None => 0 end.

Definition ordering_design (fuel : nat) (ntk : netlist) : option layout :=
  design netlist_fanout_size inv_flag inv_flag_num fuel ntk FOUR.
Definition ordering_run (tiles fuel : nat) (ntk : netlist) : option layout :=
  run netlist_fanout_size inv_flag inv_flag_num tiles fuel ntk FOUR.

(** The state after the loop over the nodes. *)
Definition placement_of (fuel : nat) (ntk : netlist) : option ordering_state :=
  ctn ← new_east_south_edge_coloring netlist_fanout_size fuel ntk;
  '(s, pi2node) ← initial_state inv_flag inv_flag_num ntk FOUR;
  ctn ← recolor ntk ctn;
  iterate (place_node inv_flag ntk ctn pi2node) s (Networks.foreach_node ntk).

(** ** A half adder *)

Definition adder : netlist :=
  Netlist 2 [(Buf, [2]); (Buf, [3]); (And, [4; 5]); (Xor, [4; 5])] [6; 7] [] [].

#[local] Instance adder_laws : NetworkLaws adder.
Proof. by apply netlist_laws. Qed.

Example adder_in_order : in_order adder = true ∧ first_column adder inv_flag inv_flag_num = 1.
Proof. split; vm_compute; reflexivity. Qed.

(** The recolored gates take a column each, the first gate a row. *)
Example adder_placement :
  (λ s, (λ n, (ux (position s n), uy (position s n))) <$> [2; 3; 4; 5; 6; 7]) <$> placement_of 9 adder =
    Some [(0, 0); (0, 1); (1, 0); (2, 1); (3, 1); (2, 2)].
Proof. vm_compute. reflexivity. Qed.

Lemma adder_supported : supported_gates adder.
Proof.
  intros g Hg. change (g ∈ [7; 6; 5; 4]) in Hg.
  repeat (apply elem_of_cons in Hg as [->|Hg]; [vm_compute; auto|]). by apply elem_of_nil in Hg.
Qed.

Lemma adder_dimension l : ordering_design 9 adder = Some l → Cartesian.dimension (base l) = UCoord 0 1 2 4.
Proof.
  assert (Cartesian.dimension ∘ base <$> ordering_design 9 adder = Some (UCoord 0 1 2 4)) as Hd
    by (vm_compute; reflexivity).
  intros E. rewrite E in Hd. by injection Hd.
Qed.

Lemma ordering_well_formed_witness :
  ∃ l, ordering_run 31 9 adder = Some l ∧ layout_wf l ∧ GateLevel.num_pos l = 2 ∧
    ∀ a, a ∈ outputs_of l → Cartesian.is_at_eastern_border (base l) (of_uint64 a) = true.
Proof.
  destruct (ordering_well_formed adder netlist_fanout_size inv_flag inv_flag_num 9 FOUR)
    as (l & E & Hl & _ & _ & _ & Hp & Ho & Hr).
  - vm_compute. lia.
  - apply inputs_ready_by. vm_compute. reflexivity.
  - vm_compute. discriminate.
  - intros g Hg. exact Hg.
  - discriminate.
  - exact adder_supported.
  - vm_compute. discriminate.
  - split; vm_compute; [reflexivity|discriminate].
  - exists l. split; [|split; [exact Hl|split; [|exact Ho]]].
    + apply Hr; unfold Cartesian.y; rewrite (adder_dimension l E); vm_compute; [discriminate|reflexivity].
    + rewrite Hp. reflexivity.
Defined.

(** ** Sizes *)

(** Where no gate has opened a row, the last row is the one before row 0: the layout of an inverter has
    2^31 rows, *)
Definition inverter_alone : netlist := Netlist 1 [(Inv, [2])] [3] [] [].

Example inverter_rows :
  in_order inverter_alone = true ∧
  Cartesian.dimension ∘ base <$> ordering_design 9 inverter_alone = Some (UCoord 0 1 (2 ^ 31 - 1) 2).
Proof. split; vm_compute; reflexivity. Qed.

(** and the loop that counts the crossings does not end: the row behind the last one has no number. *)
Lemma inverter_diverges tiles : ordering_run tiles 9 inverter_alone = None.
Proof.
  pose proof (proj2 inverter_rows) as Hd. unfold ordering_run, run, ordering_design in *.
  destruct (design _ _ _ _ _ _) as [l|]; [|done]. injection Hd as Hd. cbn [mbind option_bind].
  assert (Cartesian.visited tiles (Cartesian.coordinates (base l) ucoord_default ucoord_default) = None) as Hv.
  { unfold Cartesian.visited, Cartesian.coordinates. rewrite Hd. cbn [fst snd].
    apply (iter_range_diverges (λ c, ud c = 0 ∧ uz c = 0)); [|done].
    intros [d z y x]; simpl. intros (-> & ->). split; [done|].
    unfold iter_incr, set_x, set_y. cbn [coord aspect_ratio ux uy uz ud]. rewrite (proj2 (neqb_true _ _)) by (intros [=]).
    pose proof (wrap_width 31 (y + 1)) as Hw. unfold in_width in Hw. cbn [ux uy].
    destruct (2 <? wrap 31 (x + 1)); [|done]. cbn [uy]. destruct (Z.ltb_spec (2 ^ 31 - 1) (wrap 31 (y + 1))); [lia|done]. }
  unfold crossing_count. by rewrite Hv.
Qed.

(** ** Inverters behind inputs *)

(** Both inputs are inverted, but one column has been reserved: the gate is placed on the second
    inverter, and is its own fanin. *)
Definition inverted_inputs : netlist := Netlist 2 [(Inv, [2]); (Inv, [3]); (And, [4; 5])] [6] [] [].

Example gate_overwrites_inverter :
  in_order inverted_inputs = true ∧ inv_flag_num inverted_inputs = 1 ∧
  (λ s, (ux (position s 5), uy (position s 5), bool_decide (position s 5 = position s 6))) <$>
    placement_of 9 inverted_inputs = Some (2, 1, true) ∧
  (λ l, Routing.contents l (ucoord2 2 1)) <$> ordering_design 9 inverted_inputs =
    Some (Some (4, [to_uint64 (ucoord2 2 0); to_uint64 (ucoord2 2 1)])).
Proof. split_and!; vm_compute; reflexivity. Qed.

(** ** Inputs below the gates *)

(** The third input and its output are in row 2, which the layout does not have. *)
Definition idle_input : netlist := Netlist 3 [(And, [2; 3])] [5; 4] [] [].

Definition rows_of (l : layout) : Z * list Z := (Cartesian.y (base l), (λ a, uy (of_uint64 a)) <$> outputs_of l).

Example output_outside : in_order idle_input = true ∧ rows_of <$> ordering_design 9 idle_input = Some (1, [1; 2]).
Proof. split; vm_compute; reflexivity. Qed.

End OrderedNetlists.
