(* ===== verification/NewRouting.v ===== *)
(** * Wires to the west and north, and delays
      (include/fiction/algorithms/physical_design/ortho_new.hpp)

    Majority gates need all fanins at the same time: a fanin that is early is delayed by a buffer, a
    wire that winds and whose tiles are clocked one after the other, whatever the clocking scheme. *)

From S2P Require Import Prelude.
From S2P Require Import Coordinates.
From S2P Require Import CoordinateLayout.
From S2P Require Import CartesianLayout.
From S2P Require Import ClockingScheme.
From S2P Require Import ClockedLayout.
From S2P Require Import GateLevelLayout.
From S2P Require Import Networks.
From S2P Require Import PlacementUtils.
From S2P Require Import EdgeColoring.
From S2P Require Import Orthogonal.
#[local] Open Scope Z_scope.
Import Offset.
Import Networks Placement Orthogonal.

Module NewRouting.

Abbreviation layout := (GateLevel.gate_level_layout Cartesian.cartesian_layout).

Section Routing.
Context `{MT : GateLevel.Mockturtle}.
Implicit Types (l : layout) (t src dest : ucoord_t) (pre_clock : Z).

(** ** Wires *)

(** The tiles strictly between [src] and [dest], from the east to the west; the tile in column 0, which
    the loop cannot reach, where it is next to [src] and [dest] itself. *)
Definition tiles_west src dest : list ucoord_t :=
  (if (ux src - 1 =? ux dest) && (ux dest =? 0) then [ucoord3 (ux dest) (uy src) 0] else []) ++
  ((λ x, ucoord3 x (uy src) 0) <$> reverse (seqZ (ux dest + 1) (ux src - (ux dest + 1)))).

Definition wire_west l src dest : option (layout * Z) :=
  place_wires l (to_uint64 src) (tiles_west src dest).

Definition tiles_north src dest : list ucoord_t :=
  (if (uy src - 1 =? uy dest) && (uy dest =? 0) then [ucoord3 (ux src) (uy dest) 0] else []) ++
  ((λ y, ucoord3 (ux src) y 0) <$> reverse (seqZ (uy dest + 1) (uy src - (uy dest + 1)))).

Definition wire_north l src dest : option (layout * Z) :=
  place_wires l (to_uint64 src) (tiles_north src dest).

(** ** Delays *)

(** [layout.assign_clock_number]; clock numbers are 8-bit. *)
Definition assign_clock_number l (cz : ucoord_t) (cn : Z) : layout :=
  GateLevel.GateLevelLayout (Clocked.assign_clock_number (GateLevel.clocked l) cz (wrap 8 cn))
    (GateLevel.strg l) (GateLevel.sequential_inf l).

Definition get_clock_number l (cz : ucoord_t) : Z := Clocked.get_clock_number (GateLevel.clocked l) cz.

(** The layout, the last tile and its clock number. *)
Definition route : Type := layout * ucoord_t * Z.

(** A wire to [dest t], whose end is clocked after the last tile. The clock number is assigned in the
    ground layer. *)
Definition bend (wire : layout → ucoord_t → ucoord_t → option (layout * Z)) (dest : ucoord_t → ucoord_t)
    (r : route) : option route :=
  let '(l, t, pre_clock) := r in
  '(l, a) ← wire l t (dest t);
  let t := of_uint64 a in
  let l := assign_clock_number l (ucoord3 (ux t) (uy t) 0) (pre_clock + 1) in
  Some (l, t, get_clock_number l t).

(** The four wires of the buffers, with their destinations. *)
Definition bend_east : route → option route := bend wire_east (λ t, ucoord2 (ux t + 2) (uy t)).
Definition bend_south : route → option route := bend wire_south (λ t, ucoord2 (ux t) (uy t + 2)).
Definition bend_west : route → option route := bend wire_west (λ t, ucoord2 (ux t - 2) (uy t)).
Definition bend_north : route → option route :=
  bend wire_north (λ t, if uy t =? 1 then ucoord2 (ux t) (uy t - 1) else ucoord2 (ux t) (uy t - 2)).

Definition buffer_south_case_one l src pre_clock : option (layout * Z) :=
  r ← bend_east (l, src, pre_clock);
  r ← bend_south r;
  r ← bend_west r;
  r ← bend_south r;
  r ← bend_east r;
  r ← bend_south r;
  '(l, t, _) ← bend_west r;
  Some (l, to_uint64 t).

(** The last wire keeps the clock number of the scheme. *)
Definition buffer_south_case_two l src pre_clock : option (layout * Z) :=
  r ← bend_east (l, src, pre_clock);
  r ← bend_south r;
  r ← bend_west r;
  r ← bend_south r;
  r ← bend_east r;
  r ← bend_south r;
  '(l, t, _) ← bend_west r;
  '(l, a) ← wire_south l t (ucoord2 (ux t) (uy t + 2));
  Some (l, to_uint64 (of_uint64 a)).

Definition buffer_east_case_one l src pre_clock : option (layout * Z) :=
  r ← bend_south (l, src, pre_clock);
  r ← bend_east r;
  r ← bend_north r;
  r ← bend_east r;
  r ← bend_south r;
  r ← bend_east r;
  r ← bend_north r;
  '(l, t, _) ← bend_east r;
  Some (l, to_uint64 t).

Definition buffer_east_case_two l src pre_clock : option (layout * Z) :=
  r ← bend_south (l, src, pre_clock);
  r ← bend_east r;
  r ← bend_north r;
  r ← bend_east r;
  r ← bend_south r;
  r ← bend_east r;
  '(l, t, _) ← bend_north r;
  Some (l, to_uint64 t).

(** ** Majority gates *)

Context `{HN : Network Ntk} `{HG : !GateNetwork Ntk}.

(** The overload of [connect_and_place] for three fanins: wires from the north, the west and the east. The
    order in which they are created is unspecified; here it is the one of the arguments. *)
Definition connect_and_place_3 l t (ntk : Ntk) (n : Z) (pre1_t pre2_t pre3_t : ucoord_t) :
    option (layout * Z) :=
  let '(pre1_t, pre2_t) := if uy pre2_t <? uy pre1_t then (pre2_t, pre1_t) else (pre1_t, pre2_t) in
  let '(pre1_t, pre3_t) := if uy pre3_t <? uy pre1_t then (pre3_t, pre1_t) else (pre1_t, pre3_t) in
  let '(pre2_t, pre3_t) := if ux pre3_t <? ux pre2_t then (pre3_t, pre2_t) else (pre2_t, pre3_t) in
  '(l, a) ← wire_south l pre1_t t;
  '(l, b) ← wire_east l pre2_t t;
  '(l, c) ← wire_west l pre3_t t;
  place_3 l t ntk n a b c.

End Routing.
End NewRouting.
