(* ===== verification/NewRoutingProperties.v ===== *)
(** * Theorems on delays

    A buffer of [NewRouting.v] is a chain of wires through neighboring tiles, whose clock numbers
    increase by one from tile to tile: each tile delays the signal by one phase. *)

From S2P Require Import Prelude.
From S2P Require Import Coordinates.
From S2P Require Import CoordinateLayout.
From S2P Require Import CartesianLayout.
From S2P Require Import ClockingScheme.
From S2P Require Import ClockedLayout.
From S2P Require Import GateLevelLayout.
From S2P Require Import GateLevelInvariant.
From S2P Require Import MockturtleModel.
From S2P Require Import PlacementUtils.
From S2P Require Import EdgeColoring.
From S2P Require Import Orthogonal.
From S2P Require Import LayoutBuilding.
From S2P Require Import NewRouting.
#[local] Open Scope Z_scope.
Import Offset.
Import Building Routing Orthogonal NewRouting.

(** ** Moves *)

Inductive move := East | South | West | North.

(** Tiles are given by their offset to the source of the buffer. *)
Definition step (m : move) (o : Z * Z) : Z * Z :=
  match m with
  | East => (o.1 + 1, o.2)
  | South => (o.1, o.2 + 1)
  | West => (o.1 - 1, o.2)
  | North => (o.1, o.2 - 1)
  end.

Fixpoint offsets (o : Z * Z) (ms : list move) : list (Z * Z) :=
  match ms with [] => [] | m :: ms => step m o :: offsets (step m o) ms end.

(** The wire of a move ends at a coordinate that is representable. *)
Definition room (m : move) (x y : Z) : Prop :=
  0 <= x < 2 ^ 31 - 2 ∧ 0 <= y < 2 ^ 31 - 2 ∧
  match m with West => 2 <= x | North => 1 <= y | _ => True end.

Section Delays.
Context `{HM : GateLevel.MockturtleLaws}.
Implicit Types (l : layout) (t src : ucoord_t) (o : Z * Z).

Definition at_offset src o : ucoord_t := ucoord2 (ux src + o.1) (uy src + o.2).
Definition path src o (ms : list move) : list ucoord_t := at_offset src <$> offsets o ms.

Definition go (m : move) : route → option route :=
  match m with East => bend_east | South => bend_south | West => bend_west | North => bend_north end.

Fixpoint go_along (ms : list move) (r : route) : option route :=
  match ms with [] => Some r | m :: ms => r ← go m r; go_along ms r end.

Fixpoint rooms src o (ms : list move) : Prop :=
  match ms with [] => True | m :: ms => room m (ux src + o.1) (uy src + o.2) ∧ rooms src (step m o) ms end.

Lemma ground_2 x y : ground (ucoord2 x y).
Proof. split; [|done]. split; [|done]. by repeat split; try apply wrap_width. Qed.

(** The wire to the next tile. *)
Definition move_wire (m : move) l t : option (layout * Z) :=
  match m with
  | East => wire_east l t (ucoord2 (ux t + 2) (uy t))
  | South => wire_south l t (ucoord2 (ux t) (uy t + 2))
  | West => wire_west l t (ucoord2 (ux t - 2) (uy t))
  | North => wire_north l t (if uy t =? 1 then ucoord2 (ux t) (uy t - 1) else ucoord2 (ux t) (uy t - 2))
  end.

Lemma seqZ_single a n : n = 1 → seqZ a n = [a].
Proof. intros ->. done. Qed.

Lemma tile_eq a b a' b' : a = a' → b = b' → ucoord3 a b 0 = ucoord2 a' b'.
Proof. by intros -> ->. Qed.

Lemma move_wire_tile m l src o :
  room m (ux src + o.1) (uy src + o.2) →
  move_wire m l (at_offset src o) =
    place_wires l (to_uint64 (at_offset src o)) [at_offset src (step m o)].
Proof.
  unfold at_offset. set (x := ux src + o.1). set (y := uy src + o.2). intros (Hx & Hy & Hm).
  assert (ux (ucoord2 x y) = x ∧ uy (ucoord2 x y) = y) as [Ex Ey] by (split; apply wrap_small; unfold in_width; lia).
  assert (∀ u v, 0 <= u < 2 ^ 31 → ux (ucoord2 u v) = u) as Hux by (intros; apply wrap_small; unfold in_width; lia).
  assert (∀ u v, 0 <= v < 2 ^ 31 → uy (ucoord2 u v) = v) as Huy by (intros; apply wrap_small; unfold in_width; lia).
  unfold move_wire. destruct m; rewrite Ex, Ey; cbn [step fst snd] in *.
  - unfold wire_east, tiles_east. rewrite Ex, Ey, Hux by lia. rewrite seqZ_single by lia.
    cbn [fmap list_fmap]. f_equal. f_equal. apply tile_eq; unfold x, y; lia.
  - unfold wire_south, tiles_south. rewrite Ex, Ey, Huy by lia. rewrite seqZ_single by lia.
    cbn [fmap list_fmap]. f_equal. f_equal. apply tile_eq; unfold x, y; lia.
  - unfold wire_west, tiles_west. rewrite Ex, Ey, Hux by lia. replace (x - 1 =? x - 2) with false by lia.
    rewrite seqZ_single by lia. rewrite reverse_singleton. cbn [andb app fmap list_fmap]. f_equal. f_equal. apply tile_eq; unfold x, y; lia.
  - unfold wire_north, tiles_north. rewrite Ex, Ey. destruct (Z.eqb_spec y 1) as [E|Hne].
    + rewrite Huy by lia. replace ((y - 1 =? y - 1) && (y - 1 =? 0)) with true by lia.
      rewrite seqZ_nil by lia. change (reverse []) with (@nil Z). cbn [app fmap list_fmap]. f_equal. f_equal. apply tile_eq; unfold x, y; lia.
    + rewrite Huy by lia. replace (y - 1 =? y - 2) with false by lia.
      rewrite seqZ_single by lia. rewrite reverse_singleton. cbn [andb app fmap list_fmap]. f_equal. f_equal. apply tile_eq; unfold x, y; lia.
Qed.

(** ** One tile *)

Abbreviation scheme l := (Clocked.clocking (GateLevel.clocked l)).

(** A wire segment is placed on the tile [t], fed by [a], and clocked with [cn]; nothing else changes. *)
Record extends l l' t (a cn : Z) : Prop := {
  extends_wf : layout_wf l';
  extends_base : base l' = base l;
  extends_size : num_nodes l' <= num_nodes l + 1;
  extends_tile : contents l' t = Some (2, [a]);
  extends_others u : live u → u ≠ t → contents l' u = contents l u;
  extends_scheme : scheme_wf (scheme l');
  extends_clocks : ClockingScheme.num_clocks (scheme l') = ClockingScheme.num_clocks (scheme l);
  extends_clock u : get_clock_number l' u = if decide (u = t) then cn else get_clock_number l u;
}.

Lemma go_wire m l t pre :
  go m (l, t, pre) =
    '(l, a) ← move_wire m l t;
    let t := of_uint64 a in
    let l := assign_clock_number l (ucoord3 (ux t) (uy t) 0) (pre + 1) in
    Some (l, t, get_clock_number l t).
Proof. by destruct m. Qed.

Lemma tile_again x y : ucoord3 (ux (ucoord2 x y)) (uy (ucoord2 x y)) 0 = ucoord2 x y.
Proof. unfold ucoord3, ucoord2. cbn. by rewrite !wrap_wrap. Qed.

Lemma overridden_clock s cz cn u :
  scheme_wf s →
  clock_number_at (override_clock_number s cz cn) u =
    if decide (u = cz) then cn mod ClockingScheme.num_clocks s else clock_number_at s u.
Proof.
  intros [_ _ _ Hr]. unfold clock_number_at. simpl. rewrite lookup_insert. destruct (decide (u = cz)) as [->|Hne].
  - by rewrite decide_True.
  - rewrite decide_False by done. destruct (regular s) eqn:E; [|done]. by rewrite Hr, lookup_empty.
Qed.

Lemma go_spec m l src o pre :
  layout_wf l → two_layers l → scheme_wf (scheme l) → room m (ux src + o.1) (uy src + o.2) →
  contents l (at_offset src (step m o)) = None → num_nodes l < 2 ^ 32 → 0 <= pre < 255 →
  let t := at_offset src (step m o) in
  let cn := (pre + 1) mod ClockingScheme.num_clocks (scheme l) in
  ∃ l', go m (l, at_offset src o, pre) = Some (l', t, cn) ∧ extends l l' t (to_uint64 (at_offset src o)) cn.
Proof.
  intros Hl Hz Hs Hroom Hempty Hsz Hpre t cn. rewrite go_wire, move_wire_tile by done. fold t.
  assert (ground t) as Ht by apply ground_2.
  change (place_wires l (to_uint64 (at_offset src o)) [t])
    with (GateLevel.create_buf l (to_uint64 (at_offset src o)) (wire_tile l t)).
  assert (wire_tile l t = t) as ->.
  { unfold wire_tile. apply is_empty_contents in Hempty; [|done|apply Ht]. unfold t. by rewrite Hempty. }
  destruct (create_buf_contents l (to_uint64 (at_offset src o)) t) as (l1 & -> & [Hl1 Hc1 Hn1 _ _ _ _] & Hcont);
    [done|apply Ht|done|]. cbn [mbind option_bind]. rewrite of_to_uint64 by apply Ht. cbv zeta.
  assert (ucoord3 (ux t) (uy t) 0 = t) as -> by apply tile_again.
  set (l2 := assign_clock_number l1 t (pre + 1)).
  assert (∀ u, get_clock_number l2 u = if decide (u = t) then cn else get_clock_number l u) as Hclk.
  { intros u. unfold get_clock_number, Clocked.get_clock_number, l2, assign_clock_number, Clocked.assign_clock_number.
    cbn [GateLevel.clocked Clocked.clocking]. rewrite overridden_clock by (by rewrite Hc1).
    rewrite (wrap_small 8 (pre + 1)) by (unfold in_width; lia). by rewrite Hc1. }
  exists l2. rewrite Hclk, decide_True by done. split; [done|]. split; [| |change (num_nodes l2) with (num_nodes l1); lia| | | | |exact Hclk].
  - destruct Hl1. by split.
  - unfold base, l2. cbn. by rewrite Hc1.
  - change (contents l2 t) with (contents l1 t). rewrite Hcont by apply Ht. by rewrite decide_True.
  - intros u Hu Hne. change (contents l2 u) with (contents l1 u). rewrite Hcont by done. by rewrite decide_False.
  - unfold l2. cbn. rewrite Hc1. by apply override_clock_number_wf.
  - unfold l2. cbn. by rewrite Hc1.
Qed.

(** ** Routes *)

(** A chain of wires through the tiles [ts], clocked one after the other, starting behind [pre]. *)
Record delays l l' (a pre : Z) (ts : list ucoord_t) : Prop := {
  delays_wf : layout_wf l';
  delays_base : base l' = base l;
  delays_size : num_nodes l' <= num_nodes l + Z.of_nat (length ts);
  delays_chain : chained l' a ts;
  delays_others u : live u → u ∉ ts → contents l' u = contents l u;
  delays_scheme : scheme_wf (scheme l');
  delays_clocks : ClockingScheme.num_clocks (scheme l') = ClockingScheme.num_clocks (scheme l);
  delays_clock i u : ts !! i = Some u →
    get_clock_number l' u = (pre + 1 + Z.of_nat i) mod ClockingScheme.num_clocks (scheme l);
  delays_other_clocks u : u ∉ ts → get_clock_number l' u = get_clock_number l u;
}.

Lemma wire_end_cons a t ts : wire_end a (t :: ts) = wire_end (to_uint64 t) ts.
Proof. unfold wire_end. rewrite last_cons. by destruct (last ts). Qed.

(** The last tile of a path, and its clock number. *)
Lemma route_spec src ms : ∀ l o pre,
  layout_wf l → two_layers l → scheme_wf (scheme l) → rooms src o ms → NoDup (path src o ms) →
  (∀ u, u ∈ path src o ms → contents l u = None) →
  num_nodes l + Z.of_nat (length ms) <= 2 ^ 32 → 0 <= pre < 255 →
  ∃ l' t cn, go_along ms (l, at_offset src o, pre) = Some (l', t, cn) ∧
    to_uint64 t = wire_end (to_uint64 (at_offset src o)) (path src o ms) ∧
    t = at_offset src (foldl (λ o m, step m o) o ms) ∧ 0 <= cn < 255 ∧
    delays l l' (to_uint64 (at_offset src o)) pre (path src o ms).
Proof.
  induction ms as [|m ms IH]; intros l o pre Hl Hz Hs Hr Hnd Hempty Hsz Hpre.
  { exists l, (at_offset src o), pre. split_and!; [done..|lia|lia|]. split; try done; lia. }
  cbn [rooms] in Hr. destruct Hr as [Hroom Hr]. cbn [length] in Hsz. change (path src o (m :: ms)) with
    (at_offset src (step m o) :: path src (step m o) ms) in *.
  set (t1 := at_offset src (step m o)) in *. set (n := ClockingScheme.num_clocks (scheme l)).
  pose proof (scheme_num_clocks _ Hs) as Hclks. fold n in Hclks.
  assert (0 <= (pre + 1) mod n < n) as Hmod by (apply Z.mod_pos_bound; lia).
  destruct (go_spec m l src o pre) as (l1 & E1 & [Hl1 Hb1 Hn1 Ht1 Ho1 Hs1 Hk1 Hc1]); try done; [apply Hempty; by left|lia|].
  fold t1 n in E1, Ht1, Ho1, Hk1, Hc1.
  apply NoDup_cons in Hnd as [Hnin Hnd].
  assert (∀ u, u ∈ path src (step m o) ms → live u) as Hlive.
  { intros u (v & -> & _)%list_elem_of_fmap. apply ground_2. }
  destruct (IH l1 (step m o) ((pre + 1) mod n)) as (l2 & t & cn & E2 & Et & Eo & Hcn & [Hl2 Hb2 Hn2 Hch Ho2 Hs2 Hk2 Hc2 Hoc2]);
    [done|unfold two_layers; by rewrite Hb1|done|done|done| |lia|lia|].
  { intros u Hu. rewrite Ho1; [apply Hempty; by right|by apply Hlive|]. by intros ->. }
  exists l2, t, cn. split_and!.
  - cbn [go_along]. rewrite E1. exact E2.
  - by rewrite wire_end_cons.
  - done.
  - lia.
  - lia.
  - split; [done|congruence|cbn [length]; lia| | |done|by rewrite Hk2, Hk1| |].
    + cbn [chained]. split; [|done]. rewrite Ho2; [done|apply ground_2|done].
    + intros u Hu [Hne Hnu]%not_elem_of_cons. rewrite Ho2, Ho1 by done. done.
    + intros [|i] u; cbn [lookup list_lookup].
      * intros [= <-]. rewrite Hoc2, Hc1, decide_True by done. f_equal. lia.
      * intros Hi. apply Hc2 in Hi. rewrite Hi. fold n. rewrite Hk1. fold n.
        replace (pre + 1 + Z.of_nat (S i)) with (pre + 1 + (1 + Z.of_nat i)) by lia.
        rewrite <-(Zplus_mod_idemp_l (pre + 1)), Z.add_assoc. done.
    + intros u [Hne Hnu]%not_elem_of_cons. rewrite Hoc2, Hc1, decide_False by done. done.
Qed.

(** ** The buffers *)

Definition southern : list move := [East; South; West; South; East; South; West].
Definition eastern : list move := [South; East; North; East; South; East; North].

(** The buffers with the tiles they pass and how many of them are clocked. *)
Definition buffers : list ((layout → ucoord_t → Z → option (layout * Z)) * list move * nat) :=
  [(buffer_south_case_one, southern, 7%nat); (buffer_south_case_two, southern ++ [South], 7%nat);
   (buffer_east_case_one, eastern ++ [East], 8%nat); (buffer_east_case_two, eastern, 7%nat)].

Ltac peel :=
  match goal with |- mbind _ ?x = _ => destruct x as [?|]; cbn [mbind option_bind]; [|done] end.

Lemma buffer_moves l src pre :
  let route ms := go_along ms (l, src, pre) ≫= λ '(l, t, _), Some (l, to_uint64 t) in
  buffer_south_case_one l src pre = route southern ∧
  buffer_south_case_two l src pre =
    ('(l, t, _) ← go_along southern (l, src, pre); '(l, a) ← move_wire South l t; Some (l, to_uint64 (of_uint64 a))) ∧
  buffer_east_case_one l src pre = route (eastern ++ [East]) ∧
  buffer_east_case_two l src pre = route eastern.
Proof.
  unfold buffer_south_case_one, buffer_south_case_two, buffer_east_case_one, buffer_east_case_two,
    southern, eastern. cbv zeta. cbn [go_along go app]. split_and!; repeat peel; by repeat case_match.
Qed.

Lemma at_source src : ground src → at_offset src (0, 0) = src.
Proof.
  intros [[(Hd & Hz & Hy & Hx) Hdead] Hg]. unfold at_offset, ucoord2. cbn [fst snd].
  rewrite !Z.add_0_r, !wrap_small by done. destruct src as [d z y x]. unfold is_dead in Hdead.
  unfold in_width in *. simpl in *. f_equal; lia.
Qed.

Lemma path_NoDup src o ms :
  NoDup (offsets o ms) → (∀ p, p ∈ offsets o ms → 0 <= ux src + p.1 < 2 ^ 31 ∧ 0 <= uy src + p.2 < 2 ^ 31) →
  NoDup (path src o ms).
Proof.
  intros Hnd Hin. apply NoDup_fmap_2_strong; [|done]. intros p q Hp Hq [= E1 E2].
  apply Hin in Hp as [Hp1 Hp2], Hq as [Hq1 Hq2]. rewrite !wrap_small in E1, E2 by (unfold in_width; lia).
  destruct p, q. simpl in *. f_equal; lia.
Qed.

(** The moves stay within the coordinates and do not meet. *)
Definition clear (ms : list move) : Prop :=
  ∀ src, ground src → 1 <= ux src < 2 ^ 31 - 8 → uy src < 2 ^ 31 - 8 →
    rooms src (0, 0) ms ∧ NoDup (path src (0, 0) ms).

Lemma moves_clear ms : ms = southern ++ [South] ∨ ms = southern ∨ ms = eastern ++ [East] ∨ ms = eastern → clear ms.
Proof.
  intros Hms src [[(_ & _ & [Hy _] & _) _] _] Hx Hy'. split.
  - destruct Hms as [->|[->|[->| ->]]]; cbn [rooms southern eastern app step fst snd];
      unfold room; split_and!; lia || done.
  - apply path_NoDup.
    + destruct Hms as [->|[->|[->| ->]]]; apply (bool_decide_eq_true_1 _); vm_compute; reflexivity.
    + apply Forall_forall. destruct Hms as [->|[->|[->| ->]]]; cbn [offsets southern eastern app step fst snd];
        repeat constructor; cbn [fst snd]; lia.
Qed.

(** A route that is clocked to its end. *)
Lemma clocked_route ms l src pre :
  clear ms → (length ms <= 8)%nat → layout_wf l → two_layers l → scheme_wf (scheme l) → ground src →
  1 <= ux src < 2 ^ 31 - 8 → uy src < 2 ^ 31 - 8 → num_nodes l + 8 <= 2 ^ 32 → 0 <= pre < 255 →
  (∀ t, t ∈ path src (0, 0) ms → contents l t = None) →
  ∃ l' t cn, go_along ms (l, src, pre) = Some (l', t, cn) ∧
    to_uint64 t = wire_end (to_uint64 src) (path src (0, 0) ms) ∧
    t = at_offset src (foldl (λ o m, step m o) (0, 0) ms) ∧
    delays l l' (to_uint64 src) pre (path src (0, 0) ms).
Proof.
  intros Hms Hlen Hl Hz Hs Hsrc Hx Hy Hsz Hpre Hempty. destruct (Hms src Hsrc Hx Hy) as [Hr Hnd].
  destruct (route_spec src ms l (0, 0) pre) as (l' & t & cn & E & Et & Eo & _ & Hd); [done..|lia|done|].
  rewrite at_source in E, Et, Hd by done. by exists l', t, cn.
Qed.

(** What a buffer through the tiles [ts] does, of which the first [k] are clocked. *)
Definition buffered l src pre (ts : list ucoord_t) (k : nat) (r : option (layout * Z)) : Prop :=
  ∃ l', r = Some (l', wire_end (to_uint64 src) ts) ∧ layout_wf l' ∧
    chained l' (to_uint64 src) ts ∧
    (∀ i t, ts !! i = Some t → get_clock_number l' t =
       if (i <? k)%nat then (pre + 1 + Z.of_nat i) mod ClockingScheme.num_clocks (scheme l)
       else get_clock_number l t) ∧
    (∀ u, live u → u ∉ ts → contents l' u = contents l u) ∧
    (∀ u, u ∉ ts → get_clock_number l' u = get_clock_number l u).

Lemma clocked_buffer ms l src pre :
  clear ms → (length ms <= 8)%nat → layout_wf l → two_layers l → scheme_wf (scheme l) → ground src →
  1 <= ux src < 2 ^ 31 - 8 → uy src < 2 ^ 31 - 8 → num_nodes l + 8 <= 2 ^ 32 → 0 <= pre < 255 →
  (∀ t, t ∈ path src (0, 0) ms → contents l t = None) →
  buffered l src pre (path src (0, 0) ms) (length (path src (0, 0) ms))
    (go_along ms (l, src, pre) ≫= λ '(l, t, _), Some (l, to_uint64 t)).
Proof.
  intros. destruct (clocked_route ms l src pre) as (l' & t & cn & -> & Et & _ & [Hl' _ _ Hch Ho _ _ Hc Hoc]); [done..|].
  exists l'. cbn [mbind option_bind]. split_and!; [by rewrite Et|done|done| |done|done].
  intros i u Hi. rewrite (Hc i u Hi). apply lookup_lt_Some in Hi. by rewrite (proj2 (Nat.ltb_lt _ _)).
Qed.

Lemma path_snoc src ms m :
  path src (0, 0) (ms ++ [m]) =
    path src (0, 0) ms ++ [at_offset src (step m (foldl (λ o m, step m o) (0, 0) ms))].
Proof.
  unfold path. enough (∀ o, offsets o (ms ++ [m]) = offsets o ms ++ [step m (foldl (λ o m, step m o) o ms)]) as ->
    by by rewrite fmap_app.
  induction ms as [|m' ms IH]; intros o; [done|]. cbn [app offsets foldl]. by rewrite IH.
Qed.

Lemma chained_snoc l t ts : ∀ a,
  chained l a ts → contents l t = Some (2, [wire_end a ts]) → chained l a (ts ++ [t]).
Proof.
  induction ts as [|u ts IH]; intros a Hch Ht; [done|]. destruct Hch as [Hu Hch].
  split; [done|]. apply IH; [done|]. by rewrite <-(wire_end_cons a).
Qed.

Lemma chained_frame l l' ts : ∀ a,
  (∀ u, u ∈ ts → contents l' u = contents l u) → chained l a ts → chained l' a ts.
Proof.
  induction ts as [|u ts IH]; intros a Hc Hch; [done|]. destruct Hch as [Hu Hch].
  split; [rewrite Hc; [done|by left]|]. apply IH; [intros v Hv; apply Hc; by right|done].
Qed.

(** A wire behind a delay, which keeps its clock number. *)
Lemma unclocked_wire m l l1 src o pre ts :
  let t1 := at_offset src (step m o) in
  delays l l1 (to_uint64 src) pre ts → two_layers l → Forall live ts →
  to_uint64 (at_offset src o) = wire_end (to_uint64 src) ts →
  room m (ux src + o.1) (uy src + o.2) → t1 ∉ ts → contents l t1 = None →
  num_nodes l + Z.of_nat (length ts) < 2 ^ 32 →
  ∃ l2, move_wire m l1 (at_offset src o) = Some (l2, to_uint64 t1) ∧
    buffered l src pre (ts ++ [t1]) (length ts) (Some (l2, to_uint64 t1)).
Proof.
  intros t1 [Hl1 Hb1 Hn1 Hch Ho _ Hk Hc Hoc] Hz Hlive Hend Hroom Hnin Hempty Hsz.
  assert (ground t1) as Ht1 by apply ground_2.
  rewrite move_wire_tile by done. fold t1.
  change (place_wires l1 (to_uint64 (at_offset src o)) [t1])
    with (GateLevel.create_buf l1 (to_uint64 (at_offset src o)) (wire_tile l1 t1)).
  assert (contents l1 t1 = None) as Ht1e by (rewrite Ho; [done|apply Ht1|done]).
  assert (wire_tile l1 t1 = t1) as ->.
  { unfold wire_tile. apply is_empty_contents in Ht1e; [by rewrite Ht1e|done|apply Ht1]. }
  destruct (create_buf_contents l1 (to_uint64 (at_offset src o)) t1)
    as (l2 & E2 & [Hl2 Hcl2 _ _ _ _ _] & Hcont); [done|apply Ht1|lia|].
  exists l2. split; [done|].
  assert (∀ u, live u → u ≠ t1 → contents l2 u = contents l1 u) as Hsame
    by (intros u Hu Hne; by rewrite Hcont, decide_False).
  assert (∀ u, get_clock_number l2 u = get_clock_number l1 u) as Hck
    by (intros u; unfold get_clock_number; by rewrite Hcl2).
  exists l2. split_and!.
  - f_equal. f_equal. unfold wire_end. by rewrite last_snoc.
  - done.
  - apply chained_snoc.
    + apply (chained_frame l1); [|done]. intros u Hu. apply Hsame.
      * by apply (proj1 (Forall_forall _ _) Hlive).
      * by intros ->.
    + by rewrite Hcont, decide_True, Hend by (done || apply Ht1).
  - intros i u Hi. rewrite Hck. apply lookup_app_Some in Hi as [Hi|[Hge Hi]].
    + rewrite (Hc i u Hi). apply lookup_lt_Some in Hi. by rewrite (proj2 (Nat.ltb_lt _ _)).
    + rewrite (proj2 (Nat.ltb_ge _ _)) by done. apply list_elem_of_lookup_2, list_elem_of_singleton in Hi as ->.
      by apply Hoc.
  - intros u Hu [Hu1 Hu2]%not_elem_of_app. rewrite Hsame by (done || by intros ->; apply Hu2; left). by apply Ho.
  - intros u [Hu1 Hu2]%not_elem_of_app. rewrite Hck. by apply Hoc.
Qed.

(** The longer southern buffer. *)
Lemma south_case_two_buffered l src pre :
  layout_wf l → two_layers l → scheme_wf (scheme l) → ground src →
  1 <= ux src < 2 ^ 31 - 8 → uy src < 2 ^ 31 - 8 → num_nodes l + 8 <= 2 ^ 32 → 0 <= pre < 255 →
  (∀ t, t ∈ path src (0, 0) (southern ++ [South]) → contents l t = None) →
  buffered l src pre (path src (0, 0) (southern ++ [South])) 7 (buffer_south_case_two l src pre).
Proof.
  intros Hl Hz Hs Hsrc Hx Hy Hsz Hpre Hempty. destruct (buffer_moves l src pre) as (_ & -> & _).
  destruct (moves_clear (southern ++ [South]) ltac:(auto) src Hsrc Hx Hy) as [_ Hnd].
  rewrite path_snoc in *. apply NoDup_app in Hnd as (_ & Hnin & _).
  assert (∀ u, u ∈ path src (0, 0) southern → contents l u = None) as Hempty1
    by (intros u Hu; apply Hempty, elem_of_app; by left).
  assert (clear southern) as Hcl by (apply moves_clear; auto).
  destruct (clocked_route southern l src pre) as (l1 & t & cn & -> & Et & Eo & Hd); try done; [simpl; lia|].
  destruct (unclocked_wire South l l1 src (foldl (λ o m, step m o) (0, 0) southern) pre (path src (0, 0) southern))
    as (l2 & E2 & Hbuf); [done|done| |by rewrite <-Eo| |..].
  - apply Forall_forall. intros u (v & -> & _)%list_elem_of_fmap. apply ground_2.
  - destruct Hsrc as [[(_ & _ & [Hy0 _] & _) _] _]. cbn [foldl southern step fst snd]. unfold room. split_and!; lia || done.
  - intros Hin. apply (Hnin _ Hin). by left.
  - apply Hempty, elem_of_app. right. by left.
  - change (length (path src (0, 0) southern)) with 7%nat. lia.
  - cbn [mbind option_bind]. rewrite Eo. change (wire_south l1 ?u _) with (move_wire South l1 u).
    rewrite E2. cbn [mbind option_bind].
    rewrite of_to_uint64 by apply ground_2. exact Hbuf.
Qed.

(** C21: From a tile with free tiles around it, each buffer of the majority gates is placed without
    overwriting anything: a chain of wires through 7 or 8 neighboring tiles, whose clock numbers, modulo
    the number of clocks, are those behind the given one, in order, whatever the clocking scheme
    (all but the last tile of the longer southern one); no other tile or clock number changes. *)
Theorem buffers_delay buffer ms k l src pre :
  (buffer, ms, k) ∈ buffers →
  layout_wf l → two_layers l → scheme_wf (scheme l) → ground src →
  1 <= ux src < 2 ^ 31 - 8 → uy src < 2 ^ 31 - 8 → num_nodes l + 8 <= 2 ^ 32 → 0 <= pre < 255 →
  (∀ t, t ∈ path src (0, 0) ms → contents l t = None) →
  buffered l src pre (path src (0, 0) ms) k (buffer l src pre).
Proof.
  intros Hbuf Hl Hz Hs Hsrc Hx Hy Hsz Hpre Hempty.
  destruct (buffer_moves l src pre) as (E1 & _ & E3 & E4).
  unfold buffers in Hbuf. rewrite !elem_of_cons, elem_of_nil in Hbuf.
  destruct Hbuf as [[= -> -> ->]|[[= -> -> ->]|[[= -> -> ->]|[[= -> -> ->]|[]]]]].
  - rewrite E1. apply (clocked_buffer southern); [by apply moves_clear; auto|simpl; lia|done..].
  - by apply south_case_two_buffered.
  - rewrite E3. apply (clocked_buffer (eastern ++ [East])); [by apply moves_clear; auto|simpl; lia|done..].
  - rewrite E4. apply (clocked_buffer eastern); [by apply moves_clear; auto|simpl; lia|done..].
Qed.
End Delays.
