(* ===== verification/NewRoutingExamples.v ===== *)
(** * Delays on an example layout

    Two inputs on a layout of 8 x 8 tiles; the first one is delayed by seven phases around free tiles.
    Where the buffer has to cross another wire, its tile in the crossing layer keeps its clock number. *)

From S2P Require Import Prelude.
From S2P Require Import Coordinates.
From S2P Require Import CoordinateLayout.
From S2P Require Import CartesianLayout.
From S2P Require Import ClockingScheme.
From S2P Require Import ClockedLayout.
From S2P Require Import GateLevelLayout.
From S2P Require Import GateLevelInvariant.
From S2P Require Import MockturtleModel.
From S2P Require Import GateLevelProperties.
From S2P Require Import PlacementUtils.
From S2P Require Import Orthogonal.
From S2P Require Import LayoutBuilding.
From S2P Require Import NewRouting.
From S2P Require Import NewRoutingProperties.
#[local] Open Scope Z_scope.
Import Offset.

Module RoutedLayouts.
Import Building Routing Orthogonal NewRouting.

(** Four phases, 2DDWave, two layers. *)
Definition wide : Clocked.clocked_layout cartesian :=
  Clocked.ClockedLayout (Cartesian.make (UCoord 0 1 7 7)) (twoddwave_clocking 3 FOUR).

Definition inputs : layout := built wide "" [CreatePi "a" (tile 1 1); CreatePi "b" (tile 0 2)].

(** The winding wire to the east, from the input at (1, 1), whose clock number is 2. *)
Definition winding : list ucoord_t := path (tile 1 1) (0, 0) eastern.

Lemma winding_free : Forall (λ t, contents inputs t = None) winding.
Proof.
  change winding with [tile 1 2; tile 2 2; tile 2 1; tile 3 1; tile 3 2; tile 4 2; tile 4 1].
  repeat constructor; vm_compute; reflexivity.
Qed.

Lemma buffers_delay_witness :
  winding = [tile 1 2; tile 2 2; tile 2 1; tile 3 1; tile 3 2; tile 4 2; tile 4 1] ∧
  buffered inputs (tile 1 1) 2 winding 7 (buffer_east_case_two inputs (tile 1 1) 2).
Proof.
  split; [vm_compute; reflexivity|]. apply (buffers_delay buffer_east_case_two eastern 7%nat).
  - apply list_elem_of_lookup_2 with 3%nat. reflexivity.
  - apply built_spec. allowed_by_evaluation.
  - vm_compute. reflexivity.
  - exact example_scheme_wf.
  - by repeat split.
  - vm_compute. split; [discriminate|reflexivity].
  - vm_compute. reflexivity.
  - vm_compute. discriminate.
  - lia.
  - exact (proj1 (Forall_forall _ _) winding_free).
Defined.

(** A wire down the third column, through (2, 1). *)
Definition column : layout :=
  built wide "" [CreatePi "a" (tile 1 1); CreatePi "b" (tile 2 0); CreateBuf (sig 2 0) (tile 2 1)].

Definition delayed : layout :=
  match buffer_east_case_two column (tile 1 1) 2 with Some (l, _) => l | None => no_layout end.

(** The buffer crosses the wire at (2, 1): its own segment, in the crossing layer, is clocked by the
    scheme with 3 instead of 1, and it is the crossed wire whose clock number becomes 1, which breaks its
    connection to the input above with clock number 2. *)
Example crossing_not_clocked :
  snd <$> contents delayed (UCoord 0 1 1 2) = Some [sig 2 2] ∧
  get_clock_number delayed (tile 2 2) = 0 ∧ get_clock_number delayed (UCoord 0 1 1 2) = 3 ∧
  get_clock_number column (tile 2 0) = 2 ∧ get_clock_number column (tile 2 1) = 3 ∧
  get_clock_number delayed (tile 2 1) = 1.
Proof. vm_compute. repeat split. Qed.

End RoutedLayouts.
